(* ===== verification/_CoqProject ===== *)
-Q . S2P
Prelude.v
Bytes.v
Effect.v
Buffer.v
Linked.v
Pmm.v
Heap.v
Sched.v
Packet.v
Net.v
Tcp.v
Dns.v
Table.v
Acl.v
VfsTypes.v
Vfs.v
Block.v
Fat.v
FatDir.v
FatFile.v
FatVfs.v
KString.v
Rbac.v
Sandbox.v
Capability.v
Ipc.v
Sync.v
Lockfree.v
Vmm.v
DirectMap.v
Sha2.v
Aes.v
Bn.v
Rsa.v
Kdf.v
Passwd.v
DiskCrypt.v
