(* ===== verification/Prelude.v ===== *)
(** * ScarlettOS kernel: a verification library

    ScarlettOS is a kernel in C with user-space drivers and services around it.  This
    library models the parts of the kernel that keep the system's promises: memory,
    scheduling, access control, message passing, locks, the network stack, the file
    systems and the cryptography.  Definitions are translated from the C sources under
    src/ and keep their names; the theorems say what the code does, on every path,
    including where it differs from what it is meant to do.

    ** Files

    Shared: this file (machine integers, C arrays, error codes, loops, tactics),
    [Bytes] (byte buffers and blocks), [Effect] (the monad of state and failure),
    [Buffer] (structures read and written in buffers), [Linked] (lists linked through the
    objects of a store), [Table] (counted arrays that are searched and compacted).

    Memory.  [Pmm]: kernel/mm/pmm.c, the bitmap of page frames with its reference
    counts.  [Heap]: kernel/mm/heap.c and slab.c, [kmalloc], [kfree], [krealloc] and the
    slab caches, which call each other.  [Vmm]: kernel/mm/vmm.c, page tables in physical
    memory, on top of [Pmm], and the processor's translation with its huge pages.
    [DirectMap]: [vmm_init] of the same file, which maps all of memory.

    Threads.  [Sched]: kernel/sched/scheduler.c, load_balance.c, work_stealing.c and
    cpu_affinity.c, run queues linked through the threads.  [Sync]: kernel/sync, the
    spinlock and the mutex at the grain of one memory access, the semaphore and the
    read-write lock above them.  [Lockfree]: kernel/sync/lockfree.c, the stack and the
    queue without locks, at the same grain.

    Network.  [Packet]: the layouts of the packets and the Internet checksum.  [Net]:
    kernel/net/network.c, ethernet.c, arp.c, ip.c, icmp.c and udp.c.  [Tcp]:
    kernel/net/tcp.c and socket.c, which use [Net] through the class [Network].  [Dns]:
    kernel/net/dns.c, on the sockets of [Tcp].

    Storage.  [Block]: kernel/fs/block.c, the devices, with the class [Disk] for what a
    driver promises.  [Fat]: kernel/fs/fat32.c, the table of clusters on such a device.
    [FatDir]: fat32_utils.c, fat32_create.c and fat32_dir.c, paths, dates and
    directories, and rename and stat of fat32_vfs.c.  [FatFile]: fat32_file.c, open
    files.  [VfsTypes]: kernel/include/fs/vfs.h, the operations of a file system.  [Vfs]:
    kernel/fs/vfs.c, mount points and descriptors, for any file systems.  [FatVfs]:
    fat32_vfs.c, which joins the two.  [DiskCrypt]: disk_encryption.c, a device that encrypts
    what it stores on another one, and the dispatch over the ciphers of crypto.c.

    Access control.  [Acl]: kernel/fs/permissions.c and acl.c.  [Rbac], [Sandbox],
    [Capability]: the files of those names in kernel/security.  [Ipc]:
    kernel/ipc/ipc.c, ports and message queues, which use the capabilities through the
    class [CapSystem].

    Cryptography and accounts.  [Sha2]: kernel/crypto/sha256.c and sha512.c.  [Aes]:
    aes128.c, aes192.c and aes256.c.  [Bn] and [Rsa]: bn.c and the RSA functions of
    crypto.c.  [Kdf]: the hash dispatch, HMAC and PBKDF2 of crypto.c and
    kernel/auth/password_hash.c.  [Passwd]: kernel/auth/user_persistence.c and user.h.
    [KString]: kernel/core/string.c.

    ** How the code is represented

    The state of a component is a record of the static variables of its files; an
    operation is a function from the state, or a computation in the monad of [Effect]
    where the code follows pointers.  Unsigned integers are integers with the
    wrap-around written out.  Objects on the heap live in finite maps from their
    addresses, so that aliasing and use after free are visible; an access to an object
    that is not there is [Fault].  Where several calls can interleave ([Ipc], [Sync],
    [Lockfree]) the system is a step relation and the theorems hold of every reachable state;
    elsewhere the operations run one at a time, under their lock.

    Code that is not part of a component is a parameter of it: the results of
    [kmalloc], the contents of new memory, the drivers, the clock, the hardware walk of
    the page tables.  What a theorem needs of a parameter is a hypothesis, and its
    witness gives an instance.

    ** What is shown

    - Invariants of all reachable states: the allocator's counters agree with its
      bitmap ([Pmm]), the blocks of the heap tile it and free neighbours are merged, for
      requests of up to 2^28 bytes ([Heap]), capability tables and ids ([Capability]), and
      the lists and descriptors of the virtual file system, whose calls all return if those
      of the file systems below do ([Vfs]).  The calls on ports are split where they give up
      their lock; the queues and waiters are consistent in every interleaving, and a stage
      crashes only if its port was destroyed in between ([Ipc]).
    - Refinements: access control lists, roles and sandboxes to finite maps and sets, the
      checks of limits included ([Acl], [Rbac], [Sandbox]); the linked run queues to lists of
      threads, with what adding a thread that is queued already does to them ([Sched]);
      the receive buffer of a connection to a bounded queue of bytes ([Tcp]); the cached
      and mirrored table of clusters to a map ([Fat]), and an open file with its buffer
      of one cluster to a sequence of bytes with a position ([FatFile]); an encrypting device
      to a disk of the plain blocks ([DiskCrypt]); the stack and the queue without locks to
      sequential ones, in every interleaving of one consumer with producers of the stack, and
      with one producer of the queue ([Lockfree]).
    - Behaviour: allocation and release ([Pmm], [Heap]), round-robin scheduling and
      waking ([Sched]), FIFO delivery and access checks ([Ipc]), which rights a process can
      come to have ([Capability]), mutual exclusion ([Sync]), the direct map of all of memory
      ([DirectMap]), echo and address resolution between two hosts and the
      detection of damaged headers ([Net]), paths that lead to the file system mounted there
      ([Vfs]), and a directory made and listed through all layers of the storage
      ([FatVfs]).
    - Cryptography: streaming equals one-shot hashing ([Sha2]), decryption inverts
      encryption ([Aes]), exact arithmetic ([Bn]), PBKDF2 and password strings against
      their specifications ([Kdf]), the user file ([Passwd]).
    - Formats: names on the wire ([Dns]), paths, dates and directory entries ([FatDir]).
    - Faults of the code, as theorems: small [kmalloc] calls that deadlock ([Heap]),
      threads that run after they sleep or exit and threads that are lost ([Sched]), ports
      that are used after they were destroyed ([Ipc]), page mappings that go astray
      ([Vmm]), division of numbers of two or more words and
      what follows for RSA ([Rsa]), packets that are read past their buffer ([Net]), a
      connection that is accepted after it was freed, ports in the wrong byte order and
      descriptors that name another socket ([Tcp]), host names that are never resolved
      ([Dns]), files that are not found after they are created ([FatDir]), bytes that are
      written to the wrong cluster ([FatFile]), files of a FAT volume that cannot be
      opened ([FatVfs]), nodes that are used after another thread has freed them
      ([Lockfree]), and others named in the files.

    ** Fuel

    A loop over a linked list takes as many steps as there are objects in the store, one
    more than an acyclic list has nodes; loops over arrays recurse over their size.  The
    carries of a checksum fold in three rounds ([Packet.fold_fuel]).  [arp_resolve]
    sleeps 10 of at most 1000 ms in each round, so 102 rounds are enough ([Net]).  A
    name is decoded within twice the length of its message ([Dns.dns_decode_ends]).  A
    chain of clusters that ends has no cycle, so walks along it take at most the number of
    clusters ([Fat.fat_chain_length]); reads and writes of a file move by at least one byte
    in each round ([FatFile]), and the years of a date are at most 128 ([FatDir]).  The
    entries that one call of [fat32_readdir] passes over are a parameter.  The loop of
    [vmm_init] moves by 2 MiB in each round ([DirectMap.direct_map_built]).  The
    nesting of [kmalloc] and the slab allocator is bounded by the fuel of [Heap], and the
    theorems say when it is enough.  No theorem holds only because fuel runs out, except
    those that state that the code does not end.

    ** Not modelled

    Assembly, device registers and the hardware layers (kernel/hal, kernel/drivers, the
    driver programs): there is no semantics of them to translate. Console output,
    graphics and the desktop: their effect is on the screen. Two files are not C
    programs: sfs.c breaks off in the middle of a function, and sched_o1.c assigns
    arrays. The file systems ext4 and NTFS, the loader, processes and system calls,
    [mmap], shared memory, DHCP, elliptic curves, the audit log, the applications with
    the text buffers of the editors: not part of this library. Of [Vmm], the TLB and the
    switch of CR3 are left out. The user-space services and
    libraries repeat parts of the kernel and are left out. *)

From stdpp Require Import base tactics list numbers option relations.
From Stdlib Require Import Lia.

#[global] Open Scope Z_scope.

(** ** Machine integers

    An unsigned [w]-bit C integer is a [Z] in [0 .. 2^w - 1]; the wrap-around of
    each operation is written out with [u8], [u16], [u32] and [u64]. *)

Declare Scope cint_scope.
Delimit Scope cint_scope with cint.

Definition wrap (w x : Z) : Z := x mod 2 ^ w.

Abbreviation u8 := (wrap 8).
Abbreviation u16 := (wrap 16).
Abbreviation u32 := (wrap 32).
Abbreviation u64 := (wrap 64).

Definition fits (w x : Z) : Prop := 0 <= x < 2 ^ w.

(** Reinterpretation of a [w]-bit pattern as a signed integer. *)
Definition sext (w x : Z) : Z :=
  let y := wrap w x in if y <? 2 ^ (w - 1) then y else y - 2 ^ w.

(** [(x & m) == m] and [(x & m) != 0], the two flag tests of the kernel. *)
Definition has_all (x m : Z) : bool := Z.land x m =? m.
Definition has_any (x m : Z) : bool := negb (Z.land x m =? 0).

(** ** Error codes of kernel/include/errors.h (the ones the modelled code returns) *)

Inductive error_code_t :=
  | ERR_OK | ERR_INVALID_ARG | ERR_OUT_OF_MEMORY | ERR_NOT_FOUND
  | ERR_ALREADY_EXISTS | ERR_PERMISSION_DENIED | ERR_INVALID_STATE
  | ERR_NOT_SUPPORTED | ERR_FAILED | ERR_INVALID_PID | ERR_DEVICE_NOT_FOUND
  | ERR_TIMEOUT | ERR_NOT_EMPTY | ERR_NOT_A_DIRECTORY | ERR_NOT_DIRECTORY | ERR_IS_DIRECTORY
  | ERR_END_OF_FILE | ERR_DISK_FULL | ERR_IO_ERROR | ERR_INVALID_ELF.

#[global] Instance error_code_eq_dec : EqDecision error_code_t.
Proof. solve_decision. Defined.

(** ** C arrays

    A statically allocated array is its contents by index; every component
    states as an invariant the bounds its indices stay in. *)

Definition arr (A : Type) : Type := Z -> A.

Definition aset {A} (a : arr A) (i : Z) (v : A) : arr A :=
  fun j => if j =? i then v else a j.

Notation "a .[ i <- v ]" := (aset a i v) (at level 1, left associativity) : cint_scope.
Open Scope cint_scope.

(** ** Loops

    [for_loop n lo f s]: [for (i = lo; i < lo + n; i++) s = f i s].
    [find_first p lo n]: the first [i] in [lo .. lo + n - 1] with [p i], the
    search loops that leave at the first hit. *)

Fixpoint for_loop {S} (n : nat) (lo : Z) (f : Z -> S -> S) (s : S) : S :=
  match n with
  | O => s
  | Datatypes.S n' => for_loop n' (lo + 1) f (f lo s)
  end.

Fixpoint find_first (p : Z -> bool) (lo : Z) (n : nat) : option Z :=
  match n with
  | O => None
  | Datatypes.S n' => if p lo then Some lo else find_first p (lo + 1) n'
  end.

(** Number of [i] in [lo .. lo + n - 1] with [p i]: a specification device. *)
Fixpoint count_in (p : Z -> bool) (lo : Z) (n : nat) : Z :=
  match n with
  | O => 0
  | Datatypes.S n' => (if p lo then 1 else 0) + count_in p (lo + 1) n'
  end.

(** ** Little-endian words in a byte array

    A store of an [n]-byte integer at index [o], and the load it pairs with. *)

Definition put_le (n : nat) (a : arr Z) (o v : Z) : arr Z :=
  for_loop n 0 (fun k a => a.[o + k <- Z.land (Z.shiftr v (8 * k)) 255]) a.
Abbreviation put64 := (put_le 8).

Fixpoint get_le (n : nat) (a : arr Z) (o : Z) : Z :=
  match n with
  | O => 0
  | Datatypes.S n' => a o + 256 * get_le n' a (o + 1)
  end.
Abbreviation get64 := (get_le 8).

(** ** Sequences of calls

    [run call ops s] performs the calls [ops] one after the other: the results
    returned, in order, and the final state. *)

Fixpoint run {Op Res St : Type} (call : Op -> St -> Res * St) (ops : list Op) (s : St) : list Res * St :=
  match ops with
  | [] => ([], s)
  | op :: ops =>
      let r := call op s in
      let rs := run call ops (snd r) in (fst r :: fst rs, snd rs)
  end.

(** ** Automation *)

Create HintDb scarlett.

(** Turn the boolean comparisons of the context into propositions. *)
Ltac bprop :=
  repeat match goal with
  | H : (_ && _)%bool = true |- _ => apply andb_prop in H; destruct H
  | H : (_ && _)%bool = false |- _ => apply andb_false_iff in H
  | H : (_ || _)%bool = false |- _ => apply orb_false_iff in H; destruct H
  | H : (_ || _)%bool = true |- _ => apply orb_true_iff in H
  | H : negb _ = true |- _ => apply negb_true_iff in H
  | H : negb _ = false |- _ => apply negb_false_iff in H
  | H : (_ =? _) = true |- _ => apply Z.eqb_eq in H
  | H : (_ =? _) = false |- _ => apply Z.eqb_neq in H
  | H : (_ <? _) = true |- _ => apply Z.ltb_lt in H
  | H : (_ <? _) = false |- _ => apply Z.ltb_ge in H
  | H : (_ <=? _) = true |- _ => apply Z.leb_le in H
  | H : (_ <=? _) = false |- _ => apply Z.leb_gt in H
  end.

(** Case split on the scrutinee of an [if] or a [match] of the goal. *)
Ltac case_if :=
  match goal with
  | |- context [if ?b then _ else _] =>
      lazymatch b with
      | context [if _ then _ else _] => fail
      | _ => let E := fresh "E" in destruct b eqn:E
      end
  end.

(** Boolean arithmetic facts by [lia] on the propositions they reflect. *)
Ltac blia :=
  lazymatch goal with
  | |- true = _ => symmetry; blia
  | |- false = _ => symmetry; blia
  | |- _ = false => apply not_true_iff_false; blia
  | |- _ =>
      repeat rewrite ?andb_true_iff, ?orb_true_iff, ?negb_true_iff, ?andb_false_iff, ?orb_false_iff,
        ?Z.leb_le, ?Z.ltb_lt, ?Z.eqb_eq, ?Z.leb_gt, ?Z.ltb_ge, ?Z.eqb_neq; lia
  end.

(** Decide an [if] of the goal by arithmetic. *)
Ltac if_lia :=
  match goal with
  | |- context [if ?b then _ else _] =>
      lazymatch type of b with bool => idtac end;
      first [replace b with true by blia | replace b with false by blia]
  end; cbv iota.

(** ** Lemmas on machine integers *)

Lemma wrap_small w x : fits w x -> wrap w x = x.
Proof. intros [??]. unfold wrap. by apply Z.mod_small. Qed.

Lemma wrap_fits w x : 0 <= w -> fits w (wrap w x).
Proof. intros. unfold wrap, fits. apply Z.mod_pos_bound. apply Z.pow_pos_nonneg; lia. Qed.

Lemma wrap_wrap w x : 0 <= w -> wrap w (wrap w x) = wrap w x.
Proof. intros. apply wrap_small, wrap_fits; done. Qed.

#[export] Hint Resolve wrap_fits : scarlett.

(** Decide [fits] goals at the concrete widths. *)
Ltac fits_lia :=
  unfold fits in *;
  change (2 ^ 8) with 256 in *; change (2 ^ 16) with 65536 in *;
  change (2 ^ 32) with 4294967296 in *; change (2 ^ 64) with 18446744073709551616 in *;
  lia.

(** [lia] with division and modulo by constants. *)
Ltac dlia := unfold fits in *; Z.div_mod_to_equations; lia.

Ltac nowrap := repeat (rewrite wrap_small by fits_lia).

Lemma has_all_spec x m :
  0 <= m -> has_all x m = true <-> (forall i, 0 <= i -> Z.testbit m i = true -> Z.testbit x i = true).
Proof.
  intros Hm. unfold has_all. rewrite Z.eqb_eq. split.
  - intros H i Hi Hb. rewrite <- H in Hb. rewrite Z.land_spec in Hb. by apply andb_prop in Hb as [? _].
  - intros H. apply Z.bits_inj'. intros i Hi. rewrite Z.land_spec.
    destruct (Z.testbit m i) eqn:E; [|by rewrite andb_false_r].
    by rewrite (H i Hi E).
Qed.

(** ** Lemmas on arrays *)

Lemma aset_eq {A} (a : arr A) i v : (a.[i <- v]) i = v.
Proof. unfold aset. by rewrite Z.eqb_refl. Qed.

Lemma aset_ne {A} (a : arr A) i j v : j <> i -> (a.[i <- v]) j = a j.
Proof. intros. unfold aset. by destruct (Z.eqb_spec j i). Qed.

Lemma aset_aset {A} (a : arr A) i v w j : (a.[i <- v].[i <- w]) j = (a.[i <- w]) j.
Proof. unfold aset. by destruct (j =? i). Qed.

(** ** Lemmas on loops *)

Lemma find_first_Some p lo n i :
  find_first p lo n = Some i <->
  lo <= i < lo + Z.of_nat n /\ p i = true /\ (forall j, lo <= j < i -> p j = false).
Proof.
  revert lo. induction n as [|n IH]; intros lo; simpl.
  { split; [done|]. lia. }
  destruct (p lo) eqn:E.
  - split.
    + intros [= <-]. repeat split; [lia|lia|done|]. intros; lia.
    + intros (? & Hi & Hmin). destruct (decide (lo = i)) as [->|]; [done|].
      rewrite (Hmin lo) in E by lia. done.
  - rewrite IH. split.
    + intros (? & ? & Hmin). repeat split; [lia|lia|done|].
      intros j ?. destruct (decide (j = lo)) as [->|]; [done|]. apply Hmin; lia.
    + intros (? & Hi & Hmin). assert (lo <> i) by congruence.
      repeat split; [lia|lia|done|]. intros; apply Hmin; lia.
Qed.

Lemma find_first_None p lo n :
  find_first p lo n = None <-> (forall j, lo <= j < lo + Z.of_nat n -> p j = false).
Proof.
  revert lo. induction n as [|n IH]; intros lo; simpl.
  { split; [intros; lia|done]. }
  destruct (p lo) eqn:E.
  - split; [done|]. intros H. rewrite (H lo) in E by lia. done.
  - rewrite IH. split.
    + intros H j ?. destruct (decide (j = lo)) as [->|]; [done|]. apply H; lia.
    + intros H j ?. apply H; lia.
Qed.

Lemma find_first_ext p q lo n :
  (forall j, lo <= j < lo + Z.of_nat n -> p j = q j) -> find_first p lo n = find_first q lo n.
Proof.
  revert lo. induction n as [|n IH]; intros lo H; simpl; [done|].
  rewrite <- (H lo) by lia. rewrite IH; [done|]. intros; apply H; lia.
Qed.

Lemma find_first_shift p lo n :
  find_first p (lo + 1) n = (fun i => i + 1) <$> find_first (fun i => p (i + 1)) lo n.
Proof.
  revert lo. induction n as [|n IH]; intros lo; simpl; [done|].
  destruct (p (lo + 1)); [done|]. by rewrite IH.
Qed.

(** The invariant rule of a counted loop. *)
Lemma for_loop_ind {S} (P : Z -> S -> Prop) n lo f s :
  P lo s ->
  (forall i s', lo <= i < lo + Z.of_nat n -> P i s' -> P (i + 1) (f i s')) ->
  P (lo + Z.of_nat n) (for_loop n lo f s).
Proof.
  revert lo s. induction n as [|n IH]; intros lo s H0 Hstep; simpl.
  { by rewrite Z.add_0_r. }
  replace (lo + Z.of_nat (Datatypes.S n)) with ((lo + 1) + Z.of_nat n) by lia.
  apply IH; [apply Hstep; [lia|done]|]. intros i s' ?. apply Hstep; lia.
Qed.

Lemma for_range_ind {S} (P : Z -> S -> Prop) hi f s :
  0 <= hi -> P 0 s -> (forall i s', 0 <= i < hi -> P i s' -> P (i + 1) (f i s')) ->
  P hi (for_loop (Z.to_nat hi) 0 f s).
Proof.
  intros Hh H0 Hstep. pose proof (for_loop_ind P (Z.to_nat hi) 0 f s H0) as H.
  rewrite Z.add_0_l, Z2Nat.id in H by done. by apply H.
Qed.

Lemma for_loop_snoc {S} n lo f (s : S) :
  for_loop (Datatypes.S n) lo f s = f (lo + Z.of_nat n) (for_loop n lo f s).
Proof.
  revert lo s. induction n as [|n IH]; intros lo s; simpl.
  { f_equal; lia. }
  specialize (IH (lo + 1) (f lo s)). simpl in IH. rewrite IH. f_equal. lia.
Qed.

(** Filling the first [n] entries of an array, by a constant or from a source. *)
Lemma fill_loop {A} (f : Z -> A) (a : arr A) (n : nat) j :
  for_loop n 0 (fun k b => b.[k <- f k]) a j = if (0 <=? j) && (j <? Z.of_nat n) then f j else a j.
Proof.
  induction n as [|n IH]; [simpl; if_lia; done|]. rewrite for_loop_snoc. simpl (0 + _).
  destruct (decide (j = Z.of_nat n)) as [->|Hne]; [rewrite aset_eq; if_lia; done|].
  rewrite aset_ne, IH by done. destruct (_ && _) eqn:E; if_lia; done.
Qed.

(** ** Lemmas on counting *)

Lemma count_in_bounds p lo n : 0 <= count_in p lo n <= Z.of_nat n.
Proof. revert lo. induction n as [|n IH]; intros lo; simpl; [lia|]. specialize (IH (lo + 1)). case_if; lia. Qed.

Lemma count_in_ext p q lo n :
  (forall j, lo <= j < lo + Z.of_nat n -> p j = q j) -> count_in p lo n = count_in q lo n.
Proof.
  revert lo. induction n as [|n IH]; intros lo H; simpl; [done|].
  rewrite <- (H lo) by lia. rewrite (IH (lo + 1)); [done|]. intros; apply H; lia.
Qed.

Lemma count_in_neg p lo n : count_in (fun i => negb (p i)) lo n = Z.of_nat n - count_in p lo n.
Proof. revert lo. induction n as [|n IH]; intros lo; simpl; [done|]. rewrite IH. destruct (p lo); simpl; lia. Qed.

(** Changing the predicate at one index of the range. *)
Lemma count_in_flip p q lo n i :
  lo <= i < lo + Z.of_nat n -> (forall j, lo <= j < lo + Z.of_nat n -> j <> i -> q j = p j) ->
  count_in q lo n = count_in p lo n + (if q i then 1 else 0) - (if p i then 1 else 0).
Proof.
  revert lo. induction n as [|n IH]; intros lo Hi H; [lia|]. simpl.
  destruct (decide (lo = i)) as [->|Hne].
  - rewrite (count_in_ext q p (i + 1)); [lia|]. intros; apply H; lia.
  - rewrite (H lo) by (done || lia). rewrite (IH (lo + 1)); [lia|lia|]. intros; apply H; (done || lia).
Qed.

Lemma count_in_all p lo n :
  (forall j, lo <= j < lo + Z.of_nat n -> p j = true) -> count_in p lo n = Z.of_nat n.
Proof.
  revert lo. induction n as [|n IH]; intros lo H; simpl; [done|].
  rewrite H by lia. rewrite (IH (lo + 1)); [lia|]. intros; apply H; lia.
Qed.

Lemma count_in_pos p lo n i :
  lo <= i < lo + Z.of_nat n -> p i = true -> 1 <= count_in p lo n.
Proof.
  revert lo. induction n as [|n IH]; intros lo Hi Hp; [lia|]. simpl.
  pose proof (count_in_bounds p (lo + 1) n).
  destruct (decide (lo = i)) as [->|]; [rewrite Hp; lia|].
  specialize (IH (lo + 1) ltac:(lia) Hp). case_if; lia.
Qed.

(** ** Simulation

    A relation that every call preserves, with equal results, is preserved by
    every sequence of calls, with equal result lists. *)
Lemma run_simulation {Op Res S T : Type} (R : S -> T -> Prop)
  (call : Op -> S -> Res * S) (spec : Op -> T -> Res * T) :
  (forall op s t, R s t -> fst (call op s) = fst (spec op t) /\ R (snd (call op s)) (snd (spec op t))) ->
  forall ops s t, R s t ->
  fst (run call ops s) = fst (run spec ops t) /\ R (snd (run call ops s)) (snd (run spec ops t)).
Proof.
  intros Hsim. induction ops as [|op ops IH]; intros s t H; simpl; [done|].
  destruct (Hsim op s t H) as [-> H1]. destruct (IH _ _ H1) as [-> H2]. done.
Qed.

(** ** Lemmas on little-endian words *)

Lemma put_le_get n (a : arr Z) o v j :
  put_le n a o v j =
  if (o <=? j) && (j <? o + Z.of_nat n) then Z.land (Z.shiftr v (8 * (j - o))) 255 else a j.
Proof.
  unfold put_le. induction n as [|n IH]; [simpl; by if_lia|]. rewrite for_loop_snoc. simpl (0 + _).
  destruct (decide (j = o + Z.of_nat n)) as [->|Hne].
  - rewrite aset_eq. if_lia. do 2 f_equal. lia.
  - rewrite aset_ne, IH by done. destruct ((o <=? j) && (j <? o + Z.of_nat n)) eqn:E; bprop; if_lia; done.
Qed.

Lemma get_le_put n : forall (a : arr Z) o v k,
  (forall j, 0 <= j < Z.of_nat n -> a (o + j) = Z.land (Z.shiftr v (8 * (k + j))) 255) -> 0 <= k ->
  get_le n a o = Z.shiftr v (8 * k) mod 2 ^ (8 * Z.of_nat n).
Proof.
  induction n as [|n IH]; intros a o v k Ha Hk; [by rewrite Z.mod_1_r|]. cbn [get_le].
  rewrite (IH a (o + 1) v (k + 1)); [|intros j Hj; replace (o + 1 + j) with (o + (j + 1)) by lia;
    rewrite Ha by lia; do 3 f_equal; lia|lia].
  replace (a o) with (a (o + 0)) by (f_equal; lia). rewrite Ha by lia.
  replace (8 * (k + 0)) with (8 * k) by lia. replace (8 * (k + 1)) with (8 * k + 8) by lia.
  rewrite <- Z.shiftr_shiftr by lia. set (x := Z.shiftr v (8 * k)).
  change 255 with (Z.ones 8). rewrite Z.land_ones by lia. rewrite Z.shiftr_div_pow2 by lia.
  replace (8 * Z.of_nat (Datatypes.S n)) with (8 + 8 * Z.of_nat n) by lia.
  rewrite Z.pow_add_r, Z.rem_mul_r by lia. done.
Qed.

Lemma get_put_le n (a : arr Z) o v : get_le n (put_le n a o v) o = v mod 2 ^ (8 * Z.of_nat n).
Proof.
  rewrite (get_le_put n _ o v 0); [by rewrite Z.mul_0_r, Z.shiftr_0_r| |lia].
  intros j Hj. rewrite put_le_get. if_lia. do 3 f_equal. lia.
Qed.

Lemma get_le_ext n : forall (a b : arr Z) o,
  (forall j, o <= j < o + Z.of_nat n -> a j = b j) -> get_le n a o = get_le n b o.
Proof.
  induction n as [|n IH]; intros a b o H; [done|]. cbn [get_le].
  rewrite (H o), (IH a b (o + 1)); [done| |lia]. intros; apply H; lia.
Qed.

(** ** Pairs *)

(** A call whose result and final state are known separately. *)
Lemma split_pair {A B} (p : A * B) a b : fst p = a -> snd p = b -> p = (a, b).
Proof. by destruct p as [x y]; intros <- <-. Qed.
