(* ===== verification/Bytes.v ===== *)
(** * Byte buffers

    Library file for the cryptographic components: byte lists written at an
    offset, big-endian integers, tables written as hexadecimal digits, bytewise
    exclusive or, and the block-wise folding of a message that the hash functions
    share. *)

From Stdlib Require Import Lia String Ascii List.
From stdpp Require Import base tactics list numbers option.
From S2P Require Import Prelude.

#[local] Open Scope nat_scope.

(** ** Tables written in hexadecimal *)

Definition hex_digit (c : ascii) : option Z :=
  let n := Z.of_nat (nat_of_ascii c) in
  if (48 <=? n)%Z && (n <=? 57)%Z then Some (n - 48)%Z
  else if (97 <=? n)%Z && (n <=? 102)%Z then Some (n - 87)%Z
  else None.

(** Words separated by blanks; [acc] is the word being read. *)
Fixpoint hex_words (acc : option Z) (s : string) : list Z :=
  match s with
  | EmptyString => option_list acc
  | String c s =>
      match hex_digit c with
      | Some d => hex_words (Some (16 * default 0 acc + d)%Z) s
      | None => option_list acc ++ hex_words None s
      end
  end.

Definition hex_table (s : string) : list Z := hex_words None s.

(** The bytes of a string of characters. *)
Definition text (s : string) : list Z := (fun c => Z.of_nat (nat_of_ascii c)) <$> list_ascii_of_string s.

(** ** Buffers

    [buf_write b o src]: the bytes [src] stored in [b] from offset [o] on, what
    [memcpy] and [memset] do to a buffer that is long enough. *)

Definition buf_write (b : list Z) (o : nat) (src : list Z) : list Z :=
  take o b ++ src ++ drop (o + length src) b.

(** [n] bytes of [v], most significant first. *)
Definition be_bytes (n : nat) (v : Z) : list Z :=
  (fun i => u8 (Z.shiftr v (8 * Z.of_nat (n - 1 - i)))) <$> seq 0 n.

(** The big-endian value of a byte list, as nested shifts and ors compute it. *)
Definition be_value (l : list Z) : Z := fold_left (fun a b => Z.lor (Z.shiftl a 8) b) l 0%Z.

Definition xor_bytes (a b : list Z) : list Z := zip_with Z.lxor a b.

Definition bytes (l : list Z) : Prop := Forall (fits 8) l.

(** ** Lemmas on buffers *)

Lemma buf_write_length b o src : o + length src <= length b -> length (buf_write b o src) = length b.
Proof. intros. unfold buf_write. rewrite !length_app, length_take, length_drop. lia. Qed.

Lemma buf_write_take b o src : o + length src <= length b -> take (o + length src) (buf_write b o src) = take o b ++ src.
Proof.
  intros. unfold buf_write. rewrite app_assoc. rewrite take_app_le by (rewrite length_app, length_take; lia).
  apply take_ge. rewrite length_app, length_take. lia.
Qed.

Lemma buf_write_drop b o src : o + length src <= length b -> drop (o + length src) (buf_write b o src) = drop (o + length src) b.
Proof.
  intros. unfold buf_write. rewrite app_assoc.
  rewrite drop_app_ge by (rewrite length_app, length_take; lia).
  rewrite length_app, length_take, Nat.min_l by lia. by rewrite Nat.sub_diag, drop_0.
Qed.

(** A write that reaches the end of the buffer. *)
Lemma buf_write_full b o src : o + length src = length b -> buf_write b o src = take o b ++ src.
Proof. intros H. unfold buf_write. by rewrite H, drop_all, app_nil_r. Qed.

(** Two writes one behind the other up to the end. *)
Lemma buf_write_twice b o p c :
  o + length p + length c = length b -> buf_write (buf_write b o p) (o + length p) c = take o b ++ p ++ c.
Proof.
  intros H. rewrite buf_write_full by (rewrite buf_write_length; lia).
  by rewrite buf_write_take, <- app_assoc by lia.
Qed.

Lemma drop_repeat {A} (x : A) k : forall n, drop n (repeat x k) = repeat x (k - n).
Proof. induction k as [|k IH]; intros [|n]; try done. simpl. apply IH. Qed.

Lemma lookup_repeat {A} (x : A) k : forall i, i < k -> repeat x k !! i = Some x.
Proof. induction k as [|k IH]; intros [|i] Hi; try lia; [done|]. simpl. apply IH. lia. Qed.

Lemma be_bytes_length n v : length (be_bytes n v) = n.
Proof. unfold be_bytes. by rewrite length_fmap, length_seq. Qed.

Lemma be_bytes_ok n v : bytes (be_bytes n v).
Proof. apply Forall_fmap, Forall_forall. intros i _. apply wrap_fits. lia. Qed.

Lemma xor_bytes_length a b : length (xor_bytes a b) = min (length a) (length b).
Proof. apply length_zip_with. Qed.

Lemma xor_bytes_cancel a b : length a = length b -> xor_bytes (xor_bytes a b) b = a.
Proof.
  revert b. induction a as [|x a IH]; intros [|y b] H; try done. simpl. f_equal; [|apply IH; simpl in H; lia].
  by rewrite Z.lxor_assoc, Z.lxor_nilpotent, Z.lxor_0_r.
Qed.

Lemma lxor_fits w x y : (0 <= w)%Z -> fits w x -> fits w y -> fits w (Z.lxor x y).
Proof.
  intros Hw [Hx Hx'] [Hy Hy']. split; [by apply Z.lxor_nonneg|].
  destruct (Z.eq_dec (Z.lxor x y) 0%Z) as [->|Hn]; [apply Z.pow_pos_nonneg; lia|].
  assert (0 < w)%Z. { destruct (Z.eq_dec w 0%Z) as [->|]; [|lia]. assert (x = 0 /\ y = 0)%Z as [-> ->] by lia. by rewrite Z.lxor_0_l in Hn. }
  apply Z.log2_lt_pow2; [pose proof (proj2 (Z.lxor_nonneg x y)); lia|].
  eapply Z.le_lt_trans; [by apply Z.log2_lxor|].
  assert (Hl : forall z, (0 <= z < 2 ^ w)%Z -> (Z.log2 z < w)%Z).
  { intros z [Hz Hz']. destruct (Z.eq_dec z 0%Z) as [->|]; [done|]. apply Z.log2_lt_pow2; lia. }
  apply Z.max_lub_lt; by apply Hl.
Qed.

Lemma xor_bytes_ok a b : bytes a -> bytes b -> bytes (xor_bytes a b).
Proof.
  intros Ha. revert b. induction Ha as [|x a Hx Ha IH]; intros b Hb; [constructor|].
  destruct Hb as [|y b Hy Hb]; [constructor|]. constructor; [by apply lxor_fits|by apply IH].
Qed.

(** Bits below a power of two, or-ed into a multiple of it. *)
Lemma lor_low k s c : (0 <= s)%Z -> (0 <= c < 2 ^ s)%Z -> Z.lor (k * 2 ^ s) c = (k * 2 ^ s + c)%Z.
Proof.
  intros Hs Hc. assert (Hl : Z.land (k * 2 ^ s) c = 0%Z).
  { apply Z.bits_inj'. intros i Hi. rewrite Z.land_spec, Z.bits_0. destruct (decide (i < s)%Z).
    - by rewrite Z.mul_pow2_bits_low by lia.
    - rewrite <- (Z.mod_small c (2 ^ s)) by lia. by rewrite (Z.mod_pow2_bits_high c), andb_false_r by lia. }
  rewrite <- Z.lxor_lor by done. symmetry. by apply Z.add_nocarry_lxor.
Qed.

(** A byte of a value does not depend on how far the value was truncated. *)
Lemma wrap_shiftr_wrap a b x s :
  (0 <= a)%Z -> (0 <= s)%Z -> (s + a <= b)%Z -> wrap a (Z.shiftr (wrap b x) s) = wrap a (Z.shiftr x s).
Proof.
  intros. unfold wrap. apply Z.bits_inj'. intros i Hi. destruct (decide (i < a)%Z).
  - rewrite !Z.mod_pow2_bits_low, !Z.shiftr_spec, Z.mod_pow2_bits_low by lia. done.
  - by rewrite !Z.mod_pow2_bits_high by lia.
Qed.

Lemma wrap_wrap_le a b x : (0 <= a <= b)%Z -> wrap a (wrap b x) = wrap a x.
Proof.
  intros. rewrite <- (Z.shiftr_0_r (wrap b x)), wrap_shiftr_wrap, Z.shiftr_0_r by lia. done.
Qed.

Lemma be_bytes_wrap n w x : (8 * Z.of_nat n <= w)%Z -> be_bytes n (wrap w x) = be_bytes n x.
Proof.
  intros Hw. unfold be_bytes. apply list_fmap_ext. intros i j [-> Hj]%lookup_seq. apply wrap_shiftr_wrap; lia.
Qed.

(** The high bytes of a value come from its shifted value. *)
Lemma be_bytes_app a b x : be_bytes (a + b) x = be_bytes a (Z.shiftr x (8 * Z.of_nat b)) ++ be_bytes b x.
Proof.
  unfold be_bytes. rewrite seq_app, fmap_app. f_equal; [|].
  - apply list_fmap_ext. intros i j [-> Hj]%lookup_seq. rewrite Z.shiftr_shiftr by lia. do 2 f_equal. lia.
  - replace (seq (0 + a) b) with (Nat.add a <$> seq 0 b) by (rewrite fmap_add_seq; f_equal; lia).
    rewrite <- list_fmap_compose. apply list_fmap_ext. intros i j [-> Hj]%lookup_seq. simpl. do 2 f_equal. lia.
Qed.

(** ** Loops that consume data

    [feed round fuel c data]: the loop that hands [data] to [round] until it has
    all been taken; [round] answers the new context and the number of bytes it
    took.  [None]: the fuel ran out. *)

Section feed.
  Context {C : Type} (round : C -> list Z -> C * nat).

Fixpoint feed (fuel : nat) (c : C) (data : list Z) : option C :=
  match data, fuel with
  | [], _ => Some c
  | _, O => None
  | _, S fuel => let (c', copy) := round c data in feed fuel c' (drop copy data)
  end.

(** [ok m c]: the context [c] has taken the message [m]. *)
Context (ok : list Z -> C -> Prop).
Hypothesis round_ok : forall m c data, ok m c -> data <> [] ->
  ok (m ++ take (snd (round c data)) data) (fst (round c data)) /\ 0 < snd (round c data) <= length data.

Lemma feed_ok fuel : forall m c data,
  ok m c -> length data <= fuel -> exists c', feed fuel c data = Some c' /\ ok (m ++ data) c'.
Proof.
  induction fuel as [|fuel IH]; intros m c data Hm Hf.
  - destruct data; [|simpl in Hf; lia]. exists c. by rewrite app_nil_r.
  - destruct data as [|x data]; [exists c; by rewrite app_nil_r|].
    destruct (round_ok m c (x :: data) Hm) as [Hok Hn]; [done|].
    cbn [feed]. destruct (round c (x :: data)) as [c' copy]. simpl fst in *. simpl snd in *.
    destruct (IH _ _ (drop copy (x :: data)) Hok) as (c'' & -> & Hc); [rewrite length_drop; simpl in *; lia|].
    exists c''. split; [done|]. by rewrite <- app_assoc, take_drop in Hc.
Qed.

(** Chunks handed over one after the other. *)
Definition feeds (c : option C) (chunks : list (list Z)) : option C :=
  fold_left (fun c d => c ← c; feed (length d) c d) chunks c.

Lemma feeds_ok chunks : forall m c,
  ok m c -> exists c', feeds (Some c) chunks = Some c' /\ ok (m ++ concat chunks) c'.
Proof.
  induction chunks as [|d chunks IH]; intros m c Hm; [exists c; by rewrite app_nil_r|].
  unfold feeds. simpl. destruct (feed_ok (length d) m c d Hm) as (c' & -> & Hc); [done|].
  destruct (IH _ _ Hc) as (c'' & E & Hc''). exists c''. split; [exact E|]. by rewrite app_assoc.
Qed.

End feed.

(** ** Block-wise folding of a message

    [blocks n h l] folds the first [n] blocks of [B] bytes of [l] into [h].  A
    hash context holds the result for the complete blocks so far and the rest of
    the message at the start of its buffer; [absorbing] relates it to the message. *)

Section blocks.
  Context {H : Type} (B : nat) (f : H -> list Z -> H).

Fixpoint blocks (n : nat) (h : H) (l : list Z) : H :=
  match n with
  | O => h
  | S n => blocks n (f h (take B l)) (drop B l)
  end.

Record absorbing (h0 : H) (m : list Z) (h : H) (buf : list Z) (len : nat) : Prop := {
  ab_buf : length buf = B;
  ab_len : len < B;
  ab_mod : len = length m mod B;
  ab_state : h = blocks (length m / B) h0 m;
  ab_rest : take len buf = drop (B * (length m / B)) m
}.

Lemma blocks_app n : forall h l l', B * n <= length l -> blocks n h (l ++ l') = blocks n h l.
Proof.
  induction n as [|n IH]; intros h l l' Hl; [done|]. simpl.
  rewrite take_app_le, drop_app_le by lia. apply IH. rewrite length_drop. lia.
Qed.

Lemma blocks_S n : forall h l, blocks (S n) h l = f (blocks n h l) (take B (drop (B * n) l)).
Proof.
  induction n as [|n IH]; intros h l; [by rewrite Nat.mul_0_r|].
  change (blocks (S (S n)) h l) with (blocks (S n) (f h (take B l)) (drop B l)).
  rewrite IH. simpl. rewrite drop_drop. do 3 f_equal. lia.
Qed.

Lemma absorbing_start h0 buf : 0 < B -> length buf = B -> absorbing h0 [] h0 buf 0.
Proof. intros HB Hb. split; simpl; rewrite ?Nat.Div0.mod_0_l, ?Nat.Div0.div_0_l; done || (rewrite Nat.mul_0_r; done). Qed.

Lemma div_mod_split (n len : nat) : len < B -> len = n mod B -> n = B * (n / B) + len.
Proof. intros ? ->. apply Nat.div_mod_eq. Qed.

Lemma div_unique n q r : r < B -> n = B * q + r -> n / B = q.
Proof. intros. symmetry. by apply (Nat.div_unique n B q r). Qed.

Lemma mod_unique n q r : r < B -> n = B * q + r -> n mod B = r.
Proof. intros. symmetry. by apply (Nat.mod_unique n B q r). Qed.

(** Data that does not complete the block is only buffered. *)
Lemma absorb_part h0 m h buf len d :
  absorbing h0 m h buf len -> len + length d < B ->
  absorbing h0 (m ++ d) h (buf_write buf len d) (len + length d).
Proof.
  intros [Hb Hl Hm Hh Hr] Hd. pose proof (div_mod_split _ _ Hl Hm) as Hq. set (q := length m / B) in *.
  assert (Hn : length (m ++ d) = B * q + (len + length d)) by (rewrite length_app; lia).
  split.
  - rewrite buf_write_length; lia.
  - done.
  - by rewrite (mod_unique _ _ _ Hd Hn).
  - rewrite (div_unique _ _ _ Hd Hn), blocks_app by lia. done.
  - rewrite (div_unique _ _ _ Hd Hn), buf_write_take, Hr by lia. by rewrite drop_app_le by lia.
Qed.

(** The block that bytes [d] complete. *)
Lemma absorb_block h0 m h buf len d :
  absorbing h0 m h buf len -> len + length d = B ->
  f h (take len buf ++ d) = blocks (S (length m / B)) h0 (m ++ d).
Proof.
  intros [Hb Hl Hm Hh Hr] Hd. pose proof (div_mod_split _ _ Hl Hm) as Hq.
  rewrite blocks_S, blocks_app, <- Hh by lia. f_equal. rewrite Hr, drop_app_le by lia.
  symmetry. apply take_ge. rewrite length_app, length_drop. lia.
Qed.

(** Two blocks that complete a padded message. *)
Lemma absorb_two h0 m h buf len p1 p2 :
  absorbing h0 m h buf len -> len + length p1 = B -> length p2 = B ->
  f (f h (take len buf ++ p1)) p2 = blocks (S (S (length m / B))) h0 (m ++ p1 ++ p2).
Proof.
  intros Ha H1 H2. pose proof Ha as [Hb Hl Hm _ _]. pose proof (div_mod_split _ _ Hl Hm) as Hq.
  rewrite (absorb_block _ _ _ _ _ _ Ha H1), app_assoc, (blocks_S (S _)).
  assert (Hn : length (m ++ p1) = B * S (length m / B)) by (rewrite length_app; lia).
  rewrite (blocks_app (S _) h0 (m ++ p1) p2) by lia. f_equal. rewrite drop_app_ge by lia. rewrite Hn, Nat.sub_diag, drop_0.
  symmetry. apply take_ge. lia.
Qed.

Lemma absorb_fill h0 m h buf len d :
  absorbing h0 m h buf len -> len + length d = B ->
  absorbing h0 (m ++ d) (f h (buf_write buf len d)) (buf_write buf len d) 0.
Proof.
  intros Ha Hd. pose proof Ha as [Hb Hl Hm Hh Hr]. pose proof (div_mod_split _ _ Hl Hm) as Hq.
  assert (Hn : length (m ++ d) = B * S (length m / B) + 0) by (rewrite length_app; lia).
  assert (HB : 0 < B) by lia. split.
  - rewrite buf_write_length; lia.
  - done.
  - by rewrite (mod_unique _ _ _ HB Hn).
  - rewrite (div_unique _ _ _ HB Hn), buf_write_full by lia. by apply absorb_block.
  - rewrite (div_unique _ _ _ HB Hn). symmetry. apply drop_ge. lia.
Qed.

End blocks.

Arguments blocks {_} _ _ _ _ _.
Arguments absorbing {_} _ _ _ _ _ _ _.
