(* ===== verification/Effect.v ===== *)
(** * State and failure

    The monad in which the components that follow pointers are written.  A
    computation starts from the component's state and either returns ([Ret]) or ends
    in one of the ways in which the C code does not:

    - [Fault]: it follows a pointer to memory that holds no object of that kind, or
      indexes an array out of its bounds;
    - [Deadlock]: it takes a spinlock that is already held;
    - [Panic]: it calls [kpanic];
    - [NoFuel]: a loop ran longer than its fuel.  The theorems show that this does not
      happen, or that the code does not terminate. *)

From stdpp Require Import base tactics.

Inductive res (St A : Type) :=
  | Ret (a : A) (s : St)
  | Fault
  | Deadlock
  | Panic
  | NoFuel.
Arguments Ret {St A} a s.
Arguments Fault {St A}.
Arguments Deadlock {St A}.
Arguments Panic {St A}.
Arguments NoFuel {St A}.

Definition M (St A : Type) : Type := St -> res St A.

Section monad.
  Context {St : Type}.

Definition ret {A} (a : A) : M St A := fun s => Ret a s.
Definition bind {A B} (m : M St A) (f : A -> M St B) : M St B := fun s =>
  match m s with Ret a s => f a s | Fault => Fault | Deadlock => Deadlock | Panic => Panic | NoFuel => NoFuel end.
Definition get {A} (f : St -> A) : M St A := fun s => Ret (f s) s.
Definition modify (f : St -> St) : M St unit := fun s => Ret tt (f s).
Definition stop {A} (r : res St A) : M St A := fun _ => r.

(** Running a sequence whose first part is known. *)
Lemma bind_run {A B} (m : M St A) (f : A -> M St B) s a s' : m s = Ret a s' -> bind m f s = f a s'.
Proof. unfold bind. by intros ->. Qed.

(** A sequence returns when its parts do. *)
Lemma bind_Ret {A B} (m : M St A) (f : A -> M St B) s b s'' : bind m f s = Ret b s'' -> exists a s', m s = Ret a s' /\ f a s' = Ret b s''.
Proof. unfold bind. destruct (m s) as [a s'| | | |]; try done. intros H. by exists a, s'. Qed.

(** It returns, with a result and a state of [Q]. *)
Definition runs {A} (m : M St A) (Q : A -> St -> Prop) (s : St) : Prop := exists a s', m s = Ret a s' /\ Q a s'.

Lemma runs_ret {A} (a : A) (Q : A -> St -> Prop) s : Q a s -> runs (ret a) Q s.
Proof. intros H. by exists a, s. Qed.

Lemma runs_bind {A B} (m : M St A) (k : A -> M St B) P Q s : runs m P s -> (forall a s', P a s' -> runs (k a) Q s') -> runs (bind m k) Q s.
Proof. intros (a & s' & E & Hp) H. destruct (H a s' Hp) as (b & s'' & E' & Hq). exists b, s''. split; [|done]. by rewrite (bind_run _ _ _ _ _ E). Qed.

Lemma runs_step {A B} (m : M St A) (k : A -> M St B) Q s a s' : m s = Ret a s' -> runs (k a) Q s' -> runs (bind m k) Q s.
Proof. intros E (b & s'' & E' & Hq). exists b, s''. split; [|done]. by rewrite (bind_run _ _ _ _ _ E). Qed.

Lemma runs_mono {A} (m : M St A) (P Q : A -> St -> Prop) s : runs m P s -> (forall a s', P a s' -> Q a s') -> runs m Q s.
Proof. intros (a & s' & E & Hp) H. exists a, s'. split; [done|by apply H]. Qed.

End monad.

Declare Scope effect_scope.
Delimit Scope effect_scope with effect.
Notation "x '<~' m ';;' k" := (bind m (fun x => k)) (at level 90, right associativity, m at next level) : effect_scope.
Notation "m ';;;' k" := (bind m (fun _ => k)) (at level 90, right associativity) : effect_scope.
