(* ===== verification/Buffer.v ===== *)
(** * Byte buffers that are read and written through structures

    The code casts a buffer to a packed structure.  Here a field is read or written at
    its offset, little-endian as the processor does, and an access outside the buffer
    is [Fault]. *)

From stdpp Require Import base tactics list numbers option.
From Stdlib Require Import Lia.
From S2P Require Import Prelude Effect Bytes.

#[local] Open Scope Z_scope.
#[local] Open Scope effect_scope.

(** The bytes of an [n]-byte integer as stored, least significant first. *)
Fixpoint le_bytes (n : nat) (v : Z) : list Z :=
  match n with O => [] | S n => u8 v :: le_bytes n (Z.shiftr v 8) end.

Fixpoint le_value (l : list Z) : Z :=
  match l with [] => 0 | b :: l => b + 256 * le_value l end.

Section buffers.
  Context {St : Type}.

#[local] Abbreviation M := (Effect.M St).

Definition rd8 (b : list Z) (o : Z) : M Z := fun s => match b !! Z.to_nat o with Some x => Ret x s | None => Fault end.

(** The [n] bytes at offset [o]. *)
Definition rd (b : list Z) (o : Z) (n : nat) : M (list Z) := fun s =>
  if (Z.to_nat o + n <=? length b)%nat then Ret (take n (drop (Z.to_nat o) b)) s else Fault.
Definition rd16 (b : list Z) (o : Z) : M Z := l <~ rd b o 2;; ret (le_value l).
Definition rd32 (b : list Z) (o : Z) : M Z := l <~ rd b o 4;; ret (le_value l).

(** The buffer [b] with the bytes [l] stored at offset [o]. *)
Definition wr (b : list Z) (o : Z) (l : list Z) : M (list Z) := fun s =>
  if (Z.to_nat o + length l <=? length b)%nat then Ret (buf_write b (Z.to_nat o) l) s else Fault.

End buffers.

(** ** Lemmas *)

Lemma u8_fits x : fits 8 (u8 x).
Proof. apply wrap_fits. lia. Qed.

Lemma le_bytes_length n v : length (le_bytes n v) = n.
Proof. revert v. induction n as [|n IH]; intros v; [done|]. cbn. by rewrite IH. Qed.

Lemma le_bytes_ok n v : bytes (le_bytes n v).
Proof. revert v. induction n as [|n IH]; intros v; [constructor|]. constructor; [apply u8_fits|apply IH]. Qed.

Lemma le_value_bytes n v : 0 <= v < 2 ^ (8 * Z.of_nat n) -> le_value (le_bytes n v) = v.
Proof.
  revert v. induction n as [|n IH]; intros v Hv; [change (2 ^ (8 * Z.of_nat 0)) with 1 in Hv; cbn; lia|]. cbn [le_bytes le_value].
  rewrite IH; rewrite Z.shiftr_div_pow2 by lia; unfold wrap; change (2 ^ 8) with 256.
  - pose proof (Z.div_mod v 256). lia.
  - replace (8 * Z.of_nat (S n)) with (8 + 8 * Z.of_nat n) in Hv by lia. rewrite Z.pow_add_r in Hv by lia. change (2 ^ 8) with 256 in Hv.
    split; [apply Z.div_pos; lia|apply Z.div_lt_upper_bound; lia].
Qed.

Lemma le_value_fits l : bytes l -> 0 <= le_value l < 2 ^ (8 * Z.of_nat (length l)).
Proof.
  induction 1 as [|b l Hb Hl IH]; [done|]. cbn [le_value length]. replace (8 * Z.of_nat (S (length l))) with (8 + 8 * Z.of_nat (length l)) by lia.
  rewrite Z.pow_add_r by lia. change (2 ^ 8) with 256. unfold fits in Hb. change (2 ^ 8) with 256 in Hb. lia.
Qed.

Lemma buf_write_bytes b j src : bytes b -> bytes src -> bytes (buf_write b j src).
Proof. intros Hb Hs. unfold buf_write. apply Forall_app_2; [by apply Forall_take|]. apply Forall_app_2; [done|by apply Forall_drop]. Qed.

(** Blocks of [z] bytes one after the other. *)
Lemma concat_length (z : nat) (bs : list (list Z)) : Forall (fun b => length b = z) bs -> length (concat bs) = (length bs * z)%nat.
Proof. induction 1 as [|b bs Hb Hbs IH]; [done|]. cbn [concat length]. rewrite length_app, Hb, IH. lia. Qed.

Lemma concat_read (z o n : nat) (bs : list (list Z)) : forall i b, Forall (fun b => length b = z) bs -> bs !! i = Some b -> (o + n <= z)%nat ->
  take n (drop (i * z + o) (concat bs)) = take n (drop o b).
Proof.
  induction bs as [|x bs IH]; intros [|i] b Hz Hb Hn; apply Forall_cons_1 in Hz as [Hx Hz] || done; cbn [concat].
  - injection Hb as ->. rewrite Nat.mul_0_l, Nat.add_0_l. rewrite drop_app_le by lia. rewrite take_app_le by (rewrite length_drop; lia). done.
  - rewrite drop_app_ge by lia. rewrite <- (IH i b) by done. do 2 f_equal. lia.
Qed.

Section running.
  Context {St : Type}.

Lemma rd8_run b o x (s : St) : b !! Z.to_nat o = Some x -> rd8 b o s = Ret x s.
Proof. unfold rd8. by intros ->. Qed.

Lemma rd_run b o n (s : St) : (Z.to_nat o + n <= length b)%nat -> rd b o n s = Ret (take n (drop (Z.to_nat o) b)) s.
Proof. intros H. unfold rd. by rewrite (proj2 (Nat.leb_le _ _) H). Qed.

Lemma rd16_run b o (s : St) : (Z.to_nat o + 2 <= length b)%nat -> rd16 b o s = Ret (le_value (take 2 (drop (Z.to_nat o) b))) s.
Proof. intros H. unfold rd16. by erewrite bind_run by (by apply rd_run). Qed.

Lemma rd32_run b o (s : St) : (Z.to_nat o + 4 <= length b)%nat -> rd32 b o s = Ret (le_value (take 4 (drop (Z.to_nat o) b))) s.
Proof. intros H. unfold rd32. by erewrite bind_run by (by apply rd_run). Qed.

Lemma wr_run b o l (s : St) : (Z.to_nat o + length l <= length b)%nat -> wr b o l s = Ret (buf_write b (Z.to_nat o) l) s.
Proof. intros H. unfold wr. by rewrite (proj2 (Nat.leb_le _ _) H). Qed.

End running.
