(* ===== verification/Linked.v ===== *)
(** * Lists linked through objects at addresses

    The nodes of such a list live in a finite map from addresses, each with the address of
    the next one, and 0 is the null pointer. *)

From stdpp Require Import base tactics list numbers option gmap.
From Stdlib Require Import Lia.
From S2P Require Import Prelude.

Section linked.
  Context {A : Type} (next : A -> Z).

(** The nodes at [l] are linked from [p] on. *)
Fixpoint linked (m : gmap Z A) (p : Z) (l : list Z) : Prop :=
  match l with [] => p = 0 | q :: l => p = q /\ q <> 0 /\ exists d, m !! q = Some d /\ linked m (next d) l end.

Lemma linked_insert m p l q d : q ∉ l -> linked m p l -> linked (<[q := d]> m) p l.
Proof.
  revert p. induction l as [|r l IH]; intros p Hq; cbn [linked]; [done|]. apply not_elem_of_cons in Hq as [Hne Hq]. intros (-> & Hr & e & He & Hl).
  split; [done|]. split; [done|]. exists e. rewrite lookup_insert_ne by done. split; [done|]. by apply IH.
Qed.

Lemma linked_delete m p l q : q ∉ l -> linked m p l -> linked (delete q m) p l.
Proof.
  revert p. induction l as [|r l IH]; intros p Hq; cbn [linked]; [done|]. apply not_elem_of_cons in Hq as [Hne Hq]. intros (-> & Hr & e & He & Hl).
  split; [done|]. split; [done|]. exists e. rewrite lookup_delete_ne by done. split; [done|]. by apply IH.
Qed.

Lemma linked_elem m p l q : linked m p l -> q ∈ l -> q <> 0 /\ is_Some (m !! q).
Proof.
  revert p. induction l as [|r l IH]; intros p; cbn [linked]; [by intros _ ?%not_elem_of_nil|]. intros (-> & Hr & d & Hd & Hl) [->|Hq]%elem_of_cons; [split; [done|by exists d]|by eapply IH].
Qed.

Lemma linked_det m l : forall p l', linked m p l -> linked m p l' -> l = l'.
Proof.
  induction l as [|q l IH]; intros p [|r l']; cbn [linked]; try done; [by intros -> (<- & ? & _)|by intros (-> & ? & _) ?|].
  intros (-> & _ & d & Hd & Hl) (<- & _ & d' & Hd' & Hl'). simplify_eq. f_equal. by eapply IH.
Qed.

(** The part of a list from one of its nodes on. *)
Lemma linked_app m l1 : forall p l2, linked m p (l1 ++ l2) -> exists r, linked m r l2 /\ (l1 = [] -> r = p).
Proof.
  induction l1 as [|q l1 IH]; intros p l2; cbn [app linked]; [intros H; by exists p|]. intros (-> & _ & d & Hd & Hl). destruct (IH _ _ Hl) as (r & Hr & _). by exists r.
Qed.

(** A list that ends has no cycle. *)
Lemma linked_NoDup m l : forall p, linked m p l -> NoDup l.
Proof.
  induction l as [|q l IH]; intros p H; [constructor|]. pose proof H as (-> & _ & d & Hd & Hl). apply NoDup_cons. split; [|by eapply IH].
  intros (l1 & l2 & ->)%list_elem_of_split. destruct (linked_app _ _ _ _ Hl) as (r & Hr & _). pose proof Hr as (-> & _ & _).
  pose proof (linked_det _ _ _ _ H Hr) as E. apply (f_equal length) in E. cbn [length] in E. rewrite length_app in E. cbn [length] in E. lia.
Qed.

Lemma linked_length m p l : linked m p l -> (length l <= size m)%nat.
Proof.
  intros H. assert (Hsub : list_to_set l ⊆ dom m) by (intros q Hq%elem_of_list_to_set; apply elem_of_dom; by eapply linked_elem).
  apply subseteq_size in Hsub. rewrite size_list_to_set in Hsub by (by eapply linked_NoDup). by rewrite size_dom in Hsub.
Qed.

(** A node behind the last one. *)
Lemma linked_snoc m l : forall p q a a' new b, linked m p (l ++ [q]) -> new ∉ l ++ [q] -> new <> 0 -> next a' = new -> next b = 0 -> m !! q = Some a ->
  linked (<[q := a']> (<[new := b]> m)) p (l ++ [q; new]).
Proof.
  induction l as [|r l IH]; intros p q a a' new b H Hnew Hn0 Ha Hb Hq; cbn [app linked] in *; destruct H as (-> & Hr & d & Hd & Hl).
  - split; [done|]. split; [done|]. exists a'. rewrite lookup_insert_eq. split; [done|]. split; [done|]. split; [done|]. exists b. rewrite lookup_insert_ne by set_solver. by rewrite lookup_insert_eq.
  - assert (Hnd : NoDup (r :: l ++ [q])) by (eapply (linked_NoDup m _ r); cbn [linked]; eauto). apply NoDup_cons in Hnd as [Hin _]. split; [done|]. split; [done|]. exists d.
    rewrite !lookup_insert_ne by set_solver. split; [done|]. eapply IH; [done|set_solver|done..].
Qed.

(** A node between others, or the last one, taken out. *)
Lemma linked_remove m l1 : forall p prev a a' q b l2, linked m p (l1 ++ prev :: q :: l2) -> m !! prev = Some a -> m !! q = Some b -> next a' = next b -> linked (<[prev := a']> m) p (l1 ++ prev :: l2).
Proof.
  induction l1 as [|r l1 IH]; intros p prev a a' q b l2 H Ha Hb Hn; cbn [app] in *; pose proof (linked_NoDup _ _ _ H) as Hnd; destruct H as (-> & Hr & d & Hd & Hl).
  - cbn [linked] in Hl |- *. destruct Hl as (_ & _ & d' & Hd' & Hl). simplify_eq. split; [done|]. split; [done|]. exists a'. rewrite lookup_insert_eq. split; [done|]. rewrite Hn. apply linked_insert; [|done].
    apply NoDup_cons in Hnd as [Hnd _]. set_solver.
  - apply NoDup_cons in Hnd as [Hin _]. split; [done|]. split; [done|]. exists d. rewrite lookup_insert_ne by set_solver. split; [done|]. by eapply IH.
Qed.

(** What follows the last node and the one before it. *)
Lemma linked_last m l q d : forall p, linked m p (l ++ [q]) -> m !! q = Some d -> next d = 0.
Proof. induction l as [|r l IH]; intros p (-> & _ & e & He & Hl) Hq; [by simplify_eq|by eapply IH]. Qed.

Lemma linked_last_two m l a b d : forall p, linked m p (l ++ [a; b]) -> m !! a = Some d -> next d = b.
Proof. induction l as [|r l IH]; intros p (-> & _ & e & He & Hl) Ha; [simplify_eq; by destruct Hl|by eapply IH]. Qed.

End linked.
