(* ===== verification/Pmm.v ===== *)
(** * Physical memory manager (kernel/mm/pmm.c)

    The bitmap allocator of 4 KiB page frames with its copy-on-write reference
    counts: the state is the file's static variables, one definition per
    function.  The invariant [pmm_wf] ties the two statistics counters to the
    bitmap; every operation preserves it. *)

From stdpp Require Import base tactics list numbers option relations.
From Stdlib Require Import Lia.
From S2P Require Import Prelude.

(** ** Constants (pmm.h, config.h, boot_info.h) *)

Definition PAGE_SIZE : Z := 4096.
Definition PAGE_SHIFT : Z := 12.
Definition MAX_PAGES : Z := 16 * 1024 * 256.
Definition KERNEL_VMA_BASE : Z := 0.
Definition MEMORY_TYPE_CONVENTIONAL : Z := 7.

Definition PADDR_TO_PFN (addr : Z) : Z := Z.shiftr addr PAGE_SHIFT.
Definition PFN_TO_PADDR (pfn : Z) : Z := u64 (Z.shiftl pfn PAGE_SHIFT).
Definition ALIGN_UP (x align : Z) : Z := Z.land (u64 (x + (align - 1))) (Z.lnot (align - 1)).
Definition ALIGN_DOWN (x align : Z) : Z := Z.land x (Z.lnot (align - 1)).
Definition IS_ALIGNED (x align : Z) : bool := Z.land x (align - 1) =? 0.

(** ** State *)

Record memory_region_t := { r_base : Z; r_length : Z; r_type : Z }.
Record boot_info_t := { memory_map_count : Z; memory_map : arr memory_region_t }.

Record pmm := {
  page_bitmap : arr Z;      (* uint8_t [MAX_PAGES / 8], bit set = allocated *)
  page_refcount : arr Z;    (* uint16_t [MAX_PAGES] *)
  total_pages : Z;
  free_pages : Z;
  used_pages : Z;
  highest_addr : Z;
  last_allocated : Z        (* static local of pmm_alloc_page *)
}.

Definition with_bitmap (s : pmm) (b : arr Z) : pmm :=
  {| page_bitmap := b; page_refcount := page_refcount s; total_pages := total_pages s;
     free_pages := free_pages s; used_pages := used_pages s;
     highest_addr := highest_addr s; last_allocated := last_allocated s |}.
Definition with_refcount (s : pmm) (r : arr Z) : pmm :=
  {| page_bitmap := page_bitmap s; page_refcount := r; total_pages := total_pages s;
     free_pages := free_pages s; used_pages := used_pages s;
     highest_addr := highest_addr s; last_allocated := last_allocated s |}.
Definition with_counts (s : pmm) (f u : Z) : pmm :=
  {| page_bitmap := page_bitmap s; page_refcount := page_refcount s; total_pages := total_pages s;
     free_pages := f; used_pages := u;
     highest_addr := highest_addr s; last_allocated := last_allocated s |}.
Definition with_hint (s : pmm) (h : Z) : pmm :=
  {| page_bitmap := page_bitmap s; page_refcount := page_refcount s; total_pages := total_pages s;
     free_pages := free_pages s; used_pages := used_pages s;
     highest_addr := highest_addr s; last_allocated := h |}.

(** ** Bitmap primitives *)

Definition bitmap_set (b : arr Z) (bit : Z) : arr Z :=
  b.[bit / 8 <- u8 (Z.lor (b (bit / 8)) (Z.shiftl 1 (bit mod 8)))].

Definition bitmap_clear (b : arr Z) (bit : Z) : arr Z :=
  b.[bit / 8 <- u8 (Z.land (b (bit / 8)) (Z.lnot (Z.shiftl 1 (bit mod 8))))].

Definition bitmap_test (b : arr Z) (bit : Z) : bool :=
  negb (Z.land (b (bit / 8)) (Z.shiftl 1 (bit mod 8)) =? 0).

(** A frame is free when its bit is clear. *)
Definition is_free (s : pmm) (pfn : Z) : bool := negb (bitmap_test (page_bitmap s) pfn).

(** ** Marking ranges *)

(** The loop bodies of [pmm_mark_used] and [pmm_mark_free] at frame [p]. *)
Definition mark_used_at (p : Z) (s : pmm) : pmm :=
  if p <? total_pages s then
    if is_free s p then
      with_counts (with_bitmap s (bitmap_set (page_bitmap s) p))
        (if 0 <? free_pages s then u64 (free_pages s - 1) else free_pages s)
        (u64 (used_pages s + 1))
    else s
  else s.

Definition mark_free_at (p : Z) (s : pmm) : pmm :=
  if p <? total_pages s then
    if is_free s p then s
    else
      with_counts (with_bitmap s (bitmap_clear (page_bitmap s) p))
        (u64 (free_pages s + 1))
        (if 0 <? used_pages s then u64 (used_pages s - 1) else used_pages s)
  else s.

Definition pmm_mark_used (paddr count : Z) (s : pmm) : pmm :=
  let pfn := PADDR_TO_PFN paddr in
  if u64 (pfn + count) <? pfn then s
  else for_loop (Z.to_nat count) 0 (fun i s => mark_used_at (u64 (pfn + i)) s) s.

Definition pmm_mark_free (paddr count : Z) (s : pmm) : pmm :=
  let pfn := PADDR_TO_PFN paddr in
  if u64 (pfn + count) <? pfn then s
  else for_loop (Z.to_nat count) 0 (fun i s => mark_free_at (u64 (pfn + i)) s) s.

(** ** Initialisation

    [kstart] and [kend] are the linker symbols [_kernel_start], [_kernel_end]. *)

Definition find_highest (bi : boot_info_t) (h0 : Z) : Z :=
  for_loop (Z.to_nat (memory_map_count bi)) 0
    (fun i h =>
       let region := memory_map bi i in
       if r_type region =? MEMORY_TYPE_CONVENTIONAL then
         let e := u64 (r_base region + r_length region) in if h <? e then e else h
       else h) h0.

Definition mark_usable (bi : boot_info_t) (s : pmm) : pmm :=
  for_loop (Z.to_nat (memory_map_count bi)) 0
    (fun i s =>
       let region := memory_map bi i in
       if r_type region =? MEMORY_TYPE_CONVENTIONAL then
         let b := ALIGN_UP (r_base region) PAGE_SIZE in
         let e := ALIGN_DOWN (u64 (r_base region + r_length region)) PAGE_SIZE in
         if b <? e then pmm_mark_free b ((e - b) / PAGE_SIZE) s else s
       else s) s.

Definition pmm_init (kstart kend : Z) (bi : boot_info_t) (s : pmm) : pmm :=
  let h := find_highest bi (highest_addr s) in
  let total := let t := PADDR_TO_PFN h in if MAX_PAGES <? t then MAX_PAGES else t in
  let s1 := {| page_bitmap := fun _ => 255; page_refcount := fun _ => 0;
               total_pages := total; free_pages := 0; used_pages := total;
               highest_addr := h; last_allocated := last_allocated s |} in
  let s2 := mark_usable bi s1 in
  let kernel_start := u64 (kstart - KERNEL_VMA_BASE) in
  let kernel_end := u64 (kend - KERNEL_VMA_BASE) in
  let kernel_pages := u64 (kernel_end - kernel_start + PAGE_SIZE - 1) / PAGE_SIZE in
  pmm_mark_used 0 512 (pmm_mark_used kernel_start kernel_pages s2).

(** ** Allocation *)

(** The bookkeeping of every allocation path: set the bit, move one page from
    the free to the used count. *)
Definition take_frame (pfn : Z) (s : pmm) : pmm :=
  with_counts (with_bitmap s (bitmap_set (page_bitmap s) pfn))
    (u64 (free_pages s - 1)) (u64 (used_pages s + 1)).

Definition START_PFN : Z := (2 * 1024 * 1024) / PAGE_SIZE.
Definition LOW_PFN : Z := (1 * 1024 * 1024) / PAGE_SIZE.

(** [for (pfn = lo; pfn < hi; pfn++) if (!bitmap_test(pfn)) ...]. *)
Definition first_free (s : pmm) (lo hi : Z) : option Z :=
  find_first (is_free s) lo (Z.to_nat (hi - lo)).

Definition alloc_counted (pfn : Z) (s : pmm) : pmm * Z :=
  let s' := take_frame pfn s in
  (with_hint (with_refcount s' ((page_refcount s').[pfn <- 1])) (u64 (pfn + 1)),
   PFN_TO_PADDR pfn).

Definition pmm_alloc_page (s : pmm) : pmm * Z :=
  match first_free s START_PFN (total_pages s) with
  | Some pfn => alloc_counted pfn s
  | None =>
      match first_free s LOW_PFN START_PFN with
      | Some pfn => alloc_counted pfn s
      | None => (s, 0)
      end
  end.

Definition pmm_alloc_page_low (s : pmm) : pmm * Z :=
  let end_pfn := let e := (128 * 1024 * 1024) / PAGE_SIZE in
                 if total_pages s <? e then total_pages s else e in
  match first_free s START_PFN end_pfn with
  | Some pfn => (take_frame pfn s, PFN_TO_PADDR pfn)
  | None =>
      match first_free s LOW_PFN START_PFN with
      | Some pfn => (take_frame pfn s, PFN_TO_PADDR pfn)
      | None => (s, 0)
      end
  end.

(** The scan of [pmm_alloc_pages]: [n] frames are left, [pfn] is the current one,
    [found] free frames in a row end just before it and begin at [start]. *)
Fixpoint scan_run (s : pmm) (count : Z) (n : nat) (pfn start found : Z) : option Z :=
  match n with
  | O => None
  | S n' =>
      if is_free s pfn then
        let start' := if found =? 0 then pfn else start in
        let found' := u64 (found + 1) in
        if found' =? count then Some start'
        else scan_run s count n' (pfn + 1) start' found'
      else scan_run s count n' (pfn + 1) start 0
  end.

Definition pmm_alloc_pages (count : Z) (s : pmm) : pmm * Z :=
  if count =? 0 then (s, 0)
  else if count =? 1 then pmm_alloc_page s
  else match scan_run s count (Z.to_nat (total_pages s)) 0 0 0 with
       | Some start =>
           (for_loop (Z.to_nat count) 0 (fun i s => take_frame (u64 (start + i)) s) s,
            PFN_TO_PADDR start)
       | None => (s, 0)
       end.

(** ** Release and reference counts *)

(** The bookkeeping of a release: clear the bit, move one page back. *)
Definition drop_frame (pfn : Z) (s : pmm) : pmm :=
  with_counts (with_bitmap s (bitmap_clear (page_bitmap s) pfn))
    (u64 (free_pages s + 1)) (u64 (used_pages s - 1)).

Definition pmm_free_page (page : Z) (s : pmm) : pmm :=
  if page =? 0 then s
  else if negb (IS_ALIGNED page PAGE_SIZE) then s
  else
    let pfn := PADDR_TO_PFN page in
    if total_pages s <=? pfn then s
    else if is_free s pfn then s
    else
      let rc := page_refcount s pfn in
      let rc' := if 0 <? rc then u16 (rc - 1) else rc in
      let s' := with_refcount s ((page_refcount s).[pfn <- rc']) in
      if rc' =? 0 then drop_frame pfn s' else s'.

Definition pmm_free_pages (paddr count : Z) (s : pmm) : pmm :=
  for_loop (Z.to_nat count) 0 (fun i s => pmm_free_page (u64 (paddr + i * PAGE_SIZE)) s) s.

Definition pmm_ref_page (page : Z) (s : pmm) : pmm :=
  if page =? 0 then s
  else
    let pfn := PADDR_TO_PFN page in
    if total_pages s <=? pfn then s
    else if page_refcount s pfn <? 65535
         then with_refcount s ((page_refcount s).[pfn <- u16 (page_refcount s pfn + 1)])
         else s.

Definition pmm_get_refcount (page : Z) (s : pmm) : Z :=
  if page =? 0 then 0
  else
    let pfn := PADDR_TO_PFN page in
    if total_pages s <=? pfn then 0 else page_refcount s pfn.

Definition pmm_get_free_pages (s : pmm) : Z := free_pages s.
Definition pmm_get_total_pages (s : pmm) : Z := total_pages s.

(** * Bitmap laws *)

Lemma bitmap_test_testbit b i : 0 <= i -> bitmap_test b i = Z.testbit (b (i / 8)) (i mod 8).
Proof.
  intros Hi. unfold bitmap_test. pose proof (Z.mod_pos_bound i 8 ltac:(lia)) as Hm.
  set (x := b (i / 8)). set (k := i mod 8) in *.
  destruct (Z.testbit x k) eqn:E.
  - apply negb_true_iff, Z.eqb_neq. intros H0.
    assert (Hk : Z.testbit (Z.land x (Z.shiftl 1 k)) k = true).
    { rewrite Z.land_spec, E, Z.shiftl_spec, Z.sub_diag by lia. done. }
    by rewrite H0, Z.bits_0 in Hk.
  - apply negb_false_iff, Z.eqb_eq. apply Z.bits_inj'. intros j Hj.
    rewrite Z.land_spec, Z.bits_0, Z.shiftl_spec by lia.
    destruct (decide (j = k)) as [->|]; [by rewrite E|].
    replace (Z.testbit 1 (j - k)) with false; [by rewrite andb_false_r|].
    destruct (decide (j < k)); [by rewrite Z.testbit_neg_r by lia|].
    symmetry. apply Z.bits_above_log2; simpl; lia.
Qed.

Lemma testbit_one_shift k j : 0 <= k -> 0 <= j -> Z.testbit (Z.shiftl 1 k) j = (j =? k).
Proof.
  intros. rewrite Z.shiftl_spec by lia. destruct (Z.eqb_spec j k) as [->|].
  { by rewrite Z.sub_diag. }
  destruct (decide (j < k)); [by rewrite Z.testbit_neg_r by lia|].
  apply Z.bits_above_log2; simpl; lia.
Qed.

Lemma same_byte_bit i j : 0 <= i -> 0 <= j -> i / 8 = j / 8 -> i mod 8 = j mod 8 -> i = j.
Proof. intros. rewrite (Z.div_mod i 8), (Z.div_mod j 8) by lia. congruence. Qed.

Lemma bitmap_set_test b i j :
  0 <= i -> 0 <= j -> bitmap_test (bitmap_set b i) j = ((j =? i) || bitmap_test b j)%bool.
Proof.
  intros Hi Hj. rewrite !bitmap_test_testbit by done. unfold bitmap_set, aset.
  pose proof (Z.mod_pos_bound i 8 ltac:(lia)). pose proof (Z.mod_pos_bound j 8 ltac:(lia)).
  destruct (Z.eqb_spec (j / 8) (i / 8)) as [E|E].
  - unfold wrap. rewrite Z.mod_pow2_bits_low, Z.lor_spec, testbit_one_shift, E by lia.
    rewrite orb_comm. f_equal.
    destruct (Z.eqb_spec (j mod 8) (i mod 8)), (Z.eqb_spec j i); try congruence.
    exfalso. eauto using same_byte_bit.
  - destruct (Z.eqb_spec j i); [congruence|done].
Qed.

Lemma bitmap_clear_test b i j :
  0 <= i -> 0 <= j -> bitmap_test (bitmap_clear b i) j = (negb (j =? i) && bitmap_test b j)%bool.
Proof.
  intros Hi Hj. rewrite !bitmap_test_testbit by done. unfold bitmap_clear, aset.
  pose proof (Z.mod_pos_bound i 8 ltac:(lia)). pose proof (Z.mod_pos_bound j 8 ltac:(lia)).
  destruct (Z.eqb_spec (j / 8) (i / 8)) as [E|E].
  - unfold wrap. rewrite Z.mod_pow2_bits_low, Z.land_spec, Z.lnot_spec, testbit_one_shift, E by lia.
    rewrite andb_comm. do 2 f_equal.
    destruct (Z.eqb_spec (j mod 8) (i mod 8)), (Z.eqb_spec j i); try congruence.
    exfalso. eauto using same_byte_bit.
  - destruct (Z.eqb_spec j i); [congruence|done].
Qed.

Lemma is_free_test s i : is_free s i = true <-> bitmap_test (page_bitmap s) i = false.
Proof. apply negb_true_iff. Qed.

(** * The invariant *)

Record pmm_wf (s : pmm) : Prop := {
  wf_total : 0 <= total_pages s <= MAX_PAGES;
  wf_free : free_pages s = count_in (is_free s) 0 (Z.to_nat (total_pages s));
  wf_used : used_pages s = total_pages s - free_pages s;
  wf_tail : forall i, total_pages s <= i < MAX_PAGES -> is_free s i = false;
  wf_ref : forall i, fits 16 (page_refcount s i)
}.

(** After initialisation frame 0 is also never free, so that the address 0 can
    stand for failure. *)
Record pmm_inv (s : pmm) : Prop := {
  inv_wf : pmm_wf s;
  inv_zero : is_free s 0 = false
}.

Lemma wf_free_bounds s : pmm_wf s -> 0 <= free_pages s <= total_pages s.
Proof.
  intros H. rewrite (wf_free s H). pose proof (wf_total s H).
  pose proof (count_in_bounds (is_free s) 0 (Z.to_nat (total_pages s))). lia.
Qed.

(** A free frame lies below [total_pages]. *)
Lemma free_lt_total s i : pmm_wf s -> 0 <= i < MAX_PAGES -> is_free s i = true -> i < total_pages s.
Proof. intros H Hi E. destruct (decide (i < total_pages s)); [done|]. rewrite (wf_tail s H i) in E; [done|lia]. Qed.

Lemma wf_free_pos s i : pmm_wf s -> 0 <= i < MAX_PAGES -> is_free s i = true -> 1 <= free_pages s.
Proof.
  intros H Hi E. pose proof (free_lt_total s i H Hi E). pose proof (wf_total s H).
  rewrite (wf_free s H). apply (count_in_pos _ _ _ i); [lia|done].
Qed.

Lemma wf_used_pos s i : pmm_wf s -> 0 <= i < total_pages s -> is_free s i = false -> 1 <= used_pages s.
Proof.
  intros H Hi E. pose proof (wf_total s H). rewrite (wf_used s H), (wf_free s H).
  pose proof (count_in_neg (is_free s) 0 (Z.to_nat (total_pages s))).
  pose proof (count_in_pos (fun j => negb (is_free s j)) 0 (Z.to_nat (total_pages s)) i
                ltac:(lia) ltac:(cbn beta; by rewrite E)). lia.
Qed.

(** ** Effect of the single-frame updates on freeness *)

Lemma take_frame_free pfn s i :
  0 <= pfn -> 0 <= i -> is_free (take_frame pfn s) i = (negb (i =? pfn) && is_free s i)%bool.
Proof. intros. unfold is_free, take_frame; simpl. rewrite bitmap_set_test by done. by rewrite negb_orb. Qed.

(** Claiming the free frame [pfn] keeps the invariant and moves one page. *)
Lemma take_frame_wf pfn s :
  pmm_wf s -> 0 <= pfn < MAX_PAGES -> is_free s pfn = true ->
  pmm_wf (take_frame pfn s) /\
  free_pages (take_frame pfn s) = free_pages s - 1 /\
  used_pages (take_frame pfn s) = used_pages s + 1.
Proof.
  intros H Hp E. pose proof (free_lt_total s pfn H Hp E). pose proof (wf_free_bounds s H).
  pose proof (wf_free_pos s pfn H Hp E). pose proof (wf_total s H). pose proof (wf_used s H).
  assert (Hf : free_pages (take_frame pfn s) = free_pages s - 1).
  { simpl. apply wrap_small. unfold MAX_PAGES in *. fits_lia. }
  assert (Hu : used_pages (take_frame pfn s) = used_pages s + 1).
  { simpl. apply wrap_small. unfold MAX_PAGES in *. fits_lia. }
  split; [|done]. constructor.
  - done.
  - rewrite Hf, (wf_free s H).
    rewrite (count_in_flip (is_free s) (is_free (take_frame pfn s)) 0 _ pfn); simpl; [|lia|].
    + rewrite E, take_frame_free by lia. rewrite Z.eqb_refl. simpl. lia.
    + intros j ? Hj. rewrite take_frame_free by lia. by destruct (Z.eqb_spec j pfn).
  - rewrite Hf, Hu. simpl. lia.
  - intros i Hi. simpl in Hi. rewrite take_frame_free by lia.
    rewrite (wf_tail s H i) by lia. by rewrite andb_false_r.
  - apply (wf_ref s H).
Qed.

(** Fields outside bitmap and counters do not matter to the invariant. *)
Lemma wf_ext s s' :
  pmm_wf s -> page_bitmap s' = page_bitmap s -> total_pages s' = total_pages s ->
  free_pages s' = free_pages s -> used_pages s' = used_pages s ->
  (forall i, fits 16 (page_refcount s' i)) -> pmm_wf s'.
Proof.
  intros H Hb Ht Hf Hu Hr. assert (Hi : forall i, is_free s' i = is_free s i).
  { intros i. unfold is_free. by rewrite Hb. }
  constructor; rewrite ?Ht, ?Hf, ?Hu; auto.
  - apply (wf_total s H).
  - rewrite (wf_free s H). by apply count_in_ext.
  - apply (wf_used s H).
  - intros i ?. rewrite Hi. by apply (wf_tail s H).
Qed.

Lemma fits_aset (r : arr Z) i v w :
  (forall j, fits w (r j)) -> fits w v -> forall j, fits w ((r.[i <- v]) j).
Proof. intros Hr Hv j. unfold aset. by destruct (j =? i). Qed.

Lemma drop_frame_free pfn s i :
  0 <= pfn -> 0 <= i -> is_free (drop_frame pfn s) i = ((i =? pfn) || is_free s i)%bool.
Proof.
  intros. unfold is_free, drop_frame; simpl. rewrite bitmap_clear_test by done.
  by rewrite negb_andb, negb_involutive.
Qed.

(** Releasing the used frame [pfn] keeps the invariant and moves one page back. *)
Lemma drop_frame_wf pfn s :
  pmm_wf s -> 0 <= pfn < total_pages s -> is_free s pfn = false ->
  pmm_wf (drop_frame pfn s) /\
  free_pages (drop_frame pfn s) = free_pages s + 1 /\
  used_pages (drop_frame pfn s) = used_pages s - 1.
Proof.
  intros H Hp E. pose proof (wf_free_bounds s H). pose proof (wf_used_pos s pfn H Hp E).
  pose proof (wf_total s H). pose proof (wf_used s H).
  assert (Hf : free_pages (drop_frame pfn s) = free_pages s + 1).
  { simpl. apply wrap_small. unfold MAX_PAGES in *. fits_lia. }
  assert (Hu : used_pages (drop_frame pfn s) = used_pages s - 1).
  { simpl. apply wrap_small. unfold MAX_PAGES in *. fits_lia. }
  split; [|done]. constructor.
  - done.
  - rewrite Hf, (wf_free s H).
    rewrite (count_in_flip (is_free s) (is_free (drop_frame pfn s)) 0 _ pfn); simpl; [|lia|].
    + rewrite E, drop_frame_free by lia. rewrite Z.eqb_refl. simpl. lia.
    + intros j ? Hj. rewrite drop_frame_free by lia. by destruct (Z.eqb_spec j pfn).
  - rewrite Hf, Hu. simpl. lia.
  - intros i Hi. simpl in Hi. rewrite drop_frame_free by lia.
    rewrite (wf_tail s H i) by lia. destruct (Z.eqb_spec i pfn); [lia|done].
  - apply (wf_ref s H).
Qed.

(** * Address arithmetic *)

Lemma pfn_div x : PADDR_TO_PFN x = x / 4096.
Proof. unfold PADDR_TO_PFN, PAGE_SHIFT. by rewrite Z.shiftr_div_pow2. Qed.

Lemma paddr_mul pfn : 0 <= pfn < MAX_PAGES -> PFN_TO_PADDR pfn = pfn * 4096.
Proof.
  intros. unfold PFN_TO_PADDR, PAGE_SHIFT. rewrite Z.shiftl_mul_pow2 by lia.
  change (2 ^ 12) with 4096. apply wrap_small. unfold MAX_PAGES in *. fits_lia.
Qed.

Lemma aligned_mod x : IS_ALIGNED x PAGE_SIZE = (x mod 4096 =? 0).
Proof.
  unfold IS_ALIGNED, PAGE_SIZE. change (4096 - 1) with (Z.ones 12).
  by rewrite Z.land_ones by lia.
Qed.

Lemma pfn_of_paddr pfn : 0 <= pfn < MAX_PAGES -> PADDR_TO_PFN (PFN_TO_PADDR pfn) = pfn.
Proof. intros. rewrite paddr_mul, pfn_div by done. apply Z.div_mul. lia. Qed.

Lemma paddr_aligned pfn : 0 <= pfn < MAX_PAGES -> IS_ALIGNED (PFN_TO_PADDR pfn) PAGE_SIZE = true.
Proof. intros. rewrite paddr_mul, aligned_mod by done. rewrite Z.mod_mul by lia. done. Qed.

Lemma no_overflow_pfn x count :
  fits 64 x -> fits 64 count -> (u64 (PADDR_TO_PFN x + count) <? PADDR_TO_PFN x) = false ->
  0 <= PADDR_TO_PFN x /\ PADDR_TO_PFN x + count < 2 ^ 64.
Proof.
  intros Hx Hc E. rewrite pfn_div in *. bprop. unfold wrap in E.
  assert (0 <= x / 4096 < 2 ^ 52) by (unfold fits in *; split; [apply Z.div_pos; lia|apply Z.div_lt_upper_bound; lia]).
  split; [lia|]. destruct (decide (x / 4096 + count < 2 ^ 64)) as [|Hge]; [done|].
  rewrite <- (Z.mod_unique (x / 4096 + count) (2 ^ 64) 1 (x / 4096 + count - 2 ^ 64)) in E;
    unfold fits in *; lia.
Qed.

(** * Marking ranges *)

(** [i] lies in the frame range [pfn .. pfn + n - 1]. *)
Definition in_run (pfn n i : Z) : bool := ((pfn <=? i) && (i <? pfn + n))%bool.

(** The parts of the state that marking leaves alone. *)
Definition same_frame (s s' : pmm) : Prop :=
  total_pages s' = total_pages s /\ page_refcount s' = page_refcount s.

Lemma mark_used_at_spec p s :
  pmm_wf s -> 0 <= p ->
  pmm_wf (mark_used_at p s) /\ same_frame s (mark_used_at p s) /\
  (forall i, 0 <= i < MAX_PAGES -> is_free (mark_used_at p s) i = (negb (i =? p) && is_free s i)%bool).
Proof.
  intros H Hp. unfold mark_used_at. pose proof (wf_total s H).
  destruct (Z.ltb_spec p (total_pages s)) as [Hlt|Hge].
  2:{ split_and!; try done. intros i Hi. destruct (Z.eqb_spec i p) as [->|]; [|done].
      rewrite (wf_tail s H) by lia. done. }
  destruct (is_free s p) eqn:E.
  2:{ split_and!; try done. intros i Hi. by destruct (Z.eqb_spec i p) as [->|]. }
  pose proof (wf_free_pos s p H ltac:(lia) E).
  rewrite (proj2 (Z.ltb_lt 0 (free_pages s))) by lia. fold (take_frame p s).
  destruct (take_frame_wf p s H ltac:(lia) E) as (? & _ & _).
  split_and!; try done. intros i Hi. apply take_frame_free; lia.
Qed.

Lemma mark_free_at_spec p s :
  pmm_wf s -> 0 <= p ->
  pmm_wf (mark_free_at p s) /\ same_frame s (mark_free_at p s) /\
  (forall i, 0 <= i < MAX_PAGES ->
     is_free (mark_free_at p s) i = (((i =? p) && (i <? total_pages s)) || is_free s i)%bool).
Proof.
  intros H Hp. unfold mark_free_at. pose proof (wf_total s H).
  destruct (Z.ltb_spec p (total_pages s)) as [Hlt|Hge].
  2:{ split_and!; try done. intros i Hi. destruct (Z.eqb_spec i p) as [->|]; [|done].
      rewrite (proj2 (Z.ltb_ge _ _)) by lia. done. }
  destruct (is_free s p) eqn:E.
  { split_and!; try done. intros i Hi. destruct (Z.eqb_spec i p) as [->|]; [|done].
    rewrite E. by rewrite orb_true_r. }
  pose proof (wf_used_pos s p H ltac:(lia) E).
  rewrite (proj2 (Z.ltb_lt 0 (used_pages s))) by lia. fold (drop_frame p s).
  destruct (drop_frame_wf p s H ltac:(lia) E) as (? & _ & _).
  split_and!; try done. intros i Hi. rewrite drop_frame_free by lia.
  destruct (Z.eqb_spec i p) as [->|]; [|done]. by rewrite (proj2 (Z.ltb_lt _ _)) by lia.
Qed.

Lemma in_run_true pfn n i : in_run pfn n i = true <-> pfn <= i < pfn + n.
Proof. unfold in_run. rewrite andb_true_iff, Z.leb_le, Z.ltb_lt. done. Qed.

Lemma in_run_false pfn n i : in_run pfn n i = false <-> ~ (pfn <= i < pfn + n).
Proof. rewrite <- in_run_true. by destruct (in_run pfn n i). Qed.

Lemma in_run_succ pfn n i :
  0 <= n -> in_run pfn (n + 1) i = (in_run pfn n i || (i =? pfn + n))%bool.
Proof. unfold in_run. lia. Qed.

Lemma in_run_0 pfn i : in_run pfn 0 i = false.
Proof. unfold in_run. lia. Qed.

(** Both marking loops, at a range that does not wrap. *)
Lemma pmm_mark_used_spec b count s :
  pmm_wf s -> fits 64 b -> fits 64 count ->
  let s' := pmm_mark_used b count s in
  pmm_wf s' /\ same_frame s s' /\
  (PADDR_TO_PFN b + count < 2 ^ 64 ->
   forall i, 0 <= i < MAX_PAGES ->
   is_free s' i = (negb (in_run (PADDR_TO_PFN b) count i) && is_free s i)%bool).
Proof.
  intros H Hb Hc. unfold pmm_mark_used. cbv zeta.
  assert (0 <= PADDR_TO_PFN b) by (rewrite pfn_div; unfold fits in *; apply Z.div_pos; lia).
  case_if; [split_and!; try done; intros; bprop; rewrite wrap_small in E; unfold fits in *; lia|].
  destruct (no_overflow_pfn b count Hb Hc E) as [_ Hp1].
  apply (for_range_ind (fun k s' => pmm_wf s' /\ same_frame s s' /\ (_ -> forall i, _ ->
    is_free s' i = (negb (in_run (PADDR_TO_PFN b) k i) && is_free s i)%bool))); [unfold fits in *; lia|..].
  { split_and!; try done. intros _ i _. by rewrite in_run_0. }
  intros k s' Hk (Hwf & [Ht Hr] & Hf). rewrite wrap_small by (unfold fits in *; lia).
  destruct (mark_used_at_spec (PADDR_TO_PFN b + k) s' Hwf ltac:(lia)) as (? & [??] & Hf').
  split_and!; [done|split; congruence|]. intros Hlt i Hi.
  rewrite Hf', Hf, in_run_succ, negb_orb by (done || lia). by destruct (in_run _ _ _), (_ =? _).
Qed.

Lemma pmm_mark_free_spec b count s :
  pmm_wf s -> fits 64 b -> fits 64 count ->
  let s' := pmm_mark_free b count s in
  pmm_wf s' /\ same_frame s s' /\
  (PADDR_TO_PFN b + count < 2 ^ 64 ->
   forall i, 0 <= i < MAX_PAGES ->
   is_free s' i = ((in_run (PADDR_TO_PFN b) count i && (i <? total_pages s)) || is_free s i)%bool).
Proof.
  intros H Hb Hc. unfold pmm_mark_free. cbv zeta.
  assert (0 <= PADDR_TO_PFN b) by (rewrite pfn_div; unfold fits in *; apply Z.div_pos; lia).
  case_if; [split_and!; try done; intros; bprop; rewrite wrap_small in E; unfold fits in *; lia|].
  destruct (no_overflow_pfn b count Hb Hc E) as [_ Hp1].
  apply (for_range_ind (fun k s' => pmm_wf s' /\ same_frame s s' /\ (_ -> forall i, _ ->
    is_free s' i = ((in_run (PADDR_TO_PFN b) k i && (i <? total_pages s)) || is_free s i)%bool))); [unfold fits in *; lia|..].
  { split_and!; try done. intros _ i _. by rewrite in_run_0. }
  intros k s' Hk (Hwf & [Ht Hr] & Hf). rewrite wrap_small by (unfold fits in *; lia).
  destruct (mark_free_at_spec (PADDR_TO_PFN b + k) s' Hwf ltac:(lia)) as (? & [??] & Hf').
  split_and!; [done|split; congruence|]. intros Hlt i Hi.
  rewrite Hf', Hf, in_run_succ, Ht by (done || lia). by destruct (in_run _ _ _), (i =? _), (i <? _).
Qed.

(** * Initialisation *)

Lemma align_down_spec x : ALIGN_DOWN x PAGE_SIZE = x / 4096 * 4096.
Proof.
  unfold ALIGN_DOWN, PAGE_SIZE. change (4096 - 1) with (Z.ones 12).
  rewrite <- Z.ldiff_land, Z.ldiff_ones_r, Z.shiftl_mul_pow2, Z.shiftr_div_pow2 by lia. done.
Qed.

Lemma align_up_spec x : fits 64 (x + 4095) -> ALIGN_UP x PAGE_SIZE = (x + 4095) / 4096 * 4096.
Proof.
  intros H. rewrite <- align_down_spec. unfold ALIGN_UP, ALIGN_DOWN, PAGE_SIZE.
  by rewrite wrap_small by done.
Qed.

(** What the boot loader hands over: regions below the 2^52 bytes an x86-64
    physical address can reach. *)
Definition region_ok (r : memory_region_t) : Prop :=
  0 <= r_base r /\ 0 <= r_length r /\ r_base r + r_length r <= 2 ^ 52.

Definition boot_ok (bi : boot_info_t) : Prop :=
  0 <= memory_map_count bi /\ forall i, region_ok (memory_map bi i).

(** The frame [i] lies wholly inside the conventional region [r]. *)
Definition frame_in (r : memory_region_t) (i : Z) : Prop :=
  r_type r = MEMORY_TYPE_CONVENTIONAL /\
  r_base r <= i * 4096 /\ (i + 1) * 4096 <= r_base r + r_length r.

Definition usable_frame (bi : boot_info_t) (n i : Z) : Prop :=
  exists k, 0 <= k < n /\ frame_in (memory_map bi k) i.

Lemma find_highest_fits bi h0 :
  boot_ok bi -> fits 64 h0 -> fits 64 (find_highest bi h0).
Proof.
  intros [Hn _] Hh. unfold find_highest.
  apply (for_range_ind (fun _ h => fits 64 h)); [done|done|].
  intros i h ? ?. case_if; [|done]. cbv zeta. case_if; [|done]. by apply wrap_fits.
Qed.

(** One region of the map: exactly its whole frames below [total_pages] become free. *)
Lemma mark_region_spec r s :
  region_ok r -> pmm_wf s ->
  let b := ALIGN_UP (r_base r) PAGE_SIZE in
  let e := ALIGN_DOWN (u64 (r_base r + r_length r)) PAGE_SIZE in
  let s' := if r_type r =? MEMORY_TYPE_CONVENTIONAL
            then if b <? e then pmm_mark_free b ((e - b) / PAGE_SIZE) s else s else s in
  pmm_wf s' /\ same_frame s s' /\
  (forall i, 0 <= i < MAX_PAGES ->
     is_free s' i = true <-> is_free s i = true \/ (i < total_pages s /\ frame_in r i)).
Proof.
  intros (Hb & Hl & Hsum) H. cbv zeta. unfold frame_in.
  rewrite wrap_small, align_down_spec, align_up_spec by fits_lia.
  destruct (Z.eqb_spec (r_type r) MEMORY_TYPE_CONVENTIONAL) as [Et|]; [|split_and!; [done|done|tauto]].
  set (e := (r_base r + r_length r) / 4096). set (b := (r_base r + 4095) / 4096).
  assert (Hbd : b * 4096 - 4096 < r_base r <= b * 4096) by (unfold b; dlia).
  assert (Hed : e * 4096 <= r_base r + r_length r < e * 4096 + 4096) by (unfold e; dlia).
  destruct (Z.ltb_spec (b * 4096) (e * 4096)) as [Hlt|Hge].
  2:{ split_and!; [done|done|]. intros i Hi. split; [tauto|]. intros [?|?]; [done|lia]. }
  destruct (pmm_mark_free_spec (b * 4096) ((e * 4096 - b * 4096) / PAGE_SIZE) s H) as (? & ? & Hf).
  { fits_lia. }
  { unfold PAGE_SIZE. rewrite <- Z.mul_sub_distr_r, Z.div_mul by lia. fits_lia. }
  unfold PAGE_SIZE in *. rewrite pfn_div, <- Z.mul_sub_distr_r, !Z.div_mul in Hf by lia.
  rewrite <- Z.mul_sub_distr_r, Z.div_mul in * by lia.
  split_and!; [done|done|]. intros i Hi. rewrite Hf by lia. unfold in_run. rewrite orb_true_iff, !andb_true_iff, Z.leb_le, !Z.ltb_lt. split.
  - intros [?|?]; [right; lia|by left].
  - intros [?|?]; [by right|left; lia].
Qed.

Lemma mark_usable_spec bi s :
  boot_ok bi -> pmm_wf s ->
  pmm_wf (mark_usable bi s) /\ same_frame s (mark_usable bi s) /\
  (forall i, 0 <= i < MAX_PAGES ->
     is_free (mark_usable bi s) i = true <->
     is_free s i = true \/ (i < total_pages s /\ usable_frame bi (memory_map_count bi) i)).
Proof.
  intros [Hn Hr] H. unfold mark_usable.
  apply (for_range_ind (fun n s' => pmm_wf s' /\ same_frame s s' /\
    (forall i, _ -> is_free s' i = true <-> is_free s i = true \/ (i < total_pages s /\ usable_frame bi n i)))); [done|..].
  { split_and!; try done. intros i _. split; [tauto|]. intros [?|(_ & k & ? & _)]; [done|lia]. }
  intros n s' Hlt (Hwf & [Ht Hc] & Hf).
  destruct (mark_region_spec (memory_map bi n) s' (Hr n) Hwf) as (? & [??] & Hf').
  split_and!; [done|split; congruence|]. intros i Hi. rewrite Hf', Hf, Ht by done.
  unfold usable_frame. split.
  - intros [[?|(? & k & ? & ?)]|[??]]; [by left|right; split; [done|exists k; split; [lia|done]]|].
    right. split; [done|]. exists n. split; [lia|done].
  - intros [?|(? & k & ? & ?)]; [tauto|]. destruct (decide (k = n)) as [->|]; [tauto|].
    left. right. split; [done|]. exists k. split; [lia|done].
Qed.

(** The state of the statistics before any region is marked: nothing is free. *)
Lemma all_used_wf total h r :
  0 <= total <= MAX_PAGES ->
  let s := {| page_bitmap := fun _ => 255; page_refcount := fun _ => 0; total_pages := total;
              free_pages := 0; used_pages := total; highest_addr := h; last_allocated := r |} in
  pmm_wf s /\ (forall i, 0 <= i -> is_free s i = false).
Proof.
  intros Ht s. assert (Hf : forall i, 0 <= i -> is_free s i = false).
  { intros i Hi. unfold is_free. rewrite bitmap_test_testbit by done. simpl.
    apply negb_false_iff. change 255 with (Z.ones 8). apply Z.ones_spec_low.
    apply Z.mod_pos_bound. lia. }
  split; [|done]. constructor; simpl; try done.
  - rewrite (count_in_ext (is_free s) (fun _ => negb true)).
    { rewrite (count_in_neg (fun _ => true)), count_in_all by done. lia. }
    intros j ?. apply Hf. lia.
  - lia.
  - intros i ?. apply Hf. lia.
Qed.

(** The frame [i] meets the kernel image [kstart .. kend - 1]. *)
Definition kernel_frame (kstart kend i : Z) : Prop := kstart < (i + 1) * 4096 /\ i * 4096 < kend.

(** The page count computed for a page-aligned kernel image covers it. *)
Lemma kernel_pages_spec kstart kend :
  0 <= kstart <= kend -> kend <= 2 ^ 52 -> kstart mod 4096 = 0 ->
  let n := (kend - kstart + PAGE_SIZE - 1) / PAGE_SIZE in
  0 <= n <= 2 ^ 52 /\ kstart / 4096 * 4096 = kstart /\
  n * 4096 - 4096 < kend - kstart <= n * 4096.
Proof.
  intros Hk Hke Hka. unfold PAGE_SIZE. cbv zeta.
  pose proof (Z.div_mod kstart 4096 ltac:(lia)).
  pose proof (Z.div_mod (kend - kstart + 4096 - 1) 4096 ltac:(lia)).
  pose proof (Z.mod_pos_bound (kend - kstart + 4096 - 1) 4096 ltac:(lia)). lia.
Qed.

(** The two reservations at the end of [pmm_init]: the kernel image and the
    first 2 MiB. *)
Lemma reserve_spec kstart kend s :
  0 <= kstart <= kend -> kend <= 2 ^ 52 -> kstart mod 4096 = 0 -> pmm_wf s ->
  let s' := pmm_mark_used 0 512 (pmm_mark_used kstart ((kend - kstart + PAGE_SIZE - 1) / PAGE_SIZE) s) in
  pmm_wf s' /\ total_pages s' = total_pages s /\
  (forall i, 0 <= i < MAX_PAGES ->
     is_free s' i = true <-> is_free s i = true /\ 512 <= i /\ ~ kernel_frame kstart kend i).
Proof.
  intros Hk Hke Hka H.
  pose proof (kernel_pages_spec kstart kend Hk Hke Hka) as (Hn & Hks & Hke').
  set (n := (kend - kstart + PAGE_SIZE - 1) / PAGE_SIZE) in *.
  destruct (pmm_mark_used_spec kstart n s H ltac:(fits_lia) ltac:(fits_lia)) as (Hwf3 & [Ht3 _] & Hf3).
  set (s3 := pmm_mark_used kstart n s) in *.
  destruct (pmm_mark_used_spec 0 512 s3 Hwf3 ltac:(fits_lia) ltac:(fits_lia)) as (Hwf4 & [Ht4 _] & Hf4).
  split_and!; [done|congruence|]. intros i Hi. rewrite pfn_div in Hf3, Hf4.
  rewrite (Hf4 ltac:(done) i Hi), (Hf3 ltac:(lia) i Hi).
  rewrite !andb_true_iff, !negb_true_iff, !in_run_false. unfold kernel_frame.
  change (0 / 4096) with 0. clear -Hi Hn Hks Hke'. intuition lia.
Qed.

(** After [pmm_init] the invariant holds and the free frames are exactly those
    wholly inside a conventional region, above 2 MiB and outside the kernel. *)
Lemma pmm_init_spec kstart kend bi s0 :
  boot_ok bi -> fits 64 (highest_addr s0) ->
  0 <= kstart <= kend -> kend <= 2 ^ 52 -> kstart mod 4096 = 0 ->
  let s := pmm_init kstart kend bi s0 in
  pmm_inv s /\
  (forall i, 0 <= i < MAX_PAGES ->
     is_free s i = true <->
     512 <= i < total_pages s /\ usable_frame bi (memory_map_count bi) i /\ ~ kernel_frame kstart kend i).
Proof.
  intros Hbi Hh Hk Hke Hka. unfold pmm_init. cbv zeta.
  set (h := find_highest bi (highest_addr s0)).
  assert (Hfh : fits 64 h) by (by apply find_highest_fits).
  set (total := if MAX_PAGES <? PADDR_TO_PFN h then MAX_PAGES else PADDR_TO_PFN h).
  assert (Ht : 0 <= total <= MAX_PAGES).
  { unfold total. rewrite pfn_div. assert (0 <= h / 4096) by (unfold fits in *; apply Z.div_pos; lia).
    case_if; bprop; unfold MAX_PAGES in *; lia. }
  destruct (all_used_wf total h (last_allocated s0) Ht) as [Hwf1 Hused1].
  set (s1 := {| page_bitmap := _ |}) in *.
  destruct (mark_usable_spec bi s1 Hbi Hwf1) as (Hwf2 & [Ht2 _] & Hf2).
  unfold KERNEL_VMA_BASE. rewrite !Z.sub_0_r.
  rewrite (wrap_small 64 kstart), (wrap_small 64 kend) by fits_lia.
  rewrite (wrap_small 64 (kend - kstart + _ - _)) by (unfold PAGE_SIZE; fits_lia).
  destruct (reserve_spec kstart kend _ Hk Hke Hka Hwf2) as (Hwf & Ht4 & Hf).
  set (s := pmm_mark_used 0 512 _) in *.
  assert (HF : forall i, 0 <= i < MAX_PAGES -> is_free s i = true <-> 512 <= i < total_pages s /\
    usable_frame bi (memory_map_count bi) i /\ ~ kernel_frame kstart kend i).
  { intros i Hi. rewrite Hf, Hf2, Hused1, Ht4, Ht2 by lia. intuition lia. }
  split; [|done]. split; [done|].
  destruct (is_free s 0) eqn:E0; [|done]. apply HF in E0; unfold MAX_PAGES; lia.
Qed.

(** * Allocation *)

(** [s'] is [s] with the [n] free frames from [pfn] on claimed, and nothing else. *)
Record took (s s' : pmm) (pfn n : Z) : Prop := {
  took_range : 0 <= pfn /\ pfn + n <= total_pages s;
  took_free : forall i, in_run pfn n i = true -> is_free s i = true;
  took_now : forall i, 0 <= i -> is_free s' i = (negb (in_run pfn n i) && is_free s i)%bool;
  took_wf : pmm_wf s';
  took_counts : free_pages s' = free_pages s - n /\ used_pages s' = used_pages s + n /\
                total_pages s' = total_pages s
}.

Lemma take_frame_took pfn s :
  pmm_wf s -> 0 <= pfn < MAX_PAGES -> is_free s pfn = true -> took s (take_frame pfn s) pfn 1.
Proof.
  intros H Hp E. destruct (take_frame_wf pfn s H Hp E) as (? & ? & ?).
  pose proof (free_lt_total s pfn H Hp E). constructor; try done.
  - lia.
  - intros i Hi. replace i with pfn; [done|]. unfold in_run in Hi. lia.
  - intros i Hi. rewrite take_frame_free by lia. do 2 f_equal. unfold in_run. lia.
Qed.

Lemma took_ext s s' s'' pfn n :
  took s s' pfn n -> page_bitmap s'' = page_bitmap s' -> total_pages s'' = total_pages s' ->
  free_pages s'' = free_pages s' -> used_pages s'' = used_pages s' ->
  (forall i, fits 16 (page_refcount s'' i)) -> took s s'' pfn n.
Proof.
  intros [Hr Hf Hn Hw Hc] Hb Ht Hf' Hu Hrc. constructor; try done.
  - intros i Hi. rewrite <- Hn by done. unfold is_free. by rewrite Hb.
  - by apply (wf_ext s').
  - by rewrite Hf', Hu, Ht.
Qed.

(** Claiming one more frame at the end of a claimed run. *)
Lemma took_snoc s s' pfn n :
  took s s' pfn n -> 0 <= n -> pfn + n < MAX_PAGES -> is_free s (pfn + n) = true ->
  took s (take_frame (pfn + n) s') pfn (n + 1).
Proof.
  intros [Hr Hf Hn Hw (Hc1 & Hc2 & Hc3)] H0 Hm E.
  assert (E' : is_free s' (pfn + n) = true).
  { rewrite Hn, E by lia. by replace (in_run pfn n (pfn + n)) with false by (unfold in_run; lia). }
  destruct (take_frame_took (pfn + n) s' Hw ltac:(lia) E') as [? _ Hn' ? (? & ? & ?)].
  constructor; try done.
  - lia.
  - intros i Hi. rewrite in_run_succ in Hi by done. apply orb_true_iff in Hi as [?|?]; [auto|].
    bprop. by subst.
  - intros i Hi. rewrite Hn', Hn, in_run_succ by done. rewrite negb_orb.
    replace (in_run (pfn + n) 1 i) with (i =? pfn + n) by (unfold in_run; lia).
    by destruct (in_run _ _ _), (_ =? _).
  - lia.
Qed.

Lemma first_free_Some s lo hi pfn :
  first_free s lo hi = Some pfn <->
  lo <= pfn < hi /\ is_free s pfn = true /\ (forall j, lo <= j < pfn -> is_free s j = false).
Proof.
  unfold first_free. rewrite find_first_Some. split; intros (? & ? & ?); split_and!; done || lia.
Qed.

Lemma first_free_None s lo hi :
  first_free s lo hi = None <-> (forall j, lo <= j < hi -> is_free s j = false).
Proof. unfold first_free. rewrite find_first_None. split; intros H j ?; apply H; lia. Qed.

(** The choice both single-page allocators make: the lowest free frame of
    [512 .. hi - 1], else the lowest of [256 .. 511]. *)
Definition chosen (s : pmm) (hi pfn : Z) : Prop :=
  is_free s pfn = true /\
  ((512 <= pfn < hi /\ forall j, 512 <= j < pfn -> is_free s j = false) \/
   (256 <= pfn < 512 /\ (forall j, 512 <= j < hi -> is_free s j = false) /\
    forall j, 256 <= j < pfn -> is_free s j = false)).

Lemma alloc_counted_took pfn s :
  pmm_wf s -> 0 <= pfn < MAX_PAGES -> is_free s pfn = true ->
  took s (fst (alloc_counted pfn s)) pfn 1.
Proof.
  intros H Hp E. apply (took_ext s (take_frame pfn s)); [by apply take_frame_took|done..|].
  apply fits_aset; [apply (wf_ref s H)|fits_lia].
Qed.

Lemma pmm_alloc_page_cases s :
  pmm_wf s ->
  (exists pfn, chosen s (total_pages s) pfn /\
     pmm_alloc_page s = alloc_counted pfn s /\ took s (fst (pmm_alloc_page s)) pfn 1) \/
  (pmm_alloc_page s = (s, 0) /\ forall i, 256 <= i < MAX_PAGES -> is_free s i = false).
Proof.
  intros H. pose proof (wf_total s H). unfold pmm_alloc_page, START_PFN, LOW_PFN, PAGE_SIZE.
  change (2 * 1024 * 1024 / 4096) with 512. change (1 * 1024 * 1024 / 4096) with 256.
  unfold MAX_PAGES in *.
  destruct (first_free s 512 (total_pages s)) as [pfn|] eqn:E1.
  { apply first_free_Some in E1 as (? & Ef & ?). left. exists pfn.
    split_and!; [|done|apply alloc_counted_took; done || (unfold MAX_PAGES; lia)].
    split; [done|]. left. split; [lia|done]. }
  pose proof (proj1 (first_free_None _ _ _) E1) as Hn1.
  destruct (first_free s 256 512) as [pfn|] eqn:E2.
  { apply first_free_Some in E2 as (? & Ef & ?). left. exists pfn.
    split_and!; [|done|apply alloc_counted_took; done || (unfold MAX_PAGES; lia)].
    split; [done|]. right. split_and!; done || lia. }
  pose proof (proj1 (first_free_None _ _ _) E2) as Hn2.
  right. split; [done|]. intros i Hi. destruct (decide (i < 512)); [apply Hn2; lia|].
  destruct (decide (i < total_pages s)); [apply Hn1; lia|]. apply (wf_tail s H). unfold MAX_PAGES. lia.
Qed.

Lemma pmm_alloc_page_low_cases s :
  pmm_wf s ->
  (exists pfn, chosen s (Z.min (total_pages s) 32768) pfn /\
     pmm_alloc_page_low s = (take_frame pfn s, PFN_TO_PADDR pfn) /\
     took s (fst (pmm_alloc_page_low s)) pfn 1) \/
  (pmm_alloc_page_low s = (s, 0) /\ forall i, 256 <= i < 32768 -> is_free s i = false).
Proof.
  intros H. pose proof (wf_total s H). unfold pmm_alloc_page_low, START_PFN, LOW_PFN, PAGE_SIZE.
  change (2 * 1024 * 1024 / 4096) with 512. change (1 * 1024 * 1024 / 4096) with 256.
  change (128 * 1024 * 1024 / 4096) with 32768. cbv zeta.
  replace (if total_pages s <? 32768 then total_pages s else 32768)
    with (Z.min (total_pages s) 32768) by (destruct (Z.ltb_spec (total_pages s) 32768); lia).
  unfold MAX_PAGES in *.
  destruct (first_free s 512 _) as [pfn|] eqn:E1.
  { apply first_free_Some in E1 as (? & Ef & ?). left. exists pfn.
    split_and!; [|done|apply take_frame_took; done || (unfold MAX_PAGES; lia)].
    split; [done|]. left. split; [lia|done]. }
  pose proof (proj1 (first_free_None _ _ _) E1) as Hn1.
  destruct (first_free s 256 512) as [pfn|] eqn:E2.
  { apply first_free_Some in E2 as (? & Ef & ?). left. exists pfn.
    split_and!; [|done|apply take_frame_took; done || (unfold MAX_PAGES; lia)].
    split; [done|]. right. split_and!; done || lia. }
  pose proof (proj1 (first_free_None _ _ _) E2) as Hn2.
  right. split; [done|]. intros i Hi. destruct (decide (i < 512)); [apply Hn2; lia|].
  destruct (decide (i < total_pages s)); [apply Hn1; lia|]. apply (wf_tail s H). unfold MAX_PAGES. lia.
Qed.

(** ** The contiguous scan *)

Definition scanning (s : pmm) (count pfn start found : Z) : Prop :=
  0 <= found < count /\ (0 < found -> start = pfn - found) /\
  (forall i, pfn - found <= i < pfn -> is_free s i = true).

Lemma scanning_step s count pfn start found :
  scanning s count pfn start found -> is_free s pfn = true -> found + 1 <> count ->
  scanning s count (pfn + 1) (if found =? 0 then pfn else start) (found + 1).
Proof.
  intros (Hf & Hs & Hr) E Hne. split_and!; [lia|lia|..].
  - intros _. destruct (Z.eqb_spec found 0); [lia|]. rewrite Hs; lia.
  - intros i Hi. destruct (decide (i = pfn)) as [->|]; [done|]. apply Hr. lia.
Qed.

Lemma scan_run_Some s count n pfn start found st :
  fits 64 count -> scanning s count pfn start found ->
  scan_run s count n pfn start found = Some st ->
  pfn - found <= st /\ st + count <= pfn + Z.of_nat n /\
  (forall i, in_run st count i = true -> is_free s i = true).
Proof.
  intros Hc. revert pfn start found. induction n as [|n IH]; intros pfn start found Hs; simpl; [done|].
  pose proof Hs as (Hf & Hst & Hr). destruct (is_free s pfn) eqn:E.
  - rewrite wrap_small by (unfold fits in *; lia).
    destruct (Z.eqb_spec (found + 1) count) as [Heq|Hne].
    + intros [= <-].
      assert (Hstart : (if found =? 0 then pfn else start) = pfn - found).
      { destruct (Z.eqb_spec found 0); [lia|apply Hst; lia]. }
      rewrite Hstart. split_and!; [lia|lia|]. intros i Hi. unfold in_run in Hi.
      destruct (decide (i = pfn)) as [->|]; [done|]. apply Hr. lia.
    + intros H. apply IH in H; [|by apply scanning_step]. destruct H as (? & ? & ?).
      split_and!; [lia|lia|done].
  - intros H. apply IH in H; [|split_and!; [lia|lia|lia|intros; lia]].
    destruct H as (? & ? & ?). split_and!; [lia|lia|done].
Qed.

Lemma scan_run_None s count n pfn start found :
  fits 64 count -> scanning s count pfn start found ->
  scan_run s count n pfn start found = None ->
  forall a, pfn - found <= a -> a + count <= pfn + Z.of_nat n ->
  exists i, in_run a count i = true /\ is_free s i = false.
Proof.
  intros Hc. revert pfn start found. induction n as [|n IH]; intros pfn start found Hs.
  { intros _ a ? ?. destruct Hs as (? & _). lia. }
  simpl. pose proof Hs as (Hf & Hst & Hr). destruct (is_free s pfn) eqn:E.
  - rewrite wrap_small by (unfold fits in *; lia).
    destruct (Z.eqb_spec (found + 1) count) as [Heq|Hne]; [done|].
    intros H a ? ?. eapply IH; [by apply scanning_step|done|lia|lia].
  - intros H a ? ?. destruct (decide (a <= pfn)).
    + exists pfn. split; [|done]. unfold in_run. lia.
    + eapply IH; [|done|lia|lia]. split_and!; [lia|lia|lia|intros; lia].
Qed.

(** Claiming a run of free frames one by one. *)
Lemma claim_run_took s start count :
  pmm_wf s -> 0 <= start -> 0 <= count -> start + count <= total_pages s ->
  (forall i, in_run start count i = true -> is_free s i = true) ->
  took s (for_loop (Z.to_nat count) 0 (fun i s => take_frame (u64 (start + i)) s) s) start count.
Proof.
  intros H Hs Hc Hle Hf. pose proof (wf_total s H).
  apply (for_range_ind (fun k s' => took s s' start k)); [done|..].
  - constructor; try done; [lia|..].
    + intros i Hi. by rewrite in_run_0 in Hi.
    + intros i Hi. by rewrite in_run_0.
    + lia.
  - intros k s' Hk Ht. rewrite wrap_small by (unfold MAX_PAGES in *; fits_lia).
    apply took_snoc; [done|lia|lia|]. apply Hf. unfold in_run. lia.
Qed.

Lemma pmm_alloc_pages_cases count s :
  pmm_wf s -> fits 64 count -> 2 <= count ->
  (exists start, pmm_alloc_pages count s = (fst (pmm_alloc_pages count s), PFN_TO_PADDR start) /\
     took s (fst (pmm_alloc_pages count s)) start count) \/
  (pmm_alloc_pages count s = (s, 0) /\
   forall a, 0 <= a -> a + count <= total_pages s ->
   exists i, in_run a count i = true /\ is_free s i = false).
Proof.
  intros H Hc H2. pose proof (wf_total s H). unfold pmm_alloc_pages.
  destruct (Z.eqb_spec count 0), (Z.eqb_spec count 1); try lia.
  assert (Hs : scanning s count 0 0 0) by (split_and!; [lia|lia|lia|intros; lia]).
  destruct (scan_run s count _ 0 0 0) as [start|] eqn:E.
  - left. exists start. split; [done|]. apply scan_run_Some in E as (? & ? & ?); [|done|done].
    rewrite Z2Nat.id in * by lia. apply claim_run_took; done || lia.
  - right. split; [done|]. intros a ? ?. eapply scan_run_None; [done|done|done|lia|lia].
Qed.

(** The contiguous path never writes a reference count. *)
Lemma pmm_alloc_pages_refcount count s :
  2 <= count -> page_refcount (fst (pmm_alloc_pages count s)) = page_refcount s.
Proof.
  intros H2. unfold pmm_alloc_pages. destruct (Z.eqb_spec count 0), (Z.eqb_spec count 1); try lia.
  destruct (scan_run _ _ _ _ _ _); [|done]. simpl.
  apply (for_loop_ind (fun _ s' => page_refcount s' = page_refcount s)); done.
Qed.

(** * Release *)

Lemma pfn_nonneg page : fits 64 page -> 0 <= PADDR_TO_PFN page.
Proof. intros. rewrite pfn_div. dlia. Qed.

Lemma pfn_zero page :
  fits 64 page -> page <> 0 -> IS_ALIGNED page PAGE_SIZE = true -> PADDR_TO_PFN page <> 0.
Proof. intros Hp Hne Ha. rewrite aligned_mod in Ha. bprop. rewrite pfn_div. dlia. Qed.

Lemma with_refcount_wf s r : pmm_wf s -> (forall i, fits 16 (r i)) -> pmm_wf (with_refcount s r).
Proof. intros H Hr. by apply (wf_ext s). Qed.

(** The cases of [pmm_free_page] at a used frame. *)
Lemma pmm_free_page_used page s :
  pmm_wf s -> fits 64 page -> page <> 0 -> IS_ALIGNED page PAGE_SIZE = true ->
  let pfn := PADDR_TO_PFN page in
  pfn < total_pages s -> is_free s pfn = false ->
  let s' := pmm_free_page page s in
  let rc' := Z.max 0 (page_refcount s pfn - 1) in
  page_refcount s' = (page_refcount s).[pfn <- rc'] /\
  (if rc' =? 0
   then s' = drop_frame pfn (with_refcount s ((page_refcount s).[pfn <- rc']))
   else s' = with_refcount s ((page_refcount s).[pfn <- rc'])).
Proof.
  intros H Hp Hne Ha pfn Hlt Hu. unfold pmm_free_page.
  destruct (Z.eqb_spec page 0); [done|]. rewrite Ha. simpl. fold pfn.
  rewrite (proj2 (Z.leb_gt _ _)) by lia. rewrite Hu.
  pose proof (wf_ref s H pfn) as Hrc. cbv zeta.
  replace (if 0 <? page_refcount s pfn then u16 (page_refcount s pfn - 1) else page_refcount s pfn)
    with (Z.max 0 (page_refcount s pfn - 1)).
  { by destruct (_ =? 0). }
  destruct (Z.ltb_spec 0 (page_refcount s pfn)); [rewrite wrap_small by fits_lia|]; fits_lia.
Qed.

Lemma pmm_free_page_wf page s :
  pmm_wf s -> fits 64 page ->
  pmm_wf (pmm_free_page page s) /\ total_pages (pmm_free_page page s) = total_pages s /\
  (forall i, 0 <= i < MAX_PAGES -> i <> PADDR_TO_PFN page \/ page = 0 ->
     is_free (pmm_free_page page s) i = is_free s i).
Proof.
  intros H Hp. destruct (decide (page = 0)) as [->|Hne]; [done|].
  destruct (IS_ALIGNED page PAGE_SIZE) eqn:Ha.
  2:{ unfold pmm_free_page. rewrite Ha. by destruct (page =? 0). }
  destruct (decide (PADDR_TO_PFN page < total_pages s)) as [Hlt|Hge].
  2:{ unfold pmm_free_page. rewrite Ha. rewrite (proj2 (Z.leb_le _ _)) by lia. by destruct (page =? 0). }
  destruct (is_free s (PADDR_TO_PFN page)) eqn:E.
  { unfold pmm_free_page. rewrite Ha, E. destruct (page =? 0); [done|]. simpl. by destruct (_ <=? _). }
  destruct (pmm_free_page_used page s H Hp Hne Ha Hlt E) as [_ Hs].
  pose proof (pfn_nonneg page Hp). pose proof (wf_ref s H (PADDR_TO_PFN page)).
  set (rc' := Z.max 0 _) in *. set (s1 := with_refcount s _) in *.
  assert (Hw1 : pmm_wf s1).
  { apply with_refcount_wf; [done|]. apply fits_aset; [apply (wf_ref s H)|]. unfold rc'. fits_lia. }
  destruct (rc' =? 0); rewrite Hs; [|done].
  destruct (drop_frame_wf (PADDR_TO_PFN page) s1 Hw1 ltac:(done) E) as (? & _ & _).
  split_and!; [done|done|]. intros i Hi [Hi'|?]; [|done]. rewrite drop_frame_free by lia.
  by destruct (Z.eqb_spec i (PADDR_TO_PFN page)).
Qed.

Lemma pmm_free_page_inv page s : pmm_inv s -> fits 64 page -> pmm_inv (pmm_free_page page s).
Proof.
  intros [H H0] Hp. destruct (pmm_free_page_wf page s H Hp) as (? & ? & Hf). split; [done|].
  destruct (decide (IS_ALIGNED page PAGE_SIZE = true)) as [Ha|Ha].
  - rewrite Hf; [done|unfold MAX_PAGES; lia|]. destruct (decide (page = 0)); [by right|].
    left. by apply not_eq_sym, pfn_zero.
  - unfold pmm_free_page. destruct (IS_ALIGNED page PAGE_SIZE); [done|]. by destruct (page =? 0).
Qed.

Lemma pmm_free_pages_inv paddr count s :
  pmm_inv s -> pmm_inv (pmm_free_pages paddr count s).
Proof.
  intros H. unfold pmm_free_pages.
  apply (for_loop_ind (fun _ s => pmm_inv s)); [done|].
  intros i s' _ H'. apply pmm_free_page_inv; [done|]. by apply wrap_fits.
Qed.

Lemma pmm_ref_page_inv page s : pmm_inv s -> pmm_inv (pmm_ref_page page s).
Proof.
  intros [H H0]. unfold pmm_ref_page. destruct (page =? 0); [done|].
  destruct (_ <=? _); [done|]. destruct (_ <? 65535); [|done].
  split; [|done]. apply with_refcount_wf; [done|]. apply fits_aset; [apply (wf_ref s H)|by apply wrap_fits].
Qed.

Lemma took_inv s s' pfn n : pmm_inv s -> took s s' pfn n -> pmm_inv s'.
Proof.
  intros [H H0] Ht. split; [apply (took_wf _ _ _ _ Ht)|].
  rewrite (took_now _ _ _ _ Ht), H0 by lia. by rewrite andb_false_r.
Qed.

Lemma pmm_alloc_pages_inv count s : pmm_inv s -> fits 64 count -> pmm_inv (fst (pmm_alloc_pages count s)).
Proof.
  intros H Hc. destruct (decide (count = 0)) as [->|]; [done|].
  destruct (decide (count = 1)) as [->|].
  - destruct (pmm_alloc_page_cases s (inv_wf s H)) as [(? & _ & _ & ?)|[E _]].
    + by eapply took_inv.
    + change (pmm_alloc_pages 1 s) with (pmm_alloc_page s). by rewrite E.
  - destruct (pmm_alloc_pages_cases count s (inv_wf s H) Hc) as [(? & _ & ?)|[E _]]; [unfold fits in *; lia|..].
    + by eapply took_inv.
    + by rewrite E.
Qed.

(** ** Executions *)

Inductive pmm_step : pmm -> pmm -> Prop :=
  | step_alloc s : pmm_step s (fst (pmm_alloc_page s))
  | step_alloc_low s : pmm_step s (fst (pmm_alloc_page_low s))
  | step_alloc_pages s count : fits 64 count -> pmm_step s (fst (pmm_alloc_pages count s))
  | step_free s page : fits 64 page -> pmm_step s (pmm_free_page page s)
  | step_free_pages s paddr count : pmm_step s (pmm_free_pages paddr count s)
  | step_ref s page : pmm_step s (pmm_ref_page page s).

Lemma pmm_step_inv s s' : pmm_step s s' -> pmm_inv s -> pmm_inv s'.
Proof.
  intros Hs H; destruct Hs; auto using pmm_alloc_pages_inv, pmm_free_page_inv, pmm_free_pages_inv, pmm_ref_page_inv.
  - destruct (pmm_alloc_page_cases s (inv_wf s H)) as [(? & _ & _ & ?)|[-> _]]; [|done]. by eapply took_inv.
  - destruct (pmm_alloc_page_low_cases s (inv_wf s H)) as [(? & _ & _ & ?)|[-> _]]; [|done]. by eapply took_inv.
Qed.

(** ** Reference counting *)

(** A page address of a used frame that [pmm_free_page] and [pmm_ref_page] accept. *)
Record held (s : pmm) (page : Z) : Prop := {
  held_wf : pmm_wf s;
  held_fits : fits 64 page;
  held_nz : page <> 0;
  held_aligned : IS_ALIGNED page PAGE_SIZE = true;
  held_lt : PADDR_TO_PFN page < total_pages s;
  held_used : is_free s (PADDR_TO_PFN page) = false
}.

Lemma get_refcount_held s page : held s page -> pmm_get_refcount page s = page_refcount s (PADDR_TO_PFN page).
Proof.
  intros []. unfold pmm_get_refcount. destruct (Z.eqb_spec page 0); [done|].
  by rewrite (proj2 (Z.leb_gt _ _)) by lia.
Qed.

Lemma ref_held s page :
  held s page -> page_refcount s (PADDR_TO_PFN page) < 65535 ->
  held (pmm_ref_page page s) page /\
  page_refcount (pmm_ref_page page s) (PADDR_TO_PFN page) = page_refcount s (PADDR_TO_PFN page) + 1.
Proof.
  intros [] Hr. pose proof (wf_ref s held_wf0 (PADDR_TO_PFN page)). unfold pmm_ref_page.
  destruct (Z.eqb_spec page 0); [done|]. rewrite (proj2 (Z.leb_gt _ _)) by lia.
  rewrite (proj2 (Z.ltb_lt _ _)) by lia. rewrite wrap_small by fits_lia. split.
  - constructor; try done. apply with_refcount_wf; [done|].
    apply fits_aset; [apply (wf_ref s held_wf0)|fits_lia].
  - simpl. apply aset_eq.
Qed.

Lemma free_held s page :
  held s page -> 1 < page_refcount s (PADDR_TO_PFN page) ->
  held (pmm_free_page page s) page /\
  page_refcount (pmm_free_page page s) (PADDR_TO_PFN page) = page_refcount s (PADDR_TO_PFN page) - 1.
Proof.
  intros [] Hr. destruct (pmm_free_page_used page s) as [Hc Hs]; try done.
  rewrite (proj2 (Z.eqb_neq _ _)) in Hs by lia. split.
  - rewrite Hs. constructor; try done. apply with_refcount_wf; [done|].
    pose proof (wf_ref s held_wf0 (PADDR_TO_PFN page)).
    apply fits_aset; [apply (wf_ref s held_wf0)|fits_lia].
  - rewrite Hc, aset_eq. lia.
Qed.

Lemma free_last s page :
  held s page -> page_refcount s (PADDR_TO_PFN page) <= 1 ->
  is_free (pmm_free_page page s) (PADDR_TO_PFN page) = true /\
  page_refcount (pmm_free_page page s) (PADDR_TO_PFN page) = 0 /\
  total_pages (pmm_free_page page s) = total_pages s.
Proof.
  intros [] Hr. destruct (pmm_free_page_used page s) as [Hc Hs]; try done.
  pose proof (wf_ref s held_wf0 (PADDR_TO_PFN page)) as [Hr0 _].
  rewrite Z.max_l in Hc, Hs by lia. simpl in Hs. split_and!.
  - rewrite Hs, drop_frame_free, Z.eqb_refl by (by apply pfn_nonneg). done.
  - by rewrite Hc, aset_eq.
  - by rewrite Hs.
Qed.

Definition refs (n : nat) (page : Z) (s : pmm) : pmm := for_loop n 0 (fun _ => pmm_ref_page page) s.
Definition frees (n : nat) (page : Z) (s : pmm) : pmm := for_loop n 0 (fun _ => pmm_free_page page) s.

Lemma refs_held n s page r :
  held s page -> page_refcount s (PADDR_TO_PFN page) = r -> r + Z.of_nat n <= 65535 ->
  held (refs n page s) page /\ page_refcount (refs n page s) (PADDR_TO_PFN page) = r + Z.of_nat n.
Proof.
  intros Hh Hr Hn.
  apply (for_loop_ind (fun k s => held s page /\ page_refcount s (PADDR_TO_PFN page) = r + k)); [split; [done|lia]|].
  intros k s' Hk [Hh' Hr']. destruct (ref_held s' page Hh'); [lia|]. split; [done|lia].
Qed.

Lemma frees_held n s page r :
  held s page -> page_refcount s (PADDR_TO_PFN page) = r -> Z.of_nat n < r ->
  held (frees n page s) page /\ page_refcount (frees n page s) (PADDR_TO_PFN page) = r - Z.of_nat n.
Proof.
  intros Hh Hr Hn.
  apply (for_loop_ind (fun k s => held s page /\ page_refcount s (PADDR_TO_PFN page) = r - k)); [split; [done|lia]|].
  intros k s' Hk [Hh' Hr']. destruct (free_held s' page Hh'); [lia|]. split; [done|lia].
Qed.

(** A claimed frame is held by its address. *)
Lemma took_held s s' pfn n i :
  pmm_inv s -> took s s' pfn n -> in_run pfn n i = true ->
  held s' (i * 4096) /\ PADDR_TO_PFN (i * 4096) = i.
Proof.
  intros [H H0] Ht Hi. pose proof (took_range _ _ _ _ Ht). pose proof (wf_total s H).
  pose proof (took_free _ _ _ _ Ht i Hi) as Hf. pose proof (proj1 (in_run_true _ _ _) Hi).
  destruct (took_counts _ _ _ _ Ht) as (_ & _ & Htot).
  assert (i <> 0) by (intros ->; congruence).
  assert (Hp : PADDR_TO_PFN (i * 4096) = i) by (rewrite pfn_div; apply Z.div_mul; lia).
  split; [|done]. constructor; rewrite ?Hp.
  - apply (took_wf _ _ _ _ Ht).
  - unfold MAX_PAGES in *. fits_lia.
  - lia.
  - rewrite aligned_mod. by rewrite Z.mod_mul by lia.
  - lia.
  - rewrite (took_now _ _ _ _ Ht), Hi by lia. done.
Qed.

(** * Properties *)

(** A machine with 16 KiB of conventional memory at 2 MiB and a kernel image of
    512 KiB at 1 MiB: frames 512 to 515 are free after initialisation. *)
Definition zero_pmm : pmm :=
  {| page_bitmap := fun _ => 0; page_refcount := fun _ => 0; total_pages := 0; free_pages := 0;
     used_pages := 0; highest_addr := 0; last_allocated := 0 |}.
Definition demo_boot : boot_info_t :=
  {| memory_map_count := 1;
     memory_map := fun _ => {| r_base := 2097152; r_length := 16384; r_type := 7 |} |}.
Definition demo_pmm : pmm := pmm_init 1048576 1572864 demo_boot zero_pmm.

Lemma demo_boot_ok : boot_ok demo_boot.
Proof. split; [done|]. intros i. unfold region_ok. simpl. lia. Qed.

Lemma demo_inv : pmm_inv demo_pmm.
Proof. apply pmm_init_spec; done || exact demo_boot_ok || lia. Qed.

(** C2. Whatever sequence of allocator calls follows [pmm_init], the free-page
    statistic equals the number of clear bits below [total_pages], the used
    statistic is its complement, no frame beyond the detected memory and never
    frame 0 is free, and the reference counts stay 16-bit values. *)
Theorem pmm_reachable_inv kstart kend bi s0 s :
  boot_ok bi -> fits 64 (highest_addr s0) ->
  0 <= kstart <= kend -> kend <= 2 ^ 52 -> kstart mod 4096 = 0 ->
  rtc pmm_step (pmm_init kstart kend bi s0) s ->
  pmm_get_free_pages s = count_in (is_free s) 0 (Z.to_nat (pmm_get_total_pages s)) /\
  used_pages s = pmm_get_total_pages s - pmm_get_free_pages s /\
  0 <= pmm_get_total_pages s <= MAX_PAGES /\
  is_free s 0 = false /\
  (forall i, total_pages s <= i < MAX_PAGES -> is_free s i = false) /\
  (forall i, fits 16 (page_refcount s i)).
Proof.
  intros Hb Hh Hk Hke Hka Hs.
  assert (Hi : pmm_inv s).
  { refine (rtc_ind_r (fun x => pmm_inv x) _ _ _ s Hs).
    - by apply pmm_init_spec.
    - intros. by eapply pmm_step_inv. }
  destruct Hi as [[] ?]. done.
Qed.

Lemma pmm_reachable_inv_witness :
  used_pages (fst (pmm_alloc_page demo_pmm)) = 513 /\ pmm_get_free_pages (fst (pmm_alloc_page demo_pmm)) = 3.
Proof.
  destruct (pmm_reachable_inv 1048576 1572864 demo_boot zero_pmm (fst (pmm_alloc_page demo_pmm)))
    as (_ & Hu & _); [exact demo_boot_ok|simpl; fits_lia|lia|lia|done|exact (rtc_once _ _ (step_alloc _))|].
  rewrite Hu. split; vm_compute; reflexivity.
Defined.

(** [pmm_init] makes free exactly the frames that lie wholly inside some
    conventional region of the memory map, below the highest usable address,
    above the reserved first 2 MiB and clear of the kernel image. *)
Theorem pmm_init_free_iff kstart kend bi s0 i :
  boot_ok bi -> fits 64 (highest_addr s0) ->
  0 <= kstart <= kend -> kend <= 2 ^ 52 -> kstart mod 4096 = 0 -> 0 <= i < MAX_PAGES ->
  let s := pmm_init kstart kend bi s0 in
  bitmap_test (page_bitmap s) i = false <->
  512 <= i < total_pages s /\ usable_frame bi (memory_map_count bi) i /\ ~ kernel_frame kstart kend i.
Proof.
  intros Hb Hh Hk Hke Hka Hi. cbv zeta.
  destruct (pmm_init_spec kstart kend bi s0 Hb Hh Hk Hke Hka) as [_ Hf].
  by rewrite <- (Hf i Hi), is_free_test.
Qed.

Lemma pmm_init_free_iff_witness : usable_frame demo_boot 1 513 /\ ~ kernel_frame 1048576 1572864 513.
Proof.
  apply (pmm_init_free_iff 1048576 1572864 demo_boot zero_pmm 513 demo_boot_ok);
    [simpl; fits_lia|lia|lia|done|unfold MAX_PAGES; lia|vm_compute; reflexivity].
Defined.

(** [pmm_alloc_page] returns 0, and changes nothing, exactly when no frame
    above 1 MiB is free; otherwise it returns the page-aligned address of the
    lowest free frame above 2 MiB (or, failing that, of the lowest one between
    1 and 2 MiB), which was free, is used afterwards with reference count 1,
    while every other frame and count keeps its state. *)
Theorem pmm_alloc_page_correct s :
  pmm_inv s ->
  let s' := fst (pmm_alloc_page s) in
  let a := snd (pmm_alloc_page s) in
  (a = 0 <-> forall i, 256 <= i < MAX_PAGES -> is_free s i = false) /\
  (a = 0 -> s' = s) /\
  (a <> 0 -> exists pfn,
     a = pfn * 4096 /\ chosen s (total_pages s) pfn /\ took s s' pfn 1 /\
     page_refcount s' = (page_refcount s).[pfn <- 1]).
Proof.
  intros [H H0]. cbv zeta. pose proof (wf_total s H).
  destruct (pmm_alloc_page_cases s H) as [(pfn & Hch & Heq & Ht)|[Heq Hn]].
  2:{ rewrite Heq. simpl. split_and!; done. }
  assert (Hr : 256 <= pfn < MAX_PAGES).
  { destruct Hch as [_ [[? _]|[? _]]]; unfold MAX_PAGES in *; lia. }
  assert (Ha : snd (pmm_alloc_page s) = pfn * 4096) by (rewrite Heq; apply paddr_mul; lia).
  rewrite Ha. split_and!; [split; [lia|]|lia|].
  - intros Hn. destruct Hch as [Hf _]. rewrite Hn in Hf; [done|lia].
  - intros _. exists pfn. split_and!; [done|done|done|]. rewrite Heq. done.
Qed.

Lemma pmm_alloc_page_correct_witness :
  snd (pmm_alloc_page demo_pmm) = 2097152 /\ (snd (pmm_alloc_page demo_pmm) = 0 -> fst (pmm_alloc_page demo_pmm) = demo_pmm).
Proof.
  split; [vm_compute; reflexivity|].
  exact (proj1 (proj2 (pmm_alloc_page_correct demo_pmm demo_inv))).
Defined.

(** C29. [pmm_alloc_pages] for at least two pages fails, with no effect, exactly
    when no run of [count] consecutive free frames exists; otherwise it returns
    the non-zero page-aligned address of such a run and marks precisely its
    frames used. *)
Theorem pmm_alloc_pages_correct count s :
  pmm_inv s -> fits 64 count -> 2 <= count ->
  let s' := fst (pmm_alloc_pages count s) in
  let a := snd (pmm_alloc_pages count s) in
  (a = 0 <-> forall p, 0 <= p -> p + count <= total_pages s ->
               exists i, in_run p count i = true /\ is_free s i = false) /\
  (a = 0 -> s' = s) /\
  (a <> 0 -> exists start, a = start * 4096 /\ 0 < start /\ took s s' start count).
Proof.
  intros [H H0] Hc H2. cbv zeta. pose proof (wf_total s H).
  destruct (pmm_alloc_pages_cases count s H Hc H2) as [(start & Heq & Ht)|[Heq Hn]].
  2:{ rewrite Heq. simpl. split_and!; done. }
  pose proof (took_range _ _ _ _ Ht) as [Hs0 Hs1].
  assert (Hne : start <> 0).
  { intros ->. rewrite (took_free _ _ _ _ Ht 0) in H0; [done|]. unfold in_run. lia. }
  assert (Ha : snd (pmm_alloc_pages count s) = start * 4096) by (rewrite Heq; apply paddr_mul; lia).
  rewrite Ha. split_and!; [split; [lia|]|lia|].
  - intros Hn. destruct (Hn start) as (i & Hi & Hf); [lia|lia|].
    by rewrite (took_free _ _ _ _ Ht i Hi) in Hf.
  - intros _. exists start. split_and!; done || lia.
Qed.

Lemma pmm_alloc_pages_correct_witness :
  snd (pmm_alloc_pages 3 demo_pmm) = 2097152 /\
  (snd (pmm_alloc_pages 5 demo_pmm) = 0 -> fst (pmm_alloc_pages 5 demo_pmm) = demo_pmm).
Proof.
  split; [vm_compute; reflexivity|].
  exact (proj1 (proj2 (pmm_alloc_pages_correct 5 demo_pmm demo_inv ltac:(fits_lia) ltac:(lia)))).
Defined.

(** A page taken with [pmm_alloc_page] and shared [k] times with
    [pmm_ref_page] survives [k] calls of [pmm_free_page], its reference count
    going down by one at each, and is released by call [k + 1] exactly. *)
Theorem pmm_refcount_lifecycle s k j :
  pmm_inv s -> let a := snd (pmm_alloc_page s) in
  a <> 0 -> Z.of_nat k < 65535 -> (j <= k + 1)%nat ->
  let s' := frees j a (refs k a (fst (pmm_alloc_page s))) in
  pmm_get_refcount a s' = Z.of_nat k + 1 - Z.of_nat j /\
  is_free s' (PADDR_TO_PFN a) = Nat.eqb j (k + 1).
Proof.
  intros Hinv. cbv zeta. intros Ha Hk Hj.
  destruct (pmm_alloc_page_cases s (inv_wf s Hinv)) as [(pfn & Hch & Heq & Ht)|[Heq _]];
    [|by rewrite Heq in Ha].
  destruct (took_held s _ pfn 1 pfn Hinv Ht) as [Hh Hp]; [apply in_run_true; lia|].
  assert (Hrc : page_refcount (fst (pmm_alloc_page s)) pfn = 1) by (rewrite Heq; apply aset_eq).
  assert (Hav : snd (pmm_alloc_page s) = pfn * 4096).
  { rewrite Heq. apply paddr_mul. destruct (took_range _ _ _ _ Ht).
    pose proof (wf_total s (inv_wf s Hinv)). lia. }
  rewrite Hav. set (s1 := fst (pmm_alloc_page s)) in *.
  destruct (refs_held k s1 (pfn * 4096) 1 Hh) as [Hh2 Hr2]; [by rewrite Hp|lia|].
  destruct (decide (j = k + 1)%nat) as [->|Hne].
  - destruct (frees_held k _ (pfn * 4096) _ Hh2 Hr2) as [Hh3 Hr3]; [lia|].
    replace (k + 1)%nat with (S k) by lia. unfold frees. rewrite for_loop_snoc.
    fold (frees k (pfn * 4096) (refs k (pfn * 4096) s1)).
    destruct (free_last _ _ Hh3) as (Hfr & Hr4 & Ht4); [lia|].
    rewrite Hfr, Nat.eqb_refl. split; [|done]. unfold pmm_get_refcount.
    destruct (Z.eqb_spec (pfn * 4096) 0); [by destruct Hh3|].
    rewrite Ht4. destruct (_ <=? _); [lia|]. lia.
  - destruct (frees_held j _ (pfn * 4096) _ Hh2 Hr2) as [Hh3 Hr3]; [lia|].
    rewrite (get_refcount_held _ _ Hh3), Hr3. split; [lia|].
    rewrite (held_used _ _ Hh3). symmetry. by apply Nat.eqb_neq.
Qed.

Lemma pmm_refcount_lifecycle_witness :
  is_free (frees 3 2097152 (refs 2 2097152 (fst (pmm_alloc_page demo_pmm)))) 512 = true.
Proof.
  assert (Ha : snd (pmm_alloc_page demo_pmm) = 2097152) by (vm_compute; reflexivity).
  pose proof (pmm_refcount_lifecycle demo_pmm 2 3 demo_inv) as H. cbv zeta in H. rewrite Ha in H.
  exact (proj2 (H ltac:(lia) ltac:(lia) ltac:(lia))).
Defined.

(** Taking a page and giving it back restores the set of free frames and
    both statistics. *)
Theorem pmm_alloc_free_roundtrip s :
  pmm_inv s -> let a := snd (pmm_alloc_page s) in
  a <> 0 ->
  let s' := pmm_free_page a (fst (pmm_alloc_page s)) in
  (forall i, 0 <= i < MAX_PAGES -> is_free s' i = is_free s i) /\
  free_pages s' = free_pages s /\ used_pages s' = used_pages s.
Proof.
  intros Hinv. cbv zeta. intros Ha.
  destruct (pmm_alloc_page_cases s (inv_wf s Hinv)) as [(pfn & Hch & Heq & Ht)|[Heq _]];
    [|by rewrite Heq in Ha].
  pose proof (wf_total s (inv_wf s Hinv)). pose proof (took_range _ _ _ _ Ht).
  destruct (took_held s _ pfn 1 pfn Hinv Ht) as [Hh Hp]; [apply in_run_true; lia|].
  assert (Hrc : page_refcount (fst (pmm_alloc_page s)) pfn = 1) by (rewrite Heq; apply aset_eq).
  assert (Hav : snd (pmm_alloc_page s) = pfn * 4096) by (rewrite Heq; apply paddr_mul; lia).
  rewrite Hav. set (s1 := fst (pmm_alloc_page s)) in *.
  destruct (free_last s1 _ Hh) as (Hfr & _ & Htot); [rewrite Hp; lia|]. rewrite Hp in Hfr.
  destruct (pmm_free_page_wf (pfn * 4096) s1 (took_wf _ _ _ _ Ht) (held_fits _ _ Hh)) as (Hw & _ & Hf).
  destruct (took_counts _ _ _ _ Ht) as (_ & _ & Hts).
  assert (HF : forall i, 0 <= i < MAX_PAGES -> is_free (pmm_free_page (pfn * 4096) s1) i = is_free s i).
  { intros i Hi. destruct (decide (i = pfn)) as [->|Hne].
    - rewrite Hfr. symmetry. apply (took_free _ _ _ _ Ht). apply in_run_true. lia.
    - rewrite Hf; [|done|left; by rewrite Hp]. rewrite (took_now _ _ _ _ Ht) by lia.
      rewrite (proj2 (in_run_false _ _ _)) by lia. done. }
  assert (HC : free_pages (pmm_free_page (pfn * 4096) s1) = free_pages s).
  { rewrite (wf_free _ Hw), (wf_free s (inv_wf s Hinv)), Htot, Hts.
    apply count_in_ext. intros j Hj. apply HF. lia. }
  split_and!; [done|done|]. rewrite (wf_used _ Hw), (wf_used s (inv_wf s Hinv)), HC, Htot, Hts. done.
Qed.

Lemma pmm_alloc_free_roundtrip_witness :
  free_pages (pmm_free_page 2097152 (fst (pmm_alloc_page demo_pmm))) = free_pages demo_pmm.
Proof.
  assert (Ha : snd (pmm_alloc_page demo_pmm) = 2097152) by (vm_compute; reflexivity).
  pose proof (pmm_alloc_free_roundtrip demo_pmm demo_inv) as H. cbv zeta in H. rewrite Ha in H.
  exact (proj1 (proj2 (H ltac:(lia)))).
Defined.

(** Pages handed out by the contiguous allocator carry no reference of
    their own: their counter is left at the value it had, 0 for a frame never
    shared.  One [pmm_ref_page] followed by one [pmm_free_page] therefore
    releases such a page although its allocator still uses it. *)
Theorem pmm_contiguous_share_releases s count :
  pmm_inv s -> fits 64 count -> 2 <= count ->
  let a := snd (pmm_alloc_pages count s) in
  a <> 0 -> page_refcount s (PADDR_TO_PFN a) = 0 ->
  is_free (pmm_free_page a (pmm_ref_page a (fst (pmm_alloc_pages count s)))) (PADDR_TO_PFN a) = true.
Proof.
  intros Hinv Hc H2. cbv zeta. intros Ha Hr0.
  destruct (pmm_alloc_pages_cases count s (inv_wf s Hinv) Hc H2) as [(st & Heq & Ht)|[Heq _]];
    [|by rewrite Heq in Ha].
  pose proof (wf_total s (inv_wf s Hinv)). pose proof (took_range _ _ _ _ Ht).
  destruct (took_held s _ st count st Hinv Ht) as [Hh Hp]; [apply in_run_true; lia|].
  assert (Hav : snd (pmm_alloc_pages count s) = st * 4096) by (rewrite Heq; apply paddr_mul; lia).
  rewrite Hav, Hp in *.
  assert (Hrc : page_refcount (fst (pmm_alloc_pages count s)) st = 0) by (by rewrite pmm_alloc_pages_refcount).
  destruct (ref_held _ _ Hh) as [Hh2 Hr2]; [rewrite Hp; lia|]. rewrite Hp, Hrc in Hr2.
  destruct (free_last _ _ Hh2) as (Hfr & _); [rewrite Hp; lia|]. by rewrite Hp in Hfr.
Qed.

Lemma pmm_contiguous_share_releases_witness :
  is_free (pmm_free_page 2097152 (pmm_ref_page 2097152 (fst (pmm_alloc_pages 2 demo_pmm)))) 512 = true.
Proof.
  assert (Ha : snd (pmm_alloc_pages 2 demo_pmm) = 2097152) by (vm_compute; reflexivity).
  pose proof (pmm_contiguous_share_releases demo_pmm 2 demo_inv) as H. cbv zeta in H. rewrite Ha in H.
  apply H; [fits_lia|lia|lia|vm_compute; reflexivity].
Defined.
