(* ===== verification/Heap.v ===== *)
(** * Kernel heap and slab allocator (kernel/mm/heap.c, kernel/mm/slab.c)

    [kmalloc] serves requests of up to 4096 bytes from the slab allocator, which gets
    its pages from [kmalloc], and larger ones from a first-fit list of blocks.  The
    two functions are mutually recursive: [kmalloc] has a fuel for the nesting, and
    each loop over a linked list one for the nodes it visits.

    Memory is seen through the structures the allocators keep in it: [blocks] holds
    the block headers by address, [slabs] the slab page headers, [data] the bytes
    handed out.  A header whose block has been merged keeps its last contents.
    Memory that is not a header does not hold the magic number where [kfree] looks
    for it.  Taking a spinlock that is held is [Deadlock]: the code spins for ever
    (an operation never runs on two processors here, so the holder is the caller).

    [grant v] tells whether a physical page can be allocated and mapped at address
    [v].

    Specification: [rep] relates the linked list to a list of blocks, [heap_inv] is
    the invariant of the allocator. *)

From stdpp Require Import base tactics list numbers option gmap relations.
From Stdlib Require Import Lia.
From S2P Require Import Prelude Effect Pmm.

(** ** Constants *)

Definition HEAP_START : Z := 0xFFFFFFFFC0000000.
Definition HEAP_INITIAL_SIZE : Z := 16 * 1024 * 1024.
Definition HEAP_MAX_SIZE : Z := 256 * 1024 * 1024.
Definition HEAP_MAGIC : Z := 0xDEADBEEF.
Definition BLOCK_HEADER_SIZE : Z := 40.

Definition NUM_SLAB_SIZES : nat := 11.
Definition SLAB_SIZE_4096 : Z := 4096.
Definition slab_sizes : list Z := [8; 16; 32; 64; 128; 256; 512; 1024; 2048; 4096; 0].
Definition SLAB_PAGE_SIZE : Z := PAGE_SIZE.
(** [sizeof(slab_page_t)] *)
Definition SLAB_HEADER_SIZE : Z := 32.
Definition SLAB_OBJECTS_PER_PAGE (size : Z) : Z := (SLAB_PAGE_SIZE - SLAB_HEADER_SIZE) / size.

(** ** State *)

Record heap_block_t := { b_size : Z; b_free : bool; b_next : Z; b_prev : Z; b_magic : Z }.

Record slab_page_t := {
  p_next : Z; p_prev : Z; free_count : Z; total_objects : Z; size_class : nat; bitmap : arr Z
}.

Record slab_cache_t := {
  object_size : Z; partial_pages : Z; full_pages : Z;
  c_total_pages : Z; c_total_objects : Z; c_free_objects : Z; locked : bool
}.

Record heap := {
  blocks : gmap Z heap_block_t;
  data : arr Z;
  slabs : gmap Z slab_page_t;
  slab_caches : nat -> slab_cache_t;
  slab_initialized : bool;
  heap_start : Z;
  heap_current : Z;
  heap_max : Z;
  heap_total_size : Z;
  heap_used_size : Z
}.

Definition set_blocks (s : heap) (b : gmap Z heap_block_t) : heap :=
  {| blocks := b; data := data s; slabs := slabs s; slab_caches := slab_caches s; slab_initialized := slab_initialized s;
     heap_start := heap_start s; heap_current := heap_current s; heap_max := heap_max s;
     heap_total_size := heap_total_size s; heap_used_size := heap_used_size s |}.
Definition set_data (s : heap) (d : arr Z) : heap :=
  {| blocks := blocks s; data := d; slabs := slabs s; slab_caches := slab_caches s; slab_initialized := slab_initialized s;
     heap_start := heap_start s; heap_current := heap_current s; heap_max := heap_max s;
     heap_total_size := heap_total_size s; heap_used_size := heap_used_size s |}.
Definition set_slabs (s : heap) (p : gmap Z slab_page_t) (c : nat -> slab_cache_t) : heap :=
  {| blocks := blocks s; data := data s; slabs := p; slab_caches := c; slab_initialized := slab_initialized s;
     heap_start := heap_start s; heap_current := heap_current s; heap_max := heap_max s;
     heap_total_size := heap_total_size s; heap_used_size := heap_used_size s |}.
Definition set_limits (s : heap) (current max total : Z) : heap :=
  {| blocks := blocks s; data := data s; slabs := slabs s; slab_caches := slab_caches s; slab_initialized := slab_initialized s;
     heap_start := heap_start s; heap_current := current; heap_max := max;
     heap_total_size := total; heap_used_size := heap_used_size s |}.
Definition set_used (s : heap) (used : Z) : heap :=
  {| blocks := blocks s; data := data s; slabs := slabs s; slab_caches := slab_caches s; slab_initialized := slab_initialized s;
     heap_start := heap_start s; heap_current := heap_current s; heap_max := heap_max s;
     heap_total_size := heap_total_size s; heap_used_size := used |}.

(** ** The effects of an operation on the heap *)

Abbreviation M := (Effect.M heap).
#[local] Open Scope effect_scope.

(** Reading and writing a block header. *)
Definition block_at (a : Z) : M heap_block_t := fun s => match blocks s !! a with Some b => Ret b s | None => Fault end.
Definition store_block (a : Z) (b : heap_block_t) : M unit := modify (fun s => set_blocks s (<[a := b]> (blocks s))).

Definition with_next (b : heap_block_t) (n : Z) : heap_block_t :=
  {| b_size := b_size b; b_free := b_free b; b_next := n; b_prev := b_prev b; b_magic := b_magic b |}.
Definition with_prev (b : heap_block_t) (p : Z) : heap_block_t :=
  {| b_size := b_size b; b_free := b_free b; b_next := b_next b; b_prev := p; b_magic := b_magic b |}.
Definition with_size (b : heap_block_t) (n : Z) : heap_block_t :=
  {| b_size := n; b_free := b_free b; b_next := b_next b; b_prev := b_prev b; b_magic := b_magic b |}.
Definition with_free (b : heap_block_t) (f : bool) : heap_block_t :=
  {| b_size := b_size b; b_free := f; b_next := b_next b; b_prev := b_prev b; b_magic := b_magic b |}.

(** Enough for every walk along the list. *)
Definition walk_fuel (s : heap) : nat := S (size (blocks s)).

(** ** Growing the heap *)

Fixpoint expand_loop (grant : Z -> bool) (pages : nat) : M bool :=
  match pages with
  | O => ret true
  | S pages =>
      cur <~ get heap_current;;
      if grant cur then
        modify (fun s => set_limits s (u64 (heap_current s + PAGE_SIZE)) (heap_max s) (heap_total_size s));;;
        expand_loop grant pages
      else ret false
  end.

(** [true]: the code returns 0. *)
Definition expand_heap (grant : Z -> bool) (needed_size : Z) : M bool :=
  let size := ALIGN_UP needed_size PAGE_SIZE in
  cur <~ get heap_current;;
  if HEAP_START + HEAP_MAX_SIZE <? u64 (cur + size) then ret false
  else
    ok <~ expand_loop grant (Z.to_nat (size / PAGE_SIZE));;
    if ok : bool then
      modify (fun s => set_limits s (heap_current s) (heap_current s) (u64 (heap_total_size s + size)));;; ret true
    else ret false.

(** ** Blocks *)

Fixpoint coalesce_loop (fuel : nat) (block : Z) : M unit :=
  match fuel with
  | O => stop NoFuel
  | S fuel =>
      if block =? 0 then ret tt
      else
        b <~ block_at block;;
        if b_next b =? 0 then ret tt
        else
          n <~ block_at (b_next b);;
          if b_free b && b_free n then
            let b := with_next (with_size b (u64 (b_size b + u64 (BLOCK_HEADER_SIZE + b_size n)))) (b_next n) in
            store_block block b;;;
            (if b_next b =? 0 then ret tt else nn <~ block_at (b_next b);; store_block (b_next b) (with_prev nn block));;;
            coalesce_loop fuel block
          else coalesce_loop fuel (b_next b)
  end.

Definition coalesce_free_blocks : M unit :=
  start <~ get heap_start;; fuel <~ get walk_fuel;;
  if start =? 0 then ret tt else coalesce_loop fuel start.

(** The first free block of at least [size] bytes, 0 when there is none. *)
Fixpoint find_fit (fuel : nat) (block size : Z) : M Z :=
  match fuel with
  | O => stop NoFuel
  | S fuel =>
      if block =? 0 then ret 0
      else
        b <~ block_at block;;
        if b_free b && (size <=? b_size b) then ret block else find_fit fuel (b_next b) size
  end.

(** What is done with a suitable block: split it if it is too large, mark it. *)
Definition take_block (block size : Z) : M Z :=
  b <~ block_at block;;
  (if u64 (u64 (size + BLOCK_HEADER_SIZE) + 32) <=? b_size b then
     let new_block := u64 (u64 (block + BLOCK_HEADER_SIZE) + size) in
     store_block new_block {| b_size := u64 (u64 (b_size b - size) - BLOCK_HEADER_SIZE); b_free := true; b_next := b_next b;
                              b_prev := block; b_magic := HEAP_MAGIC |};;;
     (if b_next b =? 0 then ret tt else nn <~ block_at (b_next b);; store_block (b_next b) (with_prev nn new_block));;;
     b <~ block_at block;;
     store_block block (with_size (with_next b new_block) size)
   else ret tt);;;
  b <~ block_at block;;
  store_block block (with_free b false);;;
  modify (fun s => set_used s (u64 (heap_used_size s + u64 (b_size b + BLOCK_HEADER_SIZE))));;;
  ret (u64 (block + BLOCK_HEADER_SIZE)).

Fixpoint find_last (fuel : nat) (block : Z) : M Z :=
  match fuel with
  | O => stop NoFuel
  | S fuel => b <~ block_at block;; if b_next b =? 0 then ret block else find_last fuel (b_next b)
  end.

(** [kmalloc] from the alignment on. *)
Definition heap_alloc (grant : Z -> bool) (size : Z) : M Z :=
  let size := ALIGN_UP size 8 in
  start <~ get heap_start;; fuel <~ get walk_fuel;;
  block <~ find_fit fuel start size;;
  if negb (block =? 0) then take_block block size
  else
    let expand_size := u64 (size + BLOCK_HEADER_SIZE) in
    ok <~ expand_heap grant expand_size;;
    if negb ok then ret 0
    else
      start <~ get heap_start;;
      last <~ find_last fuel start;;
      lb <~ block_at last;;
      let new_block := u64 (u64 (last + BLOCK_HEADER_SIZE) + b_size lb) in
      let nb := {| b_size := u64 (expand_size - BLOCK_HEADER_SIZE); b_free := false; b_next := 0; b_prev := last; b_magic := HEAP_MAGIC |} in
      store_block new_block nb;;;
      lb <~ block_at last;;
      store_block last (with_next lb new_block);;;
      modify (fun s => set_used s (u64 (heap_used_size s + u64 (b_size nb + BLOCK_HEADER_SIZE))));;;
      ret (u64 (new_block + BLOCK_HEADER_SIZE)).

(** ** Slab pages *)

Definition find_size_class (size : Z) : nat :=
  let fix go (i : nat) (l : list Z) : nat :=
    match l with
    | [] => (NUM_SLAB_SIZES - 1)%nat
    | x :: l => if size <=? x then i else go (S i) l
    end in go 0%nat slab_sizes.

Definition class_size (c : nat) : Z := nth c slab_sizes 0.

Definition get_bitmap_size (object_count : Z) : Z := (object_count + 7) / 8.

Definition init_slab_cache (object_size : Z) : slab_cache_t :=
  {| object_size := object_size; partial_pages := 0; full_pages := 0; c_total_pages := 0; c_total_objects := 0;
     c_free_objects := 0; locked := false |}.

Definition slab_init : M unit :=
  done <~ get slab_initialized;;
  if done : bool then ret tt
  else modify (fun s =>
    {| blocks := blocks s; data := data s; slabs := slabs s; slab_caches := fun i => init_slab_cache (class_size i);
       slab_initialized := true; heap_start := heap_start s; heap_current := heap_current s; heap_max := heap_max s;
       heap_total_size := heap_total_size s; heap_used_size := heap_used_size s |}).

Definition page_at (a : Z) : M slab_page_t := fun s => match slabs s !! a with Some p => Ret p s | None => Fault end.
Definition store_page (a : Z) (p : slab_page_t) : M unit := modify (fun s => set_slabs s (<[a := p]> (slabs s)) (slab_caches s)).
Definition store_cache (c : nat) (v : slab_cache_t) : M unit :=
  modify (fun s => set_slabs s (slabs s) (fun i => if (i =? c)%nat then v else slab_caches s i)).
Definition cache_at (c : nat) : M slab_cache_t := get (fun s => slab_caches s c).

Definition with_links (p : slab_page_t) (n pr : Z) : slab_page_t :=
  {| p_next := n; p_prev := pr; free_count := free_count p; total_objects := total_objects p; size_class := size_class p; bitmap := bitmap p |}.
Definition with_objects (p : slab_page_t) (f : Z) (bm : arr Z) : slab_page_t :=
  {| p_next := p_next p; p_prev := p_prev p; free_count := f; total_objects := total_objects p; size_class := size_class p; bitmap := bm |}.
Definition with_lists (c : slab_cache_t) (partial full : Z) : slab_cache_t :=
  {| object_size := object_size c; partial_pages := partial; full_pages := full; c_total_pages := c_total_pages c;
     c_total_objects := c_total_objects c; c_free_objects := c_free_objects c; locked := locked c |}.
Definition with_counters (c : slab_cache_t) (pages total free : Z) : slab_cache_t :=
  {| object_size := object_size c; partial_pages := partial_pages c; full_pages := full_pages c; c_total_pages := pages;
     c_total_objects := total; c_free_objects := free; locked := locked c |}.
Definition with_lock (c : slab_cache_t) (l : bool) : slab_cache_t :=
  {| object_size := object_size c; partial_pages := partial_pages c; full_pages := full_pages c; c_total_pages := c_total_pages c;
     c_total_objects := c_total_objects c; c_free_objects := c_free_objects c; locked := l |}.

Definition lock_cache (c : nat) : M unit :=
  v <~ cache_at c;; if locked v then stop Deadlock else store_cache c (with_lock v true).
Definition unlock_cache (c : nat) : M unit := v <~ cache_at c;; store_cache c (with_lock v false).

(** [km]: the [kmalloc] the page comes from. *)
Definition alloc_slab_page (km : Z -> M Z) (c : nat) : M Z :=
  let objects_per_page := u32 (SLAB_OBJECTS_PER_PAGE (class_size c)) in
  page <~ km SLAB_PAGE_SIZE;;
  if page =? 0 then ret 0
  else
    store_page page {| p_next := 0; p_prev := 0; free_count := objects_per_page; total_objects := objects_per_page;
                       size_class := c; bitmap := fun _ => 255 |};;;
    ret page.

(** The first free object of a page: its index and the page without it. *)
Definition find_free_object (p : slab_page_t) : option (Z * slab_page_t) :=
  let n := total_objects p in
  let try byte :=
    if bitmap p byte =? 0 then None
    else match find_first (fun bit => has_any (bitmap p byte) (Z.shiftl 1 bit)) 0 8 with
         | Some bit => if n <=? byte * 8 + bit then None else Some bit
         | None => None
         end in
  match find_first (fun byte => match try byte with Some _ => true | None => false end) 0 (Z.to_nat (get_bitmap_size n)) with
  | Some byte =>
      match try byte with
      | Some bit => Some (byte * 8 + bit, with_objects p (u32 (free_count p - 1))
                            ((bitmap p).[byte <- u8 (Z.land (bitmap p byte) (Z.lnot (Z.shiftl 1 bit)))]))
      | None => None
      end
  | None => None
  end.

Definition object_address (a : Z) (p : slab_page_t) (i : Z) : Z :=
  a + (SLAB_HEADER_SIZE + get_bitmap_size (total_objects p)) + i * class_size (size_class p).

Definition free_object_in_page (a : Z) (p : slab_page_t) (ptr : Z) : slab_page_t :=
  let offset := u64 (ptr - (a + (SLAB_HEADER_SIZE + get_bitmap_size (total_objects p)))) in
  let i := u32 (offset / class_size (size_class p)) in
  if total_objects p <=? i then p
  else with_objects p (u32 (free_count p + 1)) ((bitmap p).[i / 8 <- u8 (Z.lor (bitmap p (i / 8)) (Z.shiftl 1 (i mod 8)))]).

(** Unlink page [a] of class [c] from the list [from_full] tells, and push it on the other. *)
Definition move_page (c : nat) (from_full : bool) (a : Z) : M unit :=
  p <~ page_at a;;
  (if p_prev p =? 0 then
     v <~ cache_at c;;
     store_cache c (if from_full then with_lists v (partial_pages v) (p_next p) else with_lists v (p_next p) (full_pages v))
   else q <~ page_at (p_prev p);; store_page (p_prev p) (with_links q (p_next p) (p_prev q)));;;
  (if p_next p =? 0 then ret tt else q <~ page_at (p_next p);; store_page (p_next p) (with_links q (p_next q) (p_prev p)));;;
  v <~ cache_at c;;
  let head := if from_full then partial_pages v else full_pages v in
  p <~ page_at a;;
  store_page a (with_links p head 0);;;
  (if head =? 0 then ret tt else q <~ page_at head;; store_page head (with_links q (p_next q) a));;;
  v <~ cache_at c;;
  store_cache c (if from_full then with_lists v a (full_pages v) else with_lists v (partial_pages v) a).

Definition slab_alloc (km : Z -> M Z) (size : Z) : M Z :=
  if (size =? 0) || (SLAB_SIZE_4096 <? size) then ret 0
  else
    let c := find_size_class size in
    lock_cache c;;;
    v <~ cache_at c;;
    let page := partial_pages v in
    object <~ (if page =? 0 then ret 0
               else
                 p <~ page_at page;;
                 match find_free_object p with
                 | None => ret 0
                 | Some (i, p) =>
                     store_page page p;;;
                     (if free_count p =? 0 then move_page c false page else ret tt);;;
                     v <~ cache_at c;;
                     store_cache c (with_counters v (c_total_pages v) (u32 (c_total_objects v + 1)) (u32 (c_free_objects v - 1)));;;
                     ret (object_address page p i)
                 end);;
    if negb (object =? 0) then unlock_cache c;;; ret object
    else
      page <~ alloc_slab_page km c;;
      if page =? 0 then unlock_cache c;;; ret 0
      else
        p <~ page_at page;;
        let (object, p) := match find_free_object p with
                           | None => (0, p)
                           | Some (i, q) => (object_address page p i, q)
                           end in
        v <~ cache_at c;;
        store_page page (with_links p (partial_pages v) 0);;;
        (if partial_pages v =? 0 then ret tt
         else q <~ page_at (partial_pages v);; store_page (partial_pages v) (with_links q (p_next q) page));;;
        store_cache c (with_counters (with_lists v page (full_pages v)) (u32 (c_total_pages v + 1)) (u32 (c_total_objects v + 1))
                         (u32 (c_free_objects v + u32 (free_count p - 1))));;;
        unlock_cache c;;;
        ret object.

(** The page a pointer lies in, 0 when there is none; [i] classes are left. *)
Fixpoint search_pages (fuel : nat) (page ptr : Z) : M Z :=
  match fuel with
  | O => stop NoFuel
  | S fuel =>
      if page =? 0 then ret 0
      else if (page <=? ptr) && (ptr <? u64 (page + SLAB_PAGE_SIZE)) then ret page
      else p <~ page_at page;; search_pages fuel (p_next p) ptr
  end.

Fixpoint search_caches (n : nat) (ptr : Z) : M Z :=
  match n with
  | O => ret 0
  | S m =>
      let i := (NUM_SLAB_SIZES - n)%nat in
      v <~ cache_at i;;
      fuel <~ get (fun s => S (size (slabs s)));;
      page <~ search_pages fuel (partial_pages v) ptr;;
      if negb (page =? 0) then ret page
      else
        page <~ search_pages fuel (full_pages v) ptr;;
        if negb (page =? 0) then ret page else search_caches m ptr
  end.
Definition find_page_for_ptr (ptr : Z) : M Z := search_caches NUM_SLAB_SIZES ptr.

(** The common end of [slab_free] and [slab_try_free], with the lock held. *)
Definition release_object (c : nat) (page ptr : Z) : M unit :=
  p <~ page_at page;;
  (if free_count p =? 0 then move_page c true page else ret tt);;;
  p <~ page_at page;;
  store_page page (free_object_in_page page p ptr);;;
  v <~ cache_at c;;
  store_cache c (with_counters v (c_total_pages v) (u32 (c_total_objects v - 1)) (u32 (c_free_objects v + 1)));;;
  unlock_cache c.

Definition slab_free (ptr size : Z) : M unit :=
  if (ptr =? 0) || (size =? 0) || (SLAB_SIZE_4096 <? size) then ret tt
  else
    let c := find_size_class size in
    lock_cache c;;;
    page <~ find_page_for_ptr ptr;;
    if page =? 0 then unlock_cache c
    else
      p <~ page_at page;;
      if negb (size_class p =? c)%nat then unlock_cache c else release_object c page ptr.

Definition slab_try_free (ptr : Z) : M bool :=
  if ptr =? 0 then ret false
  else
    page <~ find_page_for_ptr ptr;;
    if page =? 0 then ret false
    else
      p <~ page_at page;;
      lock_cache (size_class p);;;
      release_object (size_class p) page ptr;;;
      ret true.

(** ** The interface *)

Fixpoint kmalloc (nesting : nat) (grant : Z -> bool) (size : Z) : M Z :=
  match nesting with
  | O => stop NoFuel
  | S nesting =>
      if size =? 0 then ret 0
      else
        ptr <~ (if size <=? 4096 then slab_alloc (kmalloc nesting grant) size else ret 0);;
        if negb (ptr =? 0) then ret ptr else heap_alloc grant size
  end.

Definition kzalloc (nesting : nat) (grant : Z -> bool) (size : Z) : M Z :=
  ptr <~ kmalloc nesting grant size;;
  if ptr =? 0 then ret 0
  else modify (fun s => set_data s (for_loop (Z.to_nat size) 0 (fun i d => d.[ptr + i <- 0]) (data s)));;; ret ptr.

Definition kfree (ptr : Z) : M unit :=
  if ptr =? 0 then ret tt
  else
    header <~ get (fun s => blocks s !! u64 (ptr - BLOCK_HEADER_SIZE));;
    let is_block := match header with Some b => b_magic b =? HEAP_MAGIC | None => false end in
    match header, is_block with
    | Some b, true =>
        if b_free b then ret tt
        else
          store_block (u64 (ptr - BLOCK_HEADER_SIZE)) (with_free b true);;;
          modify (fun s => set_used s (u64 (heap_used_size s - u64 (b_size b + BLOCK_HEADER_SIZE))));;;
          coalesce_free_blocks
    | _, _ => slab_try_free ptr;;; ret tt
    end.

Definition krealloc (nesting : nat) (grant : Z -> bool) (ptr new_size : Z) : M Z :=
  if ptr =? 0 then kmalloc nesting grant new_size
  else if new_size =? 0 then kfree ptr;;; ret 0
  else
    b <~ block_at (u64 (ptr - BLOCK_HEADER_SIZE));;
    if new_size <=? b_size b then ret ptr
    else
      new_ptr <~ kmalloc nesting grant new_size;;
      if new_ptr =? 0 then ret 0
      else
        b <~ block_at (u64 (ptr - BLOCK_HEADER_SIZE));;
        modify (fun s => set_data s (for_loop (Z.to_nat (b_size b)) 0 (fun i d => d.[new_ptr + i <- d (ptr + i)]) (data s)));;;
        kfree ptr;;;
        ret new_ptr.

(** [stop Fault]: the panic when the heap cannot be created. *)
Definition heap_init (grant : Z -> bool) : M unit :=
  slab_init;;;
  ok <~ expand_heap grant HEAP_INITIAL_SIZE;;
  if negb ok then stop Fault
  else modify (fun s =>
    {| blocks := <[HEAP_START := {| b_size := HEAP_INITIAL_SIZE - BLOCK_HEADER_SIZE; b_free := true; b_next := 0; b_prev := 0; b_magic := HEAP_MAGIC |}]> (blocks s);
       data := data s; slabs := slabs s; slab_caches := slab_caches s; slab_initialized := slab_initialized s;
       heap_start := HEAP_START; heap_current := heap_current s; heap_max := heap_max s;
       heap_total_size := heap_total_size s; heap_used_size := heap_used_size s |}).

Definition heap_get_stats (s : heap) : Z * Z * Z :=
  (heap_total_size s, heap_used_size s, u64 (heap_total_size s - heap_used_size s)).

(** The three sums over the caches. *)
Definition slab_get_stats (s : heap) : Z * Z * Z :=
  fold_left (fun '(total, free, used) i =>
    let v := slab_caches s i in
    (u64 (total + c_total_objects v), u64 (free + c_free_objects v), u64 (used + u32 (c_total_objects v - c_free_objects v))))
    (seq 0 NUM_SLAB_SIZES) (0, 0, 0).

(** The state before [heap_init]: the initialisers of the static variables. *)
Definition zero_cache : slab_cache_t := init_slab_cache 0.
Definition heap_zero (memory : arr Z) : heap :=
  {| blocks := ∅; data := memory; slabs := ∅; slab_caches := fun _ => zero_cache; slab_initialized := false; heap_start := 0;
     heap_current := HEAP_START; heap_max := HEAP_START; heap_total_size := 0; heap_used_size := 0 |}.

(** ** Specification: the list of blocks

    The blocks tile the heap from its start: each is given by its size and whether it
    is free. *)

Definition span (l : list (Z * bool)) : Z := foldr (fun (b : Z * bool) n => BLOCK_HEADER_SIZE + fst b + n) 0 l.

Definition block (sz : Z) (fr : bool) (nx pv : Z) : heap_block_t :=
  {| b_size := sz; b_free := fr; b_next := nx; b_prev := pv; b_magic := HEAP_MAGIC |}.

(** The blocks [l] from address [a] on, with the previous block at [p] and the last
    one pointing to [e]. *)
Fixpoint seg (m : gmap Z heap_block_t) (a p : Z) (l : list (Z * bool)) (e : Z) : Prop :=
  match l with
  | [] => True
  | (sz, fr) :: l' =>
      m !! a = Some (block sz fr (match l' with [] => e | _ => a + BLOCK_HEADER_SIZE + sz end) p) /\
      seg m (a + BLOCK_HEADER_SIZE + sz) a l' e
  end.

(** The address of the last block of a segment. *)
Fixpoint last_addr (a p : Z) (l : list (Z * bool)) : Z :=
  match l with [] => p | (sz, _) :: l' => last_addr (a + BLOCK_HEADER_SIZE + sz) a l' end.

(** Merging of adjacent free blocks, and the lists that have none. *)
Fixpoint merge (l : list (Z * bool)) : list (Z * bool) :=
  match l with
  | [] => []
  | (sz, fr) :: l =>
      match fr, merge l with
      | true, (sz2, true) :: r => (sz + BLOCK_HEADER_SIZE + sz2, true) :: r
      | _, r => (sz, fr) :: r
      end
  end.

Fixpoint merged (l : list (Z * bool)) : Prop :=
  match l with
  | (_, true) :: ((_, true) :: _) => False
  | _ :: l => merged l
  | [] => True
  end.

Definition used_size (l : list (Z * bool)) : Z := foldr (fun (b : Z * bool) n => (if snd b then 0 else fst b + BLOCK_HEADER_SIZE) + n) 0 l.

Definition sizes_ok (l : list (Z * bool)) : Prop := Forall (fun b => 0 <= fst b) l.

Record heap_inv (s : heap) (l : list (Z * bool)) : Prop := {
  inv_start : heap_start s = HEAP_START;
  inv_nonempty : l <> [];
  inv_blocks : seg (blocks s) HEAP_START 0 l 0;
  inv_sizes : sizes_ok l;
  inv_span : HEAP_START + span l <= heap_current s;
  inv_max : heap_current s <= HEAP_START + HEAP_MAX_SIZE;
  inv_total : span l <= heap_total_size s <= heap_current s - HEAP_START;
  inv_used : heap_used_size s = used_size l;
  inv_merged : merged l
}.

(** The chunk of [n] bytes at [ptr] is allocated. *)
Definition live (l : list (Z * bool)) (ptr n : Z) : Prop :=
  exists l1 l2, l = l1 ++ (n, false) :: l2 /\ ptr = HEAP_START + span l1 + BLOCK_HEADER_SIZE.

(** ** Lemmas on segments *)

Lemma span_cons sz fr l : span ((sz, fr) :: l) = BLOCK_HEADER_SIZE + sz + span l.
Proof. done. Qed.

Lemma span_nil : span [] = 0.
Proof. done. Qed.

#[local] Arguments span : simpl never.
#[local] Arguments BLOCK_HEADER_SIZE : simpl never.

(** Arithmetic on spans. *)
Ltac slia := rewrite ?span_cons, ?span_nil in *; unfold BLOCK_HEADER_SIZE in *; lia.

Lemma span_app l1 l2 : span (l1 ++ l2) = span l1 + span l2.
Proof. induction l1 as [|[sz fr] l1 IH]; cbn [app]; [done|]. rewrite !span_cons, IH. lia. Qed.

Lemma span_nonneg l : sizes_ok l -> 0 <= span l.
Proof. induction 1 as [|[sz fr] l H _ IH]; cbn [fst] in *; slia. Qed.

Lemma seg_app m l1 : forall a p l2 e,
  seg m a p (l1 ++ l2) e <->
  seg m a p l1 (match l2 with [] => e | _ => a + span l1 end) /\ seg m (a + span l1) (last_addr a p l1) l2 e.
Proof.
  induction l1 as [|[sz fr] l1 IH]; intros a p l2 e.
  - cbn [app seg last_addr]. rewrite span_nil, Z.add_0_r. tauto.
  - cbn [app seg last_addr]. rewrite IH. rewrite span_cons.
    replace (a + (BLOCK_HEADER_SIZE + sz + span l1)) with (a + BLOCK_HEADER_SIZE + sz + span l1) by lia.
    destruct l1 as [|b l1]; cbn [app]; [|destruct l2; tauto].
    cbn [seg last_addr]. rewrite span_nil, Z.add_0_r. destruct l2; tauto.
Qed.

(** Headers elsewhere do not matter. *)
Lemma seg_ext m m' l : forall a p e,
  sizes_ok l -> (forall x, a <= x < a + span l -> m' !! x = m !! x) -> seg m a p l e -> seg m' a p l e.
Proof.
  induction l as [|[sz fr] l IH]; intros a p e Hl Hx; [done|]. apply Forall_cons_1 in Hl as [Hsz Hl]. cbn [fst] in Hsz.
  pose proof (span_nonneg l Hl). rewrite span_cons in Hx.
  cbn [seg]. intros [Ha Hs']. split; [rewrite Hx by slia; done|]. apply IH; [done| |done]. intros x Hr. apply Hx. slia.
Qed.

Lemma seg_insert m l a p e x v :
  sizes_ok l -> x < a \/ a + span l <= x -> seg m a p l e -> seg (<[x := v]> m) a p l e.
Proof. intros Hl Hx. apply seg_ext; [done|]. intros y Hy. apply lookup_insert_ne. lia. Qed.

(** A segment is not longer than the map that holds it. *)
Lemma seg_length m l : forall a p e, sizes_ok l -> seg m a p l e -> (length l <= size m)%nat.
Proof.
  assert (Hg : forall l a p e (X : gset Z), sizes_ok l -> seg m a p l e -> X ⊆ dom m -> (forall x, x ∈ X -> x < a) ->
    (size X + length l <= size m)%nat).
  { clear l. induction l as [|[sz fr] l IH]; intros a p e X Hl Hs HX Hlt; cbn [length].
    - rewrite <- (size_dom m). pose proof (subseteq_size X (dom m) HX). lia.
    - apply Forall_cons_1 in Hl as [Hsz Hl]. cbn [fst seg] in *. destruct Hs as [Ha Hs].
      specialize (IH (a + BLOCK_HEADER_SIZE + sz) a e ({[a]} ∪ X) Hl Hs).
      rewrite size_union, size_singleton in IH by (intros x Hx Hx'; apply elem_of_singleton in Hx; subst; specialize (Hlt a Hx'); lia).
      enough (1 + size X + length l <= size m)%nat by lia. apply IH.
      + apply union_subseteq. split; [|done]. intros x Hx. apply elem_of_singleton in Hx. subst. by apply elem_of_dom.
      + intros x Hx. apply elem_of_union in Hx as [Hx|Hx]; [apply elem_of_singleton in Hx; subst; slia|]. specialize (Hlt x Hx). slia. }
  intros a p e Hl Hs. specialize (Hg l a p e ∅ Hl Hs). rewrite size_empty in Hg. apply Hg; set_solver.
Qed.

(** The address of the first block of a segment, 0 for none. *)
Definition first_addr (a : Z) (l : list (Z * bool)) : Z := match l with [] => 0 | _ => a end.

(** Changing the [prev] link of the first block. *)
Lemma seg_prev m a p p' l e b :
  sizes_ok l -> m !! a = Some b -> seg m a p l e -> seg (<[a := with_prev b p']> m) a p' l e.
Proof.
  destruct l as [|[sz fr] l]; [done|]. intros Hl Hb [Ha Hs]. apply Forall_cons_1 in Hl as [Hsz Hl]. cbn [fst] in Hsz. cbn [seg]. split.
  - rewrite lookup_insert_eq. rewrite Ha in Hb. by injection Hb as <-.
  - apply seg_insert; [done|slia|done].
Qed.

(** ** The operations on the list *)

Definition fits_block (n : Z) (b : Z * bool) : bool := snd b && (n <=? fst b).

(** First fit: the free block of at least [n] bytes with the lowest address. *)
Lemma find_fit_spec n l : forall fuel a p s,
  0 < a -> sizes_ok l -> seg (blocks s) a p l 0 -> (length l < fuel)%nat ->
  (exists l1 sz l2, l = l1 ++ (sz, true) :: l2 /\ n <= sz /\ Forall (fun b => fits_block n b = false) l1 /\
     find_fit fuel (first_addr a l) n s = Ret (a + span l1) s) \/
  (Forall (fun b => fits_block n b = false) l /\ find_fit fuel (first_addr a l) n s = Ret 0 s).
Proof.
  induction l as [|[sz fr] l IH]; intros fuel a p s Ha Hl Hs Hf; (destruct fuel as [|fuel]; [cbn in Hf; lia|]).
  { right. split; [constructor|done]. }
  apply Forall_cons_1 in Hl as [Hsz Hl]. cbn [fst] in Hsz. destruct Hs as [Hb Hs]. cbn [first_addr find_fit].
  destruct (Z.eqb_spec a 0); [lia|]. unfold bind, block_at. rewrite Hb. cbn [b_free b_size block b_next].
  destruct (fr && (n <=? sz)) eqn:E.
  - left. apply andb_prop in E as [-> E]. exists [], sz, l. split; [done|]. split; [lia|]. split; [constructor|].
    by rewrite span_nil, Z.add_0_r.
  - replace (match l with [] => 0 | _ :: _ => a + BLOCK_HEADER_SIZE + sz end) with (first_addr (a + BLOCK_HEADER_SIZE + sz) l) by (by destruct l).
    destruct (IH fuel (a + BLOCK_HEADER_SIZE + sz) a s) as [(l1 & sz' & l2 & -> & Hn & Hf1 & E')|[Hf1 E']]; [slia|done|done|cbn in Hf; lia| |].
    + left. exists ((sz, fr) :: l1), sz', l2. split; [done|]. split; [done|]. split; [by apply Forall_cons_2|]. rewrite E'. f_equal. slia.
    + right. split; [by apply Forall_cons_2|done].
Qed.

(** The block list after [n] bytes have been taken from a free block of [sz]. *)
Definition split_block (n sz : Z) : list (Z * bool) :=
  if n + BLOCK_HEADER_SIZE + 32 <=? sz then [(n, false); (sz - n - BLOCK_HEADER_SIZE, true)] else [(sz, false)].

(** All addresses of the heap are far from the end of the address space. *)
Definition in_heap (a : Z) : Prop := HEAP_START <= a <= HEAP_START + HEAP_MAX_SIZE.

Ltac heap_lia := unfold in_heap, HEAP_START, HEAP_MAX_SIZE, BLOCK_HEADER_SIZE in *; fits_lia.

(** Remove the wrap-arounds, innermost first. *)
Ltac nowrap_heap :=
  repeat match goal with
  | |- context [wrap 64 ?x] => lazymatch x with context [wrap _ _] => fail | _ => rewrite (wrap_small 64 x) by heap_lia end
  end.

(** Run the primitive operations of the monad. *)
Ltac hrun := unfold bind, block_at, store_block, modify, get, ret, stop;
  cbn [blocks data heap_start heap_current heap_max heap_total_size heap_used_size set_blocks set_used set_limits set_data
       b_size b_free b_next b_prev b_magic block with_next with_prev with_size with_free].

(** Updating the [prev] link of the block behind, if there is one. *)
Definition link_prev (a p : Z) (l : list (Z * bool)) (m : gmap Z heap_block_t) : gmap Z heap_block_t :=
  match l, m !! a with _ :: _, Some b => <[a := with_prev b p]> m | _, _ => m end.

Lemma link_prev_seg m a p p' l e : sizes_ok l -> seg m a p l e -> seg (link_prev a p' l m) a p' l e.
Proof.
  unfold link_prev. destruct l as [|[sz fr] l]; [done|]. intros Hl Hs. pose proof Hs as [Ha _]. rewrite Ha. by eapply seg_prev.
Qed.

Lemma link_prev_lookup m a p l x : x <> a -> link_prev a p l m !! x = m !! x.
Proof. intros Hx. unfold link_prev. destruct l; [done|]. destruct (m !! a); [|done]. by apply lookup_insert_ne. Qed.

Lemma link_prev_run s m a p q l :
  0 < a -> seg m a q l 0 ->
  (if first_addr a l =? 0 then ret tt else nn <~ block_at (first_addr a l);; store_block (first_addr a l) (with_prev nn p)) (set_blocks s m) =
    Ret tt (set_blocks s (link_prev a p l m)).
Proof.
  intros Ha Hs. unfold link_prev. destruct l as [|[sz fr] l]; [done|]. destruct Hs as [Hb _]. cbn [first_addr].
  destruct (Z.eqb_spec a 0); [lia|]. hrun. by rewrite Hb.
Qed.

Lemma set_blocks_twice s m m' : set_blocks (set_blocks s m) m' = set_blocks s m'.
Proof. done. Qed.

Lemma block_at_run a b s : blocks s !! a = Some b -> block_at a s = Ret b s.
Proof. unfold block_at. by intros ->. Qed.

(** The split of a block at [a] of [sz] bytes into [n] and the rest. *)
Definition split_map (m : gmap Z heap_block_t) (a q n sz : Z) (l2 : list (Z * bool)) : gmap Z heap_block_t :=
  let nb := a + BLOCK_HEADER_SIZE + n in
  <[a := block n true nb q]>
    (link_prev (a + BLOCK_HEADER_SIZE + sz) nb l2
      (<[nb := block (sz - n - BLOCK_HEADER_SIZE) true (first_addr (a + BLOCK_HEADER_SIZE + sz) l2) a]> m)).

Lemma next_first a l : match l with [] => 0 | _ :: _ => a end = first_addr a l.
Proof. by destruct l. Qed.

Lemma split_run s a q n sz l2 :
  0 < a -> 0 <= n -> n + BLOCK_HEADER_SIZE + 32 <= sz -> sizes_ok l2 ->
  blocks s !! a = Some (block sz true (first_addr (a + BLOCK_HEADER_SIZE + sz) l2) q) -> seg (blocks s) (a + BLOCK_HEADER_SIZE + sz) a l2 0 ->
  (store_block (a + BLOCK_HEADER_SIZE + n)
     (block (sz - n - BLOCK_HEADER_SIZE) true (first_addr (a + BLOCK_HEADER_SIZE + sz) l2) a);;;
   (if first_addr (a + BLOCK_HEADER_SIZE + sz) l2 =? 0 then ret tt
    else nn <~ block_at (first_addr (a + BLOCK_HEADER_SIZE + sz) l2);;
      store_block (first_addr (a + BLOCK_HEADER_SIZE + sz) l2) (with_prev nn (a + BLOCK_HEADER_SIZE + n)));;;
   b <~ block_at a;; store_block a (with_size (with_next b (a + BLOCK_HEADER_SIZE + n)) n)) s =
  Ret tt (set_blocks s (split_map (blocks s) a q n sz l2)).
Proof.
  intros Ha Hn Hsz Hok Hb Hs. erewrite bind_run by reflexivity.
  erewrite bind_run; [|eapply (link_prev_run s); [slia|]; apply seg_insert; [done|slia|exact Hs]].
  erewrite bind_run; [|apply block_at_run; cbn [blocks set_blocks]; rewrite link_prev_lookup by slia; rewrite lookup_insert_ne by slia; exact Hb].
  reflexivity.
Qed.

Lemma split_seg m a q n sz l2 :
  0 <= n -> n + BLOCK_HEADER_SIZE + 32 <= sz -> sizes_ok l2 -> seg m (a + BLOCK_HEADER_SIZE + sz) a l2 0 ->
  seg (split_map m a q n sz l2) a q ((n, true) :: (sz - n - BLOCK_HEADER_SIZE, true) :: l2) 0.
Proof.
  intros Hn Hsz Hok Hs. unfold split_map. cbn [seg]. split; [apply lookup_insert_eq|].
  rewrite lookup_insert_ne by slia. rewrite link_prev_lookup by slia. rewrite lookup_insert_eq.
  replace (a + BLOCK_HEADER_SIZE + n + BLOCK_HEADER_SIZE + (sz - n - BLOCK_HEADER_SIZE)) with (a + BLOCK_HEADER_SIZE + sz) by lia.
  split; [by rewrite next_first|].
  apply seg_insert; [done|slia|]. eapply link_prev_seg; [done|]. apply seg_insert; [done|slia|exact Hs].
Qed.

Lemma split_map_below m a q n sz l2 x : x < a -> 0 <= n -> n + BLOCK_HEADER_SIZE + 32 <= sz -> split_map m a q n sz l2 !! x = m !! x.
Proof.
  intros Hx Hn Hsz. unfold split_map. rewrite lookup_insert_ne by lia. rewrite link_prev_lookup by slia. by rewrite lookup_insert_ne by slia.
Qed.

(** Marking the first block of a segment. *)
Lemma mark_seg m a p l e sz fr fr' b :
  sizes_ok ((sz, fr) :: l) -> m !! a = Some b -> seg m a p ((sz, fr) :: l) e -> seg (<[a := with_free b fr']> m) a p ((sz, fr') :: l) e.
Proof.
  intros Hok Hb [Ha Hs]. apply Forall_cons_1 in Hok as [Hsz Hok]. cbn [fst] in Hsz. rewrite Ha in Hb. injection Hb as <-.
  cbn [seg]. split; [by rewrite lookup_insert_eq|]. apply seg_insert; [done|slia|done].
Qed.

Lemma take_block_spec s p0 l1 sz l2 n :
  sizes_ok (l1 ++ (sz, true) :: l2) -> seg (blocks s) HEAP_START p0 (l1 ++ (sz, true) :: l2) 0 ->
  in_heap (HEAP_START + span (l1 ++ (sz, true) :: l2)) -> 0 <= n <= sz -> 0 <= heap_used_size s <= HEAP_MAX_SIZE ->
  exists m', take_block (HEAP_START + span l1) n s =
    Ret (HEAP_START + span l1 + BLOCK_HEADER_SIZE)
      (set_used (set_blocks s m') (heap_used_size s + (if n + BLOCK_HEADER_SIZE + 32 <=? sz then n else sz) + BLOCK_HEADER_SIZE)) /\
    seg m' HEAP_START p0 (l1 ++ split_block n sz ++ l2) 0.
Proof.
  intros Hok Hs Hh Hn Hu. apply Forall_app in Hok as [Hok1 Hok2]. pose proof Hok2 as Hok3. apply Forall_cons_1 in Hok3 as [_ Hok3].
  apply seg_app in Hs as [Hs1 Hs2]. pose proof Hs2 as [Hb Hs3]. rewrite next_first in Hb.
  rewrite span_app, span_cons in Hh. pose proof (span_nonneg l1 Hok1) as P1. pose proof (span_nonneg l2 Hok3) as P2.
  set (a := HEAP_START + span l1) in *. assert (Ha : in_heap a /\ in_heap (a + 40 + sz)) by (subst a; heap_lia).
  assert (Hl1 : HEAP_START + span l1 = a) by done. clearbody a.
  set (q := last_addr HEAP_START p0 l1) in *. unfold take_block, split_block.
  erewrite bind_run by (apply block_at_run, Hb). cbn [b_size block b_next].
  replace (u64 (u64 (n + BLOCK_HEADER_SIZE) + 32)) with (n + BLOCK_HEADER_SIZE + 32) by (nowrap_heap; done).
  replace (u64 (a + BLOCK_HEADER_SIZE)) with (a + BLOCK_HEADER_SIZE) by (nowrap_heap; done).
  destruct (Z.leb_spec (n + BLOCK_HEADER_SIZE + 32) sz) as [Hbig|Hsmall].
  - replace (u64 (a + BLOCK_HEADER_SIZE + n)) with (a + BLOCK_HEADER_SIZE + n) by (nowrap_heap; done).
    replace (u64 (u64 (sz - n) - BLOCK_HEADER_SIZE)) with (sz - n - BLOCK_HEADER_SIZE) by (nowrap_heap; done).
    erewrite bind_run by (apply (split_run s a q n sz l2); [heap_lia|lia|done|done|done|done]).
    assert (Hsp : seg (split_map (blocks s) a q n sz l2) a q ((n, true) :: (sz - n - BLOCK_HEADER_SIZE, true) :: l2) 0) by (apply split_seg; [lia|done|done|done]).
    pose proof Hsp as [Hb' _]. erewrite bind_run by (apply block_at_run, Hb'). hrun. eexists. split.
    + f_equal. unfold set_used, set_blocks. cbn. f_equal. nowrap_heap. lia.
    + apply seg_app. split.
      * rewrite Hl1. apply seg_insert; [done|lia|]. apply (seg_ext (blocks s)); [done|intros x Hx; apply split_map_below; lia|done].
      * rewrite Hl1. apply (mark_seg _ a q _ 0 n true false (block n true (a + BLOCK_HEADER_SIZE + n) q)); [|done|done].
        do 2 (apply Forall_cons_2; [cbn; slia|]). done.
  - erewrite bind_run by reflexivity. erewrite bind_run by (apply block_at_run, Hb). hrun. eexists. split.
    + f_equal. unfold set_used, set_blocks. cbn. f_equal. nowrap_heap. lia.
    + apply seg_app. split.
      * rewrite Hl1. apply seg_insert; [done|lia|]. by destruct l2.
      * rewrite Hl1. by apply (mark_seg _ a q l2 0 sz true false _ Hok2 Hb).
Qed.

(** ** Coalescing *)

Lemma merge_pair s1 s2 l : merge ((s1, true) :: (s2, true) :: l) = merge ((s1 + BLOCK_HEADER_SIZE + s2, true) :: l).
Proof. cbn [merge]. destruct (merge l) as [|[s3 []] r]; [done| |done]. do 2 f_equal. lia. Qed.

(** The flag of the first block survives merging. *)
Lemma merge_head sz fr l : exists sz' r, merge ((sz, fr) :: l) = (sz', fr) :: r.
Proof. cbn [merge]. destruct fr; [destruct (merge l) as [|[s3 []] r]|]; eauto. Qed.

Lemma merge_step s1 f1 s2 f2 l : f1 && f2 = false -> merge ((s1, f1) :: (s2, f2) :: l) = (s1, f1) :: merge ((s2, f2) :: l).
Proof.
  intros H. destruct (merge_head s2 f2 l) as (s' & r & E). cbn [merge] in *. rewrite E. by destruct f1, f2.
Qed.

Lemma coalesce_spec l : forall fuel s a p,
  l <> [] -> sizes_ok l -> seg (blocks s) a p l 0 -> in_heap a -> in_heap (a + span l) -> (length l <= fuel)%nat ->
  exists m', coalesce_loop fuel a s = Ret tt (set_blocks s m') /\ seg m' a p (merge l) 0 /\ (forall x, x < a -> m' !! x = blocks s !! x).
Proof.
  intros fuel. revert l. induction fuel as [|fuel IH]; intros l s a p Hne Hok Hs Ha He Hf; [destruct l; [done|cbn in Hf; lia]|].
  destruct l as [|[s1 f1] l]; [done|]. pose proof Hok as Hok'. apply Forall_cons_1 in Hok as [Hs1 Hok]. cbn [fst] in Hs1.
  pose proof Hs as [Hb Hs']. cbn [coalesce_loop]. destruct (Z.eqb_spec a 0); [heap_lia|].
  erewrite bind_run by (apply block_at_run, Hb). cbn [b_next b_free b_size block]. destruct l as [|[s2 f2] l].
  { exists (blocks s). split; [by destruct s|]. split; [|done]. by destruct f1. }
  pose proof (Forall_cons_1 _ _ _ Hok) as [Hs2 Hok2]. cbn [fst] in Hs2. pose proof (span_nonneg l Hok2). rewrite !span_cons in He.
  destruct (Z.eqb_spec (a + BLOCK_HEADER_SIZE + s1) 0); [heap_lia|].
  pose proof Hs' as [Hb2 Hs2']. rewrite next_first in Hb2. erewrite bind_run by (apply block_at_run, Hb2). cbn [b_next b_free b_size block].
  destruct (f1 && f2) eqn:Ef.
  - apply andb_prop in Ef as [-> ->]. replace (u64 (s1 + u64 (BLOCK_HEADER_SIZE + s2))) with (s1 + BLOCK_HEADER_SIZE + s2) by (nowrap_heap; lia).
    erewrite bind_run by reflexivity. cbn [b_next with_next].
    set (m1 := <[a := _]> (blocks s)).
    assert (Hs3 : seg m1 (a + BLOCK_HEADER_SIZE + s1 + BLOCK_HEADER_SIZE + s2) (a + BLOCK_HEADER_SIZE + s1) l 0) by (apply seg_insert; [done|slia|done]).
    erewrite bind_run by (apply (link_prev_run s m1 (a + BLOCK_HEADER_SIZE + s1 + BLOCK_HEADER_SIZE + s2) a (a + BLOCK_HEADER_SIZE + s1) l); [heap_lia|exact Hs3]).
    destruct (IH ((s1 + BLOCK_HEADER_SIZE + s2, true) :: l) (set_blocks s (link_prev (a + BLOCK_HEADER_SIZE + s1 + BLOCK_HEADER_SIZE + s2) a l m1)) a p)
      as (m' & E & Hm & Hx); [done|apply Forall_cons_2; [cbn; slia|done]| |done|rewrite span_cons; heap_lia|cbn in *; lia|].
    + cbn [seg blocks set_blocks]. replace (a + BLOCK_HEADER_SIZE + (s1 + BLOCK_HEADER_SIZE + s2)) with (a + BLOCK_HEADER_SIZE + s1 + BLOCK_HEADER_SIZE + s2) by lia.
      split; [rewrite link_prev_lookup by slia; unfold m1; rewrite lookup_insert_eq, next_first; done|]. by eapply link_prev_seg.
    + exists m'. rewrite merge_pair. split; [exact E|]. split; [done|]. intros x Hlt. rewrite Hx by done. cbn [blocks set_blocks].
      rewrite link_prev_lookup by slia. unfold m1. apply lookup_insert_ne. lia.
  - destruct (IH ((s2, f2) :: l) s (a + BLOCK_HEADER_SIZE + s1) a) as (m' & E & Hm & Hx);
      [done|done|done|heap_lia|rewrite span_cons; heap_lia|cbn in *; lia|].
    exists m'. split; [exact E|]. rewrite merge_step by done. split; [|intros x Hlt; apply Hx; slia].
    destruct (merge_head s2 f2 l) as (s' & r & Em). rewrite Em in *. cbn [seg]. split; [|done]. rewrite Hx by slia. exact Hb.
Qed.

Lemma used_cons sz fr l : used_size ((sz, fr) :: l) = (if fr then 0 else sz + BLOCK_HEADER_SIZE) + used_size l.
Proof. done. Qed.

Lemma merge_ok l : sizes_ok l -> sizes_ok (merge l) /\ span (merge l) = span l /\ used_size (merge l) = used_size l /\ merged (merge l).
Proof.
  induction 1 as [|[sz fr] l Hsz Hl (IH1 & IH2 & IH3 & IH4)]; [by split; [constructor|]|]. cbn [fst] in Hsz. cbn [merge].
  assert (Hkeep : sizes_ok ((sz, fr) :: merge l) /\ span ((sz, fr) :: merge l) = span ((sz, fr) :: l) /\
    used_size ((sz, fr) :: merge l) = used_size ((sz, fr) :: l)).
  { split; [by apply Forall_cons_2|]. rewrite !span_cons, !used_cons, IH2, IH3. done. }
  destruct Hkeep as (K1 & K2 & K3). destruct fr; [destruct (merge l) as [|[s2 []] r] eqn:E|].
  - done.
  - apply Forall_cons_1 in IH1 as [H2 IH1]. cbn [fst] in H2. rewrite !span_cons, !used_cons in *.
    split; [apply Forall_cons_2; [cbn; slia|done]|]. split; [slia|]. split; [lia|]. cbn in IH4. cbn. by destruct r as [|[? []] ?].
  - done.
  - split; [done|]. split; [done|]. split; [done|]. cbn. by destruct (merge l) as [|[? []] ?].
Qed.

Lemma merge_merged l : merged l -> merge l = l.
Proof.
  induction l as [|[sz fr] l IH]; [done|]. intros H. cbn [merge]. destruct fr.
  - destruct l as [|[s2 []] l]; [done|done|]. rewrite IH by done. done.
  - rewrite IH; [done|]. by destruct l as [|[? []] ?].
Qed.

Lemma merge_nonempty l : l <> [] -> merge l <> [].
Proof. destruct l as [|[sz fr] l]; [done|]. intros _. by destruct (merge_head sz fr l) as (? & ? & ->). Qed.

(** Allocated blocks keep their place when free blocks are merged. *)
Lemma merge_used n l1 l2 : exists r1 r2, merge (l1 ++ (n, false) :: l2) = r1 ++ (n, false) :: r2 /\ span r1 = span l1.
Proof.
  induction l1 as [|[sz fr] l1 (r1 & r2 & E & Hs)].
  - exists [], (merge l2). done.
  - cbn [app merge]. rewrite E. destruct fr.
    + destruct r1 as [|[s2 []] r1]; cbn [app].
      * exists [(sz, true)], r2. split; [done|]. rewrite !span_cons, <- Hs. done.
      * exists ((sz + BLOCK_HEADER_SIZE + s2, true) :: r1), r2. split; [done|]. rewrite !span_cons in *. lia.
      * exists ((sz, true) :: (s2, false) :: r1), r2. split; [done|]. rewrite !span_cons in *. lia.
    + exists ((sz, false) :: r1), r2. split; [done|]. rewrite !span_cons. lia.
Qed.

Lemma live_merge l ptr n : live l ptr n -> live (merge l) ptr n.
Proof. intros (l1 & l2 & -> & ->). destruct (merge_used n l1 l2) as (r1 & r2 & -> & Hs). exists r1, r2. by rewrite Hs. Qed.

Lemma used_size_app l1 l2 : used_size (l1 ++ l2) = used_size l1 + used_size l2.
Proof. induction l1 as [|b l1 IH]; cbn [app]; [done|]. destruct b. rewrite !used_cons, IH. lia. Qed.

Lemma used_size_bounds l : sizes_ok l -> 0 <= used_size l <= span l.
Proof.
  induction 1 as [|[sz fr] l Hsz _ IH]; [done|]. cbn [fst] in Hsz. rewrite span_cons. rewrite used_cons. destruct fr; slia.
Qed.

(** What an operation leaves alone. *)
Definition same_rest (s s' : heap) : Prop :=
  slabs s' = slabs s /\ slab_caches s' = slab_caches s /\ slab_initialized s' = slab_initialized s /\ data s' = data s.

Lemma kfree_spec s l1 sz l2 :
  heap_inv s (l1 ++ (sz, false) :: l2) ->
  exists s', kfree (HEAP_START + span l1 + BLOCK_HEADER_SIZE) s = Ret tt s' /\
    heap_inv s' (merge (l1 ++ (sz, true) :: l2)) /\ same_rest s s' /\ heap_current s' = heap_current s /\ heap_total_size s' = heap_total_size s.
Proof.
  intros [Hst Hne Hs Hok Hsp Hmax Htot Hu Hm]. pose proof Hok as Hok'. apply Forall_app in Hok' as [Hok1 Hok2].
  pose proof Hok2 as Hok3. apply Forall_cons_1 in Hok3 as [Hsz Hok3]. cbn [fst] in Hsz.
  pose proof (span_nonneg l1 Hok1) as P1. pose proof (span_nonneg l2 Hok3) as P2. rewrite span_app, span_cons in Hsp.
  apply seg_app in Hs as [Hs1 Hs2]. set (a := HEAP_START + span l1) in *. assert (Ha : in_heap a) by (subst a; heap_lia).
  assert (Hl1 : HEAP_START + span l1 = a) by done. clearbody a. pose proof Hs2 as [Hb _]. rewrite next_first in Hb.
  unfold kfree. destruct (Z.eqb_spec (a + BLOCK_HEADER_SIZE) 0); [heap_lia|].
  replace (u64 (a + BLOCK_HEADER_SIZE - BLOCK_HEADER_SIZE)) with a by (rewrite wrap_small by heap_lia; lia).
  erewrite bind_run by reflexivity. cbv beta. rewrite Hb. cbn [b_magic block]. rewrite Z.eqb_refl. cbn [b_free block].
  erewrite bind_run by reflexivity. erewrite bind_run by reflexivity. cbn [b_size block].
  set (l := l1 ++ (sz, true) :: l2).
  assert (Hokl : sizes_ok l) by (apply Forall_app_2; [done|by apply Forall_cons_2]).
  assert (Hspl : span l = span l1 + (BLOCK_HEADER_SIZE + sz + span l2)) by (unfold l; by rewrite span_app, span_cons).
  assert (Hsl : seg (<[a := with_free (block sz false (first_addr (a + BLOCK_HEADER_SIZE + sz) l2) (last_addr HEAP_START 0 l1)) true]> (blocks s)) HEAP_START 0 l 0).
  { apply seg_app. rewrite Hl1. split; [apply seg_insert; [done|lia|done]|]. by apply (mark_seg _ a _ l2 0 sz false true _ Hok2 Hb). }
  set (m1 := <[a := _]> (blocks s)) in *. pose proof (used_size_bounds _ Hok) as Hub. rewrite span_app, span_cons in Hub. rewrite span_app, span_cons in Htot.
  unfold coalesce_free_blocks. erewrite bind_run by reflexivity. erewrite bind_run by reflexivity. cbv beta.
  cbn [heap_start set_used set_blocks]. rewrite Hst. change (HEAP_START =? 0) with false. cbv iota.
  match goal with |- context [coalesce_loop ?f _ ?st] => set (fuel := f); set (s1 := st) end.
  destruct (coalesce_spec l fuel s1 HEAP_START 0) as (m' & E & Hm' & _).
  { unfold l. by destruct l1. } { done. } { done. } { heap_lia. } { rewrite Hspl. heap_lia. }
  { unfold fuel, walk_fuel. cbn [blocks s1 set_used set_blocks]. pose proof (seg_length _ _ _ _ _ Hokl Hsl). lia. }
  destruct (merge_ok l Hokl) as (M1 & M2 & M3 & M4). exists (set_blocks s1 m'). split; [exact E|]. split; [|by split_and!].
  split; cbn [blocks heap_start heap_current heap_total_size heap_used_size set_blocks set_used s1]; try done.
  - apply merge_nonempty. unfold l. by destruct l1.
  - rewrite M2, Hspl. lia.
  - rewrite M2, Hspl. lia.
  - rewrite M3, Hu. unfold l. pose proof (used_size_bounds l1 Hok1). pose proof (used_size_bounds l2 Hok3).
    rewrite !used_size_app, !used_cons in *. nowrap_heap. lia.
Qed.

(** ** Growing *)

Lemma align8 n : 0 <= n < 2 ^ 63 -> ALIGN_UP n 8 = (n + 7) / 8 * 8.
Proof.
  intros Hn. unfold ALIGN_UP. rewrite wrap_small by (unfold fits; change (2 ^ 63) with 9223372036854775808 in Hn; change (2 ^ 64) with 18446744073709551616; lia).
  change (8 - 1) with (Z.ones 3). rewrite <- Z.ldiff_land, Z.ldiff_ones_r, Z.shiftl_mul_pow2, Z.shiftr_div_pow2 by lia. done.
Qed.

Lemma align_page n : 0 <= n < 2 ^ 63 -> ALIGN_UP n PAGE_SIZE = (n + 4095) / 4096 * 4096.
Proof. intros Hn. apply align_up_spec. unfold fits. change (2 ^ 63) with 9223372036854775808 in Hn. change (2 ^ 64) with 18446744073709551616. lia. Qed.

Lemma expand_loop_spec grant n : forall s,
  HEAP_START <= heap_current s -> heap_current s + Z.of_nat n * 4096 <= HEAP_START + HEAP_MAX_SIZE ->
  exists ok k, expand_loop grant n s = Ret ok (set_limits s (heap_current s + Z.of_nat k * 4096) (heap_max s) (heap_total_size s)) /\
    (k <= n)%nat /\ (ok = true -> k = n) /\ (ok = false -> (k < n)%nat /\ grant (heap_current s + Z.of_nat k * 4096) = false).
Proof.
  induction n as [|n IH]; intros s Hlo Hhi.
  { exists true, 0%nat. split; [|done]. rewrite Z.add_0_r. by destruct s. }
  cbn [expand_loop]. erewrite bind_run by reflexivity. cbv beta. destruct (grant (heap_current s)) eqn:Eg.
  - erewrite bind_run by reflexivity. cbv beta. unfold PAGE_SIZE. replace (u64 (heap_current s + 4096)) with (heap_current s + 4096) by (nowrap_heap; done).
    destruct (IH (set_limits s (heap_current s + 4096) (heap_max s) (heap_total_size s))) as (ok & k & E & Hk & Hok & Hno);
      [cbn; lia|cbn [heap_current set_limits]; lia|].
    exists ok, (S k). rewrite E. split; [|split; [lia|split; [intros H; by rewrite Hok|]]];
      [|intros H; destruct (Hno H) as [H1 H2]; split; [lia|]; rewrite <- H2; f_equal; cbn [heap_current set_limits]; lia]. f_equal. cbn [heap_current heap_max heap_total_size set_limits].
    unfold set_limits. cbn. f_equal. lia.
  - exists false, 0%nat. split; [|split; [lia|split; [done|split; [lia|by rewrite Z.add_0_r]]]]. rewrite Z.add_0_r. by destruct s.
Qed.

(** The heap cannot take [n] more bytes: they exceed its maximal size, or one of the
    pages they need cannot be had. *)
Definition cannot_grow (grant : Z -> bool) (cur n : Z) : Prop :=
  HEAP_START + HEAP_MAX_SIZE < cur + (n + 4095) / 4096 * 4096 \/
  exists i, 0 <= i < (n + 4095) / 4096 /\ grant (cur + i * 4096) = false.

Lemma expand_heap_spec grant n s :
  0 <= n <= 2 ^ 29 -> in_heap (heap_current s) -> 0 <= heap_total_size s <= HEAP_MAX_SIZE ->
  exists ok cur mx tot, expand_heap grant n s = Ret ok (set_limits s cur mx tot) /\
    heap_current s <= cur <= HEAP_START + HEAP_MAX_SIZE /\
    (if ok : bool then cur = heap_current s + (n + 4095) / 4096 * 4096 /\ tot = heap_total_size s + (n + 4095) / 4096 * 4096
     else tot = heap_total_size s /\ cannot_grow grant (heap_current s) n).
Proof.
  change (2 ^ 29) with 536870912. intros Hn Hc Ht. unfold expand_heap. rewrite align_page by (change (2 ^ 63) with 9223372036854775808; lia).
  erewrite bind_run by reflexivity. cbv beta. unfold cannot_grow. set (q := (n + 4095) / 4096). assert (Hq : 0 <= q /\ n <= q * 4096 < n + 4096) by (unfold q; dlia). clearbody q.
  replace (u64 (heap_current s + q * 4096)) with (heap_current s + q * 4096) by (rewrite wrap_small by heap_lia; lia).
  destruct (Z.ltb_spec (HEAP_START + HEAP_MAX_SIZE) (heap_current s + q * 4096)) as [Hlt|Hge].
  { exists false, (heap_current s), (heap_max s), (heap_total_size s). split; [by destruct s|]. split; [heap_lia|]. split; [done|by left]. }
  replace (q * 4096 / PAGE_SIZE) with q by (unfold PAGE_SIZE; by rewrite Z.div_mul).
  destruct (expand_loop_spec grant (Z.to_nat q) s) as (ok & k & E & Hk & Hok & Hno); [heap_lia|rewrite Z2Nat.id by lia; lia|].
  erewrite bind_run by exact E. cbv beta. destruct ok.
  - specialize (Hok eq_refl). subst k. rewrite Z2Nat.id in * by lia. erewrite bind_run by reflexivity. cbn [heap_current heap_total_size set_limits heap_max].
    do 4 eexists. split; [reflexivity|]. split; [lia|]. split; [done|]. rewrite wrap_small by heap_lia. done.
  - do 4 eexists. split; [reflexivity|]. split; [lia|]. split; [done|]. right. exists (Z.of_nat k). destruct (Hno eq_refl). split; [lia|done].
Qed.

Lemma find_last_spec l : forall fuel a p s,
  l <> [] -> 0 < a -> sizes_ok l -> seg (blocks s) a p l 0 -> (length l <= fuel)%nat -> find_last fuel a s = Ret (last_addr a p l) s.
Proof.
  induction l as [|[sz fr] l IH]; intros fuel a p s Hne Ha Hok Hs Hf; [done|]. destruct fuel as [|fuel]; [cbn in Hf; lia|].
  apply Forall_cons_1 in Hok as [Hsz Hok]. cbn [fst] in Hsz. destruct Hs as [Hb Hs]. cbn [find_last last_addr].
  erewrite bind_run by (apply block_at_run, Hb). cbn [b_next block]. destruct l as [|b l]; [done|].
  destruct (Z.eqb_spec (a + BLOCK_HEADER_SIZE + sz) 0); [slia|]. apply IH; [done|slia|done|done|cbn in *; lia].
Qed.

Lemma last_split (l : list (Z * bool)) : l <> [] -> exists l1 sz fr, l = l1 ++ [(sz, fr)].
Proof. destruct l as [|[sz fr] l1 _] using rev_ind; [done|]. eauto. Qed.

Lemma last_addr_snoc l1 sz fr : forall a p, last_addr a p (l1 ++ [(sz, fr)]) = a + span l1.
Proof. induction l1 as [|[s1 f1] l1 IH]; intros a p; cbn [app last_addr]; [slia|]. rewrite IH. slia. Qed.

(** Appending a block behind the last one. *)
Lemma append_seg m l1 sz fr n :
  sizes_ok (l1 ++ [(sz, fr)]) -> seg m HEAP_START 0 (l1 ++ [(sz, fr)]) 0 ->
  let last := HEAP_START + span l1 in
  let nb := last + BLOCK_HEADER_SIZE + sz in
  exists lb, <[nb := block n false 0 last]> m !! last = Some lb /\ m !! last = Some lb /\ b_size lb = sz /\
    seg (<[last := with_next lb nb]> (<[nb := block n false 0 last]> m)) HEAP_START 0 (l1 ++ [(sz, fr); (n, false)]) 0.
Proof.
  intros Hok Hs last nb. apply Forall_app in Hok as [Hok1 Hok2]. apply Forall_cons_1 in Hok2 as [Hsz _]. cbn [fst] in Hsz.
  pose proof (span_nonneg l1 Hok1). apply seg_app in Hs as [Hs1 [Hb _]]. fold last in Hb, Hs1.
  eexists. rewrite lookup_insert_ne by (unfold nb; slia). split; [exact Hb|]. split; [exact Hb|]. split; [done|].
  apply seg_app. fold last. split.
  - apply seg_insert; [done|unfold last; lia|]. apply seg_insert; [done|unfold nb, last; slia|done].
  - cbn [seg]. rewrite lookup_insert_eq. split; [done|]. fold nb. rewrite lookup_insert_ne by (unfold nb; slia). rewrite lookup_insert_eq. done.
Qed.

Lemma merged_app l1 b l2 : merged (l1 ++ b :: l2) <-> merged (l1 ++ [b]) /\ merged (b :: l2).
Proof.
  induction l1 as [|[sz fr] l1 IH]; cbn [app].
  - destruct b as [s []]; cbn; [|tauto]. tauto.
  - destruct fr; cbn [merged].
    + destruct l1 as [|[s1 []] l1]; cbn [app] in *; [destruct b as [s []]; [|rewrite <- IH]; cbn; tauto|tauto|tauto].
    + destruct l1 as [|[s1 []] l1]; cbn [app] in *; [destruct b as [s []]; cbn; tauto|tauto|tauto].
Qed.

Lemma merged_used_r l1 sz : merged (l1 ++ [(sz, false)]) <-> merged l1.
Proof.
  induction l1 as [|[s fr] l1 IH]; [done|]. cbn [app]. destruct fr.
  - destruct l1 as [|[s1 []] l1]; cbn [app merged] in *; tauto.
  - destruct l1 as [|[s1 []] l1]; cbn [app merged] in *; tauto.
Qed.

(** Taking a block keeps the list free of adjacent free blocks. *)
Lemma merged_split n sz l1 l2 : merged (l1 ++ (sz, true) :: l2) -> merged (l1 ++ split_block n sz ++ l2).
Proof.
  intros H. assert (H1 : merged l1).
  { clear n. induction l1 as [|[s fr] l1 IH]; [done|]. cbn [app] in H. destruct fr; destruct l1 as [|[s1 []] l1]; cbn in *; tauto. }
  apply merged_app in H as [_ H2].
  assert (H3 : forall x y, merged ((x, false) :: (y, true) :: l2)) by (intros x y; cbn [merged] in *; by destruct l2 as [|[? []] ?]).
  assert (H4 : forall x, merged ((x, false) :: l2)) by (intros x; cbn [merged] in *; by destruct l2 as [|[? []] ?]).
  unfold split_block. destruct (_ <=? _); cbn [app]; apply merged_app; (split; [by apply merged_used_r|]); [apply H3|apply H4].
Qed.

Lemma split_ok n sz : 0 <= n <= sz -> sizes_ok (split_block n sz) /\ span (split_block n sz) = BLOCK_HEADER_SIZE + sz /\
  used_size (split_block n sz) = (if n + BLOCK_HEADER_SIZE + 32 <=? sz then n else sz) + BLOCK_HEADER_SIZE.
Proof.
  intros Hn. unfold split_block. destruct (Z.leb_spec (n + BLOCK_HEADER_SIZE + 32) sz); rewrite ?span_cons, ?span_nil, ?used_cons; cbn [used_size foldr].
  - split; [repeat (apply Forall_cons_2; [cbn; slia|]); apply Forall_nil_2|]. slia.
  - split; [repeat (apply Forall_cons_2; [cbn; slia|]); apply Forall_nil_2|]. slia.
Qed.

(** The three outcomes of an allocation from the list: first fit, a new block at the
    end, or failure. *)
Inductive alloc_outcome (n : Z) (l : list (Z * bool)) : Z -> list (Z * bool) -> Prop :=
  | alloc_fit l1 sz l2 :
      l = l1 ++ (sz, true) :: l2 -> n <= sz -> Forall (fun b => fits_block n b = false) l1 ->
      alloc_outcome n l (HEAP_START + span l1 + BLOCK_HEADER_SIZE) (l1 ++ split_block n sz ++ l2)
  | alloc_grow :
      Forall (fun b => fits_block n b = false) l ->
      alloc_outcome n l (HEAP_START + span l + BLOCK_HEADER_SIZE) (l ++ [(n, false)])
  | alloc_fail :
      Forall (fun b => fits_block n b = false) l -> alloc_outcome n l 0 l.

Lemma no_fit n l : Forall (fun b => fits_block n b = false) l -> ~ Exists (fun b => fits_block n b = true) l.
Proof. intros H He. induction He as [b l Hb|b l He IH]; apply Forall_cons_1 in H as [H1 H2]; [congruence|by apply IH]. Qed.

Definition round8 (n : Z) : Z := (n + 7) / 8 * 8.

Lemma heap_alloc_fit n s l l1 sz l2 :
  heap_inv s l -> l = l1 ++ (sz, true) :: l2 -> 0 <= n <= sz ->
  exists s', take_block (HEAP_START + span l1) n s = Ret (HEAP_START + span l1 + BLOCK_HEADER_SIZE) s' /\
    same_rest s s' /\ heap_inv s' (l1 ++ split_block n sz ++ l2) /\ heap_total_size s' = heap_total_size s.
Proof.
  intros [Hst Hne Hs Hok Hsp Hmax Htot Hu Hm] -> Hn. pose proof (used_size_bounds _ Hok) as Hub.
  pose proof (span_nonneg _ Hok). destruct (take_block_spec s 0 l1 sz l2 n) as (m' & E & Hs'); [done|done|heap_lia|done|heap_lia|].
  eexists. split; [exact E|]. split; [done|]. split; [|done]. destruct (split_ok n sz Hn) as (S1 & S2 & S3).
  rewrite !span_app, span_cons, ?used_size_app, ?used_cons in *. apply Forall_app in Hok as [Hok1 Hok2]. apply Forall_cons_1 in Hok2 as [_ Hok2].
  split; cbn [blocks heap_start heap_current heap_total_size heap_used_size set_blocks set_used]; try done.
  - destruct l1; [|done]. unfold split_block. by destruct (_ <=? _).
  - apply Forall_app_2; [done|]. by apply Forall_app_2.
  - rewrite !span_app, S2. lia.
  - rewrite !span_app, S2. lia.
  - rewrite !used_size_app, S3. lia.
  - by apply merged_split.
Qed.

Lemma heap_inv_limits s l cur mx tot :
  heap_inv s l -> heap_current s <= cur <= HEAP_START + HEAP_MAX_SIZE -> heap_total_size s <= tot <= heap_total_size s + (cur - heap_current s) ->
  heap_inv (set_limits s cur mx tot) l.
Proof. intros [Hst Hne Hs Hok Hsp Hmax Htot Hu Hm] Hc Ht. split; cbn; try done; lia. Qed.

Lemma heap_alloc_grow s l n :
  heap_inv s l -> 0 <= n -> HEAP_START + span l + BLOCK_HEADER_SIZE + n <= heap_current s ->
  span l + BLOCK_HEADER_SIZE + n <= heap_total_size s ->
  exists m',
    (last <~ find_last (walk_fuel s) HEAP_START;;
     lb <~ block_at last;;
     let new_block := u64 (u64 (last + BLOCK_HEADER_SIZE) + b_size lb) in
     let nb := {| b_size := u64 (n + BLOCK_HEADER_SIZE - BLOCK_HEADER_SIZE); b_free := false; b_next := 0; b_prev := last; b_magic := HEAP_MAGIC |} in
     store_block new_block nb;;;
     lb <~ block_at last;;
     store_block last (with_next lb new_block);;;
     modify (fun s => set_used s (u64 (heap_used_size s + u64 (b_size nb + BLOCK_HEADER_SIZE))));;;
     ret (u64 (new_block + BLOCK_HEADER_SIZE))) s =
    Ret (HEAP_START + span l + BLOCK_HEADER_SIZE) (set_used (set_blocks s m') (heap_used_size s + (n + BLOCK_HEADER_SIZE))) /\
    heap_inv (set_used (set_blocks s m') (heap_used_size s + (n + BLOCK_HEADER_SIZE))) (l ++ [(n, false)]).
Proof.
  intros [Hst Hne Hs Hok Hsp Hmax Htot Hu Hm] Hn Hfit Ht. pose proof (used_size_bounds _ Hok) as Hub. pose proof (span_nonneg _ Hok).
  destruct (last_split l Hne) as (l1 & sz & fr & ->). pose proof Hok as Hok'. apply Forall_app in Hok' as [Hok1 Hok2].
  apply Forall_cons_1 in Hok2 as [Hsz _]. cbn [fst] in Hsz. pose proof (span_nonneg l1 Hok1).
  rewrite span_app, span_cons, span_nil, Z.add_0_r in *.
  destruct (append_seg (blocks s) l1 sz fr n Hok Hs) as (lb & L1 & L2 & L3 & Hs').
  set (last := HEAP_START + span l1) in *. set (nb := last + BLOCK_HEADER_SIZE + sz) in *.
  assert (Hnb : in_heap nb /\ nb = HEAP_START + (span l1 + (BLOCK_HEADER_SIZE + sz))) by (unfold nb, last; heap_lia). destruct Hnb as [Hnb Enb].
  erewrite bind_run; [|apply (find_last_spec (l1 ++ [(sz, fr)])); [done|done|done|exact Hs|]; pose proof (seg_length _ _ _ _ _ Hok Hs); unfold walk_fuel; lia].
  rewrite last_addr_snoc. fold last. erewrite bind_run by (apply block_at_run, L2). rewrite L3.
  replace (u64 (u64 (last + BLOCK_HEADER_SIZE) + sz)) with nb by (unfold nb, last in *; nowrap_heap; done).
  replace (u64 (n + BLOCK_HEADER_SIZE - BLOCK_HEADER_SIZE)) with n by (unfold nb, last in *; nowrap_heap; lia).
  cbv zeta. erewrite bind_run by reflexivity. erewrite bind_run by (apply block_at_run, L1). do 2 erewrite bind_run by reflexivity. hrun.
  eexists. split.
  - f_equal; [rewrite <- Enb; unfold nb, last in *; nowrap_heap; done|]. unfold set_used, set_blocks. cbn. f_equal. unfold nb, last in *. nowrap_heap. lia.
  - split; cbn [blocks heap_start heap_current heap_total_size heap_used_size set_blocks set_used set_limits]; try done.
    + by destruct l1.
    + by rewrite <- app_assoc.
    + apply Forall_app_2; [done|]. apply Forall_cons_2; [done|apply Forall_nil_2].
    + rewrite !span_app, !span_cons, span_nil. lia.
    + rewrite !span_app, !span_cons, span_nil. lia.
    + rewrite Hu, !used_size_app, !used_cons. cbn [used_size foldr]. lia.
    + by apply merged_used_r.
Qed.

Lemma heap_alloc_spec grant n s l :
  heap_inv s l -> 0 <= n <= 2 ^ 28 ->
  exists p s' l', heap_alloc grant n s = Ret p s' /\ same_rest s s' /\ alloc_outcome (round8 n) l p l' /\ heap_inv s' l' /\
    (Exists (fun b => fits_block (round8 n) b = true) l -> heap_total_size s' = heap_total_size s) /\
    (p = 0 -> cannot_grow grant (heap_current s) (round8 n + BLOCK_HEADER_SIZE)).
Proof.
  intros Hi Hn. change (2 ^ 28) with 268435456 in Hn. pose proof Hi as [Hst Hne Hs Hok Hsp Hmax Htot Hu Hm].
  pose proof (span_nonneg _ Hok). unfold heap_alloc. rewrite align8 by (change (2 ^ 63) with 9223372036854775808; lia). fold (round8 n).
  assert (Hr : n <= round8 n < n + 8) by (unfold round8; dlia). set (N := round8 n) in *. clearbody N.
  do 2 erewrite bind_run by reflexivity. cbv beta. rewrite Hst.
  pose proof (seg_length _ _ _ _ _ Hok Hs) as Hlen.
  destruct (find_fit_spec N l (walk_fuel s) HEAP_START 0 s) as [(l1 & sz & l2 & El & HN & Hno & E)|[Hno E]]; [done|done|done|unfold walk_fuel; lia| |].
  - assert (Hf : first_addr HEAP_START l = HEAP_START) by (by destruct l). rewrite Hf in E. erewrite bind_run by exact E.
    assert (0 <= span l1) by (apply span_nonneg; subst l; by apply Forall_app in Hok as [? _]).
    destruct (Z.eqb_spec (HEAP_START + span l1) 0); [unfold HEAP_START in *; lia|]. cbn [negb].
    destruct (heap_alloc_fit N s l l1 sz l2 Hi El) as (s' & E' & Hr' & Hi' & Ht'); [lia|]. do 3 eexists. split; [exact E'|]. split; [done|]. split; [by apply alloc_fit|]. split; [done|]. split; [done|].
    unfold HEAP_START, BLOCK_HEADER_SIZE in *. lia.
  - assert (Hf : first_addr HEAP_START l = HEAP_START) by (by destruct l). rewrite Hf in E. erewrite bind_run by exact E. cbn [negb Z.eqb].
    replace (u64 (N + BLOCK_HEADER_SIZE)) with (N + BLOCK_HEADER_SIZE) by (nowrap_heap; done).
    destruct (expand_heap_spec grant (N + BLOCK_HEADER_SIZE) s) as (ok & cur & mx & tot & Ex & Hcur & Hres);
      [change (2 ^ 29) with 536870912; slia|heap_lia|lia|].
    erewrite bind_run by exact Ex. destruct ok; cbn [negb].
    + erewrite bind_run by reflexivity. cbv beta. cbn [heap_start set_limits]. rewrite Hst. destruct Hres as [Ec Et].
      assert (Hq : N + 40 <= (N + BLOCK_HEADER_SIZE + 4095) / 4096 * 4096) by (unfold BLOCK_HEADER_SIZE; dlia).
      destruct (heap_alloc_grow (set_limits s cur mx tot) l N) as (m' & E' & Hi');
        [apply heap_inv_limits; [done|lia|lia]|lia|cbn [heap_current set_limits]; slia|cbn [heap_total_size set_limits]; slia|].
      do 3 eexists. split; [exact E'|]. split; [done|]. split; [by apply alloc_grow|]. split; [exact Hi'|].
      split; [intros Hex; by apply no_fit in Hno|]. unfold HEAP_START, BLOCK_HEADER_SIZE in *. lia.
    + destruct Hres as [Et Hres]. do 3 eexists. split; [reflexivity|]. split; [done|]. split; [by apply alloc_fail|].
      split; [apply heap_inv_limits; [done|lia|lia]|]. split; [intros Hex; by apply no_fit in Hno|done].
Qed.

(** ** Chunks *)

Lemma merge_replace l1 l l' : merge l = merge l' -> merge (l1 ++ l) = merge (l1 ++ l').
Proof. intros H. induction l1 as [|[sz fr] l1 IH]; [done|]. cbn [app merge]. by rewrite IH. Qed.

(** Freeing what was split off a block gives the block back. *)
Lemma split_merges n sz l2 : exists m r, split_block n sz = (m, false) :: r /\ merge ((m, true) :: r ++ l2) = merge ((sz, true) :: l2).
Proof.
  unfold split_block. destruct (_ <=? _).
  - exists n, [(sz - n - BLOCK_HEADER_SIZE, true)]. split; [done|]. cbn [app]. rewrite merge_pair. do 3 f_equal. lia.
  - exists sz, []. done.
Qed.

Lemma split_block_head n sz : exists m r, split_block n sz = (m, false) :: r /\ (n <= sz -> n <= m).
Proof. unfold split_block. destruct (Z.leb_spec (n + BLOCK_HEADER_SIZE + 32) sz); do 2 eexists; (split; [reflexivity|lia]). Qed.

(** Every allocated chunk lies in the heap, and two of them never overlap. *)
Lemma live_bounds l p m : sizes_ok l -> live l p m -> HEAP_START + BLOCK_HEADER_SIZE <= p /\ 0 <= m /\ p + m <= HEAP_START + span l.
Proof.
  intros Hok (l1 & l2 & -> & ->). apply Forall_app in Hok as [Hok1 Hok2]. apply Forall_cons_1 in Hok2 as [Hm Hok2]. cbn [fst] in Hm.
  pose proof (span_nonneg l1 Hok1). pose proof (span_nonneg l2 Hok2). rewrite span_app, span_cons. lia.
Qed.

Lemma live_apart l p m p' m' : sizes_ok l -> live l p m -> live l p' m' -> (p = p' /\ m = m') \/ p + m < p' \/ p' + m' < p.
Proof.
  intros Hok (l1 & l2 & -> & ->) (l1' & l2' & E & ->). revert l1' E. induction l1 as [|[sz fr] l1 IH]; intros l1' E; (destruct l1' as [|[sz' fr'] l1']; cbn [app] in *).
  - injection E as <- <-. by left.
  - injection E as <- <- ->. right. left. apply Forall_cons_1 in Hok as [_ Hok]. apply Forall_app in Hok as [Hok _].
    pose proof (span_nonneg l1' Hok). slia.
  - injection E as -> -> E. right. right. subst l2'. apply Forall_cons_1 in Hok as [_ Hok]. apply Forall_app in Hok as [Hok _].
    pose proof (span_nonneg l1 Hok). slia.
  - injection E as <- <- E. apply Forall_cons_1 in Hok as [_ Hok]. destruct (IH Hok l1' E) as [[? ?]|[?|?]]; [left; split; [slia|done]|right; left; slia|right; right; slia].
Qed.

Lemma alloc_outcome_live n l p l' : alloc_outcome n l p l' -> p <> 0 -> exists m, live l' p m /\ n <= m.
Proof.
  intros [l1 sz l2 -> Hn _|_|_] Hp; [| |done].
  - destruct (split_block_head n sz) as (m & r & -> & Hm). exists m. split; [|auto]. by exists l1, (r ++ l2).
  - exists n. split; [|lia]. by exists l, [].
Qed.

Lemma split_span n sz : span (split_block n sz) = BLOCK_HEADER_SIZE + sz.
Proof. unfold split_block. destruct (_ <=? _); slia. Qed.

(** Two ways to single out an element of a list. *)
Lemma app_cons_eq {A} (l1 : list A) : forall x l2 k1 y k2, l1 ++ x :: l2 = k1 ++ y :: k2 ->
  (l1 = k1 /\ x = y /\ l2 = k2) \/
  (exists r, k1 = l1 ++ x :: r /\ l2 = r ++ y :: k2) \/ (exists r, l1 = k1 ++ y :: r /\ k2 = r ++ x :: l2).
Proof.
  induction l1 as [|b l1 IH]; intros x l2 [|b' k1] y k2 E; cbn [app] in E; injection E as -> E.
  - by left.
  - right. left. by exists k1.
  - right. right. by exists l1.
  - destruct (IH x l2 k1 y k2 E) as [(-> & -> & ->)|[(r & -> & ->)|(r & -> & ->)]]; [by left|right; left; by exists r|right; right; by exists r].
Qed.

Lemma alloc_outcome_keeps n l p l' q m : alloc_outcome n l p l' -> live l q m -> live l' q m.
Proof.
  intros [l1 sz l2 -> Hn _|_|_] (k1 & k2 & E & ->); [| |by exists k1, k2].
  - destruct (app_cons_eq _ _ _ _ _ _ E) as [(_ & [=] & _)|[(r & -> & ->)|(r & -> & ->)]].
    + exists (l1 ++ split_block n sz ++ r), k2. split; [by rewrite <- !app_assoc|]. rewrite !span_app, split_span, span_cons. lia.
    + exists k1, (r ++ split_block n sz ++ l2). split; [by rewrite <- !app_assoc|done].
  - subst l. exists k1, (k2 ++ [(n, false)]). split; [by rewrite <- app_assoc|done].
Qed.

(** A new chunk is at an address where none was allocated. *)
Lemma alloc_outcome_new n l p l' m : sizes_ok l -> alloc_outcome n l p l' -> live l p m -> False.
Proof.
  intros Hok Ho Hl. pose proof (live_bounds _ _ _ Hok Hl) as Hb. destruct Ho as [l1 sz l2 -> Hn _|_|_]; [|slia|unfold HEAP_START in *; slia].
  destruct Hl as (k1 & k2 & E & Hp). destruct (app_cons_eq _ _ _ _ _ _ E) as [(_ & [=] & _)|[(r & -> & ->)|(r & -> & ->)]];
    repeat (apply Forall_app in Hok as [? Hok] || apply Forall_cons_1 in Hok as [? Hok]).
  - rewrite span_app, span_cons in Hp. pose proof (span_nonneg r ltac:(done)). cbn [fst] in *. slia.
  - apply Forall_app in H as [_ H]. apply Forall_cons_1 in H as [? H]. cbn [fst] in *. rewrite span_app, span_cons in Hp. pose proof (span_nonneg r H). slia.
Qed.

(** ** [kmalloc] and [krealloc] for large requests *)

Lemma kmalloc_large k grant n s l :
  heap_inv s l -> 4096 < n <= 2 ^ 28 ->
  exists p s' l', kmalloc (S k) grant n s = Ret p s' /\ same_rest s s' /\ alloc_outcome (round8 n) l p l' /\ heap_inv s' l' /\
    (Exists (fun b => fits_block (round8 n) b = true) l -> heap_total_size s' = heap_total_size s) /\
    (p = 0 -> cannot_grow grant (heap_current s) (round8 n + BLOCK_HEADER_SIZE)).
Proof.
  intros Hi Hn. cbn [kmalloc]. destruct (Z.eqb_spec n 0); [lia|]. destruct (Z.leb_spec n 4096); [lia|].
  erewrite bind_run by reflexivity. cbn [negb Z.eqb]. apply heap_alloc_spec; [done|lia].
Qed.

Lemma kfree_live s l p m : heap_inv s l -> live l p m ->
  exists s' l', kfree p s = Ret tt s' /\ heap_inv s' l' /\ same_rest s s' /\
    (exists l1 l2, l = l1 ++ (m, false) :: l2 /\ p = HEAP_START + span l1 + BLOCK_HEADER_SIZE /\ l' = merge (l1 ++ (m, true) :: l2)).
Proof.
  intros Hi (l1 & l2 & -> & ->). destruct (kfree_spec s l1 m l2 Hi) as (s' & E & Hi' & Hr & _).
  exists s', (merge (l1 ++ (m, true) :: l2)). split; [done|]. split; [done|]. split; [done|]. by exists l1, l2.
Qed.

(** Freeing one chunk leaves the others. *)
Lemma free_keeps l1 m l2 q n : live (l1 ++ (m, false) :: l2) q n -> q <> HEAP_START + span l1 + BLOCK_HEADER_SIZE -> live (merge (l1 ++ (m, true) :: l2)) q n.
Proof.
  intros (k1 & k2 & E & ->) Hq. apply live_merge. destruct (app_cons_eq _ _ _ _ _ _ E) as [(-> & _)|[(r & -> & ->)|(r & -> & ->)]]; [done| |].
  - exists (l1 ++ (m, true) :: r), k2. split; [by rewrite <- app_assoc|]. rewrite !span_app, !span_cons. lia.
  - exists k1, (r ++ (m, true) :: l2). split; [by rewrite <- app_assoc|done].
Qed.

(** Copying between ranges that do not overlap. *)
Lemma copy_apart (d : arr Z) src dst n : forall lo,
  (forall i j, 0 <= i < lo + Z.of_nat n -> 0 <= j < lo + Z.of_nat n -> dst + i <> src + j) -> 0 <= lo ->
  let d' := for_loop n lo (fun i d => d.[dst + i <- d (src + i)]) d in
  (forall i, lo <= i < lo + Z.of_nat n -> d' (dst + i) = d (src + i)) /\
  (forall x, (forall i, lo <= i < lo + Z.of_nat n -> x <> dst + i) -> d' x = d x).
Proof.
  revert d. induction n as [|n IH]; intros d lo Hx Hlo; cbn [for_loop]; [split; [lia|done]|].
  destruct (IH (d.[dst + lo <- d (src + lo)]) (lo + 1)) as [H1 H2]; [intros i j Hi Hj; apply Hx; lia|lia|]. split.
  - intros i Hi. destruct (Z.eq_dec i lo) as [->|Hne].
    + rewrite H2 by (intros; lia). apply aset_eq.
    + rewrite H1 by lia. apply aset_ne. specialize (Hx lo i). lia.
  - intros x Hx'. rewrite H2 by (intros; apply Hx'; lia). apply aset_ne. specialize (Hx' lo). lia.
Qed.

(** ** The slab allocator *)

(** No cache has a page, and no lock is held: the state [slab_init] leaves. *)
Definition caches_empty (s : heap) : Prop := forall c, partial_pages (slab_caches s c) = 0 /\ locked (slab_caches s c) = false.

(** A cache whose lock is held stops every allocation of its class. *)
Lemma slab_alloc_locked km n s : 0 < n <= 4096 -> locked (slab_caches s (find_size_class n)) = true -> slab_alloc km n s = Deadlock.
Proof.
  intros Hn Hl. unfold slab_alloc, SLAB_SIZE_4096. destruct (Z.eqb_spec n 0); [lia|]. destruct (Z.ltb_spec 4096 n); [lia|]. cbn [orb].
  unfold lock_cache, cache_at, bind, get, stop. by rewrite Hl.
Qed.

(** An allocation from an empty cache asks [kmalloc] for a page with the lock held. *)
Lemma slab_alloc_empty km n s :
  0 < n <= 4096 -> caches_empty s \/ (forall c, partial_pages (slab_caches s c) = 0) -> locked (slab_caches s (find_size_class n)) = false ->
  (forall s', locked (slab_caches s' (find_size_class n)) = true ->
     (forall c, partial_pages (slab_caches s' c) = 0) -> (forall c, c <> find_size_class n -> slab_caches s' c = slab_caches s c) ->
     km SLAB_PAGE_SIZE s' = Deadlock) ->
  slab_alloc km n s = Deadlock.
Proof.
  intros Hn He Hl Hkm. assert (Hp : forall c, partial_pages (slab_caches s c) = 0) by (destruct He as [He|He]; [intros c; apply He|done]).
  unfold slab_alloc, SLAB_SIZE_4096. destruct (Z.eqb_spec n 0); [lia|]. destruct (Z.ltb_spec 4096 n); [lia|]. cbn [orb].
  unfold lock_cache, cache_at, bind, get, stop. rewrite Hl. unfold store_cache, modify. cbn [slab_caches set_slabs].
  rewrite Nat.eqb_refl. cbn [partial_pages with_lock]. rewrite Hp. cbn [Z.eqb]. unfold ret. cbn [negb Z.eqb].
  unfold alloc_slab_page, bind. rewrite Hkm; [done| | |]; cbn [slab_caches set_slabs].
  - by rewrite Nat.eqb_refl.
  - intros c. destruct (c =? find_size_class n)%nat; [apply Hp|apply Hp].
  - intros c Hc. destruct (Nat.eqb_spec c (find_size_class n)); [done|done].
Qed.

Lemma kmalloc_slab k grant n s : 0 < n <= 4096 -> slab_alloc (kmalloc k grant) n s = Deadlock -> kmalloc (S k) grant n s = Deadlock.
Proof.
  intros Hn E. cbn [kmalloc]. destruct (Z.eqb_spec n 0); [lia|]. destruct (Z.leb_spec n 4096); [|lia]. unfold bind. by rewrite E.
Qed.

Lemma kmalloc_small_deadlocks k grant n s : 0 < n <= 4096 -> caches_empty s -> kmalloc (S (S (S k))) grant n s = Deadlock.
Proof.
  intros Hn He. apply kmalloc_slab; [done|]. apply slab_alloc_empty; [done|by left|apply He|]. intros s1 L1 P1 R1.
  change SLAB_PAGE_SIZE with 4096. apply kmalloc_slab; [lia|]. destruct (Nat.eq_dec (find_size_class n) (find_size_class 4096)) as [E|E].
  { apply slab_alloc_locked; [lia|]. by rewrite <- E. }
  apply slab_alloc_empty; [lia|by right|rewrite R1 by done; apply He|]. intros s2 L2 P2 R2. change SLAB_PAGE_SIZE with 4096.
  apply kmalloc_slab; [lia|]. by apply slab_alloc_locked.
Qed.

(** ** Reachable states *)

(** The states of the heap after boot and calls with large requests, frees of
    allocated chunks and reallocations; [grant] may change from call to call. *)
Inductive heap_reach : heap -> Prop :=
  | reach_init grant memory s : heap_init grant (heap_zero memory) = Ret tt s -> heap_reach s
  | reach_malloc s k grant n p s' : heap_reach s -> 4096 < n <= 2 ^ 28 -> kmalloc (S k) grant n s = Ret p s' -> heap_reach s'
  | reach_free s l p m s' : heap_reach s -> heap_inv s l -> live l p m -> kfree p s = Ret tt s' -> heap_reach s'
  | reach_write s d : heap_reach s -> heap_reach (set_data s d).

Lemma heap_init_spec grant memory s : heap_init grant (heap_zero memory) = Ret tt s -> heap_inv s [(HEAP_INITIAL_SIZE - BLOCK_HEADER_SIZE, true)] /\ caches_empty s.
Proof.
  unfold heap_init.
  set (s0 := {| blocks := ∅; data := memory; slabs := ∅; slab_caches := fun i => init_slab_cache (class_size i); slab_initialized := true; heap_start := 0;
    heap_current := HEAP_START; heap_max := HEAP_START; heap_total_size := 0; heap_used_size := 0 |}).
  erewrite (bind_run slab_init _ _ tt s0) by reflexivity.
  destruct (expand_heap_spec grant HEAP_INITIAL_SIZE s0) as (ok & cur & mx & tot & E & Hcur & Hres);
    [unfold HEAP_INITIAL_SIZE; lia|cbn [heap_current s0]; heap_lia|cbn [heap_total_size s0]; heap_lia|].
  erewrite bind_run by exact E. destruct ok; cbn [negb]; [|done]. unfold modify. intros [= <-]. destruct Hres as [-> ->].
  assert (Hq : (HEAP_INITIAL_SIZE + 4095) / 4096 * 4096 = HEAP_INITIAL_SIZE) by reflexivity. rewrite Hq in *.
  split; [|by intros c]. split; cbn [blocks heap_start heap_current heap_total_size heap_used_size set_limits s0]; try done.
  - apply Forall_cons_2; [unfold HEAP_INITIAL_SIZE; cbn [fst]; slia|apply Forall_nil_2].
Qed.

Lemma same_rest_empty s s' : same_rest s s' -> caches_empty s -> caches_empty s'.
Proof. intros (_ & E & _) He c. rewrite E. apply He. Qed.

Lemma reach_inv s : heap_reach s -> exists l, heap_inv s l /\ caches_empty s.
Proof.
  induction 1 as [grant memory s E|s k grant n p s' _ (l & Hi & He) Hn E|s l p m s' _ (l0 & _ & He) Hi Hl E|s d _ (l & Hi & He)].
  - eexists. by apply heap_init_spec with grant memory.
  - destruct (kmalloc_large k grant n s l Hi Hn) as (p' & s2 & l' & E' & Hr & _ & Hi' & _). rewrite E' in E. injection E as -> ->.
    exists l'. split; [done|by apply (same_rest_empty s)].
  - destruct (kfree_live s l p m Hi Hl) as (s2 & l' & E' & Hi' & Hr & _). rewrite E' in E. injection E as ->.
    exists l'. split; [done|by apply (same_rest_empty s)].
  - exists l. split; [|done]. destruct Hi. by split.
Qed.

(** ** Properties *)

(** C4. In every state reached from boot by allocations of more than 4096 bytes and
    at most the maximal size of the heap (256 MiB), frees of allocated chunks and writes
    to memory outside the headers, the blocks tile the heap without two free
    neighbours, the allocated chunks lie in mapped memory and do not overlap, and the
    statistics are right: the used bytes are those of the allocated chunks and their
    headers, the free bytes the rest of the total, and the total is at least what the
    blocks take up and at most what is mapped. *)
Theorem heap_reachable_inv (s : heap) (H : heap_reach s) :
  exists l, heap_inv s l /\
    (forall p m, live l p m -> HEAP_START + BLOCK_HEADER_SIZE <= p /\ 0 <= m /\ p + m <= heap_current s) /\
    (forall p m p' m', live l p m -> live l p' m' -> (p = p' /\ m = m') \/ p + m < p' \/ p' + m' < p) /\
    exists total, heap_get_stats s = (total, used_size l, total - used_size l) /\
      span l <= total <= heap_current s - HEAP_START /\ heap_current s - HEAP_START <= HEAP_MAX_SIZE.
Proof.
  destruct (reach_inv s H) as (l & Hi & _). exists l. split; [done|]. pose proof Hi as [Hst Hne Hs Hok Hsp Hmax Htot Hu Hm]. split; [|split].
  - intros p m Hl. destruct (live_bounds l p m Hok Hl) as (H1 & H2 & H3). lia.
  - intros p m p' m'. by apply live_apart.
  - exists (heap_total_size s). unfold heap_get_stats. pose proof (used_size_bounds l Hok). rewrite Hu. nowrap_heap. split; [done|lia].
Qed.

(** C30. A request of more than 4096 bytes and at most the maximal size of the heap
    (256 MiB) returns.  On success the chunk has at least the requested size, every
    chunk allocated before still is and none of them overlaps it; failure (null) leaves
    the blocks alone and happens only when no free block is large enough and the heap
    cannot grow by the request and a header, because that exceeds its maximal size or
    because one of the pages it needs cannot be had.  The bytes in memory are not
    touched. *)
Theorem kmalloc_large_correct (k : nat) (grant : Z -> bool) (n : Z) (s : heap) (l : list (Z * bool))
    (Hi : heap_inv s l) (Hn : 4096 < n <= 2 ^ 28) :
  exists p s' l', kmalloc (S k) grant n s = Ret p s' /\ heap_inv s' l' /\ data s' = data s /\
    (forall q m, live l q m -> live l' q m) /\
    (p = 0 -> l' = l /\ (forall sz, (sz, true) ∈ l -> sz < round8 n) /\
       cannot_grow grant (heap_current s) (round8 n + BLOCK_HEADER_SIZE)) /\
    (p <> 0 -> exists m, live l' p m /\ n <= m /\ forall q m', live l q m' -> p + m < q \/ q + m' < p).
Proof.
  destruct (kmalloc_large k grant n s l Hi Hn) as (p & s' & l' & E & (_ & _ & _ & Hd) & Ho & Hi' & _ & Hgrow). exists p, s', l'.
  split; [done|]. split; [done|]. split; [done|]. split; [intros q m; by apply (alloc_outcome_keeps _ _ _ _ _ _ Ho)|]. split.
  - intros Hp0. destruct Ho as [l1 sz l2 -> _ _|Hno|Hno].
    + exfalso. pose proof (inv_sizes _ _ Hi) as Hok. apply Forall_app in Hok as [Hok _]. pose proof (span_nonneg l1 Hok). unfold HEAP_START, BLOCK_HEADER_SIZE in *. lia.
    + exfalso. pose proof (span_nonneg l (inv_sizes _ _ Hi)). unfold HEAP_START, BLOCK_HEADER_SIZE in *. lia.
    + split; [done|]. split; [|by apply Hgrow]. intros sz Hin. rewrite Forall_forall in Hno. specialize (Hno (sz, true) Hin). unfold fits_block in Hno. cbn in Hno. lia.
  - intros Hp. destruct (alloc_outcome_live _ _ _ _ Ho Hp) as (m & Hl & Hm). exists m. split; [done|].
    split; [unfold round8 in Hm; dlia|]. intros q m' Hq. pose proof (alloc_outcome_keeps _ _ _ _ _ _ Ho Hq) as Hq'.
    destruct (live_apart _ _ _ _ _ (inv_sizes _ _ Hi') Hl Hq') as [[-> ->]|?]; [|done]. exfalso.
    by apply (alloc_outcome_new _ _ _ _ _ (inv_sizes _ _ Hi) Ho Hq).
Qed.

(** C31. Freeing a chunk that was served from a free block undoes the allocation: the
    list of blocks and the statistics are those of before, the split block being
    merged again. *)
Theorem kmalloc_kfree_restores (k : nat) (grant : Z -> bool) (n p : Z) (s s1 : heap) (l : list (Z * bool))
    (Hi : heap_inv s l) (Hn : 4096 < n <= 2 ^ 28) (Hfit : Exists (fun b => fits_block (round8 n) b = true) l)
    (E : kmalloc (S k) grant n s = Ret p s1) :
  exists s2, kfree p s1 = Ret tt s2 /\ heap_inv s2 l /\ heap_get_stats s2 = heap_get_stats s /\ data s2 = data s.
Proof.
  destruct (kmalloc_large k grant n s l Hi Hn) as (p' & s1' & l' & E' & Hr & Ho & Hi1 & Ht & _). rewrite E' in E. injection E as -> ->.
  destruct Ho as [l1 sz l2 -> HN _|Hno|Hno]; [|by apply no_fit in Hno..].
  destruct (split_merges (round8 n) sz l2) as (m & r & Es & Em). rewrite Es in Hi1. cbn [app] in Hi1.
  destruct (kfree_spec s1 l1 m (r ++ l2) Hi1) as (s2 & E2 & Hi2 & Hr2 & _ & Ht2).
  rewrite (merge_replace l1 _ _ Em), merge_merged in Hi2 by apply Hi. exists s2. split; [done|]. split; [done|]. split.
  - unfold heap_get_stats. by rewrite (inv_used _ _ Hi2), (inv_used _ _ Hi), Ht2, Ht.
  - destruct Hr as (_ & _ & _ & Hd), Hr2 as (_ & _ & _ & Hd2). by rewrite Hd2.
Qed.

(** C40. No request of 1 to 4096 bytes ever returns, in any reachable state: the
    slab allocator holds the lock of its size class while it asks [kmalloc] for a page
    of 4096 bytes, which asks the slab allocator, which takes the lock of the
    4096-byte class and asks again; the lock is then taken a second time. *)
Theorem small_kmalloc_deadlocks (s : heap) (k : nat) (grant : Z -> bool) (n : Z) (H : heap_reach s) (Hn : 0 < n <= 4096) :
  kmalloc (S (S (S k))) grant n s = Deadlock.
Proof. destruct (reach_inv s H) as (l & _ & He). by apply kmalloc_small_deadlocks. Qed.

Lemma live_header s l p m : heap_inv s l -> live l p m -> exists b, blocks s !! u64 (p - BLOCK_HEADER_SIZE) = Some b /\ b_size b = m.
Proof.
  intros Hi Hl. pose proof (live_bounds _ _ _ (inv_sizes _ _ Hi) Hl) as Hb. destruct Hl as (l1 & l2 & -> & ->).
  pose proof (inv_blocks _ _ Hi) as Hs. apply seg_app in Hs as [_ [Hx _]]. pose proof (inv_span _ _ Hi). pose proof (inv_max _ _ Hi).
  replace (u64 (HEAP_START + span l1 + BLOCK_HEADER_SIZE - BLOCK_HEADER_SIZE)) with (HEAP_START + span l1); [by eexists|].
  rewrite wrap_small by heap_lia. lia.
Qed.

(** The tail of [krealloc]: copy and free. *)
Lemma realloc_move s l p m q m' n :
  heap_inv s l -> live l p m -> live l q m' -> p <> q -> m < n <= m' ->
  exists s' l',
    (b <~ block_at (u64 (p - BLOCK_HEADER_SIZE));;
     modify (fun s => set_data s (for_loop (Z.to_nat (b_size b)) 0 (fun i d => d.[q + i <- d (p + i)]) (data s)));;;
     kfree p;;; ret q) s = Ret q s' /\ heap_inv s' l' /\
    (forall r k, live l r k -> r <> p -> live l' r k) /\
    (forall i, 0 <= i < m -> data s' (q + i) = data s (p + i)) /\
    (forall r k i, live l r k -> r <> q -> 0 <= i < k -> data s' (r + i) = data s (r + i)).
Proof.
  intros Hi Hp Hq Hne Hm. pose proof (inv_sizes _ _ Hi) as Hok. pose proof (live_bounds _ _ _ Hok Hp) as Bp.
  destruct (live_header s l p m Hi Hp) as (b & Hb & Hbs). erewrite bind_run by (apply block_at_run, Hb). erewrite bind_run by reflexivity. rewrite Hbs.
  match goal with |- context [set_data s ?x] => set (d := x) end.
  destruct (copy_apart (data s) p q (Z.to_nat m) 0) as [C1 C2]; [|lia|].
  { rewrite Z2Nat.id by lia. intros i j Hi' Hj. destruct (live_apart _ _ _ _ _ Hok Hp Hq) as [[? ?]|?]; [done|lia]. }
  rewrite Z2Nat.id in C1, C2 by lia. fold d in C1, C2.
  assert (Hi2 : heap_inv (set_data s d) l) by (destruct Hi; by split).
  destruct (kfree_live _ _ _ _ Hi2 Hp) as (s' & l' & E & Hi' & (_ & _ & _ & Hd) & (l1 & l2 & El & Ep & El')). subst l l'.
  exists s', (merge (l1 ++ (m, true) :: l2)). erewrite bind_run by exact E. split; [done|]. split; [done|]. rewrite Hd. cbn [data set_data]. split; [|split].
  - intros r k Hr Hrp. apply (free_keeps l1 m l2); [done|]. by rewrite <- Ep.
  - intros i Hi0. apply C1. lia.
  - intros r k i Hr Hrq Hi0. apply C2. intros j Hj. destruct (live_apart _ _ _ _ _ Hok Hr Hq) as [[? ?]|?]; [done|lia].
Qed.

(** [krealloc] keeps a chunk that is large enough; otherwise it moves the contents
    to a larger one, releases the old chunk and leaves every other chunk and its
    contents alone; when no memory is left it returns null and the old chunk stays. *)
Theorem krealloc_correct (k : nat) (grant : Z -> bool) (p m n : Z) (s : heap) (l : list (Z * bool))
    (Hi : heap_inv s l) (Hp : live l p m) (Hn : 4096 < n <= 2 ^ 28) :
  if n <=? m then krealloc (S k) grant p n s = Ret p s
  else exists q s' l', krealloc (S k) grant p n s = Ret q s' /\ heap_inv s' l' /\
    (q = 0 -> l' = l /\ data s' = data s) /\
    (q <> 0 -> (exists m', live l' q m' /\ n <= m') /\
      (forall i, 0 <= i < m -> data s' (q + i) = data s (p + i)) /\
      (forall r j, live l r j -> r <> p -> live l' r j /\ forall i, 0 <= i < j -> data s' (r + i) = data s (r + i))).
Proof.
  pose proof (live_bounds _ _ _ (inv_sizes _ _ Hi) Hp) as Bp. destruct (live_header s l p m Hi Hp) as (b & Hb & Hbs).
  unfold krealloc. destruct (Z.eqb_spec p 0); [unfold HEAP_START, BLOCK_HEADER_SIZE in *; lia|]. destruct (Z.eqb_spec n 0); [lia|].
  erewrite bind_run by (apply block_at_run, Hb). rewrite Hbs. destruct (Z.leb_spec n m); [done|].
  destruct (kmalloc_large k grant n s l Hi Hn) as (q & s1 & l1 & E & (_ & _ & _ & Hd) & Ho & Hi1 & _). erewrite bind_run by exact E.
  destruct (Z.eqb_spec q 0) as [->|Hq].
  - exists 0, s1, l1. split; [done|]. split; [done|]. split; [|done]. intros _. split; [|done].
    inversion Ho as [k1 sz k2 Hl Hsz Hf Hx|Hf Hx|]; subst; [..|done]; exfalso; revert Hx; pose proof (inv_sizes _ _ Hi) as Hok.
    + apply Forall_app in Hok as [Hok _]. pose proof (span_nonneg k1 Hok). unfold HEAP_START, BLOCK_HEADER_SIZE. lia.
    + pose proof (span_nonneg l Hok). unfold HEAP_START, BLOCK_HEADER_SIZE. lia.
  - destruct (alloc_outcome_live _ _ _ _ Ho Hq) as (m' & Hlq & Hm'). assert (Hnm : n <= m') by (unfold round8 in Hm'; dlia).
    assert (Hpq : p <> q) by (intros ->; by apply (alloc_outcome_new _ _ _ _ _ (inv_sizes _ _ Hi) Ho Hp)).
    pose proof (alloc_outcome_keeps _ _ _ _ _ _ Ho Hp) as Hp1.
    destruct (realloc_move s1 l1 p m q m' n Hi1 Hp1 Hlq Hpq) as (s' & l' & E' & Hi' & K1 & K2 & K3); [lia|].
    exists q, s', l'. split; [exact E'|]. split; [done|]. split; [done|]. intros _. split; [exists m'; split; [by apply K1|done]|].
    rewrite <- Hd. split; [exact K2|]. intros r j Hr Hrp. pose proof (alloc_outcome_keeps _ _ _ _ _ _ Ho Hr) as Hr1. split; [by apply K1|].
    intros i Hi0. apply (K3 r j i); [done| |done]. intros ->. by apply (alloc_outcome_new _ _ _ _ _ (inv_sizes _ _ Hi) Ho Hr).
Qed.

(** The size is rounded up without a test for overflow: a request of one of the
    seven largest sizes becomes a request for 0 bytes, and is answered with a chunk
    smaller than asked for whenever any block is free. *)
Theorem kmalloc_size_wraps (k : nat) (grant : Z -> bool) (n : Z) (s : heap) (l : list (Z * bool))
    (Hi : heap_inv s l) (Hn : 2 ^ 64 - 8 < n < 2 ^ 64) (Hfree : Exists (fun b => snd b = true) l) :
  exists p m s' l', kmalloc (S k) grant n s = Ret p s' /\ p <> 0 /\ heap_inv s' l' /\ live l' p m /\ m < n.
Proof.
  change (2 ^ 64) with 18446744073709551616 in Hn.
  assert (E0 : ALIGN_UP n 8 = ALIGN_UP 0 8).
  { unfold ALIGN_UP, wrap. change (2 ^ 64) with 18446744073709551616. replace ((n + (8 - 1)) mod 18446744073709551616) with (n + 7 - 18446744073709551616) by dlia.
    set (x := n + 7 - 18446744073709551616). assert (Hx : x = 0 \/ x = 1 \/ x = 2 \/ x = 3 \/ x = 4 \/ x = 5 \/ x = 6) by lia. clearbody x.
    by repeat (destruct Hx as [->|Hx]; [reflexivity|]); subst x. }
  destruct (heap_alloc_spec grant 0 s l Hi) as (p & s' & l' & E & _ & Ho & Hi' & _); [by vm_compute|].
  assert (Hp : p <> 0).
  { change (round8 0) with 0 in Ho. pose proof (inv_sizes _ _ Hi) as Hok. destruct Ho as [l1 sz l2 -> _ _|Hno|Hno].
    - apply Forall_app in Hok as [Hok _]. pose proof (span_nonneg l1 Hok). unfold HEAP_START, BLOCK_HEADER_SIZE. lia.
    - pose proof (span_nonneg l Hok). unfold HEAP_START, BLOCK_HEADER_SIZE. lia.
    - exfalso. apply no_fit in Hno. apply Hno. apply Exists_exists in Hfree as ([sz fr] & Hin & Hf). apply Exists_exists. exists (sz, fr). split; [done|].
      cbn in Hf. subst fr. unfold fits_block. cbn. unfold sizes_ok in Hok. rewrite Forall_forall in Hok. specialize (Hok _ Hin). cbn in Hok. lia. }
  destruct (alloc_outcome_live _ _ _ _ Ho Hp) as (m & Hl & _). pose proof (live_bounds _ _ _ (inv_sizes _ _ Hi') Hl).
  exists p, m, s', l'. split; [|split; [done|split; [done|split; [done|]]]].
  - cbn [kmalloc]. destruct (Z.eqb_spec n 0); [lia|]. destruct (Z.leb_spec n 4096); [lia|]. erewrite bind_run by reflexivity. cbn [negb Z.eqb].
    unfold heap_alloc in *. rewrite E0. exact E.
  - pose proof (inv_span _ _ Hi'). pose proof (inv_max _ _ Hi'). unfold HEAP_START, HEAP_MAX_SIZE, BLOCK_HEADER_SIZE in *. lia.
Qed.

(** The objects of a fresh slab page: in the three smallest classes the last object
    ends outside the page, and the 4096-byte class has none. *)
Lemma slab_page_overrun c (p := {| p_next := 0; p_prev := 0; free_count := 0; total_objects := SLAB_OBJECTS_PER_PAGE (class_size c); size_class := c; bitmap := fun _ => 255 |}) :
  (c < 9)%nat -> (4096 <? object_address 0 p (total_objects p - 1) + class_size c) = (c <? 3)%nat.
Proof. intros Hc. do 9 (destruct c as [|c]; [by vm_compute|]). lia. Qed.

(** ** Witnesses *)

Definition demo_block : heap_block_t := block (HEAP_INITIAL_SIZE - BLOCK_HEADER_SIZE) true 0 0.

(** The state after [heap_init]. *)
Definition demo_heap : heap :=
  {| blocks := {[HEAP_START := demo_block]}; data := fun _ => 0; slabs := ∅; slab_caches := fun i => init_slab_cache (class_size i);
     slab_initialized := true; heap_start := HEAP_START; heap_current := HEAP_START + HEAP_INITIAL_SIZE; heap_max := HEAP_START + HEAP_INITIAL_SIZE;
     heap_total_size := HEAP_INITIAL_SIZE; heap_used_size := 0 |}.

Lemma demo_heap_inv : heap_inv demo_heap [(HEAP_INITIAL_SIZE - BLOCK_HEADER_SIZE, true)].
Proof. split; try (by vm_compute). apply Forall_cons_2; [by vm_compute|apply Forall_nil_2]. Qed.

Lemma demo_heap_reach : heap_reach demo_heap.
Proof. apply (reach_init (fun _ => true) (fun _ => 0)). vm_compute. reflexivity. Qed.

Lemma heap_reachable_inv_witness :
  exists l total, heap_inv demo_heap l /\ heap_get_stats demo_heap = (total, used_size l, total - used_size l).
Proof. destruct (heap_reachable_inv demo_heap demo_heap_reach) as (l & Hi & _ & _ & total & Hs & _). exists l, total. split; [exact Hi|exact Hs]. Defined.

Lemma kmalloc_large_correct_witness :
  exists p s', kmalloc 1 (fun _ => false) 5000 demo_heap = Ret p s' /\ p <> 0.
Proof.
  destruct (kmalloc_large_correct 0 (fun _ => false) 5000 demo_heap _ demo_heap_inv) as (p & s' & l' & E & _ & _ & _ & H0 & _); [by vm_compute|].
  exists p, s'. split; [exact E|]. intros ->. destruct (H0 eq_refl) as (_ & H & _). specialize (H (HEAP_INITIAL_SIZE - BLOCK_HEADER_SIZE)).
  assert (Hlt : HEAP_INITIAL_SIZE - BLOCK_HEADER_SIZE < round8 5000) by (apply H; left). vm_compute in Hlt. discriminate.
Defined.

(** The heap after a request of 5000 bytes. *)
Definition demo_used : heap :=
  match kmalloc 1 (fun _ => false) 5000 demo_heap with Ret _ s => s | _ => demo_heap end.

Lemma kmalloc_kfree_restores_witness :
  exists s2, kfree (HEAP_START + 40) demo_used = Ret tt s2 /\ heap_inv s2 [(HEAP_INITIAL_SIZE - BLOCK_HEADER_SIZE, true)].
Proof.
  destruct (kmalloc_kfree_restores 0 (fun _ => false) 5000 (HEAP_START + 40) demo_heap demo_used _ demo_heap_inv) as (s2 & E & Hi & _).
  - by vm_compute.
  - left. by vm_compute.
  - by vm_compute.
  - exists s2. split; [exact E|exact Hi].
Defined.

Lemma small_kmalloc_deadlocks_witness : kmalloc 3 (fun _ => true) 8 demo_heap = Deadlock.
Proof. apply (small_kmalloc_deadlocks demo_heap 0 (fun _ => true) 8 demo_heap_reach). by vm_compute. Defined.

Lemma demo_used_inv : heap_inv demo_used [(5000, false); (HEAP_INITIAL_SIZE - BLOCK_HEADER_SIZE - 5000 - BLOCK_HEADER_SIZE, true)].
Proof. split; try (by vm_compute). do 2 (apply Forall_cons_2; [by vm_compute|]). apply Forall_nil_2. Qed.

Lemma krealloc_correct_witness : krealloc 1 (fun _ => false) (HEAP_START + 40) 4500 demo_used = Ret (HEAP_START + 40) demo_used.
Proof.
  apply (krealloc_correct 0 (fun _ => false) (HEAP_START + 40) 5000 4500 demo_used _ demo_used_inv).
  - exists [], [(HEAP_INITIAL_SIZE - BLOCK_HEADER_SIZE - 5000 - BLOCK_HEADER_SIZE, true)]. by vm_compute.
  - by vm_compute.
Defined.

Lemma kmalloc_size_wraps_witness : exists p m s' l', kmalloc 1 (fun _ => false) (2 ^ 64 - 1) demo_heap = Ret p s' /\ p <> 0 /\ live l' p m /\ m < 2 ^ 64 - 1.
Proof.
  destruct (kmalloc_size_wraps 0 (fun _ => false) (2 ^ 64 - 1) demo_heap _ demo_heap_inv) as (p & m & s' & l' & E & Hp & _ & Hl & Hm).
  - by vm_compute.
  - by left.
  - exists p, m, s', l'. split; [exact E|]. split; [exact Hp|]. split; [exact Hl|exact Hm].
Defined.
