(* ===== verification/Sched.v ===== *)
(** * Thread scheduler (kernel/sched: scheduler.c, load_balance.c, work_stealing.c,
    cpu_affinity.c)

    Each processor has a run queue: one list of ready threads per priority, linked
    through the [next] field of the threads, a list of blocked threads, the current
    and the idle thread.  Threads are records in [threads], by address; 0 is the null
    pointer.  A list is read by following [next], as the code does, so a thread whose
    [next] is overwritten while it is in a list changes that list.

    [cpu] is the processor an operation runs on ([cpu_get_current_id]), [num_cpus] the
    number of processors, [ticks] the value of [timer_get_ticks]; the results of
    [kmalloc] are arguments.  Operations run one at a time: a lock that is held when
    an operation starts has been left held by an earlier one and is never released.
    The interrupt flag and the [kinfo] output are left out.  The code is entered again
    after [context_switch] when the thread is switched to; [scheduler_schedule] returns
    the pair of threads whose contexts are switched, or [None].

    Specification: [rep] relates the run queues to a list of threads per processor and
    priority. *)

From stdpp Require Import base tactics list numbers option gmap sets.
From Stdlib Require Import Lia.
From S2P Require Import Prelude Effect.

(** ** Constants and types *)

Definition KERNEL_STACK_SIZE : Z := 64 * 1024.
Definition MAX_THREADS : Z := 256.
Definition MAX_CPUS : Z := 256.
Definition NUM_PRIORITIES : nat := 128.
Definition THREAD_PRIORITY_IDLE : Z := 0.
Definition LOAD_BALANCE_INTERVAL : Z := 100.
Definition LOAD_BALANCE_THRESHOLD : Z := 2.

Inductive thread_state_t :=
  | THREAD_STATE_READY | THREAD_STATE_RUNNING | THREAD_STATE_BLOCKED | THREAD_STATE_SLEEPING | THREAD_STATE_DEAD.

#[global] Instance thread_state_eq_dec : EqDecision thread_state_t.
Proof. solve_decision. Defined.

Inductive register :=
  | R15 | R14 | R13 | R12 | R11 | R10 | R9 | R8 | RBP | RDI | RSI | RDX | RCX | RBX | RAX | RIP | CS | RFLAGS | RSP | SS.

#[global] Instance register_eq_dec : EqDecision register.
Proof. solve_decision. Defined.

Definition cpu_context_t : Type := register -> Z.

Definition set_reg (r : register) (v : Z) (c : cpu_context_t) : cpu_context_t :=
  fun r' => if decide (r' = r) then v else c r'.

Record thread_t := {
  tid : Z; name : arr Z; state : thread_state_t; priority : Z; context : cpu_context_t;
  kernel_stack : Z; kernel_stack_size : Z; next : Z; cpu_time : Z; wakeup_time : Z; cpu_affinity : Z
}.

Definition with_state (t : thread_t) (x : thread_state_t) : thread_t :=
  {| tid := tid t; name := name t; state := x; priority := priority t; context := context t; kernel_stack := kernel_stack t;
     kernel_stack_size := kernel_stack_size t; next := next t; cpu_time := cpu_time t; wakeup_time := wakeup_time t; cpu_affinity := cpu_affinity t |}.
Definition with_next (t : thread_t) (x : Z) : thread_t :=
  {| tid := tid t; name := name t; state := state t; priority := priority t; context := context t; kernel_stack := kernel_stack t;
     kernel_stack_size := kernel_stack_size t; next := x; cpu_time := cpu_time t; wakeup_time := wakeup_time t; cpu_affinity := cpu_affinity t |}.
Definition with_cpu_time (t : thread_t) (x : Z) : thread_t :=
  {| tid := tid t; name := name t; state := state t; priority := priority t; context := context t; kernel_stack := kernel_stack t;
     kernel_stack_size := kernel_stack_size t; next := next t; cpu_time := x; wakeup_time := wakeup_time t; cpu_affinity := cpu_affinity t |}.
Definition with_wakeup_time (t : thread_t) (x : Z) : thread_t :=
  {| tid := tid t; name := name t; state := state t; priority := priority t; context := context t; kernel_stack := kernel_stack t;
     kernel_stack_size := kernel_stack_size t; next := next t; cpu_time := cpu_time t; wakeup_time := x; cpu_affinity := cpu_affinity t |}.
Definition with_cpu_affinity (t : thread_t) (x : Z) : thread_t :=
  {| tid := tid t; name := name t; state := state t; priority := priority t; context := context t; kernel_stack := kernel_stack t;
     kernel_stack_size := kernel_stack_size t; next := next t; cpu_time := cpu_time t; wakeup_time := wakeup_time t; cpu_affinity := x |}.

Record per_cpu_runqueue_t := {
  ready_queues : arr Z; blocked_queue : Z; current_thread : Z; idle_thread : Z; rq_cpu_id : Z
}.

Inductive lock_id := RqLock (cpu : Z) | TableLock | SleepLock.

#[global] Instance lock_id_eq_dec : EqDecision lock_id.
Proof. solve_decision. Defined.

Record sched := {
  threads : gmap Z thread_t;
  rqs : arr per_cpu_runqueue_t;
  held : lock_id -> bool;
  thread_table : arr Z;
  next_tid : Z;
  sleeping_queue : Z;
  tick_counter : arr Z;
  need_reschedule : arr bool;
  last_balance : Z;
  steal_start : arr Z;
  stack_words : arr Z
}.

Definition set_threads (s : sched) (x : gmap Z thread_t) : sched :=
  {| threads := x; rqs := rqs s; held := held s; thread_table := thread_table s; next_tid := next_tid s; sleeping_queue := sleeping_queue s;
     tick_counter := tick_counter s; need_reschedule := need_reschedule s; last_balance := last_balance s; steal_start := steal_start s; stack_words := stack_words s |}.
Definition set_rqs (s : sched) (x : arr per_cpu_runqueue_t) : sched :=
  {| threads := threads s; rqs := x; held := held s; thread_table := thread_table s; next_tid := next_tid s; sleeping_queue := sleeping_queue s;
     tick_counter := tick_counter s; need_reschedule := need_reschedule s; last_balance := last_balance s; steal_start := steal_start s; stack_words := stack_words s |}.
Definition set_held (s : sched) (x : lock_id -> bool) : sched :=
  {| threads := threads s; rqs := rqs s; held := x; thread_table := thread_table s; next_tid := next_tid s; sleeping_queue := sleeping_queue s;
     tick_counter := tick_counter s; need_reschedule := need_reschedule s; last_balance := last_balance s; steal_start := steal_start s; stack_words := stack_words s |}.
Definition set_table (s : sched) (t : arr Z) (n : Z) : sched :=
  {| threads := threads s; rqs := rqs s; held := held s; thread_table := t; next_tid := n; sleeping_queue := sleeping_queue s;
     tick_counter := tick_counter s; need_reschedule := need_reschedule s; last_balance := last_balance s; steal_start := steal_start s; stack_words := stack_words s |}.
Definition set_sleeping (s : sched) (x : Z) : sched :=
  {| threads := threads s; rqs := rqs s; held := held s; thread_table := thread_table s; next_tid := next_tid s; sleeping_queue := x;
     tick_counter := tick_counter s; need_reschedule := need_reschedule s; last_balance := last_balance s; steal_start := steal_start s; stack_words := stack_words s |}.
Definition set_tick (s : sched) (c : arr Z) (n : arr bool) : sched :=
  {| threads := threads s; rqs := rqs s; held := held s; thread_table := thread_table s; next_tid := next_tid s; sleeping_queue := sleeping_queue s;
     tick_counter := c; need_reschedule := n; last_balance := last_balance s; steal_start := steal_start s; stack_words := stack_words s |}.
Definition set_balance (s : sched) (b : Z) (st : arr Z) : sched :=
  {| threads := threads s; rqs := rqs s; held := held s; thread_table := thread_table s; next_tid := next_tid s; sleeping_queue := sleeping_queue s;
     tick_counter := tick_counter s; need_reschedule := need_reschedule s; last_balance := b; steal_start := st; stack_words := stack_words s |}.
Definition set_words (s : sched) (x : arr Z) : sched :=
  {| threads := threads s; rqs := rqs s; held := held s; thread_table := thread_table s; next_tid := next_tid s; sleeping_queue := sleeping_queue s;
     tick_counter := tick_counter s; need_reschedule := need_reschedule s; last_balance := last_balance s; steal_start := steal_start s; stack_words := x |}.

Definition with_ready (q : per_cpu_runqueue_t) (p v : Z) : per_cpu_runqueue_t :=
  {| ready_queues := (ready_queues q).[p <- v]; blocked_queue := blocked_queue q; current_thread := current_thread q; idle_thread := idle_thread q; rq_cpu_id := rq_cpu_id q |}.
Definition with_blocked (q : per_cpu_runqueue_t) (v : Z) : per_cpu_runqueue_t :=
  {| ready_queues := ready_queues q; blocked_queue := v; current_thread := current_thread q; idle_thread := idle_thread q; rq_cpu_id := rq_cpu_id q |}.
Definition with_current (q : per_cpu_runqueue_t) (v : Z) : per_cpu_runqueue_t :=
  {| ready_queues := ready_queues q; blocked_queue := blocked_queue q; current_thread := v; idle_thread := idle_thread q; rq_cpu_id := rq_cpu_id q |}.

(** ** Effects *)

Abbreviation M := (Effect.M sched).
#[local] Open Scope effect_scope.

Definition lock (l : lock_id) : M unit := fun s =>
  if held s l then Deadlock else Ret tt (set_held s (fun l' => if decide (l' = l) then true else held s l')).
Definition unlock (l : lock_id) : M unit := modify (fun s => set_held s (fun l' => if decide (l' = l) then false else held s l')).

Definition thread_at (p : Z) : M thread_t := fun s => match threads s !! p with Some t => Ret t s | None => Fault end.
Definition store_thread (p : Z) (t : thread_t) : M unit := modify (fun s => set_threads s (<[p := t]> (threads s))).
Definition update_thread (p : Z) (f : thread_t -> thread_t) : M unit := t <~ thread_at p;; store_thread p (f t).

(** [ready_queues[p]] of processor [c]; [p] is at most 127. *)
Definition ready_head (c p : Z) : M Z := fun s => if p <? 128 then Ret (ready_queues (rqs s c) p) s else Fault.
Definition update_rq (c : Z) (f : per_cpu_runqueue_t -> per_cpu_runqueue_t) : M unit :=
  modify (fun s => set_rqs s ((rqs s).[c <- f (rqs s c)])).
Definition set_ready_head (c p v : Z) : M unit := fun s => if p <? 128 then update_rq c (fun q => with_ready q p v) s else Fault.

(** Enough for every walk along a list without a cycle. *)
Definition walk_fuel (s : sched) : nat := S (size (threads s)).

(** [while (current->next) current = current->next] *)
Fixpoint walk_tail (fuel : nat) (current : Z) : M Z :=
  match fuel with
  | O => stop NoFuel
  | S fuel => t <~ thread_at current;; if next t =? 0 then ret current else walk_tail fuel (next t)
  end.

(** [while (current && current->next != thread) current = current->next] *)
Fixpoint walk_to (fuel : nat) (thread current : Z) : M Z :=
  match fuel with
  | O => stop NoFuel
  | S fuel =>
      if current =? 0 then ret 0
      else t <~ thread_at current;; if next t =? thread then ret current else walk_to fuel thread (next t)
  end.

(** ** Names

    [snprintf] of scheduler.c copies the format; it does not interpret it. *)

Fixpoint snprintf_loop (fmt : list Z) (room : nat) (i : Z) (buf : arr Z) : arr Z * Z :=
  match fmt, room with
  | c :: fmt, S room => snprintf_loop fmt room (i + 1) (buf.[i <- c])
  | _, _ => (buf.[i <- 0], i)
  end.

Definition snprintf (buf : arr Z) (size : nat) (fmt : list Z) : arr Z * Z :=
  match size with O => (buf, 0) | S room => snprintf_loop fmt room 0 buf end.

(** ["idle-%u"] and ["%s"] *)
Definition idle_name_format : list Z := [105; 100; 108; 101; 45; 37; 117].
Definition name_format : list Z := [37; 115].

(** ** Initialisation *)

Definition get_current_runqueue (cpu : Z) : Z := if MAX_CPUS <=? cpu then 0 else cpu.

Definition get_cpu_runqueue (cpu_id : Z) : option Z := if MAX_CPUS <=? cpu_id then None else Some cpu_id.

(** [idle] is what [kmalloc] returns and [mem] what the memory holds. *)
Definition init_idle_thread_for_cpu (cpu_id idle : Z) (mem : thread_t) : M unit :=
  if idle =? 0 then stop Panic
  else
    store_thread idle
      {| tid := cpu_id; name := fst (snprintf (name mem) 32 idle_name_format); state := THREAD_STATE_READY;
         priority := THREAD_PRIORITY_IDLE; context := context mem; kernel_stack := 0; kernel_stack_size := 0; next := 0;
         cpu_time := 0; wakeup_time := 0; cpu_affinity := sext 32 cpu_id |};;;
    update_rq cpu_id (fun q =>
      {| ready_queues := (ready_queues q).[THREAD_PRIORITY_IDLE <- idle]; blocked_queue := blocked_queue q;
         current_thread := idle; idle_thread := idle; rq_cpu_id := rq_cpu_id q |}).

Definition clear_runqueue (cpu_id : Z) (q : per_cpu_runqueue_t) : per_cpu_runqueue_t :=
  {| ready_queues := for_loop NUM_PRIORITIES 0 (fun j a => a.[j <- 0]) (ready_queues q); blocked_queue := 0;
     current_thread := 0; idle_thread := 0; rq_cpu_id := cpu_id |}.

Definition scheduler_init_per_cpu (cpu_id idle : Z) (mem : thread_t) : M unit :=
  if MAX_CPUS <=? cpu_id then ret tt
  else unlock (RqLock cpu_id);;; update_rq cpu_id (clear_runqueue cpu_id);;; init_idle_thread_for_cpu cpu_id idle mem.

Fixpoint init_cpus (n : nat) (i : Z) (idle : arr Z) (mem : arr thread_t) : M unit :=
  match n with
  | O => ret tt
  | S n =>
      (unlock (RqLock i);;; update_rq i (clear_runqueue i);;; init_idle_thread_for_cpu i (idle i) (mem i));;;
      init_cpus n (i + 1) idle mem
  end.

Definition scheduler_init (num_cpus : Z) (idle : arr Z) (mem : arr thread_t) : M unit :=
  unlock TableLock;;;
  modify (fun s => set_table s (for_loop (Z.to_nat MAX_THREADS) 0 (fun i a => a.[i <- 0]) (thread_table s)) (next_tid s));;;
  let num_cpus := if num_cpus =? 0 then 1 else num_cpus in
  init_cpus (Z.to_nat (Z.min num_cpus MAX_CPUS)) 0 idle mem.

(** ** Ready queues *)

Definition add_to_ready_queue (thread cpu_id : Z) : M unit :=
  let cpu_id := if MAX_CPUS <=? cpu_id then 0 else cpu_id in
  t <~ thread_at thread;;
  lock (RqLock cpu_id);;;
  h <~ ready_head cpu_id (priority t);;
  (if h =? 0 then
     set_ready_head cpu_id (priority t) thread;;; update_thread thread (fun t => with_next t 0)
   else
     fuel <~ get walk_fuel;; current <~ walk_tail fuel h;;
     update_thread current (fun t => with_next t thread);;; update_thread thread (fun t => with_next t 0));;;
  unlock (RqLock cpu_id).

(** The search from processor [i] on, over [n] processors. *)
Fixpoint remove_loop (n : nat) (i thread prio : Z) : M unit :=
  match n with
  | O => ret tt
  | S n =>
      lock (RqLock i);;;
      h <~ ready_head i prio;;
      if h =? thread then
        t <~ thread_at thread;; set_ready_head i prio (next t);;; unlock (RqLock i)
      else
        fuel <~ get walk_fuel;; current <~ walk_to fuel thread h;;
        if negb (current =? 0) then
          t <~ thread_at thread;; update_thread current (fun c => with_next c (next t));;; unlock (RqLock i)
        else unlock (RqLock i);;; remove_loop n (i + 1) thread prio
  end.

Definition remove_from_ready_queue (thread : Z) : M unit :=
  t <~ thread_at thread;; remove_loop (Z.to_nat MAX_CPUS) 0 thread (priority t).

(** The search for the highest priority below [n] with a thread; 0 stands for the case
    where the loop ends. *)
Fixpoint pick_loop (n : nat) (c : Z) : M Z :=
  match n with
  | O => ret 0
  | S n =>
      let i := Z.of_nat n in
      h <~ ready_head c i;;
      if h =? 0 then pick_loop n c
      else
        t <~ thread_at h;;
        set_ready_head c i (next t);;;
        rq <~ get (fun s => rqs s c);;
        (if negb (h =? idle_thread rq) && bool_decide (state t = THREAD_STATE_READY) then
           update_thread h (fun t => with_next t 0);;;
           h' <~ ready_head c i;;
           if h' =? 0 then set_ready_head c i h
           else
             fuel <~ get walk_fuel;; current <~ walk_tail fuel h';; update_thread current (fun t => with_next t h)
         else ret tt);;;
        unlock (RqLock c);;;
        ret h
  end.

Definition pick_next_thread (cpu : Z) : M Z :=
  let c := get_current_runqueue cpu in
  lock (RqLock c);;;
  h <~ pick_loop NUM_PRIORITIES c;;
  if negb (h =? 0) then ret h else get (fun s => idle_thread (rqs s c)).

(** ** Scheduling *)

Definition scheduler_schedule (cpu : Z) : M (option (Z * Z)) :=
  let c := get_current_runqueue cpu in
  rq <~ get (fun s => rqs s c);;
  if current_thread rq =? 0 then update_rq c (fun q => with_current q (idle_thread q));;; ret None
  else
    let old_thread := current_thread rq in
    t <~ thread_at old_thread;;
    (if bool_decide (state t = THREAD_STATE_RUNNING) then
       update_thread old_thread (fun t => with_state t THREAD_STATE_READY);;;
       if negb (old_thread =? idle_thread rq) then add_to_ready_queue old_thread cpu else ret tt
     else ret tt);;;
    new_thread <~ pick_next_thread cpu;;
    if new_thread =? old_thread then ret None
    else
      update_thread new_thread (fun t => with_state t THREAD_STATE_RUNNING);;;
      update_rq c (fun q => with_current q new_thread);;;
      ret (Some (old_thread, new_thread)).

Definition thread_yield (cpu : Z) : M (option (Z * Z)) := scheduler_schedule cpu.

Definition thread_current (cpu : Z) : M Z := get (fun s => current_thread (rqs s (get_current_runqueue cpu))).

(** ** Threads *)

(** [thread], [stack]: results of [kmalloc]; [mem]: what the memory at [thread] holds;
    [wrapper]: the address of [thread_entry_wrapper]. *)
Definition thread_create (wrapper : Z) (cpu entry arg prio thread stack : Z) (mem : thread_t) : M Z :=
  if thread =? 0 then ret 0
  else if stack =? 0 then ret 0
  else
    tid <~ get next_tid;;
    modify (fun s => set_table s (thread_table s) (u64 (tid + 1)));;;
    if MAX_THREADS <=? tid then ret 0
    else
      let top := u64 (stack + KERNEL_STACK_SIZE) in
      let stack_top := u64 (top - 24) in
      modify (fun s => set_words s ((stack_words s).[u64 (top - 8) <- arg].[u64 (top - 16) <- entry].[stack_top <- wrapper]));;;
      store_thread thread
        {| tid := tid; name := fst (snprintf (name mem) 32 name_format); state := THREAD_STATE_READY; priority := prio;
           context := set_reg RSI arg (set_reg RDI entry (set_reg SS 0x10 (set_reg CS 0x08 (set_reg RFLAGS 0x202
                        (set_reg RIP wrapper (set_reg RSP stack_top (context mem)))))));
           kernel_stack := stack; kernel_stack_size := KERNEL_STACK_SIZE; next := 0; cpu_time := 0; wakeup_time := 0; cpu_affinity := -1 |};;;
      lock TableLock;;;
      modify (fun s => set_table s ((thread_table s).[tid <- thread]) (next_tid s));;;
      unlock TableLock;;;
      add_to_ready_queue thread cpu;;;
      ret tid.

(** What the exiting thread would do when it is switched to again is [Panic]. *)
Definition thread_exit (cpu : Z) : M (Z * Z) :=
  thread <~ thread_current cpu;;
  update_thread thread (fun t => with_state t THREAD_STATE_DEAD);;;
  lock TableLock;;;
  t <~ thread_at thread;;
  (if tid t <? MAX_THREADS then modify (fun s => set_table s ((thread_table s).[tid t <- 0]) (next_tid s)) else stop Fault);;;
  unlock TableLock;;;
  r <~ scheduler_schedule cpu;;
  match r with Some p => ret p | None => stop Panic end.

Definition thread_sleep (cpu ticks ms : Z) : M (option (Z * Z)) :=
  if ms =? 0 then thread_yield cpu
  else
    thread <~ thread_current cpu;;
    let ticks_to_sleep := u64 (ms * 100) / 1000 in
    let ticks_to_sleep := if ticks_to_sleep =? 0 then 1 else ticks_to_sleep in
    update_thread thread (fun t => with_wakeup_time t (u64 (ticks + ticks_to_sleep)));;;
    update_thread thread (fun t => with_state t THREAD_STATE_SLEEPING);;;
    lock SleepLock;;;
    q <~ get sleeping_queue;;
    update_thread thread (fun t => with_next t q);;;
    modify (fun s => set_sleeping s thread);;;
    unlock SleepLock;;;
    scheduler_schedule cpu.

Definition thread_block (cpu : Z) : M (option (Z * Z)) :=
  let c := get_current_runqueue cpu in
  thread <~ thread_current cpu;;
  update_thread thread (fun t => with_state t THREAD_STATE_BLOCKED);;;
  lock (RqLock c);;;
  q <~ get (fun s => blocked_queue (rqs s c));;
  update_thread thread (fun t => with_next t q);;;
  update_rq c (fun q => with_blocked q thread);;;
  unlock (RqLock c);;;
  scheduler_schedule cpu.

Fixpoint unblock_loop (n : nat) (i thread cpu : Z) : M unit :=
  match n with
  | O => ret tt
  | S n =>
      lock (RqLock i);;;
      h <~ get (fun s => blocked_queue (rqs s i));;
      if h =? thread then
        t <~ thread_at thread;; update_rq i (fun q => with_blocked q (next t));;;
        unlock (RqLock i);;;
        update_thread thread (fun t => with_state t THREAD_STATE_READY);;; add_to_ready_queue thread cpu
      else
        fuel <~ get walk_fuel;; current <~ walk_to fuel thread h;;
        if negb (current =? 0) then
          t <~ thread_at thread;; update_thread current (fun c => with_next c (next t));;;
          unlock (RqLock i);;;
          update_thread thread (fun t => with_state t THREAD_STATE_READY);;; add_to_ready_queue thread cpu
        else unlock (RqLock i);;; unblock_loop n (i + 1) thread cpu
  end.

Definition thread_unblock (thread cpu : Z) : M unit :=
  t <~ thread_at thread;;
  if bool_decide (state t = THREAD_STATE_BLOCKED) then unblock_loop (Z.to_nat MAX_CPUS) 0 thread cpu else ret tt.

(** ** Load balancing and work stealing *)

Fixpoint list_length (fuel : nat) (thread count : Z) : M Z :=
  match fuel with
  | O => stop NoFuel
  | S fuel => if thread =? 0 then ret count else t <~ thread_at thread;; list_length fuel (next t) (u32 (count + 1))
  end.

Fixpoint count_queues (n : nat) (i c count : Z) : M Z :=
  match n with
  | O => ret count
  | S n => h <~ ready_head c i;; fuel <~ get walk_fuel;; count <~ list_length fuel h count;; count_queues n (i + 1) c count
  end.

Definition get_runqueue_length (cpu_id : Z) : M Z :=
  match get_cpu_runqueue cpu_id with
  | None => ret 0
  | Some c => lock (RqLock c);;; count <~ count_queues NUM_PRIORITIES 0 c 0;; unlock (RqLock c);;; ret count
  end.

Definition move_thread_to_cpu (thread target_cpu_id : Z) : M unit :=
  if thread =? 0 then ret tt else remove_from_ready_queue thread;;; add_to_ready_queue thread target_cpu_id.

Record balance := { busiest_cpu : Z; least_busy_cpu : Z; busiest_count : Z; least_busy_count : Z }.

Fixpoint find_busiest (n : nat) (i : Z) (b : balance) : M balance :=
  match n with
  | O => ret b
  | S n =>
      count <~ get_runqueue_length i;;
      let b := if busiest_count b <? count then
                 {| busiest_cpu := i; least_busy_cpu := least_busy_cpu b; busiest_count := count; least_busy_count := least_busy_count b |} else b in
      let b := if count <? least_busy_count b then
                 {| busiest_cpu := busiest_cpu b; least_busy_cpu := i; busiest_count := busiest_count b; least_busy_count := count |} else b in
      find_busiest n (i + 1) b
  end.

Fixpoint move_one (n : nat) (i c target : Z) : M unit :=
  match n with
  | O => unlock (RqLock c)
  | S n =>
      thread <~ ready_head c i;;
      if negb (thread =? 0) then
        t <~ thread_at thread;; set_ready_head c i (next t);;; update_thread thread (fun t => with_next t 0);;;
        unlock (RqLock c);;;
        move_thread_to_cpu thread target
      else move_one n (i + 1) c target
  end.

Definition scheduler_load_balance (num_cpus ticks : Z) : M unit :=
  if num_cpus <=? 1 then ret tt
  else
    last <~ get last_balance;;
    if u64 (ticks - last) <? LOAD_BALANCE_INTERVAL then ret tt
    else
      modify (fun s => set_balance s ticks (steal_start s));;;
      b <~ find_busiest (Z.to_nat num_cpus) 0 {| busiest_cpu := 0; least_busy_cpu := 0; busiest_count := 0; least_busy_count := 2 ^ 32 - 1 |};;
      if u32 (busiest_count b - least_busy_count b) <? LOAD_BALANCE_THRESHOLD then ret tt
      else
        match get_cpu_runqueue (busiest_cpu b) with
        | None => ret tt
        | Some c => lock (RqLock c);;; move_one 64 0 c (least_busy_cpu b)
        end.

(** The search of the victim's queues, with the thread stolen or 0. *)
Fixpoint steal_loop (n : nat) (prio c thief : Z) : M Z :=
  match n with
  | O => ret 0
  | S n =>
      stolen <~ ready_head c prio;;
      if negb (stolen =? 0) then
        t <~ thread_at stolen;;
        set_ready_head c prio (next t);;;
        update_thread stolen (fun t => with_next t 0);;;
        if (0 <=? cpu_affinity t) && negb (cpu_affinity t =? sext 32 thief) then
          h <~ ready_head c prio;;
          update_thread stolen (fun t => with_next t h);;; set_ready_head c prio stolen;;; ret 0
        else ret stolen
      else steal_loop n (prio + 1) c thief
  end.

Definition try_steal_from_cpu (thief victim : Z) : M Z :=
  if thief =? victim then ret 0
  else
    match get_cpu_runqueue victim with
    | None => ret 0
    | Some c =>
        busy <~ get (fun s => held s (RqLock c));;
        if busy then ret 0
        else lock (RqLock c);;; stolen <~ steal_loop 64 0 c thief;; unlock (RqLock c);;; ret stolen
    end.

Fixpoint steal_from (n : nat) (i start num_cpus idle_cpu_id : Z) : M bool :=
  match n with
  | O => modify (fun s => set_balance s (last_balance s) ((steal_start s).[idle_cpu_id <- u32 (start + 1) mod num_cpus]));;; ret false
  | S n =>
      let victim := u32 (start + i) mod num_cpus in
      if victim =? idle_cpu_id then steal_from n (i + 1) start num_cpus idle_cpu_id
      else
        stolen <~ try_steal_from_cpu idle_cpu_id victim;;
        if negb (stolen =? 0) then
          add_to_ready_queue stolen idle_cpu_id;;;
          modify (fun s => set_balance s (last_balance s) ((steal_start s).[idle_cpu_id <- u32 (victim + 1) mod num_cpus]));;;
          ret true
        else steal_from n (i + 1) start num_cpus idle_cpu_id
  end.

Definition scheduler_try_work_stealing (num_cpus idle_cpu_id : Z) : M bool :=
  if num_cpus <=? 1 then ret false
  else start <~ get (fun s => steal_start s idle_cpu_id);; steal_from (Z.to_nat num_cpus) 0 start num_cpus idle_cpu_id.

(** ** The timer *)

(** The walk along the sleeping queue; [prev] is 0 at its head. *)
Fixpoint wake_loop (fuel : nat) (ticks prev current : Z) : M unit :=
  match fuel with
  | O => stop NoFuel
  | S fuel =>
      if current =? 0 then ret tt
      else
        t <~ thread_at current;;
        if wakeup_time t <=? ticks then
          (if negb (prev =? 0) then update_thread prev (fun p => with_next p (next t)) else modify (fun s => set_sleeping s (next t)));;;
          t <~ thread_at current;;
          update_thread current (fun t => with_state t THREAD_STATE_READY);;;
          add_to_ready_queue current 0;;;
          wake_loop fuel ticks prev (next t)
        else wake_loop fuel ticks current (next t)
  end.

Definition wake_sleepers (ticks : Z) : M unit :=
  lock SleepLock;;;
  q <~ get sleeping_queue;; fuel <~ get walk_fuel;; wake_loop fuel ticks 0 q;;;
  unlock SleepLock.

Definition scheduler_tick (cpu num_cpus ticks : Z) : M unit :=
  let c := get_current_runqueue cpu in
  rq <~ get (fun s => rqs s c);;
  (if negb (current_thread rq =? 0) && negb (current_thread rq =? idle_thread rq) then
     update_thread (current_thread rq) (fun t => with_cpu_time t (u64 (cpu_time t + 1)))
   else ret tt);;;
  (if cpu =? 0 then wake_sleepers ticks;;; scheduler_load_balance num_cpus ticks else ret tt);;;
  n <~ get (fun s => u64 (tick_counter s cpu + 1));;
  if 10 <=? n then modify (fun s => set_tick s ((tick_counter s).[cpu <- 0]) ((need_reschedule s).[cpu <- true]))
  else modify (fun s => set_tick s ((tick_counter s).[cpu <- n]) (need_reschedule s)).

Definition scheduler_check_reschedule (cpu : Z) : M (option (Z * Z)) :=
  need <~ get (fun s => need_reschedule s cpu);;
  if (need : bool) then modify (fun s => set_tick s (tick_counter s) ((need_reschedule s).[cpu <- false]));;; scheduler_schedule cpu
  else ret None.

(** ** Processor affinity *)

(** [thread_table[tid]] *)
Definition table_entry (tid : Z) : M Z := fun s => if tid <? MAX_THREADS then Ret (thread_table s tid) s else Fault.

Definition thread_set_affinity (num_cpus tid cpu_id : Z) : M error_code_t :=
  if tid =? 0 then ret ERR_INVALID_ARG
  else if (sext 32 num_cpus <=? cpu_id) && negb (cpu_id =? -1) then ret ERR_INVALID_ARG
  else
    lock TableLock;;;
    thread <~ table_entry tid;;
    if thread =? 0 then unlock TableLock;;; ret ERR_INVALID_PID
    else update_thread thread (fun t => with_cpu_affinity t cpu_id);;; unlock TableLock;;; ret ERR_OK.

Definition thread_get_affinity (tid : Z) : M Z :=
  if tid =? 0 then ret (-1)
  else
    lock TableLock;;;
    thread <~ table_entry tid;;
    if thread =? 0 then unlock TableLock;;; ret (-1)
    else t <~ thread_at thread;; unlock TableLock;;; ret (cpu_affinity t).

Definition thread_set_affinity_current (cpu num_cpus cpu_id : Z) : M error_code_t :=
  thread <~ thread_current cpu;;
  if thread =? 0 then ret ERR_INVALID_ARG else t <~ thread_at thread;; thread_set_affinity num_cpus (tid t) cpu_id.

Definition thread_get_affinity_current (cpu : Z) : M Z :=
  thread <~ thread_current cpu;; if thread =? 0 then ret (-1) else t <~ thread_at thread;; ret (cpu_affinity t).

(** ** Specification of the run queues

    [chain m p l]: from [p] the [next] links lead through the threads [l] to the null
    pointer. *)

Fixpoint chain (m : gmap Z thread_t) (p : Z) (l : list Z) : Prop :=
  match l with
  | [] => p = 0
  | t :: l => p = t /\ t <> 0 /\ exists th, m !! t = Some th /\ chain m (next th) l
  end.

Definition queues : Type := Z -> Z -> list Z.

Definition put_queue (q : queues) (c p : Z) (l : list Z) : queues :=
  fun c' p' => if decide (c' = c /\ p' = p) then l else q c' p'.

(** The run queues of [s] hold the lists [q]; no thread is in two of them or twice in
    one, each is in a list of its priority, and no lock of a run queue is held. *)
Record rep (s : sched) (q : queues) : Prop := {
  rep_chain : forall c p, chain (threads s) (ready_queues (rqs s c) p) (q c p);
  rep_nodup : forall c p, NoDup (q c p);
  rep_disjoint : forall c p c' p' t, t ∈ q c p -> t ∈ q c' p' -> c = c' /\ p = p';
  rep_priority : forall c p t, t ∈ q c p -> exists th, threads s !! t = Some th /\ priority th = p;
  rep_range : forall c p, q c p <> [] -> 0 <= c < MAX_CPUS /\ 0 <= p < 128;
  rep_unlocked : forall c, held s (RqLock c) = false
}.

(** Everything but the threads and the heads of the ready queues is the same. *)
Record same_rest (s s' : sched) : Prop := {
  same_rq : forall c, blocked_queue (rqs s' c) = blocked_queue (rqs s c) /\ current_thread (rqs s' c) = current_thread (rqs s c) /\
                      idle_thread (rqs s' c) = idle_thread (rqs s c);
  same_held : forall l, held s' l = held s l;
  same_table : thread_table s' = thread_table s /\ next_tid s' = next_tid s /\ sleeping_queue s' = sleeping_queue s;
  same_tick : tick_counter s' = tick_counter s /\ need_reschedule s' = need_reschedule s /\
              last_balance s' = last_balance s /\ steal_start s' = steal_start s /\ stack_words s' = stack_words s
}.

(** An operation on the run queues changes no thread but the [next] links of those in
    [touch]. *)
Record keeps (touch : Z -> Prop) (s s' : sched) : Prop := {
  keeps_thread : forall x, ~ touch x -> threads s' !! x = threads s !! x;
  keeps_next : forall x, (fun t => with_next t 0) <$> (threads s' !! x) = (fun t => with_next t 0) <$> (threads s !! x);
  keeps_rest : same_rest s s'
}.

(** ** Lemmas on chains *)

Lemma thread_chain_ext m m' p l : (forall t, t ∈ l -> m' !! t = m !! t) -> chain m p l -> chain m' p l.
Proof.
  revert p. induction l as [|t l IH]; intros p Hm; [done|]. intros (Hp & Ht & th & Hth & Hc). split; [done|]. split; [done|].
  exists th. rewrite Hm by set_solver. split; [done|]. apply IH; [|done]. intros t' ?. apply Hm. set_solver.
Qed.

Lemma chain_insert m p l t th : t ∉ l -> chain m p l -> chain (<[t := th]> m) p l.
Proof. intros Ht. apply thread_chain_ext. intros t' ?. rewrite lookup_insert_ne; [done|]. set_solver. Qed.

(** Replacing a thread by one with the same link. *)
Lemma chain_same_next m p l t th th' : m !! t = Some th -> next th' = next th -> chain m p l -> chain (<[t := th']> m) p l.
Proof.
  intros Ht Hn. revert p. induction l as [|u l IH]; intros p; [done|]. intros (-> & Hu & th1 & H1 & Hc). split; [done|]. split; [done|].
  destruct (decide (u = t)) as [->|].
  - exists th'. rewrite lookup_insert_eq. split; [done|]. rewrite Hn. rewrite Ht in H1. injection H1 as ->. by apply IH.
  - exists th1. rewrite lookup_insert_ne by done. split; [done|]. by apply IH.
Qed.

Lemma chain_app m p l1 l2 : chain m p (l1 ++ l2) <-> exists r, (forall l, chain m r l -> chain m p (l1 ++ l)) /\ chain m r l2.
Proof.
  split.
  - revert p. induction l1 as [|t l1 IH]; intros p; [intros H; by exists p|]. intros (-> & Ht & th & Hth & Hc).
    destruct (IH _ Hc) as (r & Hr & H2). exists r. split; [|done]. intros l Hl. cbn. split; [done|]. split; [done|]. exists th. split; [done|]. by apply Hr.
  - intros (r & Hr & H2). by apply Hr.
Qed.

Lemma chain_present m p l t : chain m p l -> t ∈ l -> t <> 0 /\ exists th, m !! t = Some th.
Proof.
  revert p. induction l as [|u l IH]; intros p; [set_solver|]. intros (-> & Hu & th & Hth & Hc) [->|Ht]%elem_of_cons; [by eauto|]. by eapply IH.
Qed.

Lemma thread_chain_head m p l : chain m p l -> p = 0 <-> l = [].
Proof. destruct l; [done|]. intros (-> & ? & _). done. Qed.

(** A list without duplicates is no longer than the map it is in. *)
Lemma thread_chain_length m p l : chain m p l -> NoDup l -> (length l <= size m)%nat.
Proof.
  intros Hc Hn. rewrite <- (size_list_to_set (C := gset Z) l Hn), <- (size_dom (D := gset Z) m). apply subseteq_size.
  intros t Ht%elem_of_list_to_set. apply elem_of_dom. destruct (chain_present _ _ _ _ Hc Ht) as [_ [th ->]]. done.
Qed.

Lemma chain_unique m p l l' : chain m p l -> chain m p l' -> l = l'.
Proof.
  revert p l'. induction l as [|t l IH]; intros p l'.
  - cbn. intros ->. destruct l' as [|t' l']; [done|]. by intros (<- & ? & _).
  - intros (-> & Ht & th & Hth & Hc). destruct l' as [|t' l']; [by intros ->|]. intros (<- & _ & th' & Hth' & Hc').
    rewrite Hth in Hth'. injection Hth' as <-. f_equal. by eapply IH.
Qed.

(** Linking a thread behind the last one. *)
Lemma thread_chain_snoc m p l u uth t th :
  chain m p (l ++ [u]) -> m !! u = Some uth -> m !! t = Some th -> u ∉ l -> t ∉ l -> t <> u -> t <> 0 ->
  chain (<[t := with_next th 0]> (<[u := with_next uth t]> m)) p (l ++ [u; t]).
Proof.
  intros Hc Hu Ht Hul Htl Htu Ht0. revert p Hc. induction l as [|x l IH]; intros p.
  - intros (-> & Hu0 & _ & _ & _). cbn. split; [done|]. split; [done|]. exists (with_next uth t).
    rewrite lookup_insert_ne, lookup_insert_eq by done. split; [done|]. split; [done|]. split; [done|].
    exists (with_next th 0). by rewrite lookup_insert_eq.
  - intros (-> & Hx & xth & Hxt & Hc). cbn. split; [done|]. split; [done|]. exists xth.
    rewrite !lookup_insert_ne by set_solver. split; [done|]. apply IH; [set_solver|set_solver|done].
Qed.

(** Unlinking a thread behind its predecessor. *)
Lemma chain_unlink m p l1 u uth t th l2 :
  chain m p (l1 ++ u :: t :: l2) -> NoDup (l1 ++ u :: t :: l2) -> m !! u = Some uth -> m !! t = Some th ->
  chain (<[u := with_next uth (next th)]> m) p (l1 ++ u :: l2).
Proof.
  intros Hc Hn Hu Ht. revert p Hc Hn. induction l1 as [|x l1 IH]; intros p.
  - intros (-> & Hu0 & u' & Hu' & Hc) Hn. rewrite Hu in Hu'. injection Hu' as <-. destruct Hc as (Hnu & Ht0 & t' & Ht' & Hc).
    rewrite Ht in Ht'. injection Ht' as <-. cbn. split; [done|]. split; [done|]. exists (with_next uth (next th)). rewrite lookup_insert_eq. split; [done|].
    cbn. apply chain_insert; [|done]. apply NoDup_cons in Hn as [Hn _]. set_solver.
  - intros (-> & Hx & xth & Hxt & Hc) Hn. apply NoDup_cons in Hn as [Hxn Hn]. cbn. split; [done|]. split; [done|]. exists xth.
    rewrite lookup_insert_ne by set_solver. split; [done|]. by apply IH.
Qed.

(** ** Running the effects *)

Lemma size_alter (f : thread_t -> thread_t) k (m : gmap Z thread_t) : size (alter f k m) = size m.
Proof. by rewrite <- !(size_dom (D := gset Z)), dom_alter_L. Qed.

Lemma lock_run l s : held s l = false -> lock l s = Ret tt (set_held s (fun l' => if decide (l' = l) then true else held s l')).
Proof. unfold lock. by intros ->. Qed.

Lemma thread_at_run p t s : threads s !! p = Some t -> thread_at p s = Ret t s.
Proof. unfold thread_at. by intros ->. Qed.

Lemma update_thread_run p t f s :
  threads s !! p = Some t -> update_thread p f s = Ret tt (set_threads s (alter f p (threads s))).
Proof.
  intros H. unfold update_thread. erewrite bind_run by (apply thread_at_run, H). unfold store_thread, modify. do 2 f_equal.
  apply map_eq. intros x. destruct (decide (x = p)) as [->|]; [rewrite lookup_insert_eq, lookup_alter_eq, H; done|].
  by rewrite lookup_insert_ne, lookup_alter_ne by done.
Qed.

Lemma ready_head_run c p s : p < 128 -> ready_head c p s = Ret (ready_queues (rqs s c) p) s.
Proof. intros. unfold ready_head. by if_lia. Qed.

Lemma set_ready_head_run c p v s : p < 128 -> set_ready_head c p v s = Ret tt (set_rqs s ((rqs s).[c <- with_ready (rqs s c) p v])).
Proof. intros. unfold set_ready_head. by if_lia. Qed.

Lemma walk_tail_run u s l : forall fuel p, chain (threads s) p (l ++ [u]) -> (length l < fuel)%nat -> walk_tail fuel p s = Ret u s.
Proof.
  induction l as [|t l IH]; intros [|fuel] p Hc Hf; [lia| |lia|]; destruct Hc as (-> & Ht & th & Hth & Hc); cbn [walk_tail];
    erewrite bind_run by (apply thread_at_run, Hth).
  - cbn in Hc. by rewrite Hc.
  - destruct (Z.eqb_spec (next th) 0) as [E|E]; [|apply IH; [done|cbn in Hf; lia]].
    apply (proj1 (thread_chain_head _ _ _ Hc)) in E. by destruct l.
Qed.

Lemma walk_to_absent t s l : t <> 0 -> forall fuel p, chain (threads s) p l -> t ∉ l -> (length l < fuel)%nat -> walk_to fuel t p s = Ret 0 s.
Proof.
  intros Ht. induction l as [|u l IH]; intros [|fuel] p Hc Hn Hf; [lia| |lia|]; cbn [walk_to].
  - cbn in Hc. by subst.
  - destruct Hc as (-> & Hu & th & Hth & Hc). if_lia. erewrite bind_run by (apply thread_at_run, Hth).
    destruct (Z.eqb_spec (next th) t) as [E|E]; [|apply IH; [done|by apply not_elem_of_cons in Hn as [_ Hn]|cbn in Hf; lia]].
    destruct l as [|v l]; cbn in Hc; [congruence|]. destruct Hc as (Hv & _). exfalso. apply Hn. rewrite <- E, Hv. set_solver-.
Qed.

Lemma walk_to_found t u s l2 l1 : forall fuel p,
  chain (threads s) p (l1 ++ u :: t :: l2) -> t ∉ l1 ++ [u] -> (length l1 < fuel)%nat -> walk_to fuel t p s = Ret u s.
Proof.
  induction l1 as [|x l1 IH]; intros [|fuel] p Hc Hn Hf; [lia| |lia|]; destruct Hc as (-> & Hx & th & Hth & Hc); cbn [walk_to]; if_lia;
    erewrite bind_run by (apply thread_at_run, Hth).
  - destruct Hc as (-> & _). by rewrite Z.eqb_refl.
  - destruct (Z.eqb_spec (next th) t) as [E|E]; [|apply IH; [done|by apply not_elem_of_cons in Hn as [_ Hn]|cbn in Hf; lia]].
    destruct l1 as [|v l]; cbn in Hc; destruct Hc as (Hv & _); exfalso; apply Hn; rewrite <- E, Hv; set_solver-.
Qed.

Create HintDb sched.
#[export] Hint Resolve lock_run thread_at_run update_thread_run ready_head_run set_ready_head_run : sched.

(** One step of a sequence whose effect is known. *)
Ltac sstep := erewrite bind_run by first [reflexivity | eauto with sched].
Ltac sproj := cbn [threads rqs held thread_table next_tid sleeping_queue tick_counter need_reschedule last_balance steal_start stack_words
  set_threads set_rqs set_held set_table set_sleeping set_tick set_balance set_words].

Lemma same_rest_refl s : same_rest s s.
Proof. by split. Qed.

Lemma same_rest_trans s1 s2 s3 : same_rest s1 s2 -> same_rest s2 s3 -> same_rest s1 s3.
Proof.
  intros [A1 A2 A3 A4] [B1 B2 B3 B4]. split; [|intros; by rewrite B2|intuition congruence|intuition congruence].
  intros c. specialize (A1 c). specialize (B1 c). intuition congruence.
Qed.

Lemma keeps_trans (T : Z -> Prop) s1 s2 s3 : keeps T s1 s2 -> keeps T s2 s3 -> keeps T s1 s3.
Proof.
  intros [A1 A2 A3] [B1 B2 B3]. split; [intros; by rewrite B1, A1|intros; by rewrite B2|by eapply same_rest_trans].
Qed.

Lemma keeps_weaken (T T' : Z -> Prop) s s' : (forall x, T x -> T' x) -> keeps T s s' -> keeps T' s s'.
Proof. intros H [A1 A2 A3]. split; [|done|done]. intros x Hx. apply A1. by intros ?%H. Qed.

(** ** Adding to a ready queue *)

(** What linking [t] behind the last thread of [l] does to the threads. *)
Definition link_last (m : gmap Z thread_t) (l : list Z) (t : Z) : gmap Z thread_t :=
  alter (fun x => with_next x 0) t (match last l with Some u => alter (fun x => with_next x t) u m | None => m end).

Lemma link_last_next m l t x : (fun t => with_next t 0) <$> (link_last m l t !! x) = (fun t => with_next t 0) <$> (m !! x).
Proof.
  assert (H : forall (m : gmap Z thread_t) y n x, (fun t => with_next t 0) <$> (alter (fun x => with_next x n) y m !! x) = (fun t => with_next t 0) <$> (m !! x)).
  { clear. intros m y n x. destruct (decide (x = y)) as [->|]; [|by rewrite lookup_alter_ne]. rewrite lookup_alter_eq. by destruct (m !! y). }
  unfold link_last. rewrite H. destruct (last l); [|done]. by rewrite H.
Qed.

Lemma link_last_other m l t x : x <> t -> x ∉ l -> link_last m l t !! x = m !! x.
Proof.
  intros Hx Hl. unfold link_last. rewrite lookup_alter_ne by done. destruct (last l) as [u|] eqn:E; [|done].
  rewrite lookup_alter_ne; [done|]. intros <-. by apply last_Some_elem_of in E.
Qed.

Lemma add_run s t th c l :
  threads s !! t = Some th -> (forall c, held s (RqLock c) = false) -> 0 <= c < MAX_CPUS -> 0 <= priority th < 128 ->
  chain (threads s) (ready_queues (rqs s c) (priority th)) l -> NoDup l ->
  exists s', add_to_ready_queue t c s = Ret tt s' /\ threads s' = link_last (threads s) l t /\ same_rest s s' /\
    (forall c' p', ready_queues (rqs s' c') p' = if decide (c' = c /\ p' = priority th /\ l = []) then t else ready_queues (rqs s c') p').
Proof.
  intros Ht Hl Hc Hp Hch Hn. unfold add_to_ready_queue, MAX_CPUS in *. if_lia.
  sstep. sstep. erewrite bind_run by (apply ready_head_run; lia). sproj.
  assert (Hh : forall l', (if decide (l' = RqLock c) then false else if decide (l' = RqLock c) then true else held s l') = held s l').
  { intros l'. destruct (decide _) as [->|]; [by rewrite Hl|done]. }
  destruct (Z.eqb_spec (ready_queues (rqs s c) (priority th)) 0) as [E|E].
  - apply (proj1 (thread_chain_head _ _ _ Hch)) in E. subst l.
    erewrite bind_run; [|erewrite bind_run by (apply set_ready_head_run; lia); eapply update_thread_run; sproj; exact Ht].
    eexists. split; [reflexivity|]. sproj. split; [done|]. split; [split; sproj; [|done|done|done]|].
    + intros c'. unfold aset. by destruct (Z.eqb_spec c' c) as [->|].
    + intros c' p'. unfold aset. destruct (Z.eqb_spec c' c) as [->|]; [|rewrite decide_False by tauto; done].
      cbn [ready_queues with_ready]. unfold aset. destruct (Z.eqb_spec p' (priority th)); [by rewrite decide_True|by rewrite decide_False by tauto].
  - destruct (exists_last (l := l)) as (l1 & u & ->). { intros ->. by apply E. }
    destruct (chain_present _ _ _ u Hch ltac:(set_solver-)) as [Hu [uth Huth]].
    erewrite bind_run; [|sstep; erewrite bind_run; [|apply (walk_tail_run u _ l1); [exact Hch|]];
      [erewrite bind_run by (eapply update_thread_run; sproj; exact Huth)|]].
    2:{ eapply (update_thread_run _ (if decide (t = u) then with_next th t else th)). sproj.
        destruct (decide (t = u)) as [<-|]; [by rewrite lookup_alter_eq, Ht|by rewrite lookup_alter_ne by congruence]. }
    2:{ pose proof (thread_chain_length _ _ _ Hch Hn). rewrite length_app in *. unfold walk_fuel. sproj. cbn in *. lia. }
    eexists. split; [reflexivity|]. sproj. unfold link_last. rewrite last_snoc. split; [done|]. split; [by split|].
    intros c' p'. by rewrite decide_False by (intros (_ & _ & ?); by destruct l1).
Qed.

(** ** Changing one queue *)

Lemma put_queue_eq q c p l : put_queue q c p l c p = l.
Proof. unfold put_queue. by rewrite decide_True. Qed.

Lemma put_queue_ne q c p l c' p' : ~ (c' = c /\ p' = p) -> put_queue q c p l c' p' = q c' p'.
Proof. intros. unfold put_queue. by rewrite decide_False. Qed.

Lemma elem_put_queue q c p l c' p' t : t ∈ put_queue q c p l c' p' -> (c' = c /\ p' = p /\ t ∈ l) \/ (~ (c' = c /\ p' = p) /\ t ∈ q c' p').
Proof. unfold put_queue. destruct (decide _) as [[-> ->]|]; naive_solver. Qed.

(** The fields other than [next]. *)
Lemma keeps_field T s s' x th : keeps T s s' -> threads s !! x = Some th -> exists n, threads s' !! x = Some (with_next th n).
Proof.
  intros Hk Hx. pose proof (keeps_next _ _ _ Hk x) as H. rewrite Hx in H. destruct (threads s' !! x) as [th'|]; [|done]. cbn in H. injection H as ?.
  exists (next th'). f_equal. destruct th, th'. cbn in *. by subst.
Qed.

Lemma rep_change s s' q c p l' :
  rep s q -> keeps (fun x => x ∈ q c p \/ x ∈ l') s s' -> 0 <= c < MAX_CPUS -> 0 <= p < 128 ->
  chain (threads s') (ready_queues (rqs s' c) p) l' -> NoDup l' ->
  (forall c' p', ~ (c' = c /\ p' = p) -> ready_queues (rqs s' c') p' = ready_queues (rqs s c') p') ->
  (forall t, t ∈ l' -> (forall c' p', t ∈ q c' p' -> c' = c /\ p' = p) /\ exists th, threads s !! t = Some th /\ priority th = p) ->
  rep s' (put_queue q c p l').
Proof.
  intros [R1 R2 R3 R4 R5 R6] Hk Hcr Hpr Hc Hn Hq Hl. pose proof Hk as [K1 K2 K3]. split.
  - intros c' p'. destruct (decide (c' = c /\ p' = p)) as [[-> ->]|Hne]; [by rewrite put_queue_eq|].
    rewrite put_queue_ne, Hq by done. eapply thread_chain_ext; [|apply R1]. intros t Ht. apply K1. intros [H|H].
    + apply Hne. by eapply R3.
    + apply Hne. by apply (Hl t H).
  - intros c' p'. unfold put_queue. by destruct (decide _).
  - intros c1 p1 c2 p2 t [(-> & -> & H1)|(N1 & H1)]%elem_put_queue [(-> & -> & H2)|(N2 & H2)]%elem_put_queue; [done| | |by eapply R3].
    + apply (proj1 (Hl t H1)) in H2. tauto.
    + apply (proj1 (Hl t H2)) in H1. tauto.
  - intros c' p' t Ht. assert (exists th, threads s !! t = Some th /\ priority th = p') as (th & Hth & <-).
    { apply elem_put_queue in Ht as [(-> & -> & H1)|(N1 & H1)]; [by apply Hl|by eapply R4]. }
    destruct (keeps_field _ _ _ _ _ Hk Hth) as [n Hn']. by exists (with_next th n).
  - intros c' p'. destruct (decide (c' = c /\ p' = p)) as [[-> ->]|Hne]; [done|]. rewrite put_queue_ne by done. apply R5.
  - intros l. by rewrite (same_held _ _ K3).
Qed.

(** A thread that is in no queue. *)
Definition unqueued (q : queues) (t : Z) : Prop := forall c p, t ∉ q c p.

Lemma link_last_chain m p l t th :
  chain m p l -> NoDup l -> t ∉ l -> t <> 0 -> m !! t = Some th -> chain (link_last m l t) (if decide (l = []) then t else p) (l ++ [t]).
Proof.
  intros Hc Hn Htl Ht0 Ht. destruct (decide (l = [])) as [->|Hne].
  - cbn. split; [done|]. split; [done|]. exists (with_next th 0). unfold link_last. cbn. by rewrite lookup_alter_eq, Ht.
  - destruct (exists_last Hne) as (l1 & u & ->). destruct (chain_present _ _ _ u Hc ltac:(set_solver-)) as [Hu0 [uth Hu]].
    assert (t <> u /\ t ∉ l1) as [Htu Htl1] by set_solver. rewrite <- app_assoc. cbn [app].
    replace (link_last m (l1 ++ [u]) t) with (<[t := with_next th 0]> (<[u := with_next uth t]> m)).
    + apply NoDup_app in Hn as (_ & Hn & _). apply thread_chain_snoc; [done..| |done|done|done]. intros H. by apply (Hn u H), list_elem_of_singleton.
    + unfold link_last. rewrite last_snoc. apply map_eq. intros x. destruct (decide (x = t)) as [->|].
      * by rewrite lookup_insert_eq, lookup_alter_eq, lookup_alter_ne, Ht by done.
      * rewrite lookup_insert_ne, lookup_alter_ne by done. destruct (decide (x = u)) as [->|]; [by rewrite lookup_insert_eq, lookup_alter_eq, Hu|].
        by rewrite lookup_insert_ne, lookup_alter_ne by done.
Qed.

Lemma add_ready_spec s q t th c :
  rep s q -> threads s !! t = Some th -> t <> 0 -> unqueued q t -> 0 <= c < MAX_CPUS -> 0 <= priority th < 128 ->
  exists s', add_to_ready_queue t c s = Ret tt s' /\
    rep s' (put_queue q c (priority th) (q c (priority th) ++ [t])) /\ keeps (fun x => x = t \/ x ∈ q c (priority th)) s s'.
Proof.
  intros Hr Ht Ht0 Hu Hc Hp. pose proof Hr as [R1 R2 R3 R4 R5 R6].
  destruct (add_run s t th c (q c (priority th)) Ht R6 Hc Hp (R1 _ _) (R2 _ _)) as (s' & E & Hth & Hs & Hq).
  exists s'. split; [done|]. assert (Hk : keeps (fun x => x = t \/ x ∈ q c (priority th)) s s').
  { split; [|intros; rewrite Hth; apply link_last_next|done]. intros x Hx. rewrite Hth. apply link_last_other; tauto. }
  split; [|done]. eapply rep_change; [done| |done|done| | | |].
  - eapply keeps_weaken; [|exact Hk]. intros x [->|]; [right|left]; [apply elem_of_app; right; by apply list_elem_of_singleton|done].
  - rewrite Hth, Hq. pose proof (link_last_chain _ _ _ t th (R1 c (priority th)) (R2 _ _) (Hu _ _) Ht0 Ht) as H.
    destruct (decide (q c (priority th) = [])); [by rewrite decide_True|by rewrite decide_False by tauto].
  - apply NoDup_app. split; [done|]. split; [|apply NoDup_singleton]. intros x Hx Hx'%list_elem_of_singleton. subst x. by apply (Hu c (priority th)).
  - intros c' p' Hne. rewrite Hq. by rewrite decide_False by tauto.
  - intros x [Hx|Hx%list_elem_of_singleton]%elem_of_app; [|subst x; split; [|by exists th]].
    + split; [intros; by eapply R3|]. by apply (R4 c).
    + intros c' p' H. by apply Hu in H.
Qed.

(** ** Removing from a ready queue *)

Definition del (t : Z) (l : list Z) : list Z := filter (fun x => x <> t) l.
Definition del_queue (q : queues) (t : Z) : queues := fun c p => del t (q c p).

Lemma del_absent t l : t ∉ l -> del t l = l.
Proof.
  unfold del. induction l as [|x l IH]; [done|]. intros [Hx Hl]%not_elem_of_cons. rewrite filter_cons_True by congruence. f_equal. by apply IH.
Qed.

Lemma del_split t l1 l2 : NoDup (l1 ++ t :: l2) -> del t (l1 ++ t :: l2) = l1 ++ l2.
Proof.
  intros (_ & H1 & H2)%NoDup_app. apply NoDup_cons in H2 as [H2 _]. unfold del. rewrite filter_app, filter_cons_False by tauto.
  fold (del t l1) (del t l2). rewrite !del_absent; [done|done|]. intros H. apply (H1 t H). set_solver-.
Qed.

Lemma elem_del t l x : x ∈ del t l <-> x ∈ l /\ x <> t.
Proof. unfold del. rewrite list_elem_of_filter. tauto. Qed.

Lemma rep_ext s q q' : (forall c p, q' c p = q c p) -> rep s q -> rep s q'.
Proof.
  intros E [R1 R2 R3 R4 R5 R6]. split; [intros; rewrite E; done..|intros c p c' p' t; rewrite !E; apply R3|intros c p t; rewrite E; apply R4|intros c p; rewrite E; apply R5|done].
Qed.

(** A queue from which [t] is taken, the links of the threads before it aside. *)
Lemma rep_del s s' q c p t :
  rep s q -> keeps (fun x => x ∈ q c p) s s' -> t ∈ q c p -> chain (threads s') (ready_queues (rqs s' c) p) (del t (q c p)) ->
  (forall c' p', ~ (c' = c /\ p' = p) -> ready_queues (rqs s' c') p' = ready_queues (rqs s c') p') -> rep s' (del_queue q t).
Proof.
  intros Hr Hk Ht Hc Hq. pose proof Hr as [R1 R2 R3 R4 R5 R6]. apply (rep_ext _ (put_queue q c p (del t (q c p)))).
  - intros c' p'. unfold del_queue. destruct (decide (c' = c /\ p' = p)) as [[-> ->]|Hne]; [by rewrite put_queue_eq|].
    rewrite put_queue_ne by done. apply del_absent. intros H. apply Hne. by eapply R3.
  - assert (0 <= c < MAX_CPUS /\ 0 <= p < 128) as [Hcr Hpr]. { apply R5. intros E. rewrite E in Ht. by apply elem_of_nil in Ht. }
    eapply rep_change; [done| |done|done|done|apply NoDup_filter, R2|done|].
    + eapply keeps_weaken; [|exact Hk]. tauto.
    + intros x [Hx _]%elem_del. split; [intros; by eapply R3|by apply (R4 c)].
Qed.

(** Taking a lock and giving it back. *)
Lemma relock s l : held s l = false -> forall l', (if decide (l' = l) then false else if decide (l' = l) then true else held s l') = held s l'.
Proof. intros H l'. by destruct (decide (l' = l)) as [->|]. Qed.

Lemma rep_same s s' q :
  rep s q -> threads s' = threads s -> (forall c p, ready_queues (rqs s' c) p = ready_queues (rqs s c) p) -> (forall l, held s' l = held s l) -> rep s' q.
Proof.
  intros [R1 R2 R3 R4 R5 R6] Ht Hq Hh. split; [intros; rewrite Ht, Hq; apply R1|done|done|intros c p t; rewrite Ht; apply R4|done|intros; by rewrite Hh].
Qed.

Lemma remove_head_run s q i t th :
  rep s q -> threads s !! t = Some th -> 0 <= priority th < 128 -> ready_queues (rqs s i) (priority th) = t -> t <> 0 ->
  exists s', (t' <~ thread_at t;; set_ready_head i (priority th) (next t');;; unlock (RqLock i)) (set_held s (fun l' => if decide (l' = RqLock i) then true else held s l')) = Ret tt s' /\
    rep s' (del_queue q t) /\ keeps (fun _ => False) s s'.
Proof.
  intros Hr Ht Hp Hh Ht0. pose proof Hr as [R1 R2 R3 R4 R5 R6]. sstep. erewrite bind_run by (apply set_ready_head_run; lia).
  eexists. split; [reflexivity|]. match goal with |- rep ?x _ /\ _ => set (s' := x) end.
  assert (Hk : forall T, keeps T s s').
  { intros T. split; [done|done|]. split; [|apply relock, R6|done|done]. intros c. unfold s'. sproj. unfold aset. by destruct (Z.eqb_spec c i) as [->|]. }
  split; [|apply Hk]. specialize (R1 i (priority th)). rewrite Hh in R1. destruct (q i (priority th)) as [|x l] eqn:E; [done|].
  destruct R1 as (<- & _ & th' & Hth' & Hc). rewrite Ht in Hth'. injection Hth' as <-.
  apply (rep_del s _ q i (priority th)); [done|apply Hk|rewrite E; set_solver-| |].
  - pose proof (R2 i (priority th)) as Hn. rewrite E in *. pose proof (del_split t [] l Hn) as D. cbn [app] in D. rewrite D. unfold s'. sproj. rewrite aset_eq. cbn [ready_queues with_ready]. by rewrite aset_eq.
  - intros c' p' Hne. unfold s'. sproj. unfold aset. destruct (Z.eqb_spec c' i) as [->|]; [|done]. cbn [ready_queues with_ready]. rewrite aset_ne; [done|tauto].
Qed.

Lemma remove_inner_run s q i u t th l1 l2 :
  rep s q -> threads s !! t = Some th -> 0 <= priority th < 128 -> q i (priority th) = l1 ++ u :: t :: l2 ->
  exists s', (t' <~ thread_at t;; update_thread u (fun c => with_next c (next t'));;; unlock (RqLock i)) (set_held s (fun l' => if decide (l' = RqLock i) then true else held s l')) = Ret tt s' /\
    rep s' (del_queue q t) /\ keeps (fun x => x ∈ q i (priority th)) s s'.
Proof.
  intros Hr Ht Hp Hq. pose proof Hr as [R1 R2 R3 R4 R5 R6]. pose proof (R1 i (priority th)) as Hc. rewrite Hq in Hc.
  destruct (chain_present _ _ _ u Hc ltac:(set_solver-)) as [Hu0 [uth Hu]]. sstep. erewrite bind_run by (eapply update_thread_run; sproj; exact Hu).
  eexists. split; [reflexivity|]. match goal with |- rep ?x _ /\ _ => set (s' := x) end.
  assert (Hth : threads s' = <[u := with_next uth (next th)]> (threads s)).
  { unfold s'. sproj. apply map_eq. intros x. destruct (decide (x = u)) as [->|]; [by rewrite lookup_insert_eq, lookup_alter_eq, Hu|by rewrite lookup_insert_ne, lookup_alter_ne by done]. }
  assert (Hk : keeps (fun x => x ∈ q i (priority th)) s s').
  { split; [| |split; [done|apply relock, R6|done|done]].
    - intros x Hx. rewrite Hth, lookup_insert_ne; [done|]. intros <-. apply Hx. rewrite Hq. set_solver-.
    - intros x. rewrite Hth. destruct (decide (x = u)) as [->|]; [by rewrite lookup_insert_eq, Hu|by rewrite lookup_insert_ne by done]. }
  split; [|done]. apply (rep_del s _ q i (priority th)); [done|done|rewrite Hq; set_solver-| |done].
  pose proof (R2 i (priority th)) as Hn. rewrite Hq in *. replace (l1 ++ u :: t :: l2) with ((l1 ++ [u]) ++ t :: l2) in * by (by rewrite <- app_assoc).
  rewrite del_split by done. rewrite <- app_assoc in *. cbn [app] in *. rewrite Hth. by eapply chain_unlink.
Qed.

(** The search finds the thread in the processors from [i] on, if it is there. *)
Lemma remove_loop_spec t th : forall n i s q,
  rep s q -> threads s !! t = Some th -> t <> 0 -> 0 <= priority th < 128 -> (forall c, t ∈ q c (priority th) -> i <= c < i + Z.of_nat n) ->
  exists s', remove_loop n i t (priority th) s = Ret tt s' /\ rep s' (del_queue q t) /\ keeps (fun x => exists c, x ∈ q c (priority th)) s s'.
Proof.
  induction n as [|n IH]; intros i s q Hr Ht Ht0 Hp Hin; pose proof Hr as [R1 R2 R3 R4 R5 R6].
  - exists s. split; [done|]. split; [|by split; [..|apply same_rest_refl]]. apply (rep_ext _ q); [|done]. intros c p. apply del_absent. intros H.
    destruct (R4 _ _ _ H) as (th' & E & <-). rewrite Ht in E. injection E as <-. apply Hin in H. lia.
  - cbn [remove_loop]. sstep. erewrite bind_run by (apply ready_head_run; lia). sproj.
    destruct (Z.eqb_spec (ready_queues (rqs s i) (priority th)) t) as [E|E].
    + destruct (remove_head_run s q i t th Hr Ht Hp E Ht0) as (s' & Hs & Hr' & Hk). exists s'. split; [done|]. split; [done|]. eapply keeps_weaken; [|exact Hk]. done.
    + sstep. pose proof (thread_chain_length _ _ _ (R1 i (priority th)) (R2 _ _)) as Hlen.
      destruct (decide (t ∈ q i (priority th))) as [Hin'|Hout].
      * apply list_elem_of_split in Hin' as (l1 & l2 & Hq). destruct (decide (l1 = [])) as [->|Hne].
        { specialize (R1 i (priority th)). rewrite Hq in R1. by destruct R1. }
        destruct (exists_last Hne) as (l0 & u & ->). rewrite <- app_assoc in Hq. cbn in Hq.
        pose proof (R1 i (priority th)) as Hc. rewrite Hq in Hc. pose proof (R2 i (priority th)) as Hn. rewrite Hq in Hn.
        replace (l0 ++ u :: t :: l2) with ((l0 ++ [u]) ++ t :: l2) in Hn by (by rewrite <- app_assoc).
        erewrite bind_run; [|apply (walk_to_found t u _ l2 l0)];
          [|done| |rewrite Hq, length_app in Hlen; cbn in Hlen; unfold walk_fuel; sproj; lia].
        2:{ intros H. apply NoDup_app in Hn as (_ & Hn & _). apply (Hn t H). set_solver-. }
        destruct (chain_present _ _ _ u Hc ltac:(set_solver-)) as [Hu0 _]. if_lia.
        destruct (remove_inner_run s q i u t th l0 l2 Hr Ht Hp Hq) as (s' & Hs & Hr' & Hk). exists s'. split; [done|]. split; [done|].
        eapply keeps_weaken; [|exact Hk]. intros x Hx. by exists i.
      * erewrite bind_run by (apply (walk_to_absent t _ (q i (priority th)) Ht0); [apply R1|done|unfold walk_fuel; sproj; lia]). cbn [negb Z.eqb].
        erewrite bind_run by reflexivity. match goal with |- exists s', remove_loop _ _ _ _ ?x = _ /\ _ => set (s1 := x) end.
        destruct (IH (i + 1) s1 q) as (s' & Hs & Hr' & Hk); [|done|done|done| |].
        { apply (rep_same s); [done|done|done|]. apply relock, R6. }
        { intros c Hc. destruct (decide (c = i)) as [->|]; [done|]. specialize (Hin c Hc). lia. }
        exists s'. split; [done|]. split; [done|]. eapply keeps_trans; [|exact Hk]. split; [done|done|]. split; [done|apply relock, R6|done|done].
Qed.

Lemma remove_spec s q t th :
  rep s q -> threads s !! t = Some th -> t <> 0 -> 0 <= priority th < 128 ->
  exists s', remove_from_ready_queue t s = Ret tt s' /\ rep s' (del_queue q t) /\ keeps (fun x => exists c, x ∈ q c (priority th)) s s'.
Proof.
  intros Hr Ht Ht0 Hp. unfold remove_from_ready_queue. sstep. apply remove_loop_spec; [done..|]. intros c Hc.
  assert (0 <= c < MAX_CPUS); [|unfold MAX_CPUS in *; lia]. eapply (rep_range _ _ Hr c (priority th)). intros E. rewrite E in Hc. by apply elem_of_nil in Hc.
Qed.

(** ** Picking a thread *)

Definition locked (s : sched) (l : lock_id) : sched := set_held s (fun l' => if decide (l' = l) then true else held s l').

(** Whether the picked thread goes to the end of its queue. *)
Definition requeued (s : sched) (c h : Z) (th : thread_t) : bool :=
  negb (h =? idle_thread (rqs s c)) && bool_decide (state th = THREAD_STATE_READY).

(** The parts of [pick_loop] that take the head of queue [i] and put it at the end. *)
Definition rotate (c i h : Z) : M unit :=
  update_thread h (fun t => with_next t 0);;;
  h' <~ ready_head c i;;
  if h' =? 0 then set_ready_head c i h
  else fuel <~ get walk_fuel;; current <~ walk_tail fuel h';; update_thread current (fun t => with_next t h).

Definition pick_body (c i h : Z) (t : thread_t) : M Z :=
  set_ready_head c i (next t);;;
  rq <~ get (fun s => rqs s c);;
  (if negb (h =? idle_thread rq) && bool_decide (state t = THREAD_STATE_READY) then rotate c i h else ret tt);;;
  unlock (RqLock c);;;
  ret h.

Lemma pick_loop_S n c : pick_loop (S n) c =
  (h <~ ready_head c (Z.of_nat n);; if h =? 0 then pick_loop n c else t <~ thread_at h;; pick_body c (Z.of_nat n) h t).
Proof. done. Qed.

(** Taking the head off, where the thread is not put back. *)
Lemma pick_body_drop s q c p h th l :
  rep s q -> threads s !! h = Some th -> q c p = h :: l -> requeued s c h th = false ->
  exists s', pick_body c p h th (locked s (RqLock c)) = Ret h s' /\ rep s' (put_queue q c p l) /\ keeps (fun _ => False) s s'.
Proof.
  intros Hr Hh Hq Hreq. pose proof Hr as [R1 R2 R3 R4 R5 R6]. destruct (R5 c p) as [Hc Hp]; [by rewrite Hq|].
  pose proof (R1 c p) as Hch. rewrite Hq in Hch. destruct Hch as (Hhd & Hh0 & th' & Hth' & Hch). rewrite Hh in Hth'. injection Hth' as <-.
  unfold pick_body. erewrite bind_run by (apply set_ready_head_run; lia). sstep. sproj. rewrite aset_eq. cbn [idle_thread with_ready].
  unfold requeued in Hreq. cbn [locked rqs set_held]. rewrite Hreq. sstep. sstep. eexists. split; [reflexivity|]. match goal with |- rep ?x _ /\ _ => set (s' := x) end.
  assert (Hk : forall T, keeps T s s').
  { intros T. split; [done|done|]. split; [|apply relock, R6|done|done]. intros c'. unfold s'. sproj. unfold aset. by destruct (Z.eqb_spec c' c) as [->|]. }
  split; [|apply Hk]. eapply rep_change; [done|apply Hk|done|done| | | |].
  - unfold s'. sproj. rewrite aset_eq. cbn [ready_queues with_ready]. by rewrite aset_eq.
  - specialize (R2 c p). rewrite Hq in R2. by apply NoDup_cons in R2 as [_ ?].
  - intros c' p' Hne. unfold s'. sproj. unfold aset. destruct (Z.eqb_spec c' c) as [->|]; [|done]. cbn [ready_queues with_ready]. rewrite aset_ne; [done|tauto].
  - intros x Hx. assert (Hx' : x ∈ q c p) by (rewrite Hq; by right). split; [intros; by eapply R3|by apply (R4 c)].
Qed.

Lemma rotate_run s c p h th l :
  threads s !! h = Some th -> chain (threads s) (ready_queues (rqs s c) p) l -> NoDup l -> h ∉ l -> p < 128 ->
  exists s', rotate c p h s = Ret tt s' /\ threads s' = link_last (threads s) l h /\ same_rest s s' /\
    (forall c' p', ready_queues (rqs s' c') p' = if decide (c' = c /\ p' = p /\ l = []) then h else ready_queues (rqs s c') p').
Proof.
  intros Hh Hc Hn Hhl Hp. unfold rotate. erewrite bind_run by (eapply update_thread_run, Hh). erewrite bind_run by (apply ready_head_run; lia). sproj.
  destruct (Z.eqb_spec (ready_queues (rqs s c) p) 0) as [E|E].
  - apply (proj1 (thread_chain_head _ _ _ Hc)) in E. subst l. rewrite set_ready_head_run by lia. eexists. split; [reflexivity|]. sproj.
    split; [done|]. split; [split; [|done..]|].
    + intros c'. sproj. unfold aset. by destruct (Z.eqb_spec c' c) as [->|].
    + intros c' p'. unfold aset. destruct (Z.eqb_spec c' c) as [->|]; [|rewrite decide_False by tauto; done].
      cbn [ready_queues with_ready]. unfold aset. destruct (Z.eqb_spec p' p); [by rewrite decide_True|by rewrite decide_False by tauto].
  - destruct (exists_last (l := l)) as (l1 & u & ->). { intros ->. by apply E. }
    destruct (chain_present _ _ _ u Hc ltac:(set_solver-)) as [Hu [uth Huth]]. assert (h <> u) by (intros ->; apply Hhl; set_solver-).
    sstep. erewrite bind_run; [|apply (walk_tail_run u _ l1)].
    2:{ sproj. eapply thread_chain_ext; [|exact Hc]. intros x Hx. rewrite lookup_alter_ne; [done|]. by intros <-. }
    2:{ pose proof (thread_chain_length _ _ _ Hc Hn) as Hlen. rewrite length_app in Hlen. unfold walk_fuel. sproj. rewrite size_alter. cbn in *. lia. }
    erewrite update_thread_run by (sproj; rewrite lookup_alter_ne by done; exact Huth). eexists. split; [reflexivity|]. sproj.
    split; [|split; [done|]].
    + unfold link_last. rewrite last_snoc. apply map_eq. intros x. rewrite !lookup_alter. repeat case_decide; congruence.
    + intros c' p'. by rewrite decide_False by (intros (_ & _ & ?); by destruct l1).
Qed.

(** Moving the head to the end. *)
Lemma pick_body_rotate s q c p h th l :
  rep s q -> threads s !! h = Some th -> q c p = h :: l -> requeued s c h th = true ->
  exists s', pick_body c p h th (locked s (RqLock c)) = Ret h s' /\ rep s' (put_queue q c p (l ++ [h])) /\ keeps (fun x => x ∈ q c p) s s'.
Proof.
  intros Hr Hh Hq Hreq. pose proof Hr as [R1 R2 R3 R4 R5 R6]. destruct (R5 c p) as [Hc Hp]; [by rewrite Hq|].
  pose proof (R1 c p) as Hch. pose proof (R2 c p) as Hn. rewrite Hq in Hch, Hn. destruct Hch as (Hhd & Hh0 & th' & Hth' & Hch). rewrite Hh in Hth'. injection Hth' as <-.
  apply NoDup_cons in Hn as [Hhl Hn]. set (s1 := set_rqs (locked s (RqLock c)) ((rqs s).[c <- with_ready (rqs s c) p (next th)])).
  assert (Hh1 : ready_queues (rqs s1 c) p = next th). { unfold s1. sproj. rewrite aset_eq. cbn [ready_queues with_ready]. by rewrite aset_eq. }
  destruct (rotate_run s1 c p h th l) as (s2 & E & Hth & Hs & Hrq); [done|by rewrite Hh1|done|done|lia|].
  unfold pick_body. erewrite (bind_run _ _ _ tt s1) by (rewrite set_ready_head_run by lia; reflexivity). sstep. cbv beta. unfold requeued in Hreq.
  replace (idle_thread (rqs s1 c)) with (idle_thread (rqs s c)) by (unfold s1; sproj; by rewrite aset_eq). rewrite Hreq.
  erewrite bind_run by exact E. sstep. eexists. split; [reflexivity|]. match goal with |- rep ?x _ /\ _ => set (s' := x) end.
  assert (Hk : keeps (fun x => x ∈ q c p) s s').
  { split; [|intros; unfold s'; sproj; rewrite Hth; apply link_last_next|].
    - intros x Hx. rewrite Hq in Hx. unfold s'. sproj. rewrite Hth. apply not_elem_of_cons in Hx as [??]. by apply link_last_other.
    - destruct Hs as [S1 S2 S3 S4]. split; [| |done|done].
      + intros c'. unfold s'. sproj. specialize (S1 c'). unfold s1 in S1. revert S1. sproj. unfold aset. by destruct (Z.eqb_spec c' c) as [->|].
      + intros l'. unfold s'. sproj. rewrite S2. unfold s1. sproj. apply relock, R6. }
  split; [|done]. eapply rep_change; [done| |done|done| | | |].
  - eapply keeps_weaken; [|exact Hk]. tauto.
  - unfold s'. sproj. rewrite Hth, Hrq, Hh1. pose proof (link_last_chain _ _ _ h th Hch Hn Hhl Hh0 Hh) as H.
    destruct (decide (l = [])); [by rewrite decide_True|by rewrite decide_False by tauto].
  - apply NoDup_app. split; [done|]. split; [|apply NoDup_singleton]. intros x Hx Hx'%list_elem_of_singleton. by subst.
  - intros c' p' Hne. unfold s'. sproj. rewrite Hrq, decide_False by tauto. unfold s1. sproj. unfold aset. destruct (Z.eqb_spec c' c) as [->|]; [|done].
    cbn [ready_queues with_ready]. rewrite aset_ne; [done|tauto].
  - intros x Hx. assert (Hx' : x ∈ q c p) by (rewrite Hq; apply elem_of_app in Hx as [?|?%list_elem_of_singleton]; [by right|subst; by left]). split; [intros; by eapply R3|by apply (R4 c)].
Qed.

(** *** [pick_next_thread] *)

Lemma pick_loop_empty s q c n : rep s q -> (n <= 128)%nat -> (forall p, 0 <= p < Z.of_nat n -> q c p = []) -> pick_loop n c (locked s (RqLock c)) = Ret 0 (locked s (RqLock c)).
Proof.
  intros Hr. induction n as [|n IH]; intros Hn He; [done|]. rewrite pick_loop_S. erewrite bind_run by (apply ready_head_run; lia). cbn [locked rqs set_held].
  pose proof (rep_chain _ _ Hr c (Z.of_nat n)) as Hc. rewrite He in Hc by lia. cbn in Hc. rewrite Hc. apply IH; [lia|]. intros; apply He; lia.
Qed.

Lemma pick_loop_found s q c n p h th l :
  rep s q -> (n <= 128)%nat -> 0 <= p < Z.of_nat n -> q c p = h :: l -> threads s !! h = Some th -> (forall p', p < p' < Z.of_nat n -> q c p' = []) ->
  exists s', pick_loop n c (locked s (RqLock c)) = Ret h s' /\
    rep s' (put_queue q c p (if requeued s c h th then l ++ [h] else l)) /\ keeps (fun x => x ∈ q c p) s s'.
Proof.
  intros Hr Hn Hp Hq Hh He. induction n as [|n IH]; [lia|]. rewrite pick_loop_S. erewrite bind_run by (apply ready_head_run; lia). cbn [locked rqs set_held].
  pose proof (rep_chain _ _ Hr c (Z.of_nat n)) as Hc. destruct (decide (p = Z.of_nat n)) as [->|].
  - rewrite Hq in Hc. destruct Hc as (-> & Hh0 & _). if_lia. erewrite bind_run by (apply thread_at_run, Hh).
    destruct (requeued s c h th) eqn:E; [by apply pick_body_rotate|].
    destruct (pick_body_drop s q c _ h th l Hr Hh Hq E) as (s' & ? & ? & Hk). exists s'. split; [done|]. split; [done|]. eapply keeps_weaken; [|exact Hk]. done.
  - rewrite He in Hc by lia. cbn in Hc. rewrite Hc. apply IH; [lia|lia|]. intros; apply He; lia.
Qed.

Lemma pick_found s q c p h th l :
  rep s q -> q c p = h :: l -> threads s !! h = Some th -> (forall p', p < p' -> q c p' = []) ->
  exists s', pick_next_thread c s = Ret h s' /\
    rep s' (put_queue q c p (if requeued s c h th then l ++ [h] else l)) /\ keeps (fun x => x ∈ q c p) s s'.
Proof.
  intros Hr Hq Hh He. destruct (rep_range _ _ Hr c p) as [Hc Hp]; [by rewrite Hq|]. unfold pick_next_thread, get_current_runqueue, MAX_CPUS in *. if_lia.
  erewrite bind_run by (apply lock_run, Hr). fold (locked s (RqLock c)).
  destruct (pick_loop_found s q c NUM_PRIORITIES p h th l Hr) as (s' & E & Hr' & Hk); [unfold NUM_PRIORITIES; lia|unfold NUM_PRIORITIES; lia|done|done|intros; apply He; lia|].
  erewrite bind_run by exact E. exists s'. split; [|done].
  pose proof (rep_chain _ _ Hr c p) as Hch. rewrite Hq in Hch. destruct Hch as (_ & Hh0 & _). by if_lia.
Qed.

Lemma pick_none s q c :
  rep s q -> 0 <= c < MAX_CPUS -> (forall p, q c p = []) -> pick_next_thread c s = Ret (idle_thread (rqs s c)) (locked s (RqLock c)).
Proof.
  intros Hr Hc He. unfold pick_next_thread, get_current_runqueue, MAX_CPUS in *. if_lia.
  erewrite bind_run by (apply lock_run, Hr). fold (locked s (RqLock c)). by erewrite bind_run by (by apply (pick_loop_empty s q)).
Qed.

(** ** Scheduling *)

Definition st (s : sched) (x : Z) : option thread_state_t := state <$> threads s !! x.

Lemma keeps_st T s s' x : keeps T s s' -> st s' x = st s x.
Proof.
  intros Hk. pose proof (keeps_next _ _ _ Hk x) as H. unfold st. destruct (threads s' !! x), (threads s !! x); [|done..]. cbn in *. by injection H as ? ? ->.
Qed.

(** Changing a thread in other fields than the link and the priority. *)
Lemma rep_alter s q t f : (forall th, next (f th) = next th /\ priority (f th) = priority th) -> rep s q -> rep (set_threads s (alter f t (threads s))) q.
Proof.
  intros Hf [R1 R2 R3 R4 R5 R6]. split; [|done|done| |done|done]; sproj.
  - intros c p. specialize (R1 c p). revert R1. generalize (ready_queues (rqs s c) p). induction (q c p) as [|x l IH]; intros r; [done|].
    intros (-> & Hx & th & Hth & Hc). cbn. split; [done|]. split; [done|]. rewrite lookup_alter. case_decide; [subst x|exists th; split; [done|by apply IH]].
    rewrite Hth. exists (f th). split; [done|]. rewrite (proj1 (Hf th)). by apply IH.
  - intros c p x Hx. destruct (R4 _ _ _ Hx) as (th & Hth & Hp). rewrite lookup_alter. case_decide; [subst x|by exists th]. rewrite Hth. exists (f th). split; [done|]. by rewrite (proj2 (Hf th)).
Qed.

Lemma st_alter s t f x :
  st (set_threads s (alter (fun th => with_state th f) t (threads s))) x = if decide (x = t) then (fun _ => f) <$> st s x else st s x.
Proof. unfold st. sproj. rewrite lookup_alter. destruct (decide (x = t)) as [->|]; [rewrite decide_True by done|by rewrite decide_False by congruence]. by destruct (threads s !! t). Qed.

(** Adding the last thread of a queue again leaves the queue as it is. *)
Lemma readd_spec s q c p l a :
  rep s q -> q c p = l ++ [a] -> exists s', add_to_ready_queue a c s = Ret tt s' /\ rep s' q /\ keeps (fun _ => False) s s'.
Proof.
  intros Hr Hq. pose proof Hr as [R1 R2 R3 R4 R5 R6]. destruct (R5 c p) as [Hc Hp]; [rewrite Hq; by destruct l|].
  destruct (R4 c p a) as (ath & Ha & Hpa); [rewrite Hq; set_solver-|]. subst p.
  destruct (add_run s a ath c (q c (priority ath)) Ha R6 Hc Hp (R1 _ _) (R2 _ _)) as (s' & E & Hth & Hs & Hrq).
  assert (Hn : next ath = 0).
  { specialize (R1 c (priority ath)). rewrite Hq in R1. apply chain_app in R1 as (r & _ & -> & _ & th & Hth' & Hc'). rewrite Ha in Hth'. by injection Hth' as <-. }
  assert (Ht : threads s' = threads s).
  { rewrite Hth, Hq. unfold link_last. rewrite last_snoc. apply map_eq. intros x.
    destruct (decide (x = a)) as [->|]; [|by rewrite !lookup_alter_ne by done]. rewrite !lookup_alter_eq, Ha. cbn. f_equal. destruct ath. cbn in *. by subst. }
  exists s'. split; [done|]. split.
  - apply (rep_same s); [done|done| |apply Hs]. intros c' p'. rewrite Hrq. rewrite decide_False; [done|]. intros (_ & _ & H). rewrite Hq in H. by destruct l.
  - split; [intros; by rewrite Ht|intros; by rewrite Ht|done].
Qed.

(** Linking a thread that is already in the queue to its end cuts off the threads
    behind it. *)
Lemma link_last_cut m p l a l2 : chain m p (l ++ a :: l2) -> NoDup (l ++ a :: l2) -> chain (link_last m (l ++ a :: l2) a) p (l ++ [a]).
Proof.
  unfold link_last. assert (exists u, last (l ++ a :: l2) = Some u /\ u ∈ a :: l2) as (u & -> & Hu).
  { destruct (last (a :: l2)) as [u|] eqn:E; [|by apply last_None in E]. exists u. split; [by rewrite last_app, E|by apply last_Some_elem_of]. }
  revert p. induction l as [|x l IH]; intros p.
  - intros (-> & Ha & ath & Hath & _) _. cbn. split; [done|]. split; [done|]. rewrite lookup_alter_eq.
    destruct (decide (u = a)) as [->|Hne]; [rewrite lookup_alter_eq, Hath; by eexists|].
    rewrite lookup_alter_ne, Hath by done. by eexists.
  - intros (-> & Hx & th & Hth & Hc) [Hxl Hn]%NoDup_cons. cbn. split; [done|]. split; [done|]. exists th.
    rewrite !lookup_alter_ne by (intros ->; apply Hxl, elem_of_app; right; (done || by left)). split; [done|]. by apply IH.
Qed.

Lemma readd_cut s q c p l a l2 :
  rep s q -> q c p = l ++ a :: l2 ->
  exists s', add_to_ready_queue a c s = Ret tt s' /\ rep s' (put_queue q c p (l ++ [a])) /\ keeps (fun x => x ∈ q c p) s s'.
Proof.
  intros Hr Hq. pose proof Hr as [R1 R2 R3 R4 R5 R6]. destruct (R5 c p) as [Hc Hp]; [rewrite Hq; by destruct l|].
  destruct (R4 c p a) as (ath & Ha & Hpa); [rewrite Hq; set_solver-|]. subst p.
  destruct (add_run s a ath c (q c (priority ath)) Ha R6 Hc Hp (R1 _ _) (R2 _ _)) as (s' & E & Hth & Hs & Hrq).
  assert (Hk : keeps (fun x => x ∈ q c (priority ath)) s s').
  { split; [|intros; rewrite Hth; apply link_last_next|done]. intros x Hx. rewrite Hth. apply link_last_other; [|done]. intros ->. apply Hx. rewrite Hq. set_solver-. }
  exists s'. split; [done|]. split; [|done].
  assert (Hne : q c (priority ath) <> []) by (rewrite Hq; by destruct l).
  eapply rep_change; [done| |done|done| | | |].
  - eapply keeps_weaken; [|exact Hk]. tauto.
  - rewrite Hth, Hrq, decide_False by tauto. specialize (R1 c (priority ath)). specialize (R2 c (priority ath)). rewrite Hq in *. by apply link_last_cut.
  - specialize (R2 c (priority ath)). rewrite Hq, cons_middle, app_assoc in R2. by apply NoDup_app in R2 as (? & _).
  - intros c' p' Hne'. by rewrite Hrq, decide_False by tauto.
  - intros x Hx. assert (Hx' : x ∈ q c (priority ath)) by (rewrite Hq; apply elem_of_app in Hx as [?|?%list_elem_of_singleton]; [apply elem_of_app; by left|subst; set_solver-]).
    split; [intros; by eapply R3|by apply (R4 c)].
Qed.

(** Processor [c] runs [a], one of the threads [ts] of the highest priority in use. *)
Record round (s : sched) (q : queues) (c p : Z) (ts : list Z) (a : Z) : Prop := {
  round_rep : rep s q;
  round_queue : q c p = ts;
  round_top : forall p', p < p' -> q c p' = [];
  round_member : a ∈ ts;
  round_current : current_thread (rqs s c) = a;
  round_idle : idle_thread (rqs s c) ∉ ts
}.

(** The state of the old thread after it has been put back. *)
Definition demoted (x : option thread_state_t) : option thread_state_t :=
  if decide (x = Some THREAD_STATE_RUNNING) then Some THREAD_STATE_READY else x.

(** The first part of [scheduler_schedule]. *)
Definition put_back (cpu old idle : Z) (t : thread_t) : M unit :=
  if bool_decide (state t = THREAD_STATE_RUNNING) then
    update_thread old (fun t => with_state t THREAD_STATE_READY);;;
    if negb (old =? idle) then add_to_ready_queue old cpu else ret tt
  else ret tt.

Lemma put_back_run s q c p l a ath :
  round s q c p (l ++ [a]) a -> threads s !! a = Some ath ->
  exists s', put_back c a (idle_thread (rqs s c)) ath s = Ret tt s' /\ rep s' q /\ same_rest s s' /\
    (forall y, st s' y = if decide (y = a) then demoted (st s a) else st s y).
Proof.
  intros [R Hq Ht _ Hc Hi] Ha. unfold put_back, demoted, st. rewrite Ha. cbn [fmap option_fmap option_map]. case_bool_decide as Hs.
  - erewrite bind_run by (eapply update_thread_run, Ha). assert (a <> idle_thread (rqs s c)) by (intros E; apply Hi; rewrite <- E; set_solver-). if_lia.
    set (s1 := set_threads s (alter (fun t => with_state t THREAD_STATE_READY) a (threads s))).
    destruct (readd_spec s1 q c p l a) as (s' & E & Hr & Hk); [by apply rep_alter|done|]. exists s'. split; [done|]. split; [done|]. split; [eapply same_rest_trans; [|apply Hk]; by split|].
    intros y. fold (st s' y). rewrite (keeps_st _ _ _ _ Hk). unfold s1. rewrite st_alter. case_decide; [|done]. subst y. unfold st. rewrite Ha. rewrite decide_True by (by rewrite Hs). done.
  - exists s. split; [done|]. split; [done|]. split; [apply same_rest_refl|]. intros y. case_decide; [|done]. subst y. rewrite Ha, decide_False by congruence. done.
Qed.

Lemma scheduler_schedule_eq c : 0 <= c < MAX_CPUS -> scheduler_schedule c =
  (rq <~ get (fun s => rqs s c);;
   if current_thread rq =? 0 then update_rq c (fun q => with_current q (idle_thread q));;; ret None
   else
     t <~ thread_at (current_thread rq);; put_back c (current_thread rq) (idle_thread rq) t;;;
     new_thread <~ pick_next_thread c;;
     if new_thread =? current_thread rq then ret None
     else
       update_thread new_thread (fun t => with_state t THREAD_STATE_RUNNING);;;
       update_rq c (fun q => with_current q new_thread);;;
       ret (Some (current_thread rq, new_thread))).
Proof. intros Hc. unfold scheduler_schedule, get_current_runqueue, MAX_CPUS in *. by if_lia. Qed.

(** The second part of [scheduler_schedule]. *)
Definition switch (c old : Z) : M (option (Z * Z)) :=
  new_thread <~ pick_next_thread c;;
  if new_thread =? old then ret None
  else
    update_thread new_thread (fun t => with_state t THREAD_STATE_RUNNING);;;
    update_rq c (fun q => with_current q new_thread);;;
    ret (Some (old, new_thread)).

Lemma switch_run s q c p h l a x :
  rep s q -> q c p = h :: l -> (forall p', p < p' -> q c p' = []) -> h <> a -> h <> idle_thread (rqs s c) -> st s h = Some x ->
  exists s', switch c a s = Ret (Some (a, h)) s' /\ rep s' (put_queue q c p (if decide (x = THREAD_STATE_READY) then l ++ [h] else l)) /\
    current_thread (rqs s' c) = h /\ idle_thread (rqs s' c) = idle_thread (rqs s c) /\
    (forall y, st s' y = if decide (y = h) then Some THREAD_STATE_RUNNING else st s y).
Proof.
  intros R Hq Ht Ha Hi Hx. unfold switch. destruct (threads s !! h) as [hth|] eqn:Hh; [|unfold st in Hx; by rewrite Hh in Hx].
  pose proof Hx as Hst. unfold st in Hst. rewrite Hh in Hst. injection Hst as Hst.
  destruct (pick_found s q c p h hth l R Hq Hh Ht) as (s2 & E2 & R2 & K2). erewrite bind_run by exact E2. if_lia.
  destruct (keeps_field _ _ _ _ _ K2 Hh) as [n Hn2]. erewrite bind_run by (eapply update_thread_run, Hn2). sstep.
  eexists. split; [reflexivity|]. sproj. rewrite aset_eq. cbn [current_thread idle_thread with_current]. split; [|split; [done|split]].
  - assert (Hreq : requeued s c h hth = bool_decide (x = THREAD_STATE_READY)).
    { unfold requeued. rewrite Hst. by rewrite (proj2 (Z.eqb_neq _ _)) by done. }
    rewrite Hreq in R2. replace (if bool_decide _ then _ else _) with (if decide (x = THREAD_STATE_READY) then l ++ [h] else l) in R2
      by (case_bool_decide; case_decide; done).
    eapply rep_same; [apply (rep_alter s2 _ h (fun t => with_state t THREAD_STATE_RUNNING)); [done|exact R2]|done| |done].
    intros c' p'. sproj. unfold aset. by destruct (Z.eqb_spec c' c) as [->|].
  - by destruct (same_rq _ _ (keeps_rest _ _ _ K2) c) as (_ & _ & ->).
  - intros y. etransitivity; [apply (st_alter s2 h THREAD_STATE_RUNNING y)|]. rewrite (keeps_st _ _ _ _ K2). destruct (decide (y = h)) as [->|]; [|done].
    by rewrite Hx.
Qed.

(** One call of the scheduler with several threads in the queue. *)
Lemma schedule_step s q c p h l a x :
  round s q c p (h :: l ++ [a]) a -> st s h = Some x ->
  exists s', scheduler_schedule c s = Ret (Some (a, h)) s' /\
    rep s' (put_queue q c p (if decide (x = THREAD_STATE_READY) then l ++ [a; h] else l ++ [a])) /\
    current_thread (rqs s' c) = h /\ idle_thread (rqs s' c) = idle_thread (rqs s c) /\
    (forall y, st s' y = if decide (y = h) then Some THREAD_STATE_RUNNING else if decide (y = a) then demoted (st s a) else st s y).
Proof.
  intros Hro Hx. pose proof Hro as [R Hq Ht _ Hcur Hi]. destruct (rep_range _ _ R c p) as [Hc Hp]; [by rewrite Hq|].
  pose proof (rep_chain _ _ R c p) as Hch. pose proof (rep_nodup _ _ R c p) as Hn. rewrite Hq in Hch, Hn.
  destruct (chain_present _ _ _ a Hch ltac:(set_solver-)) as [Ha0 [ath Ha]].
  assert (h <> a) by (apply NoDup_cons in Hn as [Hn _]; intros ->; apply Hn; set_solver-).
  assert (h <> idle_thread (rqs s c)) by (intros E; apply Hi; rewrite <- E; set_solver-).
  rewrite scheduler_schedule_eq by done. sstep. cbv beta. rewrite Hcur. if_lia. sstep.
  destruct (put_back_run s q c p (h :: l) a ath Hro Ha) as (s1 & E1 & R1 & S1 & T1). erewrite bind_run by exact E1.
  destruct (same_rq _ _ S1 c) as (_ & _ & I1).
  destruct (switch_run s1 q c p h (l ++ [a]) a x) as (s2 & E2 & R2 & C2 & I2 & T2); [done|done|done|done|by rewrite I1|by rewrite T1, decide_False|].
  fold (switch c a). exists s2. split; [done|]. rewrite <- app_assoc in R2. split; [done|]. split; [done|]. split; [congruence|].
  intros y. by rewrite T2, T1.
Qed.

(** Calls of the scheduler, one after the other. *)
Fixpoint schedules (n : nat) (c : Z) : M unit :=
  match n with O => ret tt | S n => scheduler_schedule c;;; schedules n c end.

Definition ready (s : sched) (x : Z) : Prop := st s x = Some THREAD_STATE_READY.

(** As long as the first threads of the queue are ready, each gets its turn. *)
Lemma schedules_rotate c p l1 : forall s q l2 a,
  round s q c p (l1 ++ l2 ++ [a]) a -> Forall (ready s) l1 -> l2 ++ [a] <> [] -> st s a = Some THREAD_STATE_RUNNING ->
  exists s' q' b, schedules (length l1) c s = Ret tt s' /\ round s' q' c p (l2 ++ [a] ++ l1) b /\
    last (a :: l1) = Some b /\ st s' b = Some THREAD_STATE_RUNNING /\
    (forall y, y ∉ l1 -> y <> a -> st s' y = st s y) /\ (forall y, y ∈ a :: l1 -> y <> b -> ready s' y) /\
    (forall c' p', ~ (c' = c /\ p' = p) -> q' c' p' = q c' p').
Proof.
  induction l1 as [|h l1 IH]; intros s q l2 a Hro Hl Hne Ha.
  - exists s, q, a. split; [done|]. rewrite app_nil_r. cbn in Hro. split; [done|]. split; [done|]. split; [done|]. split; [done|]. split; [|done].
    intros y [->|?%elem_of_nil]%elem_of_cons; done.
  - apply Forall_cons in Hl as [Hh Hl]. rewrite app_assoc in Hro. cbn [app] in Hro.
    destruct (schedule_step s q c p h (l1 ++ l2) a THREAD_STATE_READY) as (s1 & E & R1 & C1 & I1 & T1); [exact Hro|done|].
    rewrite decide_True in R1 by done. pose proof Hro as [R Hq Ht _ _ Hi]. pose proof (rep_nodup _ _ R c p) as Hn. rewrite Hq in Hn.
    assert (Hro1 : round s1 (put_queue q c p (l1 ++ l2 ++ [a; h])) c p (l1 ++ (l2 ++ [a]) ++ [h]) h).
    { split; [by rewrite <- app_assoc in R1|rewrite put_queue_eq, <- app_assoc; done| |rewrite !elem_of_app, !list_elem_of_singleton; tauto|done|].
      - intros p' Hp'. rewrite put_queue_ne by lia. by apply Ht.
      - rewrite I1. intros H. apply Hi. clear -H. rewrite !elem_of_app, !list_elem_of_singleton in H. rewrite elem_of_cons, !elem_of_app, !list_elem_of_singleton. tauto. }
    apply NoDup_cons in Hn as [Hhn Hn]. rewrite <- app_assoc in Hhn, Hn.
    assert (Hha : h <> a) by (intros ->; apply Hhn; set_solver-).
    destruct (IH s1 _ (l2 ++ [a]) h Hro1) as (s' & q' & b & E' & R' & B & Hb & Hold & Hnew & Hoth).
    { apply Forall_forall. intros y Hy. unfold ready. rewrite T1. rewrite decide_False by (intros ->; apply Hhn, elem_of_app; by left).
      rewrite decide_False. 2:{ intros ->. apply NoDup_app in Hn as (_ & Hn & _). apply (Hn a Hy). set_solver-. }
      eapply Forall_forall in Hl; [exact Hl|done]. }
    { by destruct l2. }
    { rewrite T1. by rewrite decide_True. }
    exists s', q', b. split; [cbn [length schedules]; by erewrite bind_run by exact E|]. split; [by rewrite <- !app_assoc in *|]. split; [done|]. split; [done|]. split; [|split].
    + intros y [Hyh Hy]%not_elem_of_cons Hya. rewrite Hold by done. by rewrite T1, !decide_False.
    + intros y Hy Hyb. destruct (decide (y ∈ h :: l1)) as [Hy'|Hy']; [by apply Hnew|]. apply elem_of_cons in Hy as [->|Hy]; [|done].
      unfold ready. apply not_elem_of_cons in Hy' as [Hy1 Hy2]. rewrite Hold, T1, decide_False, decide_True by done. unfold demoted. by rewrite decide_True.
    + intros c' p' Hne'. rewrite Hoth by done. by rewrite put_queue_ne.
Qed.

Lemma schedules_add n m c s s' : schedules n c s = Ret tt s' -> schedules (n + m) c s = schedules m c s'.
Proof.
  revert s. induction n as [|n IH]; intros s; [by intros [= ->]|]. cbn [schedules Nat.add]. unfold bind.
  destruct (scheduler_schedule c s) as [r s1| | | |]; try done. apply IH.
Qed.

(** One call of the scheduler with threads queued behind the running one: they are
    cut off. *)
Lemma schedule_cut s q c p h l a l2 :
  round s q c p (h :: l ++ a :: l2) a -> st s a = Some THREAD_STATE_RUNNING -> ready s h ->
  exists s', scheduler_schedule c s = Ret (Some (a, h)) s' /\ round s' (put_queue q c p (l ++ [a; h])) c p (l ++ [a; h]) h /\
    (forall y, st s' y = if decide (y = h) then Some THREAD_STATE_RUNNING else if decide (y = a) then Some THREAD_STATE_READY else st s y).
Proof.
  intros Hro Ha Hh. pose proof Hro as [R Hq Ht _ Hcur Hi]. destruct (rep_range _ _ R c p) as [Hc Hp]; [by rewrite Hq|].
  pose proof (rep_nodup _ _ R c p) as Hn. rewrite Hq in Hn. apply NoDup_cons in Hn as [Hhn Hn].
  assert (Hha : h <> a) by (intros ->; apply Hhn; set_solver-).
  assert (Hsub : forall x, x ∈ l ++ [a; h] -> x ∈ h :: l ++ a :: l2).
  { intros x. rewrite !elem_of_app, !elem_of_cons, elem_of_nil, elem_of_app, elem_of_cons. tauto. }
  assert (Hai : a <> idle_thread (rqs s c)) by (intros E; apply Hi; rewrite <- E; apply Hsub; set_solver-).
  assert (Hhi : h <> idle_thread (rqs s c)) by (intros E; apply Hi; rewrite <- E; by left).
  unfold st in Ha. destruct (threads s !! a) as [ath|] eqn:Hath; [|done]. injection Ha as Hsa.
  pose proof (rep_chain _ _ R c p) as Hch. rewrite Hq in Hch. destruct (chain_present _ _ _ a Hch ltac:(set_solver-)) as [Ha0 _].
  set (s1 := set_threads s (alter (fun t => with_state t THREAD_STATE_READY) a (threads s))).
  destruct (readd_cut s1 q c p (h :: l) a l2) as (s2 & E2 & R2 & K2); [by apply rep_alter|done|].
  assert (T2 : forall y, st s2 y = if decide (y = a) then Some THREAD_STATE_READY else st s y).
  { intros y. rewrite (keeps_st _ _ _ _ K2). unfold s1. rewrite st_alter. case_decide; [|done]. subst y. unfold st. by rewrite Hath. }
  destruct (same_rq _ _ (keeps_rest _ _ _ K2) c) as (_ & _ & I2). change (rqs s1 c) with (rqs s c) in I2.
  destruct (switch_run s2 (put_queue q c p (h :: l ++ [a])) c p h (l ++ [a]) a THREAD_STATE_READY R2) as (s3 & E3 & R3 & C3 & I3 & T3).
  { by rewrite put_queue_eq. } { intros p' Hp'. rewrite put_queue_ne by lia. by apply Ht. } { done. } { congruence. } { by rewrite T2, decide_False. }
  rewrite decide_True, <- app_assoc in R3 by done. exists s3. split; [|split; [split|]].
  - rewrite scheduler_schedule_eq by done. sstep. cbv beta. rewrite Hcur. if_lia. erewrite bind_run by (apply thread_at_run, Hath).
    erewrite bind_run; [exact E3|]. unfold put_back. rewrite bool_decide_true by done. erewrite bind_run by (eapply update_thread_run, Hath). if_lia. exact E2.
  - eapply rep_ext; [|exact R3]. intros c' p'. unfold put_queue. by repeat case_decide.
  - apply put_queue_eq.
  - intros p' Hp'. rewrite put_queue_ne by lia. by apply Ht.
  - rewrite elem_of_app, !elem_of_cons. tauto.
  - done.
  - rewrite I3, I2. intros H. by apply Hi, Hsub.
  - intros y. by rewrite T3, T2.
Qed.

(** C23. Round robin.  Let the run queues be well formed and the running thread [a] be
    in its queue, that of the highest priority in use, without the idle thread, with the
    threads [l] before it, at least one and all of them ready, and [l2] behind it.  Then [S i] calls of the scheduler run the threads of [l] and then [a] in turn, over
    and over in this order; the other queues do not change; and the threads behind the
    running one are cut off by the first call: they are in no queue any more. *)
Theorem schedule_round_robin s q c p l a l2 i h :
  round s q c p (l ++ a :: l2) a -> l <> [] -> Forall (ready s) l -> st s a = Some THREAD_STATE_RUNNING -> (l ++ [a]) !! i = Some h ->
  exists s' q', schedules (S i) c s = Ret tt s' /\ current_thread (rqs s' c) = h /\ st s' h = Some THREAD_STATE_RUNNING /\
    rep s' q' /\ q' c p = drop (S i) (l ++ [a]) ++ take (S i) (l ++ [a]) /\ (forall c' p', ~ (c' = c /\ p' = p) -> q' c' p' = q c' p') /\
    (forall t, t ∈ l2 -> unqueued q' t).
Proof.
  intros Hro Hne Hl Ha Hi. destruct l as [|h0 l]; [done|]. apply Forall_cons in Hl as [Hh0 Hl]. cbn [app] in Hro, Hi |- *.
  pose proof (rep_nodup _ _ (round_rep _ _ _ _ _ _ Hro) c p) as Hn. rewrite (round_queue _ _ _ _ _ _ Hro) in Hn.
  destruct (schedule_cut s q c p h0 l a l2 Hro Ha Hh0) as (s1 & E1 & Hro1 & T1).
  set (m := l ++ [a]) in *. replace (l ++ [a; h0]) with (take i m ++ drop i m ++ [h0]) in Hro1 by (unfold m; by rewrite app_assoc, take_drop, <- app_assoc).
  assert (Hm : Forall (ready s1) m).
  { apply NoDup_cons in Hn as [Hh Hn]. apply Forall_app. split.
    - apply Forall_forall. intros y Hy. unfold ready. rewrite T1, !decide_False; [by apply (Forall_forall (ready s) l)| |].
      + intros ->. apply NoDup_app in Hn as (_ & Hn & _). apply (Hn a Hy). by left.
      + intros ->. apply Hh, elem_of_app. by left.
    - apply Forall_singleton. unfold ready. rewrite T1, decide_False, decide_True; [done|done|]. intros ->. apply Hh. set_solver-. }
  destruct (schedules_rotate c p (take i m) s1 _ (drop i m) h0 Hro1) as (s' & q' & b & E & R & B & Sb & _ & _ & Ho);
    [by apply Forall_take|by destruct (drop i m)|by rewrite T1, decide_True|].
  assert (Hlen : (i <= length m)%nat) by (apply lookup_lt_Some in Hi; cbn in Hi; lia). rewrite length_take_le in E by done.
  assert (b = h) as ->.
  { destruct i as [|i]; [rewrite take_0 in B; cbn in Hi, B; congruence|]. cbn in Hi. rewrite (take_S_r _ _ _ Hi), app_comm_cons, last_snoc in B. congruence. }
  assert (Hq' : q' c p = drop i m ++ h0 :: take i m) by apply R.
  exists s', q'. split; [cbn [schedules]; by erewrite bind_run by exact E1|]. split; [apply R|]. split; [done|]. split; [apply R|]. split; [done|].
  assert (Hoth : forall c' p', ~ (c' = c /\ p' = p) -> q' c' p' = q c' p') by (intros; rewrite Ho by done; by apply put_queue_ne).
  split; [done|]. intros t Ht c' p' Hin. destruct (decide (c' = c /\ p' = p)) as [[-> ->]|Hcp].
  - rewrite Hq' in Hin. assert (Hin' : t ∈ h0 :: l ++ [a]).
    { fold m. rewrite <- (take_drop i m). rewrite elem_of_app, elem_of_cons in Hin. rewrite elem_of_cons, elem_of_app. tauto. }
    rewrite cons_middle, app_assoc, app_comm_cons in Hn. apply NoDup_app in Hn as (_ & Hn & _). by apply (Hn t Hin').
  - rewrite Hoth in Hin by done. apply Hcp. apply (rep_disjoint _ _ (round_rep _ _ _ _ _ _ Hro) c' p' c p t Hin).
    rewrite (round_queue _ _ _ _ _ _ Hro). right. apply elem_of_app. right. by right.
Qed.

(** Picking the next thread: the head of the highest non-empty queue, which goes to
    the end of its queue if it is ready and not the idle thread and leaves it
    otherwise; no other queue and no field but the links changes.  When all queues
    are empty the idle thread is returned, with the lock of the run queue still held. *)
Theorem pick_next_thread_correct s q c :
  rep s q -> 0 <= c < MAX_CPUS ->
  (forall p h l th, q c p = h :: l -> (forall p', p < p' -> q c p' = []) -> threads s !! h = Some th ->
   exists s', pick_next_thread c s = Ret h s' /\
     rep s' (put_queue q c p (if negb (h =? idle_thread (rqs s c)) && bool_decide (state th = THREAD_STATE_READY) then l ++ [h] else l)) /\
     keeps (fun x => x ∈ q c p) s s') /\
  ((forall p, q c p = []) ->
   exists s', pick_next_thread c s = Ret (idle_thread (rqs s c)) s' /\ threads s' = threads s /\ held s' (RqLock c) = true).
Proof.
  intros Hr Hc. split.
  - intros p h l th Hq Ht Hh. exact (pick_found s q c p h th l Hr Hq Hh Ht).
  - intros He. exists (locked s (RqLock c)). split; [by apply (pick_none s q)|]. split; [done|]. cbn. by rewrite decide_True.
Qed.

(** A thread in the queue that is neither ready nor running is run when its turn comes. *)
Lemma runs_again s q c p h l a x :
  round s q c p (h :: l ++ [a]) a -> Forall (ready s) (h :: l) -> st s a = Some x -> x <> THREAD_STATE_READY -> x <> THREAD_STATE_RUNNING ->
  exists s1, scheduler_schedule c s = Ret (Some (a, h)) s1 /\
    exists s2, schedules (S (length l)) c s1 = Ret tt s2 /\ current_thread (rqs s2 c) = a /\ st s2 a = Some THREAD_STATE_RUNNING.
Proof.
  intros Hro [Hh Hl]%Forall_cons Ha Hx1 Hx2. pose proof Hro as [R Hq Ht _ _ Hi]. pose proof (rep_nodup _ _ R c p) as Hn. rewrite Hq in Hn.
  apply NoDup_cons in Hn as [Hhn Hn]. assert (Hla : a ∉ l). { intros H. apply NoDup_app in Hn as (_ & Hn & _). apply (Hn a H). set_solver-. }
  assert (Hha : a <> h) by (intros ->; apply Hhn; set_solver-).
  destruct (schedule_step s q c p h l a _ Hro Hh) as (s1 & E1 & R1 & C1 & I1 & T1). rewrite decide_True in R1 by done.
  exists s1. split; [done|].
  assert (Hro1 : round s1 (put_queue q c p (l ++ [a; h])) c p (l ++ [a] ++ [h]) h).
  { split; [done|by rewrite put_queue_eq| |rewrite !elem_of_app, !list_elem_of_singleton; tauto|done|].
    - intros p' Hp'. rewrite put_queue_ne by lia. by apply Ht.
    - rewrite I1. intros H. apply Hi. clear -H. rewrite !elem_of_app, !list_elem_of_singleton in H. rewrite elem_of_cons, !elem_of_app, !list_elem_of_singleton. tauto. }
  destruct (schedules_rotate c p l s1 _ [a] h Hro1) as (s2 & q2 & b & E2 & R2 & B & Sb & Ho & _ & _).
  { apply Forall_forall. intros y Hy. unfold ready. rewrite T1. rewrite decide_False by (intros ->; apply Hhn, elem_of_app; by left).
    rewrite decide_False by (by intros ->). eapply Forall_forall in Hl; [exact Hl|done]. } { done. } { by rewrite T1, decide_True. }
  assert (Ha2 : st s2 a = Some x). { rewrite Ho, T1, decide_False, decide_True by done. unfold demoted. rewrite decide_False by congruence. done. }
  assert (exists m, [h] ++ l = m ++ [b]) as [m Hm].
  { apply last_Some in B as [m Hm]. by exists m. }
  rewrite Hm in R2. destruct (schedule_step s2 q2 c p a m b x R2 Ha2) as (s3 & E3 & _ & C3 & _ & T3).
  exists s3. split; [|split; [done|by rewrite T3, decide_True]].
  replace (S (length l)) with (length l + 1)%nat by lia. rewrite (schedules_add _ _ _ _ _ E2). cbn [schedules]. by erewrite bind_run by exact E3.
Qed.

(** The last thread of a queue has no successor. *)
Lemma round_tail s q c p l a : round s q c p (l ++ [a]) a -> a <> 0 /\ exists ath, threads s !! a = Some ath /\ next ath = 0.
Proof.
  intros [R Hq _ _ _ _]. pose proof (rep_chain _ _ R c p) as Hch. rewrite Hq in Hch. apply chain_app in Hch as (r & _ & -> & Ha0 & ath & Ha & Hn). eauto.
Qed.

(** A round does not depend on the fields that sleeping, blocking and exiting set. *)
Lemma round_alter s q c p ts a t f :
  (forall th, next (f th) = next th /\ priority (f th) = priority th) -> round s q c p ts a -> round (set_threads s (alter f t (threads s))) q c p ts a.
Proof. intros Hf [R H1 H2 H3 H4 H5]. split; [by apply rep_alter|done..]. Qed.

Lemma round_same s s' q c p ts a :
  round s q c p ts a -> threads s' = threads s -> (forall l, held s' l = held s l) ->
  (forall c, ready_queues (rqs s' c) = ready_queues (rqs s c) /\ current_thread (rqs s' c) = current_thread (rqs s c) /\ idle_thread (rqs s' c) = idle_thread (rqs s c)) ->
  round s' q c p ts a.
Proof.
  intros [R H1 H2 H3 H4 H5] Ht Hh Hq. destruct (Hq c) as (_ & Q1 & Q2). split; [|done|done|done|congruence|by rewrite Q2].
  apply (rep_same s); [done|done| |done]. intros c' p'. by destruct (Hq c') as (-> & _).
Qed.

Lemma alter_next_same (m : gmap Z thread_t) a ath : m !! a = Some ath -> next ath = 0 -> alter (fun t => with_next t 0) a m = m.
Proof.
  intros Ha Hn. apply map_eq. intros x. destruct (decide (x = a)) as [->|]; [|by rewrite lookup_alter_ne]. rewrite lookup_alter_eq, Ha. cbn. f_equal.
  destruct ath. cbn in *. by subst.
Qed.

(** The ways a thread gives up the processor, up to the call of the scheduler. *)
Lemma sleep_prefix s q c p l a ticks ms :
  round s q c p (l ++ [a]) a -> held s SleepLock = false -> sleeping_queue s = 0 -> ms <> 0 ->
  exists s', thread_sleep c ticks ms s = scheduler_schedule c s' /\ round s' q c p (l ++ [a]) a /\
    (forall y, st s' y = if decide (y = a) then Some THREAD_STATE_SLEEPING else st s y).
Proof.
  intros Hro Hlk Hsl Hms. destruct (round_tail _ _ _ _ _ _ Hro) as (Ha0 & ath & Ha & Hn). pose proof Hro as [R Hq _ _ Hcur _].
  destruct (rep_range _ _ R c p) as [Hc _]; [rewrite Hq; by destruct l|]. unfold thread_sleep, thread_current, get_current_runqueue, MAX_CPUS in *. if_lia. if_lia.
  sstep. cbv beta. rewrite Hcur. erewrite bind_run by (eapply update_thread_run, Ha). set (f := fun t => with_wakeup_time t _). set (s1 := set_threads s _).
  erewrite bind_run by (eapply (update_thread_run _ (f ath)); unfold s1; sproj; by rewrite lookup_alter_eq, Ha). set (g := fun t => with_state t THREAD_STATE_SLEEPING). set (s2 := set_threads s1 _).
  assert (Ha2 : threads s2 !! a = Some (g (f ath))). { unfold s2, s1. sproj. by rewrite !lookup_alter_eq, Ha. }
  erewrite bind_run by (apply lock_run; unfold s2, s1; sproj; exact Hlk). sstep. cbv beta. sproj. change (sleeping_queue s2) with (sleeping_queue s). rewrite Hsl.
  erewrite bind_run by (eapply update_thread_run; sproj; exact Ha2). sproj. rewrite (alter_next_same _ _ _ Ha2) by done. sstep. sstep.
  eexists. split; [reflexivity|]. split.
  - apply (round_same s2); [|done|apply (relock s2), Hlk|done]. apply round_alter; [done|]. by apply round_alter.
  - intros y. unfold st. sproj. unfold s2, s1. sproj. destruct (decide (y = a)) as [->|]; [by rewrite !lookup_alter_eq, Ha|by rewrite !lookup_alter_ne by done].
Qed.

Lemma block_prefix s q c p l a :
  round s q c p (l ++ [a]) a -> blocked_queue (rqs s c) = 0 ->
  exists s', thread_block c s = scheduler_schedule c s' /\ round s' q c p (l ++ [a]) a /\
    (forall y, st s' y = if decide (y = a) then Some THREAD_STATE_BLOCKED else st s y).
Proof.
  intros Hro Hbl. destruct (round_tail _ _ _ _ _ _ Hro) as (Ha0 & ath & Ha & Hn). pose proof Hro as [R Hq _ _ Hcur _].
  destruct (rep_range _ _ R c p) as [Hc _]; [rewrite Hq; by destruct l|]. unfold thread_block, thread_current, get_current_runqueue, MAX_CPUS in *. if_lia.
  sstep. cbv beta. rewrite Hcur. erewrite bind_run by (eapply update_thread_run, Ha). set (g := fun t => with_state t THREAD_STATE_BLOCKED). set (s1 := set_threads s _).
  assert (Ha1 : threads s1 !! a = Some (g ath)). { unfold s1. sproj. by rewrite !lookup_alter_eq, Ha. }
  erewrite bind_run by (apply lock_run; unfold s1; sproj; apply R). sstep. cbv beta. sproj. change (rqs s1 c) with (rqs s c). rewrite Hbl.
  erewrite bind_run by (eapply update_thread_run; sproj; exact Ha1). sproj. rewrite (alter_next_same _ _ _ Ha1) by done. sstep. sstep.
  eexists. split; [reflexivity|]. split.
  - apply (round_same s1); [by apply round_alter|done|apply (relock s1), R|]. intros c'. sproj. change (rqs s1) with (rqs s). unfold aset. by destruct (Z.eqb_spec c' c) as [->|].
  - intros y. unfold st. sproj. unfold s1. sproj. destruct (decide (y = a)) as [->|]; [by rewrite !lookup_alter_eq, Ha|by rewrite !lookup_alter_ne by done].
Qed.

Lemma exit_prefix s q c p l a ath :
  round s q c p (l ++ [a]) a -> held s TableLock = false -> threads s !! a = Some ath -> tid ath < MAX_THREADS ->
  exists s', thread_exit c s = (r <~ scheduler_schedule c;; match r with Some p => ret p | None => stop Panic end) s' /\ round s' q c p (l ++ [a]) a /\
    (forall y, st s' y = if decide (y = a) then Some THREAD_STATE_DEAD else st s y).
Proof.
  intros Hro Hlk Ha Htid. pose proof Hro as [R Hq _ _ Hcur _].
  destruct (rep_range _ _ R c p) as [Hc _]; [rewrite Hq; by destruct l|]. unfold thread_exit, thread_current, get_current_runqueue, MAX_CPUS in *. if_lia.
  sstep. cbv beta. rewrite Hcur. erewrite bind_run by (eapply update_thread_run, Ha). set (g := fun t => with_state t THREAD_STATE_DEAD). set (s1 := set_threads s _).
  erewrite bind_run by (apply lock_run; unfold s1; sproj; exact Hlk). erewrite bind_run by (apply (thread_at_run _ (g ath)); unfold s1; sproj; by rewrite !lookup_alter_eq, Ha).
  cbn [tid g with_state]. if_lia. sstep. sstep. eexists. split; [reflexivity|]. split.
  - apply (round_same s1); [by apply round_alter|done|apply (relock s1), Hlk|done].
  - intros y. unfold st. sproj. unfold s1. sproj. destruct (decide (y = a)) as [->|]; [by rewrite !lookup_alter_eq, Ha|by rewrite !lookup_alter_ne by done].
Qed.

(** A thread that sleeps, blocks or exits stays in its ready queue and is run again
    after one round of the other threads of its priority: whatever the time it asked
    to sleep, without a wake-up, and after it has exited. *)
Theorem suspended_thread_runs_again s q c p h l a :
  round s q c p (h :: l ++ [a]) a -> Forall (ready s) (h :: l) ->
  (forall ticks ms, ms <> 0 -> held s SleepLock = false -> sleeping_queue s = 0 ->
   exists s1 s2, thread_sleep c ticks ms s = Ret (Some (a, h)) s1 /\ schedules (S (length l)) c s1 = Ret tt s2 /\ current_thread (rqs s2 c) = a) /\
  (blocked_queue (rqs s c) = 0 ->
   exists s1 s2, thread_block c s = Ret (Some (a, h)) s1 /\ schedules (S (length l)) c s1 = Ret tt s2 /\ current_thread (rqs s2 c) = a) /\
  (forall ath, held s TableLock = false -> threads s !! a = Some ath -> tid ath < MAX_THREADS ->
   exists s1 s2, thread_exit c s = Ret (a, h) s1 /\ schedules (S (length l)) c s1 = Ret tt s2 /\ current_thread (rqs s2 c) = a).
Proof.
  intros Hro Hl. pose proof Hro as [R Hq _ _ _ _]. pose proof (rep_nodup _ _ R c p) as Hn. rewrite Hq in Hn.
  assert (Hal : a ∉ h :: l). { rewrite app_comm_cons in Hn. intros H. apply NoDup_app in Hn as (_ & Hn & _). apply (Hn a H). set_solver-. }
  assert (Hrun : forall s' x, round s' q c p (h :: l ++ [a]) a -> (forall y, st s' y = if decide (y = a) then Some x else st s y) ->
    x <> THREAD_STATE_READY -> x <> THREAD_STATE_RUNNING -> exists s1, scheduler_schedule c s' = Ret (Some (a, h)) s1 /\
    exists s2, schedules (S (length l)) c s1 = Ret tt s2 /\ current_thread (rqs s2 c) = a /\ st s2 a = Some THREAD_STATE_RUNNING).
  { intros s' x Hro' Hst Hx1 Hx2. apply (runs_again s' q c p h l a x); [done| |by rewrite Hst, decide_True|done|done].
    apply Forall_forall. intros y Hy. unfold ready. rewrite Hst, decide_False by (by intros ->). eapply Forall_forall in Hl; [exact Hl|done]. }
  rewrite app_comm_cons in Hro. split; [|split].
  - intros ticks ms Hms Hlk Hsl. destruct (sleep_prefix s q c p (h :: l) a ticks ms Hro Hlk Hsl Hms) as (s' & -> & Hro' & Hst).
    destruct (Hrun s' _ Hro' Hst) as (s1 & E1 & s2 & E2 & C2 & _); [done|done|]. by exists s1, s2.
  - intros Hbl. destruct (block_prefix s q c p (h :: l) a Hro Hbl) as (s' & -> & Hro' & Hst).
    destruct (Hrun s' _ Hro' Hst) as (s1 & E1 & s2 & E2 & C2 & _); [done|done|]. by exists s1, s2.
  - intros ath Hlk Ha Htid. destruct (exit_prefix s q c p (h :: l) a ath Hro Hlk Ha Htid) as (s' & -> & Hro' & Hst).
    destruct (Hrun s' _ Hro' Hst) as (s1 & E1 & s2 & E2 & C2 & _); [done|done|]. exists s1, s2. split; [by erewrite bind_run by exact E1|done].
Qed.

(** A call of the scheduler that finds the current thread alone in its queue. *)
Lemma schedule_alone s q c p a x :
  round s q c p [a] a -> st s a = Some x -> exists s', scheduler_schedule c s = Ret None s'.
Proof.
  intros Hro Hx. pose proof Hro as [R Hq Ht _ Hcur _]. destruct (rep_range _ _ R c p) as [Hc _]; [by rewrite Hq|].
  destruct (round_tail s q c p [] a Hro) as (Ha0 & ath & Ha & _). rewrite scheduler_schedule_eq by done. sstep. cbv beta. rewrite Hcur. if_lia. sstep.
  destruct (put_back_run s q c p [] a ath Hro Ha) as (s1 & E1 & R1 & S1 & T1). erewrite bind_run by exact E1.
  assert (exists ath1, threads s1 !! a = Some ath1) as [ath1 Ha1].
  { destruct (rep_priority _ _ R1 c p a) as (th & ? & _); [rewrite Hq; by left|]. by exists th. }
  destruct (pick_found s1 q c p a ath1 [] R1 Hq Ha1 Ht) as (s2 & E2 & _ & _). erewrite bind_run by exact E2. rewrite Z.eqb_refl. by exists s2.
Qed.

(** A thread that exits while it is alone in the highest queue in use stops the
    kernel: it is picked again, [scheduler_schedule] returns and [kpanic] is called. *)
Theorem lone_thread_exit_panics s q c p a ath :
  round s q c p [a] a -> held s TableLock = false -> threads s !! a = Some ath -> tid ath < MAX_THREADS -> thread_exit c s = Panic.
Proof.
  intros Hro Hlk Ha Htid. destruct (exit_prefix s q c p [] a ath Hro Hlk Ha Htid) as (s' & -> & Hro' & Hst).
  destruct (schedule_alone s' q c p a THREAD_STATE_DEAD Hro') as [s2 E]; [by rewrite Hst, decide_True|]. by erewrite bind_run by exact E.
Qed.

(** ** Creating a thread *)

Lemma thread_create_spec s q wrapper c entry arg prio b stack mem :
  rep s q -> held s TableLock = false -> 0 <= c < MAX_CPUS -> 0 <= prio < 128 -> b <> 0 -> stack <> 0 -> threads s !! b = None -> next_tid s < MAX_THREADS ->
  exists s', thread_create wrapper c entry arg prio b stack mem s = Ret (next_tid s) s' /\ rep s' (put_queue q c prio (q c prio ++ [b])) /\
    (forall c', current_thread (rqs s' c') = current_thread (rqs s c') /\ idle_thread (rqs s' c') = idle_thread (rqs s c')) /\
    (forall y, st s' y = if decide (y = b) then Some THREAD_STATE_READY else st s y) /\
    thread_table s' (next_tid s) = b /\ next_tid s' = u64 (next_tid s + 1).
Proof.
  intros R Hlk Hc Hp Hb Hst Hf Htid. unfold thread_create. if_lia. if_lia. sstep. sstep. cbv beta. sproj. if_lia. cbv zeta. sstep. sstep.
  erewrite bind_run by (apply lock_run; sproj; exact Hlk). sstep. sstep. sproj. match goal with |- exists s', bind _ _ ?x = _ /\ _ => set (s1 := x) end.
  set (bth := {| tid := next_tid s |}) in s1.
  assert (Hno : unqueued q b). { intros c' p' H. apply (rep_priority _ _ R) in H as (th & Hth & _). congruence. }
  assert (R1 : rep s1 q).
  { destruct R as [R1 R2 R3 R4 R5 R6]. split; [|done|done| |done|intros c'; exact (R6 c')].
    - intros c' p'. unfold s1. sproj. apply chain_insert; [apply Hno|apply R1].
    - intros c' p' t Ht. destruct (R4 c' p' t Ht) as (th & Hth & Hpr). exists th. split; [|done]. unfold s1. sproj. rewrite lookup_insert_ne; [done|]. intros <-. by apply Hno in Ht. }
  destruct (add_ready_spec s1 q b bth c R1) as (s2 & E & R2 & K2); [unfold s1; sproj; by rewrite lookup_insert_eq|done|done|done|done|].
  erewrite bind_run by exact E. exists s2. split; [done|]. split; [done|]. split; [|split; [|split]].
  - intros c'. by destruct (same_rq _ _ (keeps_rest _ _ _ K2) c') as (_ & -> & ->).
  - intros y. rewrite (keeps_st _ _ _ _ K2). unfold st, s1. sproj. destruct (decide (y = b)) as [->|]; [by rewrite lookup_insert_eq|by rewrite lookup_insert_ne by done].
  - destruct (same_table _ _ (keeps_rest _ _ _ K2)) as (-> & _ & _). unfold s1. sproj. apply aset_eq.
  - by destruct (same_table _ _ (keeps_rest _ _ _ K2)) as (_ & -> & _).
Qed.

(** A thread of the priority of the running thread, created by it, is lost at the
    next call of the scheduler: the running thread is linked behind it although it is
    already in the queue before it.  The new thread is ready and in no queue. *)
Theorem created_thread_lost s q wrapper c entry arg p h l a b stack mem :
  round s q c p (h :: l ++ [a]) a -> st s a = Some THREAD_STATE_RUNNING -> Forall (ready s) (h :: l) ->
  held s TableLock = false -> b <> 0 -> stack <> 0 -> threads s !! b = None -> next_tid s < MAX_THREADS ->
  exists s1 s2 q2, thread_create wrapper c entry arg p b stack mem s = Ret (next_tid s) s1 /\
    scheduler_schedule c s1 = Ret (Some (a, h)) s2 /\ st s2 b = Some THREAD_STATE_READY /\ rep s2 q2 /\ unqueued q2 b /\
    q2 c p = l ++ [a; h].
Proof.
  intros Hro Ha Hl Hlk Hb Hst Hf Htid. pose proof Hro as [R Hq Ht _ Hcur Hi]. destruct (rep_range _ _ R c p) as [Hc Hp]; [by rewrite Hq|].
  destruct (thread_create_spec s q wrapper c entry arg p b stack mem R Hlk Hc Hp Hb Hst Hf Htid) as (s1 & E1 & R1 & C1 & T1 & _). rewrite Hq in R1. cbn [app] in R1. rewrite <- app_assoc in R1. cbn [app] in R1.
  destruct (C1 c) as [C1c C1i]. set (q1 := put_queue q c p (h :: l ++ [a; b])) in *. assert (Hq1 : q1 c p = h :: l ++ [a; b]) by apply put_queue_eq.
  pose proof (rep_nodup _ _ R1 c p) as Hn. rewrite Hq1 in Hn. rewrite app_comm_cons in Hn. apply NoDup_app in Hn as (Hn & Hd & Hab). apply NoDup_cons in Hab as [Hab _].
  assert (Hab' : b <> a) by (intros ->; apply Hab; by left). assert (Hha : h <> a /\ h <> b). { specialize (Hd h ltac:(by left)). split; intros ->; apply Hd; set_solver-. }
  assert (Hb' : b ∉ h :: l ++ [a]). { rewrite app_comm_cons. intros [H|H%list_elem_of_singleton]%elem_of_app; [|done]. apply (Hd b H). set_solver-. }
  destruct (threads s1 !! a) as [ath|] eqn:Hath; [|specialize (T1 a); rewrite decide_False in T1 by done; unfold st in *; by rewrite Hath, Ha in T1].
  assert (Hsa : state ath = THREAD_STATE_RUNNING). { specialize (T1 a). rewrite decide_False, Ha in T1 by done. unfold st in T1. rewrite Hath in T1. by injection T1. }
  pose proof (rep_chain _ _ R1 c p) as Hch. rewrite Hq1 in Hch. destruct (chain_present _ _ _ a Hch ltac:(set_solver-)) as [Ha0 _].
  assert (Hai : a <> idle_thread (rqs s c)) by (intros E; apply Hi; rewrite <- E; set_solver-).
  assert (Hhi : h <> idle_thread (rqs s c)) by (intros E; apply Hi; rewrite <- E; set_solver-).
  set (s1' := set_threads s1 (alter (fun t => with_state t THREAD_STATE_READY) a (threads s1))).
  destruct (readd_cut s1' q1 c p (h :: l) a [b]) as (s2 & E2 & R2 & K2); [by apply rep_alter|done|].
  assert (T2 : forall y, y <> a -> st s2 y = st s1 y). { intros y Hy. rewrite (keeps_st _ _ _ _ K2). unfold s1'. by rewrite st_alter, decide_False. }
  apply Forall_cons in Hl as [Hh Hl]. destruct (same_rq _ _ (keeps_rest _ _ _ K2) c) as (_ & _ & I2). change (rqs s1' c) with (rqs s1 c) in I2.
  destruct (switch_run s2 (put_queue q1 c p (h :: l ++ [a])) c p h (l ++ [a]) a THREAD_STATE_READY R2) as (s3 & E3 & R3 & C3 & _ & T3).
  { by rewrite put_queue_eq. } { intros p' Hp'. rewrite put_queue_ne by lia. unfold q1. rewrite put_queue_ne by lia. by apply Ht. } { tauto. } { congruence. }
  { rewrite T2, T1, decide_False by tauto. done. }
  rewrite decide_True in R3 by done. rewrite <- app_assoc in R3. exists s1, s3, (put_queue (put_queue q1 c p (h :: l ++ [a])) c p (l ++ [a; h])). split; [done|]. split; [|split; [|split; [done|split; [|by rewrite put_queue_eq]]]].
  - rewrite scheduler_schedule_eq by done. sstep. cbv beta. rewrite C1c, C1i, Hcur. if_lia. erewrite bind_run by (apply thread_at_run, Hath).
    erewrite bind_run; [exact E3|]. unfold put_back. rewrite bool_decide_true by done. erewrite bind_run by (eapply update_thread_run, Hath). if_lia. exact E2.
  - rewrite T3, decide_False by (intros ->; tauto). rewrite T2, T1, decide_True by done. done.
  - intros c' p' H. apply Hb'. apply elem_put_queue in H as [(_ & _ & H)|[Hne H]].
    + clear -H. rewrite !elem_of_app, !elem_of_cons, elem_of_nil in H. rewrite elem_of_cons, !elem_of_app, !list_elem_of_singleton. tauto.
    + rewrite put_queue_ne in H by done. unfold q1 in H. rewrite put_queue_ne in H by done. apply (rep_priority _ _ R) in H as (th & Hth & _). congruence.
Qed.

(** ** Boot *)

(** The static data before [scheduler_init]. *)
Definition sched_zero : sched :=
  {| threads := ∅; rqs := fun _ => {| ready_queues := fun _ => 0; blocked_queue := 0; current_thread := 0; idle_thread := 0; rq_cpu_id := 0 |};
     held := fun _ => false; thread_table := fun _ => 0; next_tid := 1; sleeping_queue := 0; tick_counter := fun _ => 0;
     need_reschedule := fun _ => false; last_balance := 0; steal_start := fun _ => 0; stack_words := fun _ => 0 |}.

(** Only the idle threads of the processors below [n] are ready, and they are current. *)
Record booted (s : sched) (n : Z) (idle : arr Z) : Prop := {
  booted_rep : rep s (fun c p => if decide (0 <= c < n /\ p = 0) then [idle c] else []);
  booted_idle : forall c, 0 <= c < n -> current_thread (rqs s c) = idle c /\ idle_thread (rqs s c) = idle c /\ st s (idle c) = Some THREAD_STATE_READY;
  booted_threads : forall x, is_Some (threads s !! x) -> exists c, 0 <= c < n /\ x = idle c
}.

Lemma init_cpu_step s i idle mem :
  booted s i idle -> 0 <= i < MAX_CPUS -> idle i <> 0 -> (forall c, 0 <= c < i -> idle c <> idle i) ->
  exists s', (unlock (RqLock i);;; update_rq i (clear_runqueue i);;; init_idle_thread_for_cpu i (idle i) mem) s = Ret tt s' /\ booted s' (i + 1) idle.
Proof.
  intros [R B T] Hi Hid Hinj. sstep. sstep. unfold init_idle_thread_for_cpu. if_lia. sstep. eexists. split; [reflexivity|].
  match goal with |- booted ?x _ _ => set (s' := x) end. set (ith := {| tid := i |}) in s'.
  assert (Hf : threads s !! idle i = None).
  { destruct (threads s !! idle i) eqn:E; [|done]. destruct (T (idle i)) as (c & Hc & E'); [by rewrite E|]. by destruct (Hinj c Hc). }
  assert (Hrq : forall c, c <> i -> rqs s' c = rqs s c). { intros c Hc. unfold s'. sproj. by rewrite !aset_ne by done. }
  assert (Hth : threads s' = <[idle i := ith]> (threads s)) by done. pose proof R as [R1 R2 R3 R4 R5 R6]. split.
  - split.
    + intros c p. rewrite Hth. destruct (decide (c = i)) as [->|Hci].
      * unfold s'. sproj. rewrite !aset_eq. cbn [ready_queues clear_runqueue]. destruct (decide (p = 0)) as [->|Hp].
        -- rewrite decide_True by lia. unfold THREAD_PRIORITY_IDLE. rewrite aset_eq. split; [done|]. split; [done|]. exists ith. rewrite lookup_insert_eq. done.
        -- rewrite decide_False by lia. unfold THREAD_PRIORITY_IDLE. rewrite aset_ne by done. rewrite (fill_loop (fun _ => 0)). cbn. case_if; [done|].
           specialize (R1 i p). rewrite decide_False in R1 by lia. exact R1.
      * rewrite Hrq by done. specialize (R1 c p). destruct (decide (0 <= c < i /\ p = 0)) as [Hd|Hd]; [rewrite decide_True by lia|rewrite decide_False by lia; done].
        apply chain_insert; [|done]. intros H%list_elem_of_singleton. symmetry in H. apply (Hinj c) in H; [done|lia].
    + intros c p. case_decide; [apply NoDup_singleton|apply NoDup_nil_2].
    + intros c p c' p' t. case_decide as D1; [|by intros ?%elem_of_nil]. case_decide as D2; [|by intros _ ?%elem_of_nil].
      intros H1%list_elem_of_singleton H2%list_elem_of_singleton. subst t. destruct D1 as [D1 ->], D2 as [D2 ->]. split; [|done].
      destruct (decide (c = c')); [done|]. exfalso. destruct (decide (c = i)) as [->|]; [apply (Hinj c'); [lia|done]|]. destruct (decide (c' = i)) as [->|]; [apply (Hinj c); [lia|done]|].
      specialize (R3 c 0 c' 0 (idle c)). rewrite !decide_True in R3 by lia. destruct R3 as [? _]; [by left| |done]. rewrite H2. by left.
    + intros c p t. case_decide as D; [|by intros ?%elem_of_nil]. intros Ht%list_elem_of_singleton. subst t. destruct D as [D ->]. rewrite Hth.
      destruct (decide (c = i)) as [->|]; [exists ith; by rewrite lookup_insert_eq|]. rewrite lookup_insert_ne by (intros H; symmetry in H; apply (Hinj c) in H; [done|lia]).
      apply (R4 c). rewrite decide_True by lia. by left.
    + intros c p. case_decide; [unfold MAX_CPUS in *; lia|done].
    + intros l. unfold s'. sproj. case_decide; [done|apply R6].
  - intros c Hc. destruct (decide (c = i)) as [->|].
    + unfold s', st. sproj. rewrite !aset_eq. cbn. by rewrite lookup_insert_eq.
    + rewrite Hrq by done. unfold st. rewrite Hth, lookup_insert_ne by (intros H; symmetry in H; apply (Hinj c) in H; [done|lia]). apply B. lia.
  - intros x. rewrite Hth. destruct (decide (x = idle i)) as [->|]; [intros _; exists i; split; [lia|done]|]. rewrite lookup_insert_ne by done. intros (c & Hc & ->)%T. exists c. split; [lia|done].
Qed.

Lemma init_cpus_run idle mem n : forall i s,
  booted s i idle -> 0 <= i -> i + Z.of_nat n <= MAX_CPUS -> (forall c, 0 <= c < i + Z.of_nat n -> idle c <> 0) ->
  (forall c c', 0 <= c < c' -> c' < i + Z.of_nat n -> idle c <> idle c') ->
  exists s', init_cpus n i idle mem s = Ret tt s' /\ booted s' (i + Z.of_nat n) idle.
Proof.
  induction n as [|n IH]; intros i s Hb Hi Hn H0 Hinj; [exists s; split; [done|by rewrite Z.add_0_r]|]. cbn [init_cpus].
  destruct (init_cpu_step s i idle (mem i) Hb) as (s1 & E & Hb1); [lia|apply H0; lia|intros; apply Hinj; lia|]. erewrite bind_run by exact E.
  replace (i + Z.of_nat (S n)) with (i + 1 + Z.of_nat n) in * by lia. by apply IH; [|lia|lia|..].
Qed.

Lemma scheduler_init_run num_cpus idle mem :
  1 <= num_cpus <= MAX_CPUS -> (forall c, 0 <= c < num_cpus -> idle c <> 0) -> (forall c c', 0 <= c < c' -> c' < num_cpus -> idle c <> idle c') ->
  exists s, scheduler_init num_cpus idle mem sched_zero = Ret tt s /\ booted s num_cpus idle.
Proof.
  intros Hn H0 Hinj. unfold scheduler_init. sstep. sstep. if_lia. rewrite Z.min_l by lia.
  match goal with |- exists s, init_cpus _ _ _ _ ?x = _ /\ _ => set (s1 := x) end.
  assert (Hb : booted s1 0 idle).
  { split; [|intros; lia|by intros x [? ?]]. split; [|intros; case_decide; [apply NoDup_singleton|apply NoDup_nil_2]|..].
    - intros c p. by rewrite decide_False by lia.
    - intros c p c' p' t. rewrite decide_False by lia. by intros ?%elem_of_nil.
    - intros c p t. rewrite decide_False by lia. by intros ?%elem_of_nil.
    - intros c p. by rewrite decide_False by lia.
    - intros l. unfold s1. sproj. by case_decide. }
  destruct (init_cpus_run idle mem (Z.to_nat num_cpus) 0 s1 Hb) as (s & E & Hs); rewrite ?Z2Nat.id in * by lia; [lia|lia|done|intros; apply Hinj; lia|].
  exists s. by rewrite Z.add_0_l in Hs.
Qed.

(** A processor without threads stops at its third call of the scheduler after
    boot: the first takes the idle thread off its queue, the second finds no thread and
    returns with the lock of the run queue held, the third waits for it for ever. *)
Theorem idle_cpu_deadlocks num_cpus idle mem c :
  1 <= num_cpus <= MAX_CPUS -> (forall c, 0 <= c < num_cpus -> idle c <> 0) -> (forall c c', 0 <= c < c' -> c' < num_cpus -> idle c <> idle c') ->
  0 <= c < num_cpus ->
  exists s0 s1 s2, scheduler_init num_cpus idle mem sched_zero = Ret tt s0 /\ scheduler_schedule c s0 = Ret None s1 /\
    scheduler_schedule c s1 = Ret None s2 /\ scheduler_schedule c s2 = Deadlock.
Proof.
  intros Hn H0 Hinj Hc. destruct (scheduler_init_run num_cpus idle mem Hn H0 Hinj) as (s0 & E0 & [R B _]). destruct (B c Hc) as (Bc & Bi & Bs).
  assert (Hc' : 0 <= c < MAX_CPUS) by lia. specialize (H0 c Hc).
  set (q := fun c p => if decide (0 <= c < num_cpus /\ p = 0) then [idle c] else []) in *.
  destruct (threads s0 !! idle c) as [ith|] eqn:Hi; [|unfold st in Bs; by rewrite Hi in Bs]. assert (Hs : state ith = THREAD_STATE_READY) by (unfold st in Bs; rewrite Hi in Bs; by injection Bs).
  assert (Hsched : forall s, current_thread (rqs s c) = idle c -> st s (idle c) = Some THREAD_STATE_READY -> forall s', pick_next_thread c s = Ret (idle c) s' -> scheduler_schedule c s = Ret None s').
  { intros s C T s' E. rewrite scheduler_schedule_eq by done. sstep. cbv beta. rewrite C. if_lia. destruct (threads s !! idle c) as [th|] eqn:Hth; [|unfold st in T; by rewrite Hth in T].
    sstep. erewrite bind_run; [|unfold put_back; rewrite bool_decide_false; [reflexivity|]]; [|unfold st in T; rewrite Hth in T; injection T as ->; done].
    erewrite bind_run by exact E. by rewrite Z.eqb_refl. }
  destruct (pick_found s0 q c 0 (idle c) ith [] R) as (s1 & E1 & R1 & K1); [unfold q; by rewrite decide_True|done|intros; unfold q; by rewrite decide_False by lia|].
  replace (requeued s0 c (idle c) ith) with false in R1 by (unfold requeued; by rewrite Bi, Z.eqb_refl).
  destruct (same_rq _ _ (keeps_rest _ _ _ K1) c) as (_ & C1 & I1).
  exists s0, s1, (locked s1 (RqLock c)). split; [done|]. split; [by apply Hsched|]. split.
  - apply Hsched; [congruence|by rewrite (keeps_st _ _ _ _ K1)|]. rewrite (pick_none s1 _ c R1 Hc'); [congruence|].
    intros p. destruct (decide (p = 0)) as [->|]; [apply put_queue_eq|]. rewrite put_queue_ne by lia. unfold q. by rewrite decide_False by lia.
  - rewrite scheduler_schedule_eq by done. sstep. cbv beta. cbn [locked rqs set_held]. rewrite C1, Bc. if_lia.
    pose proof (keeps_st _ _ _ (idle c) K1) as T1. rewrite Bs in T1. destruct (threads s1 !! idle c) as [th|] eqn:Hth; [|unfold st in T1; by rewrite Hth in T1].
    erewrite bind_run by (apply thread_at_run; exact Hth). erewrite bind_run; [|unfold put_back; rewrite bool_decide_false; [reflexivity|]]; [|unfold st in T1; rewrite Hth in T1; injection T1 as ->; done].
    assert (E : pick_next_thread c (locked s1 (RqLock c)) = Deadlock); [|unfold bind; by rewrite E].
    unfold pick_next_thread, get_current_runqueue, MAX_CPUS in *. if_lia. unfold bind at 1. unfold lock. cbn [locked held set_held]. by rewrite decide_True.
Qed.

(** ** The run queues as lists

    The operations on the run queues and what they do to the lists. *)

Inductive queue_op := Add (t c : Z) | Remove (t : Z) | Move (t c : Z).

Definition queue_call (op : queue_op) : M unit :=
  match op with
  | Add t c => add_to_ready_queue t c
  | Remove t => remove_from_ready_queue t
  | Move t c => move_thread_to_cpu t c
  end.

Definition append (q : queues) (c p t : Z) : queues := put_queue q c p (q c p ++ [t]).

(** The threads of a list before [t]: all of them if [t] is not in it. *)
Fixpoint before (t : Z) (l : list Z) : list Z :=
  match l with [] => [] | x :: l => if decide (x = t) then [] else x :: before t l end.

Definition queue_spec (prio : Z -> Z) (op : queue_op) (q : queues) : queues :=
  match op with
  | Add t c => put_queue q c (prio t) (before t (q c (prio t)) ++ [t])
  | Remove t => del_queue q t
  | Move t c => append (del_queue q t) c (prio t) t
  end.

(** The thread exists, with a priority in range; one that is added is not in the queue
    of another processor. *)
Definition queue_pre (s : sched) (prio : Z -> Z) (op : queue_op) (q : queues) : Prop :=
  match op with
  | Add t c => 0 <= c < MAX_CPUS /\ (forall c' p', t ∈ q c' p' -> c' = c) /\ t <> 0 /\ 0 <= prio t < 128 /\ is_Some (threads s !! t)
  | Remove t => t <> 0 /\ 0 <= prio t < 128 /\ is_Some (threads s !! t)
  | Move t c => 0 <= c < MAX_CPUS /\ t <> 0 /\ 0 <= prio t < 128 /\ is_Some (threads s !! t)
  end.

Fixpoint queue_calls (ops : list queue_op) : M unit :=
  match ops with [] => ret tt | op :: ops => queue_call op;;; queue_calls ops end.

Fixpoint queue_specs (prio : Z -> Z) (ops : list queue_op) (q : queues) : queues :=
  match ops with [] => q | op :: ops => queue_specs prio ops (queue_spec prio op q) end.

Fixpoint queue_pres (s : sched) (prio : Z -> Z) (ops : list queue_op) (q : queues) : Prop :=
  match ops with [] => True | op :: ops => queue_pre s prio op q /\ queue_pres s prio ops (queue_spec prio op q) end.

Definition priorities (s : sched) (prio : Z -> Z) : Prop := forall t th, threads s !! t = Some th -> priority th = prio t.

Lemma unqueued_del q t : unqueued (del_queue q t) t.
Proof. intros c p. unfold del_queue. rewrite elem_del. tauto. Qed.

Lemma before_absent t l : t ∉ l -> before t l = l.
Proof. induction l as [|x l IH]; [done|]. intros [Hx Hl]%not_elem_of_cons. cbn. rewrite decide_False by congruence. f_equal. by apply IH. Qed.

Lemma before_split t l1 l2 : t ∉ l1 -> before t (l1 ++ t :: l2) = l1.
Proof. induction l1 as [|x l IH]; [by intros _; cbn; rewrite decide_True|]. intros [Hx Hl]%not_elem_of_cons. cbn. rewrite decide_False by congruence. f_equal. by apply IH. Qed.

(** Adding a thread that is in the queue or in no queue. *)
Lemma add_again_spec s q t th c :
  rep s q -> threads s !! t = Some th -> t <> 0 -> (forall c' p', t ∈ q c' p' -> c' = c) -> 0 <= c < MAX_CPUS -> 0 <= priority th < 128 ->
  exists s', add_to_ready_queue t c s = Ret tt s' /\ rep s' (put_queue q c (priority th) (before t (q c (priority th)) ++ [t])) /\ keeps (fun _ => True) s s'.
Proof.
  intros R Hth Ht0 Hu Hc Hp. destruct (decide (t ∈ q c (priority th))) as [Hin|Hout].
  - apply list_elem_of_split in Hin as (l1 & l2 & Hq). destruct (readd_cut s q c (priority th) l1 t l2 R Hq) as (s' & E & R' & K).
    pose proof (rep_nodup _ _ R c (priority th)) as Hn. rewrite Hq in Hn |- *. rewrite before_split; [|intros H; apply NoDup_app in Hn as (_ & Hn & _); apply (Hn t H); by left].
    exists s'. split; [done|]. split; [done|]. by eapply keeps_weaken.
  - rewrite before_absent by done. destruct (add_ready_spec s q t th c R Hth Ht0) as (s' & E & R' & K); [|done|done|].
    { intros c' p' Hin. pose proof (Hu _ _ Hin) as ->. destruct (rep_priority _ _ R _ _ _ Hin) as (th' & Hth' & <-). rewrite Hth in Hth'. by injection Hth' as <-. }
    exists s'. split; [done|]. split; [done|]. by eapply keeps_weaken.
Qed.

Lemma queue_call_spec s prio op q :
  rep s q -> priorities s prio -> queue_pre s prio op q ->
  exists s', queue_call op s = Ret tt s' /\ rep s' (queue_spec prio op q) /\ keeps (fun _ => True) s s'.
Proof.
  intros R Hp Hpre. destruct op as [t c|t|t c]; cbn in Hpre |- *.
  - destruct Hpre as (Hc & Hu & Ht0 & Hpt & [th Hth]). pose proof (Hp _ _ Hth) as E. rewrite <- E in *.
    exact (add_again_spec s q t th c R Hth Ht0 Hu Hc Hpt).
  - destruct Hpre as (Ht0 & Hpt & [th Hth]). pose proof (Hp _ _ Hth) as E. rewrite <- E in *.
    destruct (remove_spec s q t th R Hth Ht0 Hpt) as (s' & E1 & R1 & K1). exists s'. split; [done|]. split; [done|]. by eapply keeps_weaken.
  - destruct Hpre as (Hc & Ht0 & Hpt & [th Hth]). pose proof (Hp _ _ Hth) as E. rewrite <- E in *. unfold move_thread_to_cpu. if_lia.
    destruct (remove_spec s q t th R Hth Ht0 Hpt) as (s1 & E1 & R1 & K1). erewrite bind_run by exact E1.
    destruct (keeps_field _ _ _ _ _ K1 Hth) as [n Hn].
    destruct (add_ready_spec s1 (del_queue q t) t (with_next th n) c R1 Hn Ht0 (unqueued_del q t) Hc Hpt) as (s2 & E2 & R2 & K2).
    exists s2. split; [done|]. split; [done|]. eapply keeps_trans; [by eapply keeps_weaken|by eapply keeps_weaken].
Qed.

(** C8. Refinement: adding threads to run queues, removing them and moving them between
    processors implements operations on lists, for every sequence of calls; every call
    returns with all locks free, and the threads keep all fields but their links.  A
    removal takes the thread out of its list, a move appends it to that of the other
    processor, and an addition appends it too, except that a thread that is already in
    the list becomes its last one: the threads behind it are cut off.  Assumed: the
    lists are well formed at the start, each thread named exists and has a priority
    below 128, processor numbers are below the maximum, and a thread that is added is
    not in the queue of another processor. *)
Theorem ready_queues_refine ops : forall s prio q,
  rep s q -> priorities s prio -> queue_pres s prio ops q ->
  exists s', queue_calls ops s = Ret tt s' /\ rep s' (queue_specs prio ops q) /\ keeps (fun _ => True) s s'.
Proof.
  induction ops as [|op ops IH]; intros s prio q R Hp Hpre; [exists s; split; [done|]; split; [done|]; by split; [..|apply same_rest_refl]|].
  destruct Hpre as [Hpre Hpres]. destruct (queue_call_spec s prio op q R Hp Hpre) as (s1 & E1 & R1 & K1). cbn [queue_calls queue_specs]. erewrite bind_run by exact E1.
  assert (Hdom : forall t, is_Some (threads s1 !! t) <-> is_Some (threads s !! t)).
  { intros t. pose proof (keeps_next _ _ _ K1 t) as H. destruct (threads s1 !! t), (threads s !! t); split; intros [? ?]; (done || by eexists). }
  destruct (IH s1 prio _ R1) as (s2 & E2 & R2 & K2).
  - intros t th Ht. pose proof (keeps_next _ _ _ K1 t) as H. rewrite Ht in H. destruct (threads s !! t) as [th'|] eqn:E; [|done]. cbn in H. injection H as ? ? ? H. intros. rewrite H. by apply Hp.
  - clear -Hpres Hdom. revert Hpres. generalize (queue_spec prio op q). induction ops as [|op' ops IH]; [done|]. intros q' [H1 H2]. split; [|by apply IH].
    destruct op'; cbn in *; rewrite Hdom; tauto.
  - exists s2. split; [done|]. split; [done|]. by eapply keeps_trans.
Qed.

(** ** Load balancing *)

Fixpoint lengths (q : queues) (c : Z) (n : nat) (i : Z) : Z :=
  match n with O => 0 | S n => Z.of_nat (length (q c i)) + lengths q c n (i + 1) end.

(** The number of threads in the run queue of a processor. *)
Definition load (q : queues) (c : Z) : Z := lengths q c NUM_PRIORITIES 0.

Definition unchanged (s s' : sched) : Prop := threads s' = threads s /\ rqs s' = rqs s /\ same_rest s s'.

Lemma unchanged_rep s s' q : unchanged s s' -> rep s q -> rep s' q.
Proof. intros (Ht & Hq & Hs) R. apply (rep_same s); [done|done|by rewrite Hq|apply Hs]. Qed.

Lemma lengths_nonneg q c n i : 0 <= lengths q c n i.
Proof. revert i. induction n as [|n IH]; intros i; [done|]. cbn [lengths]. specialize (IH (i + 1)). lia. Qed.

Lemma list_length_run s l : forall fuel p count,
  chain (threads s) p l -> (length l < fuel)%nat -> 0 <= count -> count + Z.of_nat (length l) < 2 ^ 32 ->
  list_length fuel p count s = Ret (count + Z.of_nat (length l)) s.
Proof.
  induction l as [|t l IH]; intros [|fuel] p count Hc Hf H0 Hb; [lia| |lia|]; cbn [list_length].
  - cbn in Hc. subst. cbn. by rewrite Z.add_0_r.
  - destruct Hc as (-> & Ht & th & Hth & Hc). if_lia. erewrite bind_run by (apply thread_at_run, Hth). cbn [length] in *.
    rewrite wrap_small by (unfold fits; lia). rewrite IH; [f_equal; lia|done|lia|lia|lia].
Qed.

Lemma count_queues_run s q c n :
  (forall i, chain (threads s) (ready_queues (rqs s c) i) (q c i)) -> (forall i, NoDup (q c i)) ->
  forall i count, 0 <= i -> i + Z.of_nat n <= 128 -> 0 <= count -> count + lengths q c n i < 2 ^ 32 ->
  count_queues n i c count s = Ret (count + lengths q c n i) s.
Proof.
  intros Hch Hnd. induction n as [|n IH]; intros i count Hi Hn H0 Hb; [cbn; by rewrite Z.add_0_r|]. cbn [count_queues lengths] in *.
  pose proof (lengths_nonneg q c n (i + 1)). erewrite bind_run by (apply ready_head_run; lia). sstep.
  erewrite bind_run; [|apply (list_length_run s (q c i)); [apply Hch|pose proof (thread_chain_length _ _ _ (Hch i) (Hnd i)); unfold walk_fuel; lia|lia|lia]].
  rewrite IH; [f_equal; lia|lia|lia|lia|lia].
Qed.

Lemma get_runqueue_length_run s q c :
  rep s q -> 0 <= c < MAX_CPUS -> load q c < 2 ^ 32 -> exists s', get_runqueue_length c s = Ret (load q c) s' /\ unchanged s s'.
Proof.
  intros R Hc Hb. unfold get_runqueue_length, get_cpu_runqueue, MAX_CPUS in *. if_lia. erewrite bind_run by (apply lock_run, R). fold (locked s (RqLock c)).
  erewrite bind_run by (apply (count_queues_run (locked s (RqLock c)) q c NUM_PRIORITIES); [intros; apply R|intros; apply R|lia|done|lia|exact Hb]).
  sstep. eexists. split; [reflexivity|]. split; [done|]. split; [done|]. split; [done|apply (relock s), R|done|done].
Qed.

Lemma unchanged_trans s1 s2 s3 : unchanged s1 s2 -> unchanged s2 s3 -> unchanged s1 s3.
Proof. intros (A1 & A2 & A3) (B1 & B2 & B3). split; [congruence|]. split; [congruence|]. by eapply same_rest_trans. Qed.

(** What the search for the busiest and the least busy processor has found before [i]. *)
Record balance_of (q : queues) (i : Z) (b : balance) : Prop := {
  bal_max : forall c, 0 <= c < i -> load q c <= busiest_count b;
  bal_min : forall c, 0 <= c < i -> least_busy_count b <= load q c;
  bal_busy : 0 < i -> 0 < busiest_count b -> 0 <= busiest_cpu b < i /\ busiest_count b = load q (busiest_cpu b);
  bal_least : 0 < i -> 0 <= least_busy_cpu b < i /\ least_busy_count b = load q (least_busy_cpu b);
  bal_pos : 0 <= busiest_count b
}.

Lemma balance_step q i b :
  balance_of q i b -> 0 <= i -> (i = 0 -> least_busy_count b = 2 ^ 32 - 1 /\ busiest_count b = 0) -> 0 <= load q i < 2 ^ 32 - 1 ->
  balance_of q (i + 1)
    (let b := if busiest_count b <? load q i then
                {| busiest_cpu := i; least_busy_cpu := least_busy_cpu b; busiest_count := load q i; least_busy_count := least_busy_count b |} else b in
     if load q i <? least_busy_count b then
       {| busiest_cpu := busiest_cpu b; least_busy_cpu := i; busiest_count := busiest_count b; least_busy_count := load q i |} else b).
Proof.
  intros [B1 B2 B3 B4 B5] Hi H0 Hl. destruct b as [bc lc bn ln]; cbn [least_busy_count busiest_count least_busy_cpu busiest_cpu] in *. cbv zeta.
  assert (Hbusy : forall c, 0 <= c < i + 1 -> c <> i -> load q c <= bn /\ ln <= load q c) by (intros c Hc Hne; split; [apply B1; lia|apply B2; lia]).
  assert (Hl' : load q i < ln \/ 0 <= lc < i /\ ln = load q lc) by (destruct (decide (i = 0)); [left; lia|right; apply B4; lia]).
  destruct (Z.ltb_spec bn (load q i)); cbn [least_busy_count busiest_count least_busy_cpu busiest_cpu]; destruct (Z.ltb_spec (load q i) ln);
    (split; cbn [least_busy_count busiest_count least_busy_cpu busiest_cpu];
     [intros c Hc; destruct (decide (c = i)) as [->|Hne]; [|specialize (Hbusy c Hc Hne)]; lia
     |intros c Hc; destruct (decide (c = i)) as [->|Hne]; [|specialize (Hbusy c Hc Hne)]; lia| | |lia]);
    intros; try (split; [lia|done]); try (destruct Hl'; [lia|]; split; [lia|tauto]).
  all: destruct (decide (i = 0)); [lia|]; destruct B3 as [? B3]; [lia|lia|]; split; [lia|done].
Qed.

Lemma find_busiest_run q n : forall i s b,
  rep s q -> 0 <= i -> i + Z.of_nat n <= MAX_CPUS -> (forall c, load q c < 2 ^ 32 - 1) -> balance_of q i b -> (i = 0 -> least_busy_count b = 2 ^ 32 - 1 /\ busiest_count b = 0) ->
  exists s' b', find_busiest n i b s = Ret b' s' /\ unchanged s s' /\ balance_of q (i + Z.of_nat n) b'.
Proof.
  induction n as [|n IH]; intros i s b R Hi Hn Hb Hbal H0.
  { exists s, b. split; [done|]. split; [by split; [|split; [|apply same_rest_refl]]|by rewrite Z.add_0_r]. }
  cbn [find_busiest]. destruct (get_runqueue_length_run s q i R) as (s1 & E1 & U1); [lia|specialize (Hb i); lia|]. erewrite bind_run by exact E1.
  pose proof (balance_step q i b Hbal Hi H0 ltac:(split; [apply lengths_nonneg|apply Hb])) as Hbal1. cbv zeta in *.
  destruct (IH (i + 1) s1 _ ltac:(by eapply unchanged_rep) ltac:(lia) ltac:(lia) Hb Hbal1 ltac:(lia)) as (s2 & b2 & E2 & U2 & Hbal2).
  exists s2, b2. split; [done|]. split; [by eapply unchanged_trans|]. replace (i + Z.of_nat (S n)) with (i + 1 + Z.of_nat n) by lia. done.
Qed.

(** Taking the head of a queue off, its link cleared. *)
Lemma take_head_run s q c p t l :
  rep s q -> q c p = t :: l ->
  exists th s', threads s !! t = Some th /\ (set_ready_head c p (next th);;; update_thread t (fun t => with_next t 0);;; unlock (RqLock c)) (locked s (RqLock c)) = Ret tt s' /\
    rep s' (put_queue q c p l) /\ keeps (fun x => x ∈ q c p) s s' /\ unqueued (put_queue q c p l) t.
Proof.
  intros Hr Hq. pose proof Hr as [R1 R2 R3 R4 R5 R6]. destruct (R5 c p) as [Hc Hp]; [by rewrite Hq|]. pose proof (R1 c p) as Hch. pose proof (R2 c p) as Hn. rewrite Hq in Hch, Hn.
  destruct Hch as (Hhd & Ht0 & th & Hth & Hch). apply NoDup_cons in Hn as [Htl Hn]. exists th.
  erewrite bind_run by (apply set_ready_head_run; lia). erewrite bind_run by (eapply update_thread_run; sproj; exact Hth). eexists. split; [done|]. split; [reflexivity|].
  match goal with |- rep ?x _ /\ _ => set (s' := x) end.
  assert (Hk : keeps (fun x => x ∈ q c p) s s').
  { split.
    - intros x Hx. unfold s'. sproj. rewrite lookup_alter_ne; [done|]. intros <-. apply Hx. rewrite Hq. by left.
    - intros x. unfold s'. sproj. destruct (decide (x = t)) as [->|]; [rewrite lookup_alter_eq; change (threads (locked s (RqLock c))) with (threads s); by rewrite Hth|by rewrite lookup_alter_ne by done].
    - split; [|apply (relock s), R6|done|done]. intros c'. unfold s'. sproj. unfold aset. by destruct (Z.eqb_spec c' c) as [->|]. }
  split; [|split; [done|]].
  - eapply rep_change; [done| |done|done| |done| |].
    + eapply keeps_weaken; [|exact Hk]. tauto.
    + unfold s'. sproj. rewrite aset_eq. cbn [ready_queues with_ready]. rewrite aset_eq. eapply thread_chain_ext; [|exact Hch]. intros x Hx. rewrite lookup_alter_ne; [done|]. by intros <-.
    + intros c' p' Hne. unfold s'. sproj. unfold aset. destruct (Z.eqb_spec c' c) as [->|]; [|done]. cbn [ready_queues with_ready]. rewrite aset_ne; [done|tauto].
    + intros x Hx. assert (Hx' : x ∈ q c p) by (rewrite Hq; by right). split; [intros; by eapply R3|by apply (R4 c)].
  - intros c' p' [(-> & -> & H)|[Hne H]]%elem_put_queue; [done|]. apply Hne. apply (R3 c' p' c p t H). rewrite Hq. by left.
Qed.

Lemma move_one_empty s q c target n : rep s q -> forall i, 0 <= i -> i + Z.of_nat n <= 128 -> (forall p, i <= p < i + Z.of_nat n -> q c p = []) ->
  exists s', move_one n i c target (locked s (RqLock c)) = Ret tt s' /\ unchanged s s'.
Proof.
  intros R. induction n as [|n IH]; intros i Hi Hn He.
  - eexists. split; [reflexivity|]. split; [done|]. split; [done|]. split; [done|apply (relock s), R|done|done].
  - cbn [move_one]. erewrite bind_run by (apply ready_head_run; lia). cbn [locked rqs set_held]. pose proof (rep_chain _ _ R c i) as Hc. rewrite He in Hc by lia. cbn in Hc. rewrite Hc.
    apply IH; [lia|lia|]. intros; apply He; lia.
Qed.

Lemma move_one_found s q c target p t l n : rep s q -> 0 <= target < MAX_CPUS -> q c p = t :: l ->
  forall i, 0 <= i <= p -> p < i + Z.of_nat n <= 128 -> (forall p', i <= p' < p -> q c p' = []) ->
  exists s', move_one n i c target (locked s (RqLock c)) = Ret tt s' /\ rep s' (append (put_queue q c p l) target p t) /\ keeps (fun _ => True) s s'.
Proof.
  intros R Htg Hq. induction n as [|n IH]; intros i Hi Hn He; [lia|]. cbn [move_one]. erewrite bind_run by (apply ready_head_run; lia). cbn [locked rqs set_held].
  pose proof (rep_chain _ _ R c i) as Hc. destruct (decide (i = p)) as [->|Hne].
  2:{ rewrite He in Hc by lia. cbn in Hc. rewrite Hc. apply IH; [lia|lia|]. intros; apply He; lia. }
  rewrite Hq in Hc. destruct Hc as (-> & Ht0 & _). if_lia.
  destruct (take_head_run s q c p t l R Hq) as (th & s1 & Hth & E1 & R1 & K1 & Hu). erewrite bind_run by (apply thread_at_run, Hth).
  destruct (rep_priority _ _ R c p t) as (th' & Hth' & Hpr); [rewrite Hq; by left|]. rewrite Hth in Hth'. injection Hth' as <-.
  destruct (keeps_field _ _ _ _ _ K1 Hth) as [m Hm].
  destruct (queue_call_spec s1 (fun x => match threads s1 !! x with Some th => priority th | None => 0 end) (Move t target) (put_queue q c p l) R1) as (s2 & E2 & R2 & K2).
  { intros x xth Hx. by rewrite Hx. } { cbn. rewrite Hm. split; [done|]. split; [done|]. split; [cbn; lia|by eexists]. }
  exists s2. split; [|split].
  - revert E1. unfold bind. destruct (set_ready_head c p (next th) _); [|done..]. destruct (update_thread t _ s0); [|done..]. destruct (unlock (RqLock c) s3); [|done..]. intros [= _ <-]. exact E2.
  - cbn [queue_spec] in R2. rewrite Hm in R2. cbn [priority with_next] in R2. rewrite Hpr in R2. eapply rep_ext; [|exact R2].
    assert (Hd : forall c' p', del_queue (put_queue q c p l) t c' p' = put_queue q c p l c' p') by (intros; apply del_absent, Hu).
    intros c' p'. unfold append. rewrite Hd. unfold put_queue at 1 4. case_decide; [done|by rewrite Hd].
  - eapply keeps_trans; [|exact K2]. by eapply keeps_weaken.
Qed.

Lemma lowest_queue s q c n :
  rep s q -> (forall p, p < Z.of_nat n -> q c p = []) \/ exists p t rest, 0 <= p < Z.of_nat n /\ q c p = t :: rest /\ (forall p', p' < p -> q c p' = []).
Proof.
  intros R. assert (Hneg : forall p, p < 0 -> q c p = []).
  { intros p Hp. destruct (q c p) eqn:E; [done|]. destruct (rep_range _ _ R c p); [by rewrite E|lia]. }
  destruct (find_first (fun p => negb (bool_decide (q c p = []))) 0 n) as [p|] eqn:Ef.
  - apply find_first_Some in Ef as (Hp & Hne & Hmin). right. destruct (q c p) as [|t rest] eqn:Hq; [by rewrite bool_decide_true in Hne|]. exists p, t, rest. split; [lia|]. split; [done|].
    intros p' Hp'. destruct (decide (p' < 0)); [by apply Hneg|]. specialize (Hmin p' ltac:(lia)). by apply negb_false_iff, bool_decide_eq_true in Hmin.
  - left. rewrite find_first_None in Ef. intros p Hp. destruct (decide (p < 0)); [by apply Hneg|]. specialize (Ef p ltac:(lia)). by apply negb_false_iff, bool_decide_eq_true in Ef.
Qed.

(** Load balancing: when the interval has passed, the loads of the first and of the
    last of the processors are found, and if they differ by two or more the first
    thread of the lowest queue below priority 64 of the busiest processor is moved to
    the end of the queue of its priority on the least busy one.  Nothing else changes
    in the run queues.  (The lowest queue is the one of the idle thread.) *)
Theorem load_balance_correct s q num_cpus ticks :
  rep s q -> 2 <= num_cpus <= MAX_CPUS -> LOAD_BALANCE_INTERVAL <= u64 (ticks - last_balance s) -> (forall c, load q c < 2 ^ 32 - 1) ->
  exists s' q' b l, scheduler_load_balance num_cpus ticks s = Ret tt s' /\ rep s' q' /\ last_balance s' = ticks /\
    0 <= b < num_cpus /\ 0 <= l < num_cpus /\ (forall c, 0 <= c < num_cpus -> load q l <= load q c <= load q b) /\
    ((load q b - load q l < LOAD_BALANCE_THRESHOLD \/ forall p, p < 64 -> q b p = []) /\ (forall c p, q' c p = q c p) \/
     exists p t rest, p < 64 /\ q b p = t :: rest /\ (forall p', p' < p -> q b p' = []) /\ LOAD_BALANCE_THRESHOLD <= load q b - load q l /\
       q' = append (put_queue q b p rest) l p t).
Proof.
  intros R Hn Hint Hload. unfold scheduler_load_balance, LOAD_BALANCE_THRESHOLD. if_lia. sstep. cbv beta. if_lia. sstep.
  set (s0 := set_balance s ticks (steal_start s)). assert (R0 : rep s0 q) by (by apply (rep_same s)).
  destruct (find_busiest_run q (Z.to_nat num_cpus) 0 s0 {| busiest_cpu := 0; least_busy_cpu := 0; busiest_count := 0; least_busy_count := 2 ^ 32 - 1 |} R0) as (s1 & b & E & U & Hbal);
    [lia|lia|done|split; cbn [busiest_count]; lia|done|]. rewrite Z2Nat.id, Z.add_0_l in Hbal by lia. erewrite bind_run by exact E.
  destruct Hbal as [B1 B2 B3 B4 B5]. destruct B4 as [Bl El]; [lia|]. pose proof (unchanged_rep _ _ _ U R0) as R1. destruct U as (_ & _ & [_ _ _ (_ & _ & U & _)]).
  assert (Hl0 : 0 <= load q (least_busy_cpu b)) by apply lengths_nonneg.
  destruct (decide (busiest_count b = 0)) as [Hz|Hz].
  - assert (Hall : forall c, 0 <= c < num_cpus -> load q c = 0) by (intros c Hc; specialize (B1 c Hc); pose proof (lengths_nonneg q c NUM_PRIORITIES 0); unfold load in *; lia).
    rewrite Hz, El, Hall by done. exists s1, q, (least_busy_cpu b), (least_busy_cpu b). split; [done|]. split; [done|]. split; [done|]. split; [done|]. split; [done|].
    split; [intros c Hc; rewrite !Hall by done; lia|]. left. split; [left; lia|done].
  - destruct B3 as [Bb Eb]; [lia|lia|]. assert (Hbl : load q (least_busy_cpu b) <= load q (busiest_cpu b)) by (rewrite <- El; apply B2; done).
    specialize (Hload (busiest_cpu b)). rewrite Eb, El. rewrite wrap_small by (unfold fits; lia).
    assert (Hord : forall c, 0 <= c < num_cpus -> load q (least_busy_cpu b) <= load q c <= load q (busiest_cpu b)) by (intros c Hc; specialize (B1 c Hc); specialize (B2 c Hc); lia).
    destruct (Z.ltb_spec (load q (busiest_cpu b) - load q (least_busy_cpu b)) 2).
    { exists s1, q, (busiest_cpu b), (least_busy_cpu b). split; [done|]. do 5 (split; [done|]). left. split; [by left|done]. }
    unfold get_cpu_runqueue, MAX_CPUS in *. if_lia. erewrite bind_run by (apply lock_run, R1). fold (locked s1 (RqLock (busiest_cpu b))).
    destruct (lowest_queue s q (busiest_cpu b) 64 R) as [He|(p & t & rest & Hp & Hq & Hlow)].
    + destruct (move_one_empty s1 q (busiest_cpu b) (least_busy_cpu b) 64 R1 0) as (s2 & E2 & U2); [lia|lia|intros; apply He; lia|].
      exists s2, q, (busiest_cpu b), (least_busy_cpu b). split; [done|]. split; [by eapply unchanged_rep|].
      split; [destruct U2 as (_ & _ & [_ _ _ (_ & _ & -> & _)]); done|]. do 3 (split; [done|]). left. split; [by right|done].
    + destruct (move_one_found s1 q (busiest_cpu b) (least_busy_cpu b) p t rest 64 R1) with (i := 0) as (s2 & E2 & R2 & K2); [unfold MAX_CPUS; lia|done|lia|lia|intros; apply Hlow; lia|].
      exists s2, (append (put_queue q (busiest_cpu b) p rest) (least_busy_cpu b) p t), (busiest_cpu b), (least_busy_cpu b). split; [done|]. split; [done|].
      split; [destruct (same_tick _ _ (keeps_rest _ _ _ K2)) as (_ & _ & -> & _); done|]. do 3 (split; [done|]). right. exists p, t, rest. split; [lia|]. do 3 (split; [done|]). done.
Qed.

(** ** Waking threads

    [sleeping s q l]: the sleeping queue holds [l], threads that are in no ready queue. *)

Record sleeping (s : sched) (q : queues) (l : list Z) : Prop := {
  sleeping_chain : chain (threads s) (sleeping_queue s) l;
  sleeping_nodup : NoDup l;
  sleeping_unqueued : forall t, t ∈ l -> unqueued q t
}.

(** The wake-up time [wt] and the priority [pr] of the threads [l]. *)
Definition timed (s : sched) (wt pr : Z -> Z) (l : list Z) : Prop :=
  forall t, t ∈ l -> exists th, threads s !! t = Some th /\ wakeup_time th = wt t /\ priority th = pr t /\ 0 <= pr t < 128.

Definition append_all (pr : Z -> Z) (q : queues) (l : list Z) : queues := foldl (fun q t => append q 0 (pr t) t) q l.

(** Taking the thread behind [kept] out of the sleeping queue. *)
Definition unlink_sleeper (prev t_next : Z) : M unit :=
  if negb (prev =? 0) then update_thread prev (fun p => with_next p t_next) else modify (fun s => set_sleeping s t_next).

Lemma unlink_sleeper_run s q kept t th todo :
  rep s q -> sleeping s q (kept ++ t :: todo) -> threads s !! t = Some th ->
  exists s', unlink_sleeper (default 0 (last kept)) (next th) s = Ret tt s' /\ rep s' q /\ sleeping s' q (kept ++ todo) /\
    (forall x, (fun t => with_next t 0) <$> (threads s' !! x) = (fun t => with_next t 0) <$> (threads s !! x)) /\
    threads s' !! t = Some th /\ (forall x, x ∉ kept -> threads s' !! x = threads s !! x) /\ (forall l, held s' l = held s l).
Proof.
  intros R [Hc Hn Hu] Ht. unfold unlink_sleeper.
  assert (Hn' : NoDup (kept ++ todo)) by (apply NoDup_app in Hn as (? & Hn1 & [? ?]%NoDup_cons); apply NoDup_app; split; [done|]; split; [|done]; intros x Hx Hx'; apply (Hn1 x Hx); by right).
  assert (Hu' : forall x, x ∈ kept ++ todo -> unqueued q x) by (intros x Hx; apply Hu; rewrite elem_of_app, elem_of_cons in *; tauto).
  destruct (decide (kept = [])) as [->|Hne].
  - change (default 0 (last [])) with 0. rewrite Z.eqb_refl. eexists. split; [reflexivity|]. split; [by apply (rep_same s)|]. split; [|done]. split; [|done|done]. sproj.
    destruct Hc as (_ & _ & th' & Hth' & Hc). rewrite Ht in Hth'. by injection Hth' as <-.
  - destruct (exists_last Hne) as (k & u & ->). rewrite last_snoc. change (default 0 (Some u)) with u. rewrite <- app_assoc in Hc, Hn. cbn [app] in Hc, Hn.
    destruct (chain_present _ _ _ u Hc ltac:(set_solver-)) as [Hu0 [uth Huth]]. if_lia. rewrite (update_thread_run u uth) by done. eexists. split; [reflexivity|]. sproj.
    assert (Hut : u <> t) by (apply NoDup_app in Hn as (_ & _ & [Hn _]%NoDup_cons); intros ->; apply Hn; by left).
    assert (Hm : alter (fun p => with_next p (next th)) u (threads s) = <[u := with_next uth (next th)]> (threads s)).
    { apply map_eq. intros x. destruct (decide (x = u)) as [->|]; [by rewrite lookup_alter_eq, lookup_insert_eq, Huth|by rewrite lookup_alter_ne, lookup_insert_ne by done]. }
    rewrite Hm. split; [|split; [split; [sproj|done|done]|split; [|split; [by rewrite lookup_insert_ne|split; [|done]]]]].
    + destruct R as [R1 R2 R3 R4 R5 R6]. assert (Hunq : unqueued q u) by (apply Hu; set_solver-). split; [|done|done| |done|done]; sproj.
      * intros c p. apply chain_insert; [apply Hunq|apply R1].
      * intros c p x Hx. rewrite lookup_insert_ne by (intros <-; by apply Hunq in Hx). by apply (R4 c).
    + rewrite <- app_assoc. by eapply chain_unlink.
    + intros x. destruct (decide (x = u)) as [->|]; [by rewrite lookup_insert_eq, Huth|by rewrite lookup_insert_ne by done].
    + intros x Hx. rewrite lookup_insert_ne; [done|]. intros <-. apply Hx. set_solver-.
Qed.

(** Making the unlinked thread ready. *)
Lemma ready_sleeper_run s q l t th :
  rep s q -> sleeping s q l -> t ∉ l -> unqueued q t -> t <> 0 -> threads s !! t = Some th -> 0 <= priority th < 128 ->
  exists s', (update_thread t (fun t => with_state t THREAD_STATE_READY);;; add_to_ready_queue t 0) s = Ret tt s' /\
    rep s' (append q 0 (priority th) t) /\ sleeping s' (append q 0 (priority th) t) l /\
    (forall x, st s' x = if decide (x = t) then Some THREAD_STATE_READY else st s x) /\ (forall x, x ∈ l -> threads s' !! x = threads s !! x) /\
    (forall l, held s' l = held s l).
Proof.
  intros R [Hc Hn Hu] Htl Hut Ht0 Ht Hp. erewrite bind_run by (eapply update_thread_run, Ht). set (s1 := set_threads s _).
  destruct (add_ready_spec s1 q t (with_state th THREAD_STATE_READY) 0) as (s' & E & R' & K); [by apply rep_alter|unfold s1; sproj; by rewrite lookup_alter_eq, Ht|done|done|unfold MAX_CPUS; lia|done|].
  cbn [priority with_state] in *. exists s'. split; [done|]. split; [done|].
  assert (Hsame : forall x, x ∈ l -> threads s' !! x = threads s !! x).
  { intros x Hx. rewrite (keeps_thread _ _ _ K); [unfold s1; sproj; rewrite lookup_alter_ne; [done|by intros <-]|]. intros [->|H]; [done|]. by apply (Hu x Hx) in H. }
  split; [|split; [|split; [done|intros lk; by rewrite (same_held _ _ (keeps_rest _ _ _ K))]]].
  - split; [|done|].
    + destruct (same_table _ _ (keeps_rest _ _ _ K)) as (_ & _ & ->). by apply (thread_chain_ext (threads s)).
    + intros x Hx c p [(-> & -> & [H|H%list_elem_of_singleton]%elem_of_app)|[_ H]]%elem_put_queue; [by apply (Hu x Hx) in H|by subst|by apply (Hu x Hx) in H].
  - intros x. rewrite (keeps_st _ _ _ _ K). unfold s1. rewrite st_alter. case_decide; [|done]. subst x. unfold st. by rewrite Ht.
Qed.

Lemma wake_loop_run ticks wt pr todo : forall fuel kept s q,
  rep s q -> sleeping s q (kept ++ todo) -> timed s wt pr todo -> (length todo < fuel)%nat ->
  exists s', wake_loop fuel ticks (default 0 (last kept)) (hd 0 todo) s = Ret tt s' /\
    rep s' (append_all pr q (filter (fun t => wt t <= ticks) todo)) /\
    sleeping s' (append_all pr q (filter (fun t => wt t <= ticks) todo)) (kept ++ filter (fun t => ~ wt t <= ticks) todo) /\
    (forall x, st s' x = if decide (x ∈ filter (fun t => wt t <= ticks) todo) then Some THREAD_STATE_READY else st s x) /\
    (forall l, held s' l = held s l).
Proof.
  induction todo as [|t todo IH]; intros [|fuel] kept s q R S T Hf; [cbn in Hf; lia| |cbn in Hf; lia|].
  { exists s. split; [done|]. done. }
  pose proof S as [Hc Hn Hu]. destruct (chain_present _ _ _ t Hc ltac:(set_solver-)) as [Ht0 _].
  destruct (T t ltac:(by left)) as (th & Hth & Hwt & Hpr & Hrng). assert (T' : timed s wt pr todo) by (intros x Hx; apply T; by right).
  assert (Hnt : t ∉ kept ++ todo). { apply NoDup_app in Hn as (_ & Hn1 & [Hn2 _]%NoDup_cons). intros [H|H]%elem_of_app; [apply (Hn1 t H); by left|done]. }
  assert (Hhd : next th = hd 0 todo).
  { apply chain_app in Hc as (r & _ & -> & _ & th' & Hth' & Hc). rewrite Hth in Hth'. injection Hth' as <-. destruct todo; [done|]. by destruct Hc. }
  cbn [wake_loop hd]. if_lia. erewrite bind_run by (apply thread_at_run, Hth). rewrite Hwt.
  destruct (Z.leb_spec (wt t) ticks) as [Hdue|Hdue].
  - rewrite !filter_cons_True, !filter_cons_False by (done || lia). fold (unlink_sleeper (default 0 (last kept)) (next th)).
    destruct (unlink_sleeper_run s q kept t th todo R S Hth) as (s1 & E1 & R1 & S1 & N1 & Hth1 & Hsame1 & L1). erewrite bind_run by exact E1.
    erewrite bind_run by (apply thread_at_run, Hth1).
    destruct (ready_sleeper_run s1 q (kept ++ todo) t th R1 S1 Hnt (Hu t ltac:(set_solver-)) Ht0 Hth1) as (s2 & E2 & R2 & S2 & T2 & Hsame2 & L2); [lia|].
    assert (Tim2 : timed s2 wt pr todo).
    { intros x Hx. rewrite Hsame2, Hsame1; [by apply T'| |apply elem_of_app; by right]. intros Hk. apply NoDup_app in Hn as (_ & Hn1 & _). apply (Hn1 x Hk). by right. }
    destruct (IH fuel kept s2 _ R2 S2 Tim2) as (s3 & E3 & R3 & S3 & T3 & L3); [cbn in Hf; lia|].
    exists s3. split; [|split; [by rewrite Hpr in R3|split; [by rewrite Hpr in S3|split]]].
    + rewrite Hhd. revert E2. unfold bind. destruct (update_thread t _ s1) as [? s1'| | | |]; [|done..]. intros ->. exact E3.
    + intros x. rewrite T3, T2. destruct (decide (x ∈ filter (fun t => wt t <= ticks) todo)) as [Hx|Hx]; [by rewrite decide_True by (by right)|].
      destruct (decide (x = t)) as [->|Hxt]; [by rewrite decide_True by (by left)|]. rewrite decide_False by (rewrite elem_of_cons; tauto).
      unfold st. specialize (N1 x). destruct (threads s1 !! x), (threads s !! x); [|done..]. cbn in *. by injection N1 as ? ? ->.
    + intros l. by rewrite L3, L2, L1.
  - rewrite !filter_cons_False, !filter_cons_True by lia. rewrite Hhd.
    replace (kept ++ t :: todo) with ((kept ++ [t]) ++ todo) in S by (by rewrite <- app_assoc).
    destruct (IH fuel (kept ++ [t]) s q R S T') as (s3 & E3 & R3 & S3 & T3 & L3); [cbn in Hf; lia|]. rewrite last_snoc in E3. rewrite <- app_assoc in S3. by exists s3.
Qed.

(** The timer tick wakes exactly the sleeping threads whose time has come: they
    become ready and are appended to the queues of processor 0 in the order of the
    sleeping queue, the others stay asleep in their order. *)
Theorem wake_sleepers_correct s q l wt pr ticks :
  rep s q -> sleeping s q l -> timed s wt pr l -> held s SleepLock = false ->
  exists s', wake_sleepers ticks s = Ret tt s' /\
    rep s' (append_all pr q (filter (fun t => wt t <= ticks) l)) /\
    sleeping s' (append_all pr q (filter (fun t => wt t <= ticks) l)) (filter (fun t => ~ wt t <= ticks) l) /\
    (forall x, st s' x = if decide (x ∈ filter (fun t => wt t <= ticks) l) then Some THREAD_STATE_READY else st s x) /\
    held s' SleepLock = false.
Proof.
  intros R S T Hlk. unfold wake_sleepers. erewrite bind_run by (apply lock_run, Hlk). fold (locked s SleepLock). sstep. sstep. cbv beta.
  destruct (wake_loop_run ticks wt pr l (walk_fuel (locked s SleepLock)) [] (locked s SleepLock) q) as (s1 & E1 & R1 & S1 & T1 & L1); [by destruct R; split| |done| |].
  - by destruct S; split.
  - pose proof (thread_chain_length _ _ _ (sleeping_chain _ _ _ S) (sleeping_nodup _ _ _ S)). unfold walk_fuel. cbn. lia.
  - assert (Hhd : sleeping_queue (locked s SleepLock) = hd 0 l) by (destruct S as [S _ _]; destruct l; [done|by destruct S]). rewrite Hhd.
    erewrite bind_run by exact E1. eexists. split; [reflexivity|]. split; [|split; [by destruct S1; split|split; [exact T1|]]].
    + destruct R1 as [Q1 Q2 Q3 Q4 Q5 Q6]. split; [done..|]. intros c. sproj. by rewrite decide_False.
    + sproj. by rewrite decide_True.
Qed.

(** ** A concrete system

    Processor 0 runs thread 3000 of priority 64; with [two], thread 2000 is ready at the
    same priority.  The idle thread is 1000, threads 4000 and 5000 sleep. *)

Definition demo_thread (id prio nxt wake : Z) (x : thread_state_t) : thread_t :=
  {| tid := id; name := fun _ => 0; state := x; priority := prio; context := fun _ => 0; kernel_stack := 0; kernel_stack_size := 0;
     next := nxt; cpu_time := 0; wakeup_time := wake; cpu_affinity := -1 |}.

Definition demo (two : bool) : sched :=
  {| threads := <[1000 := demo_thread 0 0 0 0 THREAD_STATE_READY]> (<[2000 := demo_thread 1 64 3000 0 THREAD_STATE_READY]>
                (<[3000 := demo_thread 2 64 0 0 THREAD_STATE_RUNNING]> (<[4000 := demo_thread 3 64 5000 10 THREAD_STATE_SLEEPING]>
                (<[5000 := demo_thread 4 32 0 20 THREAD_STATE_SLEEPING]> ∅))));
     rqs := fun c => {| ready_queues := fun p => if (c =? 0) && (p =? 64) then (if two then 2000 else 3000) else if (c =? 0) && (p =? 0) then 1000 else 0;
                        blocked_queue := 0; current_thread := if c =? 0 then 3000 else 0; idle_thread := if c =? 0 then 1000 else 0; rq_cpu_id := c |};
     held := fun _ => false; thread_table := fun _ => 0; next_tid := 5; sleeping_queue := 4000; tick_counter := fun _ => 0;
     need_reschedule := fun _ => false; last_balance := 0; steal_start := fun _ => 0; stack_words := fun _ => 0 |}.

Definition demo_queues (two : bool) : queues := put_queue (put_queue (fun _ _ => []) 0 0 [1000]) 0 64 (if two then [2000; 3000] else [3000]).

Lemma elem_demo two c p t : t ∈ demo_queues two c p -> c = 0 /\ ((p = 64 /\ (t = 2000 \/ t = 3000)) \/ (p = 0 /\ t = 1000)).
Proof.
  intros [(-> & -> & H)|[_ [(-> & -> & H)|[_ H]]%elem_put_queue]]%elem_put_queue; [|apply list_elem_of_singleton in H; lia|by apply elem_of_nil in H].
  destruct two; rewrite ?elem_of_cons, ?elem_of_nil in H; lia.
Qed.

Ltac demo_chain := repeat (split; [reflexivity|split; [done|eexists; split; [vm_compute; reflexivity|]]]); reflexivity.

Lemma demo_rep two : rep (demo two) (demo_queues two).
Proof.
  split.
  - intros c p. unfold demo_queues. destruct (decide (c = 0 /\ p = 64)) as [[-> ->]|H1].
    + rewrite put_queue_eq. destruct two; demo_chain.
    + rewrite put_queue_ne by done. destruct (decide (c = 0 /\ p = 0)) as [[-> ->]|H2].
      * rewrite put_queue_eq. demo_chain.
      * rewrite put_queue_ne by done. cbn. by repeat if_lia.
  - intros c p. unfold demo_queues, put_queue. repeat case_decide; destruct two; apply (bool_decide_unpack _); by vm_compute.
  - intros c p c' p' t H1%elem_demo H2%elem_demo. lia.
  - intros c p t (-> & [[-> [->| ->]]|[-> ->]])%elem_demo; eexists; (split; [vm_compute; reflexivity|done]).
  - intros c p. unfold demo_queues, put_queue, MAX_CPUS. repeat case_decide; [lia|lia|done].
  - done.
Qed.

Lemma demo_round two : round (demo two) (demo_queues two) 0 64 (if two then [2000; 3000] else [3000]) 3000.
Proof.
  split; [apply demo_rep|apply put_queue_eq| |destruct two; rewrite ?elem_of_cons; tauto|done|].
  - intros p Hp. unfold demo_queues. by rewrite !put_queue_ne by lia.
  - cbn. destruct two; rewrite ?elem_of_cons, ?elem_of_nil; lia.
Qed.

Lemma demo_ready : Forall (ready (demo true)) [2000].
Proof. apply Forall_singleton. by vm_compute. Qed.

Lemma schedule_round_robin_witness : exists s' q', schedules 2 0 (demo true) = Ret tt s' /\ current_thread (rqs s' 0) = 3000 /\ rep s' q' /\ q' 0 64 = [2000; 3000].
Proof.
  destruct (schedule_round_robin (demo true) (demo_queues true) 0 64 [2000] 3000 [] 1 3000 (demo_round true) ltac:(done) demo_ready ltac:(by vm_compute) ltac:(done)) as (s' & q' & E & C & _ & R & Q & _).
  exists s', q'. split; [exact E|]. split; [exact C|]. split; [exact R|exact Q].
Defined.

Lemma pick_next_thread_correct_witness : exists s', pick_next_thread 0 (demo true) = Ret 2000 s' /\ rep s' (put_queue (demo_queues true) 0 64 [3000; 2000]).
Proof.
  destruct (pick_next_thread_correct (demo true) (demo_queues true) 0 (demo_rep true) ltac:(unfold MAX_CPUS; lia)) as [H _].
  destruct (H 64 2000 [3000] (demo_thread 1 64 3000 0 THREAD_STATE_READY)) as (s' & E & R & _); [reflexivity| |vm_compute; reflexivity|exists s'; split; [exact E|exact R]].
  intros p Hp. by apply (demo_round true).
Defined.

Lemma suspended_thread_runs_again_witness : exists s1 s2, thread_block 0 (demo true) = Ret (Some (3000, 2000)) s1 /\ schedules 1 0 s1 = Ret tt s2 /\ current_thread (rqs s2 0) = 3000.
Proof. by apply (suspended_thread_runs_again (demo true) (demo_queues true) 0 64 2000 [] 3000 (demo_round true) demo_ready). Defined.

Lemma lone_thread_exit_panics_witness : thread_exit 0 (demo false) = Panic.
Proof. by apply (lone_thread_exit_panics (demo false) (demo_queues false) 0 64 3000 (demo_thread 2 64 0 0 THREAD_STATE_RUNNING) (demo_round false)). Defined.

Lemma created_thread_lost_witness : exists s1 s2 q2, thread_create 7 0 8 9 64 6000 7000 (demo_thread 0 0 0 0 THREAD_STATE_READY) (demo true) = Ret 5 s1 /\
  scheduler_schedule 0 s1 = Ret (Some (3000, 2000)) s2 /\ rep s2 q2 /\ unqueued q2 6000.
Proof.
  destruct (created_thread_lost (demo true) (demo_queues true) 7 0 8 9 64 2000 [] 3000 6000 7000 (demo_thread 0 0 0 0 THREAD_STATE_READY) (demo_round true) ltac:(by vm_compute) demo_ready
    ltac:(done) ltac:(done) ltac:(done) ltac:(by vm_compute) ltac:(by vm_compute)) as (s1 & s2 & q2 & E1 & E2 & _ & R & U & _).
  exists s1, s2, q2. split; [exact E1|]. split; [exact E2|]. split; [exact R|exact U].
Defined.

Lemma idle_cpu_deadlocks_witness : exists s0 s1 s2, scheduler_init 2 (fun c => 1000 + 8 * c) (fun _ => demo_thread 0 0 0 0 THREAD_STATE_READY) sched_zero = Ret tt s0 /\
  scheduler_schedule 1 s0 = Ret None s1 /\ scheduler_schedule 1 s1 = Ret None s2 /\ scheduler_schedule 1 s2 = Deadlock.
Proof. apply idle_cpu_deadlocks; [unfold MAX_CPUS; lia|intros; lia|intros; lia|lia]. Defined.

Lemma ready_queues_refine_witness : exists s' q', queue_calls [Add 2000 0; Move 3000 1] (demo true) = Ret tt s' /\ rep s' q' /\ q' 0 64 = [2000] /\ q' 1 64 = [3000].
Proof.
  destruct (ready_queues_refine [Add 2000 0; Move 3000 1] (demo true) (fun t => match threads (demo true) !! t with Some th => priority th | None => 0 end) (demo_queues true) (demo_rep true)) as (s' & E & R & _).
  - intros t th H. by rewrite H.
  - split; [|split; [|exact I]].
    + split; [unfold MAX_CPUS; lia|]. split; [intros c' p' H%elem_demo; lia|]. split; [lia|]. vm_compute. repeat split; try done; by eexists.
    + split; [unfold MAX_CPUS; lia|]. split; [lia|]. vm_compute. repeat split; try done; by eexists.
  - eexists s', _. split; [exact E|]. split; [exact R|]. split; vm_compute; reflexivity.
Defined.

Lemma load_balance_correct_witness : exists s' q', scheduler_load_balance 2 1000 (demo true) = Ret tt s' /\ rep s' q' /\ last_balance s' = 1000.
Proof.
  destruct (load_balance_correct (demo true) (demo_queues true) 2 1000 (demo_rep true)) as (s' & q' & b & l & E & R & L & _); [unfold MAX_CPUS; lia|by vm_compute| |exists s', q'; split; [exact E|split; [exact R|exact L]]].
  intros c. unfold load. destruct (decide (c = 0)) as [->|Hc]; [by vm_compute|].
  assert (H : forall n i, lengths (demo_queues true) c n i = 0); [|rewrite H; done].
  induction n as [|n IH]; intros i; [done|]. cbn [lengths]. rewrite IH. unfold demo_queues. by rewrite !put_queue_ne by tauto.
Defined.

Lemma wake_sleepers_correct_witness : exists s', wake_sleepers 15 (demo true) = Ret tt s' /\ rep s' (append (demo_queues true) 0 64 4000) /\
  sleeping s' (append (demo_queues true) 0 64 4000) [5000].
Proof.
  destruct (wake_sleepers_correct (demo true) (demo_queues true) [4000; 5000] (fun t => if t =? 4000 then 10 else 20) (fun t => if t =? 4000 then 64 else 32) 15 (demo_rep true)) as (s' & E & R & S & _); [| |reflexivity|exists s'; split; [exact E|split; [exact R|exact S]]].
  - split; [demo_chain| |].
    + apply (bool_decide_unpack _). by vm_compute.
    + intros t Ht c p H%elem_demo. rewrite !elem_of_cons, elem_of_nil in Ht. lia.
  - intros t Ht. rewrite !elem_of_cons, elem_of_nil in Ht. destruct Ht as [->|[->|[]]]; eexists; (split; [vm_compute; reflexivity|]); cbn; repeat split; lia.
Defined.
