(* ===== verification/Packet.v ===== *)
(** * Packets (kernel/include/net and the headers that kernel/net builds)

    Packets are lists of bytes, accessed as in [Buffer].  This file holds the layouts of
    the packets, the checksums of IP and ICMP, and the arithmetic of the Internet
    checksum. *)

From stdpp Require Import base tactics list numbers option.
From Stdlib Require Import Lia.
From S2P Require Import Prelude Effect Bytes Buffer.

#[local] Open Scope Z_scope.
#[local] Open Scope effect_scope.

(** ** Byte order *)

Definition bswap16 (x : Z) : Z := u16 (Z.lor (Z.shiftl x 8) (Z.shiftr (u16 x) 8)).

(** ** Constants *)

Definition ETH_HEADER_SIZE : Z := 14.
Definition ETH_MIN_SIZE : Z := 60.
Definition ETH_TYPE_IPV4 : Z := 0x0800.
Definition ETH_TYPE_ARP : Z := 0x0806.
Definition MAX_ETH_HANDLERS : Z := 16.
Definition ARP_OP_REQUEST : Z := 1.
Definition ARP_OP_REPLY : Z := 2.
Definition ARP_HW_TYPE_ETHERNET : Z := 1.
Definition ARP_PROTO_TYPE_IPV4 : Z := 0x0800.
Definition ARP_CACHE_SIZE : nat := 64.
Definition ARP_CACHE_TIMEOUT : Z := 30000.
Definition ARP_RESOLVE_TIMEOUT : Z := 1000.
Definition ARP_PACKET_SIZE : Z := 28.
Definition IP_HEADER_SIZE : Z := 20.
Definition IP_PROTOCOL_ICMP : Z := 1.
Definition IP_PROTOCOL_TCP : Z := 6.
Definition IP_PROTOCOL_UDP : Z := 17.
Definition ICMP_HEADER_SIZE : Z := 8.
Definition ICMP_TYPE_ECHO_REPLY : Z := 0.
Definition ICMP_TYPE_ECHO_REQUEST : Z := 8.
Definition ICMP_CODE_ECHO : Z := 0.
Definition UDP_HEADER_SIZE : Z := 8.

(** ["eth0"] *)
Definition eth0 : list Z := [101; 116; 104; 48].

(** ** Checksums *)

Section checksums.
  Context {St : Type}.

#[local] Abbreviation M := (Effect.M St).

(** [for (i < n) sum += bswap16(words[i])]; [None] when the words run past the buffer. *)
Fixpoint add_words (b : list Z) (n sum : Z) : option Z :=
  if n <=? 0 then Some sum
  else match b with
       | x :: y :: b => add_words b (n - 1) (u32 (sum + bswap16 (le_value [x; y])))
       | _ => None
       end.

(** [while (sum >> 16) sum = (sum & 0xFFFF) + (sum >> 16)] *)
Fixpoint fold_carries (fuel : nat) (sum : Z) : option Z :=
  if Z.shiftr sum 16 =? 0 then Some sum
  else match fuel with O => None | S fuel => fold_carries fuel (u32 (Z.land sum 0xFFFF + Z.shiftr sum 16)) end.

(** Three rounds bring every 32-bit sum below 2^16. *)
Definition fold_fuel : nat := 3.

Definition finish (sum : option Z) : M Z :=
  match sum with
  | None => stop Fault
  | Some sum => match fold_carries fold_fuel sum with None => stop NoFuel | Some sum => ret (bswap16 (u16 (Z.lnot sum))) end
  end.

Definition ip_checksum (header : list Z) : M Z :=
  v <~ rd8 header 0;;
  let header_len := Z.land v 0x0F * 4 in
  finish (add_words header (header_len / 2) 0).

(** The words of [len] bytes and the last byte when [len] is odd. *)
Definition add_bytes (b : list Z) (len sum : Z) : option Z :=
  sum ← add_words b (len / 2) sum;
  if len mod 2 =? 0 then Some sum else x ← b !! Z.to_nat (len - 1); Some (u32 (sum + Z.shiftl x 8)).

Definition icmp_checksum (header : list Z) (len : Z) : M Z := finish (add_bytes header len 0).

End checksums.

(** ** Packets *)

Definition ethernet_frame (dest_mac src_mac : list Z) (type : Z) (data : list Z) : list Z :=
  dest_mac ++ src_mac ++ le_bytes 2 (bswap16 type) ++ data.

Definition arp_packet (op : Z) (sender_mac : list Z) (sender_ip : Z) (target_mac : list Z) (target_ip : Z) : list Z :=
  le_bytes 2 (bswap16 ARP_HW_TYPE_ETHERNET) ++ le_bytes 2 (bswap16 ARP_PROTO_TYPE_IPV4) ++ [6; 4] ++ le_bytes 2 (bswap16 op) ++
  sender_mac ++ le_bytes 4 sender_ip ++ target_mac ++ le_bytes 4 target_ip.

Definition ip_packet (total protocol checksum src dest : Z) (data : list Z) : list Z :=
  [0x45; 0] ++ le_bytes 2 total ++ le_bytes 2 0 ++ le_bytes 2 0 ++ [64; protocol] ++ le_bytes 2 checksum ++ le_bytes 4 src ++ le_bytes 4 dest ++ data.

Definition icmp_packet (type code checksum identifier sequence : Z) (payload : list Z) : list Z :=
  [type; code] ++ le_bytes 2 checksum ++ le_bytes 2 identifier ++ le_bytes 2 sequence ++ payload.

Definition udp_packet (src_port dest_port len checksum : Z) (data : list Z) : list Z :=
  le_bytes 2 src_port ++ le_bytes 2 dest_port ++ le_bytes 2 len ++ le_bytes 2 checksum ++ data.

(** The buffer with the two bytes at [o] cleared, as [checksum = 0] leaves it. *)
Definition clear16 (b : list Z) (o : nat) : list Z := buf_write b o [0; 0].

Definition broadcast_mac : list Z := repeat 0xFF 6.

(** ** Lemmas on byte order *)

Lemma bswap16_eq x : fits 16 x -> bswap16 x = (x mod 256) * 256 + x / 256.
Proof.
  intros Hx. unfold bswap16. rewrite (wrap_small 16 x) by done. rewrite Z.shiftl_mul_pow2, Z.shiftr_div_pow2 by lia. change (2 ^ 8) with 256.
  assert (Hd : 0 <= x / 256 < 256) by (unfold fits in Hx; dlia). rewrite (lor_low x 8) by (change (2 ^ 8) with 256; lia). change (2 ^ 8) with 256.
  unfold wrap. change (2 ^ 16) with 65536. unfold fits in *. dlia.
Qed.

Lemma bswap16_fits x : fits 16 (bswap16 x).
Proof. apply wrap_fits. lia. Qed.

Lemma bswap16_involutive x : fits 16 x -> bswap16 (bswap16 x) = x.
Proof. intros Hx. rewrite (bswap16_eq (bswap16 x)) by apply bswap16_fits. rewrite bswap16_eq by done. unfold fits in Hx. dlia. Qed.

(** The two bytes of a swapped word, most significant first. *)
Lemma le_bytes_bswap16 x : fits 16 x -> le_bytes 2 (bswap16 x) = [x / 256; x mod 256].
Proof.
  intros Hx. rewrite bswap16_eq by done. cbn [le_bytes]. unfold wrap. rewrite Z.shiftr_div_pow2 by lia. change (2 ^ 8) with 256. unfold fits in Hx.
  f_equal; [dlia|]. f_equal. dlia.
Qed.

(** A word stored without a swap, as the other side reads it. *)
Lemma stored_word x : fits 16 x -> 256 * u8 x + u8 (Z.shiftr x 8) = bswap16 x.
Proof. intros Hx. rewrite bswap16_eq by done. rewrite Z.shiftr_div_pow2 by lia. unfold wrap, fits in *. dlia. Qed.

Lemma bswap16_pair x y : fits 8 x -> fits 8 y -> bswap16 (le_value [x; y]) = 256 * x + y.
Proof. intros Hx Hy. cbn [le_value]. rewrite bswap16_eq by fits_lia. unfold fits in *. dlia. Qed.

(** ** The Internet checksum of RFC 1071

    The sum of the 16-bit words of a list of bytes, and its representative in one's
    complement arithmetic: 0 for 0, else in 1 .. 65535. *)

Fixpoint words_sum (b : list Z) : Z :=
  match b with x :: y :: b => 256 * x + y + words_sum b | [x] => 256 * x | [] => 0 end.

Definition ones_sum (s : Z) : Z := if s =? 0 then 0 else (s - 1) mod 65535 + 1.

Lemma pair_ind (P : list Z -> Prop) : P [] -> (forall x, P [x]) -> (forall x y b, P b -> P (x :: y :: b)) -> forall b, P b.
Proof.
  intros H0 H1 H2 b. assert (P b /\ forall x, P (x :: b)) as [? _]; [|done].
  induction b as [|y b [IH IH']]; [done|]. split; [apply IH'|]. intros x. by apply H2.
Qed.

Lemma words_sum_bounds b : bytes b -> 0 <= words_sum b <= 32768 * (Z.of_nat (length b) + 1).
Proof.
  induction b as [|x|x y b IH] using pair_ind; intros Hb; [done| |].
  - apply Forall_cons_1 in Hb as [Hx _]. cbn. fits_lia.
  - apply Forall_cons_1 in Hb as [Hx Hb]. apply Forall_cons_1 in Hb as [Hy Hb]. specialize (IH Hb). cbn [words_sum length]. fits_lia.
Qed.

Lemma words_sum_app a b : Nat.even (length a) = true -> words_sum (a ++ b) = words_sum a + words_sum b.
Proof. induction a as [|x|x y a IH] using pair_ind; intros Ha; [done|done|]. cbn [app words_sum]. rewrite IH by done. lia. Qed.

Lemma add_words_run n : forall b sum, bytes b -> (2 * n <= length b)%nat -> 0 <= sum -> sum + words_sum (take (2 * n) b) < 2 ^ 32 ->
  add_words b (Z.of_nat n) sum = Some (sum + words_sum (take (2 * n) b)).
Proof.
  induction n as [|n IH]; intros b sum Hb Hl H0 Hs; [destruct b; cbn; f_equal; lia|].
  destruct b as [|x [|y b]]; [cbn in Hl; lia|cbn in Hl; lia|]. apply Forall_cons_1 in Hb as [Hx Hb]. apply Forall_cons_1 in Hb as [Hy Hb].
  replace (2 * S n)%nat with (S (S (2 * n))) in * by lia. cbn [take] in *. cbn [add_words words_sum] in *. if_lia.
  assert (0 <= words_sum (take (2 * n) b)) by (apply words_sum_bounds; by apply Forall_take).
  rewrite bswap16_pair by done. rewrite wrap_small by fits_lia. replace (Z.of_nat (S n) - 1) with (Z.of_nat n) by lia. cbn [length] in Hl.
  rewrite IH; [f_equal; lia|done|lia|fits_lia|lia].
Qed.

Lemma fold_carries_run s : 0 <= s < 2 ^ 32 -> fold_carries fold_fuel s = Some (ones_sum s).
Proof.
  intros Hs. assert (Hstep : forall t, 65536 <= t < 2 ^ 32 -> ones_sum (u32 (Z.land t 0xFFFF + Z.shiftr t 16)) = ones_sum t /\
    0 <= u32 (Z.land t 0xFFFF + Z.shiftr t 16) <= 65535 + t / 65536).
  { intros t Ht. replace (Z.land t 0xFFFF) with (t mod 65536) by (change 0xFFFF with (Z.ones 16); by rewrite Z.land_ones by lia).
    rewrite Z.shiftr_div_pow2 by lia. change (2 ^ 16) with 65536.
    rewrite wrap_small by (unfold fits; change (2 ^ 32) with 4294967296 in *; dlia). unfold ones_sum. change (2 ^ 32) with 4294967296 in *. split; [|dlia].
    assert (t mod 65536 + t / 65536 <> 0) by dlia. if_lia. if_lia. f_equal. pose proof (Z.div_mod t 65536 ltac:(lia)) as E.
    replace (t - 1) with (t mod 65536 + t / 65536 - 1 + (t / 65536) * 65535) by lia. by rewrite Z.mod_add by lia. }
  assert (Hend : forall t fuel, 0 <= t < 65536 -> fold_carries fuel t = Some (ones_sum t)).
  { intros t fuel Ht. assert (E : (Z.shiftr t 16 =? 0) = true) by (rewrite Z.shiftr_div_pow2 by lia; change (2 ^ 16) with 65536; apply Z.eqb_eq; dlia).
    destruct fuel; cbn [fold_carries]; rewrite E; unfold ones_sum; (destruct (Z.eqb_spec t 0) as [->|]; [done|]); f_equal; dlia. }
  assert (Hgo : forall t fuel, 65536 <= t < 2 ^ 32 -> fold_carries (S fuel) t = fold_carries fuel (u32 (Z.land t 0xFFFF + Z.shiftr t 16))).
  { intros t fuel Ht. cbn [fold_carries]. rewrite (proj2 (Z.eqb_neq _ _)); [done|]. rewrite Z.shiftr_div_pow2 by lia. change (2 ^ 16) with 65536. change (2 ^ 32) with 4294967296 in *. dlia. }
  unfold fold_fuel. change (2 ^ 32) with 4294967296 in *.
  destruct (decide (s < 65536)); [apply Hend; lia|]. rewrite Hgo by lia. destruct (Hstep s ltac:(lia)) as [E1 B1]. rewrite <- E1. revert B1. generalize (u32 (Z.land s 0xFFFF + Z.shiftr s 16)). intros t B1.
  destruct (decide (t < 65536)); [apply Hend; lia|]. assert (t < 4294967296) by dlia. rewrite Hgo by lia. destruct (Hstep t ltac:(lia)) as [E2 B2]. rewrite <- E2. revert B2. generalize (u32 (Z.land t 0xFFFF + Z.shiftr t 16)). intros u B2.
  destruct (decide (u < 65536)); [apply Hend; lia|]. assert (t / 65536 <= 1) by dlia. assert (u = 65536) as -> by lia. done.
Qed.

Lemma ones_sum_bounds s : 0 <= s -> 0 <= ones_sum s <= 65535.
Proof. intros. unfold ones_sum. destruct (Z.eqb_spec s 0); [lia|]. dlia. Qed.

Section running.
  Context {St : Type}.

Lemma finish_run sum (s : St) : 0 <= sum < 2 ^ 32 -> finish (Some sum) s = Ret (bswap16 (65535 - ones_sum sum)) s.
Proof.
  intros Hs. unfold finish. rewrite fold_carries_run by done. unfold ret. do 2 f_equal. pose proof (ones_sum_bounds sum ltac:(lia)). unfold wrap. unfold Z.lnot.
  change (2 ^ 16) with 65536. rewrite <- (Z.mod_add _ 1) by lia. rewrite Z.mod_small by lia. lia.
Qed.

(** The length of an IP header by its first byte. *)
Definition header_length (v : Z) : nat := Z.to_nat (Z.land v 0x0F * 4).

Lemma header_length_bounds v : (header_length v <= 60)%nat /\ Nat.even (header_length v) = true /\ Z.of_nat (header_length v) = Z.land v 0x0F * 4.
Proof.
  unfold header_length. assert (0 <= Z.land v 0x0F < 16) by (change 0x0F with (Z.ones 4); rewrite Z.land_ones by lia; change (2 ^ 4) with 16; apply Z.mod_pos_bound; lia).
  split; [lia|]. split; [|lia]. apply Nat.even_spec. exists (Z.to_nat (Z.land v 0x0F * 2)). lia.
Qed.

(** [ip_checksum] is the complement of the one's complement sum of the header. *)
Lemma ip_checksum_run b v (s : St) :
  bytes b -> b !! 0%nat = Some v -> (header_length v <= length b)%nat ->
  ip_checksum b s = Ret (bswap16 (65535 - ones_sum (words_sum (take (header_length v) b)))) s.
Proof.
  intros Hb Hv Hl. unfold ip_checksum. erewrite bind_run by (apply rd8_run; exact Hv). destruct (header_length_bounds v) as (H60 & He & Hz).
  apply Nat.even_spec in He as [n Hn]. replace (Z.land v 0x0F * 4 / 2) with (Z.of_nat n) by (rewrite <- Hz; dlia).
  assert (Hs : 0 <= words_sum (take (header_length v) b) < 2 ^ 32).
  { pose proof (words_sum_bounds (take (header_length v) b) ltac:(by apply Forall_take)) as H. rewrite length_take in H. lia. }
  rewrite Hn in *. rewrite (add_words_run n b 0) by (done || lia). apply finish_run. lia.
Qed.

End running.

(** Clearing a word of the header. *)
Lemma words_sum_split (b : list Z) j hl x y :
  Nat.even j = true -> (j + 2 <= hl <= length b)%nat -> b !! j = Some x -> b !! S j = Some y ->
  words_sum (take hl b) = words_sum (take j b) + (256 * x + y) + words_sum (drop (j + 2) (take hl b)).
Proof.
  intros He Hj Hx Hy. rewrite <- (take_drop j (take hl b)) at 1. rewrite take_take, Nat.min_l by lia. rewrite words_sum_app by (by rewrite length_take_le by lia).
  rewrite (drop_S (take hl b) x j) by (by rewrite lookup_take_lt by lia). rewrite (drop_S (take hl b) y (S j)) by (by rewrite lookup_take_lt by lia).
  cbn [words_sum]. replace (j + 2)%nat with (S (S j)) by lia. lia.
Qed.

Lemma words_sum_write (b : list Z) j hl x y x' y' :
  Nat.even j = true -> (j + 2 <= hl <= length b)%nat -> b !! j = Some x -> b !! S j = Some y ->
  words_sum (take hl (buf_write b j [x'; y'])) = words_sum (take hl b) - (256 * x + y) + (256 * x' + y').
Proof.
  intros He Hj Hx Hy. rewrite (words_sum_split b j hl x y) by done.
  assert (Hlen : length (buf_write b j [x'; y']) = length b) by (apply buf_write_length; cbn; lia).
  assert (Hp : take j (buf_write b j [x'; y']) = take j b) by (unfold buf_write; rewrite take_app_le by (rewrite length_take; lia); by rewrite take_take, Nat.min_id).
  assert (Hs : drop (j + 2) (take hl (buf_write b j [x'; y'])) = drop (j + 2) (take hl b)).
  { rewrite !skipn_firstn_comm. f_equal. pose proof (buf_write_drop b j [x'; y']) as H. cbn [length] in H. apply H. lia. }
  rewrite (words_sum_split (buf_write b j [x'; y']) j hl x' y'); [rewrite Hp, Hs; lia|done|lia| |].
  - unfold buf_write. rewrite lookup_app_r by (rewrite length_take; lia). by rewrite length_take_le, Nat.sub_diag by lia.
  - unfold buf_write. rewrite lookup_app_r by (rewrite length_take; lia). rewrite length_take_le by lia. by replace (S j - j)%nat with 1%nat by lia.
Qed.

Lemma bytes_pair x y : fits 8 x -> fits 8 y -> bytes [x; y].
Proof. intros. apply Forall_cons_2; [done|]. apply Forall_cons_2; [done|]. apply Forall_nil_2. Qed.

Lemma lookup_write_pair (b : list Z) j x' y' i :
  (j + 2 <= length b)%nat -> buf_write b j [x'; y'] !! i = if decide (i = j) then Some x' else if decide (i = S j) then Some y' else b !! i.
Proof.
  intros Hj. unfold buf_write. destruct (decide (i < j)%nat).
  - rewrite lookup_app_l by (rewrite length_take; lia). rewrite lookup_take_lt by lia. by rewrite !decide_False by lia.
  - rewrite lookup_app_r by (rewrite length_take; lia). rewrite length_take_le by lia. case_decide; [subst; by rewrite Nat.sub_diag|].
    case_decide; [subst; by replace (S j - j)%nat with 1%nat by lia|]. rewrite lookup_app_r by (cbn; lia). rewrite lookup_drop. f_equal. cbn. lia.
Qed.

(** The sum of a header without its checksum is positive. *)
Lemma header_sum_pos b v j :
  bytes b -> b !! 0%nat = Some v -> (20 <= header_length v <= length b)%nat -> Nat.even j = true -> (2 <= j)%nat -> (j + 2 <= header_length v)%nat ->
  0 < words_sum (take (header_length v) (buf_write b j [0; 0])).
Proof.
  intros Hb Hv Hl He H2 Hj. assert (Hv0 : 0 < v).
  { assert (fits 8 v) by (eapply Forall_lookup_1; done). destruct (decide (v = 0)) as [->|]; [change (header_length 0) with 0%nat in Hl; lia|]. fits_lia. }
  assert (Hb' : bytes (buf_write b j [0; 0])) by (apply buf_write_bytes; [done|]; apply bytes_pair; fits_lia).
  destruct (buf_write b j [0; 0]) as [|x t] eqn:E; [apply (f_equal length) in E; rewrite buf_write_length in E by (cbn; lia); cbn in E; lia|].
  pose proof (lookup_write_pair b j 0 0 0 ltac:(lia)) as H0. rewrite E, !decide_False, Hv in H0 by lia. injection H0 as ->.
  apply Forall_cons_1 in Hb' as [Hx Ht]. destruct (header_length v) as [|[|n]] eqn:En; [lia|lia|]. destruct t as [|y t]; [cbn [take words_sum]; lia|]. apply Forall_cons_1 in Ht as [Hy Ht]. cbn [take words_sum].
  pose proof (words_sum_bounds (take n t) ltac:(by apply Forall_take)). fits_lia.
Qed.

Definition word_at (b : list Z) (j : nat) : Z := 256 * (b !!! j) + (b !!! S j).

Lemma word_at_eq b i x y : b !! i = Some x -> b !! S i = Some y -> word_at b i = 256 * x + y.
Proof. intros Hx Hy. unfold word_at. by rewrite (list_lookup_total_correct _ _ _ Hx), (list_lookup_total_correct _ _ _ Hy). Qed.

(** The word at [i], as the code reads it. *)
Lemma rd16_word b i : bytes b -> (i + 2 <= length b)%nat -> bswap16 (le_value (take 2 (drop i b))) = word_at b i /\ fits 16 (le_value (take 2 (drop i b))).
Proof.
  intros Hb Hi. destruct (lookup_lt_is_Some_2 b i ltac:(lia)) as [x Hx]. destruct (lookup_lt_is_Some_2 b (S i) ltac:(lia)) as [y Hy].
  rewrite (drop_S _ x), (drop_S _ y) by done. cbn [take]. rewrite take_0, (word_at_eq b i x y) by done.
  assert (fits 8 x /\ fits 8 y) as [? ?] by (split; eapply Forall_lookup_1; done). split; [by apply bswap16_pair|]. cbn [le_value]. fits_lia.
Qed.

Lemma ones_sum_eq a b : 0 < a -> 0 < b -> ones_sum a = ones_sum b -> (b - a) mod 65535 = 0.
Proof. intros Ha Hb. unfold ones_sum. if_lia. if_lia. intros E. dlia. Qed.

Lemma add_words_short n : forall b sum, (length b < 2 * n)%nat -> add_words b (Z.of_nat n) sum = None.
Proof.
  induction n as [|n IH]; intros b sum Hl; [lia|]. destruct b as [|x [|y b]]; cbn [add_words]; if_lia; [done|done|].
  replace (Z.of_nat (S n) - 1) with (Z.of_nat n) by lia. apply IH. cbn in Hl. lia.
Qed.

Lemma icmp_checksum_short {St} b len (s : St) : 0 <= len -> Z.of_nat (length b) < len -> icmp_checksum b len s = Fault.
Proof.
  intros H0 Hl. unfold icmp_checksum, add_bytes. destruct (add_words b (len / 2) 0) as [sum|] eqn:E; [|done]. cbn [mbind option_bind].
  assert (Hz : len / 2 = Z.of_nat (Z.to_nat (len / 2))) by (rewrite Z2Nat.id; [done|apply Z.div_pos; lia]).
  destruct (decide (length b < 2 * Z.to_nat (len / 2))%nat) as [H|H]; [rewrite Hz, add_words_short in E by done; done|].
  assert (len mod 2 <> 0) by dlia. if_lia. by rewrite lookup_ge_None_2 by lia.
Qed.

Definition framed (dst src : list Z) (type : Z) (payload : list Z) : list Z :=
  ethernet_frame dst src type (payload ++ repeat 0 (46 - length payload)).

(** The datagram [ip_send] builds. *)
Definition ip_datagram (protocol src dest : Z) (data : list Z) : list Z :=
  let packet c := ip_packet (bswap16 (IP_HEADER_SIZE + Z.of_nat (length data))) protocol c src dest data in
  packet (bswap16 (65535 - ones_sum (words_sum (take 20 (packet 0))))).

Lemma ip_packet_bytes total protocol c src dest data : fits 8 protocol -> bytes data -> bytes (ip_packet total protocol c src dest data).
Proof.
  intros Hp Hd. unfold ip_packet. apply Forall_app_2; [apply bytes_pair; fits_lia|]. do 3 (apply Forall_app_2; [apply le_bytes_ok|]). apply Forall_app_2; [apply bytes_pair; [fits_lia|done]|].
  do 3 (apply Forall_app_2; [apply le_bytes_ok|]). done.
Qed.

Lemma take_app_exact {A} n (l k : list A) : length l = n -> take n (l ++ k) = l.
Proof. intros <-. by rewrite take_app_length. Qed.

Lemma drop_app_exact {A} n (l k : list A) : length l = n -> drop n (l ++ k) = k.
Proof. intros <-. by rewrite drop_app_length. Qed.

(** The message of an echo request or reply. *)
Definition icmp_message (type identifier sequence : Z) (payload : list Z) : list Z :=
  let packet c := icmp_packet type ICMP_CODE_ECHO c (bswap16 identifier) (bswap16 sequence) payload in
  packet (bswap16 (65535 - ones_sum (words_sum (packet 0)))).

Lemma icmp_packet_length type code c i q p : length (icmp_packet type code c i q p) = (8 + length p)%nat.
Proof. unfold icmp_packet. rewrite !length_app, !le_bytes_length. done. Qed.

Lemma icmp_packet_bytes type code c i q p : fits 8 type -> fits 8 code -> bytes p -> bytes (icmp_packet type code c i q p).
Proof. intros. unfold icmp_packet. apply Forall_app_2; [by apply bytes_pair|]. do 3 (apply Forall_app_2; [apply le_bytes_ok|]). done. Qed.

(** [icmp_checksum] of the first bytes of a buffer. *)
Lemma add_bytes_run b junk sum : bytes b -> bytes junk -> 0 <= sum -> sum + words_sum b < 2 ^ 32 ->
  add_bytes (b ++ junk) (Z.of_nat (length b)) sum = Some (sum + words_sum b).
Proof.
  intros Hb Hj H0 Hs. pose proof (words_sum_bounds b Hb) as Hw.
  assert (Hbj : bytes (b ++ junk)) by by apply Forall_app_2. unfold add_bytes.
  destruct (Nat.Even_or_Odd (length b)) as [[n Hn]|[n Hn]].
  - replace (Z.of_nat (length b) / 2) with (Z.of_nat n) by dlia. replace (Z.of_nat (length b) mod 2) with 0 by dlia.
    rewrite add_words_run; rewrite <- ?Hn, ?take_app_length; try (done || lia). rewrite length_app. lia.
  - replace (Z.of_nat (length b) / 2) with (Z.of_nat n) by dlia. replace (Z.of_nat (length b) mod 2) with 1 by dlia.
    assert (Hx : exists a x, b = a ++ [x] /\ length a = (2 * n)%nat).
    { clear -Hn. induction b as [|x a _] using rev_ind; [cbn in Hn; lia|]. exists a, x. rewrite length_app in Hn. cbn in Hn. split; [done|lia]. }
    destruct Hx as (a & x & -> & Ha). apply Forall_app in Hb as [Hba Hbx]. apply Forall_cons_1 in Hbx as [Hx _].
    rewrite <- app_assoc in *. rewrite words_sum_app in * by (rewrite Ha; apply Nat.even_spec; by exists n). cbn [words_sum] in *. pose proof (words_sum_bounds a Hba).
    rewrite add_words_run; rewrite ?take_app_exact by done; try (done || fits_lia); [|rewrite length_app; lia].
    cbn. rewrite length_app. replace (Z.to_nat (Z.of_nat (length a + length [x]) - 1)) with (length a) by (cbn; lia).
    rewrite list_lookup_middle by done. cbn. rewrite Z.shiftl_mul_pow2 by lia. rewrite wrap_small by fits_lia. f_equal. lia.
Qed.

Lemma icmp_checksum_run {St} b junk (s : St) : bytes b -> bytes junk -> Z.of_nat (length b) < 2 ^ 16 ->
  icmp_checksum (b ++ junk) (Z.of_nat (length b)) s = Ret (bswap16 (65535 - ones_sum (words_sum b))) s.
Proof.
  intros Hb Hj Hl. pose proof (words_sum_bounds b Hb). unfold icmp_checksum. rewrite add_bytes_run by (done || fits_lia). apply finish_run. fits_lia.
Qed.

Lemma le_value_word b o c rest : drop o b = le_bytes 2 c ++ rest -> fits 16 c -> le_value (take 2 (drop o b)) = c.
Proof. intros -> Hc. rewrite take_app_exact by apply le_bytes_length. apply le_value_bytes. exact Hc. Qed.

Lemma le_value_dword b o c rest : drop o b = le_bytes 4 c ++ rest -> fits 32 c -> le_value (take 4 (drop o b)) = c.
Proof. intros -> Hc. rewrite take_app_exact by apply le_bytes_length. apply le_value_bytes. exact Hc. Qed.

Lemma ip_packet_app total protocol c src dest data junk :
  ip_packet total protocol c src dest data ++ junk = ip_packet total protocol c src dest (data ++ junk).
Proof. unfold ip_packet. by rewrite <- !app_assoc. Qed.

Lemma ip_packet_length total protocol c src dest data : length (ip_packet total protocol c src dest data) = (20 + length data)%nat.
Proof. unfold ip_packet. rewrite !length_app, !le_bytes_length. done. Qed.

Lemma icmp_packet_app type code c i q p junk : icmp_packet type code c i q p ++ junk = icmp_packet type code c i q (p ++ junk).
Proof. unfold icmp_packet. by rewrite <- !app_assoc. Qed.

Lemma icmp_message_length type i q p : length (icmp_message type i q p) = (8 + length p)%nat.
Proof. apply icmp_packet_length. Qed.

Lemma icmp_message_bytes type i q p : fits 8 type -> bytes p -> bytes (icmp_message type i q p).
Proof. intros. apply icmp_packet_bytes; [done|unfold ICMP_CODE_ECHO; fits_lia|done]. Qed.

Lemma framed_length dst src type payload : length dst = 6%nat -> length src = 6%nat -> length (framed dst src type payload) = (14 + (length payload + (46 - length payload)))%nat.
Proof. intros H1 H2. unfold framed, ethernet_frame. rewrite !length_app, le_bytes_length, repeat_length. lia. Qed.

Lemma arp_packet_length op smac sip tmac tip : length smac = 6%nat -> length tmac = 6%nat -> length (arp_packet op smac sip tmac tip) = 28%nat.
Proof. intros H1 H2. unfold arp_packet. rewrite !length_app, !le_bytes_length, H1, H2. done. Qed.

Lemma arp_packet_drop op smac sip tmac tip junk : length smac = 6%nat -> length tmac = 6%nat ->
  drop 8 (arp_packet op smac sip tmac tip ++ junk) = smac ++ le_bytes 4 sip ++ tmac ++ le_bytes 4 tip ++ junk /\
  drop 14 (arp_packet op smac sip tmac tip ++ junk) = le_bytes 4 sip ++ tmac ++ le_bytes 4 tip ++ junk /\
  drop 24 (arp_packet op smac sip tmac tip ++ junk) = le_bytes 4 tip ++ junk.
Proof.
  intros H1 H2. assert (E8 : drop 8 (arp_packet op smac sip tmac tip ++ junk) = smac ++ le_bytes 4 sip ++ tmac ++ le_bytes 4 tip ++ junk) by (unfold arp_packet; rewrite <- !app_assoc; reflexivity).
  assert (E14 : drop 14 (arp_packet op smac sip tmac tip ++ junk) = le_bytes 4 sip ++ tmac ++ le_bytes 4 tip ++ junk) by (change 14%nat with (8 + 6)%nat; rewrite <- drop_drop, E8; by apply drop_app_exact).
  split; [done|]. split; [done|]. change 24%nat with (14 + 10)%nat. rewrite <- drop_drop, E14, app_assoc. apply drop_app_exact. rewrite length_app, le_bytes_length. lia.
Qed.

Lemma ip_datagram_length protocol src dest data : length (ip_datagram protocol src dest data) = (20 + length data)%nat.
Proof. apply ip_packet_length. Qed.

Lemma repeat_bytes n : bytes (repeat 0 n).
Proof. induction n; constructor; [fits_lia|done]. Qed.

Lemma arp_packet_bytes op smac sip tmac tip : bytes smac -> bytes tmac -> bytes (arp_packet op smac sip tmac tip).
Proof. intros. unfold arp_packet. repeat apply Forall_app_2; try done; try apply le_bytes_ok. apply bytes_pair; fits_lia. Qed.
