(* ===== verification/Net.v ===== *)
(** * Network stack below TCP (kernel/net: network.c, ethernet.c, arp.c, ip.c, icmp.c, udp.c)

    A buffer handed to a receive function may be longer than the packet in it.

    The parts outside: [send_packet], the driver of a device, which takes a frame and
    gives an error code; [mem_ok], whether the n-th call of [kmalloc] succeeds;
    [uptime], the n-th value of [time_get_uptime_ms], after so many calls of
    [timer_sleep_ms]; [during_sleep], what the rest of
    the system does to the state in the n-th [timer_sleep_ms].  Frames given to the
    driver are logged in [sent].  The locks of network.c and arp.c are released on every
    path before another function is called and are left out. *)

From stdpp Require Import base tactics list numbers option gmap.
From Stdlib Require Import Lia.
From S2P Require Import Prelude Effect Bytes Buffer Packet.

#[local] Open Scope Z_scope.

(** ** State *)

Record net_device_t := {
  dev_name : list Z; mac_address : list Z; ip_address : Z; netmask : Z; gateway : Z; up : bool; dev_next : Z
}.

Record arp_cache_entry_t := { e_ip : Z; e_mac : list Z; timestamp : Z; valid : bool }.

(** The protocol handlers that are registered. *)
Inductive ethernet_protocol_handler_t := arp_handler | ip_handler.

Record net := {
  devs : gmap Z net_device_t; devices : Z; net_initialized : bool;
  eth_handlers : arr (Z * ethernet_protocol_handler_t); eth_handler_count : Z;
  cache : arr arp_cache_entry_t; arp_initialized : bool; last_req : Z;
  sent : list (Z * list Z);
  allocs : nat; clock_reads : nat; sleeps : nat
}.

Definition set_devs (s : net) (d : gmap Z net_device_t) (h : Z) (i : bool) : net :=
  {| devs := d; devices := h; net_initialized := i; eth_handlers := eth_handlers s; eth_handler_count := eth_handler_count s; cache := cache s;
     arp_initialized := arp_initialized s; last_req := last_req s; sent := sent s; allocs := allocs s; clock_reads := clock_reads s; sleeps := sleeps s |}.
Definition set_handlers (s : net) (h : arr (Z * ethernet_protocol_handler_t)) (n : Z) : net :=
  {| devs := devs s; devices := devices s; net_initialized := net_initialized s; eth_handlers := h; eth_handler_count := n; cache := cache s;
     arp_initialized := arp_initialized s; last_req := last_req s; sent := sent s; allocs := allocs s; clock_reads := clock_reads s; sleeps := sleeps s |}.
Definition set_arp (s : net) (c : arr arp_cache_entry_t) (i : bool) (l : Z) : net :=
  {| devs := devs s; devices := devices s; net_initialized := net_initialized s; eth_handlers := eth_handlers s; eth_handler_count := eth_handler_count s; cache := c;
     arp_initialized := i; last_req := l; sent := sent s; allocs := allocs s; clock_reads := clock_reads s; sleeps := sleeps s |}.
Definition set_sent (s : net) (l : list (Z * list Z)) : net :=
  {| devs := devs s; devices := devices s; net_initialized := net_initialized s; eth_handlers := eth_handlers s; eth_handler_count := eth_handler_count s; cache := cache s;
     arp_initialized := arp_initialized s; last_req := last_req s; sent := l; allocs := allocs s; clock_reads := clock_reads s; sleeps := sleeps s |}.
Definition set_counters (s : net) (a c z : nat) : net :=
  {| devs := devs s; devices := devices s; net_initialized := net_initialized s; eth_handlers := eth_handlers s; eth_handler_count := eth_handler_count s; cache := cache s;
     arp_initialized := arp_initialized s; last_req := last_req s; sent := sent s; allocs := a; clock_reads := c; sleeps := z |}.

Abbreviation M := (Effect.M net).
#[local] Open Scope effect_scope.

(** ** Devices *)

Fixpoint find_loop (fuel : nat) (name : list Z) (d : Z) : M Z :=
  match fuel with
  | O => stop NoFuel
  | S fuel =>
      if d =? 0 then ret 0
      else fun s => match devs s !! d with
                    | None => Fault
                    | Some dev => if bool_decide (dev_name dev = name) then Ret d s else find_loop fuel name (dev_next dev) s
                    end
  end.

Definition network_find_device (name : list Z) : M Z :=
  init <~ get net_initialized;;
  if negb init then ret 0 else h <~ get devices;; fuel <~ get (fun s => S (size (devs s)));; find_loop fuel name h.

Definition device_at (d : Z) : M net_device_t := fun s => match devs s !! d with Some dev => Ret dev s | None => Fault end.

Definition network_register_device (device : Z) : M error_code_t :=
  init <~ get net_initialized;;
  if (device =? 0) || negb init then ret ERR_INVALID_ARG
  else
    dev <~ device_at device;;
    modify (fun s => set_devs s (<[device := {| dev_name := dev_name dev; mac_address := mac_address dev; ip_address := ip_address dev;
                                                netmask := netmask dev; gateway := gateway dev; up := up dev; dev_next := devices s |}]> (devs s))
                              device (net_initialized s));;;
    ret ERR_OK.

Definition network_set_ip (device ip mask gw : Z) : M error_code_t :=
  if device =? 0 then ret ERR_INVALID_ARG
  else
    dev <~ device_at device;;
    modify (fun s => set_devs s (<[device := {| dev_name := dev_name dev; mac_address := mac_address dev; ip_address := ip;
                                                netmask := mask; gateway := gw; up := up dev; dev_next := dev_next dev |}]> (devs s))
                              (devices s) (net_initialized s));;;
    ret ERR_OK.

(** The device called [eth0] and its address, if there is one and it is up. *)
Definition up_device : M (option (Z * net_device_t)) :=
  d <~ network_find_device eth0;;
  if d =? 0 then ret None else dev <~ device_at d;; if up dev then ret (Some (d, dev)) else ret None.

(** ** Ethernet handlers *)

Definition ethernet_init : M error_code_t :=
  modify (fun s => set_handlers s (fun _ => (0, arp_handler)) 0);;; ret ERR_OK.

Definition ethernet_register_protocol (type : Z) (handler : ethernet_protocol_handler_t) : M error_code_t :=
  n <~ get eth_handler_count;;
  if MAX_ETH_HANDLERS <=? n then ret ERR_OUT_OF_MEMORY
  else
    h <~ get eth_handlers;;
    match find_first (fun i => fst (h i) =? type) 0 (Z.to_nat n) with
    | Some i => modify (fun s => set_handlers s (h.[i <- (type, handler)]) n);;; ret ERR_OK
    | None => modify (fun s => set_handlers s (h.[n <- (type, handler)]) (n + 1));;; ret ERR_OK
    end.

(** ** ARP cache *)

Definition arp_init : M error_code_t :=
  init <~ get arp_initialized;;
  if (init : bool) then ret ERR_OK
  else modify (fun s => set_arp s (fun _ => {| e_ip := 0; e_mac := repeat 0 6; timestamp := 0; valid := false |}) true (last_req s));;; ret ERR_OK.

(** The entry to write: the one of the address, else the first free one, else the oldest. *)
Fixpoint update_scan (n : nat) (i ip : Z) (c : arr arp_cache_entry_t) (entry : option Z) (oldest oldest_time : Z) : Z :=
  match n with
  | O => default oldest entry
  | S n =>
      if valid (c i) && (e_ip (c i) =? ip) then i
      else
        let entry := match entry with None => if negb (valid (c i)) then Some i else None | Some j => Some j end in
        if timestamp (c i) <? oldest_time then update_scan n (i + 1) ip c entry i (timestamp (c i))
        else update_scan n (i + 1) ip c entry oldest oldest_time
  end.

Definition network_init : M error_code_t :=
  init <~ get net_initialized;;
  if (init : bool) then ret ERR_OK
  else
    modify (fun s => set_devs s (devs s) 0 true);;;
    ethernet_init;;; arp_init;;;
    ethernet_register_protocol ETH_TYPE_ARP arp_handler;;; ethernet_register_protocol ETH_TYPE_IPV4 ip_handler;;;
    ret ERR_OK.

Section protocols.
  Context (send_packet : Z -> list Z -> error_code_t) (mem_ok : nat -> bool) (uptime : nat -> nat -> Z) (during_sleep : nat -> net -> net).

Definition kmalloc : M bool := fun s => Ret (mem_ok (allocs s)) (set_counters s (S (allocs s)) (clock_reads s) (sleeps s)).
Definition now : M Z := fun s => Ret (uptime (clock_reads s) (sleeps s)) (set_counters s (allocs s) (S (clock_reads s)) (sleeps s)).
Definition sleep : M unit := modify (fun s => during_sleep (sleeps s) (set_counters s (allocs s) (clock_reads s) (S (sleeps s)))).
Definition transmit (device : Z) (frame : list Z) : M error_code_t :=
  modify (fun s => set_sent s (sent s ++ [(device, frame)]));;; ret (send_packet device frame).

Definition ethernet_send (data dest_mac : list Z) (type device : Z) : M error_code_t :=
  let len := Z.of_nat (length data) in
  if (device =? 0) || (len =? 0) then ret ERR_INVALID_ARG
  else
    let frame_size := u64 (ETH_HEADER_SIZE + len) in
    let frame_size := if frame_size <? ETH_MIN_SIZE then ETH_MIN_SIZE else frame_size in
    ok <~ kmalloc;;
    if negb ok then ret ERR_OUT_OF_MEMORY
    else
      dev <~ device_at device;;
      let pad := if ETH_HEADER_SIZE + len <? frame_size then repeat 0 (Z.to_nat (frame_size - ETH_HEADER_SIZE - len)) else [] in
      transmit device (ethernet_frame dest_mac (mac_address dev) type (data ++ pad)).

(** *** ARP *)

Definition arp_update_cache (ip : Z) (mac : list Z) : M unit :=
  init <~ get arp_initialized;;
  if negb init then ret tt
  else
    c <~ get cache;;
    let i := update_scan ARP_CACHE_SIZE 0 ip c None 0 (2 ^ 64 - 1) in
    t <~ now;;
    modify (fun s => set_arp s (c.[i <- {| e_ip := ip; e_mac := mac; timestamp := t; valid := true |}]) (arp_initialized s) (last_req s)).

Definition arp_request (ip : Z) : M error_code_t :=
  init <~ get arp_initialized;;
  if negb init then ret ERR_INVALID_STATE
  else
    d <~ up_device;;
    match d with
    | None => ret ERR_DEVICE_NOT_FOUND
    | Some (device, dev) =>
        ok <~ kmalloc;;
        if negb ok then ret ERR_OUT_OF_MEMORY
        else ethernet_send (arp_packet ARP_OP_REQUEST (mac_address dev) (ip_address dev) (repeat 0 6) ip) broadcast_mac ETH_TYPE_ARP device
    end.

(** The search of the cache; entries of the address that have expired are dropped. *)
Fixpoint search_cache (n : nat) (i ip : Z) : M (option (list Z)) :=
  match n with
  | O => ret None
  | S n =>
      c <~ get cache;;
      if valid (c i) && (e_ip (c i) =? ip) then
        t <~ now;;
        if ARP_CACHE_TIMEOUT <? u64 (t - timestamp (c i)) then
          modify (fun s => set_arp s (c.[i <- {| e_ip := e_ip (c i); e_mac := e_mac (c i); timestamp := timestamp (c i); valid := false |}])
                                     (arp_initialized s) (last_req s));;;
          search_cache n (i + 1) ip
        else ret (Some (e_mac (c i)))
      else search_cache n (i + 1) ip
  end.

Fixpoint resolve_loop (fuel : nat) (start ip : Z) : M (list Z + error_code_t) :=
  match fuel with
  | O => stop NoFuel
  | S fuel =>
      t <~ now;;
      if u64 (t - start) <? ARP_RESOLVE_TIMEOUT then
        r <~ search_cache ARP_CACHE_SIZE 0 ip;;
        match r with
        | Some mac => ret (inl mac)
        | None =>
            t <~ now;; last <~ get last_req;;
            (if 200 <? u64 (t - last) then
               arp_request ip;;; t <~ now;; modify (fun s => set_arp s (cache s) (arp_initialized s) t)
             else ret tt);;;
            sleep;;; resolve_loop fuel start ip
        end
      else ret (inr ERR_TIMEOUT)
  end.

(** Each round sleeps for 10 of the 1000 milliseconds. *)
Definition resolve_fuel : nat := 102.

Definition arp_resolve (ip : Z) : M (list Z + error_code_t) :=
  init <~ get arp_initialized;;
  if negb init then ret (inr ERR_INVALID_ARG) else start <~ now;; resolve_loop resolve_fuel start ip.

Definition arp_handle_packet (device : Z) (b : list Z) (len : Z) : M error_code_t :=
  init <~ get arp_initialized;;
  if negb init || (len <? ARP_PACKET_SIZE) then ret ERR_INVALID_ARG
  else
    hw <~ rd16 b 0;; proto <~ rd16 b 2;;
    if negb (bswap16 hw =? ARP_HW_TYPE_ETHERNET) || negb (bswap16 proto =? ARP_PROTO_TYPE_IPV4) then ret ERR_NOT_SUPPORTED
    else if device =? 0 then ret ERR_DEVICE_NOT_FOUND
    else
      dev <~ device_at device;;
      if negb (up dev) then ret ERR_DEVICE_NOT_FOUND
      else
        op <~ rd16 b 6;;
        if bswap16 op =? ARP_OP_REQUEST then
          target_ip <~ rd32 b 24;;
          if target_ip =? ip_address dev then
            sender_mac <~ rd b 8 6;; sender_ip <~ rd32 b 14;;
            ethernet_send (arp_packet ARP_OP_REPLY (mac_address dev) (ip_address dev) sender_mac sender_ip) sender_mac ETH_TYPE_ARP device;;; ret ERR_OK
          else ret ERR_OK
        else if bswap16 op =? ARP_OP_REPLY then
          sender_ip <~ rd32 b 14;; sender_mac <~ rd b 8 6;;
          arp_update_cache sender_ip sender_mac;;; ret ERR_OK
        else ret ERR_OK.

(** *** IP *)

Definition ip_send (dest_ip protocol : Z) (data : list Z) : M error_code_t :=
  let len := Z.of_nat (length data) in
  if len =? 0 then ret ERR_INVALID_ARG
  else
    d <~ up_device;;
    match d with
    | None => ret ERR_DEVICE_NOT_FOUND
    | Some (device, dev) =>
        let packet_size := u64 (IP_HEADER_SIZE + len) in
        ok <~ kmalloc;;
        if negb ok then ret ERR_OUT_OF_MEMORY
        else
          let packet checksum := ip_packet (bswap16 (u16 packet_size)) protocol checksum (ip_address dev) dest_ip data in
          checksum <~ ip_checksum (packet 0);;
          let packet := packet checksum in
          if dest_ip =? 0xFFFFFFFF then ethernet_send packet (repeat 0xFF 6) ETH_TYPE_IPV4 device
          else
            let src_net := Z.land (ip_address dev) (netmask dev) in
            let dest_net := Z.land dest_ip (netmask dev) in
            let next_hop_ip := if src_net =? dest_net then dest_ip else gateway dev in
            r <~ arp_resolve next_hop_ip;;
            match r with
            | inr err => ret err
            | inl dest_mac => ethernet_send packet dest_mac ETH_TYPE_IPV4 device
            end
    end.

(** *** ICMP *)

Definition icmp_send_echo (dest_ip identifier sequence : Z) (data : list Z) : M error_code_t :=
  ok <~ kmalloc;;
  if negb ok then ret ERR_OUT_OF_MEMORY
  else
    let icmp checksum := icmp_packet ICMP_TYPE_ECHO_REQUEST ICMP_CODE_ECHO checksum (bswap16 identifier) (bswap16 sequence) data in
    let packet_size := u64 (ICMP_HEADER_SIZE + Z.of_nat (length data)) in
    checksum <~ icmp_checksum (icmp 0) packet_size;;
    ip_send dest_ip IP_PROTOCOL_ICMP (icmp checksum).

Definition icmp_handle_packet (b : list Z) (len src_ip : Z) : M error_code_t :=
  if len <? ICMP_HEADER_SIZE then ret ERR_INVALID_ARG
  else
    checksum <~ rd16 b 2;;
    calculated <~ icmp_checksum (clear16 b 2) len;;
    if negb (checksum =? calculated) then ret ERR_FAILED
    else
      d <~ up_device;;
      match d with
      | None => ret ERR_DEVICE_NOT_FOUND
      | Some _ =>
          type <~ rd8 b 0;;
          if type =? ICMP_TYPE_ECHO_REQUEST then
            identifier <~ rd16 b 4;; sequence <~ rd16 b 6;;
            let payload_len := u64 (len - ICMP_HEADER_SIZE) in
            let reply_size := u64 (ICMP_HEADER_SIZE + payload_len) in
            ok <~ kmalloc;;
            if negb ok then ret ERR_OUT_OF_MEMORY
            else
              payload <~ rd b 8 (Z.to_nat payload_len);;
              let reply checksum := icmp_packet ICMP_TYPE_ECHO_REPLY ICMP_CODE_ECHO checksum identifier sequence payload in
              checksum <~ icmp_checksum (reply 0) reply_size;;
              ip_send src_ip IP_PROTOCOL_ICMP (reply checksum)
          else if type =? ICMP_TYPE_ECHO_REPLY then ret ERR_OK
          else ret ERR_NOT_SUPPORTED
      end.

Definition ip_receive (device : Z) (b : list Z) (len : Z) : M error_code_t :=
  if device =? 0 then ret ERR_INVALID_ARG
  else
    checksum <~ rd16 b 10;;
    calculated <~ ip_checksum (clear16 b 10);;
    if negb (checksum =? calculated) then ret ERR_FAILED
    else
      dev <~ device_at device;;
      dest_ip <~ rd32 b 16;;
      if negb (dest_ip =? ip_address dev) && negb (dest_ip =? 0xFFFFFFFF) then ret ERR_NOT_FOUND
      else
        v <~ rd8 b 0;;
        let header_len := Z.land v 0x0F * 4 in
        total <~ rd16 b 2;;
        let payload_len := u64 (bswap16 total - header_len) in
        proto <~ rd8 b 9;; src <~ rd32 b 12;;
        if proto =? IP_PROTOCOL_ICMP then icmp_handle_packet (drop (Z.to_nat header_len) b) payload_len src;;; ret ERR_OK
        else ret ERR_OK.

(** *** UDP *)

Definition udp_send (dest_ip dest_port src_port : Z) (data : list Z) : M error_code_t :=
  let len := Z.of_nat (length data) in
  if len =? 0 then ret ERR_INVALID_ARG
  else
    let packet_size := u64 (UDP_HEADER_SIZE + len) in
    ok <~ kmalloc;;
    if negb ok then ret ERR_OUT_OF_MEMORY
    else ip_send dest_ip IP_PROTOCOL_UDP (udp_packet (bswap16 src_port) (bswap16 dest_port) (bswap16 (u16 packet_size)) 0 data).

Definition udp_receive : M error_code_t := ret ERR_NOT_SUPPORTED.

(** *** Receiving a frame *)

(** [b] and [len]: what the driver put into the caller's buffer, with code [err]. *)
Definition ethernet_receive (device : Z) (err : error_code_t) (b : list Z) (len : Z) : M error_code_t :=
  if device =? 0 then ret ERR_INVALID_ARG
  else if negb (bool_decide (err = ERR_OK)) then ret err
  else if len <? ETH_HEADER_SIZE then ret ERR_INVALID_ARG
  else
    dest <~ rd b 0 6;;
    dev <~ device_at device;;
    let is_broadcast := forallb (fun x => x =? 0xFF) dest in
    let is_for_us := bool_decide (dest = mac_address dev) in
    if negb is_broadcast && negb is_for_us then ret ERR_NOT_FOUND
    else
      let payload_len := u64 (len - ETH_HEADER_SIZE) in
      type <~ rd16 b 12;;
      h <~ get eth_handlers;; n <~ get eth_handler_count;;
      match find_first (fun i => fst (h i) =? bswap16 type) 0 (Z.to_nat n) with
      | None => ret ERR_NOT_SUPPORTED
      | Some i =>
          match snd (h i) with
          | arp_handler => arp_handle_packet device (drop 14 b) payload_len
          | ip_handler => ip_receive device (drop 14 b) payload_len
          end
      end.

(** ** Receiving an IP packet *)

(** What [ip_receive] does with a packet whose checksum is right. *)
Definition ip_deliver (device : Z) (b : list Z) : M error_code_t :=
  dev <~ device_at device;;
  dest_ip <~ rd32 b 16;;
  if negb (dest_ip =? ip_address dev) && negb (dest_ip =? 0xFFFFFFFF) then ret ERR_NOT_FOUND
  else
    v <~ rd8 b 0;;
    total <~ rd16 b 2;;
    let payload_len := u64 (bswap16 total - Z.land v 0x0F * 4) in
    proto <~ rd8 b 9;; src <~ rd32 b 12;;
    if proto =? IP_PROTOCOL_ICMP then icmp_handle_packet (drop (header_length v) b) payload_len src;;; ret ERR_OK
    else ret ERR_OK.

Lemma ip_receive_eq device b v len s :
  bytes b -> b !! 0%nat = Some v -> (20 <= header_length v <= length b)%nat -> device <> 0 ->
  ip_receive device b len s =
  if word_at b 10 =? 65535 - ones_sum (words_sum (take (header_length v) b) - word_at b 10) then ip_deliver device b s else Ret ERR_FAILED s.
Proof.
  intros Hb Hv Hl Hd. destruct (lookup_lt_is_Some_2 b 10 ltac:(lia)) as [k1 Hk1]. destruct (lookup_lt_is_Some_2 b 11 ltac:(lia)) as [k2 Hk2].
  pose proof (words_sum_write b 10 (header_length v) k1 k2 0 0 eq_refl ltac:(lia) Hk1 Hk2) as Hw. rewrite !Z.add_0_r in Hw.
  rewrite <- (word_at_eq b 10 k1 k2 Hk1 Hk2) in Hw.
  unfold ip_receive. if_lia. erewrite bind_run by (apply rd16_run; cbn; lia).
  assert (Hbw : bytes (clear16 b 10)) by (apply buf_write_bytes; [done|]; apply bytes_pair; fits_lia).
  erewrite bind_run; [|apply (ip_checksum_run _ v); [done| |unfold clear16; rewrite buf_write_length by (cbn; lia); lia]].
  2:{ unfold clear16. by rewrite lookup_write_pair, !decide_False by lia. }
  destruct (rd16_word b 10 Hb ltac:(lia)) as [Hsw Hf]. change (Z.to_nat 10) with 10%nat. set (c := le_value (take 2 (drop 10 b))) in *.
  unfold clear16. rewrite Hw. set (S0 := words_sum (take (header_length v) b) - word_at b 10) in *.
  assert (0 <= S0) by (rewrite <- Hw; apply words_sum_bounds; by apply Forall_take). pose proof (ones_sum_bounds S0 ltac:(lia)).
  destruct (Z.eqb_spec (word_at b 10) (65535 - ones_sum S0)) as [E|E].
  - replace c with (bswap16 (65535 - ones_sum S0)) by (rewrite <- E, <- Hsw; by apply bswap16_involutive). by rewrite Z.eqb_refl.
  - rewrite (proj2 (Z.eqb_neq c _)); [done|]. intros Ec. apply E. by rewrite <- Hsw, Ec, bswap16_involutive by fits_lia.
Qed.

(** C25. Error detection.  Take a packet with a header of at least 20 bytes, all of it in
    the buffer, that [ip_receive] does not refuse, and change one 16-bit word of that
    header, other than from 0 to 0xFFFF or back and without changing the length of the
    header, which is the low half of the first byte.  Then the packet is refused.  A change
    of the header length is outside the theorem: it makes the checksum cover other
    bytes. *)
Theorem ip_corruption_detected device b v j x' y' len s :
  bytes b -> b !! 0%nat = Some v -> (20 <= header_length v <= length b)%nat -> device <> 0 ->
  Nat.even j = true -> (j + 2 <= header_length v)%nat -> fits 8 x' -> fits 8 y' -> (j = 0%nat -> header_length x' = header_length v) ->
  let w := word_at b j in let w' := 256 * x' + y' in
  w <> w' -> ~ (w = 0 /\ w' = 65535) -> ~ (w = 65535 /\ w' = 0) ->
  ip_receive device b len s <> Ret ERR_FAILED s -> ip_receive device (buf_write b j [x'; y']) len s = Ret ERR_FAILED s.
Proof.
  intros Hb Hv Hl Hd He Hj Hx' Hy' H0 w w' Hne H1 H2 Hok. rewrite (ip_receive_eq device b v) in Hok by done.
  destruct (Z.eqb_spec (word_at b 10) (65535 - ones_sum (words_sum (take (header_length v) b) - word_at b 10))) as [Hk|]; [|done]. clear Hok.
  destruct (lookup_lt_is_Some_2 b j ltac:(lia)) as [x Hx]. destruct (lookup_lt_is_Some_2 b (S j) ltac:(lia)) as [y Hy].
  assert (Hw : w = 256 * x + y) by (by apply word_at_eq).
  assert (Hbx : fits 8 x /\ fits 8 y) by (split; eapply Forall_lookup_1; done).
  set (b' := buf_write b j [x'; y']). assert (Hlen : length b' = length b) by (apply buf_write_length; cbn; lia).
  assert (Hat : forall i, b' !! i = if decide (i = j) then Some x' else if decide (i = S j) then Some y' else b !! i) by (intros; apply lookup_write_pair; lia).
  set (v' := if decide (j = 0%nat) then x' else v).
  assert (Hv' : b' !! 0%nat = Some v') by (rewrite Hat; unfold v'; destruct (decide (j = 0%nat)) as [->|]; [done|]; rewrite !decide_False by lia; done).
  assert (Hlv : header_length v' = header_length v) by (unfold v'; case_decide; [by apply H0|done]).
  assert (Hb' : bytes b') by (apply buf_write_bytes; [done|by apply bytes_pair]).
  assert (Hsum : words_sum (take (header_length v) b') = words_sum (take (header_length v) b) - w + w') by (rewrite Hw; apply words_sum_write; (done || lia)).
  rewrite (ip_receive_eq device b' v') by (done || lia). rewrite Hlv, Hsum, (proj2 (Z.eqb_neq _ _)); [done|].
  destruct (decide (j = 10%nat)) as [->|Hj10].
  { rewrite (word_at_eq b' 10 x' y'); [|by rewrite Hat, decide_True|by rewrite Hat, decide_False, decide_True]. fold w in Hk. fold w'.
    replace (words_sum (take (header_length v) b) - w + w' - w') with (words_sum (take (header_length v) b) - w) by lia. lia. }
  destruct (lookup_lt_is_Some_2 b 10 ltac:(lia)) as [k1 Hk1]. destruct (lookup_lt_is_Some_2 b 11 ltac:(lia)) as [k2 Hk2].
  assert (Hodd : j <> 9%nat /\ j <> 11%nat) by (split; intros ->; done).
  rewrite (word_at_eq b' 10 k1 k2) by (rewrite Hat, !decide_False by lia; done). rewrite (word_at_eq b 10 k1 k2) in Hk by done.
  pose proof (header_sum_pos b v 10 Hb Hv Hl eq_refl ltac:(lia) ltac:(lia)) as P1. pose proof (header_sum_pos b' v' 10 Hb' Hv' ltac:(lia) eq_refl ltac:(lia) ltac:(lia)) as P2. rewrite Hlv in P2.
  rewrite (words_sum_write b 10 _ k1 k2) in P1 by (done || lia). rewrite (words_sum_write b' 10 _ k1 k2) in P2 by (lia || done || (rewrite Hat, !decide_False by lia; done)).
  rewrite Hsum in P2. set (W := words_sum (take (header_length v) b)) in *. intros E.
  assert (D : ones_sum (W - (256 * k1 + k2)) = ones_sum (W - w + w' - (256 * k1 + k2))) by lia. apply ones_sum_eq in D; [|lia|lia].
  replace (W - w + w' - (256 * k1 + k2) - (W - (256 * k1 + k2))) with (w' - w) in D by lia. assert (0 <= w <= 65535 /\ 0 <= w' <= 65535) by (unfold w' in *; fits_lia).
  clear -D Hne H1 H2 H. apply Z.mod_divide in D as [q Hq]; [|lia]. assert (q = 0 \/ q = 1 \/ q = -1) by lia. lia.
Qed.

(** ** Packets longer than the buffer *)

(** Bounds: the length of the payload of an ICMP packet is the total length of the IP
    header less the header length, in 64-bit arithmetic, and is not compared with the
    length of the packet.  A packet that claims more bytes than the buffer holds, or less
    than its header, makes the kernel read outside the buffer. *)
Theorem ip_receive_overreads device dev b v len s :
  bytes b -> b !! 0%nat = Some v -> (20 <= header_length v <= length b)%nat -> device <> 0 -> devs s !! device = Some dev ->
  word_at b 10 = 65535 - ones_sum (words_sum (take (header_length v) b) - word_at b 10) ->
  le_value (take 4 (drop 16 b)) = ip_address dev -> b !! 9%nat = Some IP_PROTOCOL_ICMP -> Z.of_nat (length b) < 2 ^ 63 ->
  word_at b 2 < Z.of_nat (header_length v) \/ Z.of_nat (length b) < word_at b 2 /\ Z.of_nat (header_length v) + 8 <= word_at b 2 ->
  ip_receive device b len s = Fault.
Proof.
  intros Hb Hv Hl Hd Hdev Hck Hip Hproto Hlen Hcase. rewrite (ip_receive_eq device b v) by done. rewrite (proj2 (Z.eqb_eq _ _) Hck). unfold ip_deliver.
  erewrite bind_run by (unfold device_at; by rewrite Hdev). erewrite bind_run by (apply rd32_run; cbn; lia). change (Z.to_nat 16) with 16%nat. rewrite Hip, Z.eqb_refl. cbn [negb andb].
  erewrite bind_run by (by apply rd8_run). erewrite bind_run by (apply rd16_run; cbn; lia). change (Z.to_nat 2) with 2%nat. destruct (rd16_word b 2 Hb ltac:(lia)) as [-> _].
  erewrite bind_run by (by apply rd8_run). erewrite bind_run by (apply rd32_run; cbn; lia). rewrite Z.eqb_refl.
  destruct (header_length_bounds v) as (Hh & _ & Hz). rewrite <- Hz. set (hl := header_length v) in *. assert (Hw : 0 <= word_at b 2 < 65536).
  { destruct (rd16_word b 2 Hb ltac:(lia)) as [<- Hf]. pose proof (bswap16_fits (le_value (take 2 (drop 2 b)))). fits_lia. }
  set (plen := u64 (word_at b 2 - Z.of_nat hl)).
  assert (Hp : 8 <= plen /\ Z.of_nat (length (drop hl b)) < plen).
  { rewrite length_drop. unfold plen. destruct Hcase as [Hc|Hc].
    - unfold wrap. rewrite <- (Z.mod_add _ 1) by lia. rewrite Z.mod_small by lia. change (2 ^ 63) with 9223372036854775808 in Hlen. change (2 ^ 64) with 18446744073709551616. lia.
    - rewrite wrap_small by fits_lia. lia. }
  unfold icmp_handle_packet. rewrite (proj2 (Z.ltb_ge plen _)) by (unfold ICMP_HEADER_SIZE; lia). unfold bind at 1 2. unfold rd16 at 1, bind at 1, rd.
  destruct (_ <=? _)%nat eqn:El; [|done]. apply Nat.leb_le in El. change (Z.to_nat 2) with 2%nat in El. cbv beta iota. unfold ret at 1. unfold bind at 1. rewrite icmp_checksum_short; [done|lia|].
  unfold clear16. rewrite buf_write_length by (cbn [length]; lia). lia.
Qed.

(** ** Hosts

    A host as [network_init] and the driver set it up: one device, [eth0], which is up. *)

Record host (s : net) (d : Z) (dev : net_device_t) : Prop := {
  host_dev : devs s !! d = Some dev;
  host_head : devices s = d /\ d <> 0;
  host_up : dev_name dev = eth0 /\ up dev = true;
  host_init : net_initialized s = true /\ arp_initialized s = true;
  host_handlers : eth_handler_count s = 2 /\ eth_handlers s 0 = (ETH_TYPE_ARP, arp_handler) /\ eth_handlers s 1 = (ETH_TYPE_IPV4, ip_handler);
  host_mac : length (mac_address dev) = 6%nat /\ bytes (mac_address dev);
  host_ip : fits 32 (ip_address dev)
}.

(** The cache holds the address: the entry a search meets first is valid and recent
    enough at the next readings of the clock. *)
Definition cached (s : net) (ip : Z) (mac : list Z) : Prop :=
  exists i ts, 0 <= i < Z.of_nat ARP_CACHE_SIZE /\ cache s i = {| e_ip := ip; e_mac := mac; timestamp := ts; valid := true |} /\
    (forall j, 0 <= j < i -> valid (cache s j) && (e_ip (cache s j) =? ip) = false) /\
    u64 (uptime (clock_reads s + 2) (sleeps s) - ts) <= ARP_CACHE_TIMEOUT /\ u64 (uptime (S (clock_reads s)) (sleeps s) - uptime (clock_reads s) (sleeps s)) < ARP_RESOLVE_TIMEOUT.

Definition counted (s : net) (a c : nat) : net := set_counters s (allocs s + a) (clock_reads s + c) (sleeps s).

Lemma up_device_run s d dev : host s d dev -> up_device s = Ret (Some (d, dev)) s.
Proof.
  intros [H1 [H2 H3] [H4 H5] [H6 _] _ _ _]. unfold up_device, network_find_device. erewrite bind_run.
  2:{ erewrite bind_run by reflexivity. cbv beta. rewrite H6. cbn [negb]. erewrite bind_run by reflexivity. erewrite bind_run by reflexivity. cbv beta. cbn [find_loop]. rewrite H2. if_lia.
      rewrite H1. rewrite bool_decide_true by done. reflexivity. }
  if_lia. erewrite bind_run by (unfold device_at; by rewrite H1). by rewrite H5.
Qed.

Lemma search_cache_hit s ip mac i ts :
  cache s i = {| e_ip := ip; e_mac := mac; timestamp := ts; valid := true |} -> u64 (uptime (clock_reads s) (sleeps s) - ts) <= ARP_CACHE_TIMEOUT ->
  forall n j, 0 <= j <= i -> i < j + Z.of_nat n -> (forall k, j <= k < i -> valid (cache s k) && (e_ip (cache s k) =? ip) = false) ->
  search_cache n j ip s = Ret (Some mac) (counted s 0 1).
Proof.
  intros Hi Ht. induction n as [|n IH]; intros j Hj Hn Hbefore; [lia|]. cbn [search_cache]. erewrite bind_run by reflexivity. cbv beta.
  destruct (decide (j = i)) as [->|]; [|rewrite Hbefore by lia; apply IH; [lia|lia|intros; apply Hbefore; lia]].
  rewrite Hi. cbn [valid e_ip]. rewrite Z.eqb_refl. cbn [andb]. erewrite bind_run by reflexivity. cbn [timestamp e_mac]. rewrite (proj2 (Z.ltb_ge _ _)) by done. unfold ret, counted. do 3 f_equal; lia.
Qed.

Lemma resolve_hit fuel start ip mac s s' :
  u64 (uptime (clock_reads s) (sleeps s) - start) < ARP_RESOLVE_TIMEOUT -> search_cache ARP_CACHE_SIZE 0 ip (counted s 0 1) = Ret (Some mac) s' ->
  resolve_loop (S fuel) start ip s = Ret (inl mac) s'.
Proof.
  intros Ht Hs. cbn [resolve_loop]. erewrite bind_run by reflexivity. rewrite (proj2 (Z.ltb_lt _ _)) by done. unfold counted in Hs. rewrite Nat.add_0_r, Nat.add_1_r in Hs.
  by erewrite bind_run by exact Hs.
Qed.

Lemma arp_resolve_run s ip mac :
  arp_initialized s = true -> cached s ip mac -> arp_resolve ip s = Ret (inl mac) (counted s 0 3).
Proof.
  intros Hin (i & ts & Hi & He & Hb & Ht & Hr). unfold arp_resolve. erewrite bind_run by reflexivity. cbv beta. rewrite Hin. cbn [negb]. erewrite bind_run by reflexivity.
  change resolve_fuel with (S 101). apply resolve_hit; [done|]. match goal with |- search_cache _ _ _ ?x = _ => set (s1 := x) end.
  replace (counted s 0 3) with (counted s1 0 1) by (unfold counted, s1; cbn; f_equal; lia).
  apply (search_cache_hit s1 ip mac i ts); [done|by replace (clock_reads s1) with (clock_reads s + 2)%nat by (unfold s1; cbn; lia)|lia|lia|]. intros k Hk. apply Hb. lia.
Qed.

(** *** Sending *)

Definition sending (s : net) (d : Z) (frame : list Z) : net := set_sent s (sent s ++ [(d, frame)]).

Context (Hmem : forall n, mem_ok n = true).

Lemma ethernet_send_run s d dev data mac type :
  devs s !! d = Some dev -> d <> 0 -> data <> [] -> Z.of_nat (length data) < 2 ^ 63 ->
  ethernet_send data mac type d s =
  Ret (send_packet d (framed mac (mac_address dev) type data)) (sending (counted s 1 0) d (framed mac (mac_address dev) type data)).
Proof.
  intros Hd Hd0 Hne Hl. unfold ethernet_send. assert (0 < Z.of_nat (length data)) by (destruct data; [done|cbn; lia]). if_lia.
  unfold ETH_HEADER_SIZE, ETH_MIN_SIZE. rewrite wrap_small by (change (2 ^ 63) with 9223372036854775808 in Hl; fits_lia).
  erewrite bind_run by reflexivity. rewrite Hmem. cbn [negb]. erewrite bind_run by (unfold device_at; cbn [devs set_counters]; by rewrite Hd).
  assert (Hpad : (if 14 + Z.of_nat (length data) <? (if 14 + Z.of_nat (length data) <? 60 then 60 else 14 + Z.of_nat (length data))
    then repeat 0 (Z.to_nat ((if 14 + Z.of_nat (length data) <? 60 then 60 else 14 + Z.of_nat (length data)) - 14 - Z.of_nat (length data))) else []) = repeat 0 (46 - length data)).
  { destruct (Z.ltb_spec (14 + Z.of_nat (length data)) 60); if_lia; [f_equal; lia|]. by replace (46 - length data)%nat with 0%nat by lia. }
  rewrite Hpad. unfold transmit. erewrite bind_run by reflexivity. unfold ret. f_equal. unfold sending, counted, framed. cbn. by rewrite !Nat.add_0_r, Nat.add_1_r.
Qed.

Lemma ip_send_run s d dev dest protocol data mac :
  host s d dev -> fits 8 protocol -> bytes data -> data <> [] -> IP_HEADER_SIZE + Z.of_nat (length data) < 2 ^ 16 -> dest <> 0xFFFFFFFF ->
  Z.land (ip_address dev) (netmask dev) = Z.land dest (netmask dev) -> cached s dest mac ->
  let frame := framed mac (mac_address dev) ETH_TYPE_IPV4 (ip_datagram protocol (ip_address dev) dest data) in
  ip_send dest protocol data s = Ret (send_packet d frame) (sending (counted s 2 3) d frame).
Proof.
  intros Hh Hp Hb Hne Hl Hdest Hnet Hca frame. unfold ip_send. assert (0 < Z.of_nat (length data)) by (destruct data; [done|cbn; lia]). if_lia.
  erewrite bind_run by (by apply up_device_run). cbv zeta. unfold IP_HEADER_SIZE in Hl |- *. rewrite (wrap_small 64) by fits_lia. rewrite (wrap_small 16) by fits_lia.
  erewrite bind_run by reflexivity. rewrite Hmem. cbn [negb]. cbv zeta.
  erewrite bind_run; [|apply (ip_checksum_run _ 0x45); [by apply ip_packet_bytes|done|]].
  2:{ change (header_length 0x45) with 20%nat. unfold ip_packet. rewrite !length_app, !le_bytes_length. cbn. lia. }
  if_lia. rewrite Hnet, Z.eqb_refl. change (header_length 0x45) with 20%nat.
  match goal with |- bind _ _ ?x = _ => set (s1 := x) end.
  erewrite bind_run; [|apply (arp_resolve_run s1 dest mac); [apply Hh|exact Hca]].
  change (20 + Z.of_nat (length data)) with (IP_HEADER_SIZE + Z.of_nat (length data)).
  fold (ip_datagram protocol (ip_address dev) dest data).
  cbv beta iota. rewrite (ethernet_send_run (counted s1 0 3) d dev); [| |apply Hh| |].
  - fold frame. f_equal. unfold sending, counted, s1, set_sent, set_counters. cbn. f_equal; lia.
  - apply Hh.
  - unfold ip_datagram, ip_packet. done.
  - unfold ip_datagram, ip_packet. rewrite !length_app, !le_bytes_length. cbn [length]. change (2 ^ 63) with 9223372036854775808. change (2 ^ 16) with 65536 in Hl. lia.
Qed.

(** *** Receiving *)

(** A datagram for the host reaches the handler of its protocol with the payload. *)
Lemma ip_receive_datagram s d dev src data junk len :
  devs s !! d = Some dev -> d <> 0 -> fits 32 (ip_address dev) -> fits 32 src -> bytes data -> bytes junk -> IP_HEADER_SIZE + Z.of_nat (length data) < 2 ^ 16 ->
  ip_receive d (ip_datagram IP_PROTOCOL_ICMP src (ip_address dev) data ++ junk) len s =
  (icmp_handle_packet (data ++ junk) (Z.of_nat (length data)) src;;; ret ERR_OK) s.
Proof.
  intros Hd Hd0 Hip Hsrc Hb Hj Hl. unfold IP_HEADER_SIZE in Hl. unfold ip_receive. if_lia. unfold ip_datagram. rewrite ip_packet_app.
  match goal with |- context [ip_packet ?t ?p ?c ?a ?b ?l] => set (sum := c); set (tot := t) in * end.
  set (b := ip_packet tot IP_PROTOCOL_ICMP sum src (ip_address dev) (data ++ junk)).
  assert (Hlen : length b = (20 + length (data ++ junk))%nat) by apply ip_packet_length.
  erewrite bind_run by (apply rd16_run; rewrite Hlen; lia).
  erewrite bind_run; [|apply (ip_checksum_run _ 0x45); [|done|]].
  2:{ apply buf_write_bytes; [|apply bytes_pair; fits_lia]. apply ip_packet_bytes; [unfold IP_PROTOCOL_ICMP; fits_lia|by apply Forall_app_2]. }
  2:{ change (header_length 0x45) with 20%nat. unfold clear16. rewrite buf_write_length; rewrite Hlen; cbn [length]; lia. }
  change (Z.to_nat 10) with 10%nat. erewrite (le_value_word b 10 sum) by (reflexivity || apply bswap16_fits).
  change (take (header_length 0x45) (clear16 b 10)) with (take 20 (ip_packet tot IP_PROTOCOL_ICMP 0 src (ip_address dev) data)).
  fold sum. rewrite Z.eqb_refl. cbn [negb]. erewrite bind_run by (unfold device_at; by rewrite Hd).
  erewrite bind_run by (apply rd32_run; rewrite Hlen; lia). change (Z.to_nat 16) with 16%nat. erewrite (le_value_dword b 16 (ip_address dev)) by (reflexivity || done).
  rewrite Z.eqb_refl. cbn [negb andb]. erewrite bind_run by (by apply rd8_run). erewrite bind_run by (apply rd16_run; rewrite Hlen; lia).
  change (Z.to_nat 2) with 2%nat. erewrite (le_value_word b 2 tot) by (reflexivity || apply bswap16_fits).
  erewrite bind_run by (by apply rd8_run). erewrite bind_run by (apply rd32_run; rewrite Hlen; lia).
  change (Z.to_nat 12) with 12%nat. erewrite (le_value_dword b 12 src) by (reflexivity || done).
  rewrite Z.eqb_refl. unfold tot. rewrite bswap16_involutive by (unfold IP_HEADER_SIZE; fits_lia). change (Z.land 0x45 0x0F * 4) with 20.
  replace (IP_HEADER_SIZE + Z.of_nat (length data) - 20) with (Z.of_nat (length data)) by (unfold IP_HEADER_SIZE; lia). by rewrite wrap_small by fits_lia.
Qed.

(** A message that was not damaged passes the check, and a request is answered. *)
Lemma icmp_handle_message s d dev type i q p junk src :
  host s d dev -> type = ICMP_TYPE_ECHO_REQUEST \/ type = ICMP_TYPE_ECHO_REPLY -> bytes p -> bytes junk -> ICMP_HEADER_SIZE + Z.of_nat (length p) < 2 ^ 16 ->
  icmp_handle_packet (icmp_message type i q p ++ junk) (Z.of_nat (length (icmp_message type i q p))) src s =
  if type =? ICMP_TYPE_ECHO_REQUEST then ip_send src IP_PROTOCOL_ICMP (icmp_message ICMP_TYPE_ECHO_REPLY i q p) (counted s 1 0) else Ret ERR_OK s.
Proof.
  intros Hh Ht Hp Hj Hl. unfold ICMP_HEADER_SIZE in Hl. unfold icmp_handle_packet. rewrite icmp_message_length. unfold ICMP_HEADER_SIZE. if_lia.
  assert (Ht8 : fits 8 type) by (unfold ICMP_TYPE_ECHO_REQUEST, ICMP_TYPE_ECHO_REPLY in Ht; fits_lia).
  assert (Hsum : forall t c', fits 8 t -> icmp_checksum (St := net) (icmp_packet t ICMP_CODE_ECHO 0 (bswap16 i) (bswap16 q) p ++ c') (Z.of_nat (8 + length p)) =
    fun s => icmp_checksum (icmp_packet t ICMP_CODE_ECHO 0 (bswap16 i) (bswap16 q) p ++ c') (Z.of_nat (length (icmp_packet t ICMP_CODE_ECHO 0 (bswap16 i) (bswap16 q) p))) s).
  { intros. by rewrite icmp_packet_length. }
  assert (Hm : icmp_message type i q p ++ junk = icmp_packet type ICMP_CODE_ECHO
    (bswap16 (65535 - ones_sum (words_sum (icmp_packet type ICMP_CODE_ECHO 0 (bswap16 i) (bswap16 q) p)))) (bswap16 i) (bswap16 q) (p ++ junk)) by apply icmp_packet_app.
  rewrite Hm. clear Hm.
  match goal with |- context [icmp_packet type _ ?c _ _ (p ++ junk)] => set (sum := c) end.
  set (b := icmp_packet type ICMP_CODE_ECHO sum (bswap16 i) (bswap16 q) (p ++ junk)).
  assert (Hlen : length b = (8 + length (p ++ junk))%nat) by apply icmp_packet_length. rewrite length_app in Hlen.
  erewrite bind_run by (apply rd16_run; rewrite Hlen; lia). change (Z.to_nat 2) with 2%nat. erewrite (le_value_word b 2 sum) by (reflexivity || apply bswap16_fits).
  change (clear16 b 2) with (icmp_packet type ICMP_CODE_ECHO 0 (bswap16 i) (bswap16 q) (p ++ junk)). rewrite <- icmp_packet_app, Hsum by done.
  erewrite bind_run; [|apply icmp_checksum_run; [apply icmp_packet_bytes; [done|unfold ICMP_CODE_ECHO; fits_lia|done]|done|rewrite icmp_packet_length; fits_lia]].
  fold sum. rewrite Z.eqb_refl. cbn [negb]. erewrite bind_run by (by apply up_device_run). cbv beta iota. erewrite bind_run by (by apply rd8_run).
  destruct Ht as [-> | ->]; [|done]. cbn [Z.eqb ICMP_TYPE_ECHO_REQUEST Pos.eqb].
  do 2 erewrite bind_run by (apply rd16_run; rewrite Hlen; lia). change (Z.to_nat 4) with 4%nat. change (Z.to_nat 6) with 6%nat.
  erewrite (le_value_word b 4 (bswap16 i)) by (reflexivity || apply bswap16_fits). erewrite (le_value_word b 6 (bswap16 q)) by (reflexivity || apply bswap16_fits).
  cbv zeta. replace (Z.of_nat (8 + length p) - 8) with (Z.of_nat (length p)) by lia. rewrite !(wrap_small 64) by (rewrite ?wrap_small; fits_lia).
  erewrite bind_run by reflexivity. rewrite Hmem. cbn [negb]. erewrite bind_run by (apply rd_run; rewrite Hlen; lia).
  rewrite Nat2Z.id. change (drop (Z.to_nat 8) b) with (p ++ junk). rewrite take_app_length.
  replace (8 + Z.of_nat (length p)) with (Z.of_nat (8 + length p)) by lia. rewrite <- (app_nil_r (icmp_packet ICMP_TYPE_ECHO_REPLY _ _ _ _ _)) at 1. rewrite Hsum by (unfold ICMP_TYPE_ECHO_REPLY; fits_lia).
  erewrite bind_run; [|apply icmp_checksum_run; [apply icmp_packet_bytes; [unfold ICMP_TYPE_ECHO_REPLY; fits_lia|unfold ICMP_CODE_ECHO; fits_lia|done]|apply Forall_nil_2|rewrite icmp_packet_length; fits_lia]].
  fold (icmp_message ICMP_TYPE_ECHO_REPLY i q p). f_equal. unfold counted. by rewrite Nat.add_0_r, Nat.add_1_r.
Qed.

(** A frame for the host reaches the handler of its type. *)
Lemma ethernet_receive_frame s d dev dst src type payload junk :
  host s d dev -> length src = 6%nat -> dst = mac_address dev \/ dst = broadcast_mac -> type = ETH_TYPE_ARP \/ type = ETH_TYPE_IPV4 ->
  Z.of_nat (length payload) < 2 ^ 63 ->
  let pad := repeat 0 (46 - length payload) in
  ethernet_receive d ERR_OK (framed dst src type payload ++ junk) (Z.of_nat (length (framed dst src type payload))) s =
  (if type =? ETH_TYPE_ARP then arp_handle_packet d (payload ++ pad ++ junk) (Z.of_nat (length (payload ++ pad)))
   else ip_receive d (payload ++ pad ++ junk) (Z.of_nat (length (payload ++ pad)))) s.
Proof.
  intros Hh Hs Hd Ht Hl pad. assert (H6 : length dst = 6%nat) by (destruct Hd as [-> | ->]; [apply Hh|done]).
  assert (Hpad : length pad = (46 - length payload)%nat) by apply repeat_length. unfold ethernet_receive. destruct (host_head _ _ _ Hh) as [_ Hd0]. if_lia. rewrite bool_decide_true by done. cbn [negb]. rewrite framed_length by done. unfold ETH_HEADER_SIZE. if_lia.
  assert (Hlen : length (framed dst src type payload ++ junk) = (14 + length (payload ++ pad) + length junk)%nat) by (rewrite !length_app, framed_length by done; lia).
  erewrite bind_run by (apply rd_run; rewrite Hlen; lia). change (drop (Z.to_nat 0) ?b) with b.
  assert (E : framed dst src type payload ++ junk = dst ++ src ++ le_bytes 2 (bswap16 type) ++ payload ++ pad ++ junk) by (unfold framed, ethernet_frame; fold pad; by rewrite <- !app_assoc).
  rewrite E in *. rewrite take_app_exact by done. erewrite bind_run by (unfold device_at; by rewrite (host_dev _ _ _ Hh)).
  assert (Hour : negb (forallb (fun x => x =? 255) dst) && negb (bool_decide (dst = mac_address dev)) = false).
  { destruct Hd as [-> | ->]; [rewrite bool_decide_true by done; apply andb_false_r|done]. }
  rewrite Hour. erewrite bind_run by (apply rd16_run; rewrite Hlen; lia).
  assert (D12 : drop 12 (dst ++ src ++ le_bytes 2 (bswap16 type) ++ payload ++ pad ++ junk) = le_bytes 2 (bswap16 type) ++ payload ++ pad ++ junk).
  { rewrite app_assoc. apply drop_app_exact. rewrite length_app. lia. }
  assert (D14 : drop 14 (dst ++ src ++ le_bytes 2 (bswap16 type) ++ payload ++ pad ++ junk) = payload ++ pad ++ junk).
  { change 14%nat with (12 + 2)%nat. rewrite <- drop_drop, D12. apply drop_app_exact. apply le_bytes_length. }
  change (Z.to_nat 12) with 12%nat. rewrite (le_value_word _ 12 (bswap16 type) _ D12) by apply bswap16_fits. rewrite D14.
  rewrite bswap16_involutive by (unfold ETH_TYPE_ARP, ETH_TYPE_IPV4 in Ht; fits_lia). destruct (host_handlers _ _ _ Hh) as (Hn & H0 & H1).
  do 2 erewrite bind_run by reflexivity. rewrite Hn. change (Z.to_nat 2) with 2%nat. cbn [find_first]. rewrite H0. change (0 + 1) with 1. rewrite H1. cbn [fst].
  rewrite wrap_small by (change (2 ^ 63) with 9223372036854775808 in Hl; fits_lia).
  replace (Z.of_nat (14 + (length payload + (46 - length payload))) - 14) with (Z.of_nat (length (payload ++ pad))) by (rewrite length_app; lia).
  destruct Ht as [-> | ->]; cbn [Z.eqb Pos.eqb ETH_TYPE_ARP ETH_TYPE_IPV4]; [by rewrite H0|by rewrite H1].
Qed.

Lemma icmp_send_echo_run s d dev dest i q data mac :
  host s d dev -> bytes data -> IP_HEADER_SIZE + (ICMP_HEADER_SIZE + Z.of_nat (length data)) < 2 ^ 16 -> dest <> 0xFFFFFFFF ->
  Z.land (ip_address dev) (netmask dev) = Z.land dest (netmask dev) -> cached s dest mac ->
  let frame := framed mac (mac_address dev) ETH_TYPE_IPV4 (ip_datagram IP_PROTOCOL_ICMP (ip_address dev) dest (icmp_message ICMP_TYPE_ECHO_REQUEST i q data)) in
  icmp_send_echo dest i q data s = Ret (send_packet d frame) (sending (counted s 3 3) d frame).
Proof.
  intros Hh Hb Hl Hdest Hnet Hca frame. unfold IP_HEADER_SIZE, ICMP_HEADER_SIZE in Hl. unfold icmp_send_echo. erewrite bind_run by reflexivity. rewrite Hmem. cbn [negb]. cbv zeta.
  unfold ICMP_HEADER_SIZE. rewrite wrap_small by fits_lia.
  replace (8 + Z.of_nat (length data)) with (Z.of_nat (length (icmp_packet ICMP_TYPE_ECHO_REQUEST ICMP_CODE_ECHO 0 (bswap16 i) (bswap16 q) data))) by (rewrite icmp_packet_length; lia).
  rewrite <- (app_nil_r (icmp_packet ICMP_TYPE_ECHO_REQUEST ICMP_CODE_ECHO 0 _ _ data)) at 1.
  erewrite bind_run; [|apply icmp_checksum_run; [apply icmp_packet_bytes; [unfold ICMP_TYPE_ECHO_REQUEST; fits_lia|unfold ICMP_CODE_ECHO; fits_lia|done]|apply Forall_nil_2|rewrite icmp_packet_length; fits_lia]].
  fold (icmp_message ICMP_TYPE_ECHO_REQUEST i q data). match goal with |- ip_send _ _ _ ?x = _ => set (s1 := x) end.
  rewrite (ip_send_run s1 d dev dest IP_PROTOCOL_ICMP _ mac); [| | | | | |done|done|].
  - fold frame. f_equal. unfold sending, counted, s1, set_sent, set_counters. cbn. f_equal; lia.
  - destruct Hh; by constructor.
  - unfold IP_PROTOCOL_ICMP. fits_lia.
  - apply icmp_message_bytes; [unfold ICMP_TYPE_ECHO_REQUEST; fits_lia|done].
  - done.
  - rewrite icmp_message_length. unfold IP_HEADER_SIZE. fits_lia.
  - exact Hca.
Qed.

(** *** ARP packets *)

(** The two operations a host acts upon. *)
Lemma arp_handle_run s d dev op smac sip tmac tip junk len :
  host s d dev -> length smac = 6%nat -> length tmac = 6%nat -> fits 32 sip -> fits 32 tip -> ARP_PACKET_SIZE <= len ->
  op = ARP_OP_REQUEST \/ op = ARP_OP_REPLY ->
  arp_handle_packet d (arp_packet op smac sip tmac tip ++ junk) len s =
  (if op =? ARP_OP_REPLY then arp_update_cache sip smac;;; ret ERR_OK
   else if tip =? ip_address dev then ethernet_send (arp_packet ARP_OP_REPLY (mac_address dev) (ip_address dev) smac sip) smac ETH_TYPE_ARP d;;; ret ERR_OK
   else ret ERR_OK) s.
Proof.
  intros Hh Hs Ht Hsip Htip Hlen Hop. destruct (arp_packet_drop op smac sip tmac tip junk Hs Ht) as (D8 & D14 & D24).
  set (b := arp_packet op smac sip tmac tip ++ junk) in *. assert (Hb : (28 <= length b)%nat) by (unfold b; rewrite length_app, arp_packet_length by done; lia).
  unfold arp_handle_packet. destruct (host_init _ _ _ Hh) as [_ Hin]. erewrite bind_run by reflexivity. rewrite Hin. rewrite (proj2 (Z.ltb_ge len _)) by done. cbn [negb orb].
  do 2 erewrite bind_run by (apply rd16_run; lia). change (bswap16 (le_value (take 2 (drop (Z.to_nat 0) b)))) with 1. change (bswap16 (le_value (take 2 (drop (Z.to_nat 2) b)))) with 0x0800.
  cbn [Z.eqb Pos.eqb negb orb ARP_HW_TYPE_ETHERNET ARP_PROTO_TYPE_IPV4]. destruct (host_head _ _ _ Hh) as [_ Hd0]. if_lia.
  erewrite bind_run by (unfold device_at; by rewrite (host_dev _ _ _ Hh)). rewrite (proj2 (host_up _ _ _ Hh)). cbn [negb]. erewrite bind_run by (apply rd16_run; lia).
  change (Z.to_nat 6) with 6%nat. erewrite (le_value_word b 6 (bswap16 op)); [|unfold b, arp_packet; rewrite <- !app_assoc; reflexivity|apply bswap16_fits].
  rewrite bswap16_involutive by (unfold ARP_OP_REQUEST, ARP_OP_REPLY in Hop; fits_lia).
  assert (R14 : rd32 b 14 s = Ret sip s) by (rewrite rd32_run by lia; change (Z.to_nat 14) with 14%nat; by rewrite (le_value_dword b 14 sip _ D14)).
  assert (R24 : rd32 b 24 s = Ret tip s) by (rewrite rd32_run by lia; change (Z.to_nat 24) with 24%nat; by rewrite (le_value_dword b 24 tip _ D24)).
  assert (R8 : rd b 8 6 s = Ret smac s) by (rewrite rd_run by lia; change (Z.to_nat 8) with 8%nat; by rewrite D8, take_app_exact).
  destruct Hop as [-> | ->]; cbn [Z.eqb Pos.eqb ARP_OP_REQUEST ARP_OP_REPLY].
  - erewrite bind_run by exact R24. destruct (tip =? _); [|done]. erewrite bind_run by exact R8. by erewrite bind_run by exact R14.
  - erewrite bind_run by exact R14. by erewrite bind_run by exact R8.
Qed.

(** *** The ARP cache *)

Definition holds (c : arr arp_cache_entry_t) (ip k : Z) : bool := valid (c k) && (e_ip (c k) =? ip).

Lemma update_scan_hit n : forall j ip c entry o t i, j <= i < j + Z.of_nat n -> holds c ip i = true -> (forall k, j <= k < i -> holds c ip k = false) ->
  update_scan n j ip c entry o t = i.
Proof.
  induction n as [|n IH]; intros j ip c entry o t i Hi Hh Hb; [lia|]. cbn [update_scan]. fold (holds c ip j).
  destruct (decide (i = j)) as [->|]; [by rewrite Hh|]. rewrite Hb by lia. destruct (_ <? _); apply IH; try (done || lia); intros; apply Hb; lia.
Qed.

Lemma update_scan_free n : forall j ip c entry o t, (forall k, j <= k < j + Z.of_nat n -> holds c ip k = false) ->
  match entry with
  | Some e => update_scan n j ip c entry o t = e
  | None => forall i, j <= i < j + Z.of_nat n -> valid (c i) = false -> (forall k, j <= k < i -> valid (c k) = true) -> update_scan n j ip c None o t = i
  end.
Proof.
  induction n as [|n IH]; intros j ip c entry o t Hb; [destruct entry; [done|]; intros; lia|].
  assert (Hb' : forall k, j + 1 <= k < j + 1 + Z.of_nat n -> holds c ip k = false) by (intros; apply Hb; lia).
  destruct entry as [e|]; [|intros i Hi Hv Hk]; cbn [update_scan]; fold (holds c ip j); rewrite Hb by lia.
  - destruct (_ <? _); apply (IH (j + 1) ip c (Some e)); done.
  - destruct (decide (i = j)) as [->|]; [rewrite Hv; cbn [negb]; destruct (_ <? _); by apply (IH (j + 1) ip c (Some j))|].
    rewrite Hk by lia. cbn [negb]. destruct (_ <? _); apply (IH (j + 1) ip c None); try (done || lia); intros; apply Hk; lia.
Qed.

Lemma update_scan_oldest n : forall j ip c o t, (forall k, j <= k < j + Z.of_nat n -> holds c ip k = false /\ valid (c k) = true) ->
  let r := update_scan n j ip c None o t in
  (r = o /\ forall k, j <= k < j + Z.of_nat n -> t <= timestamp (c k)) \/
  (j <= r < j + Z.of_nat n /\ timestamp (c r) < t /\ forall k, j <= k < j + Z.of_nat n -> timestamp (c r) <= timestamp (c k)).
Proof.
  induction n as [|n IH]; intros j ip c o t Hb r; [left; split; [done|lia]|]. unfold r. cbn [update_scan]. fold (holds c ip j). destruct (Hb j ltac:(lia)) as [-> ->]. cbn [negb].
  assert (Hb' : forall k, j + 1 <= k < j + 1 + Z.of_nat n -> holds c ip k = false /\ valid (c k) = true) by (intros; apply Hb; lia).
  destruct (Z.ltb_spec (timestamp (c j)) t) as [Hlt|Hge].
  - right. destruct (IH (j + 1) ip c j (timestamp (c j)) Hb') as [[-> Hk]|(Hr & Ht & Hk)].
    + split; [lia|]. split; [done|]. intros k Hk'. destruct (decide (k = j)) as [->|]; [lia|]. apply Hk. lia.
    + split; [lia|]. split; [lia|]. intros k Hk'. destruct (decide (k = j)) as [->|]; [lia|]. apply Hk. lia.
  - destruct (IH (j + 1) ip c o t Hb') as [[-> Hk]|(Hr & Ht & Hk)]; [left|right].
    + split; [done|]. intros k Hk'. destruct (decide (k = j)) as [->|]; [lia|]. apply Hk. lia.
    + split; [lia|]. split; [lia|]. intros k Hk'. destruct (decide (k = j)) as [->|]; [lia|]. apply Hk. lia.
Qed.

(** The entry that is given to an address: its own, else the first free one, else the oldest. *)
Inductive slot (c : arr arp_cache_entry_t) (ip i : Z) : Prop :=
| slot_own : holds c ip i = true -> (forall k, 0 <= k < i -> holds c ip k = false) -> slot c ip i
| slot_free : (forall k, 0 <= k < Z.of_nat ARP_CACHE_SIZE -> holds c ip k = false) -> valid (c i) = false -> (forall k, 0 <= k < i -> valid (c k) = true) -> slot c ip i
| slot_oldest : (forall k, 0 <= k < Z.of_nat ARP_CACHE_SIZE -> holds c ip k = false /\ valid (c k) = true) ->
    (forall k, 0 <= k < Z.of_nat ARP_CACHE_SIZE -> timestamp (c i) <= timestamp (c k)) -> slot c ip i.

Lemma update_scan_slot c ip : (forall k, 0 <= k < Z.of_nat ARP_CACHE_SIZE -> fits 64 (timestamp (c k))) ->
  let i := update_scan ARP_CACHE_SIZE 0 ip c None 0 (2 ^ 64 - 1) in 0 <= i < Z.of_nat ARP_CACHE_SIZE /\ slot c ip i.
Proof.
  intros Hts. destruct (find_first (holds c ip) 0 ARP_CACHE_SIZE) as [i|] eqn:E1; [apply find_first_Some in E1 as (Hi & Hh & Hk)|pose proof (proj1 (find_first_None _ _ _) E1) as Hno].
  { rewrite (update_scan_hit _ 0 ip c None 0 _ i) by (done || lia). split; [done|]. by apply slot_own. }
  destruct (find_first (fun k => negb (valid (c k))) 0 ARP_CACHE_SIZE) as [i|] eqn:E2; [apply find_first_Some in E2 as (Hi & Hv & Hk)|pose proof (proj1 (find_first_None _ _ _) E2) as Hall].
  { apply negb_true_iff in Hv. assert (Hk' : forall k, 0 <= k < i -> valid (c k) = true) by (intros k Hk'; apply negb_false_iff; by apply Hk).
    pose proof (update_scan_free ARP_CACHE_SIZE 0 ip c None 0 (2 ^ 64 - 1)) as E. cbv beta iota in E. rewrite (E Hno i) by (done || lia). split; [done|]. by apply slot_free. }
  assert (Hb : forall k, 0 <= k < 0 + Z.of_nat ARP_CACHE_SIZE -> holds c ip k = false /\ valid (c k) = true) by (intros k Hk; split; [by apply Hno|apply negb_false_iff; by apply Hall]).
  destruct (update_scan_oldest ARP_CACHE_SIZE 0 ip c 0 (2 ^ 64 - 1) Hb) as [[-> Hk]|(Hr & Ht & Hk)]; [|split; [exact Hr|by apply slot_oldest]].
  split; [unfold ARP_CACHE_SIZE; lia|]. apply slot_oldest; [done|]. intros k Hk'. specialize (Hk k Hk'). pose proof (Hts 0 ltac:(unfold ARP_CACHE_SIZE; lia)). fits_lia.
Qed.

Definition cache_unique (c : arr arp_cache_entry_t) : Prop :=
  forall j k, 0 <= j < Z.of_nat ARP_CACHE_SIZE -> 0 <= k < Z.of_nat ARP_CACHE_SIZE -> valid (c j) = true -> valid (c k) = true -> e_ip (c j) = e_ip (c k) -> j = k.

Lemma slot_before c ip i : slot c ip i -> 0 <= i < Z.of_nat ARP_CACHE_SIZE -> forall k, 0 <= k < i -> holds c ip k = false.
Proof. intros [? H|H ? ?|H ?] Hi k Hk; [by apply H|apply H; lia|apply H; lia]. Qed.

Lemma cache_unique_set c ip i e : cache_unique c -> 0 <= i < Z.of_nat ARP_CACHE_SIZE -> slot c ip i -> e_ip e = ip -> cache_unique (c.[i <- e]).
Proof.
  intros Hu Hi Hs He. assert (Hother : forall k, 0 <= k < Z.of_nat ARP_CACHE_SIZE -> k <> i -> valid (c k) = true -> e_ip (c k) <> ip).
  { intros k Hk Hne Hv Hip. assert (Hh : holds c ip k = true) by (unfold holds; rewrite Hv, Hip; apply Z.eqb_refl).
    destruct Hs as [H1 _|H1 _ _|H1 _]; [|rewrite H1 in Hh by done; done|rewrite (proj1 (H1 k Hk)) in Hh; done].
    apply andb_prop in H1 as [Hvi Hipi]. apply Z.eqb_eq in Hipi. apply Hne. apply Hu; try done. by rewrite Hip. }
  intros j k Hj Hk. destruct (decide (j = i)) as [->|Hji], (decide (k = i)) as [->|Hki]; rewrite ?aset_eq, ?aset_ne by done; try done.
  - intros _ Hv E. exfalso. apply (Hother k Hk Hki Hv). by rewrite <- E.
  - intros Hv _ E. exfalso. apply (Hother j Hj Hji Hv). by rewrite E.
  - by apply Hu.
Qed.

Lemma arp_update_cache_run s ip mac : arp_initialized s = true ->
  let i := update_scan ARP_CACHE_SIZE 0 ip (cache s) None 0 (2 ^ 64 - 1) in
  arp_update_cache ip mac s =
  Ret tt (set_arp (counted s 0 1) ((cache s).[i <- {| e_ip := ip; e_mac := mac; timestamp := uptime (clock_reads s) (sleeps s); valid := true |}]) true (last_req s)).
Proof.
  intros Hin i. unfold arp_update_cache. erewrite bind_run by reflexivity. rewrite Hin. cbn [negb]. do 2 erewrite bind_run by reflexivity. fold i. clearbody i.
  unfold modify, counted, set_counters, set_arp. cbn. by rewrite Hin, Nat.add_0_r, Nat.add_1_r.
Qed.

(** Learning an address.  The entry written is the one that held the address, else
    the first free one, else the one with the oldest timestamp; no other entry changes; at
    most one valid entry is kept for each address; and until the entry expires the search
    of the cache gives the hardware address that was learnt. *)
Theorem arp_cache_correct s ip mac :
  arp_initialized s = true -> (forall k, 0 <= k < Z.of_nat ARP_CACHE_SIZE -> fits 64 (timestamp (cache s k))) -> cache_unique (cache s) ->
  let t := uptime (clock_reads s) (sleeps s) in
  exists i s', 0 <= i < Z.of_nat ARP_CACHE_SIZE /\ slot (cache s) ip i /\ arp_update_cache ip mac s = Ret tt s' /\
    cache s' i = {| e_ip := ip; e_mac := mac; timestamp := t; valid := true |} /\ (forall k, k <> i -> cache s' k = cache s k) /\ cache_unique (cache s') /\
    (u64 (uptime (clock_reads s') (sleeps s') - t) <= ARP_CACHE_TIMEOUT -> search_cache ARP_CACHE_SIZE 0 ip s' = Ret (Some mac) (counted s' 0 1)).
Proof.
  intros Hin Hts Hu t. destruct (update_scan_slot (cache s) ip Hts) as [Hi Hs]. set (i := update_scan ARP_CACHE_SIZE 0 ip (cache s) None 0 (2 ^ 64 - 1)) in *.
  eexists i, _. split; [done|]. split; [done|]. split; [by apply arp_update_cache_run|]. fold i t. cbn [cache set_arp].
  split; [apply aset_eq|]. split; [intros; by apply aset_ne|]. split; [by apply cache_unique_set with ip|]. intros Ht.
  apply (search_cache_hit _ ip mac i t); [apply aset_eq|exact Ht|lia|unfold ARP_CACHE_SIZE in *; lia|]. intros k Hk. cbn [cache set_arp]. rewrite aset_ne by lia. by apply (slot_before _ _ _ Hs).
Qed.

(** *** Waiting for an answer *)

(** What sending a request and searching the cache leave as it is. *)
Definition quiet (s s' : net) : Prop :=
  devs s' = devs s /\ devices s' = devices s /\ net_initialized s' = net_initialized s /\ eth_handlers s' = eth_handlers s /\
  eth_handler_count s' = eth_handler_count s /\ arp_initialized s' = arp_initialized s /\ sleeps s' = sleeps s /\ (clock_reads s <= clock_reads s')%nat.

Lemma quiet_trans s1 s2 s3 : quiet s1 s2 -> quiet s2 s3 -> quiet s1 s3.
Proof. intros (? & ? & ? & ? & ? & ? & ? & ?) (? & ? & ? & ? & ? & ? & ? & ?). repeat split; (congruence || lia). Qed.

Lemma host_quiet s s' d dev : host s d dev -> quiet s s' -> host s' d dev.
Proof. intros [] (E1 & E2 & E3 & E4 & E5 & E6 & _). split; by rewrite ?E1, ?E2, ?E3, ?E4, ?E5, ?E6. Qed.

Lemma search_cache_total n : forall i ip s, exists r s', search_cache n i ip s = Ret r s' /\ quiet s s' /\
  (forall mac, r = Some mac -> exists k, holds (cache s') ip k = true /\ e_mac (cache s' k) = mac).
Proof.
  induction n as [|n IH]; intros i ip s; [exists None, s; split; [done|split; [repeat split; lia|done]]|]. cbn [search_cache]. erewrite bind_run by reflexivity.
  fold (holds (cache s) ip i). destruct (holds (cache s) ip i) eqn:Hh; [|apply IH]. erewrite bind_run by reflexivity. destruct (_ <? _).
  - erewrite bind_run by reflexivity. match goal with |- context [search_cache n _ _ ?x] => destruct (IH (i + 1) ip x) as (r & s' & -> & Hq & Hm) end.
    exists r, s'. split; [done|]. split; [|done]. eapply quiet_trans; [|exact Hq]. repeat split. cbn. lia.
  - eexists _, _. split; [done|]. split; [repeat split; cbn; lia|]. intros mac [= <-]. by exists i.
Qed.

Lemma ethernet_send_total data mac type d s : is_Some (devs s !! d) -> exists e s', ethernet_send data mac type d s = Ret e s' /\ quiet s s'.
Proof.
  intros [dev Hd]. unfold ethernet_send. destruct (_ || _); [eexists _, s; split; [done|by repeat split]|]. erewrite bind_run by reflexivity. destruct (negb _).
  - eexists _, _. split; [done|]. by repeat split.
  - erewrite bind_run by (unfold device_at; cbn [devs set_counters]; by rewrite Hd). eexists _, _. split; [done|]. by repeat split.
Qed.

Lemma arp_request_total ip s d dev : host s d dev -> exists e s', arp_request ip s = Ret e s' /\ quiet s s'.
Proof.
  intros Hh. unfold arp_request. destruct (host_init _ _ _ Hh) as [_ Hin]. erewrite bind_run by reflexivity. rewrite Hin. cbn [negb].
  erewrite bind_run by (by apply up_device_run). cbv beta iota. erewrite bind_run by reflexivity. destruct (negb _).
  - eexists _, _. split; [done|]. by repeat split.
  - match goal with |- context [ethernet_send ?a ?b ?c ?e ?x] => destruct (ethernet_send_total a b c e x) as (e' & s' & -> & Hq); [exists dev; apply Hh|] end.
    exists e', s'. split; [done|]. eapply quiet_trans; [|exact Hq]. by repeat split.
Qed.

(** One round of the loop that did not find the address. *)
Lemma resolve_round s d dev ip fuel start : host s d dev -> u64 (uptime (clock_reads s) (sleeps s) - start) < ARP_RESOLVE_TIMEOUT ->
  (exists mac s', resolve_loop (S fuel) start ip s = Ret (inl mac) s' /\ quiet s s' /\ exists k, holds (cache s') ip k = true /\ e_mac (cache s' k) = mac) \/
  (exists s', quiet s s' /\ resolve_loop (S fuel) start ip s = (sleep;;; resolve_loop fuel start ip) s').
Proof.
  intros Hh Ht. cbn [resolve_loop]. erewrite bind_run by reflexivity. rewrite (proj2 (Z.ltb_lt _ _)) by done. match goal with |- context [bind (search_cache _ _ _) _ ?x] => set (s1 := x) end.
  assert (Q1 : quiet s s1) by (repeat split; cbn; lia). destruct (search_cache_total ARP_CACHE_SIZE 0 ip s1) as (r & s2 & E & Q2 & Hm).
  destruct r as [mac|]; [left; exists mac, s2; split; [by erewrite bind_run by exact E|split; [by eapply quiet_trans|by apply Hm]]|right].
  erewrite bind_run by exact E. cbv beta iota. erewrite bind_run by reflexivity. erewrite bind_run by reflexivity. match goal with |- context [bind _ _ ?x] => set (s3 := x) end.
  assert (Q3 : quiet s2 s3) by (repeat split; cbn; lia). destruct (_ <? _); [|exists s3; split; [by eapply quiet_trans; [|eapply quiet_trans]|by erewrite bind_run by reflexivity]].
  assert (Hh3 : host s3 d dev) by (do 3 (eapply host_quiet; [|eassumption]); done). destruct (arp_request_total ip s3 d dev Hh3) as (e & s4 & E4 & Q4).
  eexists (set_arp (set_counters s4 (allocs s4) (S (clock_reads s4)) (sleeps s4)) (cache s4) (arp_initialized s4) (uptime (clock_reads s4) (sleeps s4))). split.
  - do 3 (eapply quiet_trans; [eassumption|]). eapply quiet_trans; [exact Q4|]. repeat split. cbn. lia.
  - erewrite bind_run; [reflexivity|]. by rewrite (bind_run _ _ _ _ _ E4).
Qed.

(** The time in milliseconds since power-on, of which [uptime] is the low 64 bits: it
    does not run backwards, a sleep lets at least 10 ms pass and a hundred sleeps less
    than 2^64 ms; and what goes on during a sleep leaves the device as it is. *)
Record timely (ms : nat -> nat -> Z) (d : Z) (dev : net_device_t) : Prop := {
  timely_uptime : forall n z, uptime n z = u64 (ms n z);
  timely_mono : forall n z n' z', (n <= n')%nat -> (z <= z')%nat -> ms n z + 10 * Z.of_nat (z' - z) <= ms n' z';
  timely_bound : forall n z n' z', (z <= z' <= z + 100)%nat -> ms n' z' - ms n z < 2 ^ 64;
  timely_sleep : forall n s, host s d dev -> host (during_sleep n s) d dev /\ sleeps (during_sleep n s) = sleeps s /\ (clock_reads s <= clock_reads (during_sleep n s))%nat
}.

Lemma elapsed ms d dev n z n' z' : timely ms d dev -> (n <= n')%nat -> (z <= z' <= z + 100)%nat ->
  u64 (uptime n' z' - uptime n z) = ms n' z' - ms n z /\ 10 * Z.of_nat (z' - z) <= ms n' z' - ms n z.
Proof.
  intros [Hu Hm Hb _] Hn Hz. rewrite !Hu. specialize (Hm n z n' z' Hn ltac:(lia)). specialize (Hb n z n' z' Hz). split; [|lia].
  unfold wrap. rewrite <- Zminus_mod. rewrite Z.mod_small; lia.
Qed.

Lemma resolve_loop_ends ms d dev ip start n0 z0 : timely ms d dev -> start = uptime n0 z0 ->
  forall fuel s, host s d dev -> (n0 <= clock_reads s)%nat -> (z0 <= sleeps s <= z0 + 100)%nat -> (z0 + 100 < sleeps s + fuel)%nat ->
  exists r s', resolve_loop fuel start ip s = Ret r s' /\ host s' d dev /\
    match r with inl mac => exists k, holds (cache s') ip k = true /\ e_mac (cache s' k) = mac | inr e => e = ERR_TIMEOUT end.
Proof.
  intros Ht ->. induction fuel as [|fuel IH]; intros s Hh Hn Hz Hf; [lia|].
  destruct (elapsed ms d dev n0 z0 (clock_reads s) (sleeps s) Ht Hn Hz) as [He Hc].
  destruct (decide (u64 (uptime (clock_reads s) (sleeps s) - uptime n0 z0) < ARP_RESOLVE_TIMEOUT)) as [Hlt|Hge].
  2:{ eexists (inr ERR_TIMEOUT), _. split; [|split; [|done]].
      - cbn [resolve_loop]. erewrite bind_run by reflexivity. by rewrite (proj2 (Z.ltb_ge _ _)) by lia.
      - destruct Hh; by constructor. }
  destruct (resolve_round s d dev ip fuel _ Hh Hlt) as [(mac & s' & E & Q & Hk)|(s1 & Q & E)]; [exists (inl mac), s'; split; [done|]; split; [by apply host_quiet with s|done]|].
  rewrite He in Hlt. unfold ARP_RESOLVE_TIMEOUT in Hlt. rewrite E. unfold sleep. erewrite bind_run by reflexivity.
  assert (Hh1 : host (set_counters s1 (allocs s1) (clock_reads s1) (S (sleeps s1))) d dev) by (eapply host_quiet in Hh; [|exact Q]; destruct Hh; by constructor).
  destruct Q as (_ & _ & _ & _ & _ & _ & Qs & Qc). destruct (timely_sleep _ _ _ Ht (sleeps s1) _ Hh1) as (Hh2 & Es & Ec). cbn [sleeps clock_reads set_counters] in Es, Ec.
  apply (IH _ Hh2); rewrite ?Es; lia.
Qed.

Lemma arp_resolve_total ms s d dev ip : timely ms d dev -> host s d dev ->
  exists r s', arp_resolve ip s = Ret r s' /\ host s' d dev /\
    match r with inl mac => exists k, holds (cache s') ip k = true /\ e_mac (cache s' k) = mac | inr e => e = ERR_TIMEOUT end.
Proof.
  intros Ht Hh. unfold arp_resolve. destruct (host_init _ _ _ Hh) as [_ Hin]. erewrite bind_run by reflexivity. rewrite Hin. cbn [negb]. erewrite bind_run by reflexivity.
  apply (resolve_loop_ends ms d dev ip _ (clock_reads s) (sleeps s) Ht eq_refl); [destruct Hh; by constructor|cbn; lia|cbn [sleeps set_counters]; lia|cbn [sleeps set_counters]; unfold resolve_fuel; lia].
Qed.

(** Resolving an address ends.  When time passes as [timely] says, [arp_resolve]
    returns: with an address that a valid entry of the cache holds, or with a timeout. *)
Theorem arp_resolve_ends ms s d dev ip : timely ms d dev -> host s d dev ->
  exists r s', arp_resolve ip s = Ret r s' /\
    match r with inl mac => exists k, holds (cache s') ip k = true /\ e_mac (cache s' k) = mac | inr e => e = ERR_TIMEOUT end.
Proof. intros Ht Hh. destruct (arp_resolve_total ms s d dev ip Ht Hh) as (r & s' & E & _ & H). by exists r, s'. Qed.

(** Sending returns as well. *)
Lemma ip_send_total ms s d dev dest protocol data : timely ms d dev -> host s d dev -> fits 8 protocol -> bytes data ->
  exists e s', ip_send dest protocol data s = Ret e s' /\ host s' d dev.
Proof.
  intros Ht Hh Hp Hb. unfold ip_send. destruct (_ =? 0); [by exists ERR_INVALID_ARG, s|]. erewrite bind_run by (by apply up_device_run). cbv beta iota zeta.
  erewrite bind_run by reflexivity. destruct (negb _); [eexists _, _; split; [done|destruct Hh; by constructor]|].
  erewrite bind_run; [|apply (ip_checksum_run _ 0x45); [by apply ip_packet_bytes|done|]].
  2:{ change (header_length 0x45) with 20%nat. unfold ip_packet. rewrite !length_app, !le_bytes_length. cbn. lia. }
  match goal with |- context [?f ?x = Ret _ _] => set (s1 := x) end. assert (Hh1 : host s1 d dev) by (destruct Hh; by constructor).
  assert (Hsend : forall pk mac s2, host s2 d dev -> exists e s', ethernet_send pk mac ETH_TYPE_IPV4 d s2 = Ret e s' /\ host s' d dev).
  { intros pk mac s2 H2. destruct (ethernet_send_total pk mac ETH_TYPE_IPV4 d s2) as (e & s' & E & Q); [exists dev; apply H2|]. exists e, s'. split; [done|by apply host_quiet with s2]. }
  destruct (dest =? 0xFFFFFFFF); [by apply Hsend|]. edestruct (arp_resolve_total ms s1 d dev) as (r & s2 & E & H2 & _); [exact Ht|exact Hh1|].
  erewrite bind_run by exact E. destruct r as [mac|e]; [by apply Hsend|by exists e, s2].
Qed.

End protocols.

(** ** Two hosts on a wire *)

Definition echo_frame (type : Z) (from to : net_device_t) (identifier sequence : Z) (data : list Z) : list Z :=
  framed (mac_address to) (mac_address from) ETH_TYPE_IPV4 (ip_datagram IP_PROTOCOL_ICMP (ip_address from) (ip_address to) (icmp_message type identifier sequence data)).

(** An echo frame reaches [icmp_handle_packet]. *)
Lemma echo_frame_received send mem upt slp s d dev from type i q data junk :
  host s d dev -> fits 32 (ip_address from) -> length (mac_address from) = 6%nat -> bytes data -> bytes junk -> IP_HEADER_SIZE + (ICMP_HEADER_SIZE + Z.of_nat (length data)) < 2 ^ 16 ->
  type = ICMP_TYPE_ECHO_REQUEST \/ type = ICMP_TYPE_ECHO_REPLY ->
  let frame := echo_frame type from dev i q data in
  exists junk', bytes junk' /\
  ethernet_receive send mem upt slp d ERR_OK (frame ++ junk) (Z.of_nat (length frame)) s =
  (icmp_handle_packet send mem upt slp (icmp_message type i q data ++ junk') (Z.of_nat (length (icmp_message type i q data))) (ip_address from);;; ret ERR_OK) s.
Proof.
  intros Hh Hip Hmac Hb Hj Hl Ht frame. unfold IP_HEADER_SIZE, ICMP_HEADER_SIZE in Hl. unfold frame, echo_frame.
  eexists (repeat 0 _ ++ junk). split; [apply Forall_app_2; [apply repeat_bytes|done]|].
  rewrite (ethernet_receive_frame _ _ _ _ s d dev); [|done|done|by left|by right|rewrite ip_datagram_length, icmp_message_length; change (2 ^ 63) with 9223372036854775808; fits_lia].
  cbn [Z.eqb Pos.eqb ETH_TYPE_IPV4 ETH_TYPE_ARP]. rewrite (ip_receive_datagram _ _ _ _ s d dev); [done|apply Hh|apply Hh|apply Hh|done| | |].
  - apply icmp_message_bytes; [|done]. unfold ICMP_TYPE_ECHO_REQUEST, ICMP_TYPE_ECHO_REPLY in Ht. fits_lia.
  - apply Forall_app_2; [apply repeat_bytes|done].
  - rewrite icmp_message_length. unfold IP_HEADER_SIZE. fits_lia.
Qed.

Lemma sending_counted s a c a' c' d f : sending (counted (counted s a c) a' c') d f = sending (counted s (a + a') (c + c')) d f.
Proof. unfold sending, counted, set_sent, set_counters. cbn. by rewrite !Nat.add_assoc. Qed.

Lemma host_counted s a c d dev : host s d dev -> host (counted s a c) d dev.
Proof. intros []. by constructor. Qed.

Lemma host_sending s d dev d' f : host s d dev -> host (sending s d' f) d dev.
Proof. intros []. by constructor. Qed.

Lemma echo_request_answered send mem upt slp s d dev from i q data junk :
  (forall n, mem n = true) -> host s d dev -> ip_address from <> 0xFFFFFFFF -> Z.land (ip_address dev) (netmask dev) = Z.land (ip_address from) (netmask dev) ->
  cached upt s (ip_address from) (mac_address from) -> bytes data -> bytes junk -> IP_HEADER_SIZE + (ICMP_HEADER_SIZE + Z.of_nat (length data)) < 2 ^ 16 ->
  let reply := echo_frame ICMP_TYPE_ECHO_REPLY dev from i q data in
  icmp_handle_packet send mem upt slp (icmp_message ICMP_TYPE_ECHO_REQUEST i q data ++ junk) (Z.of_nat (length (icmp_message ICMP_TYPE_ECHO_REQUEST i q data))) (ip_address from) s =
  Ret (send d reply) (sending (counted s 3 3) d reply).
Proof.
  intros Hm Hh Hip Hnet Hc Hb Hj Hl reply. unfold IP_HEADER_SIZE, ICMP_HEADER_SIZE in Hl.
  rewrite (icmp_handle_message send mem upt slp Hm s d dev) by (done || by left || (unfold ICMP_HEADER_SIZE; fits_lia)). rewrite Z.eqb_refl.
  rewrite (ip_send_run send mem upt slp Hm (counted s 1 0) d dev (ip_address from) IP_PROTOCOL_ICMP _ (mac_address from)); [by rewrite sending_counted|by apply host_counted| | |done| |done|done|].
  - unfold IP_PROTOCOL_ICMP. fits_lia.
  - apply icmp_message_bytes; [unfold ICMP_TYPE_ECHO_REPLY; fits_lia|done].
  - rewrite icmp_message_length. unfold IP_HEADER_SIZE. fits_lia.
  - unfold cached. cbn [counted set_counters cache clock_reads sleeps]. by rewrite Nat.add_0_r.
Qed.

(** C18. A ping is answered.  Each host has one device, which is up and called eth0, and
    a network stack that is initialised ([network_set_up]).  The two are on the same
    network by either netmask, neither has the broadcast address, each holds the other's
    hardware address in its ARP cache, recent enough, no allocation fails, and the IP
    packet is shorter than 2^16 bytes.  Then the echo request that the one sends is a frame
    for which the other sends exactly the reply that carries the same identifier, sequence
    number and data, whatever bytes the receive buffers hold after the frames; and that
    reply goes through the stack of the first to [icmp_handle_packet], which checks it,
    reports success and sends nothing. *)
Theorem ping_answered sendA memA uptA slpA sendB memB uptB slpB sA sB dA dB devA devB i q data junk junk' :
  (forall n, memA n = true) -> (forall n, memB n = true) -> host sA dA devA -> host sB dB devB ->
  ip_address devA <> 0xFFFFFFFF -> ip_address devB <> 0xFFFFFFFF ->
  Z.land (ip_address devA) (netmask devA) = Z.land (ip_address devB) (netmask devA) ->
  Z.land (ip_address devB) (netmask devB) = Z.land (ip_address devA) (netmask devB) ->
  cached uptA sA (ip_address devB) (mac_address devB) -> cached uptB sB (ip_address devA) (mac_address devA) ->
  bytes data -> bytes junk -> bytes junk' -> IP_HEADER_SIZE + (ICMP_HEADER_SIZE + Z.of_nat (length data)) < 2 ^ 16 ->
  let request := echo_frame ICMP_TYPE_ECHO_REQUEST devA devB i q data in
  let reply := echo_frame ICMP_TYPE_ECHO_REPLY devB devA i q data in
  let sA' := sending (counted sA 3 3) dA request in
  icmp_send_echo sendA memA uptA slpA (ip_address devB) i q data sA = Ret (sendA dA request) sA' /\
  ethernet_receive sendB memB uptB slpB dB ERR_OK (request ++ junk) (Z.of_nat (length request)) sB = Ret ERR_OK (sending (counted sB 3 3) dB reply) /\
  exists rest, bytes rest /\
    let message := icmp_message ICMP_TYPE_ECHO_REPLY i q data in
    let icmp := icmp_handle_packet sendA memA uptA slpA (message ++ rest) (Z.of_nat (length message)) (ip_address devB) in
    ethernet_receive sendA memA uptA slpA dA ERR_OK (reply ++ junk') (Z.of_nat (length reply)) sA' = (icmp;;; ret ERR_OK) sA' /\
    icmp sA' = Ret ERR_OK sA'.
Proof.
  intros MA MB HA HB NA NB NetA NetB CA CB Hb Hj Hj' Hl request reply sA'. split; [by apply icmp_send_echo_run with (uptime := uptA)|]. split.
  - destruct (echo_frame_received sendB memB uptB slpB sB dB devB devA ICMP_TYPE_ECHO_REQUEST i q data junk) as (j & Hjb & E); [done|apply HA|apply HA|done|done|done|by left|].
    unfold request. rewrite E. by erewrite bind_run by (by apply echo_request_answered).
  - assert (HA' : host sA' dA devA) by by apply host_sending, host_counted.
    destruct (echo_frame_received sendA memA uptA slpA sA' dA devA devB ICMP_TYPE_ECHO_REPLY i q data junk') as (j & Hjb & E); [done|apply HB|apply HB|done|done|done|by right|].
    exists j. split; [done|]. cbv zeta. split; [exact E|]. unfold IP_HEADER_SIZE, ICMP_HEADER_SIZE in Hl.
    apply (icmp_handle_message sendA memA uptA slpA MA sA' dA devA ICMP_TYPE_ECHO_REPLY); [done|by right|done|done|unfold ICMP_HEADER_SIZE; fits_lia].
Qed.

(** An ARP frame reaches [arp_handle_packet] with its packet. *)
Lemma arp_frame_received send mem upt slp s d dev dst src op smac sip tmac tip junk :
  host s d dev -> length src = 6%nat -> dst = mac_address dev \/ dst = broadcast_mac -> length smac = 6%nat -> length tmac = 6%nat -> fits 32 sip -> fits 32 tip ->
  op = ARP_OP_REQUEST \/ op = ARP_OP_REPLY ->
  let frame := framed dst src ETH_TYPE_ARP (arp_packet op smac sip tmac tip) in
  ethernet_receive send mem upt slp d ERR_OK (frame ++ junk) (Z.of_nat (length frame)) s =
  (if op =? ARP_OP_REPLY then arp_update_cache upt sip smac;;; ret ERR_OK
   else if tip =? ip_address dev then ethernet_send send mem (arp_packet ARP_OP_REPLY (mac_address dev) (ip_address dev) smac sip) smac ETH_TYPE_ARP d;;; ret ERR_OK
   else ret ERR_OK) s.
Proof.
  intros Hh Hsrc Hdst Hs Ht Hsip Htip Hop frame. unfold frame. rewrite (ethernet_receive_frame _ _ _ _ s d dev); [|done|done|done|by left|by rewrite arp_packet_length].
  rewrite Z.eqb_refl. apply arp_handle_run; try done. rewrite length_app, arp_packet_length by done. unfold ARP_PACKET_SIZE. lia.
Qed.

Lemma arp_learnt upt s ip mac :
  arp_initialized s = true -> (forall k, 0 <= k < Z.of_nat ARP_CACHE_SIZE -> fits 64 (timestamp (cache s k))) ->
  (forall n n' z, (n <= n' <= n + 3)%nat -> 0 <= upt n' z - upt n z < ARP_RESOLVE_TIMEOUT) ->
  exists s', arp_update_cache upt ip mac s = Ret tt s' /\ sent s' = sent s /\ arp_initialized s' = true /\ cached upt s' ip mac.
Proof.
  intros Hin Hts Hclk. eexists. split; [by apply arp_update_cache_run|]. split; [done|]. split; [done|]. destruct (update_scan_slot (cache s) ip Hts) as [Hi Hs].
  set (i := update_scan ARP_CACHE_SIZE 0 ip (cache s) None 0 (2 ^ 64 - 1)) in *. exists i, (upt (clock_reads s) (sleeps s)).
  cbn [cache set_arp counted set_counters clock_reads sleeps]. split; [done|]. split; [apply aset_eq|]. split.
  { intros j Hj. rewrite aset_ne by lia. by apply (slot_before _ _ _ Hs). }
  pose proof (Hclk (clock_reads s) (clock_reads s + 1 + 2)%nat (sleeps s) ltac:(lia)) as H1. pose proof (Hclk (clock_reads s + 1)%nat (S (clock_reads s + 1)) (sleeps s) ltac:(lia)) as H2.
  unfold ARP_RESOLVE_TIMEOUT, ARP_CACHE_TIMEOUT in *. rewrite !wrap_small by fits_lia. lia.
Qed.

(** Finding a neighbour.  The request that one host broadcasts for the address of the
    other makes the other send it one reply; when the reply arrives the cache gives the
    hardware address of the other host, and [arp_resolve] returns it without sending
    anything. *)
Theorem arp_exchange sendA memA uptA slpA sendB memB uptB slpB sA sB dA dB devA devB junk junk' :
  (forall n, memA n = true) -> (forall n, memB n = true) -> host sA dA devA -> host sB dB devB ->
  (forall k, 0 <= k < Z.of_nat ARP_CACHE_SIZE -> fits 64 (timestamp (cache sA k))) ->
  (forall n n' z, (n <= n' <= n + 3)%nat -> 0 <= uptA n' z - uptA n z < ARP_RESOLVE_TIMEOUT) ->
  let request := framed broadcast_mac (mac_address devA) ETH_TYPE_ARP (arp_packet ARP_OP_REQUEST (mac_address devA) (ip_address devA) (repeat 0 6) (ip_address devB)) in
  let reply := framed (mac_address devA) (mac_address devB) ETH_TYPE_ARP (arp_packet ARP_OP_REPLY (mac_address devB) (ip_address devB) (mac_address devA) (ip_address devA)) in
  let sA' := sending (counted sA 2 0) dA request in
  arp_request sendA memA (ip_address devB) sA = Ret (sendA dA request) sA' /\
  ethernet_receive sendB memB uptB slpB dB ERR_OK (request ++ junk) (Z.of_nat (length request)) sB = Ret ERR_OK (sending (counted sB 1 0) dB reply) /\
  exists sA'', ethernet_receive sendA memA uptA slpA dA ERR_OK (reply ++ junk') (Z.of_nat (length reply)) sA' = Ret ERR_OK sA'' /\ sent sA'' = sent sA' /\
    arp_resolve sendA memA uptA slpA (ip_address devB) sA'' = Ret (inl (mac_address devB)) (counted sA'' 0 3).
Proof.
  intros MA MB HA HB Hts Hclk request reply sA'. pose proof (proj1 (host_mac _ _ _ HA)) as LA. pose proof (proj1 (host_mac _ _ _ HB)) as LB. split; [|split].
  - unfold arp_request. destruct (host_init _ _ _ HA) as [_ Hin]. erewrite bind_run by reflexivity. rewrite Hin. cbn [negb]. erewrite bind_run by (by apply up_device_run). cbv beta iota.
    erewrite bind_run by reflexivity. rewrite MA. cbn [negb].
    rewrite (ethernet_send_run sendA memA MA _ dA devA); [|apply HA|apply HA|done|rewrite arp_packet_length by done; done].
    fold request. f_equal. unfold sA', sending, counted, set_sent, set_counters. cbn. f_equal; lia.
  - unfold request. rewrite (arp_frame_received _ _ _ _ sB dB devB); [|done|done|by right|done|done|apply HA|apply HB|by left]. cbn [Z.eqb Pos.eqb ARP_OP_REQUEST ARP_OP_REPLY].
    rewrite Z.eqb_refl. by erewrite bind_run by (apply (ethernet_send_run sendB memB MB sB dB devB); [apply HB|apply HB|done|by rewrite arp_packet_length]).
  - assert (HA' : host sA' dA devA) by by apply host_sending, host_counted. destruct (host_init _ _ _ HA') as [_ Hin].
    destruct (arp_learnt uptA sA' (ip_address devB) (mac_address devB) Hin Hts Hclk) as (s' & E & Hsent & Hin' & Hc). exists s'.
    split; [|split; [done|by apply arp_resolve_run]].
    unfold reply. rewrite (arp_frame_received _ _ _ _ sA' dA devA); [|done|done|by left|done|done|apply HB|apply HA|by right]. rewrite Z.eqb_refl. by erewrite bind_run by exact E.
Qed.

(** ** The host that the kernel sets up *)

(** The state at power-on: the static variables are zero, and the drivers have filled in
    the structures of their devices. *)
Definition boot (d : gmap Z net_device_t) : net :=
  {| devs := d; devices := 0; net_initialized := false; eth_handlers := fun _ => (0, arp_handler); eth_handler_count := 0;
     cache := fun _ => {| e_ip := 0; e_mac := repeat 0 6; timestamp := 0; valid := false |}; arp_initialized := false; last_req := 0;
     sent := []; allocs := 0; clock_reads := 0; sleeps := 0 |}.

(** Initialising the network, registering the device that a driver has brought up as
    [eth0] and giving it an address sets up a [host] with that address. *)
Lemma network_set_up ds d dev ip mask gw :
  ds !! d = Some dev -> d <> 0 -> dev_name dev = eth0 -> up dev = true -> length (mac_address dev) = 6%nat -> bytes (mac_address dev) -> fits 32 ip ->
  exists s, (network_init;;; network_register_device d;;; network_set_ip d ip mask gw) (boot ds) = Ret ERR_OK s /\
    host s d {| dev_name := eth0; mac_address := mac_address dev; ip_address := ip; netmask := mask; gateway := gw; up := true; dev_next := 0 |}.
Proof.
  intros Hd H0 Hn Hu Hm Hb Hip. eexists. split.
  - erewrite bind_run by reflexivity. unfold network_register_device, network_set_ip. rewrite !(proj2 (Z.eqb_neq d 0)) by done.
    unfold bind, get, modify, ret, device_at. cbn. rewrite Hd. cbn. rewrite lookup_insert_eq. reflexivity.
  - constructor; cbn; try done. rewrite lookup_insert_eq, Hn, Hu. done.
Qed.

(** ** Instances *)

Definition example_device (n : Z) : net_device_t :=
  {| dev_name := eth0; mac_address := [2; 0; 0; 0; 0; n]; ip_address := 0xC0A80000 + n; netmask := 0xFFFFFF00; gateway := 0xC0A80001; up := true; dev_next := 0 |}.

(** Host number [n], which knows the address of host [peer]. *)
Definition example_host (n peer : Z) : net :=
  {| devs := {[1 := example_device n]}; devices := 1; net_initialized := true;
     eth_handlers := fun k => if k =? 0 then (ETH_TYPE_ARP, arp_handler) else (ETH_TYPE_IPV4, ip_handler); eth_handler_count := 2;
     cache := fun k => if k =? 0 then {| e_ip := 0xC0A80000 + peer; e_mac := [2; 0; 0; 0; 0; peer]; timestamp := 0; valid := true |}
                       else {| e_ip := 0; e_mac := repeat 0 6; timestamp := 0; valid := false |};
     arp_initialized := true; last_req := 0; sent := []; allocs := 0; clock_reads := 0; sleeps := 0 |}.

Definition no_error (_ : Z) (_ : list Z) : error_code_t := ERR_OK.
Definition always (_ : nat) : bool := true.
Definition ticking (_ z : nat) : Z := u64 (10 * Z.of_nat z).
Definition nothing (_ : nat) (s : net) : net := s.

Lemma example_host_ok n peer : fits 8 n -> host (example_host n peer) 1 (example_device n).
Proof.
  intros Hn. constructor; try done.
  - split; [done|]. repeat constructor; fits_lia.
  - cbn [ip_address example_device]. fits_lia.
Qed.

Lemma example_cached n peer : cached ticking (example_host n peer) (0xC0A80000 + peer) [2; 0; 0; 0; 0; peer].
Proof. exists 0, 0. split; [unfold ARP_CACHE_SIZE; lia|]. split; [done|]. split; [intros; lia|done]. Qed.

(** A datagram with an echo request for host 7. *)
Definition example_datagram : list Z := ip_datagram IP_PROTOCOL_ICMP (0xC0A80000 + 9) (0xC0A80000 + 7) (icmp_message ICMP_TYPE_ECHO_REQUEST 1 2 [104; 105]).

Lemma example_datagram_bytes : bytes example_datagram.
Proof. apply ip_packet_bytes; [unfold IP_PROTOCOL_ICMP; fits_lia|]. apply icmp_message_bytes; [unfold ICMP_TYPE_ECHO_REQUEST; fits_lia|]. repeat constructor; fits_lia. Qed.

Lemma ip_corruption_detected_witness :
  ip_receive no_error always ticking nothing 1 (buf_write example_datagram 8 [63; 1]) 30 (example_host 7 9) = Ret ERR_FAILED (example_host 7 9).
Proof.
  apply (ip_corruption_detected no_error always ticking nothing 1 example_datagram 0x45 8 63 1 30 (example_host 7 9)).
  - apply example_datagram_bytes.
  - by vm_compute.
  - vm_compute. lia.
  - lia.
  - done.
  - vm_compute. lia.
  - fits_lia.
  - fits_lia.
  - lia.
  - by vm_compute.
  - vm_compute. lia.
  - vm_compute. lia.
  - intros E. apply (f_equal (fun r => match r with Ret ERR_OK _ => true | _ => false end)) in E. by vm_compute in E.
Defined.

(** A header of 20 bytes whose total length says 10. *)
Definition short_datagram : list Z :=
  let packet c := ip_packet (bswap16 10) IP_PROTOCOL_ICMP c (0xC0A80000 + 9) (0xC0A80000 + 7) [] in
  packet (bswap16 (65535 - ones_sum (words_sum (packet 0)))).

Lemma ip_receive_overreads_witness : ip_receive no_error always ticking nothing 1 short_datagram 46 (example_host 7 9) = Fault.
Proof.
  apply (ip_receive_overreads no_error always ticking nothing 1 (example_device 7) short_datagram 0x45 46 (example_host 7 9)).
  - apply ip_packet_bytes; [unfold IP_PROTOCOL_ICMP; fits_lia|constructor].
  - by vm_compute.
  - vm_compute. lia.
  - lia.
  - by vm_compute.
  - by vm_compute.
  - by vm_compute.
  - by vm_compute.
  - by vm_compute.
  - left. by vm_compute.
Defined.

Lemma arp_cache_correct_witness :
  exists s', arp_update_cache ticking 5 [1; 2; 3; 4; 5; 6] (example_host 7 9) = Ret tt s' /\ search_cache ticking ARP_CACHE_SIZE 0 5 s' = Ret (Some [1; 2; 3; 4; 5; 6]) (counted s' 0 1).
Proof.
  destruct (arp_cache_correct ticking (example_host 7 9) 5 [1; 2; 3; 4; 5; 6]) as (i & s' & _ & _ & E & _ & _ & _ & H); [done| | |].
  - intros k _. cbn [cache example_host]. by destruct (k =? 0).
  - intros j k _ _. cbn [cache example_host]. destruct (Z.eqb_spec j 0), (Z.eqb_spec k 0); try done. by subst.
  - exists s'. split; [exact E|]. apply H. rewrite arp_update_cache_run in E by done. injection E as <-. by vm_compute.
Defined.

Lemma example_timely : timely ticking nothing (fun _ z => 10 * Z.of_nat z) 1 (example_device 7).
Proof. constructor; [done| | |]; intros; unfold nothing; change (2 ^ 64) with 18446744073709551616; [lia|lia|by split; [|split]]. Qed.

Lemma arp_resolve_ends_witness : exists r s', arp_resolve no_error always ticking nothing 5 (example_host 7 9) = Ret r s' /\
    match r with inl mac => exists k, holds (cache s') 5 k = true /\ e_mac (cache s' k) = mac | inr e => e = ERR_TIMEOUT end.
Proof.
  apply (arp_resolve_ends no_error always ticking nothing (fun _ z => 10 * Z.of_nat z) (example_host 7 9) 1 (example_device 7) 5); [apply example_timely|].
  apply example_host_ok. fits_lia.
Defined.

Lemma ping_answered_witness :
  let request := echo_frame ICMP_TYPE_ECHO_REQUEST (example_device 9) (example_device 7) 1 2 [104; 105] in
  let reply := echo_frame ICMP_TYPE_ECHO_REPLY (example_device 7) (example_device 9) 1 2 [104; 105] in
  ethernet_receive no_error always ticking nothing 1 ERR_OK (request ++ [3]) (Z.of_nat (length request)) (example_host 7 9) = Ret ERR_OK (sending (counted (example_host 7 9) 3 3) 1 reply).
Proof.
  apply (ping_answered no_error always ticking nothing no_error always ticking nothing (example_host 9 7) (example_host 7 9) 1 1 (example_device 9) (example_device 7) 1 2 [104; 105] [3] []).
  all: try (apply example_host_ok; fits_lia).
  all: try apply (example_cached 9 7).
  all: try apply (example_cached 7 9).
  all: try (by vm_compute).
  all: try (repeat constructor; fits_lia).
  all: by intros [].
Defined.

Lemma arp_exchange_witness :
  let request := framed broadcast_mac (mac_address (example_device 9)) ETH_TYPE_ARP
    (arp_packet ARP_OP_REQUEST (mac_address (example_device 9)) (ip_address (example_device 9)) (repeat 0 6) (ip_address (example_device 7))) in
  arp_request no_error always (ip_address (example_device 7)) (example_host 9 7) = Ret ERR_OK (sending (counted (example_host 9 7) 2 0) 1 request).
Proof.
  apply (arp_exchange no_error always ticking nothing no_error always ticking nothing (example_host 9 7) (example_host 7 9) 1 1 (example_device 9) (example_device 7) [] []).
  - by intros.
  - by intros.
  - apply example_host_ok. fits_lia.
  - apply example_host_ok. fits_lia.
  - intros k _. cbn [cache example_host]. by destruct (k =? 0).
  - intros n n' z _. unfold ticking, ARP_RESOLVE_TIMEOUT. lia.
Defined.
