(* ===== verification/Tcp.v ===== *)
(** * TCP and sockets (kernel/net/tcp.c, kernel/net/socket.c)

    Connections and sockets live on the kernel heap and are named by their addresses;
    following an address that holds none is [Fault].  A receive buffer is a block of
    bytes.  The parts outside: those of [Net]; [addr], the address the n-th call of
    [kmalloc] gives (0 when it fails); [garbage], what a new block contains; [ptr_diff],
    the difference of two pointers to sockets, which C leaves undefined unless they
    point into one array.  The locks are released before another function is called and
    are left out.  A pointer argument that the code compares with NULL is present
    unless an option says otherwise. *)

From stdpp Require Import base tactics list numbers option gmap.
From Stdlib Require Import Lia.
From S2P Require Import Prelude Effect Bytes Buffer Packet Net.

#[local] Open Scope Z_scope.

Definition TCP_FLAG_FIN : Z := 0x01.
Definition TCP_FLAG_SYN : Z := 0x02.
Definition TCP_FLAG_PSH : Z := 0x08.
Definition TCP_FLAG_ACK : Z := 0x10.
Definition MAX_TCP_CONNECTIONS : nat := 32.
Definition TCP_HEADER_SIZE : Z := 20.
Definition SOCK_STREAM : Z := 1.
Definition SOCK_DGRAM : Z := 2.
Definition AF_INET : Z := 2.
Definition RECEIVE_BUFFER_SIZE : Z := 4096.

Inductive tcp_state_t :=
  TCP_STATE_CLOSED | TCP_STATE_LISTEN | TCP_STATE_SYN_SENT | TCP_STATE_SYN_RECEIVED | TCP_STATE_ESTABLISHED | TCP_STATE_FIN_WAIT_1
| TCP_STATE_FIN_WAIT_2 | TCP_STATE_CLOSE_WAIT | TCP_STATE_CLOSING | TCP_STATE_LAST_ACK | TCP_STATE_TIME_WAIT.

#[global] Instance tcp_state_eq_dec : EqDecision tcp_state_t.
Proof. solve_decision. Defined.

Record tcp_connection_t := {
  local_ip : Z; remote_ip : Z; local_port : Z; remote_port : Z; state : tcp_state_t;
  seq_num : Z; ack_num : Z; window_size : Z;
  receive_buffer : Z; receive_buffer_size : Z; receive_buffer_pos : Z;
  next_pending : Z; pending_head : Z; pending_tail : Z
}.

Record socket_t := {
  type : Z; sock_local_ip : Z; sock_local_port : Z; sock_remote_ip : Z; sock_remote_port : Z;
  bound : bool; connected : bool; data : Z; next : Z
}.

Record tcp := {
  netw : net; conns : gmap Z tcp_connection_t; buffers : gmap Z (list Z);
  connections : arr Z; next_seq_num : Z; tcp_initialized : bool;
  socks : gmap Z socket_t; sockets : Z; next_fd : Z; socket_initialized : bool;
  heap_calls : nat
}.

Definition set_net (s : tcp) (n : net) : tcp :=
  {| netw := n; conns := conns s; buffers := buffers s; connections := connections s; next_seq_num := next_seq_num s; tcp_initialized := tcp_initialized s;
     socks := socks s; sockets := sockets s; next_fd := next_fd s; socket_initialized := socket_initialized s; heap_calls := heap_calls s |}.
Definition set_conns (s : tcp) (c : gmap Z tcp_connection_t) : tcp :=
  {| netw := netw s; conns := c; buffers := buffers s; connections := connections s; next_seq_num := next_seq_num s; tcp_initialized := tcp_initialized s;
     socks := socks s; sockets := sockets s; next_fd := next_fd s; socket_initialized := socket_initialized s; heap_calls := heap_calls s |}.
Definition set_buffers (s : tcp) (b : gmap Z (list Z)) : tcp :=
  {| netw := netw s; conns := conns s; buffers := b; connections := connections s; next_seq_num := next_seq_num s; tcp_initialized := tcp_initialized s;
     socks := socks s; sockets := sockets s; next_fd := next_fd s; socket_initialized := socket_initialized s; heap_calls := heap_calls s |}.
Definition set_tcp (s : tcp) (c : arr Z) (n : Z) (i : bool) : tcp :=
  {| netw := netw s; conns := conns s; buffers := buffers s; connections := c; next_seq_num := n; tcp_initialized := i;
     socks := socks s; sockets := sockets s; next_fd := next_fd s; socket_initialized := socket_initialized s; heap_calls := heap_calls s |}.
Definition set_socks (s : tcp) (k : gmap Z socket_t) (h fd : Z) (i : bool) : tcp :=
  {| netw := netw s; conns := conns s; buffers := buffers s; connections := connections s; next_seq_num := next_seq_num s; tcp_initialized := tcp_initialized s;
     socks := k; sockets := h; next_fd := fd; socket_initialized := i; heap_calls := heap_calls s |}.
Definition set_heap_calls (s : tcp) (n : nat) : tcp :=
  {| netw := netw s; conns := conns s; buffers := buffers s; connections := connections s; next_seq_num := next_seq_num s; tcp_initialized := tcp_initialized s;
     socks := socks s; sockets := sockets s; next_fd := next_fd s; socket_initialized := socket_initialized s; heap_calls := n |}.

Abbreviation M := (Effect.M tcp).
#[local] Open Scope effect_scope.

(** A computation on the network below. *)
Definition lift {A} (m : Effect.M net A) : M A := fun s =>
  match m (netw s) with Ret a n => Ret a (set_net s n) | Fault => Fault | Deadlock => Deadlock | Panic => Panic | NoFuel => NoFuel end.

Definition conn_at (p : Z) : M tcp_connection_t := fun s => match conns s !! p with Some c => Ret c s | None => Fault end.

(** [conn->... = ...] *)
Definition update (p : Z) (f : tcp_connection_t -> tcp_connection_t) : M unit := fun s =>
  match conns s !! p with Some c => Ret tt (set_conns s (<[p := f c]> (conns s))) | None => Fault end.

Definition with_state (v : tcp_state_t) (c : tcp_connection_t) : tcp_connection_t :=
  {| local_ip := local_ip c; remote_ip := remote_ip c; local_port := local_port c; remote_port := remote_port c; state := v; seq_num := seq_num c; ack_num := ack_num c;
     window_size := window_size c; receive_buffer := receive_buffer c; receive_buffer_size := receive_buffer_size c; receive_buffer_pos := receive_buffer_pos c;
     next_pending := next_pending c; pending_head := pending_head c; pending_tail := pending_tail c |}.
Definition with_seq (v : Z) (c : tcp_connection_t) : tcp_connection_t :=
  {| local_ip := local_ip c; remote_ip := remote_ip c; local_port := local_port c; remote_port := remote_port c; state := state c; seq_num := v; ack_num := ack_num c;
     window_size := window_size c; receive_buffer := receive_buffer c; receive_buffer_size := receive_buffer_size c; receive_buffer_pos := receive_buffer_pos c;
     next_pending := next_pending c; pending_head := pending_head c; pending_tail := pending_tail c |}.
Definition with_ack (v : Z) (c : tcp_connection_t) : tcp_connection_t :=
  {| local_ip := local_ip c; remote_ip := remote_ip c; local_port := local_port c; remote_port := remote_port c; state := state c; seq_num := seq_num c; ack_num := v;
     window_size := window_size c; receive_buffer := receive_buffer c; receive_buffer_size := receive_buffer_size c; receive_buffer_pos := receive_buffer_pos c;
     next_pending := next_pending c; pending_head := pending_head c; pending_tail := pending_tail c |}.
Definition with_pos (v : Z) (c : tcp_connection_t) : tcp_connection_t :=
  {| local_ip := local_ip c; remote_ip := remote_ip c; local_port := local_port c; remote_port := remote_port c; state := state c; seq_num := seq_num c; ack_num := ack_num c;
     window_size := window_size c; receive_buffer := receive_buffer c; receive_buffer_size := receive_buffer_size c; receive_buffer_pos := v;
     next_pending := next_pending c; pending_head := pending_head c; pending_tail := pending_tail c |}.
Definition with_pending (n h t : Z) (c : tcp_connection_t) : tcp_connection_t :=
  {| local_ip := local_ip c; remote_ip := remote_ip c; local_port := local_port c; remote_port := remote_port c; state := state c; seq_num := seq_num c; ack_num := ack_num c;
     window_size := window_size c; receive_buffer := receive_buffer c; receive_buffer_size := receive_buffer_size c; receive_buffer_pos := receive_buffer_pos c;
     next_pending := n; pending_head := h; pending_tail := t |}.

(** The first [n] bytes of a block, and bytes written into it. *)
Definition block_read (p n : Z) : M (list Z) := fun s =>
  match buffers s !! p with Some l => if (Z.to_nat n <=? length l)%nat then Ret (take (Z.to_nat n) l) s else Fault | None => Fault end.
Definition block_write (p o : Z) (d : list Z) : M unit := fun s =>
  match buffers s !! p with
  | Some l => if (Z.to_nat o + length d <=? length l)%nat then Ret tt (set_buffers s (<[p := buf_write l (Z.to_nat o) d]> (buffers s))) else Fault
  | None => Fault
  end.

(** ** Segments *)

Definition bswap32 (x : Z) : Z :=
  u32 (Z.lor (Z.lor (Z.shiftl x 24) (Z.shiftl (Z.land x 0xFF00) 8)) (Z.lor (Z.land (Z.shiftr x 8) 0xFF00) (Z.shiftr (u32 x) 24))).

Definition tcp_packet (src_port dest_port seq ack flags window checksum : Z) (payload : list Z) : list Z :=
  le_bytes 2 src_port ++ le_bytes 2 dest_port ++ le_bytes 4 seq ++ le_bytes 4 ack ++ [u8 (Z.shiftl (TCP_HEADER_SIZE / 4) 4); flags] ++
  le_bytes 2 window ++ le_bytes 2 checksum ++ le_bytes 2 0 ++ payload.

Definition pseudo_header (src_ip dest_ip tcp_len : Z) : list Z :=
  le_bytes 4 src_ip ++ le_bytes 4 dest_ip ++ [0; IP_PROTOCOL_TCP] ++ le_bytes 2 (bswap16 (u16 tcp_len)).

Definition tcp_checksum (header : list Z) (tcp_len src_ip dest_ip : Z) : M Z :=
  finish (sum ← add_words (pseudo_header src_ip dest_ip tcp_len) 6 0; add_bytes header tcp_len sum).

Section sockets.
  Context (send_packet : Z -> list Z -> error_code_t) (mem_ok : nat -> bool) (uptime : nat -> nat -> Z) (during_sleep : nat -> net -> net).
  Context (addr : nat -> Z) (garbage : nat -> nat -> Z) (ptr_diff : Z -> Z -> Z).

Definition kmalloc : M Z := fun s => Ret (addr (heap_calls s)) (set_heap_calls s (S (heap_calls s))).

(** A block of [n] bytes. *)
Definition kmalloc_bytes (n : nat) : M Z := fun s =>
  let p := addr (heap_calls s) in
  let s' := set_heap_calls s (S (heap_calls s)) in
  if p =? 0 then Ret 0 s' else Ret p (set_buffers s' (<[p := map (garbage (heap_calls s)) (seq 0 n)]> (buffers s'))).

Definition kfree_bytes (p : Z) : M unit := fun s =>
  match buffers s !! p with Some _ => Ret tt (set_buffers s (delete p (buffers s))) | None => Fault end.
Definition kfree_conn (p : Z) : M unit := fun s =>
  match conns s !! p with Some _ => Ret tt (set_conns s (delete p (conns s))) | None => Fault end.

(** ** Connections *)

Definition tcp_init : M error_code_t :=
  init <~ get tcp_initialized;;
  if (init : bool) then ret ERR_OK else modify (fun s => set_tcp s (fun _ => 0) 1 true);;; ret ERR_OK.

(** The first connection of the table with a property. *)
Fixpoint scan (n : nat) (i : Z) (p : tcp_connection_t -> bool) : M Z :=
  match n with
  | O => ret 0
  | S n =>
      t <~ get connections;;
      if t i =? 0 then scan n (i + 1) p else c <~ conn_at (t i);; if p c then ret (t i) else scan n (i + 1) p
  end.

Definition tcp_find_connection (lip lport rip rport : Z) : M Z :=
  scan MAX_TCP_CONNECTIONS 0 (fun c => (local_ip c =? lip) && (local_port c =? lport) && (remote_ip c =? rip) && (remote_port c =? rport)).

Definition find_listener (port : Z) : M Z :=
  scan MAX_TCP_CONNECTIONS 0 (fun c => bool_decide (state c = TCP_STATE_LISTEN) && (local_port c =? port)).

Definition tcp_create_connection (lip lport rip rport : Z) : M Z :=
  init <~ get tcp_initialized;;
  (if (init : bool) then ret ERR_OK else tcp_init);;;
  existing <~ tcp_find_connection lip lport rip rport;;
  if negb (existing =? 0) then ret existing
  else
    conn <~ kmalloc;;
    if conn =? 0 then ret 0
    else
      n <~ get next_seq_num;;
      modify (fun s => set_tcp s (connections s) (u32 (n + 1)) (tcp_initialized s));;;
      buf <~ kmalloc_bytes (Z.to_nat RECEIVE_BUFFER_SIZE);;
      modify (fun s => set_conns s (<[conn := {| local_ip := lip; remote_ip := rip; local_port := lport; remote_port := rport; state := TCP_STATE_CLOSED;
                                                seq_num := n; ack_num := 0; window_size := 4096; receive_buffer := buf; receive_buffer_size := RECEIVE_BUFFER_SIZE;
                                                receive_buffer_pos := 0; next_pending := 0; pending_head := 0; pending_tail := 0 |}]> (conns s)));;;
      t <~ get connections;;
      (match find_first (fun i => t i =? 0) 0 MAX_TCP_CONNECTIONS with
       | Some i => modify (fun s => set_tcp s (t.[i <- conn]) (next_seq_num s) (tcp_initialized s))
       | None => ret tt
       end);;;
      ret conn.

Definition tcp_send_packet (conn flags : Z) (d : list Z) : M error_code_t :=
  if conn =? 0 then ret ERR_INVALID_ARG
  else
    let data_len := Z.of_nat (length d) in
    let packet_size := u64 (TCP_HEADER_SIZE + data_len) in
    p <~ kmalloc;;
    if p =? 0 then ret ERR_OUT_OF_MEMORY
    else
      c <~ conn_at conn;;
      let packet checksum := tcp_packet (local_port c) (remote_port c) (bswap32 (seq_num c)) (bswap32 (ack_num c)) flags (bswap16 (u16 (window_size c))) checksum d in
      checksum <~ tcp_checksum (packet 0) packet_size (local_ip c) (remote_ip c);;
      err <~ lift (ip_send send_packet mem_ok uptime during_sleep (remote_ip c) IP_PROTOCOL_TCP (packet checksum));;
      let syn := negb (Z.land flags TCP_FLAG_SYN =? 0) in
      (if (0 <? data_len) || syn then update conn (fun c => with_seq (u32 (seq_num c + data_len + (if syn then 1 else 0))) c) else ret tt);;;
      ret err.

Definition tcp_send (conn : Z) (d : list Z) : M error_code_t :=
  if (conn =? 0) || (Z.of_nat (length d) =? 0) then ret ERR_INVALID_ARG
  else
    c <~ conn_at conn;;
    if negb (bool_decide (state c = TCP_STATE_ESTABLISHED)) then ret ERR_INVALID_STATE else tcp_send_packet conn (Z.lor TCP_FLAG_ACK TCP_FLAG_PSH) d.

(** The error code and the bytes stored into the caller's buffer of [len] bytes. *)
Definition tcp_receive (conn len : Z) : M (error_code_t * list Z) :=
  if conn =? 0 then ret (ERR_INVALID_ARG, [])
  else
    c <~ conn_at conn;;
    if negb (bool_decide (state c = TCP_STATE_ESTABLISHED)) then ret (ERR_INVALID_STATE, [])
    else if receive_buffer_pos c =? 0 then ret (ERR_NOT_FOUND, [])
    else
      let pos := receive_buffer_pos c in
      let copy_len := if len <? pos then len else pos in
      d <~ block_read (receive_buffer c) copy_len;;
      (if copy_len <? pos then rest <~ block_read (receive_buffer c) pos;; block_write (receive_buffer c) 0 (drop (Z.to_nat copy_len) rest) else ret tt);;;
      update conn (with_pos (u64 (pos - copy_len)));;;
      ret (ERR_OK, d).

Definition tcp_close (conn : Z) : M error_code_t :=
  if conn =? 0 then ret ERR_INVALID_ARG
  else
    c <~ conn_at conn;;
    (if bool_decide (state c = TCP_STATE_ESTABLISHED) then
       tcp_send_packet conn (Z.lor TCP_FLAG_FIN TCP_FLAG_ACK) [];;; update conn (with_state TCP_STATE_FIN_WAIT_1)
     else ret tt);;;
    t <~ get connections;;
    (match find_first (fun i => t i =? conn) 0 MAX_TCP_CONNECTIONS with
     | Some i => modify (fun s => set_tcp s (t.[i <- 0]) (next_seq_num s) (tcp_initialized s))
     | None => ret tt
     end);;;
    c <~ conn_at conn;;
    (if negb (receive_buffer c =? 0) then kfree_bytes (receive_buffer c) else ret tt);;;
    kfree_conn conn;;;
    ret ERR_OK.

(** A new connection joins the queue of its listener. *)
Definition add_pending (listener conn : Z) : M unit :=
  l <~ conn_at listener;;
  (if negb (pending_tail l =? 0) then
     update (pending_tail l) (fun c => with_pending conn (pending_head c) (pending_tail c) c);;;
     update listener (fun c => with_pending (next_pending c) (pending_head c) conn c)
   else update listener (fun c => with_pending (next_pending c) conn conn c));;;
  update conn (fun c => with_pending 0 (pending_head c) (pending_tail c) c).

(** What a SYN for which there is no connection does. *)
Definition handle_syn (dev_ip dest_port src_ip src_port seq : Z) : M error_code_t :=
  listener <~ tcp_find_connection 0 dest_port 0 0;;
  listener <~ (if listener =? 0 then find_listener dest_port else ret listener);;
  if negb (listener =? 0) then
    conn <~ tcp_create_connection dev_ip dest_port src_ip src_port;;
    (if negb (conn =? 0) then
       update conn (fun c => with_ack (u32 (seq + 1)) (with_state TCP_STATE_SYN_RECEIVED c));;;
       tcp_send_packet conn (Z.lor TCP_FLAG_SYN TCP_FLAG_ACK) [];;;
       update conn (with_state TCP_STATE_ESTABLISHED);;;
       add_pending listener conn
     else ret tt);;;
    ret ERR_OK
  else ret ERR_NOT_FOUND.

(** The payload of a segment goes into the receive buffer. *)
Definition handle_data (conn : Z) (b : list Z) (len seq : Z) : M error_code_t :=
  off <~ rd8 b 12;;
  let data_offset := Z.land (Z.shiftr off 4) 0x0F * 4 in
  let data_offset := if data_offset <? TCP_HEADER_SIZE then TCP_HEADER_SIZE else data_offset in
  (if data_offset <? len then
     let data_len := u64 (len - data_offset) in
     c <~ conn_at conn;;
     if u64 (receive_buffer_pos c + data_len) <=? receive_buffer_size c then
       d <~ rd b data_offset (Z.to_nat data_len);;
       block_write (receive_buffer c) (receive_buffer_pos c) d;;;
       update conn (fun c => with_ack (u32 (seq + data_len)) (with_pos (u64 (receive_buffer_pos c + data_len)) c));;;
       tcp_send_packet conn TCP_FLAG_ACK [];;; ret tt
     else ret tt
   else ret tt);;;
  ret ERR_OK.

(** A segment of a connection. *)
Definition handle_conn (conn : Z) (b : list Z) (len flags seq : Z) : M error_code_t :=
  c <~ conn_at conn;;
  (if negb (Z.land flags TCP_FLAG_FIN =? 0) && bool_decide (state c = TCP_STATE_ESTABLISHED) then
     update conn (fun c => with_ack (u32 (seq + 1)) (with_state TCP_STATE_CLOSE_WAIT c));;;
     tcp_send_packet conn TCP_FLAG_ACK [];;;
     tcp_send_packet conn (Z.lor TCP_FLAG_FIN TCP_FLAG_ACK) [];;;
     update conn (with_state TCP_STATE_LAST_ACK)
   else ret tt);;;
  c <~ conn_at conn;;
  if negb (Z.land flags TCP_FLAG_ACK =? 0) && bool_decide (state c = TCP_STATE_LAST_ACK) then tcp_close conn;;; ret ERR_OK
  else handle_data conn b len seq.

Definition tcp_handle_packet (b : list Z) (len src_ip : Z) : M error_code_t :=
  init <~ get tcp_initialized;;
  if negb init || (len <? TCP_HEADER_SIZE) then ret ERR_INVALID_ARG
  else
    sp <~ rd16 b 0;; dp <~ rd16 b 2;; sq <~ rd32 b 4;; flags <~ rd8 b 13;;
    let src_port := bswap16 sp in
    let dest_port := bswap16 dp in
    let seq := bswap32 sq in
    d <~ lift up_device;;
    match d with
    | None => ret ERR_DEVICE_NOT_FOUND
    | Some (_, dev) =>
        conn <~ tcp_find_connection (ip_address dev) dest_port src_ip src_port;;
        if (conn =? 0) && negb (Z.land flags TCP_FLAG_SYN =? 0) then handle_syn (ip_address dev) dest_port src_ip src_port seq
        else if conn =? 0 then ret ERR_NOT_FOUND
        else handle_conn conn b len flags seq
    end.

Definition tcp_listen (port : Z) : M error_code_t :=
  init <~ get tcp_initialized;;
  (if (init : bool) then ret ERR_OK else tcp_init);;;
  l <~ find_listener port;;
  if negb (l =? 0) then ret ERR_ALREADY_EXISTS
  else
    conn <~ tcp_create_connection 0 port 0 0;;
    if conn =? 0 then ret ERR_OUT_OF_MEMORY else update conn (with_state TCP_STATE_LISTEN);;; ret ERR_OK.

Definition tcp_accept (port : Z) : M Z :=
  listener <~ find_listener port;;
  if listener =? 0 then ret 0
  else
    l <~ conn_at listener;;
    if negb (pending_head l =? 0) then
      c <~ conn_at (pending_head l);;
      update listener (fun l => with_pending (next_pending l) (next_pending c) (if next_pending c =? 0 then 0 else pending_tail l) l);;;
      update (pending_head l) (fun c => with_pending 0 (pending_head c) (pending_tail c) c);;;
      ret (pending_head l)
    else ret 0.

(** ** Sockets *)

Definition socket_init : M error_code_t :=
  init <~ get socket_initialized;;
  if (init : bool) then ret ERR_OK else modify (fun s => set_socks s (socks s) 0 3 true);;; ret ERR_OK.

Definition sock_at (p : Z) : M socket_t := fun s => match socks s !! p with Some k => Ret k s | None => Fault end.
Definition put_sock (p : Z) (k : socket_t) : M unit := modify (fun s => set_socks s (<[p := k]> (socks s)) (sockets s) (next_fd s) (socket_initialized s)).

Fixpoint socket_find_loop (fuel : nat) (fd sock : Z) : M Z :=
  match fuel with
  | O => stop NoFuel
  | S fuel =>
      if sock =? 0 then ret 0
      else
        head <~ get sockets;;
        if ptr_diff sock head =? fd - 3 then ret sock else k <~ sock_at sock;; socket_find_loop fuel fd (next k)
  end.

Definition socket_find (fd : Z) : M Z :=
  head <~ get sockets;; fuel <~ get (fun s => S (size (socks s)));; socket_find_loop fuel fd head.

Definition socket_create (domain ty : Z) : M Z :=
  init <~ get socket_initialized;;
  (if (init : bool) then ret ERR_OK else socket_init);;;
  if negb (domain =? AF_INET) then ret (-1)
  else
    p <~ kmalloc;;
    if p =? 0 then ret (-1)
    else
      head <~ get sockets;; fd <~ get next_fd;;
      modify (fun s => set_socks s (<[p := {| type := ty; sock_local_ip := 0; sock_local_port := 0; sock_remote_ip := 0; sock_remote_port := 0;
                                              bound := false; connected := false; data := 0; next := head |}]> (socks s)) p (fd + 1) (socket_initialized s));;;
      ret fd.

(** Addresses are pairs of an IP address and a port. *)
Definition socket_bind (fd : Z) (a : option (Z * Z)) : M error_code_t :=
  p <~ socket_find fd;;
  match a with
  | None => ret ERR_INVALID_ARG
  | Some (ip, port) =>
      if p =? 0 then ret ERR_INVALID_ARG
      else
        k <~ sock_at p;;
        put_sock p {| type := type k; sock_local_ip := ip; sock_local_port := port; sock_remote_ip := sock_remote_ip k; sock_remote_port := sock_remote_port k;
                      bound := true; connected := connected k; data := data k; next := next k |};;;
        ret ERR_OK
  end.

Definition socket_listen (fd : Z) : M error_code_t :=
  p <~ socket_find fd;;
  if p =? 0 then ret ERR_INVALID_ARG
  else
    k <~ sock_at p;;
    if negb (type k =? SOCK_STREAM) then ret ERR_NOT_SUPPORTED
    else if negb (bound k) then ret ERR_INVALID_STATE
    else tcp_listen (sock_local_port k).

Definition socket_connect (fd : Z) (a : option (Z * Z)) : M error_code_t :=
  p <~ socket_find fd;;
  match a with
  | None => ret ERR_INVALID_ARG
  | Some (ip, port) =>
      if p =? 0 then ret ERR_INVALID_ARG
      else
        k <~ sock_at p;;
        let remote c d := {| type := type k; sock_local_ip := sock_local_ip k; sock_local_port := sock_local_port k; sock_remote_ip := ip; sock_remote_port := port;
                             bound := bound k; connected := c; data := d; next := next k |} in
        put_sock p (remote (connected k) (data k));;;
        if type k =? SOCK_STREAM then
          d <~ lift up_device;;
          match d with
          | None => ret ERR_DEVICE_NOT_FOUND
          | Some (_, dev) =>
              conn <~ tcp_create_connection (ip_address dev) (if bound k then sock_local_port k else 0) ip port;;
              if conn =? 0 then ret ERR_OUT_OF_MEMORY
              else
                put_sock p (remote (connected k) conn);;;
                update conn (with_state TCP_STATE_SYN_SENT);;;
                tcp_send_packet conn TCP_FLAG_SYN [];;;
                update conn (with_state TCP_STATE_ESTABLISHED);;;
                put_sock p (remote true conn);;;
                ret ERR_OK
          end
        else put_sock p (remote true (data k));;; ret ERR_OK
  end.

(** The descriptor, and the address stored through [addr] when it is not NULL. *)
Definition socket_accept (fd : Z) : M (Z * option (Z * Z)) :=
  p <~ socket_find fd;;
  if p =? 0 then ret (-1, None)
  else
    k <~ sock_at p;;
    if negb (type k =? SOCK_STREAM) then ret (-1, None)
    else if negb (bound k) then ret (-1, None)
    else
      conn <~ tcp_accept (sock_local_port k);;
      if conn =? 0 then ret (-1, None)
      else
        new_fd <~ socket_create AF_INET SOCK_STREAM;;
        if new_fd <? 0 then ret (-1, None)
        else
          q <~ socket_find new_fd;;
          if q =? 0 then ret (new_fd, None)
          else
            n <~ sock_at q;; c <~ conn_at conn;;
            put_sock q {| type := type n; sock_local_ip := local_ip c; sock_local_port := local_port c; sock_remote_ip := remote_ip c; sock_remote_port := remote_port c;
                          bound := true; connected := true; data := conn; next := next n |};;;
            ret (new_fd, Some (remote_ip c, remote_port c)).

Definition socket_send (fd : Z) (d : list Z) : M error_code_t :=
  p <~ socket_find fd;;
  if (p =? 0) || (Z.of_nat (length d) =? 0) then ret ERR_INVALID_ARG
  else
    k <~ sock_at p;;
    if negb (connected k) && negb (bound k) then ret ERR_INVALID_STATE
    else if type k =? SOCK_DGRAM then
      lift (udp_send send_packet mem_ok uptime during_sleep (if connected k then sock_remote_ip k else 0) (if connected k then sock_remote_port k else 0)
              (if bound k then sock_local_port k else 0) d)
    else if type k =? SOCK_STREAM then (if negb (data k =? 0) then tcp_send (data k) d else ret ERR_INVALID_STATE)
    else ret ERR_NOT_SUPPORTED.

(** [udp_receive] gives an error in every case. *)
Definition socket_recv (fd len : Z) : M (error_code_t * list Z) :=
  p <~ socket_find fd;;
  if p =? 0 then ret (ERR_INVALID_ARG, [])
  else
    k <~ sock_at p;;
    if type k =? SOCK_DGRAM then err <~ lift udp_receive;; ret (err, [])
    else if type k =? SOCK_STREAM then (if negb (data k =? 0) then tcp_receive (data k) len else ret (ERR_INVALID_STATE, []))
    else ret (ERR_NOT_SUPPORTED, []).

(** The socket whose successor is [sock], from [p] on; 0 if there is none. *)
Fixpoint find_prev (fuel : nat) (p sock : Z) : M Z :=
  match fuel with
  | O => stop NoFuel
  | S fuel => if p =? 0 then ret 0 else k <~ sock_at p;; if next k =? sock then ret p else find_prev fuel (next k) sock
  end.

Definition with_next (n : Z) (k : socket_t) : socket_t :=
  {| type := type k; sock_local_ip := sock_local_ip k; sock_local_port := sock_local_port k; sock_remote_ip := sock_remote_ip k; sock_remote_port := sock_remote_port k;
     bound := bound k; connected := connected k; data := data k; next := n |}.

Definition socket_close (fd : Z) : M error_code_t :=
  p <~ socket_find fd;;
  if p =? 0 then ret ERR_INVALID_ARG
  else
    head <~ get sockets;;
    k <~ sock_at p;;
    (if head =? p then modify (fun s => set_socks s (socks s) (next k) (next_fd s) (socket_initialized s))
     else
       fuel <~ get (fun s => S (size (socks s)));;
       prev <~ find_prev fuel head p;;
       if negb (prev =? 0) then pk <~ sock_at prev;; put_sock prev (with_next (next k) pk) else ret tt);;;
    (if (type k =? SOCK_STREAM) && negb (data k =? 0) then tcp_close (data k);;; ret tt else ret tt);;;
    modify (fun s => set_socks s (delete p (socks s)) (sockets s) (next_fd s) (socket_initialized s));;;
    ret ERR_OK.

Definition SOL_SOCKET : Z := 1.
Definition SO_REUSEADDR : Z := 2.
Definition SO_KEEPALIVE : Z := 9.

Definition socket_setsockopt (fd level optname optlen : Z) : M error_code_t :=
  p <~ socket_find fd;;
  if p =? 0 then ret ERR_INVALID_ARG
  else if negb (level =? SOL_SOCKET) then ret ERR_NOT_SUPPORTED
  else if (optname =? SO_REUSEADDR) || (optname =? SO_KEEPALIVE) then (if negb (optlen =? 4) then ret ERR_INVALID_ARG else ret ERR_OK)
  else ret ERR_NOT_SUPPORTED.

(** The value and length stored for the caller. *)
Definition socket_getsockopt (fd level optname optlen : Z) : M (error_code_t * option (Z * Z)) :=
  p <~ socket_find fd;;
  if p =? 0 then ret (ERR_INVALID_ARG, None)
  else if negb (level =? SOL_SOCKET) then ret (ERR_NOT_SUPPORTED, None)
  else if (optname =? SO_REUSEADDR) || (optname =? SO_KEEPALIVE) then (if optlen <? 4 then ret (ERR_INVALID_ARG, None) else ret (ERR_OK, Some (0, 4)))
  else ret (ERR_NOT_SUPPORTED, None).

(** ** What TCP needs of the network

    Sending a datagram returns and leaves the device as it is. *)
Class Network (d : Z) (dev : net_device_t) : Prop :=
  net_sends : forall n dest protocol d', host n d dev -> fits 8 protocol -> bytes d' ->
    exists e n', ip_send send_packet mem_ok uptime during_sleep dest protocol d' n = Ret e n' /\ host n' d dev.

(** [Net] provides it when time passes. *)
Lemma network_timely ms d dev : timely uptime during_sleep ms d dev -> Network d dev.
Proof. intros Ht n dest protocol d' Hh Hp Hb. by apply (ip_send_total send_packet mem_ok uptime during_sleep ms). Qed.

(** ** Running *)

Lemma lift_run {A} (m : Effect.M net A) s a n : m (netw s) = Ret a n -> lift m s = Ret a (set_net s n).
Proof. unfold lift. by intros ->. Qed.

Lemma lift_pure {A} (m : Effect.M net A) s a : m (netw s) = Ret a (netw s) -> lift m s = Ret a s.
Proof. intros E. rewrite (lift_run _ _ _ _ E). by destruct s. Qed.

Lemma tcp_packet_bytes sp dp sq ack flags w c d : fits 8 flags -> bytes d -> bytes (tcp_packet sp dp sq ack flags w c d).
Proof. intros. unfold tcp_packet. repeat apply Forall_app_2; try apply le_bytes_ok; try done. apply bytes_pair; [apply u8_fits|done]. Qed.

Lemma tcp_packet_length sp dp sq ack flags w c d : length (tcp_packet sp dp sq ack flags w c d) = (20 + length d)%nat.
Proof. unfold tcp_packet. rewrite !length_app, !le_bytes_length. done. Qed.

Definition tcp_sum (b : list Z) (src dest : Z) : Z := words_sum (pseudo_header src dest (Z.of_nat (length b))) + words_sum b.

Lemma tcp_checksum_run b src dest n : bytes b -> Z.of_nat (length b) < 2 ^ 16 ->
  tcp_checksum b (Z.of_nat (length b)) src dest n = Ret (bswap16 (65535 - ones_sum (tcp_sum b src dest))) n.
Proof.
  intros Hb Hl. pose proof (words_sum_bounds b Hb) as H1. set (ph := pseudo_header src dest (Z.of_nat (length b))).
  assert (Hph : bytes ph) by (unfold ph, pseudo_header; repeat apply Forall_app_2; try apply le_bytes_ok; apply bytes_pair; unfold IP_PROTOCOL_TCP; fits_lia).
  pose proof (words_sum_bounds ph Hph) as H2. change (length ph) with 12%nat in H2. unfold tcp_checksum. fold ph.
  change 6 with (Z.of_nat 6). rewrite (add_words_run 6 ph 0); [|done|done|lia|change (take (2 * 6) ph) with ph; fits_lia]. change (take (2 * 6) ph) with ph. cbn [mbind option_bind].
  rewrite <- (app_nil_r b) at 1. rewrite add_bytes_run; [|done|apply Forall_nil_2|lia|fits_lia]. apply finish_run. unfold tcp_sum. fold ph. fits_lia.
Qed.

Section connection.
  Context (d : Z) (dev : net_device_t) `{!Network d dev}.

(** Sending a segment returns, and of the connections it changes at most the sequence number of its own. *)
Lemma tcp_send_packet_total s p c flags dat : conns s !! p = Some c -> p <> 0 -> host (netw s) d dev -> fits 8 flags -> bytes dat -> 20 + Z.of_nat (length dat) < 2 ^ 16 ->
  exists e n k v, tcp_send_packet p flags dat s = Ret e (set_net (set_heap_calls (set_conns s (<[p := with_seq v c]> (conns s))) k) n) /\ host n d dev.
Proof.
  intros Hc Hp Hh Hf Hb Hl. unfold tcp_send_packet. if_lia. erewrite bind_run by reflexivity.
  assert (Hid : <[p := with_seq (seq_num c) c]> (conns s) = conns s) by (rewrite <- (insert_id (conns s) p c Hc) at 2; f_equal; by destruct c).
  destruct (Z.eqb_spec (addr (heap_calls s)) 0).
  { eexists ERR_OUT_OF_MEMORY, (netw s), _, (seq_num c). rewrite Hid. by split. }
  erewrite bind_run by (unfold conn_at; cbn [conns set_heap_calls]; by rewrite Hc). unfold TCP_HEADER_SIZE. rewrite (wrap_small 64) by fits_lia.
  match goal with |- context [tcp_checksum ?b _ _ _] => set (pk := b) end.
  replace (20 + Z.of_nat (length dat)) with (Z.of_nat (length pk)) by (unfold pk; rewrite tcp_packet_length; lia).
  erewrite bind_run; [|apply tcp_checksum_run; [by apply tcp_packet_bytes|unfold pk; rewrite tcp_packet_length; lia]].
  edestruct (net_sends (netw s) (remote_ip c) IP_PROTOCOL_TCP) as (e & n1 & E & Hn); [done|unfold IP_PROTOCOL_TCP; fits_lia| |].
  2:{ erewrite bind_run by (apply lift_run; exact E). destruct (_ || _).
      - erewrite bind_run by (unfold update; cbn [conns set_net set_heap_calls]; by rewrite Hc). eexists e, n1, _, _. by split.
      - erewrite bind_run by reflexivity. eexists e, n1, _, (seq_num c). rewrite Hid. by split. }
  by apply tcp_packet_bytes.
Qed.

(** ** A connection in the table *)

(** [p] is the first connection of the table with a property. *)
Definition first_conn (s : tcp) (pr : tcp_connection_t -> bool) (p : Z) (c : tcp_connection_t) : Prop :=
  p <> 0 /\ conns s !! p = Some c /\ pr c = true /\
  exists i, 0 <= i < Z.of_nat MAX_TCP_CONNECTIONS /\ connections s i = p /\
    forall j, 0 <= j < i -> connections s j = 0 \/ exists c', conns s !! connections s j = Some c' /\ pr c' = false.

Lemma scan_first s pr p c : first_conn s pr p c -> scan MAX_TCP_CONNECTIONS 0 pr s = Ret p s.
Proof.
  intros (Hp & Hc & Hpr & i & Hi & Ht & Hb).
  assert (H : forall n j, 0 <= j <= i -> i < j + Z.of_nat n -> scan n j pr s = Ret p s); [|apply H; lia].
  induction n as [|n IH]; intros j Hj Hn; [lia|]. cbn [scan]. erewrite bind_run by reflexivity. cbv beta. destruct (decide (j = i)) as [->|].
  - rewrite Ht. if_lia. erewrite bind_run by (unfold conn_at; by rewrite Hc). by rewrite Hpr.
  - destruct (Hb j ltac:(lia)) as [E|(c' & Hc' & Hf)]; [rewrite E; apply IH; lia|]. destruct (Z.eqb_spec (connections s j) 0); [apply IH; lia|].
    erewrite bind_run by (unfold conn_at; by rewrite Hc'). rewrite Hf. apply IH; lia.
Qed.

Lemma first_conn_update s s' pr p c c' :
  first_conn s pr p c -> connections s' = connections s -> conns s' = <[p := c']> (conns s) -> pr c' = true -> first_conn s' pr p c'.
Proof.
  intros (Hp & Hc & Hpr & i & Hi & Ht & Hb) E1 E2 Hpr'. split; [done|]. split; [rewrite E2; apply lookup_insert_eq|]. split; [done|]. exists i. rewrite E1. split; [done|]. split; [done|].
  intros j Hj. destruct (Hb j Hj) as [?|(c'' & Hc'' & Hf)]; [by left|right]. exists c''. split; [|done]. rewrite E2, lookup_insert_ne; [done|]. intros E. rewrite <- E in Hc''. congruence.
Qed.

Section stream.
  Context (lport rip rport : Z) (lport_ok : fits 16 lport) (rport_ok : fits 16 rport).

Definition is_conn (c : tcp_connection_t) : bool := (local_ip c =? ip_address dev) && (local_port c =? lport) && (remote_ip c =? rip) && (remote_port c =? rport).

(** The connection is established and [q] is what its receive buffer holds. *)
Definition streaming (s : tcp) (p : Z) (q : list Z) : Prop :=
  host (netw s) d dev /\ tcp_initialized s = true /\
  exists c l, first_conn s is_conn p c /\ state c = TCP_STATE_ESTABLISHED /\ buffers s !! receive_buffer c = Some l /\
    Z.of_nat (length l) = RECEIVE_BUFFER_SIZE /\ receive_buffer_size c = RECEIVE_BUFFER_SIZE /\
    receive_buffer_pos c = Z.of_nat (length q) /\ (length q <= length l)%nat /\ take (length q) l = q.

(** A read gives the first bytes of the stream and leaves the others. *)
Lemma tcp_receive_streaming s p q len : streaming s p q -> 0 <= len ->
  exists e s', tcp_receive p len s = Ret (e, take (Z.to_nat len) q) s' /\ streaming s' p (drop (Z.to_nat len) q).
Proof.
  intros (Hh & Hin & c & l & Hf & Hst & Hl & Hlen & Hsz & Hpos & Hql & Hq) Hn. pose proof Hf as (Hp & Hc & Hpr & _). unfold tcp_receive. if_lia. unfold RECEIVE_BUFFER_SIZE in *.
  erewrite bind_run by (unfold conn_at; by rewrite Hc). rewrite Hst, bool_decide_true by done. cbn [negb]. rewrite Hpos. destruct (Z.eqb_spec (Z.of_nat (length q)) 0) as [E|E].
  { destruct q; [|cbn in E; lia]. rewrite take_nil, drop_nil. eexists _, s. split; [done|]. split; [done|]. split; [done|]. exists c, l. split; [done|]. by repeat split. }
  set (k := if len <? Z.of_nat (length q) then len else Z.of_nat (length q)).
  assert (Hk : 0 <= k <= Z.of_nat (length q) /\ take (Z.to_nat k) q = take (Z.to_nat len) q /\ drop (Z.to_nat k) q = drop (Z.to_nat len) q).
  { unfold k. destruct (Z.ltb_spec len (Z.of_nat (length q))); [by split; [lia|]|]. split; [lia|]. rewrite Nat2Z.id. rewrite !take_ge, !drop_ge by lia. done. }
  clearbody k. destruct Hk as (Hk & <- & <-).
  assert (Hrd : forall m, 0 <= m <= Z.of_nat (length q) -> block_read (receive_buffer c) m s = Ret (take (Z.to_nat m) q) s).
  { intros m Hm. unfold block_read. rewrite Hl, (proj2 (Nat.leb_le _ _)) by lia. rewrite <- Hq, take_take. by rewrite Nat.min_l by lia. }
  erewrite bind_run by (by apply Hrd). rewrite wrap_small by fits_lia.
  assert (Hok : forall s', netw s' = netw s -> tcp_initialized s' = tcp_initialized s -> connections s' = connections s -> conns s' = <[p := with_pos (Z.of_nat (length q) - k) c]> (conns s) ->
    (exists l', buffers s' !! receive_buffer c = Some l' /\ length l' = length l /\ take (length (drop (Z.to_nat k) q)) l' = drop (Z.to_nat k) q) -> streaming s' p (drop (Z.to_nat k) q)).
  { intros s' E1 E2 E3 E4 (l' & H1 & H2 & H3). split; [by rewrite E1|]. split; [by rewrite E2|]. exists (with_pos (Z.of_nat (length q) - k) c), l'. split; [by apply (first_conn_update s s' is_conn p c)|].
    cbn [state receive_buffer receive_buffer_size receive_buffer_pos with_pos]. rewrite length_drop in *. unfold RECEIVE_BUFFER_SIZE. repeat split; try done; lia. }
  destruct (Z.ltb_spec k (Z.of_nat (length q))).
  - assert (Hfit : (Z.to_nat 0 + length (drop (Z.to_nat k) q) <= length l)%nat) by (rewrite length_drop; lia).
    erewrite bind_run.
    2:{ erewrite bind_run by (apply Hrd; lia). unfold block_write. rewrite Hl. rewrite Nat2Z.id, take_ge by lia. by rewrite (proj2 (Nat.leb_le _ _)) by exact Hfit. }
    erewrite bind_run by (unfold update; cbn [conns set_buffers]; by rewrite Hc). eexists ERR_OK, _. split; [done|]. apply Hok; try done. eexists. split; [apply lookup_insert_eq|].
    split; [by apply buf_write_length|]. change (length (drop (Z.to_nat k) q)) with (Z.to_nat 0 + length (drop (Z.to_nat k) q))%nat. rewrite buf_write_take by exact Hfit. done.
  - erewrite bind_run by reflexivity. erewrite bind_run by (unfold update; by rewrite Hc). eexists ERR_OK, _. split; [done|]. apply Hok; try done. exists l. split; [done|]. split; [done|].
    by rewrite drop_ge by lia.
Qed.

(** A segment as it is sent to the connection, with TCP options in words of four bytes. *)
Definition segment (seq ack flags w ck urg : Z) (options payload : list Z) : list Z :=
  le_bytes 2 (bswap16 rport) ++ le_bytes 2 (bswap16 lport) ++ le_bytes 4 (bswap32 seq) ++ le_bytes 4 ack ++ [16 * (5 + Z.of_nat (length options) / 4); flags] ++
  le_bytes 2 w ++ le_bytes 2 ck ++ le_bytes 2 urg ++ options ++ payload.

Lemma segment_length seq ack flags w ck urg options payload : length (segment seq ack flags w ck urg options payload) = (20 + length options + length payload)%nat.
Proof. unfold segment. rewrite !length_app, !le_bytes_length. done. Qed.

(** The header is parsed. *)
Lemma handle_header s seq ack flags w ck urg options payload junk :
  host (netw s) d dev -> tcp_initialized s = true -> let b := segment seq ack flags w ck urg options payload in
  exists sq, tcp_handle_packet (b ++ junk) (Z.of_nat (length b)) rip s =
    (conn <~ tcp_find_connection (ip_address dev) lport rip rport;;
     if (conn =? 0) && negb (Z.land flags TCP_FLAG_SYN =? 0) then handle_syn (ip_address dev) lport rip rport sq
     else if conn =? 0 then ret ERR_NOT_FOUND else handle_conn conn (b ++ junk) (Z.of_nat (length b)) flags sq) s.
Proof.
  intros Hh Hin b. assert (Hlen : (20 <= length (b ++ junk))%nat) by (unfold b; rewrite length_app, segment_length; lia).
  unfold tcp_handle_packet. erewrite bind_run by reflexivity. rewrite Hin. unfold TCP_HEADER_SIZE. unfold b at 1. rewrite segment_length. if_lia. cbn [negb orb].
  do 2 erewrite bind_run by (apply rd16_run; lia). erewrite bind_run by (apply rd32_run; lia). assert (E : b ++ junk = segment seq ack flags w ck urg options (payload ++ junk)) by (unfold b, segment; by rewrite <- !app_assoc).
  rewrite E. erewrite (bind_run (rd8 _ 13)) by (by apply rd8_run). change (Z.to_nat 0) with 0%nat. change (Z.to_nat 2) with 2%nat.
  erewrite (le_value_word _ 0 (bswap16 rport)) by (reflexivity || apply bswap16_fits). erewrite (le_value_word _ 2 (bswap16 lport)) by (reflexivity || apply bswap16_fits).
  rewrite !bswap16_involutive by done. erewrite bind_run by (apply lift_pure; by apply up_device_run). cbv beta iota zeta. eexists. reflexivity.
Qed.

(** The connection is found. *)
Lemma handle_segment s p q seq ack flags w ck urg options payload junk :
  streaming s p q -> let b := segment seq ack flags w ck urg options payload in
  exists sq, tcp_handle_packet (b ++ junk) (Z.of_nat (length b)) rip s = handle_conn p (b ++ junk) (Z.of_nat (length b)) flags sq s.
Proof.
  intros (Hh & Hin & c & l & Hf & _) b. pose proof Hf as (Hp & _). destruct (handle_header s seq ack flags w ck urg options payload junk Hh Hin) as (sq & E). exists sq. fold b in E. rewrite E.
  erewrite bind_run by (by apply (scan_first s is_conn p c)). by rewrite (proj2 (Z.eqb_neq p 0) Hp).
Qed.

Lemma handle_conn_data s p q b len flags sq : streaming s p q -> Z.land flags TCP_FLAG_FIN = 0 -> handle_conn p b len flags sq s = handle_data p b len sq s.
Proof.
  intros (_ & _ & c & l & (_ & Hc & _) & Hst & _) Hfin. unfold handle_conn. erewrite bind_run by (unfold conn_at; by rewrite Hc). rewrite Hfin. cbn [Z.eqb negb andb].
  erewrite bind_run by reflexivity. erewrite bind_run by (unfold conn_at; by rewrite Hc). rewrite Hst. by rewrite andb_false_r by done.
Qed.

(** Up to ten words of options. *)
Definition options_ok (options : list Z) : Prop := exists k : nat, length options = (4 * k)%nat /\ (k <= 10)%nat.

Lemma options_offset options : options_ok options ->
  Z.land (Z.shiftr (16 * (5 + Z.of_nat (length options) / 4)) 4) 0x0F * 4 = 20 + Z.of_nat (length options).
Proof. intros (k & -> & Hk). do 11 (destruct k as [|k]; [done|]). lia. Qed.

Lemma handle_data_streaming s p q seq ack flags w ck urg options payload junk sq :
  streaming s p q -> options_ok options -> Z.of_nat (length payload) < 2 ^ 32 -> let b := segment seq ack flags w ck urg options payload in
  exists s', handle_data p (b ++ junk) (Z.of_nat (length b)) sq s = Ret ERR_OK s' /\
    streaming s' p (if decide (Z.of_nat (length q + length payload) <= RECEIVE_BUFFER_SIZE) then q ++ payload else q).
Proof.
  intros Hs Ho Hpl b. pose proof Hs as (Hh & Hin & c & l & Hf & Hst & Hl & Hlen & Hsz & Hpos & Hql & Hq). pose proof Hf as (Hp & Hc & Hpr & _).
  assert (E : b ++ junk = segment seq ack flags w ck urg options (payload ++ junk)) by (unfold b, segment; by rewrite <- !app_assoc). unfold handle_data.
  erewrite bind_run by (rewrite E; by apply rd8_run). rewrite options_offset by done. unfold TCP_HEADER_SIZE. cbv zeta. set (o := 20 + Z.of_nat (length options)). rewrite (proj2 (Z.ltb_ge o 20)) by lia.
  assert (Hb : Z.of_nat (length b) = o + Z.of_nat (length payload)) by (unfold b; rewrite segment_length; lia). rewrite Hb.
  replace (o + Z.of_nat (length payload) - o) with (Z.of_nat (length payload)) by lia. unfold RECEIVE_BUFFER_SIZE in *. change (2 ^ 32) with 4294967296 in Hpl.
  destruct (Z.ltb_spec o (o + Z.of_nat (length payload))) as [Hgt|Hle].
  2:{ assert (payload = []) as -> by (destruct payload; [done|cbn in Hle; lia]). erewrite bind_run by reflexivity. exists s. split; [done|]. rewrite app_nil_r. by destruct (decide _). }
  rewrite (wrap_small 64 (Z.of_nat (length payload))) by fits_lia. unfold bind at 1. rewrite (bind_run _ _ _ c s) by (unfold conn_at; by rewrite Hc).
  rewrite Hpos, Hsz, wrap_small by fits_lia.
  destruct (decide (Z.of_nat (length q + length payload) <= 4096)) as [Hfit|Hno]; [rewrite (proj2 (Z.leb_le _ _)) by lia|by exists s; rewrite (proj2 (Z.leb_gt _ _)) by lia].
  assert (Hrd : rd (b ++ junk) o (Z.to_nat (Z.of_nat (length payload))) s = Ret payload s).
  { rewrite rd_run by (rewrite length_app; lia). rewrite Nat2Z.id, E. replace (Z.to_nat o) with (20 + length options)%nat by lia. rewrite <- drop_drop. change (drop 20 (segment seq ack flags w ck urg options (payload ++ junk))) with (options ++ payload ++ junk). rewrite drop_app_length. by rewrite take_app_length. }
  rewrite (bind_run _ _ _ _ _ Hrd). assert (Hw : (Z.to_nat (Z.of_nat (length q)) + length payload <= length l)%nat) by lia.
  erewrite bind_run by (unfold block_write; rewrite Hl; by rewrite (proj2 (Nat.leb_le _ _)) by exact Hw).
  erewrite bind_run by (unfold update; cbn [conns set_buffers]; by rewrite Hc). rewrite Hpos, (wrap_small 64) by fits_lia.
  match goal with |- context [bind (tcp_send_packet _ _ _) _ ?x] => set (s1 := x) end. match goal with s1 := set_conns _ (<[p := ?x]> _) |- _ => set (c1 := x) in s1 end.
  destruct (tcp_send_packet_total s1 p c1 TCP_FLAG_ACK []) as (e & n & k & v & Es & Hn); [apply lookup_insert_eq|done|done|unfold TCP_FLAG_ACK; fits_lia|apply Forall_nil_2|cbn; lia|].
  rewrite (bind_run _ _ _ _ _ Es). eexists. split; [done|]. split; [done|]. split; [done|]. exists (with_seq v c1), (buf_write l (Z.to_nat (Z.of_nat (length q))) payload).
  split; [eapply (first_conn_update s); [exact Hf|done|cbn [conns set_net set_heap_calls set_conns s1]; by rewrite insert_insert_eq|done]|].
  split; [done|]. split; [apply lookup_insert_eq|]. rewrite buf_write_length by exact Hw. rewrite Nat2Z.id in *. rewrite length_app. split; [done|]. split; [done|].
  split; [cbn; lia|]. split; [lia|]. rewrite buf_write_take by exact Hw. by rewrite Hq.
Qed.

(** *** Sequences of segments and reads *)

Inductive stream_event :=
| arrives (seq ack flags w ck urg : Z) (options payload junk : list Z)
| reads (len : Z).

Definition stream_step (p : Z) (e : stream_event) : M (list Z) :=
  match e with
  | arrives seq ack flags w ck urg options payload junk =>
      let b := segment seq ack flags w ck urg options payload in tcp_handle_packet (b ++ junk) (Z.of_nat (length b)) rip;;; ret []
  | reads len => r <~ tcp_receive p len;; ret (snd r)
  end.

(** The bytes that the reads give. *)
Fixpoint stream_run (p : Z) (l : list stream_event) : M (list Z) :=
  match l with [] => ret [] | e :: l => x <~ stream_step p e;; y <~ stream_run p l;; ret (x ++ y) end.

Definition stream_event_ok (e : stream_event) : Prop :=
  match e with arrives _ _ flags _ _ _ options payload _ => Z.land flags TCP_FLAG_FIN = 0 /\ options_ok options /\ Z.of_nat (length payload) < 2 ^ 32 | reads len => 0 <= len end.

(** A bounded queue of bytes: what enters, what leaves and what is left. *)
Definition enters (q : list Z) (e : stream_event) : list Z :=
  match e with arrives _ _ _ _ _ _ _ payload _ => if decide (Z.of_nat (length q + length payload) <= RECEIVE_BUFFER_SIZE) then payload else [] | reads _ => [] end.
Definition leaves (q : list Z) (e : stream_event) : list Z := match e with arrives _ _ _ _ _ _ _ _ _ => [] | reads len => take (Z.to_nat len) q end.
Definition queue (q : list Z) (e : stream_event) : list Z := match e with arrives _ _ _ _ _ _ _ _ _ => q ++ enters q e | reads len => drop (Z.to_nat len) q end.
Fixpoint queue_run (q : list Z) (l : list stream_event) : list Z * list Z * list Z :=
  match l with [] => ([], [], q) | e :: l => let '(i, o, q') := queue_run (queue q e) l in (enters q e ++ i, leaves q e ++ o, q') end.

Lemma queue_fifo l : forall q, let '(i, o, q') := queue_run q l in q ++ i = o ++ q'.
Proof.
  induction l as [|e l IH]; intros q; cbn [queue_run]; [by rewrite app_nil_r|]. specialize (IH (queue q e)). destruct (queue_run (queue q e) l) as [[i o] q'].
  rewrite <- app_assoc, <- IH. destruct e; cbn [queue leaves enters app]; [by rewrite app_assoc|by rewrite app_assoc, take_drop].
Qed.

Lemma stream_step_refines s p q e : streaming s p q -> stream_event_ok e ->
  exists s', stream_step p e s = Ret (leaves q e) s' /\ streaming s' p (queue q e).
Proof.
  intros Hs He. destruct e as [seq ack flags w ck urg options payload junk|len]; cbn [stream_step leaves queue enters stream_event_ok] in *.
  - destruct He as (Hf & Ho & Hl). destruct (handle_segment s p q seq ack flags w ck urg options payload junk Hs) as (sq & E). rewrite (handle_conn_data s p q) in E by done.
    destruct (handle_data_streaming s p q seq ack flags w ck urg options payload junk sq Hs Ho Hl) as (s' & E' & Hs'). exists s'. rewrite E' in E. rewrite (bind_run _ _ _ _ _ E). split; [done|].
    destruct (decide _); [done|]. by rewrite app_nil_r.
  - destruct (tcp_receive_streaming s p q len Hs He) as (err & s' & E & Hs'). exists s'. by rewrite (bind_run _ _ _ _ _ E).
Qed.

(** C24. The byte stream.  The connection is established, with its receive buffer
    allocated, and found first in the table; sending a datagram returns ([Network]).  For
    every sequence of reads and of arriving segments that do not carry the FIN flag, with up
    to ten words of options and whatever the other fields of their headers, the receive
    buffer behaves as a queue of at most 4096 bytes: every call returns, a segment that does
    not fit is dropped as a whole, and the bytes read followed by those still in the buffer
    are those that entered, in the order in which they arrived.  The sequence numbers are
    not looked at, so that order is the one of arrival; a FIN ends the stream
    ([accept_after_fin_faults]). *)
Theorem tcp_stream_fifo s p q l : streaming s p q -> Forall stream_event_ok l ->
  let '(i, o, q') := queue_run q l in
  exists s', stream_run p l s = Ret o s' /\ streaming s' p q' /\ q ++ i = o ++ q' /\ Z.of_nat (length q') <= RECEIVE_BUFFER_SIZE.
Proof.
  intros Hs Hl. pose proof (queue_fifo l q) as Hq. assert (H : let '(i, o, q') := queue_run q l in exists s', stream_run p l s = Ret o s' /\ streaming s' p q').
  { clear Hq. revert s q Hs. induction Hl as [|e l He _ IH]; intros s q Hs; [by exists s|]. cbn [queue_run stream_run].
    destruct (stream_step_refines s p q e Hs He) as (s1 & E & Hs1). specialize (IH s1 (queue q e) Hs1). destruct (queue_run (queue q e) l) as [[i o] q']. destruct IH as (s2 & E2 & Hs2).
    exists s2. rewrite (bind_run _ _ _ _ _ E). by rewrite (bind_run _ _ _ _ _ E2). }
  destruct (queue_run q l) as [[i o] q']. destruct H as (s' & E & Hs'). exists s'. split; [done|]. split; [done|]. split; [done|].
  destruct Hs' as (_ & _ & c & b & _ & _ & _ & Hb & _ & _ & Hle & _). lia.
Qed.

(** *** Closing *)

Definition is_listener (c : tcp_connection_t) : bool := bool_decide (state c = TCP_STATE_LISTEN) && (local_port c =? lport).

(** The table without one of its connections. *)
Lemma first_conn_remove s s' pr L cl p i0 :
  first_conn s pr L cl -> L <> p -> (forall j, 0 <= j < Z.of_nat MAX_TCP_CONNECTIONS -> connections s j = p -> j = i0) ->
  connections s' = (connections s).[i0 <- 0] -> connections s i0 = p -> (forall x, x <> p -> conns s' !! x = conns s !! x) -> first_conn s' pr L cl.
Proof.
  intros (HL & Hc & Hpr & i & Hi & Ht & Hb) Hne Hun E1 Hi0 E2. split; [done|]. split; [by rewrite E2|]. split; [done|]. exists i. rewrite E1. split; [done|].
  split; [rewrite aset_ne; [done|congruence]|]. intros j Hj. destruct (decide (j = i0)) as [->|]; [left; apply aset_eq|]. rewrite aset_ne by done.
  destruct (Hb j Hj) as [?|(c' & Hc' & Hf)]; [by left|right]. exists c'. split; [|done]. rewrite E2; [done|]. intros Ep. by apply n, Hun; [lia|].
Qed.

(** The connection [p] waits to be accepted: it is established, once in the table, and at
    the head of the queue of the listener [L]. *)
Definition waiting (s : tcp) (p L : Z) : Prop :=
  exists q cl, streaming s p q /\ first_conn s is_listener L cl /\ pending_head cl = p /\ (exists i0, 0 <= i0 < Z.of_nat MAX_TCP_CONNECTIONS /\ connections s i0 = p /\
    forall j, 0 <= j < Z.of_nat MAX_TCP_CONNECTIONS -> connections s j = p -> j = i0).

(** Closing a connection that is not established frees it and clears its entry. *)
Lemma tcp_close_run s p c l i0 : conns s !! p = Some c -> p <> 0 -> state c <> TCP_STATE_ESTABLISHED -> receive_buffer c <> 0 -> buffers s !! receive_buffer c = Some l ->
  0 <= i0 < Z.of_nat MAX_TCP_CONNECTIONS -> connections s i0 = p -> (forall j, 0 <= j < Z.of_nat MAX_TCP_CONNECTIONS -> connections s j = p -> j = i0) ->
  tcp_close p s = Ret ERR_OK (set_conns (set_buffers (set_tcp s ((connections s).[i0 <- 0]) (next_seq_num s) (tcp_initialized s)) (delete (receive_buffer c) (buffers s))) (delete p (conns s))).
Proof.
  intros Hc Hp Hst Hrb Hl Hi0 Ht Hun. unfold tcp_close. if_lia. erewrite bind_run by (unfold conn_at; by rewrite Hc). rewrite bool_decide_false by done. erewrite bind_run by reflexivity.
  erewrite bind_run by reflexivity. cbv beta. assert (E : find_first (fun i => connections s i =? p) 0 MAX_TCP_CONNECTIONS = Some i0).
  { apply find_first_Some. split; [lia|]. split; [by apply Z.eqb_eq|]. intros j Hj. apply Z.eqb_neq. intros Ej. specialize (Hun j ltac:(lia) Ej). lia. }
  rewrite E. erewrite bind_run by reflexivity. erewrite bind_run by (unfold conn_at; cbn [conns set_tcp]; by rewrite Hc). rewrite (proj2 (Z.eqb_neq _ _) Hrb). cbn [negb].
  erewrite bind_run by (unfold kfree_bytes; cbn [buffers set_tcp]; by rewrite Hl). by erewrite bind_run by (unfold kfree_conn; cbn [conns set_buffers set_tcp]; by rewrite Hc).
Qed.

(** Updates of the state that overwrite each other. *)
Lemma set_conns_twice s m m' : set_conns (set_conns s m) m' = set_conns s m'.
Proof. done. Qed.

Lemma set_conns_sent s m k n m' : set_conns (set_net (set_heap_calls (set_conns s m) k) n) m' = set_net (set_heap_calls (set_conns s m') k) n.
Proof. done. Qed.

Lemma sent_twice s m k n m' k' n' :
  set_net (set_heap_calls (set_conns (set_net (set_heap_calls (set_conns s m) k) n) m') k') n' = set_net (set_heap_calls (set_conns s m') k') n'.
Proof. done. Qed.

(** The answer to a FIN. *)
Lemma fin_answered s p c sq : conns s !! p = Some c -> p <> 0 -> host (netw s) d dev ->
  exists n k v, (update p (fun c => with_ack (u32 (sq + 1)) (with_state TCP_STATE_CLOSE_WAIT c));;; tcp_send_packet p TCP_FLAG_ACK [];;;
    tcp_send_packet p (Z.lor TCP_FLAG_FIN TCP_FLAG_ACK) [];;; update p (with_state TCP_STATE_LAST_ACK)) s =
  Ret tt (set_net (set_heap_calls (set_conns s (<[p := with_state TCP_STATE_LAST_ACK (with_seq v (with_ack (u32 (sq + 1)) c))]> (conns s))) k) n).
Proof.
  intros Hc Hp Hh. erewrite bind_run by (unfold update; by rewrite Hc). match goal with |- context [bind (tcp_send_packet _ _ _) _ ?x] => set (s1 := x) end.
  edestruct tcp_send_packet_total with (s := s1) (p := p) (flags := TCP_FLAG_ACK) (dat := @nil Z) as (e & n & k & v & E & Hn); [apply lookup_insert_eq|done|done|unfold TCP_FLAG_ACK; fits_lia|apply Forall_nil_2|cbn; lia|].
  rewrite (bind_run _ _ _ _ _ E). clear E. match goal with |- context [bind (tcp_send_packet _ _ _) _ ?x] => set (s2 := x) end.
  edestruct tcp_send_packet_total with (s := s2) (p := p) (flags := Z.lor TCP_FLAG_FIN TCP_FLAG_ACK) (dat := @nil Z) as (e' & n' & k' & v' & E & Hn'); [apply lookup_insert_eq|done|done|by vm_compute|apply Forall_nil_2|cbn; lia|].
  rewrite (bind_run _ _ _ _ _ E). clear E. unfold update. cbn [conns set_net set_heap_calls set_conns]. rewrite lookup_insert_eq. exists n', k', v'. f_equal.
  rewrite set_conns_sent. unfold s2. cbn [conns set_net set_heap_calls set_conns]. rewrite sent_twice. unfold s1. cbn [conns set_conns]. by rewrite set_conns_twice, !insert_insert_eq.
Qed.

(** Accepting follows the head of the listener's queue. *)
Lemma accept_dangling s L cl p : first_conn s is_listener L cl -> pending_head cl = p -> conns s !! p = None -> p <> 0 -> tcp_accept lport s = Fault.
Proof.
  intros HL Hhead Hnone Hp. pose proof HL as (HL0 & Hcl & _). unfold tcp_accept. erewrite bind_run by (by apply (scan_first s is_listener L cl)). if_lia.
  erewrite bind_run by (unfold conn_at; by rewrite Hcl). rewrite Hhead, (proj2 (Z.eqb_neq p 0) Hp). cbn [negb]. unfold bind at 1, conn_at. by rewrite Hnone.
Qed.

(** A connection that is closed before it is accepted.  The client's FIN frees the
    connection, which stays in the queue of the listener, and the next [tcp_accept]
    follows the pointer to it. *)
Theorem accept_after_fin_faults s p L seq ack w ck urg junk : waiting s p L -> L <> p -> (forall c, conns s !! p = Some c -> receive_buffer c <> 0) ->
  let b := segment seq ack (Z.lor TCP_FLAG_FIN TCP_FLAG_ACK) w ck urg [] [] in
  exists s', tcp_handle_packet (b ++ junk) (Z.of_nat (length b)) rip s = Ret ERR_OK s' /\ conns s' !! p = None /\ tcp_accept lport s' = Fault.
Proof.
  intros (q & cl & Hs & HL & Hhead & i0 & Hi0 & Ht0 & Hun) HLp Hrb b. destruct (handle_segment s p q seq ack (Z.lor TCP_FLAG_FIN TCP_FLAG_ACK) w ck urg [] [] junk Hs) as (sq & E).
  fold b in E. rewrite E. clear E. destruct Hs as (Hh & Hin & c & l & Hf & Hst & Hl & _). pose proof Hf as (Hp & Hc & _). specialize (Hrb c Hc).
  unfold handle_conn. erewrite bind_run by (unfold conn_at; by rewrite Hc). rewrite bool_decide_true by done. change (negb (Z.land (Z.lor TCP_FLAG_FIN TCP_FLAG_ACK) TCP_FLAG_FIN =? 0) && true) with true.
  cbv iota. destruct (fin_answered s p c sq Hc Hp Hh) as (n & k & v & E). rewrite (bind_run _ _ _ _ _ E). set (c1 := with_state TCP_STATE_LAST_ACK _) in *.
  erewrite bind_run by (unfold conn_at; cbn [conns set_net set_heap_calls set_conns]; by rewrite lookup_insert_eq).
  change (negb (Z.land (Z.lor TCP_FLAG_FIN TCP_FLAG_ACK) TCP_FLAG_ACK =? 0) && bool_decide (state c1 = TCP_STATE_LAST_ACK)) with true. cbv iota.
  erewrite bind_run; [|apply (tcp_close_run _ p c1 l i0); try done; apply lookup_insert_eq]. eexists. split; [done|]. split; [apply lookup_delete_eq|].
  eapply accept_dangling; [|exact Hhead|apply lookup_delete_eq|done].
  eapply (first_conn_remove s); [exact HL|done|exact Hun|done|done|]. intros x Hx. cbn [conns set_conns set_buffers set_tcp set_net set_heap_calls]. by rewrite lookup_delete_ne, lookup_insert_ne by done.
Qed.

End stream.

(** ** Frames *)

(** The segment that [tcp_send_packet] sends for a connection. *)
Definition sent_segment (c : tcp_connection_t) (flags : Z) (dat : list Z) : list Z :=
  let packet ck := tcp_packet (local_port c) (remote_port c) (bswap32 (seq_num c)) (bswap32 (ack_num c)) flags (bswap16 (u16 (window_size c))) ck dat in
  packet (bswap16 (65535 - ones_sum (tcp_sum (packet 0) (local_ip c) (remote_ip c)))).

Lemma tcp_send_packet_frame s p c flags dat mac :
  (forall n, mem_ok n = true) -> conns s !! p = Some c -> p <> 0 -> addr (heap_calls s) <> 0 -> host (netw s) d dev -> fits 8 flags -> bytes dat ->
  IP_HEADER_SIZE + (20 + Z.of_nat (length dat)) < 2 ^ 16 -> remote_ip c <> 0xFFFFFFFF ->
  Z.land (ip_address dev) (netmask dev) = Z.land (remote_ip c) (netmask dev) -> cached uptime (netw s) (remote_ip c) mac ->
  exists e n k v, tcp_send_packet p flags dat s = Ret e (set_net (set_heap_calls (set_conns s (<[p := with_seq v c]> (conns s))) k) n) /\
    sent n = sent (netw s) ++ [(d, framed mac (mac_address dev) ETH_TYPE_IPV4 (ip_datagram IP_PROTOCOL_TCP (ip_address dev) (remote_ip c) (sent_segment c flags dat)))].
Proof.
  intros Hm Hc Hp Ha Hh Hf Hb Hl Hip Hnet Hca. unfold IP_HEADER_SIZE in Hl. unfold tcp_send_packet. if_lia. erewrite bind_run by reflexivity. if_lia.
  assert (Hid : <[p := with_seq (seq_num c) c]> (conns s) = conns s) by (rewrite <- (insert_id (conns s) p c Hc) at 2; f_equal; by destruct c).
  erewrite bind_run by (unfold conn_at; cbn [conns set_heap_calls]; by rewrite Hc). unfold TCP_HEADER_SIZE. rewrite (wrap_small 64) by fits_lia.
  match goal with |- context [tcp_checksum ?b _ _ _] => set (pk := b) end.
  replace (20 + Z.of_nat (length dat)) with (Z.of_nat (length pk)) by (unfold pk; rewrite tcp_packet_length; lia).
  erewrite bind_run; [|apply tcp_checksum_run; [by apply tcp_packet_bytes|unfold pk; rewrite tcp_packet_length; lia]]. fold (sent_segment c flags dat).
  erewrite bind_run by (apply lift_run; apply (ip_send_run send_packet mem_ok uptime during_sleep Hm (netw s) d dev (remote_ip c) IP_PROTOCOL_TCP (sent_segment c flags dat) mac);
    [done|unfold IP_PROTOCOL_TCP; fits_lia|by apply tcp_packet_bytes|done|unfold sent_segment; rewrite tcp_packet_length; unfold IP_HEADER_SIZE; fits_lia|done|done|done]).
  destruct (_ || _).
  - erewrite bind_run by (unfold update; cbn [conns set_net set_heap_calls]; by rewrite Hc). eexists _, _, _, _. by split.
  - erewrite bind_run by reflexivity. eexists _, _, _, (seq_num c). rewrite Hid. by split.
Qed.

(** The ports a peer reads in a segment. *)
Lemma sent_segment_ports c flags dat : fits 16 (local_port c) -> fits 16 (remote_port c) ->
  word_at (sent_segment c flags dat) 0 = bswap16 (local_port c) /\ word_at (sent_segment c flags dat) 2 = bswap16 (remote_port c).
Proof.
  intros Hl Hr. split.
  - rewrite (word_at_eq _ 0 (u8 (local_port c)) (u8 (Z.shiftr (local_port c) 8))) by reflexivity. by apply stored_word.
  - rewrite (word_at_eq _ 2 (u8 (remote_port c)) (u8 (Z.shiftr (remote_port c) 8))) by reflexivity. by apply stored_word.
Qed.

Definition new_connection (lip lport rip rport seq buf : Z) : tcp_connection_t :=
  {| local_ip := lip; remote_ip := rip; local_port := lport; remote_port := rport; state := TCP_STATE_CLOSED; seq_num := seq; ack_num := 0; window_size := 4096; receive_buffer := buf;
     receive_buffer_size := RECEIVE_BUFFER_SIZE; receive_buffer_pos := 0; next_pending := 0; pending_head := 0; pending_tail := 0 |}.

Lemma tcp_create_connection_run s lip lport rip rport : tcp_initialized s = true -> tcp_find_connection lip lport rip rport s = Ret 0 s -> (forall n, addr n <> 0) ->
  exists s' buf, tcp_create_connection lip lport rip rport s = Ret (addr (heap_calls s)) s' /\ netw s' = netw s /\
    conns s' = <[addr (heap_calls s) := new_connection lip lport rip rport (next_seq_num s) buf]> (conns s).
Proof.
  intros Hin Hfind Ha. unfold tcp_create_connection. erewrite bind_run by reflexivity. rewrite Hin. erewrite bind_run by reflexivity. rewrite (bind_run _ _ _ _ _ Hfind). cbn [Z.eqb negb].
  erewrite bind_run by reflexivity. rewrite (proj2 (Z.eqb_neq _ 0) (Ha _)). do 2 erewrite bind_run by reflexivity.
  erewrite bind_run by (unfold kmalloc_bytes; by rewrite (proj2 (Z.eqb_neq _ 0) (Ha _))). do 2 erewrite bind_run by reflexivity.
  destruct (find_first _ _ _); (erewrite bind_run by reflexivity); eexists _, _; (split; [reflexivity|]); by split.
Qed.

(** A connection that waits for its queue. *)
Lemma add_pending_empty s L cl a c : conns s !! L = Some cl -> pending_tail cl = 0 -> conns s !! a = Some c -> L <> a ->
  exists s' cl' c', add_pending L a s = Ret tt s' /\ netw s' = netw s /\ conns s' !! L = Some cl' /\ pending_head cl' = a /\ conns s' !! a = Some c' /\ state c' = state c.
Proof.
  intros Hcl Htail Hc Hne. unfold add_pending. erewrite bind_run by (unfold conn_at; by rewrite Hcl). rewrite Htail. cbn [Z.eqb negb].
  erewrite bind_run by (unfold update; by rewrite Hcl). eexists _, _, _. split; [unfold update; cbn [conns set_conns]; by rewrite lookup_insert_ne, Hc by done|].
  split; [done|]. cbn [conns set_conns]. split; [by rewrite lookup_insert_ne, lookup_insert_eq by done|]. split; [done|]. split; [apply lookup_insert_eq|done].
Qed.

Lemma syn_ack_sent s a c L cl mac sq :
  conns s !! a = Some c -> a <> 0 -> conns s !! L = Some cl -> L <> a -> pending_tail cl = 0 -> (forall n, mem_ok n = true) -> (forall n, addr n <> 0) -> host (netw s) d dev ->
  remote_ip c <> 0xFFFFFFFF -> Z.land (ip_address dev) (netmask dev) = Z.land (remote_ip c) (netmask dev) -> cached uptime (netw s) (remote_ip c) mac ->
  fits 16 (local_port c) -> fits 16 (remote_port c) ->
  exists s' seg, (update a (fun c => with_ack (u32 (sq + 1)) (with_state TCP_STATE_SYN_RECEIVED c));;; tcp_send_packet a (Z.lor TCP_FLAG_SYN TCP_FLAG_ACK) [];;;
    update a (with_state TCP_STATE_ESTABLISHED);;; add_pending L a) s = Ret tt s' /\
    sent (netw s') = sent (netw s) ++ [(d, framed mac (mac_address dev) ETH_TYPE_IPV4 (ip_datagram IP_PROTOCOL_TCP (ip_address dev) (remote_ip c) seg))] /\
    word_at seg 0 = bswap16 (local_port c) /\ word_at seg 2 = bswap16 (remote_port c) /\
    exists cl' c', conns s' !! L = Some cl' /\ pending_head cl' = a /\ conns s' !! a = Some c' /\ state c' = TCP_STATE_ESTABLISHED.
Proof.
  intros Hc Ha Hcl HLa Htail Hm Haddr Hh Hip Hnet Hca Hlp Hrp. erewrite bind_run by (unfold update; by rewrite Hc). match goal with |- context [bind (tcp_send_packet _ _ _) _ ?x] => set (s1 := x) end.
  edestruct tcp_send_packet_frame with (s := s1) (p := a) (flags := Z.lor TCP_FLAG_SYN TCP_FLAG_ACK) (dat := @nil Z) (mac := mac) as (e & n & k & v & E & Hsent);
    [done|apply lookup_insert_eq|done|done|done|by vm_compute|apply Forall_nil_2|by vm_compute|done|done|done|].
  rewrite (bind_run _ _ _ _ _ E). clear E. erewrite bind_run by (unfold update; cbn [conns set_net set_heap_calls set_conns]; by rewrite lookup_insert_eq).
  match goal with |- context [add_pending L a ?x] => set (s2 := x) end.
  assert (H2 : conns s2 !! L = Some cl) by (unfold s2, s1; cbn [conns set_net set_heap_calls set_conns]; by rewrite !lookup_insert_ne by done).
  edestruct (add_pending_empty s2 L cl a) as (s3 & cl' & c' & E & Hn & Hcl' & Hh' & Hc' & Hst); [done|done|apply lookup_insert_eq|done|].
  exists s3. eexists. split; [done|]. split; [rewrite Hn; exact Hsent|]. edestruct sent_segment_ports as [Hp1 Hp2]; [| |split; [exact Hp1|split; [exact Hp2|]]]; [done|done|]. by exists cl', c'.
Qed.

(** The answer to a connection request.  A SYN from port [rport] to the port [lport]
    that is listened on makes one SYN-ACK go out; in it the peer reads the ports with
    their bytes exchanged: unless the two bytes of a port are equal, the answer does not
    come from the port that the peer addressed.  The connection waits to be accepted. *)
Theorem syn_ack_ports lport rip rport s L cl mac seq ack w ck urg options payload junk :
  fits 16 lport -> fits 16 rport -> (forall n, mem_ok n = true) -> (forall n, addr n <> 0) -> host (netw s) d dev -> tcp_initialized s = true ->
  tcp_find_connection (ip_address dev) lport rip rport s = Ret 0 s -> tcp_find_connection 0 lport 0 0 s = Ret L s ->
  conns s !! L = Some cl -> L <> 0 -> pending_tail cl = 0 -> conns s !! addr (heap_calls s) = None ->
  rip <> 0xFFFFFFFF -> Z.land (ip_address dev) (netmask dev) = Z.land rip (netmask dev) -> cached uptime (netw s) rip mac ->
  let b := segment lport rport seq ack TCP_FLAG_SYN w ck urg options payload in
  exists s' seg, tcp_handle_packet (b ++ junk) (Z.of_nat (length b)) rip s = Ret ERR_OK s' /\
    sent (netw s') = sent (netw s) ++ [(d, framed mac (mac_address dev) ETH_TYPE_IPV4 (ip_datagram IP_PROTOCOL_TCP (ip_address dev) rip seg))] /\
    word_at seg 0 = bswap16 lport /\ word_at seg 2 = bswap16 rport /\
    exists cl' c', conns s' !! L = Some cl' /\ pending_head cl' = addr (heap_calls s) /\ conns s' !! addr (heap_calls s) = Some c' /\ state c' = TCP_STATE_ESTABLISHED.
Proof.
  intros Hlp Hrp Hm Ha Hh Hin Hnone Hlis Hcl HL Htail Hfresh Hip Hnet Hca b. destruct (handle_header lport rip rport Hlp Hrp s seq ack TCP_FLAG_SYN w ck urg options payload junk Hh Hin) as (sq & E).
  fold b in E. rewrite E. clear E. rewrite (bind_run _ _ _ _ _ Hnone). change ((0 =? 0) && negb (Z.land TCP_FLAG_SYN TCP_FLAG_SYN =? 0)) with true. cbv iota. unfold handle_syn.
  rewrite (bind_run _ _ _ _ _ Hlis). rewrite (proj2 (Z.eqb_neq L 0) HL). erewrite bind_run by reflexivity. rewrite (proj2 (Z.eqb_neq L 0) HL). cbn [negb].
  destruct (tcp_create_connection_run s (ip_address dev) lport rip rport Hin Hnone Ha) as (s1 & buf & E & Hn1 & Hc1). rewrite (bind_run _ _ _ _ _ E). clear E.
  set (a := addr (heap_calls s)) in *. assert (Ha0 : a <> 0) by apply Ha. rewrite (proj2 (Z.eqb_neq a 0) Ha0). cbn [negb]. assert (HLa : L <> a) by congruence.
  assert (E1 : conns s1 !! a = Some (new_connection (ip_address dev) lport rip rport (next_seq_num s) buf)) by (rewrite Hc1; apply lookup_insert_eq).
  edestruct (syn_ack_sent s1 a) as (s2 & seg & E & H2); [exact E1|done| |exact HLa|exact Htail|done|done|by rewrite Hn1|done|done|by rewrite Hn1|done|done|].
  { rewrite Hc1, lookup_insert_ne by done. exact Hcl. }
  rewrite (bind_run _ _ _ _ _ E). exists s2, seg. split; [done|]. by rewrite <- Hn1.
Qed.

End connection.

(** ** Descriptors *)

Lemma socket_find_head s : sockets s <> 0 -> (forall p, ptr_diff p p = 0) -> socket_find 3 s = Ret (sockets s) s.
Proof.
  intros Hh Hd. unfold socket_find. do 2 erewrite bind_run by reflexivity. cbn [socket_find_loop]. rewrite (proj2 (Z.eqb_neq _ 0) Hh). erewrite bind_run by reflexivity. by rewrite Hd.
Qed.

Lemma socket_create_run s ty : socket_initialized s = true -> addr (heap_calls s) <> 0 ->
  socket_create AF_INET ty s =
  Ret (next_fd s) (set_socks (set_heap_calls s (S (heap_calls s)))
    (<[addr (heap_calls s) := {| type := ty; sock_local_ip := 0; sock_local_port := 0; sock_remote_ip := 0; sock_remote_port := 0;
                                 bound := false; connected := false; data := 0; next := sockets s |}]> (socks s)) (addr (heap_calls s)) (next_fd s + 1) true).
Proof.
  intros Hi Ha. unfold socket_create. erewrite bind_run by reflexivity. rewrite Hi. erewrite bind_run by reflexivity. cbn [Z.eqb Pos.eqb AF_INET negb]. erewrite bind_run by reflexivity.
  rewrite (proj2 (Z.eqb_neq _ 0) Ha). do 2 erewrite bind_run by reflexivity. erewrite bind_run by reflexivity. by cbn [socket_initialized set_heap_calls]; rewrite Hi.
Qed.

(** Descriptors.  A program creates two sockets, gets the descriptors 3 and 4, and
    binds the first: the code binds the second, and the first stays unbound. *)
Theorem socket_descriptor_misdirected s ty1 ty2 ip port p1 p2 :
  (forall p, ptr_diff p p = 0) -> socket_initialized s = false -> addr (heap_calls s) = p1 -> addr (S (heap_calls s)) = p2 -> p1 <> 0 -> p2 <> 0 -> p1 <> p2 ->
  exists s' k1 k2, (socket_init;;; fd1 <~ socket_create AF_INET ty1;; fd2 <~ socket_create AF_INET ty2;; e <~ socket_bind fd1 (Some (ip, port));; ret (fd1, fd2, e)) s = Ret (3, 4, ERR_OK) s' /\
    socks s' !! p1 = Some k1 /\ type k1 = ty1 /\ bound k1 = false /\
    socks s' !! p2 = Some k2 /\ type k2 = ty2 /\ bound k2 = true /\ sock_local_ip k2 = ip /\ sock_local_port k2 = port.
Proof.
  intros Hd Hi H1 H2 Hp1 Hp2 Hne. erewrite bind_run; [|unfold socket_init; erewrite bind_run by reflexivity; by rewrite Hi].
  erewrite bind_run by (apply socket_create_run; [done|cbn [heap_calls set_socks]; by rewrite H1]). erewrite bind_run by (apply socket_create_run; [done|cbn [heap_calls set_socks set_heap_calls]; by rewrite H2]).
  cbn [heap_calls set_socks set_heap_calls sockets next_fd socks]. rewrite H1, H2.
  erewrite bind_run.
  2:{ unfold socket_bind. erewrite bind_run by (apply socket_find_head; [done|exact Hd]). cbn [sockets set_socks]. rewrite (proj2 (Z.eqb_neq p2 0) Hp2).
      erewrite bind_run by (unfold sock_at; cbn [socks set_socks]; by rewrite lookup_insert_eq). by erewrite bind_run by reflexivity. }
  eexists _, _, _. split; [reflexivity|]. cbn [socks set_socks]. rewrite lookup_insert_eq, !lookup_insert_ne, lookup_insert_eq by done. by repeat split.
Qed.

End sockets.

(** ** Instances *)

Definition example_addr (n : nat) : Z := 10000 + 64 * Z.of_nat n.
Definition example_garbage (_ _ : nat) : Z := 0.

Instance example_network : Network no_error always ticking nothing 1 (example_device 7).
Proof. apply (network_timely _ _ _ _ (fun _ z => 10 * Z.of_nat z)), example_timely. Qed.

(** Host 7 with an established connection of host 9 at 1000 and a listener at 3000. *)
Definition example_conn : tcp_connection_t :=
  {| local_ip := ip_address (example_device 7); remote_ip := ip_address (example_device 9); local_port := 80; remote_port := 5000; state := TCP_STATE_ESTABLISHED;
     seq_num := 1; ack_num := 0; window_size := 4096; receive_buffer := 2000; receive_buffer_size := 4096; receive_buffer_pos := 0; next_pending := 0; pending_head := 0; pending_tail := 0 |}.
Definition example_listener (head : Z) : tcp_connection_t :=
  {| local_ip := 0; remote_ip := 0; local_port := 80; remote_port := 0; state := TCP_STATE_LISTEN; seq_num := 2; ack_num := 0; window_size := 4096; receive_buffer := 4000;
     receive_buffer_size := 4096; receive_buffer_pos := 0; next_pending := 0; pending_head := head; pending_tail := head |}.
Definition example_tcp : tcp :=
  {| netw := example_host 7 9; conns := {[1000 := example_conn; 3000 := example_listener 1000]}; buffers := {[2000 := repeat 0 4096; 4000 := repeat 0 4096]};
     connections := fun i => if i =? 0 then 1000 else if i =? 1 then 3000 else 0; next_seq_num := 3; tcp_initialized := true;
     socks := ∅; sockets := 0; next_fd := 0; socket_initialized := false; heap_calls := 0 |}.

Lemma example_streaming : streaming 1 (example_device 7) 80 (ip_address (example_device 9)) 5000 example_tcp 1000 [].
Proof.
  split; [apply example_host_ok; fits_lia|]. split; [done|]. exists example_conn, (repeat 0 4096). split.
  - split; [lia|]. split; [by vm_compute|]. split; [by vm_compute|]. exists 0. split; [unfold MAX_TCP_CONNECTIONS; lia|]. split; [done|]. intros; lia.
  - split; [done|]. split; [by vm_compute|]. split; [by rewrite repeat_length|]. split; [done|]. split; [done|]. split; [cbn [length]; lia|done].
Qed.

Lemma tcp_stream_fifo_witness :
  exists s', stream_run no_error always ticking nothing example_addr example_garbage 80 (ip_address (example_device 9)) 5000 1000
    [arrives 7 1 0x18 4096 0 0 [] [104; 105] [0]; reads 1; arrives 9 1 0x18 4096 0 0 [1; 1; 1; 0] [33] []; reads 10] example_tcp = Ret [104; 105; 33] s'.
Proof.
  pose proof (tcp_stream_fifo no_error always ticking nothing example_addr example_garbage 1 (example_device 7) 80 (ip_address (example_device 9)) 5000 ltac:(fits_lia) ltac:(fits_lia) example_tcp 1000 []
    [arrives 7 1 0x18 4096 0 0 [] [104; 105] [0]; reads 1; arrives 9 1 0x18 4096 0 0 [1; 1; 1; 0] [33] []; reads 10] example_streaming) as H.
  destruct H as (s' & E & _); [|by exists s'].
  repeat (apply Forall_cons_2; [cbn [stream_event_ok]; first [lia|split; [done|]; split; [|cbn; lia]; first [exists 0%nat; split; [done|lia]|exists 1%nat; split; [done|lia]]]|]). apply Forall_nil_2.
Defined.

Lemma accept_after_fin_faults_witness :
  exists s', tcp_handle_packet no_error always ticking nothing example_addr example_garbage (segment 80 5000 7 1 (Z.lor TCP_FLAG_FIN TCP_FLAG_ACK) 4096 0 0 [] [] ++ []) 20
    (ip_address (example_device 9)) example_tcp = Ret ERR_OK s' /\ tcp_accept 80 s' = Fault.
Proof.
  destruct (accept_after_fin_faults no_error always ticking nothing example_addr example_garbage 1 (example_device 7) 80 (ip_address (example_device 9)) 5000 ltac:(fits_lia) ltac:(fits_lia)
    example_tcp 1000 3000 7 1 4096 0 0 []) as (s' & E & _ & F); [| | |exists s'; split; [exact E|exact F]].
  - exists [], (example_listener 1000). split; [apply example_streaming|]. split.
    + split; [lia|]. split; [by vm_compute|]. split; [by vm_compute|]. exists 1. split; [unfold MAX_TCP_CONNECTIONS; lia|]. split; [done|].
      intros j Hj. assert (j = 0) as -> by lia. right. exists example_conn. split; by vm_compute.
    + split; [done|]. exists 0. split; [unfold MAX_TCP_CONNECTIONS; lia|]. split; [done|]. intros j _. cbn [connections example_tcp]. destruct (Z.eqb_spec j 0); [done|]. destruct (j =? 1); lia.
  - lia.
  - intros c. change (conns example_tcp !! 1000) with (Some example_conn). by intros [= <-].
Defined.

(** Host 7 with a listener at 3000. *)
Definition example_server : tcp :=
  {| netw := example_host 7 9; conns := {[3000 := example_listener 0]}; buffers := {[4000 := repeat 0 4096]}; connections := fun i => if i =? 0 then 3000 else 0; next_seq_num := 3;
     tcp_initialized := true; socks := ∅; sockets := 0; next_fd := 0; socket_initialized := false; heap_calls := 0 |}.

Lemma syn_ack_ports_witness :
  exists s' seg, tcp_handle_packet no_error always ticking nothing example_addr example_garbage (segment 80 5000 7 0 TCP_FLAG_SYN 4096 0 0 [] [] ++ []) 20 (ip_address (example_device 9)) example_server =
    Ret ERR_OK s' /\ word_at seg 0 = 80 * 256 /\
    sent (netw s') = [(1, framed [2; 0; 0; 0; 0; 9] [2; 0; 0; 0; 0; 7] ETH_TYPE_IPV4 (ip_datagram IP_PROTOCOL_TCP (ip_address (example_device 7)) (ip_address (example_device 9)) seg))].
Proof.
  destruct (syn_ack_ports no_error always ticking nothing example_addr example_garbage 1 (example_device 7) 80 (ip_address (example_device 9)) 5000 example_server 3000 (example_listener 0)
    [2; 0; 0; 0; 0; 9] 7 0 4096 0 0 [] [] []) as (s' & seg & E & Hs & Hp & _); [..|exists s', seg; split; [exact E|split; [exact Hp|exact Hs]]].
  - fits_lia.
  - fits_lia.
  - done.
  - intros n. unfold example_addr. lia.
  - apply example_host_ok. fits_lia.
  - done.
  - by vm_compute.
  - by vm_compute.
  - by vm_compute.
  - lia.
  - done.
  - by vm_compute.
  - by vm_compute.
  - by vm_compute.
  - apply (example_cached 7 9).
Defined.

Lemma socket_descriptor_misdirected_witness : exists s' k2,
  (socket_init;;; fd1 <~ socket_create example_addr AF_INET SOCK_STREAM;; fd2 <~ socket_create example_addr AF_INET SOCK_DGRAM;; e <~ socket_bind Z.sub fd1 (Some (0, 80));; ret (fd1, fd2, e)) example_tcp =
  Ret (3, 4, ERR_OK) s' /\ socks s' !! 10064 = Some k2 /\ type k2 = SOCK_DGRAM /\ sock_local_port k2 = 80.
Proof.
  destruct (socket_descriptor_misdirected example_addr Z.sub example_tcp SOCK_STREAM SOCK_DGRAM 0 80 10000 10064) as (s' & k1 & k2 & E & _ & _ & _ & H1 & H2 & _ & _ & H3); try done; [intros; lia|].
  by exists s', k2.
Defined.
