(* ===== verification/Dns.v ===== *)
(** * DNS client (kernel/net/dns.c)

    A C string is the list of its characters without the terminator.  The query and the
    response are lists of bytes; sockets are those of [Tcp].  The contents of the query
    buffer behind the bytes that are sent play no part.  The messages on the console are
    left out.  Pointer arguments are not null, the name in [dns_decode_name] apart, and the
    lock around the two assignments to the state is left out. *)

From stdpp Require Import base tactics list numbers option gmap.
From Stdlib Require Import Lia.
From S2P Require Import Prelude Effect Bytes Buffer Packet Net Tcp.

#[local] Open Scope Z_scope.

Definition DNS_DEFAULT_NAMESERVER : Z := 0x08080808.
Definition DNS_PORT : Z := 53.
Definition DNS_TYPE_A : Z := 1.
Definition DNS_TYPE_AAAA : Z := 28.
Definition DNS_CLASS_IN : Z := 1.
Definition DNS_FLAG_RD : Z := 0x0100.
Definition DNS_FLAG_RCODE : Z := 0x000F.
Definition DNS_RCODE_NOERROR : Z := 0.
Definition DNS_HEADER_SIZE : Z := 12.

(** ['.'] *)
Definition dot : Z := 46.

(** ** Names *)

(** One label: its length and its characters, behind the bytes [out] already written. *)
Definition put_label (size : Z) (out label : list Z) : option (list Z) :=
  let len := Z.of_nat (length label) in
  if (63 <? len) || (size <? Z.of_nat (length out) + len + 1) then None else Some (out ++ [len] ++ label).

(** The loop over the characters; [label] are those since [start]. *)
Fixpoint encode_loop (size : Z) (out label name : list Z) : option (list Z * list Z) :=
  match name with
  | [] => Some (out, label)
  | c :: name =>
      if c =? dot then out ← put_label size out label; encode_loop size out [] name
      else encode_loop size out (label ++ [c]) name
  end.

(** The bytes written; [None] is the result 0. *)
Definition dns_encode_name (name : list Z) (buffer_size : Z) : option (list Z) :=
  if buffer_size <? 1 then None
  else
    '(out, label) ← encode_loop buffer_size [] [] name;
    out ← (if 0 <? Z.of_nat (length label) then put_label buffer_size out label else Some out);
    if buffer_size <? Z.of_nat (length out) + 1 then None else Some (out ++ [0]).

(** What decoding gives: the result 0, the position after the name and the name, or a
    write behind the end of the caller's buffer. *)
Inductive decoded := dec_zero | dec_name (next : Z) (name : list Z) | dec_overrun.

(** The terminator is stored behind the name. *)
Definition end_name (name_size buf_pos : Z) (name : list Z) : decoded :=
  if Z.of_nat (length name) <? name_size then dec_name buf_pos name else dec_overrun.

(** [name]: the characters stored so far; [None]: the fuel is used up. *)
Fixpoint decode_loop (fuel : nat) (buffer : list Z) (buffer_size name_size buf_pos : Z) (compressed : bool) (name : list Z) : option decoded :=
  match fuel with
  | O => None
  | S fuel =>
      let pos := Z.of_nat (length name) in
      if (buf_pos <? buffer_size) && (pos <? name_size - 1) then
        let len := buffer !!! Z.to_nat buf_pos in
        let buf_pos := buf_pos + 1 in
        if len =? 0 then Some (end_name name_size buf_pos name)
        else if Z.land len 0xC0 =? 0xC0 then
          if buffer_size <=? buf_pos then Some dec_zero
          else
            let pointer := Z.lor (Z.shiftl (Z.land len 0x3F) 8) (buffer !!! Z.to_nat buf_pos) in
            if negb compressed then decode_loop fuel buffer buffer_size name_size pointer true name else Some dec_zero
        else if (63 <? len) || (buffer_size <? buf_pos + len) || (name_size <? pos + len + 1) then Some dec_zero
        else
          let label := take (Z.to_nat len) (drop (Z.to_nat buf_pos) buffer) in
          decode_loop fuel buffer buffer_size name_size (buf_pos + len) compressed (name ++ (if 0 <? pos then [dot] else []) ++ label)
      else Some (end_name name_size buf_pos name)
  end.

(** [buffer] holds at least [buffer_size] bytes; a null [name] is [None]. *)
Definition dns_decode_name (fuel : nat) (buffer : list Z) (buffer_size offset : Z) (name_size : option Z) : option decoded :=
  match name_size with
  | None => Some dec_zero
  | Some name_size =>
      if (buffer_size <=? offset) || (name_size <? 1) then Some dec_zero else decode_loop fuel buffer buffer_size name_size offset false []
  end.

(** The position after a name that is skipped: the caller passes a null [name]. *)
Definition skip_name (response : list Z) (response_len offset : Z) : Z :=
  match dns_decode_name 0 response response_len offset None with Some (dec_name n _) => n | _ => 0 end.

(** ** State *)

Record dns := { tsys : tcp; nameserver_ip : Z; next_id : Z; dns_initialized : bool }.

Definition set_tsys (s : dns) (t : tcp) : dns := {| tsys := t; nameserver_ip := nameserver_ip s; next_id := next_id s; dns_initialized := dns_initialized s |}.
Definition set_dns (s : dns) (ip id : Z) (i : bool) : dns := {| tsys := tsys s; nameserver_ip := ip; next_id := id; dns_initialized := i |}.

Abbreviation M := (Effect.M dns).
#[local] Open Scope effect_scope.

Definition on_sockets {A} (m : Effect.M tcp A) : M A := fun s =>
  match m (tsys s) with Ret a t => Ret a (set_tsys s t) | Fault => Fault | Deadlock => Deadlock | Panic => Panic | NoFuel => NoFuel end.

Definition dns_init : M error_code_t :=
  init <~ get dns_initialized;;
  if (init : bool) then ret ERR_OK else modify (fun s => set_dns s DNS_DEFAULT_NAMESERVER 1 true);;; ret ERR_OK.

Definition dns_set_nameserver (ip : Z) : M error_code_t :=
  init <~ get dns_initialized;;
  (if (init : bool) then ret ERR_OK else dns_init);;;
  modify (fun s => set_dns s ip (next_id s) (dns_initialized s));;; ret ERR_OK.

(** ** Queries and answers *)

Definition dns_query (id qtype : Z) (encoded : list Z) : list Z :=
  le_bytes 2 (bswap16 id) ++ le_bytes 2 (bswap16 DNS_FLAG_RD) ++ le_bytes 2 (bswap16 1) ++ le_bytes 2 0 ++ le_bytes 2 0 ++ le_bytes 2 0 ++
  encoded ++ le_bytes 2 (bswap16 qtype) ++ le_bytes 2 (bswap16 DNS_CLASS_IN).

(** The answers from [offset] on; the data of the first one of the type and length asked for. *)
Fixpoint find_answer (n : nat) (response : list Z) (response_len offset qtype size : Z) : M (option (list Z)) :=
  match n with
  | O => ret None
  | S n =>
      if response_len <=? offset then ret None
      else
        let offset := u64 (offset + skip_name response response_len offset) in
        if response_len <? u64 (offset + 10) then ret None
        else
          ty <~ rd16 response offset;; rdl <~ rd16 response (offset + 8);;
          let rdlength := bswap16 rdl in
          let offset := u64 (offset + 10) in
          if (bswap16 ty =? qtype) && (rdlength =? size) && (u64 (offset + size) <=? response_len) then d <~ rd response offset (Z.to_nat size);; ret (Some d)
          else find_answer n response response_len (u64 (offset + rdlength)) qtype size
  end.

Definition parse_response (response : list Z) (qtype size : Z) : M (error_code_t * option (list Z)) :=
  let response_len := Z.of_nat (length response) in
  fl <~ rd16 response 2;;
  if negb (Z.land (bswap16 fl) DNS_FLAG_RCODE =? DNS_RCODE_NOERROR) then ret (ERR_NOT_FOUND, None)
  else
    an <~ rd16 response 6;;
    let ancount := bswap16 an in
    if ancount =? 0 then ret (ERR_NOT_FOUND, None)
    else
      let offset := u64 (DNS_HEADER_SIZE + skip_name response response_len DNS_HEADER_SIZE + 4) in
      r <~ find_answer (Z.to_nat ancount) response response_len offset qtype size;;
      match r with Some d => ret (ERR_OK, Some d) | None => ret (ERR_NOT_FOUND, None) end.

Section client.
  Context (send_packet : Z -> list Z -> error_code_t) (mem_ok : nat -> bool) (uptime : nat -> nat -> Z) (during_sleep : nat -> net -> net).
  Context (addr : nat -> Z) (garbage : nat -> nat -> Z) (ptr_diff : Z -> Z -> Z).

Definition close (fd : Z) : M error_code_t := on_sockets (socket_close send_packet mem_ok uptime during_sleep addr ptr_diff fd).

(** The common part: the query is sent and the response received and searched. *)
Definition exchange (fd : Z) (hostname : list Z) (qtype size : Z) : M (error_code_t * option (list Z)) :=
  query <~ on_sockets (kmalloc addr);;
  if query =? 0 then close fd;;; ret (ERR_OUT_OF_MEMORY, None)
  else
    id <~ get next_id;;
    modify (fun s => set_dns s (nameserver_ip s) (u16 (id + 1)) (dns_initialized s));;;
    match dns_encode_name hostname 256 with
    | None => close fd;;; ret (ERR_INVALID_ARG, None)
    | Some encoded =>
        ip <~ get nameserver_ip;;
        err <~ on_sockets (socket_connect send_packet mem_ok uptime during_sleep addr garbage ptr_diff fd (Some (ip, bswap16 DNS_PORT)));;
        if negb (bool_decide (err = ERR_OK)) then close fd;;; ret (err, None)
        else
          err <~ on_sockets (socket_send send_packet mem_ok uptime during_sleep addr ptr_diff fd (dns_query id qtype encoded));;
          if negb (bool_decide (err = ERR_OK)) then close fd;;; ret (err, None)
          else
            buf <~ on_sockets (kmalloc addr);;
            if buf =? 0 then close fd;;; ret (ERR_OUT_OF_MEMORY, None)
            else
              r <~ on_sockets (socket_recv ptr_diff fd 512);;
              if negb (bool_decide (fst r = ERR_OK)) || (Z.of_nat (length (snd r)) <? DNS_HEADER_SIZE) then close fd;;; ret (fst r, None)
              else a <~ parse_response (snd r) qtype size;; close fd;;; ret a
    end.

(** The error code, and the four bytes of the address. *)
Definition dns_resolve (hostname : list Z) : M (error_code_t * option (list Z)) :=
  init <~ get dns_initialized;;
  (if (init : bool) then ret ERR_OK else dns_init);;;
  fd <~ on_sockets (socket_create addr AF_INET SOCK_DGRAM);;
  if fd <? 0 then ret (ERR_OUT_OF_MEMORY, None)
  else
    err <~ on_sockets (socket_bind ptr_diff fd (Some (0, 0)));;
    if negb (bool_decide (err = ERR_OK)) then close fd;;; ret (err, None)
    else exchange fd hostname DNS_TYPE_A 4.

Definition dns_resolve_ipv6 (hostname : list Z) : M (error_code_t * option (list Z)) :=
  init <~ get dns_initialized;;
  (if (init : bool) then ret ERR_OK else dns_init);;;
  fd <~ on_sockets (socket_create addr AF_INET SOCK_DGRAM);;
  if fd <? 0 then ret (ERR_FAILED, None) else exchange fd hostname DNS_TYPE_AAAA 16.

End client.

(** ** Names as lists of labels *)

Definition label_ok (l : list Z) : Prop := (0 < length l <= 63)%nat /\ Forall (fun c => c <> dot) l.

(** [a.b.c] *)
Definition dotted (labels : list (list Z)) : list Z := match labels with [] => [] | l :: ls => l ++ concat (map (cons dot) ls) end.

(** Each label behind its length. *)
Definition wire (labels : list (list Z)) : list Z := concat (map (fun l => Z.of_nat (length l) :: l) labels).

Lemma encode_chars size out label l rest : Forall (fun c => c <> dot) l -> encode_loop size out label (l ++ rest) = encode_loop size out (label ++ l) rest.
Proof.
  intros Hl. revert label. induction Hl as [|c l Hc _ IH]; intros label; [by rewrite app_nil_r|]. cbn [app encode_loop]. rewrite (proj2 (Z.eqb_neq c dot) Hc). by rewrite IH, <- app_assoc.
Qed.

Lemma put_label_ok size out l : label_ok l -> Z.of_nat (length (out ++ Z.of_nat (length l) :: l)) <= size -> put_label size out l = Some (out ++ Z.of_nat (length l) :: l).
Proof. intros [Hl _] Hs. rewrite length_app in Hs. cbn [length] in Hs. unfold put_label. by if_lia. Qed.

Lemma encode_labels size : forall ls out label, label_ok label -> Forall label_ok ls -> Z.of_nat (length (out ++ wire (label :: ls))) <= size ->
  exists o l, encode_loop size out label (concat (map (cons dot) ls)) = Some (o, l) /\ label_ok l /\ o ++ Z.of_nat (length l) :: l = out ++ wire (label :: ls).
Proof.
  induction ls as [|l ls IH]; intros out label Hlab Hls Hs; [exists out, label; split; [done|]; split; [done|]; unfold wire; cbn; by rewrite app_nil_r|].
  apply Forall_cons_1 in Hls as [Hl Hls]. cbn [map concat app encode_loop]. rewrite Z.eqb_refl.
  assert (E : out ++ wire (label :: l :: ls) = (out ++ Z.of_nat (length label) :: label) ++ wire (l :: ls)) by (unfold wire; cbn; by rewrite <- !app_assoc).
  rewrite E in *. rewrite put_label_ok by (done || (rewrite length_app in Hs; lia)). cbn [mbind option_bind]. rewrite encode_chars by apply Hl. cbn [app]. by apply IH.
Qed.

Lemma encode_dotted ls size : ls <> [] -> Forall label_ok ls -> Z.of_nat (length (wire ls)) + 1 <= size -> dns_encode_name (dotted ls) size = Some (wire ls ++ [0]).
Proof.
  intros Hne Hls Hs. destruct ls as [|l ls]; [done|]. apply Forall_cons_1 in Hls as [Hl Hls]. unfold dns_encode_name. assert (0 < Z.of_nat (length (wire (l :: ls)))) by (unfold wire; cbn; lia). if_lia.
  cbn [dotted]. rewrite encode_chars by apply Hl. cbn [app]. destruct (encode_labels size ls [] l Hl Hls ltac:(cbn [app]; lia)) as (o & x & -> & Hx & E). cbn [mbind option_bind app] in *.
  destruct Hx as [Hx1 Hx2]. if_lia. rewrite put_label_ok by (done || (rewrite E; lia)). cbn [mbind option_bind]. rewrite E. by if_lia.
Qed.

(** The characters that decoding has stored after some labels. *)
Definition joined (name : list Z) (ls : list (list Z)) : list Z := fold_left (fun n l => n ++ (if 0 <? Z.of_nat (length n) then [dot] else []) ++ l) ls name.

Lemma joined_dotted_nonempty ls : forall name, name <> [] -> joined name ls = name ++ concat (map (cons dot) ls).
Proof.
  induction ls as [|l ls IH]; intros name Hn; [cbn; by rewrite app_nil_r|]. unfold joined. cbn [fold_left]. assert (0 < Z.of_nat (length name)) by (destruct name; [done|cbn; lia]). if_lia.
  fold (joined (name ++ [dot] ++ l) ls). rewrite IH by (by destruct name). cbn [map concat]. by rewrite <- !app_assoc.
Qed.

Lemma joined_dotted ls : Forall label_ok ls -> joined [] ls = dotted ls.
Proof.
  intros Hls. destruct ls as [|l ls]; [done|]. apply Forall_cons_1 in Hls as [[Hl _] _]. unfold joined. cbn [fold_left length app]. change (0 <? Z.of_nat 0) with false. cbn [app].
  fold (joined l ls). apply joined_dotted_nonempty. by destruct l; [cbn in Hl; lia|].
Qed.

Lemma joined_length ls : forall name, (length name <= length (joined name ls))%nat.
Proof. induction ls as [|l ls IH]; intros name; [done|]. unfold joined. cbn [fold_left]. etransitivity; [|apply IH]. rewrite !length_app. lia. Qed.

Lemma label_length_bits n : 0 <= n < 64 -> Z.land n 0xC0 = 0.
Proof.
  intros Hn. replace n with (Z.land n (Z.ones 6)) by (rewrite Z.land_ones by lia; apply Z.mod_small; change (2 ^ 6) with 64; lia).
  rewrite <- Z.land_assoc. change (Z.land (Z.ones 6) 0xC0) with 0. apply Z.land_0_r.
Qed.

Lemma drop_cons_inv {A} `{!Inhabited A} (l : list A) k x rest : drop k l = x :: rest -> (k < length l)%nat /\ l !!! k = x /\ drop (S k) l = rest.
Proof.
  intros E. assert (Hk : l !! k = Some x) by (by rewrite <- (Nat.add_0_r k), <- lookup_drop, E). split; [by apply lookup_lt_is_Some; exists x|]. split; [by apply list_lookup_total_correct|].
  rewrite <- (Nat.add_1_r k), <- drop_drop, E. done.
Qed.

(** Decoding one label. *)
Lemma decode_label buffer name_size fuel buf_pos name compressed l rest :
  label_ok l -> 0 <= buf_pos -> drop (Z.to_nat buf_pos) buffer = Z.of_nat (length l) :: l ++ rest -> Z.of_nat (length name + length l) + 1 <= name_size ->
  decode_loop (S fuel) buffer (Z.of_nat (length buffer)) name_size buf_pos compressed name =
  decode_loop fuel buffer (Z.of_nat (length buffer)) name_size (buf_pos + 1 + Z.of_nat (length l)) compressed (name ++ (if 0 <? Z.of_nat (length name) then [dot] else []) ++ l).
Proof.
  intros [Hl _] H0 Hd Hn. apply drop_cons_inv in Hd as (Hk & Hx & Hd). cbn [decode_loop]. rewrite Hx. rewrite (proj2 (Z.ltb_lt _ _)) by lia. rewrite (proj2 (Z.ltb_lt (Z.of_nat (length name)) _)) by lia. cbn [andb].
  if_lia. rewrite label_length_bits by lia. cbn [Z.eqb]. replace (Z.to_nat (buf_pos + 1)) with (S (Z.to_nat buf_pos)) by lia. rewrite Hd, Nat2Z.id, take_app_length.
  assert (Hlen : (S (Z.to_nat buf_pos) + length l <= length buffer)%nat).
  { apply (f_equal length) in Hd. rewrite length_drop, length_app in Hd. lia. }
  by if_lia.
Qed.

(** Decoding reads the labels one by one. *)
Lemma decode_labels buffer name_size : forall ls fuel buf_pos name compressed rest,
  Forall label_ok ls -> 0 <= buf_pos -> drop (Z.to_nat buf_pos) buffer = wire ls ++ rest -> Z.of_nat (length (joined name ls)) <= name_size ->
  name <> [] \/ Z.of_nat (length (joined name ls)) + 1 <= name_size \/ (2 <= length ls)%nat ->
  decode_loop (length ls + fuel) buffer (Z.of_nat (length buffer)) name_size buf_pos compressed name =
  decode_loop fuel buffer (Z.of_nat (length buffer)) name_size (buf_pos + Z.of_nat (length (wire ls))) compressed (joined name ls).
Proof.
  induction ls as [|l ls IH]; intros fuel buf_pos name compressed rest Hls H0 Hd Hn Hroom; [cbn; by rewrite Z.add_0_r|].
  apply Forall_cons_1 in Hls as [Hl Hls]. pose proof Hl as [Hl1 _]. unfold joined in Hn, Hroom |- *. cbn [fold_left] in Hn, Hroom |- *. set (name' := name ++ _ ++ l) in *. fold (joined name' ls) in Hn, Hroom |- *.
  assert (Hlen : length name' = (length name + (if (0 <? Z.of_nat (length name))%Z then 1 else 0) + length l)%nat) by (unfold name'; rewrite !length_app; destruct (0 <? _); cbn; lia).
  pose proof (joined_length ls name') as Hj.
  assert (Hw : Z.of_nat (length (wire (l :: ls))) = 1 + Z.of_nat (length l) + Z.of_nat (length (wire ls))) by (unfold wire; cbn [map concat]; rewrite length_app; cbn [length]; lia).
  assert (Hd' : drop (Z.to_nat buf_pos) buffer = Z.of_nat (length l) :: l ++ wire ls ++ rest) by (rewrite Hd; unfold wire; cbn [map concat app]; by rewrite <- app_assoc).
  cbn [length Nat.add]. rewrite (decode_label _ _ _ _ _ _ l (wire ls ++ rest) Hl H0 Hd').
  - fold name'. rewrite (IH fuel _ name' compressed rest); [rewrite Hw; f_equal; lia|done|lia| |done|left; unfold name'; intros E; apply (f_equal length) in E; rewrite !length_app in E; cbn in E; lia].
    change (Z.of_nat (length l) :: l ++ wire ls ++ rest) with ((Z.of_nat (length l) :: l) ++ wire ls ++ rest) in Hd'. replace (Z.to_nat (buf_pos + 1 + Z.of_nat (length l))) with (Z.to_nat buf_pos + S (length l))%nat by lia.
    rewrite <- drop_drop, Hd'. by apply drop_app_exact.
  - clearbody name'. destruct name as [|c name]; [|rewrite (proj2 (Z.ltb_lt 0 (Z.of_nat (length (c :: name))))) in Hlen by (cbn [length]; lia); lia]. destruct Hroom as [?|[?|Hroom]]; [done|lia|].
    destruct ls as [|l2 ls]; [cbn in Hroom; lia|]. apply Forall_cons_1 in Hls as [[Hl2 _] _]. assert (Hj2 : (length name' + 1 + length l2 <= length (joined name' (l2 :: ls)))%nat); [|cbn in *; lia].
    unfold joined. cbn [fold_left]. etransitivity; [|apply joined_length]. rewrite !length_app. assert (0 < Z.of_nat (length name')) by (cbn in Hlen; lia). if_lia. cbn [length]. lia.
Qed.

(** C32. Names on the wire.  A host name of one or more labels of 1 to 63 characters, whose
    encoding fits the buffer of the encoder, is encoded as its labels behind their lengths
    and a zero; and wherever those bytes lie in a message, decoding gives the name back if
    the caller's buffer holds it and its terminator.  The position returned is the one after
    the encoded name, except when the name and its terminator fill the buffer exactly: the
    loop ends there before it reads the zero, and the position is that of the zero. *)
Theorem dns_name_roundtrip ls size name_size before after fuel :
  ls <> [] -> Forall label_ok ls -> Z.of_nat (length (wire ls)) + 1 <= size -> Z.of_nat (length (dotted ls)) + 1 <= name_size -> (length ls < fuel)%nat ->
  exists encoded, dns_encode_name (dotted ls) size = Some encoded /\
    let message := before ++ encoded ++ after in
    let next := Z.of_nat (length before + length encoded) in
    dns_decode_name fuel message (Z.of_nat (length message)) (Z.of_nat (length before)) (Some name_size) =
    Some (dec_name (if decide (name_size = Z.of_nat (length (dotted ls)) + 1) then next - 1 else next) (dotted ls)).
Proof.
  intros Hne Hls Hs Hn Hf. exists (wire ls ++ [0]). split; [by apply encode_dotted|]. intros message next. unfold dns_decode_name.
  assert (Hm : length message = (length before + (length (wire ls) + 1) + length after)%nat) by (unfold message; rewrite !length_app; cbn; lia). if_lia.
  assert (Hnext : next = Z.of_nat (length before + length (wire ls)) + 1) by (unfold next; rewrite length_app; cbn [length]; lia).
  replace fuel with (length ls + S (fuel - length ls - 1))%nat by lia.
  rewrite (decode_labels message name_size ls _ _ [] false ([0] ++ after)); rewrite ?joined_dotted by done; [|done|lia| |lia|right; left; lia].
  - set (f := (fuel - length ls - 1)%nat). cbn [decode_loop]. rewrite <- Nat2Z.inj_add. unfold end_name.
    assert (Hd : drop (length before + length (wire ls)) message = 0 :: after).
    { unfold message. rewrite <- app_assoc, app_assoc. apply drop_app_exact. by rewrite length_app. }
    apply drop_cons_inv in Hd as (Hk & Hx & _). rewrite Nat2Z.id, Hx. rewrite (proj2 (Z.ltb_lt (Z.of_nat (length (dotted ls))) name_size)) by lia. case_decide.
    + rewrite (proj2 (Z.ltb_ge _ (name_size - 1))) by lia. rewrite andb_false_r. do 2 f_equal. lia.
    + rewrite !(proj2 (Z.ltb_lt _ _)) by lia. cbn [andb Z.eqb]. do 2 f_equal. lia.
  - rewrite Nat2Z.id. unfold message. rewrite <- app_assoc. by apply drop_app_exact.
Qed.

(** A write behind the buffer.  A name of two labels or more that is exactly as long
    as the caller's buffer passes the checks, and its terminator is stored behind the
    end of the buffer. *)
Theorem dns_decode_overruns ls before after fuel :
  (2 <= length ls)%nat -> Forall label_ok ls -> (length ls < fuel)%nat ->
  let message := before ++ (wire ls ++ [0]) ++ after in
  dns_decode_name fuel message (Z.of_nat (length message)) (Z.of_nat (length before)) (Some (Z.of_nat (length (dotted ls)))) = Some dec_overrun.
Proof.
  intros H2 Hls Hf message. unfold dns_decode_name. assert (Hm : length message = (length before + (length (wire ls) + 1) + length after)%nat) by (unfold message; rewrite !length_app; cbn; lia).
  assert (Hd : (1 <= length (dotted ls))%nat) by (destruct ls as [|l ls]; [cbn in H2; lia|]; apply Forall_cons_1 in Hls as [[? _] _]; cbn [dotted]; rewrite length_app; lia). if_lia.
  replace fuel with (length ls + S (fuel - length ls - 1))%nat by lia.
  rewrite (decode_labels message _ ls _ _ [] false ([0] ++ after)); rewrite ?joined_dotted by done; [|done|lia| |lia|by right; right].
  - cbn [decode_loop]. rewrite (proj2 (Z.ltb_ge _ (Z.of_nat (length (dotted ls)) - 1))) by lia. rewrite andb_false_r. unfold end_name. by rewrite Z.ltb_irrefl.
  - rewrite Nat2Z.id. unfold message. rewrite <- app_assoc. by apply drop_app_exact.
Qed.

(** Decoding ends.  Whatever the bytes of a message are, the loop of
    [dns_decode_name] ends within twice its length: a second compression pointer is
    refused. *)
Theorem dns_decode_ends buffer buffer_size offset name_size fuel :
  bytes buffer -> 0 <= buffer_size -> 0 <= offset -> 2 * buffer_size + 2 < Z.of_nat fuel -> is_Some (dns_decode_name fuel buffer buffer_size offset name_size).
Proof.
  intros Hb Hs Ho Hf. unfold dns_decode_name. destruct name_size as [name_size|]; [|done]. destruct (_ || _); [done|].
  assert (Hend : forall fuel buf_pos compressed name, 0 <= buf_pos -> Z.max 0 (buffer_size - buf_pos) + (if compressed : bool then 0 else buffer_size + 1) < Z.of_nat fuel ->
    is_Some (decode_loop fuel buffer buffer_size name_size buf_pos compressed name)); [|apply Hend; lia].
  clear Hf Ho fuel. induction fuel as [|f IH]; intros buf_pos compressed name Hp Hm; [destruct compressed; cbv iota in Hm; lia|]. cbn [decode_loop].
  destruct (Z.ltb_spec buf_pos buffer_size) as [Hlt|]; [|done]. destruct (_ <? _); [cbn [andb]|done].
  assert (Hbyte : forall k, 0 <= buffer !!! k < 256).
  { intros k. destruct (buffer !! k) as [x|] eqn:E; [rewrite (list_lookup_total_correct _ _ _ E); eapply Forall_lookup_1 in Hb; [|exact E]; fits_lia|].
    rewrite list_lookup_total_alt, E. cbn. lia. }
  set (len := buffer !!! Z.to_nat buf_pos). pose proof (Hbyte (Z.to_nat buf_pos)) as Hlen. fold len in Hlen. destruct (Z.eqb_spec len 0); [done|]. destruct (_ =? 0xC0).
  - destruct (_ <=? _); [done|]. destruct compressed; cbn [negb]; [done|]. cbv iota in Hm. set (pointer := Z.lor _ _).
    assert (0 <= pointer) by (apply Z.lor_nonneg; split; [apply Z.shiftl_nonneg, Z.land_nonneg; right; lia|apply Hbyte]). apply IH; lia.
  - destruct (_ || _); [done|]. apply IH; [lia|]. destruct compressed; cbv iota in *; lia.
Qed.

(** ** Resolving *)

Lemma put_label_bytes size out label out' : bytes out -> bytes label -> put_label size out label = Some out' -> bytes out'.
Proof.
  intros Ho Hl. unfold put_label. destruct (Z.ltb_spec 63 (Z.of_nat (length label))); [done|]. cbn [orb]. destruct (_ <? _); [done|]. intros [= <-].
  apply Forall_app_2; [done|]. apply Forall_cons_2; [fits_lia|done].
Qed.

Lemma encode_loop_bytes size name : bytes name -> forall out label out' label', bytes out -> bytes label -> encode_loop size out label name = Some (out', label') -> bytes out' /\ bytes label'.
Proof.
  induction 1 as [|c name Hc Hn IH]; intros out label out' label' Ho Hl; cbn [encode_loop]; [by intros [= <- <-]|]. destruct (c =? dot).
  - destruct (put_label size out label) as [o|] eqn:E; [|done]. apply IH; [by apply (put_label_bytes size out label)|constructor].
  - apply IH; [done|]. apply Forall_app_2; [done|]. apply Forall_cons_2; [exact Hc|apply Forall_nil_2].
Qed.

Lemma encode_bytes name size e : bytes name -> dns_encode_name name size = Some e -> bytes e.
Proof.
  intros Hn. unfold dns_encode_name. destruct (_ <? _); [done|]. destruct (encode_loop size [] [] name) as [[out label]|] eqn:E; [|done]. cbn [mbind option_bind].
  apply encode_loop_bytes in E as [Ho Hl]; [|done|constructor|constructor].
  destruct (if 0 <? _ then _ else _) as [o|] eqn:E1; [|done]. cbn [mbind option_bind]. destruct (size <? _); [done|]. intros [= <-]. apply Forall_app_2; [|apply Forall_cons_2; [fits_lia|apply Forall_nil_2]].
  destruct (0 <? _); [by apply (put_label_bytes size out label)|by injection E1 as <-].
Qed.

Lemma on_sockets_runs {A} (m : Effect.M tcp A) (P : A -> tcp -> Prop) s : runs m P (tsys s) -> runs (on_sockets m) (fun a s' => P a (tsys s')) s.
Proof. intros (a & t & E & Hp). exists a, (set_tsys s t). split; [|done]. unfold on_sockets. by rewrite E. Qed.

Section resolving.
  Context (send_packet : Z -> list Z -> error_code_t) (mem_ok : nat -> bool) (uptime : nat -> nat -> Z) (during_sleep : nat -> net -> net).
  Context (addr : nat -> Z) (garbage : nat -> nat -> Z) (ptr_diff : Z -> Z -> Z) (d : Z) (dev : net_device_t).
  Context `{!Network send_packet mem_ok uptime during_sleep d dev} (ptr_diff_self : forall p, ptr_diff p p = 0).

(** The newest socket is a datagram socket of a host. *)
Definition datagram (t : tcp) : Prop := host (netw t) d dev /\ sockets t <> 0 /\ exists k, socks t !! sockets t = Some k /\ type k = SOCK_DGRAM.

(** An error and no address. *)
Definition failed (r : error_code_t * option (list Z)) (_ : dns) : Prop := fst r <> ERR_OK /\ snd r = None.

Lemma kmalloc_datagram t : datagram t -> runs (Tcp.kmalloc addr) (fun _ => datagram) t.
Proof. intros Hd. by eexists _, _. Qed.

Lemma close_datagram t : datagram t -> runs (socket_close send_packet mem_ok uptime during_sleep addr ptr_diff 3) (fun _ _ => True) t.
Proof.
  intros (_ & Hh & k & Hk & Hty). eexists _, _. split; [|done]. unfold socket_close. erewrite bind_run by (by apply socket_find_head). rewrite (proj2 (Z.eqb_neq _ 0) Hh).
  erewrite bind_run by reflexivity. erewrite bind_run by (unfold sock_at; by rewrite Hk). rewrite Z.eqb_refl, Hty. erewrite bind_run by reflexivity.
  change (SOCK_DGRAM =? SOCK_STREAM) with false. cbn [andb]. do 2 erewrite bind_run by reflexivity. reflexivity.
Qed.

Lemma bind_datagram t a : datagram t -> runs (socket_bind ptr_diff 3 (Some a)) (fun _ => datagram) t.
Proof.
  destruct a as [ip port]. intros (Hn & Hh & k & Hk & Hty). eexists _, _. split.
  - unfold socket_bind. erewrite bind_run by (by apply socket_find_head). rewrite (proj2 (Z.eqb_neq _ 0) Hh).
    erewrite bind_run by (unfold sock_at; by rewrite Hk). erewrite bind_run by reflexivity. reflexivity.
  - split; [done|]. split; [done|]. eexists. split; [apply lookup_insert_eq|done].
Qed.

Lemma connect_datagram t a : datagram t -> runs (socket_connect send_packet mem_ok uptime during_sleep addr garbage ptr_diff 3 (Some a)) (fun _ => datagram) t.
Proof.
  destruct a as [ip port]. intros (Hn & Hh & k & Hk & Hty). eexists _, _. split.
  - unfold socket_connect. erewrite bind_run by (by apply socket_find_head). rewrite (proj2 (Z.eqb_neq _ 0) Hh).
    erewrite bind_run by (unfold sock_at; by rewrite Hk). erewrite bind_run by reflexivity. rewrite Hty. change (SOCK_DGRAM =? SOCK_STREAM) with false. cbv iota. erewrite bind_run by reflexivity. reflexivity.
  - split; [done|]. split; [done|]. eexists. split; [apply lookup_insert_eq|done].
Qed.

Lemma udp_send_total n dest dp sp b : host n d dev -> bytes b -> exists e n', udp_send send_packet mem_ok uptime during_sleep dest dp sp b n = Ret e n' /\ host n' d dev.
Proof.
  intros Hn Hb. unfold udp_send. destruct (_ =? 0); [by eexists _, _|]. erewrite bind_run by reflexivity. destruct (negb _); [eexists _, _; split; [done|destruct Hn; by constructor]|].
  apply net_sends; [done|destruct Hn; by constructor|unfold IP_PROTOCOL_UDP; fits_lia|]. unfold udp_packet. repeat apply Forall_app_2; try done; apply le_bytes_ok.
Qed.

Lemma send_datagram t b : datagram t -> bytes b -> runs (socket_send send_packet mem_ok uptime during_sleep addr ptr_diff 3 b) (fun _ => datagram) t.
Proof.
  intros Hd Hb. pose proof Hd as (Hn & Hh & k & Hk & Hty). unfold runs, socket_send. erewrite bind_run by (by apply socket_find_head). destruct (_ || _); [by eexists _, _|].
  erewrite bind_run by (unfold sock_at; by rewrite Hk). destruct (_ && _); [by eexists _, _|]. rewrite Hty. change (SOCK_DGRAM =? SOCK_DGRAM) with true. cbv iota.
  edestruct udp_send_total as (e & n' & E & Hn'); [exact Hn|exact Hb|]. exists e, (set_net t n'). split; [by apply lift_run|]. split; [done|]. split; [done|]. by exists k.
Qed.

Lemma recv_datagram t len : datagram t -> runs (socket_recv ptr_diff 3 len) (fun r t' => r = (ERR_NOT_SUPPORTED, []) /\ datagram t') t.
Proof.
  intros Hd. pose proof Hd as (Hn & Hh & k & Hk & Hty). eexists _, t. split; [|by split]. unfold socket_recv. erewrite bind_run by (by apply socket_find_head).
  rewrite (proj2 (Z.eqb_neq _ 0) Hh). erewrite bind_run by (unfold sock_at; by rewrite Hk).
  rewrite Hty. change (SOCK_DGRAM =? SOCK_DGRAM) with true. cbv iota. erewrite bind_run; [done|]. by apply lift_pure.
Qed.

Lemma create_datagram t : socket_initialized t = false -> host (netw t) d dev -> runs (socket_create addr AF_INET SOCK_DGRAM) (fun fd t' => fd = -1 \/ fd = 3 /\ datagram t') t.
Proof.
  intros Hi Hn. unfold runs, socket_create. erewrite bind_run by reflexivity. rewrite Hi. erewrite bind_run by (unfold socket_init; erewrite bind_run by reflexivity; by rewrite Hi).
  change (negb (AF_INET =? AF_INET)) with false. cbv iota. erewrite bind_run by reflexivity. cbn [heap_calls set_socks].
  destruct (Z.eqb_spec (addr (heap_calls t)) 0) as [Ha|Ha]; [eexists _, _; split; [done|by left]|]. do 3 erewrite bind_run by reflexivity.
  eexists _, _. split; [reflexivity|]. right. split; [done|]. split; [done|]. split; [done|]. eexists. split; [apply lookup_insert_eq|done].
Qed.

Lemma close_failed e s : e <> ERR_OK -> datagram (tsys s) -> runs (close send_packet mem_ok uptime during_sleep addr ptr_diff 3;;; ret (e, None)) failed s.
Proof. intros He Hd. eapply runs_bind; [by apply on_sockets_runs, close_datagram|]. intros. by apply runs_ret. Qed.

(** Go on when the code is [ERR_OK], close the socket and fail otherwise. *)
Lemma checked_failed (e : error_code_t) k s : datagram (tsys s) -> runs k failed s ->
  runs (if negb (bool_decide (e = ERR_OK)) then close send_packet mem_ok uptime during_sleep addr ptr_diff 3;;; ret (e, None) else k) failed s.
Proof. intros Hd Hk. case_bool_decide; [done|by apply close_failed]. Qed.

Lemma exchange_failed hostname qtype size s : bytes hostname -> datagram (tsys s) -> runs (exchange send_packet mem_ok uptime during_sleep addr garbage ptr_diff 3 hostname qtype size) failed s.
Proof.
  intros Hb Hd. eapply runs_bind; [by apply on_sockets_runs, kmalloc_datagram|]. intros p s1 H1. cbv beta in H1. destruct (p =? 0); [by apply close_failed|].
  eapply (runs_bind _ _ (fun _ s => datagram (tsys s))); [by eexists _, _|]. intros id s2 H2. eapply (runs_bind _ _ (fun _ s => datagram (tsys s))); [by eexists _, _|]. intros [] s3 H3.
  destruct (dns_encode_name hostname 256) as [encoded|] eqn:E; [|by apply close_failed]. apply encode_bytes in E; [|done].
  eapply (runs_bind _ _ (fun _ s => datagram (tsys s))); [by eexists _, _|]. intros ip s4 H4. eapply runs_bind; [by apply on_sockets_runs, connect_datagram|]. intros e s5 H5. apply checked_failed; [done|].
  eapply runs_bind; [apply on_sockets_runs, send_datagram; [done|]|].
  { unfold dns_query. repeat apply Forall_app_2; try done; apply le_bytes_ok. }
  intros e' s6 H6. apply checked_failed; [done|]. eapply runs_bind; [by apply on_sockets_runs, kmalloc_datagram|]. intros buf s7 H7. cbv beta in H7. destruct (buf =? 0); [by apply close_failed|].
  eapply runs_bind; [by apply on_sockets_runs, recv_datagram|]. intros r s8 [-> H8]. by apply close_failed.
Qed.

(** No name is resolved.  When the client opens the first socket of a host, both
    functions return for every name, with an error and without an address: the response
    is never received. *)
Theorem dns_resolve_fails hostname s : bytes hostname -> socket_initialized (tsys s) = false -> host (netw (tsys s)) d dev ->
  runs (dns_resolve send_packet mem_ok uptime during_sleep addr garbage ptr_diff hostname) failed s /\
  runs (dns_resolve_ipv6 send_packet mem_ok uptime during_sleep addr garbage ptr_diff hostname) failed s.
Proof.
  intros Hb Hs Hn. set (P := fun t => socket_initialized t = false /\ host (netw t) d dev).
  assert (Hinit : runs (if dns_initialized s then ret ERR_OK else dns_init) (fun _ s' => P (tsys s')) s).
  { unfold runs, dns_init, bind, get, modify, ret. destruct (dns_initialized s) eqn:E; cbn; rewrite ?E; by eexists _, _. }
  split; (eapply (runs_bind _ _ (fun a s' => a = dns_initialized s /\ s' = s)); [by eexists _, _|]); intros ? ? [-> ->]; (eapply runs_bind; [exact Hinit|]); intros _ s1 [H1 H1'];
    (eapply runs_bind; [by apply on_sockets_runs, create_datagram|]); intros fd s2 [->|[-> Hd]]; [by apply runs_ret| |by apply runs_ret|by apply exchange_failed].
  cbn [Z.ltb Z.compare]. eapply runs_bind; [by apply on_sockets_runs, bind_datagram|]. intros e s3 H3. apply checked_failed; [done|]. by apply exchange_failed.
Qed.

End resolving.

(** ** Concrete runs *)

(** ["a.bc"] *)
Definition example_labels : list (list Z) := [[97]; [98; 99]].

Lemma example_labels_ok : Forall label_ok example_labels.
Proof. repeat constructor; cbn; try lia; done. Qed.

Lemma dns_name_roundtrip_witness :
  exists encoded, dns_encode_name [97; 46; 98; 99] 256 = Some encoded /\ dns_decode_name 3 ([7] ++ encoded ++ [9]) 8 1 (Some 64) = Some (dec_name 7 [97; 46; 98; 99]).
Proof.
  destruct (dns_name_roundtrip example_labels 256 64 [7] [9] 3) as (encoded & E & H); [done|apply example_labels_ok|by vm_compute|by vm_compute|cbn; lia|].
  exists encoded. split; [exact E|]. vm_compute in E. injection E as <-. exact H.
Defined.

Lemma dns_decode_overruns_witness : dns_decode_name 3 [7; 1; 97; 2; 98; 99; 0; 9] 8 1 (Some 4) = Some dec_overrun.
Proof. apply (dns_decode_overruns example_labels [7] [9] 3); [cbn; lia|apply example_labels_ok|cbn; lia]. Defined.

Lemma dns_decode_ends_witness : is_Some (dns_decode_name 12 [1; 97; 0xC0; 0] 4 0 (Some 16)).
Proof. apply (dns_decode_ends [1; 97; 0xC0; 0] 4 0 (Some 16) 12); [repeat constructor; fits_lia|lia|lia|lia]. Defined.

Definition example_dns : dns := {| tsys := set_socks example_tcp ∅ 0 0 false; nameserver_ip := 0; next_id := 0; dns_initialized := false |}.

Lemma dns_resolve_fails_witness :
  runs (dns_resolve no_error always ticking nothing example_addr example_garbage Z.sub [97; 46; 98; 99]) failed example_dns /\
  runs (dns_resolve_ipv6 no_error always ticking nothing example_addr example_garbage Z.sub [97; 46; 98; 99]) failed example_dns.
Proof.
  apply (dns_resolve_fails no_error always ticking nothing example_addr example_garbage Z.sub 1 (example_device 7) Z.sub_diag [97; 46; 98; 99] example_dns);
    [repeat constructor; fits_lia|done|apply example_host_ok; fits_lia].
Defined.
