(* ===== verification/Table.v ===== *)
(** * Counted tables

    Most kernel components keep a fixed C array together with the number of
    entries in use, search it linearly by key, append at the end and remove
    either by shifting the tail down or by moving the last entry into the hole.
    This file has those loops once, their effect on the list of entries in use
    and, for keyed entries, on the finite map from keys to entries. *)

From stdpp Require Import base tactics list numbers option gmap fin_maps.
From Stdlib Require Import Lia.
From S2P Require Import Prelude.

Section Table.
Context {A : Type}.
Implicit Types (a : arr A) (n i : Z) (p : A -> bool).

(** [for (i = 0; i < n; i++) if (p(a[i])) ...]: the first hit. *)
Definition tfind (p : A -> bool) (a : arr A) (n : Z) : option Z :=
  find_first (fun i => p (a i)) 0 (Z.to_nat n).

(** [for (j = i; j < n - 1; j++) a[j] = a[j + 1]]. *)
Definition shift_left (a : arr A) (i n : Z) : arr A :=
  for_loop (Z.to_nat (n - 1 - i)) i (fun j a => a.[j <- a (j + 1)]) a.

(** The entries in use, in index order. *)
Definition contents (a : arr A) (n : Z) : list A :=
  (fun k => a (Z.of_nat k)) <$> seq 0 (Z.to_nat n).

Lemma contents_length a n : length (contents a n) = Z.to_nat n.
Proof. unfold contents. by rewrite length_fmap, length_seq. Qed.

Lemma contents_lookup a n k :
  contents a n !! k = if decide (k < Z.to_nat n)%nat then Some (a (Z.of_nat k)) else None.
Proof.
  unfold contents. rewrite list_lookup_fmap. case_decide.
  - by rewrite lookup_seq_lt by done.
  - by rewrite lookup_seq_ge by lia.
Qed.

Lemma contents_elem a n x : x ∈ contents a n <-> exists i, 0 <= i < n /\ a i = x.
Proof.
  rewrite list_elem_of_lookup. split.
  - intros [k Hk]. rewrite contents_lookup in Hk. case_decide; [|done].
    exists (Z.of_nat k). split; [lia|by simplify_eq].
  - intros (i & Hi & <-). exists (Z.to_nat i). rewrite contents_lookup.
    rewrite decide_True by lia. by rewrite Z2Nat.id by lia.
Qed.

Lemma contents_0 a : contents a 0 = [].
Proof. done. Qed.

Lemma contents_snoc a n x : 0 <= n -> contents (a.[n <- x]) (n + 1) = contents a n ++ [x].
Proof.
  intros Hn. apply list_eq. intros k. rewrite contents_lookup. unfold aset.
  destruct (decide (k < Z.to_nat n)%nat) as [Hlt|Hge].
  - rewrite decide_True by lia. rewrite lookup_app_l by (rewrite contents_length; lia).
    rewrite contents_lookup, decide_True by lia. by rewrite (proj2 (Z.eqb_neq _ _)) by lia.
  - rewrite lookup_app_r by (rewrite contents_length; lia). rewrite contents_length.
    destruct (decide (k = Z.to_nat n)) as [->|].
    + rewrite decide_True by lia. rewrite Nat.sub_diag. simpl.
      by rewrite (proj2 (Z.eqb_eq _ _)) by lia.
    + rewrite decide_False by lia. by rewrite lookup_ge_None_2 by (simpl; lia).
Qed.

Lemma contents_set a n i x :
  0 <= i < n -> contents (a.[i <- x]) n = <[Z.to_nat i := x]> (contents a n).
Proof.
  intros Hi. apply list_eq. intros k. rewrite contents_lookup. unfold aset.
  destruct (decide (k = Z.to_nat i)) as [->|Hne].
  - rewrite list_lookup_insert_eq by (rewrite contents_length; lia).
    rewrite decide_True by lia. by rewrite (proj2 (Z.eqb_eq _ _)) by lia.
  - rewrite list_lookup_insert_ne, contents_lookup by done.
    case_decide; [|done]. by rewrite (proj2 (Z.eqb_neq _ _)) by lia.
Qed.

Lemma shift_left_get a i n j :
  0 <= i < n -> shift_left a i n j = if ((i <=? j) && (j <? n - 1))%bool then a (j + 1) else a j.
Proof.
  intros Hi. unfold shift_left. set (m := Z.to_nat (n - 1 - i)).
  assert (Hm : i + Z.of_nat m = n - 1) by lia. rewrite <- Hm.
  refine (for_loop_ind (fun k a' => forall j,
    a' j = if ((i <=? j) && (j <? k))%bool then a (j + 1) else a j) m i _ a _ _ j).
  - intros j'. by replace (_ && _)%bool with false by lia.
  - intros k a' Hk H j'. unfold aset. destruct (Z.eqb_spec j' k) as [->|Hne].
    + rewrite H. replace ((i <=? k + 1) && (k + 1 <? k))%bool with false by lia.
      by replace (_ && _)%bool with true by lia.
    + rewrite H. by replace (j' <? k + 1) with (j' <? k) by lia.
Qed.

Lemma contents_shift a i n :
  0 <= i < n -> contents (shift_left a i n) (n - 1) = delete (Z.to_nat i) (contents a n).
Proof.
  intros Hi. apply list_eq. intros k. rewrite contents_lookup, list_lookup_delete.
  rewrite shift_left_get by done. case_decide as Hk.
  - rewrite (proj2 (Z.ltb_lt _ _)) by lia. rewrite andb_true_r. case_decide.
    + rewrite contents_lookup, decide_True by lia. by rewrite (proj2 (Z.leb_gt _ _)) by lia.
    + rewrite contents_lookup, decide_True by lia. rewrite (proj2 (Z.leb_le _ _)) by lia.
      by replace (Z.of_nat k + 1) with (Z.of_nat (S k)) by lia.
  - case_decide; [lia|]. by rewrite contents_lookup, decide_False by lia.
Qed.

Lemma contents_init a n :
  0 < n -> contents a n = contents a (n - 1) ++ [a (n - 1)].
Proof.
  intros Hn. rewrite <- (contents_snoc a (n - 1) (a (n - 1))) by lia.
  replace (n - 1 + 1) with n by lia. apply list_eq. intros k. rewrite !contents_lookup.
  case_decide; [|done]. unfold aset. destruct (Z.eqb_spec (Z.of_nat k) (n - 1)); congruence.
Qed.

(** Moving the last entry into the hole permutes the entries that remain. *)
Lemma contents_swap_remove a i n :
  0 <= i < n -> contents (a.[i <- a (n - 1)]) (n - 1) ≡ₚ delete (Z.to_nat i) (contents a n).
Proof.
  intros Hi. rewrite (contents_init a n) by lia.
  destruct (decide (i = n - 1)) as [->|Hne].
  - rewrite delete_take_drop, drop_ge by (rewrite length_app, contents_length; simpl; lia).
    rewrite app_nil_r, take_app_le by (rewrite contents_length; lia).
    rewrite take_ge by (rewrite contents_length; lia).
    replace (contents (a.[n - 1 <- _]) (n - 1)) with (contents a (n - 1)); [done|].
    apply list_eq. intros k. rewrite !contents_lookup. case_decide; [|done].
    by rewrite aset_ne by lia.
  - rewrite contents_set by lia. rewrite insert_take_drop by (rewrite contents_length; lia).
    rewrite delete_take_drop, take_app_le by (rewrite contents_length; lia).
    rewrite drop_app_le by (rewrite contents_length; lia). solve_Permutation.
Qed.

Lemma tfind_Some p a n i :
  0 <= n ->
  tfind p a n = Some i <->
  0 <= i < n /\ p (a i) = true /\ (forall j, 0 <= j < i -> p (a j) = false).
Proof. intros. unfold tfind. rewrite find_first_Some. split; intros (? & ? & ?); split_and!; done || lia. Qed.

Lemma tfind_None p a n :
  0 <= n -> tfind p a n = None <-> (forall x, x ∈ contents a n -> p x = false).
Proof.
  intros. unfold tfind. rewrite find_first_None. split.
  - intros Hn x Hx. apply contents_elem in Hx as (i & Hi & <-). apply Hn. lia.
  - intros Hn j Hj. apply Hn. apply contents_elem. exists j. split; [lia|done].
Qed.

Lemma tfind_is_Some p a n :
  0 <= n -> is_Some (tfind p a n) <-> exists x, x ∈ contents a n /\ p x = true.
Proof.
  intros Hn. split.
  - intros [i Hi]. apply tfind_Some in Hi as (? & ? & _); [|done].
    exists (a i). split; [|done]. apply contents_elem. eauto.
  - intros (x & Hx & Hp). destruct (tfind p a n) eqn:E; [done|].
    rewrite (proj1 (tfind_None _ _ _ Hn) E x Hx) in Hp. done.
Qed.
End Table.

(** ** Keyed tables *)

Section Keyed.
Context {A K : Type} `{Countable K} (key : A -> K).
Implicit Types (a : arr A) (n i : Z).

Definition unique_keys (l : list A) : Prop := NoDup (key <$> l).

(** The finite map a keyed list of entries stands for. *)
Definition as_map (l : list A) : gmap K A := list_to_map ((fun x => (key x, x)) <$> l).

Lemma as_map_keys l : ((fun x => (key x, x)) <$> l).*1 = key <$> l.
Proof. rewrite <- list_fmap_compose. done. Qed.

Lemma as_map_lookup l k x :
  unique_keys l -> as_map l !! k = Some x <-> x ∈ l /\ key x = k.
Proof.
  intros Hu. unfold as_map. rewrite <- elem_of_list_to_map by (by rewrite as_map_keys).
  rewrite list_elem_of_fmap. split.
  - intros (y & ? & ?). by simplify_eq.
  - intros [? <-]. eauto.
Qed.

Lemma as_map_None l k : as_map l !! k = None <-> (forall x, x ∈ l -> key x <> k).
Proof.
  unfold as_map. rewrite <- not_elem_of_list_to_map, as_map_keys, list_elem_of_fmap.
  split; [intros Hn x ? ?; apply Hn; eauto|intros Hn (x & -> & ?); by apply (Hn x)].
Qed.

Lemma as_map_ext l l' :
  unique_keys l -> unique_keys l' -> (forall x, x ∈ l <-> x ∈ l') -> as_map l = as_map l'.
Proof.
  intros Hu Hu' He. apply map_eq. intros k. apply option_eq. intros x.
  rewrite !as_map_lookup by done. by rewrite He.
Qed.

Lemma as_map_size l : unique_keys l -> size (as_map l) = length l.
Proof. intros Hu. unfold as_map. rewrite map_size_list_to_map by (by rewrite as_map_keys). apply length_fmap. Qed.

Lemma unique_snoc l x : unique_keys l -> (forall y, y ∈ l -> key y <> key x) -> unique_keys (l ++ [x]).
Proof.
  intros Hu Hn. unfold unique_keys in *. rewrite fmap_app. apply NoDup_app.
  split_and!; [done| |apply NoDup_singleton].
  intros k Hk Hk'. apply list_elem_of_fmap in Hk as (y & -> & Hy). simpl in Hk'.
  apply list_elem_of_singleton in Hk'. by apply (Hn y).
Qed.

Lemma as_map_snoc l x :
  unique_keys l -> (forall y, y ∈ l -> key y <> key x) -> as_map (l ++ [x]) = <[key x := x]> (as_map l).
Proof.
  intros Hu Hn. unfold as_map. rewrite fmap_app. simpl. apply list_to_map_snoc.
  rewrite as_map_keys, list_elem_of_fmap. intros (y & ? & ?). by apply (Hn y).
Qed.

Lemma unique_insert l (k : nat) y x :
  unique_keys l -> l !! k = Some y -> key x = key y -> unique_keys (<[k := x]> l).
Proof.
  intros Hu Hy Hk. unfold unique_keys in *. rewrite list_fmap_insert, Hk, list_insert_id; [done|].
  by rewrite list_lookup_fmap, Hy.
Qed.

Lemma unique_lookup l (j k : nat) x y :
  unique_keys l -> l !! j = Some x -> l !! k = Some y -> key x = key y -> j = k.
Proof.
  intros Hu Hx Hy He. eapply NoDup_lookup; [exact Hu|..].
  - rewrite list_lookup_fmap, Hx. done.
  - rewrite list_lookup_fmap, Hy. simpl. congruence.
Qed.

Lemma as_map_insert l (k : nat) y x :
  unique_keys l -> l !! k = Some y -> key x = key y -> as_map (<[k := x]> l) = <[key x := x]> (as_map l).
Proof.
  intros Hu Hy He. pose proof (unique_insert l k y x Hu Hy He) as Hu'.
  assert (k < length l)%nat by (by eapply lookup_lt_Some).
  apply map_eq. intros k'. apply option_eq. intros z. rewrite as_map_lookup by done.
  rewrite lookup_insert. case_decide as Hk'.
  - subst k'. split.
    + intros [Hz Hkz]. apply list_elem_of_lookup in Hz as [j Hj].
      assert (Hx : <[k := x]> l !! k = Some x) by (by apply list_lookup_insert_eq).
      rewrite (unique_lookup _ j k z x Hu' Hj Hx Hkz) in Hj. congruence.
    + intros [= <-]. split; [|done]. apply list_elem_of_lookup. exists k. by apply list_lookup_insert_eq.
  - rewrite as_map_lookup by done. split.
    + intros [Hz <-]. split; [|done]. apply list_elem_of_lookup in Hz as [j Hj].
      destruct (decide (j = k)) as [->|Hne].
      * rewrite list_lookup_insert_eq in Hj by done. congruence.
      * rewrite list_lookup_insert_ne in Hj by done. apply list_elem_of_lookup. eauto.
    + intros [Hz <-]. split; [|done]. apply list_elem_of_lookup in Hz as [j Hj].
      apply list_elem_of_lookup. exists j. rewrite list_lookup_insert_ne; [done|].
      intros ->. congruence.
Qed.

Lemma unique_delete l (k : nat) : unique_keys l -> unique_keys (delete k l).
Proof.
  intros Hu. unfold unique_keys in *. rewrite delete_take_drop, fmap_app, fmap_take, fmap_drop.
  rewrite <- delete_take_drop. eapply sublist_NoDup; [exact Hu|]. apply sublist_delete.
Qed.

Lemma as_map_delete l (k : nat) y :
  unique_keys l -> l !! k = Some y -> as_map (delete k l) = delete (key y) (as_map l).
Proof.
  intros Hu Hy. apply map_eq. intros k'. apply option_eq. intros z.
  rewrite as_map_lookup by (by apply unique_delete).
  rewrite lookup_delete_Some, as_map_lookup by done. split.
  - intros [Hz <-]. apply list_elem_of_lookup in Hz as [j Hj]. rewrite list_lookup_delete in Hj.
    split; [|split; [|done]].
    + intros He. case_decide.
      * pose proof (unique_lookup l k j y z Hu Hy Hj He). lia.
      * pose proof (unique_lookup l k (S j) y z Hu Hy Hj He). lia.
    + case_decide; apply list_elem_of_lookup; eauto.
  - intros (Hne & Hz & <-). split; [|done]. apply list_elem_of_lookup in Hz as [j Hj].
    apply list_elem_of_lookup. destruct (decide (j < k)%nat).
    + exists j. by rewrite list_lookup_delete, decide_True by done.
    + assert (j <> k) by congruence. exists (pred j). rewrite list_lookup_delete, decide_False by lia.
      by replace (S (pred j)) with j by lia.
Qed.

Lemma unique_perm l l' : l ≡ₚ l' -> unique_keys l -> unique_keys l'.
Proof. intros Hp. unfold unique_keys. by rewrite Hp. Qed.
End Keyed.

(** ** Tables of numbers used as sets *)

Section SetTable.
Implicit Types (a : arr Z) (n i x : Z).

Definition as_set (a : arr Z) (n : Z) : gset Z := list_to_set (contents a n).

Lemma as_set_elem a n x : x ∈ as_set a n <-> x ∈ contents a n.
Proof. apply elem_of_list_to_set. Qed.

Lemma tfind_eq_Some a n x :
  0 <= n -> is_Some (tfind (fun y => y =? x) a n) <-> x ∈ as_set a n.
Proof.
  intros Hn. rewrite tfind_is_Some, as_set_elem by done. split.
  - intros (y & Hy & E). apply Z.eqb_eq in E. by subst.
  - intros Hx. exists x. by rewrite Z.eqb_refl.
Qed.

Lemma tfind_eq_None a n x :
  0 <= n -> tfind (fun y => y =? x) a n = None <-> x ∉ as_set a n.
Proof. intros Hn. rewrite <- tfind_eq_Some by done. by rewrite eq_None_not_Some. Qed.

Lemma as_set_snoc a n x : 0 <= n -> as_set (a.[n <- x]) (n + 1) = {[x]} ∪ as_set a n.
Proof.
  intros Hn. unfold as_set. rewrite contents_snoc by done. rewrite list_to_set_app_L. simpl.
  by rewrite (right_id_L ∅ (∪)), (comm_L (∪)).
Qed.

Lemma nodup_snoc a n x :
  0 <= n -> NoDup (contents a n) -> x ∉ as_set a n -> NoDup (contents (a.[n <- x]) (n + 1)).
Proof.
  intros Hn Hd Hx. rewrite contents_snoc by done. apply NoDup_app. split_and!; [done| |apply NoDup_singleton].
  intros y Hy ->%list_elem_of_singleton. by rewrite as_set_elem in Hx.
Qed.

Lemma as_set_shift a n i :
  NoDup (contents a n) -> 0 <= i < n -> as_set (shift_left a i n) (n - 1) = as_set a n ∖ {[a i]}.
Proof.
  intros Hd Hi. assert (Hl : contents a n !! Z.to_nat i = Some (a i)).
  { rewrite contents_lookup, decide_True by lia. by rewrite Z2Nat.id by lia. }
  unfold as_set. rewrite contents_shift by done. rewrite delete_take_drop.
  apply set_eq. intros y. rewrite elem_of_difference, elem_of_singleton, !elem_of_list_to_set, elem_of_app.
  rewrite <- (take_drop_middle _ _ _ Hl) in Hd.
  apply NoDup_app in Hd as (_ & Hd1 & Hd2). apply NoDup_cons in Hd2 as [Hd2 _].
  rewrite <- (take_drop_middle _ _ _ Hl) at 3. rewrite elem_of_app, elem_of_cons.
  split.
  - intros [Hy|Hy]; (split; [tauto|]); intros ->; [|done]. apply (Hd1 _ Hy). by left.
  - tauto.
Qed.

Lemma nodup_shift a n i :
  NoDup (contents a n) -> 0 <= i < n -> NoDup (contents (shift_left a i n) (n - 1)).
Proof. intros Hd Hi. rewrite contents_shift by done. eapply sublist_NoDup; [exact Hd|]. apply sublist_delete. Qed.

Lemma as_set_size a n : 0 <= n -> NoDup (contents a n) -> Z.of_nat (size (as_set a n)) = n.
Proof. intros Hn Hd. unfold as_set. rewrite size_list_to_set, contents_length by done. lia. Qed.
End SetTable.

(** ** Tables keyed by a number *)

Section ZKeyed.
Context {A : Type} (key : A -> Z) (P : A -> Prop).
Implicit Types (a : arr A) (n i k : Z) (x : A).

(** The table invariant: distinct keys, and every entry in use well formed. *)
Definition keyed_ok (a : arr A) (n : Z) : Prop :=
  0 <= n /\ unique_keys key (contents a n) /\ forall x, x ∈ contents a n -> P x.

Lemma keyed_find_Some a n k i :
  keyed_ok a n -> tfind (fun x => key x =? k) a n = Some i ->
  0 <= i < n /\ key (a i) = k /\ P (a i) /\ as_map key (contents a n) !! k = Some (a i).
Proof.
  intros (Hn & Hu & HP) E. apply tfind_Some in E as (Hi & Hk & _); [|done]. apply Z.eqb_eq in Hk.
  assert (He : a i ∈ contents a n) by (apply contents_elem; eauto).
  split_and!; [lia|lia|done|by apply HP|]. apply as_map_lookup; done.
Qed.

Lemma keyed_find_None a n k :
  keyed_ok a n -> tfind (fun x => key x =? k) a n = None ->
  as_map key (contents a n) !! k = None /\ forall x, x ∈ contents a n -> key x <> k.
Proof.
  intros (Hn & Hu & _) E. pose proof (proj1 (tfind_None _ _ _ Hn) E) as Hf.
  assert (Hk : forall x, x ∈ contents a n -> key x <> k).
  { intros x Hx. specialize (Hf x Hx). by apply Z.eqb_neq in Hf. }
  split; [|done]. by apply as_map_None.
Qed.

Lemma keyed_set a n i x :
  keyed_ok a n -> 0 <= i < n -> key x = key (a i) -> P x ->
  keyed_ok (a.[i <- x]) n /\
  as_map key (contents (a.[i <- x]) n) = <[key x := x]> (as_map key (contents a n)).
Proof.
  intros (Hn & Hu & HP) Hi Hk Hx. assert (Hl : contents a n !! Z.to_nat i = Some (a i)).
  { rewrite contents_lookup, decide_True by lia. by rewrite Z2Nat.id by lia. }
  rewrite contents_set by done. split; [|by eapply as_map_insert].
  unfold keyed_ok. rewrite contents_set by done. split_and!; [done|by eapply unique_insert|].
  intros y Hy. apply list_elem_of_lookup in Hy as [j Hj].
  destruct (decide (j = Z.to_nat i)) as [->|Hne].
  - rewrite list_lookup_insert_eq in Hj by (rewrite contents_length; lia). by simplify_eq.
  - rewrite list_lookup_insert_ne in Hj by done. apply HP. apply list_elem_of_lookup. eauto.
Qed.

Lemma keyed_snoc a n x :
  keyed_ok a n -> (forall y, y ∈ contents a n -> key y <> key x) -> P x ->
  keyed_ok (a.[n <- x]) (n + 1) /\
  as_map key (contents (a.[n <- x]) (n + 1)) = <[key x := x]> (as_map key (contents a n)).
Proof.
  intros (Hn & Hu & HP) Hk Hx. rewrite contents_snoc by done. split; [|by apply as_map_snoc].
  unfold keyed_ok. rewrite contents_snoc by done. split_and!; [lia|by apply unique_snoc|].
  intros y [Hy|Hy]%elem_of_app; [by apply HP|]. apply list_elem_of_singleton in Hy. by subst.
Qed.

Lemma keyed_shift a n i :
  keyed_ok a n -> 0 <= i < n ->
  keyed_ok (shift_left a i n) (n - 1) /\
  as_map key (contents (shift_left a i n) (n - 1)) = delete (key (a i)) (as_map key (contents a n)).
Proof.
  intros (Hn & Hu & HP) Hi. assert (Hl : contents a n !! Z.to_nat i = Some (a i)).
  { rewrite contents_lookup, decide_True by lia. by rewrite Z2Nat.id by lia. }
  rewrite contents_shift by done. split; [|by eapply as_map_delete].
  unfold keyed_ok. rewrite contents_shift by done. split_and!; [lia|by apply unique_delete|].
  intros y Hy. apply HP. eapply elem_of_sublist; [exact Hy|]. apply sublist_delete.
Qed.

Lemma keyed_swap a n i :
  keyed_ok a n -> 0 <= i < n ->
  keyed_ok (a.[i <- a (n - 1)]) (n - 1) /\
  as_map key (contents (a.[i <- a (n - 1)]) (n - 1)) = delete (key (a i)) (as_map key (contents a n)).
Proof.
  intros H Hi. destruct (keyed_shift a n i H Hi) as [(_ & Hu & HP) <-].
  rewrite contents_shift in * by done. pose proof (contents_swap_remove a i n Hi) as Hp.
  split; [split_and!; [lia|by eapply unique_perm|]|].
  - intros y Hy. apply HP. by rewrite <- Hp.
  - apply as_map_ext; [by eapply unique_perm|done|]. intros y. by rewrite Hp.
Qed.

Lemma keyed_size a n : keyed_ok a n -> Z.of_nat (size (as_map key (contents a n))) = n.
Proof.
  intros (Hn & Hu & _). unfold as_map. rewrite map_size_list_to_map by (by rewrite as_map_keys).
  rewrite length_fmap, contents_length. lia.
Qed.
End ZKeyed.
