(* ===== verification/Acl.v ===== *)
(** * File permissions and access control lists
    (kernel/fs/permissions.c, kernel/fs/acl.c)

    The Unix mode bits of a file, the access control list of a resource as the
    C structure has it (a fixed array and a count), and the refinement of the
    list operations to a finite map from (entry type, id) to permissions. *)

From stdpp Require Import base tactics list numbers option gmap fin_maps.
From Stdlib Require Import Lia.
From S2P Require Import Prelude Table.

(** ** Mode bits (permissions.h) *)

Definition PERM_READ : Z := 4.
Definition PERM_WRITE : Z := 2.
Definition PERM_EXECUTE : Z := 1.
Definition PERM_OWNER_READ : Z := Z.shiftl PERM_READ 6.
Definition PERM_OWNER_WRITE : Z := Z.shiftl PERM_WRITE 6.
Definition PERM_OWNER_EXECUTE : Z := Z.shiftl PERM_EXECUTE 6.
Definition PERM_GROUP_READ : Z := Z.shiftl PERM_READ 3.
Definition PERM_GROUP_WRITE : Z := Z.shiftl PERM_WRITE 3.
Definition PERM_GROUP_EXECUTE : Z := Z.shiftl PERM_EXECUTE 3.
Definition PERM_OTHER_READ : Z := Z.shiftl PERM_READ 0.
Definition PERM_OTHER_WRITE : Z := Z.shiftl PERM_WRITE 0.
Definition PERM_OTHER_EXECUTE : Z := Z.shiftl PERM_EXECUTE 0.

Record file_permissions_t := { mode : Z; p_uid : Z; p_gid : Z }.

(** A null pointer is [None]. *)

Definition permissions_check_read (perms : option file_permissions_t) (uid gid : Z) : bool :=
  match perms with
  | None => false
  | Some p =>
      if uid =? 0 then true
      else if uid =? p_uid p then has_any (mode p) PERM_OWNER_READ
      else if gid =? p_gid p then has_any (mode p) PERM_GROUP_READ
      else has_any (mode p) PERM_OTHER_READ
  end.

Definition permissions_check_write (perms : option file_permissions_t) (uid gid : Z) : bool :=
  match perms with
  | None => false
  | Some p =>
      if uid =? 0 then true
      else if uid =? p_uid p then has_any (mode p) PERM_OWNER_WRITE
      else if gid =? p_gid p then has_any (mode p) PERM_GROUP_WRITE
      else has_any (mode p) PERM_OTHER_WRITE
  end.

Definition permissions_check_execute (perms : option file_permissions_t) (uid gid : Z) : bool :=
  match perms with
  | None => false
  | Some p =>
      if uid =? 0 then true
      else if uid =? p_uid p then has_any (mode p) PERM_OWNER_EXECUTE
      else if gid =? p_gid p then has_any (mode p) PERM_GROUP_EXECUTE
      else has_any (mode p) PERM_OTHER_EXECUTE
  end.

Definition permissions_set_mode (perms : option file_permissions_t) (m : Z) : option file_permissions_t :=
  match perms with
  | None => None
  | Some p => Some {| mode := Z.land m 4095; p_uid := p_uid p; p_gid := p_gid p |}
  end.

Definition permissions_set_owner (perms : option file_permissions_t) (uid gid : Z) : option file_permissions_t :=
  match perms with
  | None => None
  | Some p => Some {| mode := mode p; p_uid := uid; p_gid := gid |}
  end.

(** ** Access control lists (acl.h, acl.c) *)

Definition ACL_ENTRY_USER : Z := 1.
Definition ACL_ENTRY_GROUP : Z := 2.
Definition ACL_ENTRY_OTHER : Z := 4.
Definition ACL_ENTRY_MASK : Z := 8.
Definition ACL_READ : Z := 4.
Definition ACL_WRITE : Z := 2.
Definition ACL_EXECUTE : Z := 1.
Definition MAX_ACL_ENTRIES : Z := 32.

Record acl_entry_t := { e_type : Z; e_id : Z; e_perms : Z }.
Record acl_t := { entries : arr acl_entry_t; entry_count : Z }.

Definition zero_entry : acl_entry_t := {| e_type := 0; e_id := 0; e_perms := 0 |}.

Definition same_entry (ty id : Z) (e : acl_entry_t) : bool := ((e_type e =? ty) && (e_id e =? id))%bool.

Definition acl_create (acl : option acl_t) : error_code_t * option acl_t :=
  match acl with
  | None => (ERR_INVALID_ARG, None)
  | Some _ => (ERR_OK, Some {| entries := fun _ => zero_entry; entry_count := 0 |})
  end.

Definition acl_add_entry (acl : option acl_t) (ty id perms : Z) : error_code_t * option acl_t :=
  match acl with
  | None => (ERR_INVALID_ARG, None)
  | Some l =>
      if MAX_ACL_ENTRIES <=? entry_count l then (ERR_OUT_OF_MEMORY, acl)
      else match tfind (same_entry ty id) (entries l) (entry_count l) with
           | Some i =>
               let e := entries l i in
               (ERR_OK, Some {| entries := (entries l).[i <- {| e_type := e_type e; e_id := e_id e; e_perms := perms |}];
                                entry_count := entry_count l |})
           | None =>
               (ERR_OK, Some {| entries := (entries l).[entry_count l <- {| e_type := ty; e_id := id; e_perms := perms |}];
                                entry_count := u32 (entry_count l + 1) |})
           end
  end.

Definition acl_remove_entry (acl : option acl_t) (ty id : Z) : error_code_t * option acl_t :=
  match acl with
  | None => (ERR_INVALID_ARG, None)
  | Some l =>
      match tfind (same_entry ty id) (entries l) (entry_count l) with
      | Some i =>
          (ERR_OK, Some {| entries := shift_left (entries l) i (entry_count l);
                           entry_count := u32 (entry_count l - 1) |})
      | None => (ERR_NOT_FOUND, acl)
      end
  end.

(** The output parameter is the second component, [None] when it is not written. *)
Definition acl_get_entry (acl : option acl_t) (ty id : Z) : error_code_t * option acl_entry_t :=
  match acl with
  | None => (ERR_INVALID_ARG, None)
  | Some l =>
      match tfind (same_entry ty id) (entries l) (entry_count l) with
      | Some i => (ERR_OK, Some (entries l i))
      | None => (ERR_NOT_FOUND, None)
      end
  end.

Definition acl_check_access (acl : option acl_t) (uid gid requested_perms : Z) : error_code_t :=
  match acl with
  | None => ERR_INVALID_ARG
  | Some _ =>
      match acl_get_entry acl ACL_ENTRY_USER uid with
      | (ERR_OK, Some user_entry) =>
          if has_all (e_perms user_entry) requested_perms then ERR_OK else ERR_PERMISSION_DENIED
      | _ =>
          let group_grants :=
            match acl_get_entry acl ACL_ENTRY_GROUP gid with
            | (ERR_OK, Some group_entry) =>
                let effective_perms :=
                  match acl_get_entry acl ACL_ENTRY_MASK 0 with
                  | (ERR_OK, Some mask_entry) => Z.land (e_perms group_entry) (e_perms mask_entry)
                  | _ => e_perms group_entry
                  end in
                has_all effective_perms requested_perms
            | _ => false
            end in
          if group_grants then ERR_OK
          else match acl_get_entry acl ACL_ENTRY_OTHER 0 with
               | (ERR_OK, Some other_entry) =>
                   if has_all (e_perms other_entry) requested_perms then ERR_OK else ERR_PERMISSION_DENIED
               | _ => ERR_PERMISSION_DENIED
               end
      end
  end.

(** [if (mode & r) p |= ACL_READ; ...], the three blocks of [acl_set_default]. *)
Definition perms_of_mode (m r w x : Z) : Z :=
  let p := 0 in
  let p := if has_any m r then Z.lor p ACL_READ else p in
  let p := if has_any m w then Z.lor p ACL_WRITE else p in
  if has_any m x then Z.lor p ACL_EXECUTE else p.

Definition acl_set_default (acl : option acl_t) (m uid gid : Z) : error_code_t * option acl_t :=
  match acl with
  | None => (ERR_INVALID_ARG, None)
  | Some _ =>
      let acl := snd (acl_create acl) in
      let owner_perms := perms_of_mode m PERM_OWNER_READ PERM_OWNER_WRITE PERM_OWNER_EXECUTE in
      let acl := snd (acl_add_entry acl ACL_ENTRY_USER uid owner_perms) in
      let group_perms := perms_of_mode m PERM_GROUP_READ PERM_GROUP_WRITE PERM_GROUP_EXECUTE in
      let acl := snd (acl_add_entry acl ACL_ENTRY_GROUP gid group_perms) in
      let other_perms := perms_of_mode m PERM_OTHER_READ PERM_OTHER_WRITE PERM_OTHER_EXECUTE in
      let acl := snd (acl_add_entry acl ACL_ENTRY_OTHER 0 other_perms) in
      (ERR_OK, acl)
  end.

(** * The finite map an access control list stands for *)

Definition entry_key (e : acl_entry_t) : Z * Z := (e_type e, e_id e).

Definition acl_wf (l : acl_t) : Prop :=
  0 <= entry_count l <= MAX_ACL_ENTRIES /\ unique_keys entry_key (contents (entries l) (entry_count l)).

Definition acl_map (l : acl_t) : gmap (Z * Z) Z :=
  e_perms <$> as_map entry_key (contents (entries l) (entry_count l)).

Lemma same_entry_key ty id e : same_entry ty id e = true <-> entry_key e = (ty, id).
Proof.
  unfold same_entry, entry_key. rewrite andb_true_iff, !Z.eqb_eq. split; [by intros [-> ->]|by intros [= -> ->]].
Qed.

Lemma acl_find_None l ty id :
  acl_wf l -> tfind (same_entry ty id) (entries l) (entry_count l) = None ->
  acl_map l !! (ty, id) = None /\
  forall e, e ∈ contents (entries l) (entry_count l) -> entry_key e <> (ty, id).
Proof.
  intros [[Hc _] Hu] E. pose proof (proj1 (tfind_None _ _ _ Hc) E) as Hn.
  assert (Hk : forall e, e ∈ contents (entries l) (entry_count l) -> entry_key e <> (ty, id)).
  { intros e He Hk. apply same_entry_key in Hk. rewrite Hn in Hk; done. }
  split; [|done]. unfold acl_map. rewrite lookup_fmap, (proj2 (as_map_None _ _ _)); done.
Qed.

Lemma acl_find_Some l ty id i :
  acl_wf l -> tfind (same_entry ty id) (entries l) (entry_count l) = Some i ->
  0 <= i < entry_count l /\ entry_key (entries l i) = (ty, id) /\
  contents (entries l) (entry_count l) !! Z.to_nat i = Some (entries l i) /\
  acl_map l !! (ty, id) = Some (e_perms (entries l i)).
Proof.
  intros [[Hc _] Hu] E. apply tfind_Some in E as (Hi & Hp & _); [|done].
  apply same_entry_key in Hp. split_and!; try done; try lia.
  - rewrite contents_lookup, decide_True by lia. by rewrite Z2Nat.id by lia.
  - unfold acl_map. rewrite lookup_fmap, (proj2 (as_map_lookup entry_key _ _ (entries l i) Hu)); [done|].
    split; [|done]. apply contents_elem. exists i. split; [lia|done].
Qed.

Lemma acl_get_entry_map l ty id :
  acl_wf l ->
  match acl_get_entry (Some l) ty id with
  | (ERR_OK, Some e) => entry_key e = (ty, id) /\ acl_map l !! (ty, id) = Some (e_perms e)
  | (ERR_NOT_FOUND, None) => acl_map l !! (ty, id) = None
  | _ => False
  end.
Proof.
  intros H. simpl. destruct (tfind _ _ _) eqn:E.
  - destruct (acl_find_Some l ty id _ H E) as (_ & ? & _ & ?). done.
  - by apply acl_find_None.
Qed.

(** The abstract specification of the operations, over the finite map. *)
Definition spec_add (m : gmap (Z * Z) Z) (ty id perms : Z) : error_code_t * gmap (Z * Z) Z :=
  if MAX_ACL_ENTRIES <=? Z.of_nat (size m) then (ERR_OUT_OF_MEMORY, m) else (ERR_OK, <[(ty, id) := perms]> m).

Definition spec_get (m : gmap (Z * Z) Z) (ty id : Z) : error_code_t * option acl_entry_t :=
  match m !! (ty, id) with
  | Some perms => (ERR_OK, Some {| e_type := ty; e_id := id; e_perms := perms |})
  | None => (ERR_NOT_FOUND, None)
  end.

Definition spec_remove (m : gmap (Z * Z) Z) (ty id : Z) : error_code_t * gmap (Z * Z) Z :=
  match m !! (ty, id) with
  | Some _ => (ERR_OK, delete (ty, id) m)
  | None => (ERR_NOT_FOUND, m)
  end.

Definition spec_access (m : gmap (Z * Z) Z) (uid gid req : Z) : error_code_t :=
  match m !! (ACL_ENTRY_USER, uid) with
  | Some p => if has_all p req then ERR_OK else ERR_PERMISSION_DENIED
  | None =>
      let effective p := match m !! (ACL_ENTRY_MASK, 0) with Some k => Z.land p k | None => p end in
      let granted o := match o with Some p => has_all p req | None => false end in
      if (granted (effective <$> m !! (ACL_ENTRY_GROUP, gid)) ||
          granted (m !! (ACL_ENTRY_OTHER, 0%Z)))%bool
      then ERR_OK else ERR_PERMISSION_DENIED
  end.

Lemma acl_map_size l : acl_wf l -> Z.of_nat (size (acl_map l)) = entry_count l.
Proof.
  intros [[Hc _] Hu]. unfold acl_map. rewrite map_size_fmap, as_map_size, contents_length by done. lia.
Qed.

Lemma acl_get_refines_raw l ty id : acl_wf l -> acl_get_entry (Some l) ty id = spec_get (acl_map l) ty id.
Proof.
  intros H. pose proof (acl_get_entry_map l ty id H) as Hg. unfold spec_get.
  destruct (acl_get_entry (Some l) ty id) as [[] [e|]]; try done; [|by rewrite Hg].
  destruct Hg as [[= <- <-] ->]. by destruct e.
Qed.

Lemma acl_add_refines_raw l ty id perms :
  acl_wf l ->
  exists l', acl_add_entry (Some l) ty id perms = (fst (spec_add (acl_map l) ty id perms), Some l') /\
    acl_wf l' /\ acl_map l' = snd (spec_add (acl_map l) ty id perms).
Proof.
  intros Hwf. pose proof Hwf as [[Hc0 Hc1] Hu]. unfold acl_add_entry, spec_add.
  rewrite acl_map_size by done.
  destruct (Z.leb_spec MAX_ACL_ENTRIES (entry_count l)); [by exists l|].
  unfold MAX_ACL_ENTRIES in *.
  destruct (tfind _ _ _) as [i|] eqn:E; eexists; (split; [reflexivity|]); unfold acl_wf, acl_map; simpl.
  - destruct (acl_find_Some l ty id i Hwf E) as (Hi & Hk & Hl & _).
    set (e := {| e_type := _ |}). assert (Hke : entry_key e = entry_key (entries l i)) by done.
    rewrite contents_set by lia. split; [split; [done|by eapply unique_insert]|].
    rewrite (as_map_insert entry_key _ _ _ e Hu Hl Hke), fmap_insert, Hke, Hk. done.
  - destruct (acl_find_None l ty id Hwf E) as [_ Hn].
    rewrite wrap_small by fits_lia. rewrite contents_snoc by done.
    split; [split; [unfold MAX_ACL_ENTRIES; lia|by apply unique_snoc]|].
    rewrite as_map_snoc, fmap_insert by done. done.
Qed.

Lemma acl_remove_refines_raw l ty id :
  acl_wf l ->
  exists l', acl_remove_entry (Some l) ty id = (fst (spec_remove (acl_map l) ty id), Some l') /\
    acl_wf l' /\ acl_map l' = snd (spec_remove (acl_map l) ty id).
Proof.
  intros Hwf. pose proof Hwf as [[Hc0 Hc1] Hu]. unfold acl_remove_entry, spec_remove.
  unfold MAX_ACL_ENTRIES in *. destruct (tfind _ _ _) as [i|] eqn:E.
  - destruct (acl_find_Some l ty id i Hwf E) as (Hi & Hk & Hl & ->).
    eexists. split; [reflexivity|]. unfold acl_wf, acl_map; simpl.
    rewrite wrap_small by fits_lia. rewrite contents_shift by lia.
    split; [split; [unfold MAX_ACL_ENTRIES; lia|by apply unique_delete]|].
    rewrite (as_map_delete entry_key _ _ _ Hu Hl), fmap_delete, Hk. done.
  - destruct (acl_find_None l ty id Hwf E) as [-> _]. by exists l.
Qed.

Lemma acl_check_refines_raw l uid gid req :
  acl_wf l -> acl_check_access (Some l) uid gid req = spec_access (acl_map l) uid gid req.
Proof.
  intros H. unfold acl_check_access, spec_access.
  pose proof (acl_get_entry_map l ACL_ENTRY_USER uid H) as Hu.
  pose proof (acl_get_entry_map l ACL_ENTRY_GROUP gid H) as Hg.
  pose proof (acl_get_entry_map l ACL_ENTRY_MASK 0 H) as Hm.
  pose proof (acl_get_entry_map l ACL_ENTRY_OTHER 0 H) as Ho.
  destruct (acl_get_entry (Some l) ACL_ENTRY_USER uid) as [[] [?|]]; try done.
  { destruct Hu as [_ ->]. done. }
  rewrite Hu.
  destruct (acl_get_entry (Some l) ACL_ENTRY_GROUP gid) as [[] [?|]]; try done;
  destruct (acl_get_entry (Some l) ACL_ENTRY_MASK 0) as [[] [?|]]; try done;
  destruct (acl_get_entry (Some l) ACL_ENTRY_OTHER 0) as [[] [?|]]; try done;
  repeat match goal with H : _ /\ _ |- _ => destruct H end;
  repeat match goal with H : acl_map l !! _ = _ |- _ => rewrite H end; simpl;
  repeat case_if; done.
Qed.

(** ** The default list of a mode *)

Definition empty_acl : acl_t := {| entries := fun _ => zero_entry; entry_count := 0 |}.

Lemma empty_acl_wf : acl_wf empty_acl.
Proof. split; [unfold MAX_ACL_ENTRIES; simpl; lia|]. apply NoDup_nil_2. Qed.

Definition default_map (m uid gid : Z) : gmap (Z * Z) Z :=
  <[(ACL_ENTRY_OTHER, 0) := perms_of_mode m PERM_OTHER_READ PERM_OTHER_WRITE PERM_OTHER_EXECUTE]>
  (<[(ACL_ENTRY_GROUP, gid) := perms_of_mode m PERM_GROUP_READ PERM_GROUP_WRITE PERM_GROUP_EXECUTE]>
  (<[(ACL_ENTRY_USER, uid) := perms_of_mode m PERM_OWNER_READ PERM_OWNER_WRITE PERM_OWNER_EXECUTE]> ∅)).

(** One [acl_add_entry] on a list that still has room. *)
Lemma acl_add_room l ty id perms :
  acl_wf l -> entry_count l < MAX_ACL_ENTRIES ->
  exists l', snd (acl_add_entry (Some l) ty id perms) = Some l' /\ acl_wf l' /\
    acl_map l' = <[(ty, id) := perms]> (acl_map l) /\ entry_count l' <= entry_count l + 1.
Proof.
  intros H Hr. destruct (acl_add_refines_raw l ty id perms H) as (l' & Heq & Hw & Hm).
  unfold spec_add in *. rewrite acl_map_size, (proj2 (Z.leb_gt _ _)) in * by (done || lia). exists l'.
  split_and!; [by rewrite Heq|done|done|]. pose proof H as [[??] _].
  unfold acl_add_entry in Heq. rewrite (proj2 (Z.leb_gt _ _)) in Heq by lia.
  destruct (tfind _ _ _); simplify_eq; simpl; [lia|].
  rewrite wrap_small by (unfold MAX_ACL_ENTRIES in *; fits_lia). lia.
Qed.

Lemma acl_set_default_map l0 m uid gid :
  exists l, acl_set_default (Some l0) m uid gid = (ERR_OK, Some l) /\ acl_wf l /\ acl_map l = default_map m uid gid.
Proof.
  unfold acl_set_default. cbn [acl_create snd]. fold empty_acl.
  unfold default_map.
  set (po := perms_of_mode m PERM_OWNER_READ _ _). set (pg := perms_of_mode m PERM_GROUP_READ _ _).
  set (pt := perms_of_mode m PERM_OTHER_READ _ _).
  destruct (acl_add_room empty_acl ACL_ENTRY_USER uid po empty_acl_wf) as (l1 & -> & Hw1 & Hm1 & Hc1); [done|].
  destruct (acl_add_room l1 ACL_ENTRY_GROUP gid pg Hw1) as (l2 & -> & Hw2 & Hm2 & Hc2);
    [simpl in *; unfold MAX_ACL_ENTRIES; lia|].
  destruct (acl_add_room l2 ACL_ENTRY_OTHER 0 pt Hw2) as (l3 & -> & Hw3 & Hm3 & Hc3);
    [simpl in *; unfold MAX_ACL_ENTRIES; lia|].
  exists l3. split_and!; [done|done|]. rewrite Hm3, Hm2, Hm1. done.
Qed.

(** The single-bit requests and the mode bits that grant them. *)
Inductive access := Read | Write | Execute.

Definition acl_bit (x : access) : Z :=
  match x with Read => ACL_READ | Write => ACL_WRITE | Execute => ACL_EXECUTE end.
Definition mode_check (x : access) : option file_permissions_t -> Z -> Z -> bool :=
  match x with
  | Read => permissions_check_read
  | Write => permissions_check_write
  | Execute => permissions_check_execute
  end.
Definition owner_bit (x : access) : Z :=
  match x with Read => PERM_OWNER_READ | Write => PERM_OWNER_WRITE | Execute => PERM_OWNER_EXECUTE end.
Definition group_bit (x : access) : Z :=
  match x with Read => PERM_GROUP_READ | Write => PERM_GROUP_WRITE | Execute => PERM_GROUP_EXECUTE end.
Definition other_bit (x : access) : Z :=
  match x with Read => PERM_OTHER_READ | Write => PERM_OTHER_WRITE | Execute => PERM_OTHER_EXECUTE end.

Lemma perms_of_mode_bit m r w x a :
  has_all (perms_of_mode m r w x) (acl_bit a) =
  has_any m (match a with Read => r | Write => w | Execute => x end).
Proof. unfold perms_of_mode. destruct a, (has_any m r), (has_any m w), (has_any m x); reflexivity. Qed.

(** What the default list grants, in terms of mode bits. *)
Lemma default_access m owner group uid gid a :
  spec_access (default_map m owner group) uid gid (acl_bit a) =
  if (if uid =? owner then has_any m (owner_bit a)
      else ((gid =? group) && has_any m (group_bit a)) || has_any m (other_bit a))%bool
  then ERR_OK else ERR_PERMISSION_DENIED.
Proof.
  unfold spec_access.
  assert (Hu : forall po pg pt, (<[(ACL_ENTRY_OTHER, 0) := po]> (<[(ACL_ENTRY_GROUP, group) := pg]>
    (<[(ACL_ENTRY_USER, owner) := pt]> (∅ : gmap (Z * Z) Z)))) !! (ACL_ENTRY_USER, uid) =
    if uid =? owner then Some pt else None).
  { intros. rewrite !lookup_insert_ne, lookup_insert by done.
    destruct (Z.eqb_spec uid owner) as [->|]; [by rewrite decide_True|]. by rewrite decide_False by congruence. }
  assert (Hg : forall po pg pt, (<[(ACL_ENTRY_OTHER, 0) := po]> (<[(ACL_ENTRY_GROUP, group) := pg]>
    (<[(ACL_ENTRY_USER, owner) := pt]> (∅ : gmap (Z * Z) Z)))) !! (ACL_ENTRY_GROUP, gid) =
    if gid =? group then Some pg else None).
  { intros. rewrite lookup_insert_ne, lookup_insert by done.
    destruct (Z.eqb_spec gid group) as [->|]; [by rewrite decide_True|].
    rewrite decide_False by congruence. by rewrite lookup_insert_ne by done. }
  unfold default_map. rewrite Hu, Hg, lookup_insert_eq, !lookup_insert_ne, lookup_empty by done.
  destruct (uid =? owner); [rewrite perms_of_mode_bit; by destruct a|].
  destruct (gid =? group); simpl; rewrite !perms_of_mode_bit; by destruct a.
Qed.

Lemma mode_check_bits m owner group uid gid a :
  uid <> 0 ->
  mode_check a (Some {| mode := m; p_uid := owner; p_gid := group |}) uid gid =
  has_any m (if uid =? owner then owner_bit a else if gid =? group then group_bit a else other_bit a).
Proof.
  intros H. destruct a; simpl; rewrite (proj2 (Z.eqb_neq uid 0)) by done;
    by destruct (uid =? owner), (gid =? group).
Qed.

(** * Properties *)

Definition demo_acl : acl_t :=
  {| entries := fun i => if i =? 0 then {| e_type := 1; e_id := 1000; e_perms := 6 |}
                         else {| e_type := 4; e_id := 0; e_perms := 4 |};
     entry_count := 2 |}.

Lemma demo_acl_wf : acl_wf demo_acl.
Proof.
  split; [unfold MAX_ACL_ENTRIES; simpl; lia|]. apply (bool_decide_unpack _). vm_compute. done.
Qed.

(** C5. On a well-formed list (at most 32 entries, no two for one key) adding,
    removing and looking up an entry implement the update, the deletion and the
    lookup of a finite map from (type, id) to permissions, with the error codes of
    the map, and keep the list well formed: a map of 32 entries accepts no update,
    not even of a key it has, a removal leaves every other key alone, and a lookup
    hands out the entry of its key. *)
Theorem acl_update_refines l ty id perms :
  acl_wf l ->
  (exists l', acl_add_entry (Some l) ty id perms =
                (fst (spec_add (acl_map l) ty id perms), Some l') /\
     acl_wf l' /\ acl_map l' = snd (spec_add (acl_map l) ty id perms)) /\
  (exists l', acl_remove_entry (Some l) ty id = (fst (spec_remove (acl_map l) ty id), Some l') /\
     acl_wf l' /\ acl_map l' = snd (spec_remove (acl_map l) ty id)) /\
  acl_get_entry (Some l) ty id = spec_get (acl_map l) ty id.
Proof.
  intros H. split_and!; [by apply acl_add_refines_raw|by apply acl_remove_refines_raw|by apply acl_get_refines_raw].
Qed.

Lemma acl_update_refines_witness :
  exists l', acl_remove_entry (Some demo_acl) 1 1000 = (ERR_OK, Some l') /\ acl_wf l' /\
             acl_map l' = {[ (4, 0) := 4 ]}.
Proof. exact (proj1 (proj2 (acl_update_refines demo_acl 1 1000 7 demo_acl_wf))). Defined.

(** C26. On a well-formed list [acl_check_access] decides by the finite map alone:
    by the user entry if there is one; otherwise it grants when the group entry,
    masked, or the other entry has all the requested permissions: a group entry
    that refuses does not end the search. *)
Theorem acl_check_access_refines l uid gid req :
  acl_wf l -> acl_check_access (Some l) uid gid req = spec_access (acl_map l) uid gid req.
Proof. apply acl_check_refines_raw. Qed.

Lemma acl_check_access_refines_witness :
  acl_check_access (Some demo_acl) 1000 7 6 = ERR_OK /\
  spec_access (acl_map demo_acl) 1001 7 2 = ERR_PERMISSION_DENIED.
Proof.
  split; [reflexivity|]. rewrite <- (acl_check_access_refines demo_acl 1001 7 2 demo_acl_wf). reflexivity.
Defined.

(** For a non-root user the list built by [acl_set_default] grants one of
    the three accesses exactly when the mode check does, or when the user is not
    the owner, is in the owning group and the mode grants the access to others:
    there the list lets a group member use the bits meant for others, which the
    mode check refuses. *)
Theorem acl_default_vs_mode l0 m owner group uid gid a :
  uid <> 0 ->
  exists l, acl_set_default (Some l0) m owner group = (ERR_OK, Some l) /\
  (acl_check_access (Some l) uid gid (acl_bit a) = ERR_OK <->
   mode_check a (Some {| mode := m; p_uid := owner; p_gid := group |}) uid gid = true \/
   (uid <> owner /\ gid = group /\ has_any m (other_bit a) = true)).
Proof.
  intros Hroot. destruct (acl_set_default_map l0 m owner group) as (l & Heq & Hw & Hm).
  exists l. split; [done|]. rewrite acl_check_refines_raw, Hm by done.
  rewrite default_access, mode_check_bits by done.
  destruct (Z.eqb_spec uid owner) as [->|Hne].
  - destruct (has_any m (owner_bit a)); intuition congruence.
  - destruct (Z.eqb_spec gid group) as [->|Hng]; simpl.
    + destruct (has_any m (group_bit a)), (has_any m (other_bit a)); simpl; intuition congruence.
    + destruct (has_any m (other_bit a)); intuition congruence.
Qed.

Lemma acl_default_vs_mode_witness :
  exists l, acl_set_default (Some empty_acl) 4 1000 100 = (ERR_OK, Some l) /\
  (acl_check_access (Some l) 1001 100 4 = ERR_OK <->
   permissions_check_read (Some {| mode := 4; p_uid := 1000; p_gid := 100 |}) 1001 100 = true \/
   (1001 <> 1000 /\ 100 = 100 /\ has_any 4 4 = true)).
Proof. apply (acl_default_vs_mode empty_acl 4 1000 100 1001 100 Read). lia. Defined.
