(* ===== verification/VfsTypes.v ===== *)
(** * What file systems and the virtual file system share (kernel/include/fs/vfs.h)

    The modes, the types of files, what [stat] and [readdir] return, and the structure of
    a file system: its operations are pointers to functions that may be null, and they run
    on a state [F] that all file systems share.  The pointer [private_data] belongs to
    that state, and [fs_clear] sets it to null.  Paths and names are the characters of a C
    string. *)

From stdpp Require Import base tactics list numbers option.
From S2P Require Import Prelude Effect.

#[local] Open Scope Z_scope.

Definition VFS_MODE_READ : Z := 1.
Definition VFS_MODE_WRITE : Z := 2.
Definition VFS_MODE_CREATE : Z := 8.
Definition slash : Z := 47.

Inductive vfs_file_type_t := VFS_TYPE_FILE | VFS_TYPE_DIRECTORY | VFS_TYPE_SYMLINK | VFS_TYPE_DEVICE | VFS_TYPE_UNKNOWN.

Record vfs_stat_t := { st_ino : Z; st_type : vfs_file_type_t; st_size : Z; st_mode : Z; st_uid : Z; st_gid : Z; atime : Z; mtime : Z; ctime : Z }.

Record vfs_dirent_t := { ino : Z; d_name : list Z; d_type : vfs_file_type_t }.

(** [open] gets and gives back the descriptor, to which it has a pointer, and gives the
    file data; [tell] does so with the position. *)
Record vfs_filesystem_t (F : Type) := {
  fs_name : list Z;
  fs_mount : option (list Z -> list Z -> Effect.M F error_code_t);
  fs_unmount : option (Effect.M F error_code_t);
  fs_open : option (list Z -> Z -> Z -> Effect.M F (error_code_t * Z * Z));
  fs_close : option (Z -> Effect.M F error_code_t);
  fs_read : option (Z -> Z -> Effect.M F (error_code_t * list Z));
  fs_write : option (Z -> list Z -> Effect.M F (error_code_t * Z));
  fs_seek : option (Z -> Z -> Z -> Effect.M F error_code_t);
  fs_tell : option (Z -> Z -> Effect.M F (error_code_t * Z));
  fs_mkdir : option (list Z -> Effect.M F error_code_t);
  fs_rmdir : option (list Z -> Effect.M F error_code_t);
  fs_opendir : option (list Z -> Effect.M F (error_code_t * Z));
  fs_readdir : option (Z -> Effect.M F (error_code_t * option vfs_dirent_t));
  fs_closedir : option (Z -> Effect.M F error_code_t);
  fs_unlink : option (list Z -> Effect.M F error_code_t);
  fs_rename : option (list Z -> list Z -> Effect.M F error_code_t);
  fs_stat : option (list Z -> Effect.M F (error_code_t * option vfs_stat_t));
  fs_clear : F -> F;
  fs_next : Z
}.
Arguments fs_name {F} _.
Arguments fs_mount {F} _.
Arguments fs_unmount {F} _.
Arguments fs_open {F} _.
Arguments fs_close {F} _.
Arguments fs_read {F} _.
Arguments fs_write {F} _.
Arguments fs_seek {F} _.
Arguments fs_tell {F} _.
Arguments fs_mkdir {F} _.
Arguments fs_rmdir {F} _.
Arguments fs_opendir {F} _.
Arguments fs_readdir {F} _.
Arguments fs_closedir {F} _.
Arguments fs_unlink {F} _.
Arguments fs_rename {F} _.
Arguments fs_stat {F} _.
Arguments fs_clear {F} _.
Arguments fs_next {F} _.
