(* ===== verification/Vfs.v ===== *)
(** * The virtual file system (kernel/fs/vfs.c)

    The list of file systems, the list of mount points and the table of 256 descriptors.

    The structures of file systems and mount points live at addresses.  [kmalloc] is an
    argument of [vfs_mount]: the address of the mount structure, 0 for null, and whether
    there is memory for the copy of the path.  The pointers through which callers receive
    results are not null. *)

From stdpp Require Import base tactics list numbers option gmap.
From Stdlib Require Import Lia ZifyBool.
From S2P Require Import Prelude Effect Bytes Linked Acl VfsTypes.

#[local] Open Scope Z_scope.

Definition MAX_FDS : Z := 256.

Record vfs_mount_t := { mountpoint : list Z; m_fs : Z; m_next : Z }.

Record fd_entry_t := { used : bool; fd_fs : Z; file_data : Z; fd_position : Z; fd_flags : Z }.

Definition no_fd : fd_entry_t := {| used := false; fd_fs := 0; file_data := 0; fd_position := 0; fd_flags := 0 |}.

Record vfs (F : Type) := {
  world : F; systems : gmap Z (vfs_filesystem_t F); filesystems : Z; mounts : gmap Z vfs_mount_t; mount_points : Z; root_mount : Z; fd_table : arr fd_entry_t
}.
Arguments world {F} _.
Arguments systems {F} _.
Arguments filesystems {F} _.
Arguments mounts {F} _.
Arguments mount_points {F} _.
Arguments root_mount {F} _.
Arguments fd_table {F} _.

Section vfs.
  Context {F : Type}.

#[local] Abbreviation M := (Effect.M (vfs F)).
#[local] Open Scope effect_scope.

Definition set_world (s : vfs F) (w : F) : vfs F :=
  {| world := w; systems := systems s; filesystems := filesystems s; mounts := mounts s; mount_points := mount_points s; root_mount := root_mount s; fd_table := fd_table s |}.
Definition set_systems (m : gmap Z (vfs_filesystem_t F)) (head : Z) (s : vfs F) : vfs F :=
  {| world := world s; systems := m; filesystems := head; mounts := mounts s; mount_points := mount_points s; root_mount := root_mount s; fd_table := fd_table s |}.
Definition set_mounts (m : gmap Z vfs_mount_t) (head root : Z) (s : vfs F) : vfs F :=
  {| world := world s; systems := systems s; filesystems := filesystems s; mounts := m; mount_points := head; root_mount := root; fd_table := fd_table s |}.
Definition set_fds (t : arr fd_entry_t) (s : vfs F) : vfs F :=
  {| world := world s; systems := systems s; filesystems := filesystems s; mounts := mounts s; mount_points := mount_points s; root_mount := root_mount s; fd_table := t |}.

Definition on_world {A} (m : Effect.M F A) : M A := fun s =>
  match m (world s) with Ret a w => Ret a (set_world s w) | Fault => Fault | Deadlock => Deadlock | Panic => Panic | NoFuel => NoFuel end.

Definition system_at (p : Z) : M (vfs_filesystem_t F) := fun s => match systems s !! p with Some f => Ret f s | None => Fault end.
Definition mount_at (p : Z) : M vfs_mount_t := fun s => match mounts s !! p with Some m => Ret m s | None => Fault end.

Definition with_fs_next (n : Z) (f : vfs_filesystem_t F) : vfs_filesystem_t F :=
  {| fs_name := fs_name f; fs_mount := fs_mount f; fs_unmount := fs_unmount f; fs_open := fs_open f; fs_close := fs_close f; fs_read := fs_read f; fs_write := fs_write f;
     fs_seek := fs_seek f; fs_tell := fs_tell f; fs_mkdir := fs_mkdir f; fs_rmdir := fs_rmdir f; fs_opendir := fs_opendir f; fs_readdir := fs_readdir f;
     fs_closedir := fs_closedir f; fs_unlink := fs_unlink f; fs_rename := fs_rename f; fs_stat := fs_stat f; fs_clear := fs_clear f; fs_next := n |}.
Definition with_m_next (n : Z) (m : vfs_mount_t) : vfs_mount_t := {| mountpoint := mountpoint m; m_fs := m_fs m; m_next := n |}.

(** ** File systems *)

Definition vfs_init : M error_code_t := modify (fun s => set_fds (fun _ => no_fd) (set_mounts (mounts s) 0 0 (set_systems (systems s) 0 s)));;; ret ERR_OK.

(** The file system of a name and the one before it in the list, 0 if there is none. *)
Fixpoint find_loop (fuel : nat) (n : list Z) (prev p : Z) : M (Z * Z) :=
  match fuel with
  | O => stop NoFuel
  | S fuel => if p =? 0 then ret (prev, 0) else f <~ system_at p;; if bool_decide (fs_name f = n) then ret (prev, p) else find_loop fuel n p (fs_next f)
  end.

Definition find_named (n : list Z) : M (Z * Z) := fuel <~ get (fun s => S (size (systems s)));; head <~ get filesystems;; find_loop fuel n 0 head.

Definition vfs_register_filesystem (fs : Z) : M error_code_t :=
  if fs =? 0 then ret ERR_INVALID_ARG
  else
    f <~ system_at fs;;
    existing <~ find_named (fs_name f);;
    if negb (snd existing =? 0) then ret ERR_ALREADY_EXISTS
    else
      modify (fun s => set_systems (<[fs := with_fs_next (filesystems s) f]> (systems s)) fs (set_world s (fs_clear f (world s))));;;
      ret ERR_OK.

Definition vfs_unregister_filesystem (n : list Z) : M error_code_t :=
  r <~ find_named n;;
  let '(prev, current) := r in
  if current =? 0 then ret ERR_NOT_FOUND
  else
    f <~ system_at current;;
    (if prev =? 0 then modify (fun s => set_systems (systems s) (fs_next f) s)
     else g <~ system_at prev;; modify (fun s => set_systems (<[prev := with_fs_next (fs_next f) g]> (systems s)) (filesystems s) s));;;
    ret ERR_OK.

Definition find_filesystem (n : list Z) : M Z := r <~ find_named n;; ret (snd r).

(** ** Mount points *)

(** The last mount point of the list. *)
Fixpoint tail_loop (fuel : nat) (p : Z) : M Z :=
  match fuel with
  | O => stop NoFuel
  | S fuel => m <~ mount_at p;; if m_next m =? 0 then ret p else tail_loop fuel (m_next m)
  end.

(** A mount point at the end of the list. *)
Definition append_mount (new_mount : Z) (m : vfs_mount_t) : M unit :=
  modify (fun s => set_mounts (<[new_mount := m]> (mounts s)) (mount_points s) (root_mount s) s);;;
  head <~ get mount_points;;
  if head =? 0 then modify (fun s => set_mounts (mounts s) new_mount (root_mount s) s)
  else
    fuel <~ get (fun s => S (size (mounts s)));;
    tail <~ tail_loop fuel head;;
    m <~ mount_at tail;;
    modify (fun s => set_mounts (<[tail := with_m_next new_mount m]> (mounts s)) (mount_points s) (root_mount s) s).

Definition vfs_mount (device mp fstype : list Z) (new_mount : Z) (copied : bool) : M error_code_t :=
  fs <~ find_filesystem fstype;;
  if fs =? 0 then ret ERR_NOT_FOUND
  else if new_mount =? 0 then ret ERR_OUT_OF_MEMORY
  else if negb copied then ret ERR_OUT_OF_MEMORY
  else
    f <~ system_at fs;;
    err <~ (match fs_mount f with Some g => on_world (g device mp) | None => ret ERR_OK end);;
    if negb (bool_decide (err = ERR_OK)) then ret err
    else
      append_mount new_mount {| mountpoint := mp; m_fs := fs; m_next := 0 |};;;
      (if bool_decide (mp = [slash]) then modify (fun s => set_mounts (mounts s) (mount_points s) new_mount s) else ret tt);;;
      ret ERR_OK.

(** The mount point covers the path: it is a prefix that ends with a component. *)
Definition covers (path mp : list Z) : bool :=
  bool_decide (take (length mp) path = mp) &&
  ((nth (length mp) path 0 =? slash) || (nth (length mp) path 0 =? 0) || ((length mp =? 1)%nat && (nth 0 mp 0 =? slash))).

(** The mount points from [p] on; [best] has the longest path so far. *)
Fixpoint resolve_loop (fuel : nat) (path : list Z) (p best : Z) (best_len : nat) : M (Z * nat) :=
  match fuel with
  | O => stop NoFuel
  | S fuel =>
      if p =? 0 then ret (best, best_len)
      else
        m <~ mount_at p;;
        let n := length (mountpoint m) in
        if covers path (mountpoint m) && ((best_len <? n)%nat || ((n =? 1)%nat && (best_len =? 0)%nat)) then resolve_loop fuel path (m_next m) p n
        else resolve_loop fuel path (m_next m) best best_len
  end.

(** What follows the mount point, without the slash and at most 255 characters of it. *)
Definition relative (path : list Z) (n : nat) : list Z :=
  let rel := drop n path in take 255 (if nth 0 rel 0 =? slash then tail rel else rel).

Definition vfs_resolve_path (path : list Z) : M (error_code_t * Z * list Z) :=
  fuel <~ get (fun s => S (size (mounts s)));;
  head <~ get mount_points;;
  r <~ resolve_loop fuel path head 0 0;;
  let '(best, best_len) := r in
  if best =? 0 then
    root <~ get root_mount;;
    if negb (root =? 0) && (nth 0 path 0 =? slash) then ret (ERR_OK, root, relative path 1) else ret (ERR_NOT_FOUND, 0, [])
  else ret (ERR_OK, best, relative path best_len).

(** The mount point before [p] is [prev]. *)
Fixpoint unmount_loop (fuel : nat) (mp : list Z) (prev p : Z) : M error_code_t :=
  match fuel with
  | O => stop NoFuel
  | S fuel =>
      if p =? 0 then ret ERR_NOT_FOUND
      else
        m <~ mount_at p;;
        if bool_decide (mountpoint m = mp) then
          (if m_fs m =? 0 then ret tt
           else f <~ system_at (m_fs m);; match fs_unmount f with Some g => on_world g;;; ret tt | None => ret tt end);;;
          (if prev =? 0 then modify (fun s => set_mounts (mounts s) (m_next m) (root_mount s) s)
           else q <~ mount_at prev;; modify (fun s => set_mounts (<[prev := with_m_next (m_next m) q]> (mounts s)) (mount_points s) (root_mount s) s));;;
          modify (fun s => set_mounts (delete p (mounts s)) (mount_points s) (if root_mount s =? p then mount_points s else root_mount s) s);;;
          ret ERR_OK
        else unmount_loop fuel mp p (m_next m)
  end.

Definition vfs_unmount (mp : list Z) : M error_code_t := fuel <~ get (fun s => S (size (mounts s)));; head <~ get mount_points;; unmount_loop fuel mp 0 head.

(** ** Descriptors *)

Definition allocate_fd : M Z :=
  t <~ get fd_table;;
  match find_first (fun i => negb (used (t i))) 0 (Z.to_nat MAX_FDS) with
  | None => ret (-1)
  | Some i =>
      let e := t i in
      modify (set_fds (t.[i <- {| used := true; fd_fs := fd_fs e; file_data := file_data e; fd_position := fd_position e; fd_flags := fd_flags e |}]));;; ret i
  end.

Definition free_fd (fd : Z) : M unit :=
  if (0 <=? fd) && (fd <? MAX_FDS) then
    modify (fun s => let e := fd_table s fd in
      set_fds ((fd_table s).[fd <- {| used := false; fd_fs := 0; file_data := 0; fd_position := fd_position e; fd_flags := fd_flags e |}]) s)
  else ret tt.

(** A store to the entry of a descriptor. *)
Definition set_fd (fd : Z) (f : fd_entry_t -> fd_entry_t) : M unit :=
  if (0 <=? fd) && (fd <? MAX_FDS) then modify (fun s => set_fds ((fd_table s).[fd <- f (fd_table s fd)]) s) else stop Fault.

(** Whether the file's mode lets the user open it with these flags. *)
Definition access_allowed (flags uid gid : Z) (st : vfs_stat_t) : bool :=
  let perms := {| mode := Z.land (st_mode st) 0x0FFF; p_uid := u32 (st_uid st); p_gid := u32 (st_gid st) |} in
  (negb (has_any flags VFS_MODE_READ) || permissions_check_read (Some perms) uid gid) && (negb (has_any flags VFS_MODE_WRITE) || permissions_check_write (Some perms) uid gid).

(** [uid] and [gid] are those of the current user. *)
Definition vfs_open (uid gid : Z) (path : list Z) (flags : Z) : M (error_code_t * Z) :=
  r <~ vfs_resolve_path path;;
  let '(err, mount, resolved) := r in
  if negb (bool_decide (err = ERR_OK)) || (mount =? 0) then ret (ERR_NOT_FOUND, 0)
  else
    m <~ mount_at mount;;
    if m_fs m =? 0 then ret (ERR_NOT_FOUND, 0)
    else
      new_fd <~ allocate_fd;;
      if new_fd <? 0 then ret (ERR_OUT_OF_MEMORY, 0)
      else
        f <~ system_at (m_fs m);;
        st <~ (match fs_stat f with Some g => on_world (g resolved) | None => ret (ERR_NOT_SUPPORTED, None) end);;
        let denied := match st with (ERR_OK, Some x) => negb (access_allowed flags uid gid x) | _ => false end in
        if denied then free_fd new_fd;;; ret (ERR_PERMISSION_DENIED, 0)
        else
          o <~ (match fs_open f with Some g => on_world (g resolved flags new_fd) | None => ret (ERR_OK, new_fd, 0) end);;
          let '(err, new_fd, data) := o in
          if negb (bool_decide (err = ERR_OK)) then free_fd new_fd;;; ret (err, 0)
          else
            set_fd new_fd (fun e => {| used := used e; fd_fs := m_fs m; file_data := match fs_open f with Some _ => data | None => file_data e end; fd_position := 0; fd_flags := flags |});;;
            ret (ERR_OK, new_fd).

Definition bad_fd (fd : Z) : M bool := t <~ get fd_table;; ret ((fd <? 0) || (MAX_FDS <=? fd) || negb (used (t fd))).

(** The file system of an open descriptor, if it has the operation [op]. *)
Definition fd_op {A} (fd : Z) (op : vfs_filesystem_t F -> option A) : M (option A) :=
  t <~ get fd_table;;
  if fd_fs (t fd) =? 0 then ret None else f <~ system_at (fd_fs (t fd));; ret (op f).

Definition vfs_close (fd : Z) : M error_code_t :=
  bad <~ bad_fd fd;;
  if bad then ret ERR_INVALID_ARG
  else
    g <~ fd_op fd fs_close;;
    (match g with Some g => on_world (g fd);;; ret tt | None => ret tt end);;;
    free_fd fd;;; ret ERR_OK.

Definition move_position (fd n : Z) : M unit :=
  set_fd fd (fun e => {| used := used e; fd_fs := fd_fs e; file_data := file_data e; fd_position := u64 (fd_position e + n); fd_flags := fd_flags e |}).

Definition vfs_read (fd count : Z) : M (error_code_t * list Z) :=
  bad <~ bad_fd fd;;
  if bad then ret (ERR_INVALID_ARG, [])
  else
    g <~ fd_op fd fs_read;;
    match g with
    | None => ret (ERR_NOT_SUPPORTED, [])
    | Some g =>
        r <~ on_world (g fd count);;
        (if bool_decide (fst r = ERR_OK) then move_position fd (Z.of_nat (length (snd r))) else ret tt);;; ret r
    end.

Definition vfs_write (fd : Z) (src : list Z) : M (error_code_t * Z) :=
  bad <~ bad_fd fd;;
  if bad then ret (ERR_INVALID_ARG, 0)
  else
    g <~ fd_op fd fs_write;;
    match g with
    | None => ret (ERR_NOT_SUPPORTED, 0)
    | Some g =>
        t <~ get fd_table;;
        if negb (has_any (fd_flags (t fd)) VFS_MODE_WRITE) then ret (ERR_PERMISSION_DENIED, 0)
        else r <~ on_world (g fd src);; (if bool_decide (fst r = ERR_OK) then move_position fd (snd r) else ret tt);;; ret r
    end.

Definition vfs_seek (fd offset whence : Z) : M error_code_t :=
  bad <~ bad_fd fd;;
  if bad then ret ERR_INVALID_ARG
  else
    g <~ fd_op fd fs_seek;;
    match g with
    | None => ret ERR_NOT_SUPPORTED
    | Some g =>
        err <~ on_world (g fd offset whence);;
        (if bool_decide (err = ERR_OK) then
           h <~ fd_op fd fs_tell;;
           match h with
           | None => ret tt
           | Some h =>
               t <~ get fd_table;;
               p <~ on_world (h fd (fd_position (t fd)));;
               set_fd fd (fun e => {| used := used e; fd_fs := fd_fs e; file_data := file_data e; fd_position := snd p; fd_flags := fd_flags e |})
           end
         else ret tt);;;
        ret err
    end.

Definition vfs_tell (fd : Z) : M (error_code_t * Z) :=
  bad <~ bad_fd fd;; if bad then ret (ERR_INVALID_ARG, 0) else t <~ get fd_table;; ret (ERR_OK, fd_position (t fd)).

(** ** Operations on paths *)

(** The file system that a path leads to and the path there. *)
Definition at_path (path : list Z) : M (Z * vfs_filesystem_t F * list Z + error_code_t) :=
  r <~ vfs_resolve_path path;;
  let '(err, mount, resolved) := r in
  if negb (bool_decide (err = ERR_OK)) then ret (inr err)
  else if mount =? 0 then ret (inr ERR_NOT_FOUND)
  else m <~ mount_at mount;; if m_fs m =? 0 then ret (inr ERR_NOT_FOUND) else f <~ system_at (m_fs m);; ret (inl (mount, f, resolved)).

(** One call of an operation with the path. *)
Definition path_call (op : vfs_filesystem_t F -> option (list Z -> Effect.M F error_code_t)) (path : list Z) : M error_code_t :=
  r <~ at_path path;;
  match r with
  | inr err => ret err
  | inl (_, f, resolved) => match op f with None => ret ERR_NOT_SUPPORTED | Some g => on_world (g resolved) end
  end.

Definition vfs_mkdir (path : list Z) : M error_code_t := path_call fs_mkdir path.
Definition vfs_rmdir (path : list Z) : M error_code_t := path_call fs_rmdir path.
Definition vfs_unlink (path : list Z) : M error_code_t := path_call fs_unlink path.

Definition vfs_stat (path : list Z) : M (error_code_t * option vfs_stat_t) :=
  r <~ at_path path;;
  match r with
  | inr err => ret (err, None)
  | inl (_, f, resolved) => match fs_stat f with None => ret (ERR_NOT_SUPPORTED, None) | Some g => on_world (g resolved) end
  end.

Definition vfs_rename (oldpath newpath : list Z) : M error_code_t :=
  r <~ at_path oldpath;;
  match r with
  | inr err => ret err
  | inl (mount, f, old) =>
      q <~ vfs_resolve_path newpath;;
      let '(err, mount2, new) := q in
      if negb (bool_decide (err = ERR_OK)) then ret err
      else if negb (mount =? mount2) then ret ERR_NOT_SUPPORTED
      else match fs_rename f with None => ret ERR_NOT_SUPPORTED | Some g => on_world (g old new) end
  end.

(** ** Directories *)

Definition vfs_opendir (path : list Z) : M (error_code_t * Z) :=
  r <~ at_path path;;
  match r with
  | inr err => ret (err, 0)
  | inl (mount, f, resolved) =>
      match fs_opendir f with
      | None => ret (ERR_NOT_SUPPORTED, 0)
      | Some g =>
          new_fd <~ allocate_fd;;
          if new_fd <? 0 then ret (ERR_OUT_OF_MEMORY, 0)
          else
            d <~ on_world (g resolved);;
            if negb (bool_decide (fst d = ERR_OK)) then free_fd new_fd;;; ret (fst d, 0)
            else
              m <~ mount_at mount;;
              set_fd new_fd (fun _ => {| used := true; fd_fs := m_fs m; file_data := snd d; fd_position := 0; fd_flags := 0 |});;;
              ret (ERR_OK, new_fd)
      end
  end.

(** The operation of the file system of a directory, with the handle that it gave. *)
Definition dir_op {A} (fd : Z) (op : vfs_filesystem_t F -> option (Z -> A)) : M (option A) :=
  bad <~ bad_fd fd;;
  if bad then ret None else g <~ fd_op fd op;; t <~ get fd_table;; ret ((fun h => h (file_data (t fd))) <$> g).

Definition vfs_readdir (fd : Z) : M (error_code_t * option vfs_dirent_t) :=
  g <~ dir_op fd fs_readdir;; match g with None => ret (ERR_INVALID_ARG, None) | Some g => on_world g end.

Definition vfs_closedir (fd : Z) : M error_code_t :=
  g <~ dir_op fd fs_closedir;; match g with None => ret ERR_INVALID_ARG | Some g => err <~ on_world g;; free_fd fd;;; ret err end.

Definition vfs_get_file_data (fd : Z) : M Z := bad <~ bad_fd fd;; if bad then ret 0 else t <~ get fd_table;; ret (file_data (t fd)).
Definition vfs_get_position (fd : Z) : M Z := bad <~ bad_fd fd;; if bad then ret 0 else t <~ get fd_table;; ret (fd_position (t fd)).

End vfs.

(** ** Searching the lists *)

(** The first address of [l] with the property and the one before it. *)
Fixpoint locate (P : Z -> bool) (prev : Z) (l : list Z) : Z * Z :=
  match l with [] => (prev, 0) | q :: l => if P q then (prev, q) else locate P q l end.

Lemma locate_spec P l : forall prev, Forall (fun q => q <> 0) l ->
  (snd (locate P prev l) = 0 /\ Forall (fun q => P q = false) l) \/
  exists l1 q l2, l = l1 ++ q :: l2 /\ P q = true /\ Forall (fun q => P q = false) l1 /\ locate P prev l = (default prev (last l1), q).
Proof.
  induction l as [|x l IH]; intros prev H; [by left|]. apply Forall_cons_1 in H as [Hx H]. cbn [locate]. destruct (P x) eqn:Hp; [right; by exists [], x, l|].
  destruct (IH x H) as [[Hz Hn]|(l1 & q & l2 & -> & Hq & Hl1 & E)]; [left; split; [done|by constructor]|]. right. exists (x :: l1), q, l2. split; [done|]. split; [done|]. split; [by constructor|].
  rewrite E. destruct l1 as [|y l1]; [done|]. rewrite last_cons_cons. destruct (last (y :: l1)) eqn:Hl; [done|]. by apply last_None in Hl.
Qed.

(** The longest mount point of [l] that covers the path, the first one of that length;
    [best] and [n] stand for those before. *)
Fixpoint pick (mp : Z -> list Z) (path : list Z) (best : Z) (n : nat) (l : list Z) : Z * nat :=
  match l with
  | [] => (best, n)
  | q :: l => if covers path (mp q) && (n <? length (mp q))%nat then pick mp path q (length (mp q)) l else pick mp path best n l
  end.

Lemma pick_spec mp path l : forall best n, let r := pick mp path best n l in
  (n <= snd r)%nat /\ Forall (fun q => covers path (mp q) = true -> (length (mp q) <= snd r)%nat) l /\
  (r = (best, n) \/ fst r ∈ l /\ covers path (mp (fst r)) = true /\ snd r = length (mp (fst r))).
Proof.
  induction l as [|q l IH]; intros best n; cbn [pick]; [split; [done|]; split; [constructor|by left]|].
  destruct (covers path (mp q)) eqn:Hc; cbn [andb]; [destruct (Nat.ltb_spec n (length (mp q))) as [Hlt|Hge]|].
  - destruct (IH q (length (mp q))) as (H1 & H2 & H3). split; [cbn zeta in *; lia|]. split; [constructor; [done|done]|]. right. destruct H3 as [E|(Hin & H3)]; [rewrite E; split; [left|done]|split; [by right|done]].
  - destruct (IH best n) as (H1 & H2 & H3). split; [done|]. split; [constructor; [cbn zeta in *; lia|done]|]. destruct H3 as [E|(Hin & H3)]; [by left|right; split; [by right|done]].
  - destruct (IH best n) as (H1 & H2 & H3). split; [done|]. split; [constructor; [congruence|done]|]. destruct H3 as [E|(Hin & H3)]; [by left|right; split; [by right|done]].
Qed.

Section invariant.
  Context {F : Type}.

#[local] Abbreviation st := (vfs F).
#[local] Open Scope effect_scope.

(** ** What file systems promise

    The operations return, and [open] leaves the descriptor as it is. *)

Definition returns {A} (m : Effect.M F A) : Prop := forall w, runs m (fun _ _ => True) w.

Record well_behaved (f : vfs_filesystem_t F) : Prop := {
  wb_mount : forall g d m, fs_mount f = Some g -> returns (g d m);
  wb_unmount : forall g, fs_unmount f = Some g -> returns g;
  wb_open : forall g p fl fd w, fs_open f = Some g -> runs (g p fl fd) (fun r _ => snd (fst r) = fd) w;
  wb_close : forall g fd, fs_close f = Some g -> returns (g fd);
  wb_read : forall g fd n, fs_read f = Some g -> returns (g fd n);
  wb_write : forall g fd xs, fs_write f = Some g -> returns (g fd xs);
  wb_seek : forall g fd o w, fs_seek f = Some g -> returns (g fd o w);
  wb_tell : forall g fd p, fs_tell f = Some g -> returns (g fd p);
  wb_mkdir : forall g p, fs_mkdir f = Some g -> returns (g p);
  wb_rmdir : forall g p, fs_rmdir f = Some g -> returns (g p);
  wb_opendir : forall g p, fs_opendir f = Some g -> returns (g p);
  wb_readdir : forall g fd, fs_readdir f = Some g -> returns (g fd);
  wb_closedir : forall g fd, fs_closedir f = Some g -> returns (g fd);
  wb_unlink : forall g p, fs_unlink f = Some g -> returns (g p);
  wb_rename : forall g p q, fs_rename f = Some g -> returns (g p q);
  wb_stat : forall g p, fs_stat f = Some g -> returns (g p)
}.

Lemma with_fs_next_behaved n f : well_behaved f -> well_behaved (with_fs_next n f).
Proof. by intros []. Qed.

(** ** The invariant *)

Definition fd_ok (s : st) (e : fd_entry_t) : Prop := if used e then fd_fs e <> 0 /\ is_Some (systems s !! fd_fs e) else fd_fs e = 0.

Record vfs_inv (s : st) : Prop := {
  inv_systems : exists fl, linked fs_next (systems s) (filesystems s) fl;
  inv_behaved : forall p f, systems s !! p = Some f -> well_behaved f;
  inv_mounts : exists ml, linked m_next (mounts s) (mount_points s) ml /\ (root_mount s = 0 \/ root_mount s ∈ ml);
  inv_fs : forall p m, mounts s !! p = Some m -> m_fs m <> 0 /\ is_Some (systems s !! m_fs m);
  inv_fds : forall i, 0 <= i < MAX_FDS -> fd_ok s (fd_table s i)
}.

Lemma inv_world s w : vfs_inv s -> vfs_inv (set_world s w).
Proof. by intros []. Qed.

Lemma inv_set_fd s fd e : vfs_inv s -> fd_ok s e -> vfs_inv (set_fds ((fd_table s).[fd <- e]) s).
Proof. intros [H1 H2 H3 H4 H5] He. split; try done. intros i Hi. cbn [fd_table set_fds]. destruct (decide (i = fd)) as [->|Hne]; [by rewrite aset_eq|rewrite aset_ne by done; by apply H5]. Qed.

(** The map of file systems keeps its addresses. *)
Lemma inv_set_systems s m head fl : vfs_inv s -> linked fs_next m head fl -> (forall p, is_Some (systems s !! p) -> is_Some (m !! p)) -> (forall p f, m !! p = Some f -> well_behaved f) -> vfs_inv (set_systems m head s).
Proof.
  intros [H1 H2 H3 H4 H5] Hl Hm Hf. split; [by exists fl|exact Hf|exact H3| |].
  - intros p x Hx. destruct (H4 p x Hx) as [Hne Hs]. split; [done|by apply Hm].
  - intros i Hi. specialize (H5 i Hi). unfold fd_ok in *. cbn [fd_table set_systems systems]. destruct (used (fd_table s i)); [|done]. destruct H5 as [Hne Hs]. split; [done|by apply Hm].
Qed.

Lemma inv_relink s p f n head fl : vfs_inv s -> systems s !! p = Some f -> linked fs_next (<[p := with_fs_next n f]> (systems s)) head fl -> vfs_inv (set_systems (<[p := with_fs_next n f]> (systems s)) head s).
Proof.
  intros Hi Hf Hl. apply (inv_set_systems s _ _ fl); [done|done|intros q Hq; by apply lookup_insert_is_Some'; right|].
  intros q g. destruct (decide (q = p)) as [->|Hq]; [rewrite lookup_insert_eq; intros [= <-]; apply with_fs_next_behaved; by eapply (inv_behaved _ Hi)|rewrite lookup_insert_ne by done; apply (inv_behaved _ Hi)].
Qed.

Lemma inv_set_mounts s m head root ml : vfs_inv s -> linked m_next m head ml -> root = 0 \/ root ∈ ml -> (forall p x, m !! p = Some x -> m_fs x <> 0 /\ is_Some (systems s !! m_fs x)) -> vfs_inv (set_mounts m head root s).
Proof. intros [H1 H2 H3 H4 H5] Hl Hr Hm. split; [exact H1|exact H2|by exists ml|exact Hm|exact H5]. Qed.

Lemma on_world_runs {A} (m : Effect.M F A) (P : A -> Prop) (s : st) : vfs_inv s -> runs m (fun a _ => P a) (world s) -> runs (on_world m) (fun a s' => P a /\ vfs_inv s' /\ exists w, s' = set_world s w) s.
Proof. intros Hi (a & w & E & Hp). exists a, (set_world s w). split; [unfold on_world; by rewrite E|]. split; [done|]. split; [by apply inv_world|by exists w]. Qed.

Lemma on_world_returns {A} (m : Effect.M F A) (s : st) : vfs_inv s -> returns m -> runs (on_world m) (fun _ s' => vfs_inv s' /\ exists w, s' = set_world s w) s.
Proof. intros Hi Hm. eapply runs_mono; [apply (on_world_runs m (fun _ => True)); [done|apply Hm]|]. intros a s' (_ & H). exact H. Qed.

(** ** File systems *)

Lemma find_loop_run n l : forall fuel prev p (s : st), (length l < fuel)%nat -> linked fs_next (systems s) p l ->
  find_loop fuel n prev p s = Ret (locate (fun q => bool_decide (fs_name <$> systems s !! q = Some n)) prev l) s.
Proof.
  induction l as [|q l IH]; intros [|fuel] prev p s Hf; cbn [linked find_loop locate length] in *; try lia; [by intros ->|]. intros (-> & Hq & f & Hlook & Hl).
  rewrite (proj2 (Z.eqb_neq q 0) Hq). erewrite bind_run by (unfold system_at; by rewrite Hlook). rewrite Hlook. cbn [fmap option_fmap option_map].
  destruct (decide (fs_name f = n)) as [->|Hn]; [by rewrite !bool_decide_true|]. rewrite !bool_decide_false by (done || by intros [= ?]). apply IH; [lia|done].
Qed.

Lemma find_named_run n (s : st) fl : linked fs_next (systems s) (filesystems s) fl ->
  find_named n s = Ret (locate (fun q => bool_decide (fs_name <$> systems s !! q = Some n)) 0 fl) s.
Proof. intros Hl. unfold find_named. do 2 erewrite bind_run by reflexivity. apply find_loop_run; [|done]. apply linked_length in Hl. lia. Qed.

Lemma linked_nonzero {A} (next : A -> Z) m p l : linked next m p l -> Forall (fun q => q <> 0) l.
Proof. intros H. apply Forall_forall. intros q Hq. by eapply linked_elem. Qed.

Lemma register_inv s fs : vfs_inv s -> fs = 0 \/ is_Some (systems s !! fs) -> runs (vfs_register_filesystem fs) (fun _ s' => vfs_inv s') s.
Proof.
  intros Hi Hfs. unfold vfs_register_filesystem. destruct (Z.eqb_spec fs 0) as [|Hne]; [by apply runs_ret|]. destruct Hfs as [?|[f Hf]]; [done|].
  eapply runs_step; [unfold system_at; by rewrite Hf|]. destruct (inv_systems _ Hi) as [fl Hl]. eapply runs_step; [by apply (find_named_run _ _ fl)|].
  destruct (locate_spec (fun q => bool_decide (fs_name <$> systems s !! q = Some (fs_name f))) fl 0) as [[Hz Hn]|(l1 & q & l2 & -> & _ & _ & ->)]; [by eapply linked_nonzero| |].
  - rewrite Hz. cbn [negb Z.eqb]. eapply runs_step; [reflexivity|]. apply runs_ret.
    apply (inv_relink (set_world s (fs_clear f (world s))) _ _ _ _ (fs :: fl)); [by apply inv_world|done|]; cbn [systems set_world filesystems].
    cbn [linked]. split; [done|]. split; [done|]. eexists. rewrite lookup_insert_eq. split; [done|]. cbn [fs_next with_fs_next]. apply linked_insert; [|done].
    intros Hin. rewrite Forall_forall in Hn. specialize (Hn fs Hin). rewrite Hf in Hn. cbn [fmap option_fmap option_map] in Hn. by rewrite bool_decide_true in Hn.
  - assert (q <> 0) by (eapply linked_elem; [exact Hl|apply elem_of_app; right; left]). cbn [snd]. rewrite (proj2 (Z.eqb_neq q 0)) by done. by apply runs_ret.
Qed.

(** The last node of the part before another one. *)
Lemma linked_before {A} (next : A -> Z) m p l1 q l2 : linked next m p (l1 ++ q :: l2) -> match last l1 with None => l1 = [] /\ p = q | Some prev => exists l0, l1 = l0 ++ [prev] /\ linked next m p (l0 ++ prev :: q :: l2) end.
Proof.
  intros H. destruct (last l1) as [prev|] eqn:E.
  - apply last_Some in E as (l0 & ->). exists l0. split; [done|]. by rewrite <- app_assoc in H.
  - apply last_None in E as ->. split; [done|]. by destruct H as [-> _].
Qed.

Lemma unregister_inv s n : vfs_inv s -> runs (vfs_unregister_filesystem n) (fun _ s' => vfs_inv s') s.
Proof.
  intros Hi. unfold vfs_unregister_filesystem. destruct (inv_systems _ Hi) as [fl Hl]. eapply runs_step; [by apply (find_named_run _ _ fl)|]. set (P := fun q => _).
  destruct (locate_spec P fl 0) as [[Hz _]|(l1 & q & l2 & -> & _ & _ & ->)]; [by eapply linked_nonzero| |].
  { destruct (locate P 0 fl) as [prev current]. cbn [snd] in Hz. subst. by apply runs_ret. }
  assert (Hin : q ∈ l1 ++ q :: l2) by (apply elem_of_app; right; left). destruct (linked_elem _ _ _ _ _ Hl Hin) as [Hq [f Hf]]. rewrite (proj2 (Z.eqb_neq q 0)) by done.
  eapply runs_step; [unfold system_at; by rewrite Hf|]. pose proof (linked_before _ _ _ _ _ _ Hl) as Hb. destruct (last l1) as [prev|]; cbn [default].
  - destruct Hb as (l0 & -> & Hl'). assert (Hin' : prev ∈ l0 ++ prev :: q :: l2) by (apply elem_of_app; right; left). destruct (linked_elem _ _ _ _ _ Hl' Hin') as [Hp [g Hg]]. cbn [id]. rewrite (proj2 (Z.eqb_neq prev 0)) by done.
    eapply (runs_step _ _ _ _ tt); [erewrite bind_run by (unfold system_at; by rewrite Hg); reflexivity|]. apply runs_ret. apply (inv_relink _ _ _ _ _ (l0 ++ prev :: l2)); [done|done|]. by eapply linked_remove.
  - destruct Hb as [-> Hh]. cbn [app] in Hl. eapply runs_step; [reflexivity|]. apply runs_ret. destruct Hl as (_ & _ & f' & Hf' & Hl). simplify_eq. apply (inv_set_systems s _ _ l2); [done|done|done|apply (inv_behaved _ Hi)].
Qed.

(** ** Mount points *)

Lemma tail_loop_run l : forall fuel p q (s : st), (length l < fuel)%nat -> linked m_next (mounts s) p (l ++ [q]) -> tail_loop fuel p s = Ret q s.
Proof.
  induction l as [|x l IH]; intros [|fuel] p q s Hf; cbn [length app linked tail_loop] in *; try lia; intros (-> & Hx & m & Hm & Hl); erewrite bind_run by (unfold mount_at; by rewrite Hm).
  - by rewrite Hl.
  - assert (m_next m <> 0) by (destruct l; destruct Hl as (-> & ? & _); done). rewrite (proj2 (Z.eqb_neq _ 0)) by done. apply IH; [lia|done].
Qed.

(** The mount points are those of [m], perhaps linked differently. *)
Definition same_mounts (m m' : gmap Z vfs_mount_t) : Prop := forall p, (fun x => (mountpoint x, m_fs x)) <$> m' !! p = (fun x => (mountpoint x, m_fs x)) <$> m !! p.

Lemma same_mounts_insert m m' p x y : same_mounts m m' -> mountpoint y = mountpoint x -> m_fs y = m_fs x -> m !! p = Some x -> same_mounts m (<[p := y]> m').
Proof. intros H Hm Hf Hx q. destruct (decide (q = p)) as [->|Hq]; [rewrite lookup_insert_eq, Hx; cbn; by rewrite Hm, Hf|by rewrite lookup_insert_ne]. Qed.

Lemma append_mount_run (s : st) new m ml : linked m_next (mounts s) (mount_points s) ml -> mounts s !! new = None -> new <> 0 -> m_next m = 0 ->
  exists m' head, append_mount new m s = Ret tt (set_mounts m' head (root_mount s) s) /\ linked m_next m' head (ml ++ [new]) /\ same_mounts (<[new := m]> (mounts s)) m'.
Proof.
  intros Hl Hn H0 Hm. assert (Hnin : new ∉ ml) by (intros Hin; destruct (linked_elem _ _ _ _ _ Hl Hin) as [_ [x Hx]]; congruence). unfold append_mount. erewrite bind_run by reflexivity. erewrite bind_run by reflexivity. cbn [mount_points set_mounts].
  destruct (list_eq_nil_dec ml) as [->|Hne].
  - cbn [linked] in Hl. rewrite Hl. eexists _, _. split; [reflexivity|]. split; [|done]. cbn [app linked mounts set_mounts]. split; [done|]. split; [done|]. exists m. by rewrite lookup_insert_eq.
  - destruct (exists_last Hne) as (l0 & q & ->). assert (Hhead : mount_points s <> 0) by (destruct l0; destruct Hl as (-> & ? & _); done). rewrite (proj2 (Z.eqb_neq _ 0)) by done.
    assert (Hq : exists x, mounts s !! q = Some x) by (by apply (linked_elem _ _ _ _ _ Hl); apply elem_of_app; right; left). destruct Hq as [x Hx].
    assert (Hl' : linked m_next (<[new := m]> (mounts s)) (mount_points s) (l0 ++ [q])) by (by apply linked_insert). assert (Hqn : q <> new) by (intros ->; congruence).
    erewrite bind_run by reflexivity. erewrite bind_run by (apply (tail_loop_run l0); [cbn [mounts set_mounts]; apply linked_length in Hl'; rewrite length_app in Hl'; cbn [length] in Hl'; lia|exact Hl']).
    erewrite bind_run by (unfold mount_at; cbn [mounts set_mounts]; by rewrite lookup_insert_ne, Hx). eexists _, _. split; [reflexivity|]. cbn [mounts set_mounts]. rewrite <- app_assoc. cbn [app]. split.
    + by eapply linked_snoc.
    + apply (same_mounts_insert _ _ _ x); [by intros p|done|done|]. by rewrite lookup_insert_ne.
Qed.

Lemma same_mounts_fs m m' (P : Z -> Prop) : same_mounts m m' -> (forall p x, m !! p = Some x -> P (m_fs x)) -> forall p x, m' !! p = Some x -> P (m_fs x).
Proof.
  intros H HP p x Hx. specialize (H p). rewrite Hx in H. destruct (m !! p) as [y|] eqn:Hy; [|done]. injection H as _ ->. by eapply HP.
Qed.

Lemma find_filesystem_run n (s : st) : vfs_inv s -> exists fs, find_filesystem n s = Ret fs s /\ (fs = 0 \/ fs <> 0 /\ is_Some (systems s !! fs)).
Proof.
  intros Hi. destruct (inv_systems _ Hi) as [fl Hl]. unfold find_filesystem. erewrite bind_run by (by apply (find_named_run _ _ fl)). eexists. split; [reflexivity|]. set (P := fun q => _).
  destruct (locate_spec P fl 0) as [[Hz _]|(l1 & q & l2 & -> & _ & _ & ->)]; [by eapply linked_nonzero|by left|]. right. eapply linked_elem; [exact Hl|]. apply elem_of_app. right. left.
Qed.

Lemma mount_inv (s : st) device mp ty new copied : vfs_inv s -> new = 0 \/ mounts s !! new = None -> runs (vfs_mount device mp ty new copied) (fun _ s' => vfs_inv s') s.
Proof.
  intros Hi Hnew. unfold vfs_mount. destruct (find_filesystem_run ty s Hi) as (fs & E & Hfs). eapply runs_step; [exact E|]. destruct (Z.eqb_spec fs 0) as [|Hfs0]; [by apply runs_ret|].
  destruct (Z.eqb_spec new 0) as [|Hn0]; [by apply runs_ret|]. destruct copied; cbn [negb]; [|by apply runs_ret]. destruct Hfs as [?|[_ [f Hf]]]; [done|]. destruct Hnew as [?|Hnew]; [done|].
  eapply runs_step; [unfold system_at; by rewrite Hf|].
  eapply (runs_bind _ _ (fun _ s' => vfs_inv s' /\ exists w, s' = set_world s w)).
  { destruct (fs_mount f) as [g|] eqn:Hg; [|apply runs_ret; split; [done|exists (world s); by destruct s]]. apply on_world_returns; [done|]. by eapply (wb_mount _ (inv_behaved _ Hi _ _ Hf)). }
  intros err ? [Hi1 [w ->]]. case_bool_decide; cbn [negb]; [|by apply runs_ret]. destruct (inv_mounts _ Hi1) as (ml & Hl & Hroot).
  destruct (append_mount_run (set_world s w) new {| mountpoint := mp; m_fs := fs; m_next := 0 |} ml) as (m' & head & Ea & Hl' & Hsame); [done..|]. eapply runs_step; [exact Ea|].
  assert (Hi2 : forall root, root = 0 \/ root ∈ ml ++ [new] -> vfs_inv (set_mounts m' head root (set_world s w))).
  { intros root Hr. apply (inv_set_mounts _ _ _ _ (ml ++ [new])); [done|done|done|]. apply (same_mounts_fs _ _ (fun x => x <> 0 /\ is_Some (systems (set_world s w) !! x)) Hsame).
    intros p x. destruct (decide (p = new)) as [->|Hp]; [rewrite lookup_insert_eq; intros [= <-]; split; [done|by exists f]|rewrite lookup_insert_ne by done; apply (inv_fs _ Hi1)]. }
  case_bool_decide.
  - eapply runs_step; [reflexivity|]. apply runs_ret. apply (Hi2 new). right. apply elem_of_app. right. left.
  - eapply runs_step; [reflexivity|]. apply runs_ret. apply Hi2. destruct Hroot as [Hr|Hr]; [by left|right; apply elem_of_app; by left].
Qed.

Definition mp_of (s : st) (p : Z) : list Z := default [] (mountpoint <$> mounts s !! p).

Lemma mp_of_at (s : st) p m : mounts s !! p = Some m -> mp_of s p = mountpoint m.
Proof. unfold mp_of. by intros ->. Qed.

(** The mount point at [q] is taken out, and the file system told. *)
Definition unmounted (s : st) (q : Z) (l : list Z) (s' : st) : Prop :=
  exists w m head, s' = set_mounts m head (if root_mount s =? q then head else root_mount s) (set_world s w) /\ linked m_next m head l /\ same_mounts (delete q (mounts s)) m.

Lemma unmount_found k l2 fuel prev q mp (s : st) : vfs_inv s -> linked m_next (mounts s) (mount_points s) (k ++ q :: l2) -> prev = default 0 (last k) -> mp_of s q = mp -> (0 < fuel)%nat ->
  runs (unmount_loop fuel mp prev q) (fun e s' => e = ERR_OK /\ unmounted s q (k ++ l2) s') s.
Proof.
  intros Hi Hl Hprev Hmp Hf. destruct fuel as [|fuel]; [lia|]. cbn [unmount_loop]. assert (Hin : q ∈ k ++ q :: l2) by (apply elem_of_app; right; left). destruct (linked_elem _ _ _ _ _ Hl Hin) as [Hq [m Hm]].
  pose proof (linked_NoDup _ _ _ _ Hl) as Hnd. rewrite (mp_of_at _ _ _ Hm) in Hmp. destruct (inv_fs _ Hi _ _ Hm) as [Hfs [f Hsys]].
  rewrite (proj2 (Z.eqb_neq q 0)) by done. eapply runs_step; [unfold mount_at; by rewrite Hm|]. rewrite bool_decide_true by done. rewrite (proj2 (Z.eqb_neq (m_fs m) 0)) by done.
  eapply (runs_bind _ _ (fun _ s' => exists w, s' = set_world s w)).
  { eapply runs_step; [unfold system_at; by rewrite Hsys|]. destruct (fs_unmount f) as [g|] eqn:Hg; [|apply runs_ret; exists (world s); by destruct s].
    eapply runs_bind; [apply on_world_returns; [done|]; by eapply (wb_unmount _ (inv_behaved _ Hi _ _ Hsys))|]. intros e s' [_ Hw]. by apply runs_ret. }
  intros [] ? [w ->]. pose proof (linked_before _ _ _ _ _ _ Hl) as Hb. destruct (last k) as [x|]; cbn [default] in Hprev; subst prev.
  - destruct Hb as (l0 & -> & Hl'). assert (Hin' : x ∈ l0 ++ x :: q :: l2) by (apply elem_of_app; right; left). destruct (linked_elem _ _ _ _ _ Hl' Hin') as [Hx [y Hy]]. cbn [id]. rewrite (proj2 (Z.eqb_neq x 0)) by done.
    eapply (runs_step _ _ _ _ tt); [erewrite bind_run by (unfold mount_at; cbn [mounts set_world]; by rewrite Hy); reflexivity|]. eapply runs_step; [reflexivity|]. apply runs_ret. split; [done|].
    assert (Hxq : x <> q) by (intros ->; apply NoDup_app in Hnd as (_ & Hd & _); apply (Hd q); [apply elem_of_app; right; left|left]).
    eexists w, _, _. split; [reflexivity|]. cbn [mounts mount_points root_mount set_mounts set_world]. split.
    + apply linked_delete; [|rewrite <- app_assoc; cbn [app]; eapply linked_remove; [exact Hl'|exact Hy|exact Hm|done]].
      apply NoDup_app in Hnd as (_ & Hd & Hnd). apply NoDup_cons in Hnd as [Hn2 _]. rewrite not_elem_of_app. split; [|done]. intros Hc. apply (Hd q Hc). left.
    + rewrite delete_insert_ne by done. apply (same_mounts_insert _ _ _ y); [by intros p|done|done|]. by rewrite lookup_delete_ne.
  - destruct Hb as [-> Hh]. cbn [app] in *. eapply runs_step; [reflexivity|]. eapply runs_step; [reflexivity|]. apply runs_ret. split; [done|].
    eexists w, _, _. split; [reflexivity|]. cbn [mounts mount_points root_mount set_mounts set_world]. split; [|done].
    apply NoDup_cons in Hnd as [Hn _]. apply linked_delete; [done|]. destruct Hl as (_ & _ & m' & Hm' & Hl). by simplify_eq.
Qed.

Lemma unmount_loop_spec l1 : forall k l2 fuel p q mp (s : st), vfs_inv s -> linked m_next (mounts s) (mount_points s) (k ++ l1 ++ q :: l2) -> linked m_next (mounts s) p (l1 ++ q :: l2) ->
  Forall (fun x => mp_of s x <> mp) l1 -> mp_of s q = mp -> (length l1 < fuel)%nat ->
  runs (unmount_loop fuel mp (default 0 (last k)) p) (fun e s' => e = ERR_OK /\ unmounted s q (k ++ l1 ++ l2) s') s.
Proof.
  induction l1 as [|x l1 IH]; intros k l2 fuel p q mp s Hi Hl Hp Hn Hq Hf; cbn [app length] in *.
  { pose proof Hp as (-> & _). by apply unmount_found. }
  destruct fuel as [|fuel]; [lia|]. apply Forall_cons_1 in Hn as [Hx Hn]. destruct Hp as (-> & Hx0 & m & Hm & Hp). rewrite (mp_of_at _ _ _ Hm) in Hx.
  cbn [unmount_loop]. rewrite (proj2 (Z.eqb_neq x 0)) by done. eapply runs_step; [unfold mount_at; by rewrite Hm|]. rewrite bool_decide_false by done.
  specialize (IH (k ++ [x]) l2 fuel (m_next m) q mp s Hi). rewrite <- !app_assoc in IH. cbn [app] in IH. rewrite last_snoc in IH. apply IH; [done..|lia].
Qed.

Lemma unmount_loop_none l : forall fuel prev p mp (s : st), linked m_next (mounts s) p l -> Forall (fun x => mp_of s x <> mp) l -> (length l < fuel)%nat -> unmount_loop fuel mp prev p s = Ret ERR_NOT_FOUND s.
Proof.
  induction l as [|x l IH]; intros [|fuel] prev p mp s Hl Hn Hf; cbn [length linked unmount_loop] in *; try lia; [by rewrite Hl|]. destruct Hl as (-> & Hx & m & Hm & Hl). apply Forall_cons_1 in Hn as [Hne Hn].
  rewrite (mp_of_at _ _ _ Hm) in Hne. rewrite (proj2 (Z.eqb_neq x 0)) by done. erewrite bind_run by (unfold mount_at; by rewrite Hm). rewrite bool_decide_false by done. apply IH; [done|done|lia].
Qed.

Lemma unmount_spec l1 l2 q mp (s : st) : vfs_inv s -> linked m_next (mounts s) (mount_points s) (l1 ++ q :: l2) -> Forall (fun x => mp_of s x <> mp) l1 -> mp_of s q = mp ->
  runs (vfs_unmount mp) (fun e s' => e = ERR_OK /\ unmounted s q (l1 ++ l2) s') s.
Proof.
  intros Hi Hl Hn Hq. do 2 (eapply runs_step; [reflexivity|]). apply (unmount_loop_spec l1 []); try done. apply linked_length in Hl. rewrite length_app in Hl. cbn [length] in Hl. cbv beta. lia.
Qed.

Lemma unmounted_inv s q l1 l2 s' : vfs_inv s -> linked m_next (mounts s) (mount_points s) (l1 ++ q :: l2) -> root_mount s = 0 \/ root_mount s ∈ l1 ++ q :: l2 -> unmounted s q (l1 ++ l2) s' -> vfs_inv s'.
Proof.
  intros Hi Hl Hroot (w & m & head & -> & Hl' & Hsame). apply (inv_set_mounts _ _ _ _ (l1 ++ l2)); [by apply inv_world|done| |].
  - destruct (Z.eqb_spec (root_mount s) q) as [E|Hne].
    + destruct (l1 ++ l2); [left; exact Hl'|right; destruct Hl' as (-> & _); left].
    + destruct Hroot as [->|Hr]; [by left|]. right. apply elem_of_app in Hr as [Hr|[E|Hr]%elem_of_cons]; [apply elem_of_app; by left|congruence|apply elem_of_app; by right].
  - apply (same_mounts_fs _ _ (fun x => x <> 0 /\ is_Some (systems (set_world s w) !! x)) Hsame). intros p x [_ Hx]%lookup_delete_Some. by apply (inv_fs _ Hi p).
Qed.

Lemma unmount_inv s mp : vfs_inv s -> runs (vfs_unmount mp) (fun _ s' => vfs_inv s') s.
Proof.
  intros Hi. destruct (inv_mounts _ Hi) as (ml & Hl & Hroot).
  destruct (locate_spec (fun q => bool_decide (mp_of s q = mp)) ml 0) as [[_ Hn]|(l1 & q & l2 & -> & Hq%bool_decide_eq_true & Hn & _)]; [by eapply linked_nonzero| |].
  - do 2 (eapply runs_step; [reflexivity|]). eexists _, _. split; [apply (unmount_loop_none ml); [done| |apply linked_length in Hl; cbv beta; lia]|done]. eapply Forall_impl; [exact Hn|]. intros x Hx. cbn beta in Hx. by apply bool_decide_eq_false in Hx.
  - eapply runs_mono; [apply (unmount_spec l1 l2 q); try done|]; [eapply Forall_impl; [exact Hn|]; intros x Hx; cbn beta in Hx; by apply bool_decide_eq_false in Hx|]. intros e s' [_ Hu]. by eapply unmounted_inv.
Qed.

(** ** Resolving paths *)

Lemma resolve_loop_run path l : forall fuel p best n (s : st), linked m_next (mounts s) p l -> (length l < fuel)%nat -> resolve_loop fuel path p best n s = Ret (pick (mp_of s) path best n l) s.
Proof.
  induction l as [|q l IH]; intros [|fuel] p best n s Hl Hf; cbn [length linked resolve_loop pick] in *; try lia; [by rewrite Hl|]. destruct Hl as (-> & Hq & m & Hm & Hl).
  rewrite (proj2 (Z.eqb_neq q 0)) by done. erewrite bind_run by (unfold mount_at; by rewrite Hm). rewrite (mp_of_at _ _ _ Hm).
  replace ((n <? length (mountpoint m))%nat || _) with (n <? length (mountpoint m))%nat by lia. destruct (_ && _); apply IH; (done || lia).
Qed.

(** Where a path leads. *)
Definition resolution (s : st) (path : list Z) (ml : list Z) : error_code_t * Z * list Z :=
  let r := pick (mp_of s) path 0 0 ml in
  if fst r =? 0 then if negb (root_mount s =? 0) && (nth 0 path 0 =? slash) then (ERR_OK, root_mount s, relative path 1) else (ERR_NOT_FOUND, 0, [])
  else (ERR_OK, fst r, relative path (snd r)).

Lemma resolve_run path (s : st) ml : linked m_next (mounts s) (mount_points s) ml -> vfs_resolve_path path s = Ret (resolution s path ml) s.
Proof.
  intros Hl. unfold vfs_resolve_path, resolution. do 2 erewrite bind_run by reflexivity. erewrite bind_run by (apply resolve_loop_run; [done|apply linked_length in Hl; lia]).
  destruct (pick (mp_of s) path 0 0 ml) as [best n]. cbn [fst snd]. destruct (best =? 0); [|done]. erewrite bind_run by reflexivity. by destruct (_ && _).
Qed.

Lemma resolution_ok path (s : st) ml : vfs_inv s -> linked m_next (mounts s) (mount_points s) ml -> root_mount s = 0 \/ root_mount s ∈ ml ->
  resolution s path ml = (ERR_NOT_FOUND, 0, []) \/ exists p rel m f, resolution s path ml = (ERR_OK, p, rel) /\ p <> 0 /\ mounts s !! p = Some m /\ m_fs m <> 0 /\ systems s !! m_fs m = Some f /\ well_behaved f.
Proof.
  intros Hi Hl Hroot.
  assert (Hat : forall p (rel : list Z), p ∈ ml -> exists p' rel' m f, (ERR_OK, p, rel) = (ERR_OK, p', rel') /\ p' <> 0 /\ mounts s !! p' = Some m /\ m_fs m <> 0 /\ systems s !! m_fs m = Some f /\ well_behaved f).
  { intros p rel Hp. destruct (linked_elem _ _ _ _ _ Hl Hp) as [Hp0 [m Hm]]. destruct (inv_fs _ Hi _ _ Hm) as [Hf0 [f Hf]]. exists p, rel, m, f. by repeat (split; [done|]); eapply (inv_behaved _ Hi). }
  unfold resolution. destruct (Z.eqb_spec (fst (pick (mp_of s) path 0 0 ml)) 0) as [Hz|Hz].
  - destruct (Z.eqb_spec (root_mount s) 0) as [|Hr]; [by left|]. cbn [negb andb]. destruct (nth 0 path 0 =? slash); [|by left]. right. apply Hat. by destruct Hroot.
  - right. apply Hat. destruct (pick_spec (mp_of s) path ml 0 0) as (_ & _ & [E|(Hin & _)]); [|done]. by rewrite E in Hz.
Qed.

Lemma resolve_ok path (s : st) : vfs_inv s ->
  vfs_resolve_path path s = Ret (ERR_NOT_FOUND, 0, []) s \/ exists p rel m f, vfs_resolve_path path s = Ret (ERR_OK, p, rel) s /\ p <> 0 /\ mounts s !! p = Some m /\ m_fs m <> 0 /\ systems s !! m_fs m = Some f /\ well_behaved f.
Proof.
  intros Hi. destruct (inv_mounts _ Hi) as (ml & Hl & Hroot). rewrite (resolve_run path s ml) by done. destruct (resolution_ok path s ml Hi Hl Hroot) as [->|(p & rel & m & f & -> & H)]; [by left|right; by exists p, rel, m, f].
Qed.

Lemma at_path_ok path (s : st) : vfs_inv s -> (exists e, at_path path s = Ret (inr e) s) \/ exists p f rel m, at_path path s = Ret (inl (p, f, rel)) s /\ mounts s !! p = Some m /\ m_fs m <> 0 /\ systems s !! m_fs m = Some f /\ well_behaved f.
Proof.
  intros Hi. unfold at_path. destruct (resolve_ok path s Hi) as [E|(p & rel & m & f & E & Hp & Hm & H0 & Hf & Hw)]; rewrite (bind_run _ _ _ _ _ E); [left; by exists ERR_NOT_FOUND|]. right.
  rewrite bool_decide_true by done. cbn [negb]. rewrite (proj2 (Z.eqb_neq p 0)) by done. erewrite bind_run by (unfold mount_at; by rewrite Hm). rewrite (proj2 (Z.eqb_neq (m_fs m) 0)) by done.
  erewrite bind_run by (unfold system_at; by rewrite Hf). by exists p, f, rel, m.
Qed.

(** Operations with a path. *)
Lemma path_call_inv op path (s : st) : vfs_inv s -> (forall f g p, well_behaved f -> op f = Some g -> returns (g p)) -> runs (path_call op path) (fun _ s' => vfs_inv s') s.
Proof.
  intros Hi Hop. unfold path_call. destruct (at_path_ok path s Hi) as [[e E]|(p & f & rel & m & E & _ & _ & _ & Hw)]; (eapply runs_step; [exact E|]); [by apply runs_ret|].
  cbv beta iota. destruct (op f) as [g|] eqn:Hg; [|by apply runs_ret]. eapply runs_mono; [apply on_world_returns; [done|by eapply Hop]|]. by intros e s' [? _].
Qed.

Lemma stat_inv path (s : st) : vfs_inv s -> runs (vfs_stat path) (fun _ s' => vfs_inv s') s.
Proof.
  intros Hi. unfold vfs_stat. destruct (at_path_ok path s Hi) as [[e E]|(p & f & rel & m & E & _ & _ & _ & Hw)]; (eapply runs_step; [exact E|]); [by apply runs_ret|].
  cbv beta iota. destruct (fs_stat f) as [g|] eqn:Hg; [|by apply runs_ret]. eapply runs_mono; [apply on_world_returns; [done|by eapply wb_stat]|]. by intros e s' [? _].
Qed.

Lemma rename_inv oldpath newpath (s : st) : vfs_inv s -> runs (vfs_rename oldpath newpath) (fun _ s' => vfs_inv s') s.
Proof.
  intros Hi. unfold vfs_rename. destruct (at_path_ok oldpath s Hi) as [[e E]|(p & f & rel & m & E & _ & _ & _ & Hw)]; (eapply runs_step; [exact E|]); [by apply runs_ret|].
  destruct (resolve_ok newpath s Hi) as [E'|(p' & rel' & _ & _ & E' & _)]; (eapply runs_step; [exact E'|]); [by apply runs_ret|]. cbv beta iota. rewrite bool_decide_true by done. cbn [negb].
  destruct (p =? p'); cbn [negb]; [|by apply runs_ret]. cbv beta iota. destruct (fs_rename f) as [g|] eqn:Hg; [|by apply runs_ret]. eapply runs_mono; [apply on_world_returns; [done|by eapply wb_rename]|]. by intros e s' [? _].
Qed.

(** ** Descriptors *)

(** The table of descriptors changes at [i] only. *)
Lemma inv_one_fd (s : st) i t : vfs_inv s -> (forall j, j <> i -> t j = fd_table s j) -> fd_ok s (t i) -> vfs_inv (set_fds t s).
Proof. intros [H1 H2 H3 H4 H5] Ht Hi. split; try done. intros j Hj. cbn [fd_table set_fds]. destruct (decide (j = i)) as [->|Hne]; [done|]. rewrite Ht by done. by apply H5. Qed.

Lemma free_fd_inv (s : st) fd : vfs_inv s -> runs (free_fd fd) (fun _ s' => vfs_inv s') s.
Proof. intros Hi. unfold free_fd. destruct (_ && _); [|by apply runs_ret]. eexists _, _. split; [reflexivity|]. by apply inv_set_fd. Qed.

(** A path leads to the mount point [m] at [p] and the rest of the path. *)
Record leads (s : st) (path : list Z) (p : Z) (m : vfs_mount_t) (f : vfs_filesystem_t F) (rel : list Z) : Prop := {
  leads_list : exists ml, linked m_next (mounts s) (mount_points s) ml /\ resolution s path ml = (ERR_OK, p, rel);
  leads_mount : p <> 0 /\ mounts s !! p = Some m;
  leads_system : m_fs m <> 0 /\ systems s !! m_fs m = Some f
}.

Lemma leads_run (s : st) path p m f rel : leads s path p m f rel -> at_path path s = Ret (inl (p, f, rel)) s.
Proof.
  intros [(ml & Hl & Hres) [Hp Hm] [Hf0 Hf]]. unfold at_path. rewrite (bind_run _ _ _ _ _ (resolve_run path s ml Hl)), Hres. cbv beta iota. rewrite bool_decide_true, (proj2 (Z.eqb_neq p 0)) by done. cbn [negb].
  erewrite bind_run by (unfold mount_at; by rewrite Hm). rewrite (proj2 (Z.eqb_neq _ _)) by done. by erewrite bind_run by (unfold system_at; by rewrite Hf).
Qed.

(** A descriptor that is taken, before its entry is filled. *)
Definition taken (s : st) (i : Z) (s' : st) : Prop :=
  0 <= i < MAX_FDS /\ used (fd_table s i) = false /\ exists w t, s' = set_fds t (set_world s w) /\ (forall j, j <> i -> t j = fd_table s j) /\ used (t i) = true.

Lemma allocate_run (s : st) : allocate_fd s = Ret (-1) s \/ exists i s', allocate_fd s = Ret i s' /\ 0 <= i /\ taken s i s'.
Proof.
  unfold allocate_fd. erewrite bind_run by reflexivity. destruct (find_first _ _ _) as [i|] eqn:Hf; [|by left]. right. apply find_first_Some in Hf as (Hi & Hu & _). eexists i, _. split; [by erewrite bind_run by reflexivity|].
  split; [lia|]. split; [unfold MAX_FDS in *; lia|]. split; [by destruct (used (fd_table s i))|]. eexists (world s), _. split; [by destruct s|]. split; [intros j Hj; by rewrite aset_ne|by rewrite aset_eq].
Qed.

Lemma allocate_free (s : st) : (exists i, 0 <= i < MAX_FDS /\ used (fd_table s i) = false) -> exists i t, allocate_fd s = Ret i (set_fds t s) /\ 0 <= i < MAX_FDS.
Proof.
  intros (i & Hi & Hfree). unfold allocate_fd. erewrite bind_run by reflexivity. destruct (find_first _ _ _) as [j|] eqn:Hf.
  - apply find_first_Some in Hf as (Hj & _). eexists j, _. split; [by erewrite bind_run by reflexivity|unfold MAX_FDS in *; lia].
  - pose proof (proj1 (find_first_None _ _ _) Hf i ltac:(unfold MAX_FDS in *; lia)) as H. cbv beta in H. by rewrite Hfree in H.
Qed.

Lemma dir_op_run {A} fd (op : vfs_filesystem_t F -> option (Z -> A)) (s : st) f : 0 <= fd < MAX_FDS -> used (fd_table s fd) = true -> fd_fs (fd_table s fd) <> 0 -> systems s !! fd_fs (fd_table s fd) = Some f ->
  dir_op fd op s = Ret ((fun g => g (file_data (fd_table s fd))) <$> op f) s.
Proof.
  intros Hfd Hu H0 Hf. unfold dir_op, bad_fd. erewrite bind_run by (erewrite bind_run by reflexivity; reflexivity). rewrite Hu. replace (_ || _) with false by (unfold MAX_FDS in *; lia).
  erewrite bind_run; [by erewrite bind_run by reflexivity|]. unfold fd_op. erewrite bind_run by reflexivity. rewrite (proj2 (Z.eqb_neq _ _)) by done. by erewrite bind_run by (unfold system_at; by rewrite Hf).
Qed.

Lemma taken_world {A} (m : Effect.M F A) (P : A -> Prop) (s : st) i s1 : taken s i s1 -> runs m (fun a _ => P a) (world s1) -> runs (on_world m) (fun a s' => P a /\ taken s i s') s1.
Proof.
  intros (Hi & Hu & w & t & -> & Ht & Ht') (a & w' & E & Hp). eexists a, _. split; [unfold on_world; rewrite E; reflexivity|]. split; [done|]. split; [done|]. split; [done|]. by exists w', t.
Qed.

Lemma taken_free (s : st) i s1 : vfs_inv s -> taken s i s1 -> runs (free_fd i) (fun _ s' => vfs_inv s') s1.
Proof.
  intros Hi (Hb & _ & w & t & -> & Ht & _). unfold free_fd. replace (_ && _) with true by lia. eexists _, _. split; [reflexivity|]. cbn [fd_table set_fds].
  apply (inv_one_fd (set_world s w) i); [by apply inv_world|intros j Hj; rewrite aset_ne by done; by apply Ht|by rewrite aset_eq].
Qed.

Lemma taken_set (s : st) i s1 f : vfs_inv s -> taken s i s1 -> fd_ok s (f (fd_table s1 i)) -> runs (set_fd i f) (fun _ s' => vfs_inv s') s1.
Proof.
  intros Hi (Hb & _ & w & t & -> & Ht & _) Hf. unfold set_fd. replace (_ && _) with true by lia. eexists _, _. split; [reflexivity|]. cbn [fd_table set_fds] in *.
  apply (inv_one_fd (set_world s w) i); [by apply inv_world|intros j Hj; rewrite aset_ne by done; by apply Ht|by rewrite aset_eq].
Qed.

Lemma taken_systems s i s1 : taken s i s1 -> systems s1 = systems s /\ mounts s1 = mounts s.
Proof. by intros (_ & _ & w & t & -> & _). Qed.

Lemma open_inv uid gid path flags (s : st) : vfs_inv s -> runs (vfs_open uid gid path flags) (fun _ s' => vfs_inv s') s.
Proof.
  intros Hi. unfold vfs_open. destruct (resolve_ok path s Hi) as [E|(p & rel & m & f & E & Hp & Hm & H0 & Hf & Hw)]; (eapply runs_step; [exact E|]); cbv beta iota; [by apply runs_ret|].
  rewrite bool_decide_true, (proj2 (Z.eqb_neq p 0)) by done. cbn [negb orb]. eapply runs_step; [unfold mount_at; by rewrite Hm|]. rewrite (proj2 (Z.eqb_neq (m_fs m) 0)) by done.
  destruct (allocate_run s) as [Ea|(i & s1 & Ea & Hi0 & Ht)]; (eapply runs_step; [exact Ea|]); [by apply runs_ret|]. replace (i <? 0) with false by lia. destruct (taken_systems _ _ _ Ht) as [Hs1 _].
  eapply runs_step; [unfold system_at; by rewrite Hs1, Hf|].
  eapply (runs_bind _ _ (fun _ s2 => taken s i s2)).
  { destruct (fs_stat f) as [g|] eqn:Hg; [|by apply runs_ret]. eapply runs_mono; [apply (taken_world _ (fun _ => True) _ _ _ Ht); by eapply wb_stat|by intros ? ? [_ ?]]. }
  intros st2 s2 Ht2. destruct (match st2 with (ERR_OK, Some x) => _ | _ => _ end).
  { eapply runs_bind; [by eapply taken_free|]. intros [] s3 Hs3. by apply runs_ret. }
  eapply (runs_bind _ _ (fun o s3 => snd (fst o) = i /\ taken s i s3)).
  { destruct (fs_open f) as [g|] eqn:Hg; [|by apply runs_ret]. apply (taken_world _ _ _ _ _ Ht2). by apply (wb_open _ Hw). }
  intros [[err fd] data] s3 [Hfd Ht3]. cbn [fst snd] in Hfd. subst fd. case_bool_decide; cbn [negb].
  - eapply runs_bind; [eapply taken_set; [done|exact Ht3|]|intros [] s4 Hs4; by apply runs_ret]. unfold fd_ok. cbn [used fd_fs]. destruct Ht3 as (_ & _ & w & t & -> & _ & Hu). cbn [fd_table set_fds]. rewrite Hu. split; [done|by exists f].
  - eapply runs_bind; [by eapply taken_free|]. intros [] s4 Hs4. by apply runs_ret.
Qed.

Lemma opendir_inv path (s : st) : vfs_inv s -> runs (vfs_opendir path) (fun _ s' => vfs_inv s') s.
Proof.
  intros Hi. unfold vfs_opendir. destruct (at_path_ok path s Hi) as [[e E]|(p & f & rel & m & E & Hm & H0 & Hf & Hw)]; (eapply runs_step; [exact E|]); cbv beta iota; [by apply runs_ret|].
  destruct (fs_opendir f) as [g|] eqn:Hg; [|by apply runs_ret]. destruct (allocate_run s) as [Ea|(i & s1 & Ea & Hi0 & Ht)]; (eapply runs_step; [exact Ea|]); [by apply runs_ret|]. replace (i <? 0) with false by lia.
  eapply runs_bind; [apply (taken_world _ (fun _ => True) _ _ _ Ht); by eapply wb_opendir|]. intros d s2 [_ Ht2]. case_bool_decide; cbn [negb].
  - eapply runs_step; [unfold mount_at; rewrite (proj2 (taken_systems _ _ _ Ht2)); by rewrite Hm|]. eapply runs_bind; [eapply taken_set; [done|exact Ht2|]|intros [] s4 Hs4; by apply runs_ret]. split; [done|by exists f].
  - eapply runs_bind; [by eapply taken_free|]. intros [] s4 Hs4. by apply runs_ret.
Qed.

(** Using an open descriptor *)

Lemma bad_fd_run fd (s : st) : bad_fd fd s = Ret true s \/ bad_fd fd s = Ret false s /\ 0 <= fd < MAX_FDS /\ used (fd_table s fd) = true.
Proof.
  unfold bad_fd. erewrite bind_run by reflexivity. destruct (used (fd_table s fd)); cbn [negb]; [|left; by rewrite !orb_true_r]. rewrite orb_false_r.
  destruct ((fd <? 0) || (MAX_FDS <=? fd)) eqn:E; [by left|right]. split; [done|]. split; [lia|done].
Qed.

Lemma fd_op_run {A} fd (op : vfs_filesystem_t F -> option A) (s : st) : vfs_inv s -> 0 <= fd < MAX_FDS -> used (fd_table s fd) = true ->
  exists f, systems s !! fd_fs (fd_table s fd) = Some f /\ well_behaved f /\ fd_op fd op s = Ret (op f) s.
Proof.
  intros Hi Hb Hu. pose proof (inv_fds _ Hi fd Hb) as H. unfold fd_ok in H. rewrite Hu in H. destruct H as [H0 [f Hf]]. exists f. split; [done|]. split; [by eapply (inv_behaved _ Hi)|].
  unfold fd_op. erewrite bind_run by reflexivity. rewrite (proj2 (Z.eqb_neq _ 0)) by done. by erewrite bind_run by (unfold system_at; by rewrite Hf).
Qed.

(** A store that keeps the file system of an entry. *)
Lemma set_fd_inv (s : st) fd f : vfs_inv s -> 0 <= fd < MAX_FDS -> (forall e, used (f e) = used e /\ fd_fs (f e) = fd_fs e) -> runs (set_fd fd f) (fun _ s' => vfs_inv s') s.
Proof.
  intros Hi Hb Hf. unfold set_fd. replace (_ && _) with true by lia. eexists _, _. split; [reflexivity|]. apply inv_set_fd; [done|]. destruct (Hf (fd_table s fd)) as [E1 E2]. unfold fd_ok. rewrite E1, E2. by apply (inv_fds _ Hi).
Qed.

Lemma close_inv fd (s : st) : vfs_inv s -> runs (vfs_close fd) (fun _ s' => vfs_inv s') s.
Proof.
  intros Hi. unfold vfs_close. destruct (bad_fd_run fd s) as [E|(E & Hb & Hu)]; (eapply runs_step; [exact E|]); [by apply runs_ret|]. destruct (fd_op_run fd fs_close s Hi Hb Hu) as (f & _ & Hw & Ef). eapply runs_step; [exact Ef|].
  eapply (runs_bind _ _ (fun _ s' => vfs_inv s')).
  - destruct (fs_close f) as [g|] eqn:Hg; [|by apply runs_ret]. eapply runs_bind; [apply on_world_returns; [done|by eapply wb_close]|]. intros e s' [? _]. by apply runs_ret.
  - intros [] s1 Hi1. eapply runs_bind; [by apply free_fd_inv|]. intros [] s2 Hi2. by apply runs_ret.
Qed.

Lemma read_inv fd n (s : st) : vfs_inv s -> runs (vfs_read fd n) (fun _ s' => vfs_inv s') s.
Proof.
  intros Hi. unfold vfs_read. destruct (bad_fd_run fd s) as [E|(E & Hb & Hu)]; (eapply runs_step; [exact E|]); [by apply runs_ret|]. destruct (fd_op_run fd fs_read s Hi Hb Hu) as (f & _ & Hw & Ef). eapply runs_step; [exact Ef|].
  destruct (fs_read f) as [g|] eqn:Hg; [|by apply runs_ret]. eapply runs_bind; [apply on_world_returns; [done|by eapply wb_read]|]. intros r s' [Hi' _]. eapply (runs_bind _ _ (fun _ s' => vfs_inv s')); [|intros [] s2 Hi2; by apply runs_ret].
  case_bool_decide; [by apply set_fd_inv|by apply runs_ret].
Qed.

Lemma write_inv fd xs (s : st) : vfs_inv s -> runs (vfs_write fd xs) (fun _ s' => vfs_inv s') s.
Proof.
  intros Hi. unfold vfs_write. destruct (bad_fd_run fd s) as [E|(E & Hb & Hu)]; (eapply runs_step; [exact E|]); [by apply runs_ret|]. destruct (fd_op_run fd fs_write s Hi Hb Hu) as (f & _ & Hw & Ef). eapply runs_step; [exact Ef|].
  destruct (fs_write f) as [g|] eqn:Hg; [|by apply runs_ret]. eapply runs_step; [reflexivity|]. cbv beta. destruct (negb _); [by apply runs_ret|].
  eapply runs_bind; [apply on_world_returns; [done|by eapply wb_write]|]. intros r s' [Hi' _]. eapply (runs_bind _ _ (fun _ s' => vfs_inv s')); [|intros [] s2 Hi2; by apply runs_ret].
  case_bool_decide; [by apply set_fd_inv|by apply runs_ret].
Qed.

Lemma seek_inv fd o w (s : st) : vfs_inv s -> runs (vfs_seek fd o w) (fun _ s' => vfs_inv s') s.
Proof.
  intros Hi. unfold vfs_seek. destruct (bad_fd_run fd s) as [E|(E & Hb & Hu)]; (eapply runs_step; [exact E|]); [by apply runs_ret|]. destruct (fd_op_run fd fs_seek s Hi Hb Hu) as (f & _ & Hw & Ef). eapply runs_step; [exact Ef|].
  destruct (fs_seek f) as [g|] eqn:Hg; [|by apply runs_ret]. eapply runs_bind; [apply on_world_returns; [done|by eapply wb_seek]|]. intros err s' [Hi' [w' ->]]. eapply (runs_bind _ _ (fun _ s' => vfs_inv s')); [|intros [] s2 Hi2; by apply runs_ret].
  case_bool_decide; [|by apply runs_ret]. destruct (fd_op_run fd fs_tell (set_world s w') Hi' Hb Hu) as (f' & _ & Hw' & Ef'). eapply runs_step; [exact Ef'|]. destruct (fs_tell f') as [h|] eqn:Hh; [|by apply runs_ret].
  eapply runs_step; [reflexivity|]. eapply runs_bind; [apply on_world_returns; [done|by eapply wb_tell]|]. intros p s3 [Hi3 _]. by apply set_fd_inv.
Qed.

Lemma dir_op_ok {A} fd (op : vfs_filesystem_t F -> option (Z -> A)) (s : st) : vfs_inv s -> dir_op fd op s = Ret None s \/ exists f g h, well_behaved f /\ op f = Some g /\ dir_op fd op s = Ret (Some (g h)) s.
Proof.
  intros Hi. unfold dir_op. destruct (bad_fd_run fd s) as [E|(E & Hb & Hu)]; rewrite (bind_run _ _ _ _ _ E); [by left|]. destruct (fd_op_run fd op s Hi Hb Hu) as (f & _ & Hw & Ef). rewrite (bind_run _ _ _ _ _ Ef). erewrite bind_run by reflexivity.
  destruct (op f) as [g|] eqn:Hg; [right; by eexists f, g, _|by left].
Qed.

Lemma readdir_inv fd (s : st) : vfs_inv s -> runs (vfs_readdir fd) (fun _ s' => vfs_inv s') s.
Proof.
  intros Hi. unfold vfs_readdir. destruct (dir_op_ok fd fs_readdir s Hi) as [E|(f & g & h & Hw & Hg & E)]; (eapply runs_step; [exact E|]); [by apply runs_ret|].
  eapply runs_mono; [apply on_world_returns; [done|by eapply wb_readdir]|]. by intros e s' [? _].
Qed.

Lemma closedir_inv fd (s : st) : vfs_inv s -> runs (vfs_closedir fd) (fun _ s' => vfs_inv s') s.
Proof.
  intros Hi. unfold vfs_closedir. destruct (dir_op_ok fd fs_closedir s Hi) as [E|(f & g & h & Hw & Hg & E)]; (eapply runs_step; [exact E|]); [by apply runs_ret|].
  eapply runs_bind; [apply on_world_returns; [done|by eapply wb_closedir]|]. intros e s' [Hi' _]. eapply runs_bind; [by apply free_fd_inv|]. intros [] s2 Hi2. by apply runs_ret.
Qed.

(** ** Calls *)

Inductive vfs_op :=
  | op_register (fs : Z) | op_unregister (n : list Z) | op_mount (device mp ty : list Z) (new : Z) (copied : bool) | op_unmount (mp : list Z)
  | op_open (uid gid : Z) (path : list Z) (flags : Z) | op_close (fd : Z) | op_read (fd n : Z) | op_write (fd : Z) (xs : list Z) | op_seek (fd o w : Z) | op_tell (fd : Z)
  | op_mkdir (path : list Z) | op_rmdir (path : list Z) | op_opendir (path : list Z) | op_readdir (fd : Z) | op_closedir (fd : Z)
  | op_unlink (path : list Z) | op_rename (oldpath newpath : list Z) | op_stat (path : list Z).

(** The error code that a call returns. *)
Definition vfs_call (o : vfs_op) : Effect.M st error_code_t :=
  match o with
  | op_register fs => vfs_register_filesystem fs
  | op_unregister n => vfs_unregister_filesystem n
  | op_mount device mp ty new copied => vfs_mount device mp ty new copied
  | op_unmount mp => vfs_unmount mp
  | op_open uid gid path flags => r <~ vfs_open uid gid path flags;; ret (fst r)
  | op_close fd => vfs_close fd
  | op_read fd n => r <~ vfs_read fd n;; ret (fst r)
  | op_write fd xs => r <~ vfs_write fd xs;; ret (fst r)
  | op_seek fd o w => vfs_seek fd o w
  | op_tell fd => r <~ vfs_tell fd;; ret (fst r)
  | op_mkdir path => vfs_mkdir path
  | op_rmdir path => vfs_rmdir path
  | op_opendir path => r <~ vfs_opendir path;; ret (fst r)
  | op_readdir fd => r <~ vfs_readdir fd;; ret (fst r)
  | op_closedir fd => vfs_closedir fd
  | op_unlink path => vfs_unlink path
  | op_rename oldpath newpath => vfs_rename oldpath newpath
  | op_stat path => r <~ vfs_stat path;; ret (fst r)
  end.

(** What is registered is a file system, and [kmalloc] gives memory that is not in use. *)
Definition call_ok (s : st) (o : vfs_op) : Prop :=
  match o with
  | op_register fs => fs = 0 \/ is_Some (systems s !! fs)
  | op_mount _ _ _ new _ => new = 0 \/ mounts s !! new = None
  | _ => True
  end.

Inductive vfs_step : st -> st -> Prop := step_call o e s s' : call_ok s o -> vfs_call o s = Ret e s' -> vfs_step s s'.

Lemma runs_fst {A B} (m : Effect.M st (A * B)) (P : st -> Prop) s : runs m (fun _ s' => P s') s -> runs (r <~ m;; ret (fst r)) (fun _ s' => P s') s.
Proof. intros H. eapply runs_bind; [exact H|]. intros a s' Hp. by apply runs_ret. Qed.

Lemma call_inv s o : vfs_inv s -> call_ok s o -> runs (vfs_call o) (fun _ s' => vfs_inv s') s.
Proof.
  intros Hi Hok. destruct o; cbn [vfs_call call_ok] in *; try apply runs_fst; eauto using register_inv, unregister_inv, mount_inv, unmount_inv, open_inv, close_inv, read_inv, write_inv, seek_inv, opendir_inv, readdir_inv, closedir_inv, rename_inv, stat_inv.
  - unfold vfs_tell. destruct (bad_fd_run fd s) as [E|(E & _)]; (eapply runs_step; [exact E|]); [by apply runs_ret|]. eapply runs_step; [reflexivity|]. by apply runs_ret.
  - apply path_call_inv; [done|]. intros f g p Hw. by apply (wb_mkdir _ Hw).
  - apply path_call_inv; [done|]. intros f g p Hw. by apply (wb_rmdir _ Hw).
  - apply path_call_inv; [done|]. intros f g p Hw. by apply (wb_unlink _ Hw).
Qed.

(** The state after [vfs_init] at boot, for file systems that keep their promises. *)
Definition initial (s : st) : Prop := exists s0, (forall p f, systems s0 !! p = Some f -> well_behaved f) /\ mounts s0 = ∅ /\ vfs_init s0 = Ret ERR_OK s.

Lemma initial_inv s : initial s -> vfs_inv s.
Proof.
  intros (s0 & Hf & Hm & E). injection E as <-. split; [by exists []|exact Hf|exists []; split; [done|by left]|intros p m Hp; cbn [mounts set_fds set_mounts set_systems] in Hp; by rewrite Hm in Hp|by intros].
Qed.

Lemma steps_inv s s' : rtc vfs_step s s' -> vfs_inv s -> vfs_inv s'.
Proof. induction 1 as [|x y z [o e a b Ho E] _ IH]; [done|]. intros Hx. apply IH. destruct (call_inv a o Hx Ho) as (e' & b' & E' & Hb). rewrite E in E'. by injection E' as <- <-. Qed.

(** C11. Safety of the virtual file system, for file systems that keep their promise
    ([well_behaved]: each of their operations returns, and [open] leaves the descriptor it is
    given as it is, which FAT32 does not).  Whatever such file systems are registered, mounted,
    opened, used, closed and unmounted after [vfs_init], in any order and with any paths,
    flags and descriptors, and unused memory from [kmalloc], the virtual file system itself
    follows no null or dangling pointer, indexes no table out of bounds and loops nowhere, so
    that every call returns; and the list of file systems, the list of mount points with the
    root, and the descriptors stay well formed. *)
Theorem vfs_reachable_safe s s' o : initial s -> rtc vfs_step s s' -> call_ok s' o -> vfs_inv s' /\ exists e s'', vfs_call o s' = Ret e s''.
Proof.
  intros Hs Hsteps Hok. assert (Hi : vfs_inv s') by (eapply steps_inv; [exact Hsteps|by apply initial_inv]).
  split; [done|]. destruct (call_inv s' o Hi Hok) as (e & s'' & E & _). by exists e, s''.
Qed.

(** ** Mounting and unmounting *)

(** A path below a mount point. *)
Definition below (mp rest : list Z) : list Z := if decide (mp = [slash]) then slash :: rest else mp ++ slash :: rest.

Lemma below_covered mp rest : covers (below mp rest) mp = true.
Proof.
  unfold below, covers. destruct (decide (mp = [slash])) as [->|Hne]; [rewrite bool_decide_true by done; cbn; by rewrite !orb_true_r|]. rewrite take_app_length' by done. rewrite bool_decide_true by done. rewrite app_nth2 by lia. by rewrite Nat.sub_diag.
Qed.

Lemma below_relative mp rest : nth 0 rest 0 <> slash -> relative (below mp rest) (length mp) = take 255 rest.
Proof.
  intros Hs. unfold below, relative. destruct (decide (mp = [slash])) as [->|Hne].
  - cbn [length drop]. by rewrite (proj2 (Z.eqb_neq _ slash)) by done.
  - rewrite drop_app_length. cbn [nth]. by rewrite Z.eqb_refl.
Qed.

Lemma pick_app mp path l : forall best n k, pick mp path best n (l ++ k) = pick mp path (fst (pick mp path best n l)) (snd (pick mp path best n l)) k.
Proof. induction l as [|q l IH]; intros best n k; cbn [app pick]; [done|]. destruct (_ && _); apply IH. Qed.

Lemma pick_ext mp mp' path l : forall best n, Forall (fun q => mp' q = mp q) l -> pick mp' path best n l = pick mp path best n l.
Proof. induction l as [|q l IH]; intros best n H; [done|]. apply Forall_cons_1 in H as [Hq H]. cbn [pick]. rewrite Hq. destruct (_ && _); by apply IH. Qed.

Lemma pick_short mp path l k : Forall (fun q => covers path (mp q) = true -> (length (mp q) < k)%nat) l -> (0 < k)%nat -> (snd (pick mp path 0 0 l) < k)%nat.
Proof.
  intros H Hk. destruct (pick_spec mp path l 0 0) as (_ & _ & [->|(Hin & Hc & ->)]); [done|]. rewrite Forall_forall in H. by apply H.
Qed.

Lemma same_mounts_mp m m' p : same_mounts m m' -> mountpoint <$> m' !! p = mountpoint <$> m !! p.
Proof. intros H. specialize (H p). destruct (m !! p), (m' !! p); try done. cbn in *. by injection H as -> _. Qed.

(** The state after a successful mount. *)
Lemma mount_run (s : st) device mp ty new fs f w1 ml : linked m_next (mounts s) (mount_points s) ml -> find_filesystem ty s = Ret fs s -> systems s !! fs = Some f -> fs <> 0 -> new <> 0 -> mounts s !! new = None ->
  match fs_mount f with Some g => g device mp (world s) = Ret ERR_OK w1 | None => w1 = world s end ->
  exists m' head root, vfs_mount device mp ty new true s = Ret ERR_OK (set_mounts m' head root (set_world s w1)) /\ linked m_next m' head (ml ++ [new]) /\
    same_mounts (<[new := {| mountpoint := mp; m_fs := fs; m_next := 0 |}]> (mounts s)) m'.
Proof.
  intros Hl E Hf Hfs0 Hn0 Hnew Hmount. unfold vfs_mount. rewrite (bind_run _ _ _ _ _ E), (proj2 (Z.eqb_neq fs 0)), (proj2 (Z.eqb_neq new 0)) by done. cbn [negb]. erewrite bind_run by (unfold system_at; by rewrite Hf).
  assert (Em : (match fs_mount f with Some g => on_world (g device mp) | None => ret ERR_OK end) s = Ret ERR_OK (set_world s w1)) by (destruct (fs_mount f); [unfold on_world; by rewrite Hmount|subst; by destruct s]).
  rewrite (bind_run _ _ _ _ _ Em). rewrite bool_decide_true by done. cbn [negb].
  destruct (append_mount_run (set_world s w1) new {| mountpoint := mp; m_fs := fs; m_next := 0 |} ml) as (m' & head & Ea & Hl' & Hsame); [done..|]. rewrite (bind_run _ _ _ _ _ Ea). case_bool_decide.
  - erewrite bind_run by reflexivity. by exists m', head, new.
  - erewrite bind_run by reflexivity. by exists m', head, (root_mount s).
Qed.

(** One operation of a file system on a path. *)
Definition fs_path_op (op : option (list Z -> Effect.M F error_code_t)) (path : list Z) : Effect.M st error_code_t :=
  match op with None => ret ERR_NOT_SUPPORTED | Some g => on_world (g path) end.

Definition fs_path_stat (op : option (list Z -> Effect.M F (error_code_t * option vfs_stat_t))) (path : list Z) : Effect.M st (error_code_t * option vfs_stat_t) :=
  match op with None => ret (ERR_NOT_SUPPORTED, None) | Some g => on_world (g path) end.

(** A path below a new mount point leads there. *)
Lemma mounted_leads (s s1 : st) mp new fs f m' head root w1 ml rest :
  s1 = set_mounts m' head root (set_world s w1) -> linked m_next (mounts s) (mount_points s) ml -> linked m_next m' head (ml ++ [new]) ->
  same_mounts (<[new := {| mountpoint := mp; m_fs := fs; m_next := 0 |}]> (mounts s)) m' -> systems s !! fs = Some f -> fs <> 0 -> new <> 0 -> mounts s !! new = None -> mp <> [] ->
  nth 0 rest 0 <> slash -> Forall (fun q => covers (below mp rest) (mp_of s q) = true -> (length (mp_of s q) < length mp)%nat) ml ->
  exists m, leads s1 (below mp rest) new m f (take 255 rest).
Proof.
  intros Hs1 Hl Hl' Hsame Hf Hfs0 Hn0 Hnew Hmp Hs Hshort.
  assert (Hnin : new ∉ ml) by (intros Hin; destruct (linked_elem _ _ _ _ _ Hl Hin) as [_ [x Hx]]; congruence).
  assert (Hat : exists x, m' !! new = Some x /\ mountpoint x = mp /\ m_fs x = fs) by (pose proof (Hsame new) as H; rewrite lookup_insert_eq in H; destruct (m' !! new) as [x|]; [|done]; injection H as H1 H2; by exists x).
  destruct Hat as (x & Hx & Hxm & Hxf). exists x. subst s1. split; [|split; [done|exact Hx]|by rewrite Hxf]. exists (ml ++ [new]). split; [exact Hl'|].
  set (s1 := set_mounts _ _ _ _) in *. unfold resolution. rewrite pick_app. cbn [pick].
  assert (Hold : pick (mp_of s1) (below mp rest) 0 0 ml = pick (mp_of s) (below mp rest) 0 0 ml).
  { apply pick_ext, Forall_forall. intros q Hq. unfold mp_of at 1. cbn [mounts s1 set_mounts]. rewrite (same_mounts_mp _ _ q Hsame), lookup_insert_ne by (by intros ->). done. }
  assert (Hnew1 : mp_of s1 new = mp) by (unfold mp_of; cbn [mounts s1 set_mounts]; by rewrite Hx, <- Hxm). rewrite Hold, Hnew1, below_covered.
  pose proof (pick_short (mp_of s) (below mp rest) ml (length mp) Hshort) as Hlt. rewrite (proj2 (Nat.ltb_lt _ _)) by (apply Hlt; destruct mp; [done|cbn; lia]). cbn [andb fst snd].
  rewrite (proj2 (Z.eqb_neq new 0)) by done. by rewrite below_relative.
Qed.

(** C33. Paths below a mount point.  When a registered file system of any kind is mounted at
    a non-empty path and its mount operation succeeds, then [vfs_mount] succeeds, and each
    path below the mount point (the rest of which does not start with a slash), unless an
    older mount point that is at least as long covers it, resolves to the new mount and the
    first 255 characters of the rest: [vfs_mkdir], [vfs_rmdir], [vfs_unlink] and [vfs_stat] on
    it are the operations of that file system on these characters.  Assumed: the list of
    mount points is well formed, and [kmalloc] gives unused memory. *)
Theorem vfs_mount_dispatch (s : st) device mp ty new fs f w1 ml : linked m_next (mounts s) (mount_points s) ml -> find_filesystem ty s = Ret fs s -> systems s !! fs = Some f -> fs <> 0 ->
  new <> 0 -> mounts s !! new = None -> mp <> [] -> match fs_mount f with Some m => m device mp (world s) = Ret ERR_OK w1 | None => w1 = world s end ->
  exists s1, vfs_mount device mp ty new true s = Ret ERR_OK s1 /\ world s1 = w1 /\
  forall rest, nth 0 rest 0 <> slash -> Forall (fun q => covers (below mp rest) (mp_of s q) = true -> (length (mp_of s q) < length mp)%nat) ml ->
    let path := below mp rest in
    let rel := take 255 rest in
    vfs_resolve_path path s1 = Ret (ERR_OK, new, rel) s1 /\
    vfs_mkdir path s1 = fs_path_op (fs_mkdir f) rel s1 /\ vfs_rmdir path s1 = fs_path_op (fs_rmdir f) rel s1 /\
    vfs_unlink path s1 = fs_path_op (fs_unlink f) rel s1 /\ vfs_stat path s1 = fs_path_stat (fs_stat f) rel s1.
Proof.
  intros Hl E Hf Hfs0 Hn0 Hnew Hmp Hmount.
  destruct (mount_run s device mp ty new fs f w1 ml) as (m' & head & root & Em & Hl' & Hsame); [done..|].
  eexists. split; [exact Em|]. split; [done|]. intros rest Hs Hshort path rel.
  destruct (mounted_leads s _ mp new fs f m' head root w1 ml rest eq_refl) as [m Hlead]; [done..|].
  pose proof (leads_run _ _ _ _ _ _ Hlead) as Hat. split_and!.
  - destruct Hlead as [(k & Hk & Hres) _ _]. unfold path, rel. by rewrite (resolve_run _ _ k Hk), Hres.
  - unfold vfs_mkdir, path_call, fs_path_op. by erewrite bind_run by exact Hat.
  - unfold vfs_rmdir, path_call, fs_path_op. by erewrite bind_run by exact Hat.
  - unfold vfs_unlink, path_call, fs_path_op. by erewrite bind_run by exact Hat.
  - unfold vfs_stat, fs_path_stat. by erewrite bind_run by exact Hat.
Qed.

(** After the root file system is unmounted, the first other file system stands in for it:
    an absolute path that none of the remaining mount points covers leads there. *)
Theorem vfs_unmount_root_misdirects (s : st) r p l rest : vfs_inv s -> linked m_next (mounts s) (mount_points s) (r :: p :: l) -> mp_of s r = [slash] -> root_mount s = r ->
  Forall (fun q => covers (slash :: rest) (mp_of s q) = false) (p :: l) ->
  runs (e <~ vfs_unmount [slash];; q <~ vfs_resolve_path (slash :: rest);; ret (e, q)) (fun x _ => x = (ERR_OK, (ERR_OK, p, relative (slash :: rest) 1))) s.
Proof.
  intros Hi Hl Hr Hroot Hnone. eapply runs_bind; [by apply (unmount_spec [] (p :: l) r)|]. cbn [app]. intros e s' (-> & w & m & head & -> & Hl' & Hsame). rewrite Hroot, Z.eqb_refl.
  pose proof (linked_NoDup _ _ _ _ Hl) as Hnd. apply NoDup_cons in Hnd as [Hrin _]. pose proof Hl' as (-> & Hp & _). set (s1 := set_mounts m p p (set_world s w)).
  assert (Hmp : Forall (fun q => covers (slash :: rest) (mp_of s1 q) = false) (p :: l)).
  { apply Forall_forall. intros q Hq. rewrite Forall_forall in Hnone. rewrite <- (Hnone q Hq). f_equal. unfold mp_of. cbn [mounts s1 set_mounts]. rewrite (same_mounts_mp _ _ q Hsame), lookup_delete_ne by (by intros ->). done. }
  eapply runs_step; [apply (resolve_run _ s1 (p :: l)); exact Hl'|]. apply runs_ret. f_equal. unfold resolution.
  assert (Hpick : forall k best n, Forall (fun q => covers (slash :: rest) (mp_of s1 q) = false) k -> pick (mp_of s1) (slash :: rest) best n k = (best, n)).
  { induction k as [|q k IH]; intros best n H; [done|]. apply Forall_cons_1 in H as [Hq H]. cbn [pick]. rewrite Hq. by apply IH. }
  rewrite Hpick by done. cbn [fst snd root_mount s1 set_mounts nth]. rewrite (proj2 (Z.eqb_neq p 0)) by done. done.
Qed.

(** The file permissions.  When the file system knows the mode of a file and the mode does
    not let the user read or write it as the flags ask, the file is not opened, and the
    same descriptors are in use as before. *)
Theorem vfs_open_denied uid gid path flags (s : st) p f rel m g st w : vfs_inv s -> vfs_resolve_path path s = Ret (ERR_OK, p, rel) s -> p <> 0 -> mounts s !! p = Some m -> systems s !! m_fs m = Some f ->
  fs_stat f = Some g -> g rel (world s) = Ret (ERR_OK, Some st) w -> access_allowed flags uid gid st = false -> (exists i, 0 <= i < MAX_FDS /\ used (fd_table s i) = false) ->
  runs (vfs_open uid gid path flags) (fun r s' => r = (ERR_PERMISSION_DENIED, 0) /\ forall j, used (fd_table s' j) = used (fd_table s j)) s.
Proof.
  intros Hi E Hp Hm Hf Hg Est Hdeny [i0 [Hi0 Hfree]]. destruct (inv_fs _ Hi _ _ Hm) as [H0 _]. unfold vfs_open. eapply runs_step; [exact E|]. cbv beta iota. rewrite bool_decide_true, (proj2 (Z.eqb_neq p 0)) by done. cbn [negb orb].
  eapply runs_step; [unfold mount_at; by rewrite Hm|]. rewrite (proj2 (Z.eqb_neq (m_fs m) 0)) by done. unfold allocate_fd.
  destruct (find_first (fun i => negb (used (fd_table s i))) 0 (Z.to_nat MAX_FDS)) as [i|] eqn:Hff; [|pose proof (proj1 (find_first_None _ _ _) Hff i0 ltac:(unfold MAX_FDS in *; lia)) as H; cbv beta in H; by rewrite Hfree in H].
  eapply runs_step; [erewrite bind_run by reflexivity; rewrite Hff; reflexivity|]. apply find_first_Some in Hff as (Hib & Hu & _). replace (i <? 0) with false by lia.
  eapply runs_step; [unfold system_at; cbn [systems set_fds]; by rewrite Hf|]. rewrite Hg. eapply runs_step; [unfold on_world; cbn [world set_fds]; rewrite Est; reflexivity|]. cbv beta iota. rewrite Hdeny. cbn [negb].
  unfold free_fd. replace (_ && _) with true by (unfold MAX_FDS in *; lia). eapply runs_step; [reflexivity|]. apply runs_ret. split; [done|]. intros j. cbn [fd_table set_fds set_world].
  destruct (decide (j = i)) as [->|Hne]; [rewrite aset_eq; by destruct (used (fd_table s i))|by rewrite !aset_ne].
Qed.

End invariant.

(** ** An example

    A file system that keeps the names of its directories, and whose files belong to root
    and are closed to everybody else. *)
Section example.

#[local] Open Scope effect_scope.

Definition tree := list (list Z).

Definition secret : vfs_stat_t := {| st_ino := 1; st_type := VFS_TYPE_FILE; st_size := 0; st_mode := 384; st_uid := 0; st_gid := 0; atime := 0; mtime := 0; ctime := 0 |}.

Definition tree_mkdir (path : list Z) : Effect.M tree error_code_t := modify (fun t => path :: t);;; ret ERR_OK.

Definition tree_system : vfs_filesystem_t tree := {|
  fs_name := [116]; fs_mount := None; fs_unmount := None; fs_open := None; fs_close := None; fs_read := None; fs_write := None; fs_seek := None; fs_tell := None;
  fs_mkdir := Some tree_mkdir; fs_rmdir := None; fs_opendir := None; fs_readdir := None; fs_closedir := None; fs_unlink := None; fs_rename := None;
  fs_stat := Some (fun _ => ret (ERR_OK, Some secret)); fs_clear := fun t => t; fs_next := 0 |}.

Definition booted : vfs tree := {| world := []; systems := {[1 := tree_system]}; filesystems := 0; mounts := ∅; mount_points := 0; root_mount := 0; fd_table := fun _ => no_fd |}.

Definition after (o : vfs_op) (s : vfs tree) : vfs tree := match vfs_call o s with Ret _ s' => s' | _ => s end.

(** The tree is registered, and mounted at / and at /m. *)
Definition registered : vfs tree := after (op_register 1) booted.
Definition rooted : vfs tree := after (op_mount [] [slash] [116] 10 true) registered.
Definition two_mounts : vfs tree := after (op_mount [] [slash; 109] [116] 20 true) rooted.

Lemma tree_well_behaved : well_behaved tree_system.
Proof. split; cbn; intros; simplify_eq; try done; (intros w; eexists _, _; by split). Qed.

Lemma booted_initial : initial booted.
Proof. exists booted. split; [|done]. intros p f H. cbn [systems booted] in H. apply lookup_singleton_Some in H as [_ <-]. exact tree_well_behaved. Qed.

Lemma after_step o s : vfs_inv s -> call_ok s o -> vfs_step s (after o s).
Proof. intros Hi Ho. destruct (call_inv s o Hi Ho) as (e & s' & E & _). apply (step_call o e); [done|]. unfold after. by rewrite E. Qed.

Lemma two_mounts_reached : rtc vfs_step booted two_mounts.
Proof.
  assert (H1 : rtc vfs_step booted registered) by (eapply rtc_once, after_step; [apply initial_inv, booted_initial|right; by eexists]).
  assert (H2 : rtc vfs_step booted rooted) by (eapply rtc_r; [exact H1|]; apply after_step; [eapply steps_inv; [exact H1|apply initial_inv, booted_initial]|right; vm_compute; done]).
  eapply rtc_r; [exact H2|]. apply after_step; [eapply steps_inv; [exact H2|apply initial_inv, booted_initial]|right; vm_compute; done].
Qed.

Lemma two_mounts_inv : vfs_inv two_mounts.
Proof. eapply steps_inv; [exact two_mounts_reached|apply initial_inv, booted_initial]. Qed.

Lemma two_mounts_list : linked m_next (mounts two_mounts) (mount_points two_mounts) [10; 20].
Proof. cbn [linked]. vm_compute. repeat (eexists || split); try done. Qed.

Lemma vfs_reachable_safe_witness : rtc vfs_step booted two_mounts /\ vfs_inv two_mounts /\ exists e s, vfs_call (op_open 0 0 [slash; 97] VFS_MODE_READ) two_mounts = Ret e s.
Proof. split; [exact two_mounts_reached|]. apply (vfs_reachable_safe booted two_mounts); [exact booted_initial|exact two_mounts_reached|exact I]. Defined.

Lemma vfs_mount_dispatch_witness : exists s1 s2, vfs_mount [] [slash; 110] [116] 30 true two_mounts = Ret ERR_OK s1 /\
  vfs_mkdir [slash; 110; slash; 97; slash; 98] s1 = Ret ERR_OK s2 /\ world s2 = [[97; slash; 98]].
Proof.
  destruct (vfs_mount_dispatch two_mounts [] [slash; 110] [116] 30 1 tree_system [] [10; 20]) as (s1 & E & Hw & H);
    [exact two_mounts_list|by vm_compute|by vm_compute|done|done|by vm_compute|done|by vm_compute|].
  destruct (H [97; slash; 98]) as (_ & Hm & _); [done|repeat constructor; by vm_compute|].
  eexists s1, _. split; [exact E|]. split; [refine (eq_trans Hm _); reflexivity|]. cbn [world set_world]. by rewrite Hw.
Defined.

Lemma vfs_unmount_root_misdirects_witness : runs (e <~ vfs_unmount [slash];; q <~ vfs_resolve_path [slash; 97];; ret (e, q)) (fun x _ => x = (ERR_OK, (ERR_OK, 20, [97]))) two_mounts.
Proof. apply (vfs_unmount_root_misdirects two_mounts 10 20 [] [97]); [exact two_mounts_inv|exact two_mounts_list|by vm_compute|by vm_compute|repeat constructor; by vm_compute]. Defined.

Lemma vfs_open_denied_witness : runs (vfs_open 5 5 [slash; 97] VFS_MODE_READ) (fun r s => r = (ERR_PERMISSION_DENIED, 0) /\ forall j, used (fd_table s j) = used (fd_table two_mounts j)) two_mounts.
Proof.
  apply (vfs_open_denied 5 5 [slash; 97] VFS_MODE_READ two_mounts 10 tree_system [97] {| mountpoint := [slash]; m_fs := 1; m_next := 20 |} (fun _ => ret (ERR_OK, Some secret)) secret []);
    [exact two_mounts_inv|by vm_compute|done|by vm_compute|by vm_compute|done|by vm_compute|by vm_compute|]. exists 0. split; [done|by vm_compute].
Defined.

End example.
