(* ===== verification/Block.v ===== *)
(** * Block devices (kernel/fs/block.c)

    A device is the structure of block.h; its operations are pointers to functions of a
    driver, which may be null.  The driver keeps a state of its own, of type [D].  An
    operation that reads gets the part of the caller's buffer that it may fill, and gives
    back what it left there.  Names are the characters of a C string. *)

From stdpp Require Import base tactics list numbers option gmap.
From Stdlib Require Import Lia ZifyBool.
From S2P Require Import Prelude Effect Bytes Linked.

#[local] Open Scope Z_scope.
#[local] Open Scope effect_scope.

Record block_device_t (D : Type) := {
  name : list Z; block_count : Z; block_size : Z;
  read_block : option (Z -> list Z -> Effect.M D (error_code_t * list Z));
  write_block : option (Z -> list Z -> Effect.M D error_code_t);
  read_blocks : option (Z -> Z -> list Z -> Effect.M D (error_code_t * list Z));
  write_blocks : option (Z -> Z -> list Z -> Effect.M D error_code_t);
  next : Z
}.
Arguments name {D} _.
Arguments block_count {D} _.
Arguments block_size {D} _.
Arguments read_block {D} _.
Arguments write_block {D} _.
Arguments read_blocks {D} _.
Arguments write_blocks {D} _.
Arguments next {D} _.

(** ** The list of devices *)

(** The device structures by address, and the head of the list. *)
Record devices (D : Type) := { devs : gmap Z (block_device_t D); block_devices : Z }.
Arguments devs {D} _.
Arguments block_devices {D} _.

Section registry.
  Context {D : Type}.

#[local] Abbreviation M := (Effect.M (devices D)).

Definition block_device_init : M error_code_t := modify (fun s => {| devs := devs s; block_devices := 0 |});;; ret ERR_OK.

Definition with_next (n : Z) (d : block_device_t D) : block_device_t D :=
  {| name := name d; block_count := block_count d; block_size := block_size d; read_block := read_block d; write_block := write_block d;
     read_blocks := read_blocks d; write_blocks := write_blocks d; next := n |}.

Definition dev_at (p : Z) : M (block_device_t D) := fun s => match devs s !! p with Some d => Ret d s | None => Fault end.

Definition block_device_register (device : Z) : M error_code_t :=
  if device =? 0 then ret ERR_INVALID_ARG
  else
    d <~ dev_at device;;
    modify (fun s => {| devs := <[device := with_next (block_devices s) d]> (devs s); block_devices := device |});;;
    ret ERR_OK.

(** The comparison of two strings: the first difference or the end decides. *)
Fixpoint same_name (a b : list Z) : bool :=
  match a, b with
  | [], [] => true
  | x :: a, y :: b => if x =? y then same_name a b else false
  | _, _ => false
  end.

Fixpoint get_loop (fuel : nat) (n : list Z) (dev : Z) : M Z :=
  match fuel with
  | O => stop NoFuel
  | S fuel =>
      if dev =? 0 then ret 0
      else d <~ dev_at dev;; if same_name (name d) n then ret dev else get_loop fuel n (next d)
  end.

Definition block_device_get (n : list Z) : M Z :=
  fuel <~ get (fun s => S (size (devs s)));; head <~ get block_devices;; get_loop fuel n head.

End registry.

(** ** Reading and writing *)

Section transfer.
  Context {D : Type} (dev : block_device_t D).

#[local] Abbreviation M := (Effect.M D).

(** The code, and the caller's buffer afterwards. *)
Definition block_device_read (block_num : Z) (buffer : list Z) : M (error_code_t * list Z) :=
  if block_count dev <=? block_num then ret (ERR_INVALID_ARG, buffer)
  else
    match read_block dev with
    | None => ret (ERR_NOT_SUPPORTED, buffer)
    | Some f =>
        let n := Z.to_nat (block_size dev) in
        if (length buffer <? n)%nat then stop Fault else r <~ f block_num (take n buffer);; ret (fst r, snd r ++ drop n buffer)
    end.

Definition block_device_write (block_num : Z) (buffer : list Z) : M error_code_t :=
  if block_count dev <=? block_num then ret ERR_INVALID_ARG
  else
    match write_block dev with
    | None => ret ERR_NOT_SUPPORTED
    | Some f =>
        let n := Z.to_nat (block_size dev) in
        if (length buffer <? n)%nat then stop Fault else f block_num (take n buffer)
    end.

(** The loops from block [start + i] on, [n] blocks before the end. *)
Fixpoint read_loop (n : nat) (start i : Z) (buffer : list Z) : M (error_code_t * list Z) :=
  match n with
  | O => ret (ERR_OK, buffer)
  | S n =>
      let o := Z.to_nat (i * block_size dev) in
      r <~ block_device_read (u64 (start + i)) (drop o buffer);;
      let buffer := take o buffer ++ snd r in
      if negb (bool_decide (fst r = ERR_OK)) then ret (fst r, buffer) else read_loop n start (i + 1) buffer
  end.

Fixpoint write_loop (n : nat) (start i : Z) (buffer : list Z) : M error_code_t :=
  match n with
  | O => ret ERR_OK
  | S n =>
      err <~ block_device_write (u64 (start + i)) (drop (Z.to_nat (i * block_size dev)) buffer);;
      if negb (bool_decide (err = ERR_OK)) then ret err else write_loop n start (i + 1) buffer
  end.

Definition block_device_read_blocks (start count : Z) (buffer : list Z) : M (error_code_t * list Z) :=
  if count =? 0 then ret (ERR_INVALID_ARG, buffer)
  else if block_count dev <? u64 (start + count) then ret (ERR_INVALID_ARG, buffer)
  else
    match read_blocks dev with
    | Some f =>
        let n := Z.to_nat (count * block_size dev) in
        if (length buffer <? n)%nat then stop Fault else r <~ f start count (take n buffer);; ret (fst r, snd r ++ drop n buffer)
    | None => read_loop (Z.to_nat count) start 0 buffer
    end.

Definition block_device_write_blocks (start count : Z) (buffer : list Z) : M error_code_t :=
  if count =? 0 then ret ERR_INVALID_ARG
  else if block_count dev <? u64 (start + count) then ret ERR_INVALID_ARG
  else
    match write_blocks dev with
    | Some f =>
        let n := Z.to_nat (count * block_size dev) in
        if (length buffer <? n)%nat then stop Fault else f start count (take n buffer)
    | None => write_loop (Z.to_nat count) start 0 buffer
    end.

End transfer.

(** ** The list *)

Section listing.
  Context {D : Type}.

Lemma same_name_spec a b : same_name a b = bool_decide (a = b).
Proof.
  revert b. induction a as [|x a IH]; intros [|y b]; try done. cbn [same_name]. destruct (Z.eqb_spec x y) as [->|Hne].
  - rewrite IH. apply bool_decide_ext. split; [by intros ->|by intros [= ->]].
  - rewrite bool_decide_false; [done|]. by intros [= -> ->].
Qed.

#[local] Abbreviation linked := (Linked.linked (next (D := D))).

(** The first device of [l] with the name [n], or 0. *)
Fixpoint first_named (m : gmap Z (block_device_t D)) (n : list Z) (l : list Z) : Z :=
  match l with [] => 0 | q :: l => if decide (name <$> m !! q = Some n) then q else first_named m n l end.

Lemma get_loop_run n l : forall fuel p s, (length l < fuel)%nat -> linked (devs s) p l -> get_loop fuel n p s = Ret (first_named (devs s) n l) s.
Proof.
  induction l as [|q l IH]; intros [|fuel] p s Hf; cbn [Linked.linked get_loop first_named length] in *; try lia; [intros ->; done|]. intros (-> & Hq & d & Hd & Hl).
  rewrite (proj2 (Z.eqb_neq q 0) Hq). erewrite bind_run by (unfold dev_at; by rewrite Hd). rewrite Hd, same_name_spec. cbn [fmap option_fmap option_map].
  destruct (decide (name d = n)) as [->|Hn]; [rewrite bool_decide_true by done; by rewrite decide_True|]. rewrite bool_decide_false by done. rewrite decide_False by (by intros [= ?]). apply IH; [lia|done].
Qed.

(** The state after the devices [ps] were registered in turn. *)
Definition registered (ps : list Z) : Effect.M (devices D) unit := foldr (fun p m => block_device_register p;;; m) (ret tt) ps.

Lemma registered_run ps : forall l s, NoDup (ps ++ l) -> Forall (fun p => p <> 0 /\ is_Some (devs s !! p)) ps -> linked (devs s) (block_devices s) l ->
  exists s', registered ps s = Ret tt s' /\ linked (devs s') (block_devices s') (rev ps ++ l) /\ forall p, name <$> devs s' !! p = name <$> devs s !! p.
Proof.
  induction ps as [|p ps IH]; intros l s Hnd Hps Hl; [by exists s|]. apply Forall_cons_1 in Hps as [[Hp [d Hd]] Hps]. cbn [registered foldr app] in *. apply NoDup_cons in Hnd as [Hin Hnd].
  unfold block_device_register. rewrite (proj2 (Z.eqb_neq p 0) Hp). erewrite bind_run; [|erewrite bind_run by (unfold dev_at; by rewrite Hd); by erewrite bind_run by reflexivity].
  match goal with |- context [foldr _ _ _ ?x = _] => set (s1 := x) end. destruct (IH (p :: l) s1) as (s' & E & Hl' & Hn).
  - apply NoDup_app. apply NoDup_app in Hnd as (Hnd1 & Hdis & Hnd2). rewrite not_elem_of_app in Hin. split; [done|]. split; [intros x Hx [->|Hx']%elem_of_cons; [tauto|by apply (Hdis x)]|]. apply NoDup_cons. split; [tauto|done].
  - eapply Forall_impl; [exact Hps|]. intros q [Hq Hs]. split; [done|]. cbn [devs s1]. by apply lookup_insert_is_Some'; right.
  - cbn [Linked.linked devs block_devices s1]. split; [done|]. split; [done|]. eexists. split; [apply lookup_insert_eq|]. cbn [next with_next]. apply linked_insert; [rewrite not_elem_of_app in Hin; tauto|done].
  - exists s'. split; [done|]. split; [cbn [rev]; by rewrite <- app_assoc|]. intros q. rewrite Hn. cbn [devs s1]. destruct (decide (q = p)) as [->|Hq]; [rewrite lookup_insert_eq, Hd; done|by rewrite lookup_insert_ne by done].
Qed.

Lemma first_named_ext m m' n l : (forall p, name <$> m' !! p = name <$> m !! p) -> first_named m' n l = first_named m n l.
Proof. intros H. induction l as [|q l IH]; [done|]. cbn [first_named]. by rewrite H, IH. Qed.

(** The list of devices.  After devices at different addresses were registered,
    looking up a name gives the one of that name that was registered last, or null. *)
Theorem block_device_get_newest ps n s : NoDup ps -> Forall (fun p => p <> 0 /\ is_Some (devs s !! p)) ps ->
  exists s', (block_device_init;;; registered ps;;; block_device_get n) s = Ret (first_named (devs s) n (rev ps)) s'.
Proof.
  intros Hnd Hps. erewrite bind_run by reflexivity. destruct (registered_run ps [] {| devs := devs s; block_devices := 0 |}) as (s' & E & Hl & Hn); [by rewrite app_nil_r|done|done|].
  rewrite (bind_run _ _ _ _ _ E). exists s'. rewrite app_nil_r in Hl. unfold block_device_get. do 2 erewrite bind_run by reflexivity. rewrite (get_loop_run _ (rev ps)); [|rewrite length_rev|done].
  - by rewrite (first_named_ext (devs s)) by exact Hn.
  - apply linked_length in Hl. rewrite length_rev in Hl. lia.
Qed.

End listing.

(** ** What a driver promises

    The device holds the blocks [medium d]: reading gives a block, writing replaces it
    and leaves the others. *)

Definition agree {D} (medium : D -> Z -> list Z) (d d' : D) : Prop := forall n, medium d' n = medium d n.

(** The blocks from [start] on are those of [l] one after the other; the others are as in [d]. *)
Definition stored {D} (medium : D -> Z -> list Z) (size start count : Z) (l : list Z) (d d' : D) : Prop :=
  forall n, medium d' n = if (start <=? n) && (n <? start + count) then take (Z.to_nat size) (drop (Z.to_nat ((n - start) * size)) l) else medium d n.

(** The blocks [start .. start + count - 1] one after the other. *)
Definition extent {D} (medium : D -> Z -> list Z) (d : D) (start : Z) (count : nat) : list Z := concat ((fun i => medium d (start + Z.of_nat i)) <$> seq 0 count).

Class Disk {D} (dev : block_device_t D) (medium : D -> Z -> list Z) : Prop := {
  disk_size : 0 < block_size dev < 2 ^ 32;
  disk_count : fits 63 (block_count dev);
  disk_block : forall d n, length (medium d n) = Z.to_nat (block_size dev) /\ bytes (medium d n);
  disk_read : exists f, read_block dev = Some f /\ forall n b d, 0 <= n < block_count dev -> length b = Z.to_nat (block_size dev) ->
    exists d', f n b d = Ret (ERR_OK, medium d n) d' /\ agree medium d d';
  disk_write : exists f, write_block dev = Some f /\ forall n b d, 0 <= n < block_count dev -> length b = Z.to_nat (block_size dev) -> bytes b ->
    exists d', f n b d = Ret ERR_OK d' /\ stored medium (block_size dev) n 1 b d d';
  disk_reads : forall f, read_blocks dev = Some f -> forall n c b d, 0 <= n -> 0 < c -> n + c <= block_count dev -> length b = Z.to_nat (c * block_size dev) ->
    exists d', f n c b d = Ret (ERR_OK, extent medium d n (Z.to_nat c)) d' /\ agree medium d d';
  disk_writes : forall f, write_blocks dev = Some f -> forall n c b d, 0 <= n -> 0 < c -> n + c <= block_count dev -> length b = Z.to_nat (c * block_size dev) -> bytes b ->
    exists d', f n c b d = Ret ERR_OK d' /\ stored medium (block_size dev) n c b d d'
}.

Section disk.
  Context {D : Type} (dev : block_device_t D) (medium : D -> Z -> list Z) `{Hdisk : !Disk dev medium}.

#[local] Abbreviation size := (block_size dev).
#[local] Abbreviation agree := (agree medium).
#[local] Abbreviation stored := (stored medium size).
#[local] Abbreviation extent := (extent medium).

Lemma agree_refl d : agree d d.
Proof. by intros n. Qed.

Lemma agree_trans d d' d'' : agree d d' -> agree d' d'' -> agree d d''.
Proof. intros H H' n. by rewrite H', H. Qed.

Lemma extent_agree d d' start count : agree d d' -> extent d' start count = extent d start count.
Proof. intros H. unfold Block.extent. f_equal. apply list_fmap_ext. intros i k _. apply H. Qed.

Lemma extent_S d start n : extent d start (S n) = medium d start ++ extent d (start + 1) n.
Proof.
  unfold Block.extent. cbn [seq fmap list_fmap concat]. f_equal; [f_equal; lia|]. f_equal. rewrite <- fmap_S_seq, <- list_fmap_compose. apply list_fmap_ext. intros i k _. cbn. f_equal. lia.
Qed.

Lemma extent_length d start n : length (extent d start n) = (n * Z.to_nat size)%nat.
Proof. revert start. induction n as [|n IH]; intros start; [done|]. rewrite extent_S, length_app, IH. rewrite (proj1 (disk_block d start)). lia. Qed.

Lemma read_runs n b d : 0 <= n < block_count dev -> (Z.to_nat size <= length b)%nat ->
  runs (block_device_read dev n b) (fun r d' => r = (ERR_OK, medium d n ++ drop (Z.to_nat size) b) /\ agree d d') d.
Proof.
  intros Hn Hb. destruct disk_read as (f & Hf & Hr). destruct (Hr n (take (Z.to_nat size) b) d Hn) as (d' & E & Ha); [rewrite length_take; lia|].
  exists (ERR_OK, medium d n ++ drop (Z.to_nat size) b), d'. split; [|done]. unfold block_device_read. rewrite (proj2 (Z.leb_gt _ _)) by lia. rewrite Hf, (proj2 (Nat.ltb_ge _ _)) by done.
  by rewrite (bind_run _ _ _ _ _ E).
Qed.

Lemma stored_take start b d d' : stored start 1 (take (Z.to_nat size) b) d d' -> stored start 1 b d d'.
Proof.
  intros H n. rewrite H. destruct ((_ <=? _) && _) eqn:E; [|done]. apply andb_true_iff in E as [E1%Z.leb_le E2%Z.ltb_lt]. replace (n - start) with 0 by lia. rewrite Z.mul_0_l. change (Z.to_nat 0) with 0%nat. rewrite !drop_0. by rewrite take_take, Nat.min_id.
Qed.

Lemma write_runs n b d : 0 <= n < block_count dev -> (Z.to_nat size <= length b)%nat -> bytes b ->
  runs (block_device_write dev n b) (fun e d' => e = ERR_OK /\ stored n 1 b d d') d.
Proof.
  intros Hn Hb Hby. destruct disk_write as (f & Hf & Hw). destruct (Hw n (take (Z.to_nat size) b) d Hn) as (d' & E & Ha); [rewrite length_take; lia|by apply Forall_take|].
  exists ERR_OK, d'. split; [|split; [done|by apply stored_take]]. unfold block_device_write. rewrite (proj2 (Z.leb_gt _ _)) by lia. rewrite Hf, (proj2 (Nat.ltb_ge _ _)) by done. by rewrite E.
Qed.

(** The loop over the blocks, [i] of which have been read. *)
Lemma read_loop_runs n : forall i start b d, 0 <= start -> 0 <= i -> start + i + Z.of_nat n <= block_count dev -> (Z.to_nat ((i + Z.of_nat n) * size) <= length b)%nat ->
  runs (read_loop dev n start i b)
    (fun r d' => r = (ERR_OK, take (Z.to_nat (i * size)) b ++ extent d (start + i) n ++ drop (Z.to_nat ((i + Z.of_nat n) * size)) b) /\ agree d d') d.
Proof.
  pose proof disk_size as Hz. pose proof disk_count as Hc. induction n as [|n IH]; intros i start b d Hs Hi Hle Hb; cbn [read_loop].
  { apply runs_ret. split; [|apply agree_refl]. rewrite Z.add_0_r. unfold Block.extent. cbn. by rewrite take_drop. }
  assert (Ho : Z.to_nat ((i + Z.of_nat (S n)) * size) = (Z.to_nat (i * size) + Z.to_nat size + n * Z.to_nat size)%nat) by nia.
  assert (Ho' : Z.to_nat ((i + 1) * size) = (Z.to_nat (i * size) + Z.to_nat size)%nat) by nia.
  rewrite (wrap_small 64) by fits_lia. eapply runs_bind; [apply read_runs; [lia|rewrite length_drop; lia]|]. intros r d' [-> Ha]. cbn [fst snd]. rewrite bool_decide_true by done. cbn [negb].
  rewrite drop_drop, app_assoc.
  eapply runs_mono; [apply IH; try lia|].
  { rewrite !length_app, length_take, length_drop, (proj1 (disk_block d _)). replace (i + 1 + Z.of_nat n) with (i + Z.of_nat (S n)) by lia. lia. }
  intros r d'' [-> Ha']. split; [|by eapply agree_trans]. f_equal. rewrite (extent_agree _ _ _ _ Ha).
  assert (Hl : length (take (Z.to_nat (i * size)) b ++ medium d (start + i)) = Z.to_nat ((i + 1) * size)) by (rewrite length_app, length_take, (proj1 (disk_block d _)); lia).
  rewrite <- Hl, take_app_length. rewrite extent_S, <- !app_assoc, Z.add_assoc. do 3 f_equal. rewrite drop_app_ge by (rewrite length_take; lia).
  rewrite drop_app_ge by (rewrite length_take, (proj1 (disk_block d _)); lia). rewrite drop_drop, length_take, (proj1 (disk_block d _)). f_equal. lia.
Qed.

Lemma read_blocks_runs start count b d : 0 <= start -> 0 < count -> start + count <= block_count dev -> (Z.to_nat (count * size) <= length b)%nat ->
  runs (block_device_read_blocks dev start count b) (fun r d' => r = (ERR_OK, extent d start (Z.to_nat count) ++ drop (Z.to_nat (count * size)) b) /\ agree d d') d.
Proof.
  pose proof disk_count as Hfit. intros Hs Hc Hle Hb. unfold block_device_read_blocks. rewrite (proj2 (Z.eqb_neq count 0)) by lia. rewrite (wrap_small 64) by fits_lia. rewrite (proj2 (Z.ltb_ge _ _)) by lia.
  destruct (read_blocks dev) as [f|] eqn:Hf.
  - rewrite (proj2 (Nat.ltb_ge _ _)) by done. destruct (disk_reads f Hf start count (take (Z.to_nat (count * size)) b) d) as (d' & E & Ha); [done|done|done|rewrite length_take; lia|].
    eexists _, d'. split; [|done]. by rewrite (bind_run _ _ _ _ _ E).
  - eapply runs_mono; [apply read_loop_runs; rewrite ?Z2Nat.id by lia; lia|]. intros r d' [-> Ha]. split; [|done]. rewrite Z2Nat.id, Z.add_0_r by lia. done.
Qed.

Lemma write_loop_runs n : forall i start b d, 0 <= start -> 0 <= i -> start + i + Z.of_nat n <= block_count dev -> (Z.to_nat ((i + Z.of_nat n) * size) <= length b)%nat -> bytes b ->
  runs (write_loop dev n start i b)
    (fun e d' => e = ERR_OK /\ forall m, medium d' m = if (start + i <=? m) && (m <? start + i + Z.of_nat n) then take (Z.to_nat size) (drop (Z.to_nat ((m - start) * size)) b) else medium d m) d.
Proof.
  pose proof disk_size as Hz. pose proof disk_count as Hc. induction n as [|n IH]; intros i start b d Hs Hi Hle Hb Hby; cbn [write_loop].
  { apply runs_ret. split; [done|]. intros m. destruct (Z.leb_spec (start + i) m); cbn [andb]; [|done]. by rewrite (proj2 (Z.ltb_ge _ _)) by lia. }
  rewrite (wrap_small 64) by fits_lia. eapply runs_bind; [apply write_runs; [lia|rewrite length_drop; nia|by apply Forall_drop]|]. intros e d' [-> Hst].
  rewrite bool_decide_true by done. cbn [negb]. eapply runs_mono; [apply IH; [lia|lia|lia|nia|done]|]. intros e d'' [-> Ha]. split; [done|]. intros m. rewrite Ha, Hst, drop_drop.
  destruct (decide (m = start + i)) as [->|Hne].
  - rewrite (proj2 (Z.leb_gt (start + (i + 1)) _)), !(proj2 (Z.leb_le _ _)), !(proj2 (Z.ltb_lt _ _)) by lia. cbn [andb]. do 2 f_equal. nia.
  - replace ((start + (i + 1) <=? m) && (m <? start + (i + 1) + Z.of_nat n)) with ((start + i <=? m) && (m <? start + i + Z.of_nat (S n))) by lia. destruct (_ && _); [done|].
    by replace ((start + i <=? m) && (m <? start + i + 1)) with false by lia.
Qed.

Lemma write_blocks_runs start count b d : 0 <= start -> 0 < count -> start + count <= block_count dev -> (Z.to_nat (count * size) <= length b)%nat -> bytes b ->
  runs (block_device_write_blocks dev start count b) (fun e d' => e = ERR_OK /\ stored start count b d d') d.
Proof.
  pose proof disk_count as Hfit. pose proof disk_size as Hz. intros Hs Hc Hle Hb Hby. unfold block_device_write_blocks. rewrite (proj2 (Z.eqb_neq count 0)) by lia.
  rewrite (wrap_small 64) by fits_lia. rewrite (proj2 (Z.ltb_ge _ _)) by lia. destruct (write_blocks dev) as [f|] eqn:Hf.
  - rewrite (proj2 (Nat.ltb_ge _ _)) by done. destruct (disk_writes f Hf start count (take (Z.to_nat (count * size)) b) d) as (d' & E & Ha); [done|done|done|rewrite length_take; lia|by apply Forall_take|].
    eexists _, d'. split; [by rewrite E|]. split; [done|]. intros m. rewrite Ha. destruct (_ && _) eqn:E'; [|done]. apply andb_true_iff in E' as [E1%Z.leb_le E2%Z.ltb_lt].
    rewrite skipn_firstn_comm, take_take. f_equal. nia.
  - eapply runs_mono; [apply write_loop_runs; rewrite ?Z2Nat.id by lia; try lia; done|]. intros e d' [-> Ha]. split; [done|]. intros m. rewrite Ha, Z2Nat.id, Z.add_0_r by lia. done.
Qed.

(** The extent that was stored. *)
Lemma stored_extent start count b d d' : 0 <= count -> length b = Z.to_nat (count * size) -> stored start count b d d' -> extent d' start (Z.to_nat count) = b.
Proof.
  intros Hc Hl H. pose proof disk_size as Hz.
  assert (Hind : forall n i, 0 <= i -> i + Z.of_nat n = count -> extent d' (start + i) n = drop (Z.to_nat (i * size)) b); [|rewrite <- (Z.add_0_r start); by rewrite Hind by lia].
  induction n as [|n IH]; intros i Hi Hn; [unfold Block.extent; cbn; rewrite drop_ge; [done|nia]|]. rewrite extent_S, H. replace (_ && _) with true by lia. rewrite <- Z.add_assoc, IH by lia.
  replace (Z.to_nat ((i + 1) * size)) with (Z.to_nat (i * size) + Z.to_nat size)%nat by nia. rewrite <- drop_drop. replace (start + i - start) with i by lia. apply take_drop.
Qed.

(** Blocks.  Whether or not the driver has operations for several blocks, data
    written to a range of blocks is read back from it, and every other block of the
    device reads as before. *)
Theorem block_transfer_roundtrip start count b room n block d :
  0 <= start -> 0 < count -> start + count <= block_count dev -> length b = Z.to_nat (count * size) -> bytes b -> length room = length b ->
  0 <= n < block_count dev -> n < start \/ start + count <= n -> length block = Z.to_nat size ->
  runs (e <~ block_device_write_blocks dev start count b;; r <~ block_device_read_blocks dev start count room;; o <~ block_device_read dev n block;; ret (e, r, o))
    (fun x _ => x = (ERR_OK, (ERR_OK, b), (ERR_OK, medium d n))) d.
Proof.
  intros Hs Hc Hle Hl Hb Hr Hn Hout Hbl. eapply runs_bind; [apply write_blocks_runs; try done; lia|]. intros e d1 [-> H1].
  eapply runs_bind; [apply read_blocks_runs; lia|]. intros r d2 [-> H2]. eapply runs_bind; [apply read_runs; lia|]. intros o d3 [-> _]. apply runs_ret.
  rewrite (stored_extent start count b d d1) by (done || lia). rewrite !drop_ge, !app_nil_r by lia. rewrite H2, H1. by replace (_ && _) with false by lia.
Qed.

End disk.

(** ** A disk in memory *)

(** A device of [count] blocks of [size] bytes, without operations for several blocks. *)
Definition ram_medium (size : Z) (d : gmap Z (list Z)) (n : Z) : list Z := u8 <$> resize (Z.to_nat size) 0 (default [] (d !! n)).
Definition ram_device (count size : Z) : block_device_t (gmap Z (list Z)) :=
  {| name := []; block_count := count; block_size := size; read_block := Some (fun n _ => d <~ get (fun d => d);; ret (ERR_OK, ram_medium size d n));
     write_block := Some (fun n b => modify (insert n b);;; ret ERR_OK); read_blocks := None; write_blocks := None; next := 0 |}.

Lemma ram_disk count size : fits 63 count -> 0 < size < 2 ^ 32 -> Disk (ram_device count size) (ram_medium size).
Proof.
  intros Hc Hs. split; [done|done| | | |done|done].
  - intros d n. split; [unfold ram_medium; by rewrite length_fmap, length_resize|]. unfold ram_medium. apply Forall_fmap, Forall_true. intros x. apply wrap_fits. lia.
  - eexists. split; [done|]. intros n b d _ _. exists d. split; [done|]. by intros m.
  - eexists. split; [done|]. intros n b d Hn Hl Hb. eexists. split; [done|]. intros m. unfold ram_medium. cbn [block_size ram_device] in *.
    destruct (decide (m = n)) as [->|Hne].
    + replace (_ && _) with true by lia. rewrite lookup_insert_eq, Z.sub_diag, Z.mul_0_l. change (Z.to_nat 0) with 0%nat. rewrite drop_0. cbn [default]. rewrite resize_all_alt by (symmetry; exact Hl). rewrite take_ge by (rewrite Hl; done).
      rewrite <- (list_fmap_id b) at 2. apply list_fmap_ext. intros i x Hx. apply wrap_small. by apply (Forall_lookup_1 _ _ _ _ Hb Hx).
    + replace (_ && _) with false by lia. by rewrite lookup_insert_ne by done.
Qed.

Lemma block_transfer_roundtrip_witness :
  runs (e <~ block_device_write_blocks (ram_device 8 2) 3 2 [1; 2; 3; 4];; r <~ block_device_read_blocks (ram_device 8 2) 3 2 [0; 0; 0; 0];; o <~ block_device_read (ram_device 8 2) 5 [9; 9];; ret (e, r, o))
    (fun x _ => x = (ERR_OK, (ERR_OK, [1; 2; 3; 4]), (ERR_OK, [0; 0]))) ∅.
Proof.
  replace [0; 0] with (ram_medium 2 ∅ 5) by (by vm_compute).
  apply (@block_transfer_roundtrip _ (ram_device 8 2) (ram_medium 2) (ram_disk 8 2 ltac:(fits_lia) ltac:(lia)) 3 2 [1; 2; 3; 4] [0; 0; 0; 0] 5 [9; 9] ∅);
    try done; try (cbn; lia); repeat constructor; fits_lia.
Defined.
