(* ===== verification/Fat.v ===== *)
(** * FAT32: the file allocation table (kernel/fs/fat32.c)

    The boot sector, the table with its cache of one sector, the chains of clusters and
    the transfer of clusters, on a block device of [Block].  Directories and files are in
    [FatDir] and [FatFile].

    The boot sector is kept as its 512 bytes, and its fields are read at their offsets.
    One file system is mounted, on the device [dev].  [kmalloc] is the pair of parameters
    [mem_ok], whether the call succeeds, and [garbage], what the memory holds; a null
    pointer to a buffer is the empty list.  A division by zero is [Fault].  The messages
    on the console and [fat32_mount], which only prints, are left out. *)

From stdpp Require Import base tactics list numbers option gmap.
From Stdlib Require Import Lia ZifyBool.
From S2P Require Import Prelude Effect Bytes Buffer Block.

#[local] Open Scope Z_scope.

Definition FAT32_CLUSTER_FREE : Z := 0.
Definition FAT32_CLUSTER_EOF_MIN : Z := 0x0FFFFFF8.

(** ** The boot sector *)

(** The little-endian integer of [n] bytes at offset [o]. *)
Definition field (o n : nat) (b : list Z) : Z := le_value (take n (drop o b)).

Definition bytes_per_sector (boot : list Z) : Z := field 11 2 boot.
Definition boot_sectors_per_cluster (boot : list Z) : Z := field 13 1 boot.
Definition reserved_sectors (boot : list Z) : Z := field 14 2 boot.
Definition num_fats (boot : list Z) : Z := field 16 1 boot.
Definition total_sectors_32 (boot : list Z) : Z := field 32 4 boot.
Definition sectors_per_fat_32 (boot : list Z) : Z := field 36 4 boot.
Definition boot_root_cluster (boot : list Z) : Z := field 44 4 boot.
Definition fs_type (boot : list Z) : list Z := take 8 (drop 82 boot).
Definition boot_signature_end (boot : list Z) : Z := field 510 2 boot.

(** The fields of [fat32_fs_t] that [fat32_init] computes. *)
Record fat32_params := {
  boot_sector : list Z; sectors_per_cluster : Z; bytes_per_cluster : Z; fat_start_sector : Z; fat_size_sectors : Z;
  data_start_sector : Z; root_cluster : Z; total_clusters : Z
}.

(** The file system structure, the state of the driver, and the number of calls of [kmalloc]. *)
Record fat32 (D : Type) := { disk : D; params : fat32_params; fat_cache : list Z; fat_cache_sector : Z; allocs : nat }.
Arguments disk {D} _.
Arguments params {D} _.
Arguments fat_cache {D} _.
Arguments fat_cache_sector {D} _.
Arguments allocs {D} _.

Section table.
  Context {D : Type} (dev : block_device_t D) (mem_ok : nat -> bool) (garbage : nat -> nat -> Z).

#[local] Abbreviation M := (Effect.M (fat32 D)).
#[local] Open Scope effect_scope.

Definition set_disk (s : fat32 D) (d : D) : fat32 D :=
  {| disk := d; params := params s; fat_cache := fat_cache s; fat_cache_sector := fat_cache_sector s; allocs := allocs s |}.
Definition set_params (p : fat32_params) (s : fat32 D) : fat32 D :=
  {| disk := disk s; params := p; fat_cache := fat_cache s; fat_cache_sector := fat_cache_sector s; allocs := allocs s |}.
Definition set_cache (c : list Z) (n : Z) (s : fat32 D) : fat32 D :=
  {| disk := disk s; params := params s; fat_cache := c; fat_cache_sector := n; allocs := allocs s |}.
Definition count_alloc (s : fat32 D) : fat32 D :=
  {| disk := disk s; params := params s; fat_cache := fat_cache s; fat_cache_sector := fat_cache_sector s; allocs := S (allocs s) |}.

Definition on_disk {A} (m : Effect.M D A) : M A := fun s =>
  match m (disk s) with Ret a d => Ret a (set_disk s d) | Fault => Fault | Deadlock => Deadlock | Panic => Panic | NoFuel => NoFuel end.

(** [size] bytes of which nothing is known. *)
Definition uninit (size : Z) : M (list Z) := n <~ get allocs;; modify count_alloc;;; ret (garbage n <$> seq 0 (Z.to_nat size)).

Definition kmalloc (size : Z) : M (list Z) := n <~ get allocs;; b <~ uninit size;; ret (if mem_ok n then b else []).

(** ** Starting *)

Definition with_boot (p : fat32_params) (boot : list Z) : fat32_params :=
  {| boot_sector := boot; sectors_per_cluster := sectors_per_cluster p; bytes_per_cluster := bytes_per_cluster p; fat_start_sector := fat_start_sector p;
     fat_size_sectors := fat_size_sectors p; data_start_sector := data_start_sector p; root_cluster := root_cluster p; total_clusters := total_clusters p |}.

Definition fat32_read_boot_sector : M error_code_t :=
  p <~ get params;;
  r <~ on_disk (block_device_read dev 0 (boot_sector p));;
  let boot := snd r in
  modify (set_params (with_boot p boot));;;
  if negb (bool_decide (fst r = ERR_OK)) then ret (fst r)
  else if negb (boot_signature_end boot =? 0xAA55) then ret ERR_INVALID_ELF
  else if negb (bool_decide (take 5 (fs_type boot) = [70; 65; 84; 51; 50])) then ret ERR_INVALID_ELF
  else ret ERR_OK.

Definition fat32_init : M error_code_t :=
  err <~ fat32_read_boot_sector;;
  if negb (bool_decide (err = ERR_OK)) then ret err
  else
    boot <~ get (fun s => boot_sector (params s));;
    let spc := boot_sectors_per_cluster boot in
    let data_start := u32 (reserved_sectors boot + u32 (num_fats boot * sectors_per_fat_32 boot)) in
    let data_sectors := u32 (total_sectors_32 boot - data_start) in
    if spc =? 0 then stop Fault
    else
      modify (set_params {| boot_sector := boot; sectors_per_cluster := spc; bytes_per_cluster := u32 (spc * bytes_per_sector boot);
                            fat_start_sector := reserved_sectors boot; fat_size_sectors := sectors_per_fat_32 boot; data_start_sector := data_start;
                            root_cluster := boot_root_cluster boot; total_clusters := data_sectors / spc |});;;
      cache <~ kmalloc (bytes_per_sector boot);;
      n <~ get fat_cache_sector;;
      modify (set_cache cache n);;;
      if bool_decide (cache = []) then ret ERR_OUT_OF_MEMORY else modify (set_cache cache 0xFFFFFFFF);;; ret ERR_OK.

(** ** Clusters *)

Definition invalid_cluster (p : fat32_params) (cluster : Z) : bool := (cluster <? 2) || (u32 (total_clusters p + 2) <=? cluster).

Definition first_sector (p : fat32_params) (cluster : Z) : Z := u32 (data_start_sector p + u32 (u32 (cluster - 2) * sectors_per_cluster p)).

Definition fat32_read_cluster (cluster : Z) (buffer : list Z) : M (error_code_t * list Z) :=
  p <~ get params;;
  if invalid_cluster p cluster then ret (ERR_INVALID_ARG, buffer)
  else on_disk (block_device_read_blocks dev (first_sector p cluster) (sectors_per_cluster p) buffer).

Definition fat32_write_cluster (cluster : Z) (buffer : list Z) : M error_code_t :=
  p <~ get params;;
  if invalid_cluster p cluster then ret ERR_INVALID_ARG
  else on_disk (block_device_write_blocks dev (first_sector p cluster) (sectors_per_cluster p) buffer).

(** ** The table *)

(** The sector and the offset of an entry of the first table. *)
Definition fat_location (p : fat32_params) (cluster : Z) : M (Z * Z) :=
  let fat_offset := u32 (cluster * 4) in
  let size := bytes_per_sector (boot_sector p) in
  if size =? 0 then stop Fault else ret (u32 (fat_start_sector p + fat_offset / size), fat_offset mod size).

(** Read a sector of the table into the cache unless it is there. *)
Definition load_fat_sector (fat_sector : Z) : M error_code_t :=
  cached <~ get fat_cache_sector;;
  if fat_sector =? cached then ret ERR_OK
  else
    cache <~ get fat_cache;;
    r <~ on_disk (block_device_read dev fat_sector cache);;
    let n := if bool_decide (fst r = ERR_OK) then fat_sector else cached in
    modify (set_cache (snd r) n);;;
    ret (fst r).

Definition fat32_get_next_cluster (cluster : Z) : M Z :=
  p <~ get params;;
  if invalid_cluster p cluster then ret FAT32_CLUSTER_EOF_MIN
  else
    loc <~ fat_location p cluster;;
    err <~ load_fat_sector (fst loc);;
    if negb (bool_decide (err = ERR_OK)) then ret FAT32_CLUSTER_EOF_MIN
    else cache <~ get fat_cache;; entry <~ rd32 cache (snd loc);; ret (Z.land entry 0x0FFFFFFF).

(** The other copies of the table, from copy [i] on; errors are ignored. *)
Fixpoint copy_loop (n : nat) (i fat_sector fat_size : Z) (cache : list Z) : M unit :=
  match n with
  | O => ret tt
  | S n => on_disk (block_device_write dev (u32 (fat_sector + u32 (i * fat_size))) cache);;; copy_loop n (i + 1) fat_sector fat_size cache
  end.

Definition fat32_set_next_cluster (cluster next : Z) : M error_code_t :=
  p <~ get params;;
  if invalid_cluster p cluster then ret ERR_INVALID_ARG
  else
    loc <~ fat_location p cluster;;
    err <~ load_fat_sector (fst loc);;
    if negb (bool_decide (err = ERR_OK)) then ret err
    else
      cache <~ get fat_cache;;
      entry <~ rd32 cache (snd loc);;
      cache <~ wr cache (snd loc) (le_bytes 4 (Z.lor (Z.land entry 0xF0000000) (Z.land next 0x0FFFFFFF)));;
      n <~ get fat_cache_sector;;
      modify (set_cache cache n);;;
      err <~ on_disk (block_device_write dev (fst loc) cache);;
      if negb (bool_decide (err = ERR_OK)) then ret err
      else copy_loop (Z.to_nat (num_fats (boot_sector p)) - 1) 1 (fst loc) (fat_size_sectors p) cache;;; ret ERR_OK.

(** The search from [cluster] on, [n] clusters before the end. *)
Fixpoint alloc_loop (n : nat) (cluster : Z) : M Z :=
  match n with
  | O => ret 0
  | S n =>
      next <~ fat32_get_next_cluster cluster;;
      if next =? FAT32_CLUSTER_FREE then fat32_set_next_cluster cluster FAT32_CLUSTER_EOF_MIN;;; ret cluster
      else alloc_loop n (cluster + 1)
  end.

Definition fat32_alloc_cluster : M Z := p <~ get params;; alloc_loop (Z.to_nat (u32 (total_clusters p + 2) - 2)) 2.

Fixpoint free_loop (fuel : nat) (cluster : Z) : M unit :=
  match fuel with
  | O => stop NoFuel
  | S fuel =>
      p <~ get params;;
      if invalid_cluster p cluster then ret tt
      else
        next <~ fat32_get_next_cluster cluster;;
        fat32_set_next_cluster cluster FAT32_CLUSTER_FREE;;;
        if FAT32_CLUSTER_EOF_MIN <=? next then ret tt else free_loop fuel next
  end.

Definition fat32_free_cluster (cluster : Z) : M error_code_t :=
  if cluster <? 2 then ret ERR_INVALID_ARG
  else fuel <~ get (fun s => S (S (Z.to_nat (total_clusters (params s)))));; free_loop fuel cluster;;; ret ERR_OK.

End table.

(** ** Little-endian fields *)

Lemma field_fits o n b : bytes b -> 0 <= field o n b < 2 ^ (8 * Z.of_nat n).
Proof.
  intros Hb. unfold field. assert (H : 0 <= le_value (take n (drop o b)) < 2 ^ (8 * Z.of_nat (length (take n (drop o b))))) by (by apply le_value_fits, Forall_take, Forall_drop).
  split; [lia|]. eapply Z.lt_le_trans; [apply H|]. apply Z.pow_le_mono_r; [lia|]. rewrite length_take. lia.
Qed.

Lemma field_write b o n v : (o + n <= length b)%nat -> 0 <= v < 2 ^ (8 * Z.of_nat n) -> field o n (buf_write b o (le_bytes n v)) = v.
Proof.
  intros Hl Hv. unfold field, buf_write. rewrite drop_app_ge by (rewrite length_take; lia). rewrite length_take. replace (o - (o `min` length b))%nat with 0%nat by lia.
  rewrite drop_0, take_app_le, take_ge by (rewrite le_bytes_length; lia). by apply le_value_bytes.
Qed.

Lemma field_write_other b o n l o' : (o + length l <= length b)%nat -> (o' + n <= o \/ o + length l <= o')%nat -> field o' n (buf_write b o l) = field o' n b.
Proof.
  intros Hl Hd. unfold field, buf_write. f_equal. destruct Hd as [Hd|Hd].
  - rewrite drop_app_le by (rewrite length_take; lia). rewrite take_app_le by (rewrite length_drop, length_take; lia).
    rewrite skipn_firstn_comm, take_take. f_equal. lia.
  - rewrite app_assoc, drop_app_ge by (rewrite length_app, length_take; lia). rewrite drop_drop, length_app, length_take. do 2 f_equal. lia.
Qed.

(** The entry that is stored: the upper four bits are kept. *)
Lemma entry_mask e v : Z.land (Z.lor (Z.land e 0xF0000000) (Z.land v 0x0FFFFFFF)) 0x0FFFFFFF = Z.land v 0x0FFFFFFF.
Proof. rewrite Z.land_lor_distr_l, <- !Z.land_assoc. change (Z.land 0xF0000000 0x0FFFFFFF) with 0. by rewrite Z.land_0_r, Z.land_diag, Z.lor_0_l. Qed.

Lemma entry_fits e v : 0 <= e -> 0 <= Z.lor (Z.land e 0xF0000000) (Z.land v 0x0FFFFFFF) < 2 ^ 32.
Proof.
  intros He. assert (H : Z.lor (Z.land e 0xF0000000) (Z.land v 0x0FFFFFFF) = Z.land (Z.lor (Z.land e 0xF0000000) (Z.land v 0x0FFFFFFF)) (Z.ones 32)).
  { rewrite Z.land_lor_distr_l, <- !Z.land_assoc. done. }
  rewrite H, Z.land_ones by lia. apply Z.mod_pos_bound. lia.
Qed.

Lemma mask_small v : 0 <= v < 0x10000000 -> Z.land v 0x0FFFFFFF = v.
Proof. intros Hv. change 0x0FFFFFFF with (Z.ones 28). rewrite Z.land_ones by lia. by apply Z.mod_small. Qed.

Lemma mask_bound v : 0 <= Z.land v 0x0FFFFFFF < 0x10000000.
Proof. change 0x0FFFFFFF with (Z.ones 28). rewrite Z.land_ones by lia. change 0x10000000 with (2 ^ 28). apply Z.mod_pos_bound. lia. Qed.

Lemma aligned_apart o o' : 0 <= o -> 0 <= o' -> o mod 4 = 0 -> o' mod 4 = 0 -> o <> o' -> (Z.to_nat o' + 4 <= Z.to_nat o \/ Z.to_nat o + 4 <= Z.to_nat o')%nat.
Proof. intros. dlia. Qed.

Section mounted.
  Context {D : Type} (dev : block_device_t D) (medium : D -> Z -> list Z) `{Hdisk : !Disk dev medium}.

#[local] Abbreviation size := (block_size dev).
#[local] Abbreviation st := (fat32 D).
#[local] Open Scope effect_scope.

(** The tables and the clusters lie one after the other on the device, and a table has an
    entry for each cluster. *)
Record geometry (p : fat32_params) : Prop := {
  geo_size : bytes_per_sector (boot_sector p) = size /\ size mod 4 = 0;
  geo_clusters : 0 <= total_clusters p <= 0x0FFFFFF0;
  geo_cluster : 0 < sectors_per_cluster p /\ bytes_per_cluster p = sectors_per_cluster p * size;
  geo_fats : 1 <= num_fats (boot_sector p);
  geo_fat : 0 <= fat_start_sector p /\ (total_clusters p + 2) * 4 <= fat_size_sectors p * size;
  geo_data : fat_start_sector p + num_fats (boot_sector p) * fat_size_sectors p <= data_start_sector p;
  geo_end : data_start_sector p + total_clusters p * sectors_per_cluster p <= block_count dev /\ data_start_sector p + total_clusters p * sectors_per_cluster p < 2 ^ 32
}.

(** A mounted file system: the cache is empty or holds a sector of the tables. *)
Record mounted (s : st) : Prop := {
  mnt_geo : geometry (params s);
  mnt_cache : length (fat_cache s) = Z.to_nat size /\ bytes (fat_cache s);
  mnt_cached : fat_cache_sector s = 0xFFFFFFFF \/
    (fat_cache s = medium (disk s) (fat_cache_sector s) /\ fat_start_sector (params s) <= fat_cache_sector s < data_start_sector (params s))
}.

Definition valid (s : st) (c : Z) : Prop := 2 <= c < total_clusters (params s) + 2.

(** The table as the device holds it: the entry of a cluster, and its cluster number. *)
Definition entry_of (s : st) (c : Z) : Z := field (Z.to_nat (c * 4 mod size)) 4 (medium (disk s) (fat_start_sector (params s) + c * 4 / size)).
Definition next_of (s : st) (c : Z) : Z := Z.land (entry_of s c) 0x0FFFFFFF.

(** All copies of the table are the same. *)
Definition mirrored (s : st) : Prop := forall j q, 0 <= j < num_fats (boot_sector (params s)) -> 0 <= q < fat_size_sectors (params s) ->
  medium (disk s) (fat_start_sector (params s) + q + j * fat_size_sectors (params s)) = medium (disk s) (fat_start_sector (params s) + q).

(** Nothing on the device changes. *)
Definition unchanged (s s' : st) : Prop := params s' = params s /\ agree medium (disk s) (disk s').

Lemma unchanged_refl s : unchanged s s.
Proof. split; [done|apply agree_refl]. Qed.

Lemma fat_unchanged_trans s s' s'' : unchanged s s' -> unchanged s' s'' -> unchanged s s''.
Proof. intros [Hp Ha] [Hp' Ha']. split; [congruence|by eapply agree_trans]. Qed.

Lemma unchanged_next s s' c : unchanged s s' -> next_of s' c = next_of s c.
Proof. intros [Hp Ha]. unfold next_of, entry_of. by rewrite Hp, Ha. Qed.

Lemma on_disk_runs {A} (m : Effect.M D A) P (s : st) : runs m P (disk s) -> runs (on_disk m) (fun a s' => exists d, s' = set_disk s d /\ P a d) s.
Proof. intros (a & d & E & Hp). exists a, (set_disk s d). split; [unfold on_disk; by rewrite E|]. by exists d. Qed.

Lemma valid_cluster s c : mounted s -> valid s c -> invalid_cluster (params s) c = false.
Proof. intros [Hg _ _] Hv. pose proof (geo_clusters _ Hg). unfold invalid_cluster, valid in *. rewrite (wrap_small 32) by fits_lia. lia. Qed.

Lemma invalid_cluster_true s c : mounted s -> ~ valid s c -> invalid_cluster (params s) c = true.
Proof. intros [Hg _ _] Hv. pose proof (geo_clusters _ Hg). unfold invalid_cluster, valid in *. rewrite (wrap_small 32) by fits_lia. lia. Qed.

(** Entries are aligned, so they lie within one sector and do not overlap. *)
Lemma entry_place p c : geometry p -> 0 <= c < total_clusters p + 2 ->
  0 <= c * 4 / size < fat_size_sectors p /\ 0 <= c * 4 mod size /\ c * 4 mod size + 4 <= size /\ c * 4 mod size mod 4 = 0.
Proof.
  intros Hg Hc. pose proof disk_size as Hz. destruct (geo_size _ Hg) as [_ H4]. destruct (geo_fat _ Hg) as [_ Hf].
  assert (Hk : size = 4 * (size / 4)) by (pose proof (Z.div_mod size 4); lia). assert (0 < size / 4) by lia.
  assert (Hm : c * 4 mod size = 4 * (c mod (size / 4))) by (rewrite Hk at 1; rewrite (Z.mul_comm c 4), Z.mul_mod_distr_l by lia; done).
  pose proof (Z.mod_pos_bound c (size / 4)). split; [split; [apply Z.div_pos; lia|apply Z.div_lt_upper_bound; lia]|]. rewrite Hm. split; [lia|]. split; [lia|]. rewrite Z.mul_comm. apply Z.mod_mul. lia.
Qed.

Lemma entry_apart c c' : c <> c' -> c * 4 / size = c' * 4 / size -> c * 4 mod size <> c' * 4 mod size.
Proof. intros Hne Hq Hr. pose proof disk_size. pose proof (Z.div_mod (c * 4) size). pose proof (Z.div_mod (c' * 4) size). nia. Qed.

Lemma fat_sector_bound p q j : geometry p -> 0 <= q < fat_size_sectors p -> 0 <= j < num_fats (boot_sector p) ->
  0 <= fat_start_sector p + q + j * fat_size_sectors p < data_start_sector p /\ data_start_sector p <= block_count dev /\ data_start_sector p < 2 ^ 32 /\ 0 <= j * fat_size_sectors p.
Proof.
  intros Hg Hq Hj. destruct (geo_fat _ Hg) as [H0 _]. pose proof (geo_data _ Hg). destruct (geo_end _ Hg). pose proof (geo_clusters _ Hg). destruct (geo_cluster _ Hg).
  assert (j * fat_size_sectors p + fat_size_sectors p <= num_fats (boot_sector p) * fat_size_sectors p) by nia. nia.
Qed.

Lemma fat_location_run s c : mounted s -> valid s c ->
  fat_location (params s) c s = Ret (fat_start_sector (params s) + c * 4 / size, c * 4 mod size) s.
Proof.
  intros [Hg _ _] Hv. unfold valid in Hv. pose proof disk_size as Hz. pose proof (geo_clusters _ Hg). destruct (geo_size _ Hg) as [Hs _]. destruct (entry_place _ c Hg ltac:(lia)) as (Hq & _).
  destruct (fat_sector_bound _ (c * 4 / size) 0 Hg Hq) as (Hb & _ & Hb' & _); [pose proof (geo_fats _ Hg); lia|].
  unfold fat_location. rewrite Hs, (wrap_small 32 (c * 4)) by fits_lia. rewrite (proj2 (Z.eqb_neq _ 0)) by lia. rewrite (wrap_small 32) by fits_lia. done.
Qed.

Lemma load_fat_runs s q : mounted s -> 0 <= q < fat_size_sectors (params s) ->
  runs (load_fat_sector dev (fat_start_sector (params s) + q))
    (fun e s' => e = ERR_OK /\ mounted s' /\ unchanged s s' /\ fat_cache s' = medium (disk s') (fat_start_sector (params s) + q) /\ fat_cache_sector s' = fat_start_sector (params s) + q) s.
Proof.
  intros Hm Hq. pose proof Hm as [Hg [Hl Hb] Hc]. destruct (fat_sector_bound _ q 0 Hg Hq) as (Hr & Hr' & H32 & _); [pose proof (geo_fats _ Hg); lia|]. rewrite Z.mul_0_l, Z.add_0_r in Hr.
  eapply runs_step; [reflexivity|]. cbv beta. destruct (Z.eqb_spec (fat_start_sector (params s) + q) (fat_cache_sector s)) as [E|Hne].
  { apply runs_ret. split; [done|]. split; [done|]. split; [apply unchanged_refl|]. split; [|done]. destruct Hc as [Hc|[Hc _]]; [lia|]. by rewrite E. }
  eapply runs_step; [reflexivity|]. cbv beta.
  eapply runs_bind; [apply on_disk_runs, (read_runs dev medium); [lia|by rewrite Hl]|]. intros r ? (d & -> & -> & Ha). cbn [fst snd]. rewrite bool_decide_true by done. rewrite drop_ge, app_nil_r by (by rewrite Hl).
  eapply runs_step; [reflexivity|]. cbv beta. apply runs_ret.
  split; [done|]. split; [split; [done|apply (@disk_block _ dev medium _)|right; split; [symmetry; apply Ha|cbn [fat_cache_sector set_cache params set_disk]; lia]]|]. split; [by split|]. split; [symmetry; apply Ha|done].
Qed.

Lemma get_next_runs s c : mounted s -> valid s c -> runs (fat32_get_next_cluster dev c) (fun v s' => v = next_of s c /\ mounted s' /\ unchanged s s') s.
Proof.
  intros Hm Hv. pose proof Hm as [Hg _ _]. destruct (entry_place _ c Hg ltac:(unfold valid in Hv; lia)) as (Hq & H0 & H4 & _).
  eapply runs_step; [reflexivity|]. cbv beta. rewrite valid_cluster by done.
  eapply runs_step; [by apply fat_location_run|]. cbn [fst snd].
  eapply runs_bind; [by apply load_fat_runs|]. intros e s' (-> & Hm' & Hu & Hc & Hn). rewrite bool_decide_true by done. cbn [negb]. eexists _, s'. split.
  - erewrite bind_run by reflexivity. erewrite bind_run by (apply rd32_run; destruct (mnt_cache _ Hm') as [-> _]; lia). reflexivity.
  - split; [|done]. rewrite Hc, (proj2 Hu). done.
Qed.

Lemma load_unchanged_mirrored s s' : unchanged s s' -> mirrored s -> mirrored s'.
Proof. intros [Hp Ha] Hm j q. rewrite Hp. intros Hj Hq. rewrite !Ha. by apply Hm. Qed.

(** The copies [i .. i + n - 1] of a sector of the table are written. *)
Lemma copy_loop_runs n cache q : forall i s, geometry (params s) -> length cache = Z.to_nat size -> bytes cache -> 0 <= q < fat_size_sectors (params s) ->
  0 <= i -> i + Z.of_nat n <= num_fats (boot_sector (params s)) ->
  runs (copy_loop dev n i (fat_start_sector (params s) + q) (fat_size_sectors (params s)) cache)
    (fun _ s' => exists d, s' = set_disk s d /\
       (forall j, i <= j < i + Z.of_nat n -> medium d (fat_start_sector (params s) + q + j * fat_size_sectors (params s)) = cache) /\
       (forall m, (forall j, i <= j < i + Z.of_nat n -> m <> fat_start_sector (params s) + q + j * fat_size_sectors (params s)) -> medium d m = medium (disk s) m)) s.
Proof.
  induction n as [|n IH]; intros i s Hg Hl Hb Hq Hi Hn; cbn [copy_loop].
  { apply runs_ret. exists (disk s). split; [by destruct s|]. split; [intros; lia|done]. }
  destruct (fat_sector_bound _ q i Hg Hq) as (H1 & H2 & H3 & H4); [lia|].
  rewrite (wrap_small 32 (i * _)) by (destruct (geo_fat _ Hg); fits_lia). rewrite (wrap_small 32) by (destruct (geo_fat _ Hg); fits_lia).
  eapply runs_bind; [apply on_disk_runs, (write_runs dev medium); [lia|by rewrite Hl|done]|]. intros e s1 (d & -> & _ & Hw).
  eapply runs_mono; [apply (IH (i + 1) (set_disk s d)); cbn [params set_disk]; try done; lia|]. cbn [params set_disk disk].
  intros [] s2 (d2 & -> & Hin & Hout). exists d2. split; [done|]. split.
  - intros j Hj. destruct (decide (j = i)) as [->|Hne]; [|apply Hin; lia]. rewrite Hout by (intros j Hj' E; assert (fat_size_sectors (params s) > 0) by lia; nia).
    rewrite Hw. replace (_ && _) with true by lia. rewrite Z.sub_diag, Z.mul_0_l. change (Z.to_nat 0) with 0%nat. by rewrite drop_0, take_ge by (by rewrite Hl).
  - intros m Hm. rewrite Hout by (intros j Hj; apply Hm; lia). rewrite Hw. specialize (Hm i ltac:(lia)). by replace (_ && _) with false by lia.
Qed.

(** The entry of [c] now holds [v], with its upper four bits kept; the other entries, the
    reserved sectors and the clusters are as before, and the copies stay the same. *)
Record linked (s : st) (c v : Z) (s' : st) : Prop := {
  lnk_mounted : mounted s';
  lnk_params : params s' = params s;
  lnk_next : next_of s' c = Z.land v 0x0FFFFFFF;
  lnk_upper : Z.land (entry_of s' c) 0xF0000000 = Z.land (entry_of s c) 0xF0000000;
  lnk_other : forall c', valid s c' -> c' <> c -> entry_of s' c' = entry_of s c';
  lnk_outside : forall m, m < fat_start_sector (params s) \/ data_start_sector (params s) <= m -> medium (disk s') m = medium (disk s) m;
  lnk_mirrored : mirrored s -> mirrored s'
}.

Lemma written_linked s c v s' (q := c * 4 / size) (w := Z.lor (Z.land (entry_of s c) 0xF0000000) (Z.land v 0x0FFFFFFF))
  (cache := buf_write (medium (disk s) (fat_start_sector (params s) + q)) (Z.to_nat (c * 4 mod size)) (le_bytes 4 w)) :
  mounted s -> valid s c -> params s' = params s -> fat_cache s' = cache -> fat_cache_sector s' = fat_start_sector (params s) + q ->
  (forall j, 0 <= j < num_fats (boot_sector (params s)) -> medium (disk s') (fat_start_sector (params s) + q + j * fat_size_sectors (params s)) = cache) ->
  (forall m, (forall j, 0 <= j < num_fats (boot_sector (params s)) -> m <> fat_start_sector (params s) + q + j * fat_size_sectors (params s)) -> medium (disk s') m = medium (disk s) m) ->
  linked s c v s'.
Proof.
  intros Hm Hv Hp Hc Hn Hin Hout. pose proof Hm as [Hg _ _]. pose proof (geo_fats _ Hg) as Hf. pose proof disk_size as Hz.
  destruct (entry_place _ c Hg ltac:(unfold valid in Hv; lia)) as (Hq & H0 & H4 & Ha). fold q in Hq.
  destruct (disk_block (disk s) (fat_start_sector (params s) + q)) as [Hbl Hbb].
  assert (Hfit : (Z.to_nat (c * 4 mod size) + length (le_bytes 4 w) <= length (medium (disk s) (fat_start_sector (params s) + q)))%nat) by (rewrite le_bytes_length, Hbl; lia).
  assert (He : 0 <= entry_of s c) by (apply field_fits, disk_block).
  assert (Hw : 0 <= w < 2 ^ (8 * Z.of_nat 4)) by (change (8 * Z.of_nat 4) with 32; by apply entry_fits).
  assert (Hsec : medium (disk s') (fat_start_sector (params s) + q) = cache) by (rewrite <- (Hin 0) by lia; f_equal; lia).
  assert (Hent : entry_of s' c = w) by (unfold entry_of; rewrite Hp; fold q; rewrite Hsec; apply field_write; [rewrite le_bytes_length in Hfit; exact Hfit|exact Hw]).
  assert (Hsame : forall q', 0 <= q' < fat_size_sectors (params s) -> q' <> q -> forall j, 0 <= j < num_fats (boot_sector (params s)) ->
    medium (disk s') (fat_start_sector (params s) + q' + j * fat_size_sectors (params s)) = medium (disk s) (fat_start_sector (params s) + q' + j * fat_size_sectors (params s))).
  { intros q' Hq' Hne j Hj. apply Hout. intros j' Hj' E. apply Hne. assert (q' - q = (j' - j) * fat_size_sectors (params s)) by lia. destruct (decide (j' = j)); nia. }
  split.
  - split; [by rewrite Hp|rewrite Hc; unfold cache; split; [by rewrite buf_write_length|apply buf_write_bytes; [done|apply le_bytes_ok]]|]. right. rewrite Hn, Hsec, Hp. split; [done|]. destruct (fat_sector_bound _ q 0 Hg Hq) as (? & _); lia.
  - done.
  - unfold next_of. rewrite Hent. apply entry_mask.
  - rewrite Hent. unfold w. rewrite Z.land_lor_distr_l, <- !Z.land_assoc. change (Z.land 0x0FFFFFFF 0xF0000000) with 0. by rewrite Z.land_0_r, Z.lor_0_r, Z.land_diag.
  - intros c' Hv' Hne. destruct (entry_place _ c' Hg ltac:(unfold valid in Hv'; lia)) as (Hq' & H0' & H4' & Ha'). unfold entry_of. rewrite Hp. destruct (decide (c' * 4 / size = q)) as [E|E].
    + rewrite E, Hsec. apply field_write_other; [done|]. rewrite le_bytes_length. pose proof (entry_apart c c' ltac:(done) (eq_sym E)) as Hap. clear - H0 H0' Ha Ha' Hap. by apply aligned_apart.
    + f_equal. pose proof (Hsame _ Hq' E 0 ltac:(lia)) as H. by rewrite Z.mul_0_l, Z.add_0_r in H.
  - intros m Hm'. apply Hout. intros j Hj ->. destruct (fat_sector_bound _ q j Hg Hq Hj) as (? & _). destruct (geo_fat _ Hg). nia.
  - intros Hmir j q'. rewrite Hp. intros Hj Hq'. destruct (decide (q' = q)) as [->|Hne]; [by rewrite Hin, Hsec|].
    rewrite Hsame by done. pose proof (Hsame q' Hq' Hne 0 ltac:(lia)) as H. rewrite Z.mul_0_l, Z.add_0_r in H. rewrite H. by apply Hmir.
Qed.

Lemma set_next_runs s c v : mounted s -> valid s c -> runs (fat32_set_next_cluster dev c v) (fun e s' => e = ERR_OK /\ linked s c v s') s.
Proof.
  intros Hm Hv. pose proof Hm as [Hg _ _]. pose proof (geo_fats _ Hg) as Hf. destruct (entry_place _ c Hg ltac:(unfold valid in Hv; lia)) as (Hq & H0 & H4 & _).
  eapply runs_step; [reflexivity|]. cbv beta. rewrite valid_cluster by done.
  eapply runs_step; [by apply fat_location_run|]. cbn [fst snd].
  eapply runs_bind; [by apply load_fat_runs|]. intros e s1 (-> & Hm1 & [Hp1 Ha1] & Hc1 & Hn1). rewrite bool_decide_true by done. cbn [negb].
  destruct (mnt_cache _ Hm1) as [Hl1 Hb1].
  eapply runs_step; [reflexivity|]. cbv beta.
  eapply (runs_bind _ _ (fun a s' => a = entry_of s c /\ s' = s1)); [eexists _, _; split; [apply rd32_run; rewrite Hl1; lia|split; [by rewrite Hc1, Ha1|done]]|]. intros ? ? [-> ->].
  set (w := Z.lor _ _). eapply (runs_bind _ _ (fun a s' => a = buf_write (fat_cache s1) (Z.to_nat (c * 4 mod size)) (le_bytes 4 w) /\ s' = s1)); [eexists _, _; split; [apply wr_run; rewrite Hl1, le_bytes_length; lia|done]|].
  intros ? ? [-> ->]. set (cache := buf_write _ _ _).
  assert (Hlc : length cache = Z.to_nat size) by (unfold cache; rewrite buf_write_length; [done|rewrite le_bytes_length, Hl1; lia]).
  assert (Hbc : bytes cache) by (apply buf_write_bytes; [done|apply le_bytes_ok]).
  eapply runs_step; [reflexivity|]. cbv beta.
  eapply runs_step; [reflexivity|]. cbv beta.
  destruct (fat_sector_bound _ (c * 4 / size) 0 Hg Hq) as (Hr & Hr' & _); [lia|].
  eapply runs_bind; [apply on_disk_runs, (write_runs dev medium); [lia|by rewrite Hlc|done]|]. intros e s2 (d & -> & -> & Hw). rewrite bool_decide_true by done. cbn [negb].
  set (s2 := set_disk _ d). change (params s) with (params s) in *. assert (Hp2 : params s2 = params s) by done. rewrite <- Hp2.
  eapply runs_bind; [apply (copy_loop_runs _ cache (c * 4 / size) 1 s2); rewrite ?Hp2; try done; lia|]. intros [] s3 (d3 & -> & Hin & Hout). rewrite Hp2 in Hin, Hout. apply runs_ret. split; [done|].
  assert (Hd2 : forall m, medium (disk s2) m = if decide (m = fat_start_sector (params s) + c * 4 / size) then cache else medium (disk s) m).
  { intros m. cbn [disk s2 set_disk]. rewrite Hw. cbn [disk set_cache]. destruct (decide _) as [->|Hne].
    - replace (_ && _) with true by lia. rewrite Z.sub_diag, Z.mul_0_l. change (Z.to_nat 0) with 0%nat. by rewrite drop_0, take_ge by (by rewrite Hlc).
    - replace (_ && _) with false by lia. apply Ha1. }
  assert (Hcache : cache = buf_write (medium (disk s) (fat_start_sector (params s) + c * 4 / size)) (Z.to_nat (c * 4 mod size)) (le_bytes 4 w)) by (unfold cache; by rewrite Hc1, Ha1).
  apply written_linked; try done.
  - intros j Hj. transitivity cache; [|exact Hcache]. cbn [disk set_disk]. destruct (decide (j = 0)) as [->|Hj0]; [|apply Hin; lia]. rewrite Hout by (intros j Hj'; nia). by rewrite Hd2, decide_True by lia.
  - intros m Hm'. cbn [disk set_disk]. rewrite Hout by (intros j Hj; apply Hm'; lia). rewrite Hd2, decide_False; [done|]. specialize (Hm' 0). lia.
Qed.

(** ** The table as a map *)

(** The table holds [t]. *)
Definition represents (s : st) (t : arr Z) : Prop := mounted s /\ forall c, valid s c -> next_of s c = t c.

(** What no operation on the table changes: the parameters, the upper bits of the
    entries and everything outside the tables; and copies that are the same stay so. *)
Record kept (s s' : st) : Prop := {
  kept_params : params s' = params s;
  kept_upper : forall c, valid s c -> Z.land (entry_of s' c) 0xF0000000 = Z.land (entry_of s c) 0xF0000000;
  kept_outside : forall m, m < fat_start_sector (params s) \/ data_start_sector (params s) <= m -> medium (disk s') m = medium (disk s) m;
  kept_mirrored : mirrored s -> mirrored s'
}.

Lemma kept_trans s s' s'' : kept s s' -> kept s' s'' -> kept s s''.
Proof.
  intros [Hp Hu Ho Hm] [Hp' Hu' Ho' Hm']. split; [congruence| | |auto].
  - intros c Hc. rewrite Hu' by (unfold valid in *; by rewrite Hp). by apply Hu.
  - intros m Hout. rewrite Ho' by (by rewrite Hp). by apply Ho.
Qed.

Lemma kept_unchanged s s' : unchanged s s' -> kept s s'.
Proof. intros Hu. pose proof Hu as [Hp Ha]. split; [done| |by intros m _|by apply load_unchanged_mirrored]. intros c _. unfold entry_of. by rewrite Hp, Ha. Qed.

Lemma kept_linked s c v s' : linked s c v s' -> kept s s'.
Proof. intros [Hm Hp Hn Hu Ho Hout Hmir]. split; [done| |done|done]. intros c' Hv. destruct (decide (c' = c)) as [->|Hne]; [done|by rewrite Ho]. Qed.

Lemma kept_valid s s' c : kept s s' -> valid s' c <-> valid s c.
Proof. intros [Hp _ _ _]. unfold valid. by rewrite Hp. Qed.

Lemma next_spec s t c : represents s t -> valid s c -> runs (fat32_get_next_cluster dev c) (fun v s' => v = t c /\ represents s' t /\ kept s s') s.
Proof.
  intros [Hm Ht] Hv. eapply runs_mono; [by apply get_next_runs|]. intros v s' (-> & Hm' & Hu). split; [by apply Ht|]. split; [|by apply kept_unchanged].
  split; [done|]. intros c' Hc'. rewrite (unchanged_next s s') by done. apply Ht. by rewrite (kept_valid s s') in Hc' by (by apply kept_unchanged).
Qed.

Lemma link_spec s t c v : represents s t -> valid s c -> runs (fat32_set_next_cluster dev c v) (fun e s' => e = ERR_OK /\ represents s' (t.[c <- Z.land v 0x0FFFFFFF]) /\ kept s s') s.
Proof.
  intros [Hm Ht] Hv. eapply runs_mono; [by apply set_next_runs|]. intros e s' [-> Hl]. split; [done|]. pose proof (kept_linked _ _ _ _ Hl) as Hk. split; [|done].
  split; [apply Hl|]. intros c' Hc'. rewrite kept_valid in Hc' by done. destruct (decide (c' = c)) as [->|Hne]; [rewrite aset_eq; apply Hl|].
  rewrite aset_ne by done. rewrite <- Ht by done. unfold next_of. by rewrite (lnk_other _ _ _ _ Hl).
Qed.

(** Outside the clusters nothing is read or written. *)
Lemma next_invalid s t c : represents s t -> ~ valid s c -> fat32_get_next_cluster dev c s = Ret FAT32_CLUSTER_EOF_MIN s.
Proof. intros [Hm _] Hv. unfold fat32_get_next_cluster. erewrite bind_run by reflexivity. by rewrite invalid_cluster_true. Qed.

Lemma link_invalid s t c v : represents s t -> ~ valid s c -> fat32_set_next_cluster dev c v s = Ret ERR_INVALID_ARG s.
Proof. intros [Hm _] Hv. unfold fat32_set_next_cluster. erewrite bind_run by reflexivity. by rewrite invalid_cluster_true. Qed.

(** The first free cluster is taken. *)
Definition table_alloc (total : Z) (t : arr Z) : Z * arr Z :=
  match find_first (fun c => t c =? FAT32_CLUSTER_FREE) 2 (Z.to_nat total) with
  | Some c => (c, t.[c <- FAT32_CLUSTER_EOF_MIN])
  | None => (0, t)
  end.

Lemma alloc_loop_spec n : forall c s t, represents s t -> 2 <= c -> c + Z.of_nat n = total_clusters (params s) + 2 ->
  runs (alloc_loop dev n c) (fun r s' => kept s s' /\
    match find_first (fun c => t c =? FAT32_CLUSTER_FREE) c n with
    | Some x => r = x /\ represents s' (t.[x <- FAT32_CLUSTER_EOF_MIN])
    | None => r = 0 /\ represents s' t
    end) s.
Proof.
  induction n as [|n IH]; intros c s t Hr Hc Hn; cbn [alloc_loop find_first]; [apply runs_ret; split; [apply kept_unchanged, unchanged_refl|done]|].
  assert (Hv : valid s c) by (unfold valid; lia). eapply runs_bind; [by apply next_spec|]. intros v s1 (-> & Hr1 & Hk1). destruct (t c =? FAT32_CLUSTER_FREE).
  - eapply runs_bind; [apply link_spec; [done|by rewrite kept_valid]|]. intros e s2 (-> & Hr2 & Hk2). apply runs_ret. split; [by eapply kept_trans|]. split; [done|].
    by rewrite mask_small in Hr2 by (unfold FAT32_CLUSTER_EOF_MIN; lia).
  - eapply runs_mono; [apply IH; [done|lia|rewrite (kept_params _ _ Hk1); lia]|]. intros r s2 [Hk2 Hres]. split; [by eapply kept_trans|done].
Qed.

Lemma alloc_spec s t : represents s t ->
  runs (fat32_alloc_cluster dev) (fun r s' => kept s s' /\ r = fst (table_alloc (total_clusters (params s)) t) /\ represents s' (snd (table_alloc (total_clusters (params s)) t))) s.
Proof.
  intros Hr. pose proof Hr as [[Hg _ _] _]. pose proof (geo_clusters _ Hg). unfold fat32_alloc_cluster. eapply runs_step; [reflexivity|]. cbv beta. rewrite (wrap_small 32) by fits_lia.
  eapply runs_mono; [apply (alloc_loop_spec _ 2 s t Hr); lia|]. intros r s' [Hk Hres]. split; [done|]. unfold table_alloc.
  replace (Z.to_nat (total_clusters (params s) + 2 - 2)) with (Z.to_nat (total_clusters (params s))) in Hres by lia. by destruct (find_first _ _ _).
Qed.

(** The clusters from [c] on are freed one after the other. *)
Fixpoint table_free (fuel : nat) (total : Z) (t : arr Z) (c : Z) : arr Z :=
  match fuel with
  | O => t
  | S fuel => if (c <? 2) || (total + 2 <=? c) then t else if FAT32_CLUSTER_EOF_MIN <=? t c then t.[c <- 0] else table_free fuel total (t.[c <- 0]) (t c)
  end.

Definition used (t : arr Z) (total : Z) : Z := count_in (fun c => negb (t c =? 0)) 2 (Z.to_nat total).

Lemma valid_dec s c : valid s c \/ ~ valid s c.
Proof. unfold valid. lia. Qed.

(** Every round but the last one frees a cluster that was used. *)
Lemma free_loop_spec fuel : forall s t c, represents s t -> used t (total_clusters (params s)) + 2 <= Z.of_nat fuel ->
  runs (free_loop dev fuel c) (fun _ s' => kept s s' /\ represents s' (table_free fuel (total_clusters (params s)) t c)) s.
Proof.
  induction fuel as [|fuel IH]; intros s t c Hr Hf; [pose proof (count_in_bounds (fun c => negb (t c =? 0)) 2 (Z.to_nat (total_clusters (params s)))); unfold used in Hf; lia|].
  cbn [free_loop table_free]. eapply runs_step; [reflexivity|]. cbv beta. pose proof Hr as [Hm _]. destruct (valid_dec s c) as [Hv|Hv].
  2:{ rewrite invalid_cluster_true by done. apply runs_ret. split; [apply kept_unchanged, unchanged_refl|]. by replace (_ || _) with true by (unfold valid in Hv; lia). }
  rewrite valid_cluster by done. replace (_ || _) with false by (unfold valid in Hv; lia). eapply runs_bind; [by apply next_spec|]. intros v s1 (-> & Hr1 & Hk1).
  eapply runs_bind; [apply link_spec; [done|by rewrite kept_valid]|]. intros e s2 (_ & Hr2 & Hk2). change (Z.land FAT32_CLUSTER_FREE 0x0FFFFFFF) with 0 in Hr2. pose proof (kept_trans _ _ _ Hk1 Hk2) as Hk.
  destruct (Z.leb_spec FAT32_CLUSTER_EOF_MIN (t c)); [by apply runs_ret|]. pose proof (kept_params _ _ Hk) as Hp. rewrite <- Hp.
  destruct (Z.eqb_spec (t c) 0) as [E|Hne].
  { rewrite E. destruct fuel as [|fuel]; [pose proof (count_in_bounds (fun c => negb (t c =? 0)) 2 (Z.to_nat (total_clusters (params s)))); unfold used in Hf; lia|]. cbn [free_loop table_free].
    eapply runs_step; [reflexivity|]. by apply runs_ret. }
  eapply runs_mono; [apply IH; [done|]|intros [] s3 [Hk3 Hr3]; split; [by eapply kept_trans|done]].
  rewrite Hp. unfold used in *. rewrite (count_in_flip (fun c => negb (t c =? 0)) _ 2 _ c); [|unfold valid in Hv; lia|intros j _ Hj; by rewrite aset_ne]. rewrite aset_eq. cbn [Z.eqb negb].
  rewrite (proj2 (Z.eqb_neq _ 0) Hne). cbn [negb]. lia.
Qed.

Definition free_fuel (total : Z) : nat := S (S (Z.to_nat total)).

Lemma free_spec s t c : represents s t -> 2 <= c ->
  runs (fat32_free_cluster dev c) (fun e s' => e = ERR_OK /\ kept s s' /\ represents s' (table_free (free_fuel (total_clusters (params s))) (total_clusters (params s)) t c)) s.
Proof.
  intros Hr Hc. unfold fat32_free_cluster. rewrite (proj2 (Z.ltb_ge c 2)) by done. eapply runs_step; [reflexivity|]. cbv beta.
  eapply runs_bind; [apply free_loop_spec; [done|]|intros [] s' [Hk Hr']; by apply runs_ret].
  pose proof (count_in_bounds (fun c => negb (t c =? 0)) 2 (Z.to_nat (total_clusters (params s)))). unfold used. lia.
Qed.

(** ** Sequences of operations *)

Inductive table_op := op_next (c : Z) | op_link (c v : Z) | op_alloc | op_free (c : Z).

(** The code: a cluster number or an error code. *)
Definition table_call (o : table_op) : Effect.M st (Z + error_code_t) :=
  match o with
  | op_next c => v <~ fat32_get_next_cluster dev c;; ret (inl v)
  | op_link c v => e <~ fat32_set_next_cluster dev c v;; ret (inr e)
  | op_alloc => c <~ fat32_alloc_cluster dev;; ret (inl c)
  | op_free c => e <~ fat32_free_cluster dev c;; ret (inr e)
  end.

Fixpoint table_calls (l : list table_op) : Effect.M st (list (Z + error_code_t)) :=
  match l with [] => ret [] | o :: l => r <~ table_call o;; rs <~ table_calls l;; ret (r :: rs) end.

(** The specification, on a map from clusters to what follows them. *)
Definition table_step (total : Z) (o : table_op) (t : arr Z) : (Z + error_code_t) * arr Z :=
  let cluster c := (2 <=? c) && (c <? total + 2) in
  match o with
  | op_next c => (inl (if cluster c then t c else FAT32_CLUSTER_EOF_MIN), t)
  | op_link c v => if cluster c then (inr ERR_OK, t.[c <- v mod 2 ^ 28]) else (inr ERR_INVALID_ARG, t)
  | op_alloc => let '(c, t) := table_alloc total t in (inl c, t)
  | op_free c => if c <? 2 then (inr ERR_INVALID_ARG, t) else (inr ERR_OK, table_free (free_fuel total) total t c)
  end.

Lemma table_call_spec o s t : represents s t ->
  runs (table_call o) (fun r s' => kept s s' /\ r = fst (table_step (total_clusters (params s)) o t) /\ represents s' (snd (table_step (total_clusters (params s)) o t))) s.
Proof.
  intros Hr. pose proof (kept_unchanged _ _ (unchanged_refl s)) as Hk0. destruct o as [c|c v| |c]; cbn [table_call table_step].
  - destruct (valid_dec s c) as [Hv|Hv].
    + replace (_ && _) with true by (unfold valid in Hv; lia). eapply runs_bind; [by apply next_spec|]. intros v s' (-> & Hr' & Hk). by apply runs_ret.
    + replace (_ && _) with false by (unfold valid in Hv; lia). eapply runs_step; [by eapply next_invalid|]. by apply runs_ret.
  - destruct (valid_dec s c) as [Hv|Hv].
    + replace (_ && _) with true by (unfold valid in Hv; lia). eapply runs_bind; [by apply link_spec|]. intros e s' (-> & Hr' & Hk). apply runs_ret. split; [done|]. split; [done|].
      change 0x0FFFFFFF with (Z.ones 28) in Hr'. by rewrite Z.land_ones in Hr' by lia.
    + replace (_ && _) with false by (unfold valid in Hv; lia). eapply runs_step; [by eapply link_invalid|]. by apply runs_ret.
  - eapply runs_bind; [by apply alloc_spec|]. intros c s' (Hk & -> & Hr'). apply runs_ret. by destruct (table_alloc _ _).
  - destruct (Z.ltb_spec c 2) as [Hc|Hc].
    + eapply runs_step; [unfold fat32_free_cluster; by rewrite (proj2 (Z.ltb_lt c 2) Hc)|]. by apply runs_ret.
    + eapply runs_bind; [by apply free_spec|]. intros e s' (-> & Hk & Hr'). by apply runs_ret.
Qed.

(** C10. The file allocation table.  On a device that works, every sequence of operations
    on the table returns the results of the same operations on a map from clusters to
    clusters, and leaves a table that holds the map.  The upper four bits of every entry,
    the reserved sectors and the clusters are not changed, and the copies of the table
    stay the same if they were. *)
Theorem fat_table_refines ops s t : represents s t ->
  runs (table_calls ops)
    (fun rs s' => kept s s' /\ rs = fst (Prelude.run (table_step (total_clusters (params s))) ops t) /\ represents s' (snd (Prelude.run (table_step (total_clusters (params s))) ops t))) s.
Proof.
  revert s t. induction ops as [|o ops IH]; intros s t Hr; cbn [table_calls Prelude.run fst snd]; [apply runs_ret; split; [apply kept_unchanged, unchanged_refl|done]|].
  eapply runs_bind; [by apply table_call_spec|]. intros r s1 (Hk1 & -> & Hr1). eapply runs_bind; [by apply IH|]. intros rs s2 (Hk2 & -> & Hr2). apply runs_ret.
  rewrite (kept_params _ _ Hk1) in *. split; [by eapply kept_trans|done].
Qed.

(** ** Chains *)

(** The clusters [l] follow each other from [c] on, up to an entry that is no cluster. *)
Fixpoint chain (total : Z) (t : arr Z) (c : Z) (l : list Z) : Prop :=
  match l with
  | [] => ~ (2 <= c < total + 2)
  | x :: l => c = x /\ 2 <= x < total + 2 /\ chain total t (t x) l
  end.

Lemma chain_det total t l : forall c l', chain total t c l -> chain total t c l' -> l = l'.
Proof.
  induction l as [|x l IH]; intros c [|y l']; cbn [chain]; try done; [by intros H (-> & H' & _)|by intros (-> & H & _) H'|].
  intros (-> & _ & Hl) (<- & _ & Hl'). f_equal. by eapply IH.
Qed.

Lemma fat_chain_app total t l1 : forall c x l2, chain total t c (l1 ++ x :: l2) -> chain total t x (x :: l2).
Proof. induction l1 as [|y l1 IH]; intros c x l2; cbn [app chain]; [by intros (-> & H)|]. intros (_ & _ & H). by eapply IH. Qed.

(** A chain that ends has no cycle. *)
Lemma chain_NoDup total t l : forall c, chain total t c l -> NoDup l.
Proof.
  induction l as [|x l IH]; intros c; cbn [chain]; [constructor|]. intros (-> & Hx & Hl). apply NoDup_cons. split; [|by eapply IH].
  intros (l1 & l2 & ->)%list_elem_of_split. pose proof (fat_chain_app _ _ _ _ _ _ Hl) as Hc. assert (Hc' : chain total t x (x :: l1 ++ x :: l2)) by done.
  pose proof (chain_det _ _ _ _ _ Hc Hc') as E. apply (f_equal length) in E. cbn [length] in E. rewrite length_app in E. cbn [length] in E. lia.
Qed.

Lemma chain_update total t x v l : forall c, x ∉ l -> chain total t c l -> chain total (t.[x <- v]) c l.
Proof.
  induction l as [|y l IH]; intros c Hx; cbn [chain]; [done|]. apply not_elem_of_cons in Hx as [Hne Hx]. intros (-> & Hy & Hl). split; [done|]. split; [done|]. rewrite aset_ne by done. by apply IH.
Qed.

Lemma fat_chain_length total t c l : chain total t c l -> (length l <= Z.to_nat total)%nat.
Proof.
  intros Hl. pose proof (chain_NoDup _ _ _ _ Hl) as Hnd. assert (Hsub : l ⊆+ seqZ 2 total).
  { apply NoDup_submseteq; [done|]. intros x Hx. apply elem_of_seqZ. revert c Hl. induction l as [|y l IH]; intros c; cbn [chain]; [by apply not_elem_of_nil in Hx|].
    intros (_ & Hy & Hl). apply elem_of_cons in Hx as [->|Hx]; [lia|]. apply NoDup_cons in Hnd as [_ Hnd]. by eapply IH. }
  apply submseteq_length in Hsub. by rewrite length_seqZ in Hsub.
Qed.

Lemma table_free_chain total l : forall fuel t c, total <= 0x0FFFFFF0 -> (length l < fuel)%nat -> chain total t c l ->
  forall x, table_free fuel total t c x = if decide (x ∈ l) then 0 else t x.
Proof.
  induction l as [|y l IH]; intros [|fuel] t c Ht Hf Hl x; cbn [length chain table_free] in *; try lia.
  { replace (_ || _) with true by lia. by rewrite decide_False by apply not_elem_of_nil. }
  pose proof (chain_NoDup total t (y :: l) c Hl) as [Hy _]%NoDup_cons. destruct Hl as (-> & Hv & Hl). replace (_ || _) with false by lia.
  assert (Hx : forall z, (if decide (z ∈ l) then 0 else (t.[y <- 0]) z) = if decide (z ∈ y :: l) then 0 else t z).
  { intros z. destruct (decide (z = y)) as [->|Hne]; [rewrite decide_False, aset_eq, decide_True by (done || left); done|]. rewrite aset_ne by done. apply decide_ext. rewrite elem_of_cons. tauto. }
  destruct (Z.leb_spec FAT32_CLUSTER_EOF_MIN (t y)) as [He|He].
  - destruct l as [|z l]; [by rewrite <- Hx, decide_False by apply not_elem_of_nil|]. cbn [chain] in Hl. unfold FAT32_CLUSTER_EOF_MIN in He. lia.
  - rewrite IH; [apply Hx|done|lia|by apply chain_update].
Qed.

(** Freeing a chain makes exactly its clusters free: every other entry of the table, the
    clusters themselves and the reserved sectors stay as they are. *)
Lemma free_chain_spec s t c l : represents s t -> chain (total_clusters (params s)) t c l -> 2 <= c ->
  runs (fat32_free_cluster dev c) (fun e s' => e = ERR_OK /\ kept s s' /\ represents s' (fun x => if decide (x ∈ l) then 0 else t x)) s.
Proof.
  intros Hr Hl Hc. pose proof Hr as [[Hg _ _] _]. pose proof (geo_clusters _ Hg). eapply runs_mono; [by apply free_spec|]. intros e s' (-> & Hk & Hm & Ht). split; [done|]. split; [done|].
  split; [done|]. intros x Hx. rewrite Ht by done. apply table_free_chain; [lia| |done]. pose proof (fat_chain_length _ _ _ _ Hl). unfold free_fuel. lia.
Qed.

(** ** Clusters *)

(** The bytes of a cluster. *)
Definition cluster_data (s : st) (c : Z) : list Z :=
  extent medium (disk s) (data_start_sector (params s) + (c - 2) * sectors_per_cluster (params s)) (Z.to_nat (sectors_per_cluster (params s))).

Lemma cluster_length s c : mounted s -> length (cluster_data s c) = Z.to_nat (bytes_per_cluster (params s)).
Proof. intros [Hg _ _]. unfold cluster_data. rewrite (extent_length dev medium). destruct (geo_cluster _ Hg) as [Hs ->]. pose proof disk_size. nia. Qed.

Lemma cluster_bytes s c : bytes (cluster_data s c).
Proof. unfold cluster_data, extent. apply Forall_concat, Forall_fmap, Forall_true. intros i. apply (@disk_block _ dev medium _). Qed.

Lemma cluster_place s c : mounted s -> valid s c ->
  first_sector (params s) c = data_start_sector (params s) + (c - 2) * sectors_per_cluster (params s) /\
  0 <= data_start_sector (params s) + (c - 2) * sectors_per_cluster (params s) /\
  data_start_sector (params s) + (c - 2) * sectors_per_cluster (params s) + sectors_per_cluster (params s) <= block_count dev /\ 0 < sectors_per_cluster (params s).
Proof.
  intros [Hg _ _] Hv. unfold valid in Hv. destruct (geo_cluster _ Hg) as [Hs _]. destruct (geo_end _ Hg) as [He H32]. destruct (geo_fat _ Hg) as [H0 Hsz]. pose proof (geo_data _ Hg). pose proof (geo_fats _ Hg).
  pose proof (geo_clusters _ Hg). pose proof disk_size.
  assert (0 < fat_size_sectors (params s)) by nia. assert (0 <= data_start_sector (params s)) by nia.
  assert ((c - 2) * sectors_per_cluster (params s) + sectors_per_cluster (params s) <= total_clusters (params s) * sectors_per_cluster (params s)) by nia.
  assert (0 <= (c - 2) * sectors_per_cluster (params s)) by nia. unfold first_sector. rewrite (wrap_small 32 (c - 2)) by fits_lia. rewrite (wrap_small 32 (_ * _)) by fits_lia. rewrite (wrap_small 32) by fits_lia. lia.
Qed.

Lemma read_cluster_runs s c b : mounted s -> valid s c -> length b = Z.to_nat (bytes_per_cluster (params s)) ->
  runs (fat32_read_cluster dev c b) (fun r s' => r = (ERR_OK, cluster_data s c) /\ mounted s' /\ unchanged s s') s.
Proof.
  intros Hm Hv Hb. destruct (cluster_place s c Hm Hv) as (Hf & H0 & He & Hs). pose proof Hm as [Hg [Hl Hby] Hc]. destruct (geo_cluster _ Hg) as [_ Hbpc].
  eapply runs_step; [reflexivity|]. cbv beta. rewrite valid_cluster, Hf by done.
  eapply runs_mono; [apply on_disk_runs, (read_blocks_runs dev medium); [lia|lia|lia|by rewrite Hb, Hbpc]|]. intros r s' (d & -> & -> & Ha).
  rewrite drop_ge, app_nil_r by (by rewrite Hb, Hbpc). split; [done|]. split; [|by split]. split; [done|done|]. destruct Hc as [Hc|[Hc Hr]]; [by left|]. right. cbn [disk set_disk fat_cache fat_cache_sector]. by rewrite Ha.
Qed.

Lemma cluster_apart c c' spc start m : 0 < spc -> c <> c' -> start + (c' - 2) * spc <= m < start + (c' - 2) * spc + spc -> (start + (c - 2) * spc <=? m) && (m <? start + (c - 2) * spc + spc) = false.
Proof. intros. destruct (Z.lt_ge_cases c c'); nia. Qed.

(** Writing behind the tables does not change them. *)
Lemma represents_data s t d : represents s t -> (forall m, m < data_start_sector (params s) -> medium d m = medium (disk s) m) -> represents (set_disk s d) t.
Proof.
  intros [[Hg Hca Hc] Ht] Hlow. split; [split; [done|done|]|].
  - destruct Hc as [Hc|[Hc Hr]]; [by left|]. right. cbn [disk set_disk fat_cache fat_cache_sector params]. by rewrite Hlow by lia.
  - intros c' Hc'. rewrite <- Ht by done. unfold next_of, entry_of. cbn [disk set_disk params]. do 2 f_equal. apply Hlow.
    destruct (entry_place _ c' Hg ltac:(unfold valid in Hc'; cbn in Hc'; lia)) as (Hq & _). destruct (fat_sector_bound _ _ 0 Hg Hq) as (? & _); [pose proof (geo_fats _ Hg); lia|lia].
Qed.

(** The cluster holds the bytes; the other clusters and the table are as before. *)
Lemma write_cluster_runs s t c b : represents s t -> valid s c -> length b = Z.to_nat (bytes_per_cluster (params s)) -> bytes b ->
  runs (fat32_write_cluster dev c b)
    (fun e s' => e = ERR_OK /\ represents s' t /\ params s' = params s /\ cluster_data s' c = b /\ (forall c', c' <> c -> cluster_data s' c' = cluster_data s c') /\
       (forall m, m < data_start_sector (params s) -> medium (disk s') m = medium (disk s) m)) s.
Proof.
  intros Hr Hv Hb Hbb. pose proof (proj1 Hr) as Hm. destruct (cluster_place s c Hm Hv) as (Hf & H0 & He & Hs). destruct (geo_cluster _ (mnt_geo _ Hm)) as [_ Hbpc]. unfold valid in Hv.
  eapply runs_step; [reflexivity|]. cbv beta. rewrite valid_cluster, Hf by done.
  eapply runs_mono; [apply on_disk_runs, (write_blocks_runs dev medium); [lia|lia|lia|by rewrite Hb, Hbpc|done]|]. intros e s' (d & -> & -> & Hst).
  assert (Hlow : forall m, m < data_start_sector (params s) -> medium d m = medium (disk s) m) by (intros m Hlt; rewrite Hst; replace (_ && _) with false by nia; done).
  split; [done|]. split; [by apply represents_data|]. split; [done|]. split; [|split; [|done]].
  - unfold cluster_data. cbn [disk set_disk params]. apply (stored_extent dev medium _ _ _ (disk s)); [lia|by rewrite Hb, Hbpc|done].
  - intros c' Hne. unfold cluster_data, extent. cbn [disk set_disk params]. f_equal. apply list_fmap_ext. intros i k Hk%lookup_seq. rewrite Hst. rewrite (cluster_apart c c') by lia. done.
Qed.

(** ** Mounting *)

Section mounting.
  Context (mem_ok : nat -> bool) (garbage : nat -> nat -> Z).

#[local] Abbreviation data_start boot := (reserved_sectors boot + num_fats boot * sectors_per_fat_32 boot).
#[local] Abbreviation clusters boot := ((total_sectors_32 boot - data_start boot) / boot_sectors_per_cluster boot).

(** A boot sector that passes the checks. *)
Definition recognised (boot : list Z) : Prop := boot_signature_end boot = 0xAA55 /\ take 5 (fs_type boot) = [70; 65; 84; 51; 50] /\ boot_sectors_per_cluster boot <> 0.

(** A boot sector that describes the device. *)
Record image (boot : list Z) : Prop := {
  img_ok : recognised boot;
  img_size : bytes_per_sector boot = size;
  img_fats : 1 <= num_fats boot;
  img_clusters : clusters boot <= 0x0FFFFFF0 /\ (clusters boot + 2) * 4 <= sectors_per_fat_32 boot * size;
  img_end : data_start boot <= total_sectors_32 boot <= block_count dev
}.

Lemma boot_runs s : 0 < block_count dev -> size = 512 -> length (boot_sector (params s)) = 512%nat -> recognised (medium (disk s) 0) ->
  runs (fat32_read_boot_sector dev) (fun e s' => e = ERR_OK /\ agree medium (disk s) (disk s') /\ boot_sector (params s') = medium (disk s) 0 /\ allocs s' = allocs s) s.
Proof.
  intros Hb Hsz Hl (Hsig & Hty & _). eapply runs_step; [reflexivity|]. cbv beta. eapply runs_bind; [apply on_disk_runs, (read_runs dev medium); [lia|rewrite Hl, Hsz; done]|]. intros r s1 (d & -> & -> & Ha).
  cbn [fst snd]. rewrite drop_ge, app_nil_r by (rewrite Hl, Hsz; done). eapply runs_step; [reflexivity|]. cbv beta. rewrite bool_decide_true by done. rewrite Hsig, bool_decide_true by done. by apply runs_ret.
Qed.

Lemma kmalloc_runs n (s : st) : runs (kmalloc mem_ok garbage n) (fun b s' => b = (if mem_ok (allocs s) then garbage (allocs s) <$> seq 0 (Z.to_nat n) else []) /\ s' = count_alloc s) s.
Proof. by eexists _, _. Qed.

(** The parameters that a boot sector gives. *)
Definition boot_params (boot : list Z) : fat32_params :=
  let start := u32 (reserved_sectors boot + u32 (num_fats boot * sectors_per_fat_32 boot)) in
  {| boot_sector := boot; sectors_per_cluster := boot_sectors_per_cluster boot; bytes_per_cluster := u32 (boot_sectors_per_cluster boot * bytes_per_sector boot);
     fat_start_sector := reserved_sectors boot; fat_size_sectors := sectors_per_fat_32 boot; data_start_sector := start;
     root_cluster := boot_root_cluster boot; total_clusters := u32 (total_sectors_32 boot - start) / boot_sectors_per_cluster boot |}.

Lemma init_runs s (boot := medium (disk s) 0) : 0 < block_count dev -> size = 512 -> length (boot_sector (params s)) = 512%nat -> recognised boot -> 0 < bytes_per_sector boot -> mem_ok (allocs s) = true ->
  runs (fat32_init dev mem_ok garbage)
    (fun e s' => e = ERR_OK /\ agree medium (disk s) (disk s') /\ params s' = boot_params boot /\ fat_cache s' = garbage (allocs s) <$> seq 0 (Z.to_nat (bytes_per_sector boot)) /\ fat_cache_sector s' = 0xFFFFFFFF) s.
Proof.
  intros Hb Hsz Hl Hok Hbps Hmem. eapply runs_bind; [by apply boot_runs|]. intros e s1 (-> & Ha & Hboot & Hal). rewrite bool_decide_true by done. cbn [negb]. eapply runs_step; [reflexivity|]. cbv beta.
  rewrite Hboot. fold boot. rewrite (proj2 (Z.eqb_neq _ 0)) by apply Hok. eapply runs_step; [reflexivity|]. cbv beta. eapply runs_bind; [apply kmalloc_runs|]. intros c s2 [-> ->]. cbn [allocs set_params].
  rewrite Hal, Hmem. do 2 (eapply runs_step; [reflexivity|]; cbv beta). rewrite bool_decide_false.
  - eapply runs_step; [reflexivity|]. by apply runs_ret.
  - intros E%fmap_nil_inv. destruct (Z.to_nat (bytes_per_sector boot)) eqn:E'; [lia|done].
Qed.

Lemma image_geometry boot : bytes boot -> size = 512 -> image boot -> geometry (boot_params boot).
Proof.
  intros Hby H512 [(_ & _ & Hspc) Hsz Hf [Hmax Hfat] [Hds Hend]].
  assert (H1 : 0 <= boot_sectors_per_cluster boot < 256) by apply (field_fits 13 1 boot Hby). assert (H2 : 0 <= total_sectors_32 boot < 2 ^ 32) by apply (field_fits 32 4 boot Hby).
  assert (H3 : 0 <= sectors_per_fat_32 boot < 2 ^ 32) by apply (field_fits 36 4 boot Hby). assert (H4 : 0 <= reserved_sectors boot < 65536) by apply (field_fits 14 2 boot Hby).
  assert (H6 : 0 <= num_fats boot * sectors_per_fat_32 boot) by nia.
  assert (Hst : data_start_sector (boot_params boot) = data_start boot) by (cbn [data_start_sector boot_params]; rewrite (wrap_small 32 (num_fats boot * _)) by fits_lia; apply wrap_small; fits_lia).
  assert (Htot : total_clusters (boot_params boot) = clusters boot) by (cbn [total_clusters boot_params]; cbn [data_start_sector boot_params] in Hst; rewrite Hst, (wrap_small 32) by fits_lia; done).
  assert (Hdiv : clusters boot * boot_sectors_per_cluster boot <= total_sectors_32 boot - data_start boot) by (rewrite Z.mul_comm; apply Z.mul_div_le; lia).
  assert (0 <= clusters boot) by (apply Z.div_pos; lia).
  split; rewrite ?Hst, ?Htot; cbn [boot_sector sectors_per_cluster bytes_per_cluster fat_start_sector fat_size_sectors boot_params]; try lia.
  - split; [done|]. by rewrite H512.
  - split; [lia|]. rewrite Hsz, H512. apply wrap_small. fits_lia.
Qed.

(** Mounting.  A boot sector that describes the device is accepted, and the file system
    is then mounted with the table that the device holds; the device is not changed. *)
Theorem fat_init_mounts s (boot := medium (disk s) 0) : size = 512 -> image boot -> length (boot_sector (params s)) = 512%nat -> mem_ok (allocs s) = true -> (forall n i, fits 8 (garbage n i)) ->
  runs (fat32_init dev mem_ok garbage) (fun e s' => e = ERR_OK /\ mounted s' /\ params s' = boot_params boot /\ agree medium (disk s) (disk s')) s.
Proof.
  intros H512 Him Hl Hmem Hg. assert (Hgeo : geometry (boot_params boot)) by (apply image_geometry; [apply disk_block|done|done]). pose proof Him as [Hok Hsz Hf _ [Hds Hend]].
  assert (Hby : bytes boot) by apply disk_block. assert (H3 : 0 <= sectors_per_fat_32 boot < 2 ^ 32) by apply (field_fits 36 4 boot Hby).
  destruct (geo_fat _ Hgeo) as [H0 Hfat]. cbn [fat_start_sector fat_size_sectors boot_params] in H0, Hfat. pose proof (geo_clusters _ Hgeo).
  eapply runs_mono; [apply init_runs; try done; [nia|fold boot; lia]|]. intros e s' (-> & Ha & Hp & Hc & Hn). fold boot in Hp, Hc. split; [done|]. split; [|done].
  split; [by rewrite Hp| |by left]. rewrite Hc, length_fmap, length_seq, Hsz. split; [done|]. apply Forall_fmap, Forall_true. intros i. apply Hg.
Qed.

(** The size of the sectors is not compared with that of the blocks of the device: when
    a boot sector gives a smaller one, the file system is mounted, and the first access to
    its table overruns the cache, which is a sector long. *)
Theorem fat_small_sectors_overrun s c (boot := medium (disk s) 0) :
  size = 512 -> recognised boot -> 0 < bytes_per_sector boot < 512 -> invalid_cluster (boot_params boot) c = false ->
  u32 (reserved_sectors boot + u32 (c * 4) / bytes_per_sector boot) < block_count dev -> block_count dev < 2 ^ 32 ->
  length (boot_sector (params s)) = 512%nat -> mem_ok (allocs s) = true ->
  (e <~ fat32_init dev mem_ok garbage;; n <~ fat32_get_next_cluster dev c;; ret (e, n)) s = Fault.
Proof.
  intros H512 Hok Hbps Hc Hb H32 Hl Hmem. set (sec := u32 _) in Hb. assert (Hsec : 0 <= sec) by apply (wrap_fits 32 _ ltac:(lia)).
  destruct (init_runs s) as (e & s' & E & _ & Ha & Hp & Hcache & Hn); try done; [lia|fold boot; lia|]. fold boot in Hp, Hcache. rewrite (bind_run _ _ _ _ _ E).
  unfold bind at 1. assert (Hf : fat32_get_next_cluster dev c s' = Fault); [|by rewrite Hf]. unfold fat32_get_next_cluster. erewrite bind_run by reflexivity. rewrite Hp, Hc.
  erewrite bind_run by (unfold fat_location; cbn [boot_sector boot_params]; by rewrite (proj2 (Z.eqb_neq _ 0)) by lia). cbn [fst snd fat_start_sector boot_params]. fold sec.
  unfold bind, load_fat_sector. unfold bind at 1. cbn [get]. rewrite Hn, (proj2 (Z.eqb_neq _ _)) by lia. unfold bind at 1, get. unfold bind, on_disk, block_device_read.
  rewrite (proj2 (Z.leb_gt _ _)) by lia. destruct (disk_read) as (f & -> & _). rewrite (proj2 (Nat.ltb_lt _ _)); [done|]. rewrite Hcache, length_fmap, length_seq, H512. lia.
Qed.

End mounting.

End mounted.

(** ** A small volume *)

(** A device of 13 blocks of 512 bytes: the boot sector, two copies of the table and five
    clusters of two sectors.  [sample fat root] is mounted, with the entries [fat] in the
    tables and the bytes [root] in the root directory at cluster 2; the clusters 3 and 4
    hold 7 and 9 as their bytes. *)
Definition sample_device : block_device_t (gmap Z (list Z)) := ram_device 13 512.
#[export] Instance sample_is_disk : Disk sample_device (ram_medium 512) := ram_disk 13 512 ltac:(fits_lia) ltac:(lia).

Definition sample_boot : list Z :=
  foldl (fun b '(o, l) => buf_write b o l) (replicate 512 0)
    [(11%nat, le_bytes 2 512); (13%nat, [2]); (14%nat, le_bytes 2 1); (16%nat, [2]); (32%nat, le_bytes 4 13); (36%nat, le_bytes 4 1); (44%nat, le_bytes 4 2);
     (82%nat, [70; 65; 84; 51; 50; 32; 32; 32]); (510%nat, [0x55; 0xAA])].

Definition sample_blocks (fat root : list Z) : gmap Z (list Z) :=
  let table := concat (le_bytes 4 <$> fat) in
  list_to_map [(0, sample_boot); (1, table); (2, table); (3, take 512 root); (4, drop 512 root); (5, replicate 512 7); (6, replicate 512 7); (7, replicate 512 9); (8, replicate 512 9)].

Definition sample (fat root : list Z) : fat32 (gmap Z (list Z)) :=
  {| disk := sample_blocks fat root; params := boot_params sample_boot; fat_cache := replicate 512 0; fat_cache_sector := 0xFFFFFFFF; allocs := 0 |}.

(** A file in the clusters 3 and 4; the clusters 5 and 6 are free. *)
Definition sample_fat : list Z := [0x0FFFFFF8; 0x0FFFFFFF; 0x0FFFFFFF; 4; 0x0FFFFFFF; 0; 0].
Definition table_of (fat : list Z) : arr Z := fun c => nth (Z.to_nat c) fat 0.

Lemma sample_geometry : geometry sample_device (boot_params sample_boot).
Proof. split; repeat split; vm_compute; congruence. Qed.

Lemma sample_mounted fat root : mounted sample_device (ram_medium 512) (sample fat root).
Proof. split; [apply sample_geometry| |by left]. split; [done|]. apply Forall_replicate. fits_lia. Qed.

Lemma sample_represents root : represents sample_device (ram_medium 512) (sample sample_fat root) (table_of sample_fat).
Proof.
  split; [apply sample_mounted|]. intros c Hc. assert (Hv : 2 <= c < 7) by exact Hc. clear Hc.
  assert (H : c = 2 \/ c = 3 \/ c = 4 \/ c = 5 \/ c = 6) by lia. destruct H as [->|[->|[->|[->| ->]]]]; vm_compute; reflexivity.
Qed.

Lemma fat_table_refines_witness :
  runs (table_calls sample_device [op_alloc; op_link 4 5; op_next 4; op_free 3; op_alloc; op_link 7 2])
    (fun rs s' => rs = [inl 5; inr ERR_OK; inl 5; inr ERR_OK; inl 3; inr ERR_INVALID_ARG] /\ mirrored (ram_medium 512) s') (sample sample_fat []).
Proof.
  eapply runs_mono; [apply (fat_table_refines sample_device (ram_medium 512) _ _ (table_of sample_fat)); apply sample_represents|]. intros rs s' (Hk & -> & _). split; [by vm_compute|].
  apply (kept_mirrored _ _ _ _ Hk). intros j q Hj Hq. assert (Hj' : 0 <= j < 2) by exact Hj. assert (Hq' : 0 <= q < 1) by exact Hq. assert (q = 0) as -> by lia. assert (Hcase : j = 0 \/ j = 1) by lia. destruct Hcase as [->| ->]; vm_compute; reflexivity.
Defined.

Lemma fat_init_mounts_witness :
  runs (fat32_init sample_device (fun _ => true) (fun _ _ => 0)) (fun e s' => e = ERR_OK /\ mounted sample_device (ram_medium 512) s' /\ total_clusters (params s') = 5)
    {| disk := sample_blocks sample_fat []; params := with_boot (boot_params []) (replicate 512 0); fat_cache := []; fat_cache_sector := 0; allocs := 0 |}.
Proof.
  eapply runs_mono; [apply (fat_init_mounts sample_device (ram_medium 512)); [done| |done|done|intros; fits_lia]|]; [|by intros e s' (-> & Hm & -> & _); split; [done|]; split; [done|by vm_compute]].
  replace (ram_medium 512 _ 0) with sample_boot by (by vm_compute). split; repeat split; vm_compute; congruence.
Defined.
