(* ===== verification/FatDir.v ===== *)
(** * FAT32: names, dates and directories (kernel/fs/fat32.c, fat32_utils.c, fat32_create.c,
    fat32_dir.c and fat32_vfs.c)

    A path is the list of the characters of a C string.  A directory entry is its 32
    bytes, whose fields are read at their offsets.  [char] is signed, as on x86_64.
    Handles of directories are the indices of [dir_handles]; as one file system is
    mounted, the [fs] of a handle is either null or that one.  The real time clock is
    read once by [fat32_create_file] and is its argument. *)

From stdpp Require Import base tactics list numbers option gmap.
From Stdlib Require Import Lia ZifyBool.
From S2P Require Import Prelude Effect Bytes Buffer Block Fat VfsTypes.

#[local] Open Scope Z_scope.

Definition FAT32_ATTR_READ_ONLY : Z := 0x01.
Definition FAT32_ATTR_DIRECTORY : Z := 0x10.
Definition FAT32_ATTR_ARCHIVE : Z := 0x20.
Definition FAT32_ATTR_LONG_NAME : Z := 0x0F.
Definition MAX_DIR_HANDLES : Z := 16.

(** 0444, 0755 and 0644 *)
Definition PERM_ALL_READ : Z := 0x124.
Definition PERM_DEFAULT_DIR : Z := 0x1ED.
Definition PERM_DEFAULT_FILE : Z := 0x1A4.

Definition ENTRY_SIZE : Z := 32.

(** ** Paths *)

Definition dot : Z := 46.
Definition space : Z := 32.

(** The characters before the first [c], and the rest from it on. *)
Fixpoint span (c : Z) (p : list Z) : list Z * list Z :=
  match p with
  | [] => ([], [])
  | x :: p' => if x =? c then ([], p) else let '(a, b) := span c p' in (x :: a, b)
  end.

(** The components, at most [n] more; [None]: one of them is too long. *)
Fixpoint parse_loop (n : nat) (p : list Z) : option (list (list Z)) :=
  match n, p with
  | O, _ | _, [] => Some []
  | S n, _ =>
      let '(component, rest) := span slash p in
      if bool_decide (component = []) then Some []
      else if 11 <? Z.of_nat (length component) then None
      else match rest with [] => Some [component] | _ :: p => cs ← parse_loop n p; Some (component :: cs) end
  end.

Definition fat32_parse_path (path : list Z) : option (list (list Z)) :=
  parse_loop 32 (match path with c :: p => if c =? slash then p else path | [] => path end).

(** ** Names *)

Definition upper (c : Z) : Z := if (97 <=? c) && (c <=? 122) then c - 97 + 65 else c.

(** [l] and spaces behind it, [n] characters. *)
Definition padded (n : nat) (l : list Z) : list Z := l ++ repeat space (n - length l).

Definition fat32_format_filename (name : list Z) : list Z :=
  let '(base, rest) := span dot name in
  let ext := tail rest in
  padded 8 (upper <$> take 8 base) ++ padded 3 (upper <$> take 3 ext).

(** The name of a directory that is made: a dot is a character like others. *)
Definition format_dirname (name : list Z) : list Z := padded 11 (upper <$> take 11 name).

(** ** Dates *)

Definition is_leap (y : Z) : bool := ((y mod 4 =? 0) && negb (y mod 100 =? 0)) || (y mod 400 =? 0).

Definition days_per_month (year : Z) : list Z := [31; if is_leap year then 29 else 28; 31; 30; 31; 30; 31; 31; 30; 31; 30; 31].

(** The days of [n] years from [y] on. *)
Fixpoint years_days (n : nat) (y : Z) : Z :=
  match n with O => 0 | S n => (if is_leap y then 366 else 365) + years_days n (y + 1) end.

(** [None]: the months before [month] are more than twelve, and [days_per_month] is read
    out of its bounds. *)
Definition fat32_date_to_unix (fat_date fat_time : Z) : option Z :=
  let year := 1980 + Z.land (Z.shiftr fat_date 9) 0x7F in
  let month := Z.land (Z.shiftr fat_date 5) 0x0F in
  let day := Z.land fat_date 0x1F in
  let hour := Z.land (Z.shiftr fat_time 11) 0x1F in
  let minute := Z.land (Z.shiftr fat_time 5) 0x3F in
  let second := Z.land fat_time 0x1F * 2 in
  let before := Z.to_nat (month - 1) in
  if (12 <? before)%nat then None
  else
    let days := u64 (years_days (Z.to_nat (year - 1980)) 1980 + foldr Z.add 0 (take before (days_per_month year)) + u32 (day - 1)) in
    Some (u64 (u64 (days * 86400) + hour * 3600 + minute * 60 + second + 315532800)).

Fixpoint year_loop (fuel : nat) (days year : Z) : option (Z * Z) :=
  match fuel with
  | O => None
  | S fuel =>
      if days <? 365 then Some (days, year)
      else
        let year_days := if is_leap year then 366 else 365 in
        if days <? year_days then Some (days, year) else year_loop fuel (days - year_days) (u32 (year + 1))
  end.

(** The month and the day: [m] months have been taken off. *)
Fixpoint month_loop (m day : Z) (l : list Z) : Z * Z :=
  match l with
  | [] => (1, day)
  | d :: l => if day <=? d then (m + 1, day) else month_loop (m + 1) (u32 (day - d)) l
  end.

(** The date and the time; [None]: the fuel is used up. *)
Definition fat32_unix_to_date (fuel : nat) (unix_time : Z) : option (Z * Z) :=
  let fat_seconds := u64 (unix_time - 315532800) in
  let seconds_in_day := fat_seconds mod 86400 in
  '(days, year) ← year_loop fuel (fat_seconds / 86400) 1980;
  let '(month, day) := month_loop 0 (u32 (u32 days + 1)) (days_per_month year) in
  let hour := seconds_in_day / 3600 in
  let minute := seconds_in_day mod 3600 / 60 in
  let second := seconds_in_day mod 60 in
  Some (u16 (Z.lor (Z.lor (u32 (Z.shiftl (u32 (year - 1980)) 9)) (u32 (Z.shiftl month 5))) day), u16 (Z.lor (Z.lor (Z.shiftl hour 11) (Z.shiftl minute 5)) (second / 2))).

(** ** Entries *)

Definition entry_name (e : list Z) : list Z := take 11 e.
Definition attributes (e : list Z) : Z := field 11 1 e.
Definition entry_cluster (e : list Z) : Z := Z.lor (field 26 2 e) (Z.shiftl (field 20 2 e) 16).
Definition file_size (e : list Z) : Z := field 28 4 e.

(** The [i]th entry of a buffer. *)
Definition entry_at (b : list Z) (i : nat) : list Z := take 32 (drop (32 * i) b).

(** [entries[i].name[0] == 0xE5]: a [char] is compared with 229. *)
Definition name_is_e5 (e : list Z) : bool := sext 8 (field 0 1 e) =? 0xE5.

(** The first cluster, as [cluster_high] and [cluster_low]. *)
Definition set_first (e : list Z) (cluster : Z) : list Z :=
  buf_write (buf_write e 20 (le_bytes 2 (Z.land (Z.shiftr cluster 16) 0xFFFF))) 26 (le_bytes 2 (Z.land cluster 0xFFFF)).

(** The first cluster of an empty file. *)
Definition put_cluster (e : list Z) (cluster : Z) : list Z := buf_write (set_first e cluster) 28 (le_bytes 4 0).

Definition is_directory (e : list Z) : bool := has_any (attributes e) FAT32_ATTR_DIRECTORY.

(** One pass over the entries of a cluster, from entry [i] on. *)
Inductive scanned := at_entry (i : nat) (e : list Z) | at_end | past_all.

Fixpoint scan_names (n i : nat) (formatted b : list Z) : scanned :=
  match n with
  | O => past_all
  | S n =>
      let e := entry_at b i in
      if field 0 1 e =? 0 then at_end
      else if name_is_e5 e then scan_names n (S i) formatted b
      else if bool_decide (entry_name e = formatted) then at_entry i e
      else scan_names n (S i) formatted b
  end.

Fixpoint scan_free (n i : nat) (b : list Z) : scanned :=
  match n with
  | O => past_all
  | S n =>
      let e := entry_at b i in
      if (field 0 1 e =? 0) || name_is_e5 e then at_entry i e else scan_free n (S i) b
  end.

(** The entries that [fat32_read_dir] copies, at most [room]; here the comparison is
    between bytes. *)
Fixpoint live_entries (n i room : nat) (b : list Z) : list (list Z) :=
  match n, room with
  | S n, S room' =>
      let e := entry_at b i in
      if field 0 1 e =? 0 then []
      else if field 0 1 e =? 0xE5 then live_entries n (S i) room b
      else e :: live_entries n (S i) room' b
  | _, _ => []
  end.

(** ** State *)

(** A handle of an open directory; the buffer is empty when the pointer is null. *)
Record fat32_dir_handle_t := { dh_open : bool; dh_cluster : Z; dh_current : Z; dh_buffer : list Z; dh_dirty : bool }.

Definition no_handle : fat32_dir_handle_t := {| dh_open := false; dh_cluster := 0; dh_current := 0; dh_buffer := []; dh_dirty := false |}.

Record fat_dirs (D : Type) := { vol : fat32 D; dir_handles : arr fat32_dir_handle_t; next_dir_handle : Z }.
Arguments vol {D} _.
Arguments dir_handles {D} _.
Arguments next_dir_handle {D} _.

(** [rtc_time_t] *)
Record rtc_time_t := { year : Z; month : Z; day : Z; hour : Z; minute : Z; second : Z }.

Section directories.
  Context {D : Type} (dev : block_device_t D) (mem_ok : nat -> bool) (garbage : nat -> nat -> Z).

#[local] Abbreviation M := (Effect.M (fat32 D)).
#[local] Open Scope effect_scope.
#[local] Abbreviation kmalloc := (Fat.kmalloc mem_ok garbage).

Definition entries_per_cluster (p : fat32_params) : nat := Z.to_nat (bytes_per_cluster p / ENTRY_SIZE).

(** ** Searching a directory *)

(** The clusters from [cluster] on are read into [b] and scanned, until [scan] ends the
    search with an entry or with the end of the directory, which gives the code [missing]. *)
Fixpoint search (fuel : nat) (scan : list Z -> scanned) (missing : error_code_t) (cluster : Z) (b : list Z) : M (error_code_t * option (Z * nat * list Z)) :=
  match fuel with
  | O => stop NoFuel
  | S fuel =>
      if (2 <=? cluster) && (cluster <? FAT32_CLUSTER_EOF_MIN) then
        r <~ fat32_read_cluster dev cluster b;;
        if negb (bool_decide (fst r = ERR_OK)) then ret (fst r, None)
        else
          match scan (snd r) with
          | at_entry i e => ret (ERR_OK, Some (cluster, i, e))
          | at_end => ret (ERR_NOT_FOUND, None)
          | past_all => next <~ fat32_get_next_cluster dev cluster;; search fuel scan missing next (snd r)
          end
      else ret (missing, None)
  end.

Definition search_dir (scan : nat -> list Z -> scanned) (missing : error_code_t) (cluster : Z) : M (error_code_t * option (Z * nat * list Z)) :=
  p <~ get params;;
  b <~ kmalloc (bytes_per_cluster p);;
  if bool_decide (b = []) then ret (ERR_OUT_OF_MEMORY, None)
  else search (S (S (Z.to_nat (total_clusters p)))) (scan (entries_per_cluster p)) missing cluster b.

(** The entry with the name, in the 8.3 format. *)
Definition fat32_find_in_dir (cluster : Z) (name : list Z) : M (error_code_t * option (list Z)) :=
  r <~ search_dir (fun n => scan_names n 0 (fat32_format_filename name)) ERR_NOT_FOUND cluster;; ret (fst r, snd <$> snd r).

(** Its cluster and its index there. *)
Definition fat32_find_in_dir_location (cluster : Z) (name : list Z) : M (error_code_t * option (Z * nat)) :=
  r <~ search_dir (fun n => scan_names n 0 (fat32_format_filename name)) ERR_NOT_FOUND cluster;; ret (fst r, fst <$> snd r).

(** The first sector of the cluster with a free entry, and the index of the entry. *)
Definition fat32_find_free_dir_entry (cluster : Z) : M (error_code_t * option (Z * nat)) :=
  r <~ search_dir (fun n => scan_free n 0) ERR_DISK_FULL cluster;;
  p <~ get params;;
  ret (fst r, (fun x => (first_sector p (fst (fst x)), snd (fst x))) <$> snd r).

(** The entries of the first cluster of a directory, at most [max_entries], in front of
    what the caller's array holds. *)
Definition fat32_read_dir (cluster : Z) (entries : list (list Z)) : M (error_code_t * list (list Z)) :=
  p <~ get params;;
  b <~ kmalloc (bytes_per_cluster p);;
  if bool_decide (b = []) then ret (ERR_OUT_OF_MEMORY, entries)
  else
    r <~ fat32_read_cluster dev cluster b;;
    if negb (bool_decide (fst r = ERR_OK)) then ret (fst r, entries)
    else
      let l := live_entries (entries_per_cluster p) 0 (length entries) (snd r) in
      ret (ERR_OK, l ++ drop (length l) entries).

(** The rest of a path, from the directory at [cluster] on. *)
Fixpoint traverse (components : list (list Z)) (cluster : Z) : M (error_code_t * option (list Z)) :=
  match components with
  | [] => ret (ERR_NOT_FOUND, None)
  | c :: cs =>
      r <~ fat32_find_in_dir cluster c;;
      match snd r with
      | None => ret (fst r, None)
      | Some e =>
          match cs with
          | [] => ret (ERR_OK, Some e)
          | _ => if negb (is_directory e) then ret (ERR_NOT_DIRECTORY, None) else traverse cs (entry_cluster e)
          end
      end
  end.

(** The entry of a file; [entry] is what the caller's structure holds, of which the name
    and the dates stay for the root directory. *)
Definition fat32_find_file (path entry : list Z) : M (error_code_t * list Z) :=
  match fat32_parse_path path with
  | None => ret (ERR_INVALID_ARG, entry)
  | Some [] => p <~ get params;; ret (ERR_OK, put_cluster (buf_write entry 11 [FAT32_ATTR_DIRECTORY]) (root_cluster p))
  | Some cs => p <~ get params;; r <~ traverse cs (root_cluster p);; ret (fst r, default entry (snd r))
  end.

(** The cluster of the directory that holds the last component; [check]: the components
    before it must be directories. *)
Fixpoint walk_parents (check : bool) (components : list (list Z)) (cluster : Z) : M (error_code_t * Z) :=
  match components with
  | [] | [_] => ret (ERR_OK, cluster)
  | c :: cs =>
      r <~ fat32_find_in_dir cluster c;;
      match snd r with
      | None => ret (fst r, cluster)
      | Some e => if check && negb (is_directory e) then ret (ERR_NOT_DIRECTORY, cluster) else walk_parents check cs (entry_cluster e)
      end
  end.

(** ** Creating *)

(** The entry at [index] of the array [sector_data] of 512 bytes. *)
Definition update_entry (sector_data : list Z) (index : nat) (f : list Z -> list Z) : M (list Z * list Z) :=
  e <~ rd sector_data (32 * Z.of_nat index) 32;; b <~ wr sector_data (32 * Z.of_nat index) (f e);; ret (f e, b).

Definition fat_time_of (t : rtc_time_t) : Z := u16 (Z.lor (Z.lor (Z.shiftl (hour t) 11) (Z.shiftl (minute t) 5)) (second t / 2)).
Definition fat_date_of (t : rtc_time_t) : Z := u16 (Z.lor (Z.lor (Z.shiftl (year t - 1980) 9) (Z.shiftl (month t) 5)) (day t)).

Definition new_entry (name : list Z) (attr cluster : Z) (e : list Z) : list Z := put_cluster (buf_write (buf_write e 0 name) 11 [attr]) cluster.

Definition stamp (t : rtc_time_t) (e : list Z) : list Z :=
  buf_write (buf_write e 14 (le_bytes 2 (fat_time_of t) ++ le_bytes 2 (fat_date_of t) ++ le_bytes 2 (fat_date_of t)))
    22 (le_bytes 2 (fat_time_of t) ++ le_bytes 2 (fat_date_of t)).

(** A sector of a directory is read, an entry of it changed by [f], and written back; on
    an error the cluster of the new file is freed. *)
Definition store_entry (sector : Z) (index : nat) (cluster : Z) (f : list Z -> list Z) : M (error_code_t * list Z) :=
  b <~ uninit garbage 512;;
  r <~ on_disk (block_device_read dev sector b);;
  if negb (bool_decide (fst r = ERR_OK)) then fat32_free_cluster dev cluster;;; ret (fst r, [])
  else
    x <~ update_entry (snd r) index f;;
    err <~ on_disk (block_device_write dev sector (snd x));;
    if negb (bool_decide (err = ERR_OK)) then fat32_free_cluster dev cluster;;; ret (err, []) else ret (ERR_OK, fst x).

Definition fat32_create_file (now : rtc_time_t) (path : list Z) : M (error_code_t * list Z) :=
  p <~ get params;;
  r <~ fat32_find_free_dir_entry (root_cluster p);;
  match snd r with
  | None => ret (fst r, [])
  | Some (sector, index) =>
      cluster <~ fat32_alloc_cluster dev;;
      if cluster <? 2 then ret (ERR_DISK_FULL, [])
      else store_entry sector index cluster (fun e => stamp now (new_entry (fat32_format_filename path) FAT32_ATTR_ARCHIVE cluster e))
  end.

(** ** Deleting and renaming *)

(** The first bytes of an entry are replaced. *)
Definition patch_entry (cluster : Z) (index : nat) (l : list Z) : M error_code_t :=
  p <~ get params;;
  b <~ kmalloc (bytes_per_cluster p);;
  if bool_decide (b = []) then ret ERR_OUT_OF_MEMORY
  else
    r <~ fat32_read_cluster dev cluster b;;
    if negb (bool_decide (fst r = ERR_OK)) then ret (fst r)
    else b <~ wr (snd r) (32 * Z.of_nat index) l;; fat32_write_cluster dev cluster b.

(** The entry of the last component is marked as deleted. *)
Definition mark_deleted (path : list Z) (last : M error_code_t) : M error_code_t :=
  match fat32_parse_path path with
  | None => ret ERR_INVALID_ARG
  | Some [] => ret ERR_OK
  | Some cs =>
      p <~ get params;;
      w <~ walk_parents false cs (root_cluster p);;
      if negb (bool_decide (fst w = ERR_OK)) then ret (fst w)
      else
        l <~ fat32_find_in_dir_location (snd w) (List.last cs []);;
        match snd l with
        | None => ret (fst l)
        | Some (cluster, index) => err <~ patch_entry cluster index [0xE5];; if negb (bool_decide (err = ERR_OK)) then ret err else last
        end
  end.

Definition fat32_delete_file (path : list Z) : M error_code_t :=
  u <~ uninit garbage ENTRY_SIZE;;
  r <~ fat32_find_file path u;;
  if negb (bool_decide (fst r = ERR_OK)) then ret (fst r)
  else
    let first := entry_cluster (snd r) in
    (if 2 <=? first then fat32_free_cluster dev first;;; ret tt else ret tt);;;
    mark_deleted path (ret ERR_OK).

(** Within one directory. *)
Definition fat32_vfs_rename (oldpath newpath : list Z) : M error_code_t :=
  match fat32_parse_path oldpath, fat32_parse_path newpath with
  | None, _ | _, None => ret ERR_INVALID_ARG
  | Some [], _ | _, Some [] => ret ERR_INVALID_ARG
  | Some old, Some new =>
      p <~ get params;;
      o <~ walk_parents true old (root_cluster p);;
      if negb (bool_decide (fst o = ERR_OK)) then ret (fst o)
      else
        n <~ walk_parents true new (root_cluster p);;
        if negb (bool_decide (fst n = ERR_OK)) then ret (fst n)
        else if negb (snd o =? snd n) then ret ERR_NOT_SUPPORTED
        else
          existing <~ fat32_find_in_dir (snd n) (List.last new []);;
          if bool_decide (fst existing = ERR_OK) then ret ERR_ALREADY_EXISTS
          else
            l <~ fat32_find_in_dir_location (snd o) (List.last old []);;
            match snd l with
            | None => ret (fst l)
            | Some (cluster, index) => patch_entry cluster index (fat32_format_filename (List.last new []))
            end
  end.

Definition type_of (e : list Z) : vfs_file_type_t := if is_directory e then VFS_TYPE_DIRECTORY else VFS_TYPE_FILE.

Definition unix_time (fat_date fat_time : Z) : M Z := match fat32_date_to_unix fat_date fat_time with Some t => ret t | None => stop Fault end.

Definition fat32_stat (path : list Z) : M (error_code_t * option vfs_stat_t) :=
  u <~ uninit garbage ENTRY_SIZE;;
  r <~ fat32_find_file path u;;
  if negb (bool_decide (fst r = ERR_OK)) then ret (fst r, None)
  else
    let e := snd r in
    let mode := if has_any (attributes e) FAT32_ATTR_READ_ONLY then PERM_ALL_READ else if is_directory e then PERM_DEFAULT_DIR else PERM_DEFAULT_FILE in
    a <~ unix_time (field 18 2 e) 0;;
    m <~ unix_time (field 24 2 e) (field 22 2 e);;
    c <~ unix_time (field 16 2 e) (field 14 2 e);;
    ret (ERR_OK, Some {| st_ino := Z.lor (field 26 2 e) (Z.shiftl (field 20 2 e) 16); st_type := type_of e; st_size := file_size e; st_mode := mode;
                         st_uid := 0; st_gid := 0; atime := a; mtime := m; ctime := c |}).

(** ** Making and removing directories *)

Definition dot_entry (name : list Z) (cluster : Z) (e : list Z) : list Z := new_entry (padded 11 name) FAT32_ATTR_DIRECTORY cluster e.

Definition fat32_mkdir (path : list Z) : M error_code_t :=
  match fat32_parse_path path with
  | None => ret ERR_INVALID_ARG
  | Some [] => ret ERR_INVALID_ARG
  | Some cs =>
      let dirname := List.last cs [] in
      p <~ get params;;
      w <~ walk_parents true cs (root_cluster p);;
      let parent := snd w in
      if negb (bool_decide (fst w = ERR_OK)) then ret (fst w)
      else
        existing <~ fat32_find_in_dir parent dirname;;
        if bool_decide (fst existing = ERR_OK) then ret ERR_ALREADY_EXISTS
        else
          cluster <~ fat32_alloc_cluster dev;;
          if cluster <? 2 then ret ERR_DISK_FULL
          else
            b <~ kmalloc (bytes_per_cluster p);;
            if bool_decide (b = []) then fat32_free_cluster dev cluster;;; ret ERR_OUT_OF_MEMORY
            else
              let zero := repeat 0 (length b) in
              x <~ update_entry zero 0 (dot_entry [dot] cluster);;
              x <~ update_entry (snd x) 1 (dot_entry [dot; dot] parent);;
              err <~ fat32_write_cluster dev cluster (snd x);;
              if negb (bool_decide (err = ERR_OK)) then fat32_free_cluster dev cluster;;; ret err
              else
                r <~ fat32_find_free_dir_entry parent;;
                match snd r with
                | None => fat32_free_cluster dev cluster;;; ret (fst r)
                | Some (sector, index) => y <~ store_entry sector index cluster (new_entry (format_dirname dirname) FAT32_ATTR_DIRECTORY cluster);; ret (fst y)
                end
  end.

(** An entry that keeps a directory from being removed. *)
Definition counts (e : list Z) : bool :=
  negb (name_is_e5 e) && negb ((field 0 1 e =? dot) && ((field 1 1 e =? space) || (field 1 1 e =? dot))).

Fixpoint count_entries (l : list (list Z)) : Z :=
  match l with
  | [] => 0
  | e :: l => if field 0 1 e =? 0 then 0 else (if counts e then 1 else 0) + count_entries l
  end.

(** The array of 16 entries is not initialised: what [fat32_read_dir] does not fill is
    counted too. *)
Definition fat32_rmdir (path : list Z) : M error_code_t :=
  u <~ uninit garbage ENTRY_SIZE;;
  r <~ fat32_find_file path u;;
  if negb (bool_decide (fst r = ERR_OK)) then ret (fst r)
  else if negb (is_directory (snd r)) then ret ERR_NOT_A_DIRECTORY
  else
    let first := entry_cluster (snd r) in
    a <~ uninit garbage (16 * ENTRY_SIZE);;
    l <~ fat32_read_dir first (entry_at a <$> seq 0 16);;
    if negb (bool_decide (fst l = ERR_OK)) then ret (fst l)
    else if 0 <? count_entries (snd l) then ret ERR_NOT_EMPTY
    else mark_deleted path ((if 2 <=? first then fat32_free_cluster dev first;;; ret tt else ret tt);;; ret ERR_OK).

End directories.

(** ** Reading a directory *)

(** The characters up to the first space. *)
Definition unpadded (l : list Z) : list Z := fst (span space l).

(** ["NAME.EXT"] from the eleven characters of an entry. *)
Definition readable_name (name : list Z) : list Z :=
  unpadded (take 8 name) ++ (if field 8 1 name =? space then [] else dot :: unpadded (drop 8 name)).

Section handles.
  Context {D : Type} (dev : block_device_t D) (mem_ok : nat -> bool) (garbage : nat -> nat -> Z).

#[local] Abbreviation M := (Effect.M (fat_dirs D)).
#[local] Open Scope effect_scope.

Definition on_vol {A} (m : Effect.M (fat32 D) A) : M A := fun s =>
  match m (vol s) with
  | Ret a v => Ret a {| vol := v; dir_handles := dir_handles s; next_dir_handle := next_dir_handle s |}
  | Fault => Fault | Deadlock => Deadlock | Panic => Panic | NoFuel => NoFuel
  end.

Definition set_handle (fd : Z) (h : fat32_dir_handle_t) : M unit :=
  modify (fun s => {| vol := vol s; dir_handles := (dir_handles s).[fd <- h]; next_dir_handle := next_dir_handle s |}).

(** The first free handle from the one after the last that was given out, or -1. *)
Definition fat32_alloc_dir_handle : M Z :=
  h <~ get dir_handles;; n <~ get next_dir_handle;;
  match find_first (fun i => negb (dh_open (h ((n + i) mod MAX_DIR_HANDLES)))) 0 (Z.to_nat MAX_DIR_HANDLES) with
  | None => ret (-1)
  | Some i =>
      let idx := (n + i) mod MAX_DIR_HANDLES in
      modify (fun s => {| vol := vol s; dir_handles := dir_handles s; next_dir_handle := (idx + 1) mod MAX_DIR_HANDLES |});;; ret idx
  end.

Definition fat32_free_dir_handle (fd : Z) : M unit := if (0 <=? fd) && (fd <? MAX_DIR_HANDLES) then set_handle fd no_handle else ret tt.

Definition fat32_get_dir_handle (fd : Z) : M (option fat32_dir_handle_t) :=
  if (fd <? 0) || (MAX_DIR_HANDLES <=? fd) then ret None else h <~ get dir_handles;; ret (if dh_open (h fd) then Some (h fd) else None).

Definition fat32_opendir (path : list Z) : M (error_code_t * Z) :=
  u <~ on_vol (uninit garbage ENTRY_SIZE);;
  r <~ on_vol (fat32_find_file dev mem_ok garbage path u);;
  if negb (bool_decide (fst r = ERR_OK)) then ret (fst r, -1)
  else if negb (is_directory (snd r)) then ret (ERR_NOT_DIRECTORY, -1)
  else
    fd <~ fat32_alloc_dir_handle;;
    if fd <? 0 then ret (ERR_OUT_OF_MEMORY, -1)
    else
      p <~ get (fun s => params (vol s));;
      let cluster := entry_cluster (snd r) in
      b <~ on_vol (Fat.kmalloc mem_ok garbage (bytes_per_cluster p));;
      if bool_decide (b = []) then fat32_free_dir_handle fd;;; ret (ERR_OUT_OF_MEMORY, -1)
      else
        x <~ on_vol (fat32_read_cluster dev cluster b);;
        if negb (bool_decide (fst x = ERR_OK)) then fat32_free_dir_handle fd;;; ret (fst x, -1)
        else set_handle fd {| dh_open := true; dh_cluster := cluster; dh_current := 0; dh_buffer := snd x; dh_dirty := false |};;; ret (ERR_OK, fd).

(** The next cluster of the directory is loaded; a code other than [ERR_OK] ends
    [fat32_readdir].  A dirty buffer would go to the next cluster, whose number the handle
    already has. *)
Definition next_dir_cluster (fd : Z) (h : fat32_dir_handle_t) : M (error_code_t * fat32_dir_handle_t) :=
  next <~ on_vol (fat32_get_next_cluster dev (dh_cluster h));;
  if FAT32_CLUSTER_EOF_MIN <=? next then ret (ERR_END_OF_FILE, h)
  else
    let h := {| dh_open := dh_open h; dh_cluster := next; dh_current := 0; dh_buffer := dh_buffer h; dh_dirty := dh_dirty h |} in
    set_handle fd h;;;
    err <~ (if dh_dirty h then on_vol (fat32_write_cluster dev next (dh_buffer h)) else ret ERR_OK);;
    if negb (bool_decide (err = ERR_OK)) then ret (err, h)
    else
      x <~ on_vol (fat32_read_cluster dev next (dh_buffer h));;
      let h := {| dh_open := dh_open h; dh_cluster := next; dh_current := 0; dh_buffer := snd x; dh_dirty := false |} in
      set_handle fd h;;; ret (fst x, h).

Definition dirent_of (e : list Z) : vfs_dirent_t :=
  {| ino := Z.lor (field 26 2 e) (Z.shiftl (field 20 2 e) 16); d_name := readable_name (entry_name e); d_type := type_of e |}.

Definition advance (h : fat32_dir_handle_t) : fat32_dir_handle_t :=
  {| dh_open := dh_open h; dh_cluster := dh_cluster h; dh_current := dh_current h + 1; dh_buffer := dh_buffer h; dh_dirty := dh_dirty h |}.

Fixpoint readdir_loop (fuel : nat) (n : Z) (fd : Z) (h : fat32_dir_handle_t) : M (error_code_t * option vfs_dirent_t) :=
  match fuel with
  | O => stop NoFuel
  | S fuel =>
      x <~ (if n <=? dh_current h then next_dir_cluster fd h else ret (ERR_OK, h));;
      let h := snd x in
      if negb (bool_decide (fst x = ERR_OK)) then ret (fst x, None)
      else
        e <~ rd (dh_buffer h) (32 * dh_current h) 32;;
        if field 0 1 e =? 0 then ret (ERR_END_OF_FILE, None)
        else if negb (name_is_e5 e) && (Z.land (attributes e) FAT32_ATTR_LONG_NAME =? 0) then set_handle fd (advance h);;; ret (ERR_OK, Some (dirent_of e))
        else set_handle fd (advance h);;; readdir_loop fuel n fd (advance h)
  end.

Definition fat32_readdir (fuel : nat) (fd : Z) : M (error_code_t * option vfs_dirent_t) :=
  h <~ fat32_get_dir_handle fd;;
  match h with
  | None => ret (ERR_INVALID_ARG, None)
  | Some h => p <~ get (fun s => params (vol s));; readdir_loop fuel (bytes_per_cluster p / ENTRY_SIZE) fd h
  end.

Definition fat32_closedir (fd : Z) : M error_code_t :=
  h <~ fat32_get_dir_handle fd;;
  match h with
  | None => ret ERR_INVALID_ARG
  | Some h => (if dh_dirty h then on_vol (fat32_write_cluster dev (dh_cluster h) (dh_buffer h));;; ret tt else ret tt);;; fat32_free_dir_handle fd;;; ret ERR_OK
  end.

End handles.

(** ** Paths *)

Lemma span_none c l : c ∉ l -> span c l = (l, []).
Proof. induction l as [|x l IH]; [done|]. intros [Hne Hl]%not_elem_of_cons. cbn [span]. rewrite (proj2 (Z.eqb_neq x c)) by done. by rewrite IH. Qed.

Lemma span_sep c l r : c ∉ l -> span c (l ++ c :: r) = (l, c :: r).
Proof. induction l as [|x l IH]; intros Hl; cbn [span app]; [by rewrite Z.eqb_refl|]. apply not_elem_of_cons in Hl as [Hne Hl]. rewrite (proj2 (Z.eqb_neq x c)) by done. by rewrite IH. Qed.

(** A component of a path: no slash, and not longer than eleven characters. *)
Definition component_ok (c : list Z) : Prop := (slash ∉ c) /\ c <> [] /\ (length c <= 11)%nat.

(** The components with slashes between them. *)
Fixpoint joined (cs : list (list Z)) : list Z := match cs with [] => [] | [c] => c | c :: cs => c ++ slash :: joined cs end.

Lemma parse_joined cs : forall n, Forall component_ok cs -> (length cs <= n)%nat -> parse_loop n (joined cs) = Some cs.
Proof.
  induction cs as [|c cs IH]; intros [|n] Hcs Hn; try done; [cbn in Hn; lia|]. apply Forall_cons_1 in Hcs as [(Hs & Hne & Hl) Hcs].
  assert (Hcons : exists x p, joined (c :: cs) = x :: p) by (destruct c as [|x c]; [done|]; destruct cs; cbn [joined app]; eauto).
  destruct Hcons as (x & p & E). cbn [parse_loop]. rewrite E, <- E. destruct cs as [|c' cs].
  - cbn [joined]. rewrite span_none by done. rewrite bool_decide_false by done. by rewrite (proj2 (Z.ltb_ge _ _)) by lia.
  - change (joined (c :: c' :: cs)) with (c ++ slash :: joined (c' :: cs)). rewrite span_sep by done. rewrite bool_decide_false by done. rewrite (proj2 (Z.ltb_ge _ _)) by lia.
    rewrite IH; [done|done|cbn in *; lia].
Qed.

(** Paths.  Up to 32 components of at most eleven characters are found in the path that
    joins them, with or without a slash in front. *)
Theorem fat_path_roundtrip cs : Forall component_ok cs -> (length cs <= 32)%nat -> fat32_parse_path (slash :: joined cs) = Some cs /\ fat32_parse_path (joined cs) = Some cs.
Proof.
  intros Hcs Hn. split; [by apply parse_joined|]. rewrite <- (parse_joined cs 32) by done. unfold fat32_parse_path. destruct (joined cs) as [|x p] eqn:E; [done|].
  destruct (Z.eqb_spec x slash) as [->|]; [|done]. destruct cs as [|[|y c] cs]; [done|by apply Forall_cons_1 in Hcs as [(_ & ? & _) _]|].
  apply Forall_cons_1 in Hcs as [(Hs & _) _]. destruct cs; injection E as -> _; apply not_elem_of_cons in Hs as [? _]; done.
Qed.

(** A name of eight characters and an extension of three cannot be reached by any path. *)
Theorem fat_full_names_rejected base ext cs : Forall component_ok cs -> (length cs < 32)%nat -> slash ∉ base ++ ext -> length base = 8%nat -> length ext = 3%nat ->
  fat32_parse_path (slash :: joined (cs ++ [base ++ dot :: ext])) = None.
Proof.
  intros Hcs Hn Hs Hb He. assert (Hind : forall n, (length cs < n)%nat -> parse_loop n (joined (cs ++ [base ++ dot :: ext])) = None); [|by apply Hind].
  assert (Hlast : forall n, parse_loop (S n) (base ++ dot :: ext) = None).
  { intros n. destruct base as [|x base]; [done|]. cbn [parse_loop app]. change (x :: base ++ dot :: ext) with ((x :: base) ++ dot :: ext). rewrite span_none.
    - rewrite bool_decide_false by done. rewrite (proj2 (Z.ltb_lt _ _)); [done|]. rewrite length_app, Hb. cbn. lia.
    - apply not_elem_of_app in Hs as [Hs1 Hs2]. apply not_elem_of_app. split; [done|]. by apply not_elem_of_cons. }
  clear Hn. induction cs as [|c cs IH]; intros [|n] Hn; try lia; [apply Hlast|]. apply Forall_cons_1 in Hcs as [(Hsc & Hne & Hl) Hcs]. cbn [length] in Hn.
  assert (E : joined ((c :: cs) ++ [base ++ dot :: ext]) = c ++ slash :: joined (cs ++ [base ++ dot :: ext])) by (destruct cs; done). rewrite E.
  destruct c as [|x c]; [done|]. cbn [app parse_loop]. change (x :: c ++ slash :: joined (cs ++ [base ++ dot :: ext])) with ((x :: c) ++ slash :: joined (cs ++ [base ++ dot :: ext])).
  rewrite span_sep by done. rewrite bool_decide_false by done. rewrite (proj2 (Z.ltb_ge _ _)) by lia. by rewrite IH by (done || lia).
Qed.

(** ** Dates *)

Lemma years_days_bounds n y : 0 <= years_days n y <= 366 * Z.of_nat n.
Proof. revert y. induction n as [|n IH]; intros y; cbn [years_days]; [lia|]. specialize (IH (y + 1)). case_if; lia. Qed.

Lemma years_loop n : forall fuel y k, (n < fuel)%nat -> 0 <= y -> y + Z.of_nat n < 2 ^ 32 -> 0 <= k < (if is_leap (y + Z.of_nat n) then 366 else 365) ->
  year_loop fuel (years_days n y + k) y = Some (k, y + Z.of_nat n).
Proof.
  induction n as [|n IH]; intros [|fuel] y k Hf Hy Hn Hk; try lia; cbn [year_loop years_days].
  - rewrite Z.add_0_r in Hk |- *. cbn [Z.add]. rewrite Z.add_0_l. destruct (Z.ltb_spec k 365); [done|]. by rewrite (proj2 (Z.ltb_lt k _)) by lia.
  - pose proof (years_days_bounds n (y + 1)) as [H0 _].
    replace (y + Z.of_nat (S n)) with (y + 1 + Z.of_nat n) in * by lia. rewrite (wrap_small 32 (y + 1)) by fits_lia.
    set (len := if is_leap y then 366 else 365). assert (365 <= len) by (unfold len; case_if; lia). rewrite (proj2 (Z.ltb_ge _ 365)) by lia. rewrite (proj2 (Z.ltb_ge _ _)) by lia.
    replace (len + years_days n (y + 1) + k - len) with (years_days n (y + 1) + k) by lia. apply IH; lia.
Qed.

(** The days before a month are taken off again. *)
Lemma months_loop y m d : 1 <= m <= 12 -> 1 <= d <= nth (Z.to_nat (m - 1)) (days_per_month y) 0 ->
  month_loop 0 (foldr Z.add 0 (take (Z.to_nat (m - 1)) (days_per_month y)) + d) (days_per_month y) = (m, d) /\
  foldr Z.add 0 (take (Z.to_nat (m - 1)) (days_per_month y)) + d <= (if is_leap y then 366 else 365).
Proof.
  intros Hm Hd. assert (Hcases : m = 1 \/ m = 2 \/ m = 3 \/ m = 4 \/ m = 5 \/ m = 6 \/ m = 7 \/ m = 8 \/ m = 9 \/ m = 10 \/ m = 11 \/ m = 12) by lia.
  unfold days_per_month in *. destruct (is_leap y); destruct_or! Hcases; subst m;
    match goal with |- context [Z.to_nat (?a - 1)] => let v := eval vm_compute in (Z.to_nat (a - 1)) in change (Z.to_nat (a - 1)) with v in * end;
    cbn [nth take foldr month_loop] in *; (split; [|lia]); repeat (if_lia; rewrite ?(wrap_small 32) by fits_lia); f_equal; lia.
Qed.

(** Three fields of a 16-bit word, [i] and [j] bits wide from below. *)
Definition packed (i j a b c : Z) : Z := Z.lor (Z.lor (Z.shiftl a (i + j)) (Z.shiftl b i)) c.

Lemma packed_sum i j a b c : 0 <= i -> 0 <= j -> 0 <= b < 2 ^ j -> 0 <= c < 2 ^ i -> packed i j a b c = (a * 2 ^ j + b) * 2 ^ i + c.
Proof.
  intros Hi Hj Hb Hc. unfold packed. rewrite !Z.shiftl_mul_pow2 by lia. rewrite (lor_low a (i + j)) by (rewrite ?Z.pow_add_r by lia; nia).
  replace (a * 2 ^ (i + j) + b * 2 ^ i) with ((a * 2 ^ j + b) * 2 ^ i) by (rewrite Z.pow_add_r by lia; ring). apply lor_low; lia.
Qed.

Lemma packed_fields i j k a b c : 0 <= i -> 0 <= j -> 0 <= k -> 0 <= a < 2 ^ k -> 0 <= b < 2 ^ j -> 0 <= c < 2 ^ i ->
  Z.land (Z.shiftr (packed i j a b c) (i + j)) (Z.ones k) = a /\ Z.land (Z.shiftr (packed i j a b c) i) (Z.ones j) = b /\ Z.land (packed i j a b c) (Z.ones i) = c /\ 0 <= packed i j a b c < 2 ^ (i + j + k).
Proof.
  intros Hi Hj Hk Ha Hb Hc. rewrite (packed_sum i j a b c) by done. rewrite !Z.land_ones, !Z.shiftr_div_pow2 by lia. rewrite (Z.add_comm i j), Z.pow_add_r by lia.
  assert (Hp : 0 < 2 ^ i) by lia. assert (Hq : 0 < 2 ^ j) by lia.
  assert (H1 : ((a * 2 ^ j + b) * 2 ^ i + c) / 2 ^ i = a * 2 ^ j + b) by (rewrite Z.div_add_l, (Z.div_small c) by lia; lia).
  rewrite H1. split; [|split; [|split]].
  - rewrite (Z.mul_comm (2 ^ j)), <- Z.div_div, H1 by lia. rewrite Z.div_add_l, (Z.div_small b), Z.add_0_r by lia. by apply Z.mod_small.
  - rewrite Z.add_comm, Z.mod_add by lia. by apply Z.mod_small.
  - rewrite Z.add_comm, Z.mod_add by lia. by apply Z.mod_small.
  - rewrite !Z.pow_add_r by lia. assert (a * 2 ^ j + b + 1 <= 2 ^ j * 2 ^ k) by nia. assert (0 <= a * 2 ^ j + b) by nia. nia.
Qed.

Definition pack_date (y m d : Z) : Z := packed 5 4 (y - 1980) m d.
Definition pack_time (h mi s : Z) : Z := packed 5 6 h mi s.

Lemma month_length y m : nth (Z.to_nat (m - 1)) (days_per_month y) 0 <= 31.
Proof.
  destruct (nth_in_or_default (Z.to_nat (m - 1)) (days_per_month y) 0) as [H| ->]; [|lia]. unfold days_per_month in H at 2. cbn [In] in H. destruct_or! H; try done; try lia. revert H. case_if; lia.
Qed.

Lemma month_days_pos y n : 0 <= foldr Z.add 0 (take n (days_per_month y)).
Proof.
  assert (H : Forall (Z.le 0) (take n (days_per_month y))) by (apply Forall_take; unfold days_per_month; repeat constructor; try lia; case_if; lia).
  induction H; cbn [foldr]; lia.
Qed.

(** Dates.  Every date from 1980 to 2107 with a time of day, in the format of the
    directory entries, is converted to the seconds since 1970 and back to itself. *)
Theorem fat_date_roundtrip y m d h mi s : 1980 <= y <= 2107 -> 1 <= m <= 12 -> 1 <= d <= nth (Z.to_nat (m - 1)) (days_per_month y) 0 -> 0 <= h < 24 -> 0 <= mi < 60 -> 0 <= s < 30 ->
  exists u, fat32_date_to_unix (pack_date y m d) (pack_time h mi s) = Some u /\ fat32_unix_to_date 128 u = Some (pack_date y m d, pack_time h mi s) /\
    u = 315532800 + (years_days (Z.to_nat (y - 1980)) 1980 + foldr Z.add 0 (take (Z.to_nat (m - 1)) (days_per_month y)) + (d - 1)) * 86400 + h * 3600 + mi * 60 + 2 * s.
Proof.
  intros Hy Hm Hd Hh Hmi Hs. pose proof (month_length y m) as Hml. destruct (months_loop y m d Hm Hd) as [Hmon Hlen].
  destruct (packed_fields 5 4 7 (y - 1980) m d) as (Y & Mo & Dd & Hdate); [lia..|]. destruct (packed_fields 5 6 5 h mi s) as (Hr & Mi & Se & Htime); [lia..|].
  change (5 + 4) with 9 in *. change (5 + 6) with 11 in *. change (Z.ones 7) with 0x7F in *. change (Z.ones 4) with 0x0F in *. change (Z.ones 5) with 0x1F in *. change (Z.ones 6) with 0x3F in *.
  change (packed 5 4 (y - 1980) m d) with (pack_date y m d) in *. change (packed 5 6 h mi s) with (pack_time h mi s) in *. change (2 ^ (9 + 7)) with 65536 in Hdate. change (2 ^ (11 + 5)) with 65536 in Htime.
  pose proof (years_days_bounds (Z.to_nat (y - 1980)) 1980) as Hys. set (ys := years_days (Z.to_nat (y - 1980)) 1980) in *.
  pose proof (month_days_pos y (Z.to_nat (m - 1))) as Hms. set (ms := foldr Z.add 0 (take (Z.to_nat (m - 1)) (days_per_month y))) in *.
  set (days := ys + ms + (d - 1)). set (sec := h * 3600 + mi * 60 + 2 * s). exists (315532800 + days * 86400 + sec).
  assert (Hdays : 0 <= days < 60000) by (unfold days; destruct (is_leap y); lia). assert (Hsec : 0 <= sec < 86400) by (unfold sec; lia). assert (Hyear : 1980 + (y - 1980) = y) by lia. split; [|split].
  - unfold fat32_date_to_unix. rewrite Y, Mo, Dd, Hr, Mi, Se, Hyear. fold ys ms. rewrite (proj2 (Nat.ltb_ge 12 _)) by lia. rewrite (wrap_small 32 (d - 1)) by fits_lia. fold days.
    rewrite (wrap_small 64 days), (wrap_small 64 (days * 86400)), (wrap_small 64) by fits_lia. f_equal. unfold sec. lia.
  - unfold fat32_unix_to_date. replace (315532800 + days * 86400 + sec - 315532800) with (days * 86400 + sec) by lia. rewrite (wrap_small 64) by fits_lia.
    assert (Hq : (days * 86400 + sec) / 86400 = ys + (ms + d - 1)) by (unfold days, sec; dlia). assert (Hmod : (days * 86400 + sec) mod 86400 = sec) by (unfold days, sec; dlia).
    rewrite Hq, Hmod. pose proof (years_loop (Z.to_nat (y - 1980)) 128 1980 (ms + d - 1)) as Hyl. rewrite Z2Nat.id, Hyear in Hyl by lia. fold ys in Hyl. rewrite Hyl by lia. cbn [mbind option_bind].
    rewrite (wrap_small 32 (ms + d - 1)) by fits_lia. replace (ms + d - 1 + 1) with (ms + d) by lia. rewrite (wrap_small 32 (ms + d)) by fits_lia. rewrite Hmon.
    assert (E1 : sec / 3600 = h) by (unfold sec; dlia). assert (E2 : sec mod 3600 / 60 = mi) by (unfold sec; dlia). assert (E3 : sec mod 60 / 2 = s) by (unfold sec; dlia). rewrite E1, E2, E3.
    rewrite (wrap_small 32 (y - 1980)) by fits_lia. rewrite (wrap_small 32 (Z.shiftl (y - 1980) 9)), (wrap_small 32 (Z.shiftl m 5)) by (rewrite Z.shiftl_mul_pow2 by lia; fits_lia).
    change (Z.lor (Z.lor (Z.shiftl (y - 1980) 9) (Z.shiftl m 5)) d) with (pack_date y m d). change (Z.lor (Z.lor (Z.shiftl h 11) (Z.shiftl mi 5)) s) with (pack_time h mi s).
    by rewrite !(wrap_small 16) by fits_lia.
  - unfold sec, days. lia.
Qed.

(** ** Directories *)

(** A [char] is never 229: deleted entries are not recognised. *)
Lemma name_is_e5_false e : name_is_e5 e = false.
Proof. unfold name_is_e5, sext. pose proof (wrap_fits 8 (field 0 1 e) ltac:(lia)) as H. unfold fits in H. change (2 ^ 8) with 256 in *. change (2 ^ (8 - 1)) with 128. destruct (Z.ltb_spec (u8 (field 0 1 e)) 128); lia. Qed.

(** What a search finds in clusters with their contents. *)
Fixpoint found (scan : list Z -> scanned) (missing : error_code_t) (l : list (Z * list Z)) : error_code_t * option (Z * nat * list Z) :=
  match l with
  | [] => (missing, None)
  | (c, b) :: l =>
      match scan b with
      | at_entry i e => (ERR_OK, Some (c, i, e))
      | at_end => (ERR_NOT_FOUND, None)
      | past_all => found scan missing l
      end
  end.

(** The entry that a name stands for: the first one of that name before the end mark. *)
Fixpoint dir_lookup (formatted : list Z) (es : list (list Z)) : option (list Z) :=
  match es with
  | [] => None
  | e :: es => if field 0 1 e =? 0 then None else if decide (entry_name e = formatted) then Some e else dir_lookup formatted es
  end.

Lemma scan_names_lookup formatted b n : forall i rest,
  dir_lookup formatted ((entry_at b <$> seq i n) ++ rest) =
  match scan_names n i formatted b with at_entry _ e => Some e | at_end => None | past_all => dir_lookup formatted rest end.
Proof.
  induction n as [|n IH]; intros i rest; [done|]. cbn [seq fmap list_fmap app dir_lookup scan_names]. destruct (field 0 1 _ =? 0); [done|]. rewrite name_is_e5_false.
  destruct (decide (entry_name (entry_at b i) = formatted)); [by rewrite bool_decide_true|]. rewrite bool_decide_false by done. apply IH.
Qed.

Lemma found_lookup formatted n l :
  found (scan_names n 0 formatted) ERR_NOT_FOUND l = (ERR_NOT_FOUND, None) /\ dir_lookup formatted (concat ((fun x => entry_at (snd x) <$> seq 0 n) <$> l)) = None \/
  exists c i e, found (scan_names n 0 formatted) ERR_NOT_FOUND l = (ERR_OK, Some (c, i, e)) /\ dir_lookup formatted (concat ((fun x => entry_at (snd x) <$> seq 0 n) <$> l)) = Some e.
Proof.
  induction l as [|[c b] l IH]; [by left|]. cbn [found fmap list_fmap concat snd]. rewrite scan_names_lookup. destruct (scan_names n 0 formatted b) as [i e| |]; [right; by exists c, i, e|by left|done].
Qed.

(** The first free entry of a cluster. *)
Lemma scan_free_spec b n : forall i,
  match scan_free n i b with
  | at_entry j e => (i <= j < i + n)%nat /\ e = entry_at b j /\ field 0 1 e = 0 /\ forall k, (i <= k < j)%nat -> field 0 1 (entry_at b k) <> 0
  | at_end => False
  | past_all => forall k, (i <= k < i + n)%nat -> field 0 1 (entry_at b k) <> 0
  end.
Proof.
  induction n as [|n IH]; intros i; cbn [scan_free]; [intros; lia|]. rewrite name_is_e5_false, orb_false_r. destruct (Z.eqb_spec (field 0 1 (entry_at b i)) 0) as [E|E].
  - split; [lia|]. split; [done|]. split; [done|]. intros; lia.
  - specialize (IH (S i)). destruct (scan_free n (S i) b) as [j e| |]; [|done|].
    + destruct IH as (H1 & H2 & H3 & H4). split; [lia|]. split; [done|]. split; [done|]. intros k Hk. destruct (decide (k = i)) as [->|]; [done|]. apply H4. lia.
    + intros k Hk. destruct (decide (k = i)) as [->|]; [done|]. apply IH. lia.
Qed.

Section directory.
  Context {D : Type} (dev : block_device_t D) (medium : D -> Z -> list Z) `{Hdisk : !Disk dev medium}.
  Context (mem_ok : nat -> bool) (garbage : nat -> nat -> Z) (mem_ok_all : forall n, mem_ok n = true).

#[local] Abbreviation st := (fat32 D).
#[local] Abbreviation represents := (Fat.represents dev medium).
#[local] Abbreviation cluster_data := (Fat.cluster_data medium).
#[local] Open Scope effect_scope.

(** The clusters of a file or directory: they are in use, and the last one is marked as such. *)
Fixpoint file_chain (total : Z) (t : arr Z) (c : Z) (l : list Z) : Prop :=
  match l with
  | [] => c < 2 \/ FAT32_CLUSTER_EOF_MIN <= c
  | x :: l => c = x /\ 2 <= x < total + 2 /\ t x <> 0 /\ file_chain total t (t x) l
  end.

Lemma file_chain_chain total t l : total <= 0x0FFFFFF0 -> forall c, file_chain total t c l -> chain total t c l.
Proof. intros Ht. induction l as [|x l IH]; intros c; cbn [file_chain chain]; [unfold FAT32_CLUSTER_EOF_MIN; lia|]. intros (-> & Hx & _ & Hl). split; [done|]. split; [done|by apply IH]. Qed.

Lemma represents_unchanged s s' t : represents s t -> mounted dev medium s' -> unchanged medium s s' -> represents s' t.
Proof. intros [Hm Ht] Hm' Hu. split; [done|]. intros c Hc. rewrite (unchanged_next dev medium s s' c Hu). apply Ht. unfold valid in *. by rewrite (proj1 Hu) in Hc. Qed.

(** The clusters of a directory with their contents. *)
Definition contents (s : st) (l : list Z) : list (Z * list Z) := (fun c => (c, cluster_data s c)) <$> l.

Lemma cluster_data_unchanged s s' c : unchanged medium s s' -> cluster_data s' c = cluster_data s c.
Proof. intros [Hp Ha]. unfold Fat.cluster_data. rewrite Hp. by apply extent_agree. Qed.

Lemma contents_unchanged s s' l : unchanged medium s s' -> contents s' l = contents s l.
Proof. intros Hu. unfold contents. apply list_fmap_ext. intros i c _. f_equal. by apply cluster_data_unchanged. Qed.

Lemma search_spec scan missing l : forall fuel c s t b, represents s t -> file_chain (total_clusters (params s)) t c l -> (length l < fuel)%nat -> length b = Z.to_nat (bytes_per_cluster (params s)) ->
  runs (search dev fuel scan missing c b) (fun r s' => r = found scan missing (contents s l) /\ represents s' t /\ unchanged medium s s') s.
Proof.
  induction l as [|x l IH]; intros [|fuel] c s t b Hr Hc Hf Hb; cbn [length file_chain search] in *; try lia.
  { replace (_ && _) with false by lia. apply runs_ret. split; [done|]. split; [done|]. split; [done|apply agree_refl]. }
  destruct Hc as (-> & Hx & Hne & Hl). pose proof Hr as [Hm Ht]. pose proof (geo_clusters _ _ (mnt_geo _ _ _ Hm)) as Hmax. assert (Hv : valid s x) by done.
  replace (_ && _) with true by (unfold FAT32_CLUSTER_EOF_MIN; lia). eapply runs_bind; [by apply read_cluster_runs|]. intros r s1 (-> & Hm1 & Hu1). cbn [fst snd]. rewrite bool_decide_true by done. cbn [negb contents fmap list_fmap found].
  pose proof (represents_unchanged _ _ _ Hr Hm1 Hu1) as Hr1. destruct (scan (cluster_data s x)) as [i e| |]; [by apply runs_ret|by apply runs_ret|].
  assert (Hv1 : valid s1 x) by (unfold valid; by rewrite (proj1 Hu1)). eapply runs_bind; [by apply get_next_runs|]. intros v s2 (-> & Hm2 & Hu2).
  pose proof (fat_unchanged_trans _ _ _ _ Hu1 Hu2) as Hu. pose proof (represents_unchanged _ _ _ Hr Hm2 Hu) as Hr2.
  rewrite (unchanged_next dev medium s s1) by done. rewrite Ht by done. eapply runs_mono; [apply IH; [exact Hr2|by rewrite (proj1 Hu)|lia|rewrite (proj1 Hu); by apply (cluster_length dev medium)]|].
  intros r s3 (-> & Hr3 & Hu3). rewrite (contents_unchanged s s2) by done. split; [done|]. split; [done|by eapply fat_unchanged_trans].
Qed.

Lemma count_alloc_unchanged (s : st) : unchanged medium s (count_alloc s).
Proof. split; [done|apply agree_refl]. Qed.

Lemma represents_alloc s t : represents s t -> represents (count_alloc s) t.
Proof. intros Hr. eapply represents_unchanged; [exact Hr| |apply count_alloc_unchanged]. destruct Hr as [[Hg Hc Hd] _]. by split. Qed.

Lemma cluster_size s t : represents s t -> 0 < bytes_per_cluster (params s).
Proof. intros [[Hg _ _] _]. destruct (geo_cluster _ _ Hg) as [Hs ->]. pose proof disk_size. nia. Qed.

Lemma kmalloc_spec n (s : st) t : represents s t -> 0 < n ->
  runs (Fat.kmalloc mem_ok garbage n) (fun b s' => length b = Z.to_nat n /\ b <> [] /\ represents s' t /\ unchanged medium s s') s.
Proof.
  intros Hr Hn. eapply runs_mono; [apply kmalloc_runs|]. intros b s' [-> ->]. rewrite mem_ok_all, length_fmap, length_seq. split; [done|]. split; [|split; [by apply represents_alloc|apply count_alloc_unchanged]].
  intros E%fmap_nil_inv. destruct (Z.to_nat n) eqn:E'; [lia|done].
Qed.

Lemma search_dir_spec scan missing c l s t : represents s t -> file_chain (total_clusters (params s)) t c l ->
  runs (search_dir dev mem_ok garbage scan missing c) (fun r s' => r = found (scan (entries_per_cluster (params s))) missing (contents s l) /\ represents s' t /\ unchanged medium s s') s.
Proof.
  intros Hr Hl. eapply runs_step; [reflexivity|]. cbv beta. eapply runs_bind; [apply kmalloc_spec; [done|by eapply cluster_size]|]. intros b s1 (Hb & Hne & Hr1 & Hu1). rewrite bool_decide_false by done.
  pose proof (geo_clusters _ _ (mnt_geo _ _ _ (proj1 Hr))) as Hmax. rewrite <- (proj1 Hu1) in *.
  eapply runs_mono; [apply (search_spec _ _ l); [exact Hr1|done| |done]|].
  - assert (Hlen : (length l <= Z.to_nat (total_clusters (params s1)))%nat) by (eapply fat_chain_length; apply file_chain_chain; [lia|exact Hl]). lia.
  - intros r s2 (-> & Hr2 & Hu2). rewrite (contents_unchanged s s1) by done. split; [done|]. split; [done|by eapply fat_unchanged_trans].
Qed.

(** All entries of a directory, in order. *)
Definition dir_entries (s : st) (l : list Z) : list (list Z) := concat ((fun x => entry_at (snd x) <$> seq 0 (entries_per_cluster (params s))) <$> contents s l).

Lemma dir_entries_unchanged s s' l : unchanged medium s s' -> dir_entries s' l = dir_entries s l.
Proof. intros Hu. unfold dir_entries. by rewrite (contents_unchanged s s'), (proj1 Hu). Qed.

Lemma find_in_dir_spec c l name s t : represents s t -> file_chain (total_clusters (params s)) t c l ->
  runs (fat32_find_in_dir dev mem_ok garbage c name)
    (fun r s' => r = match dir_lookup (fat32_format_filename name) (dir_entries s l) with Some e => (ERR_OK, Some e) | None => (ERR_NOT_FOUND, None) end /\ represents s' t /\ unchanged medium s s') s.
Proof.
  intros Hr Hl. eapply runs_bind; [by apply search_dir_spec|]. intros r s' (-> & Hr' & Hu). apply runs_ret. split; [|done]. unfold dir_entries.
  destruct (found_lookup (fat32_format_filename name) (entries_per_cluster (params s)) (contents s l)) as [[-> ->]|(c' & i & e & -> & ->)]; done.
Qed.

Lemma find_location_spec c l name s t : represents s t -> file_chain (total_clusters (params s)) t c l ->
  runs (fat32_find_in_dir_location dev mem_ok garbage c name)
    (fun r s' => r = (fun x => (fst x, fst <$> snd x)) (found (scan_names (entries_per_cluster (params s)) 0 (fat32_format_filename name)) ERR_NOT_FOUND (contents s l)) /\ represents s' t /\ unchanged medium s s') s.
Proof. intros Hr Hl. eapply runs_bind; [by apply search_dir_spec|]. intros r s' (-> & Hr' & Hu). by apply runs_ret. Qed.

(** The components lead from the directory at [c] to the entry [e]. *)
Inductive resolves (s : st) (t : arr Z) : Z -> list (list Z) -> list Z -> Prop :=
  | resolves_last c l name e :
      file_chain (total_clusters (params s)) t c l -> dir_lookup (fat32_format_filename name) (dir_entries s l) = Some e -> resolves s t c [name] e
  | resolves_step c l name d cs e :
      file_chain (total_clusters (params s)) t c l -> dir_lookup (fat32_format_filename name) (dir_entries s l) = Some d -> is_directory d = true ->
      resolves s t (entry_cluster d) cs e -> resolves s t c (name :: cs) e.

Lemma resolves_unchanged s s' t c cs e : unchanged medium s s' -> resolves s t c cs e -> resolves s' t c cs e.
Proof.
  intros Hu. induction 1 as [c l name e Hl He|c l name d cs e Hl Hd Hdir Hr IH].
  - eapply resolves_last; [by rewrite (proj1 Hu)|by rewrite (dir_entries_unchanged s s')].
  - eapply resolves_step; [by rewrite (proj1 Hu)|by rewrite (dir_entries_unchanged s s')|done|done].
Qed.

Lemma dir_lookup_in formatted es e : dir_lookup formatted es = Some e -> e ∈ es.
Proof. induction es as [|x es IH]; [done|]. cbn [dir_lookup]. destruct (_ =? 0); [done|]. case_decide; [intros [= ->]; left|]. intros He. right. by apply IH. Qed.

Lemma dir_entries_bytes s l : Forall bytes (dir_entries s l).
Proof.
  apply Forall_concat, Forall_fmap, Forall_forall. intros [c b] Hx. unfold compose. cbn [snd]. apply list_elem_of_fmap in Hx as (c' & [= -> ->] & _). apply Forall_fmap, Forall_true. intros i. apply Forall_take, Forall_drop, (cluster_bytes dev medium).
Qed.

Lemma resolves_bytes s t c cs e : resolves s t c cs e -> bytes e.
Proof. induction 1 as [c l name e Hl He|]; [|done]. apply dir_lookup_in in He. pose proof (dir_entries_bytes s l) as H. rewrite Forall_forall in H. by apply H. Qed.

Lemma traverse_spec cs e t : forall c s, represents s t -> resolves s t c cs e ->
  runs (traverse dev mem_ok garbage cs c) (fun r s' => r = (ERR_OK, Some e) /\ represents s' t /\ unchanged medium s s') s.
Proof.
  induction cs as [|name cs IH]; intros c s Hr Hres; [by inversion Hres|]. cbn [traverse].
  assert (Hl : exists l d, file_chain (total_clusters (params s)) t c l /\ dir_lookup (fat32_format_filename name) (dir_entries s l) = Some d /\
    (cs = [] /\ d = e \/ is_directory d = true /\ resolves s t (entry_cluster d) cs e)) by (inversion Hres; subst; eauto 10).
  destruct Hl as (l & d & Hl & Hd & Hcase). eapply runs_bind; [by apply find_in_dir_spec|]. rewrite Hd. intros r s1 (-> & Hr1 & Hu1). cbn [snd].
  destruct Hcase as [[-> ->]|[Hdir Hrest]]; [by apply runs_ret|]. destruct cs as [|name' cs]; [by inversion Hrest|]. rewrite Hdir. cbn [negb].
  eapply runs_mono; [apply IH; [exact Hr1|by eapply resolves_unchanged]|]. intros r s2 (-> & Hr2 & Hu2). split; [done|]. split; [done|by eapply fat_unchanged_trans].
Qed.

(** Looking up a path.  When each component but the last one is a directory that the one
    before it holds, the entry of the last one is found: in every directory the first entry
    with the name in the 8.3 format.  Nothing on the device changes. *)
Lemma find_path_spec path cs e u s t : represents s t -> cs <> [] -> fat32_parse_path path = Some cs -> resolves s t (root_cluster (params s)) cs e ->
  runs (fat32_find_file dev mem_ok garbage path u) (fun r s' => r = (ERR_OK, e) /\ represents s' t /\ unchanged medium s s') s.
Proof.
  intros Hr Hne Hcs Hres. unfold fat32_find_file. rewrite Hcs. destruct cs as [|name cs]; [done|]. eapply runs_step; [reflexivity|]. cbv beta.
  eapply runs_bind; [by apply traverse_spec|]. intros r s' (-> & Hr' & Hu). by apply runs_ret.
Qed.

Lemma find_file_spec cs e u s t : represents s t -> cs <> [] -> Forall component_ok cs -> (length cs <= 32)%nat -> resolves s t (root_cluster (params s)) cs e ->
  runs (fat32_find_file dev mem_ok garbage (slash :: joined cs) u) (fun r s' => r = (ERR_OK, e) /\ represents s' t /\ unchanged medium s s') s.
Proof. intros Hr Hne Hok Hn Hres. apply (find_path_spec _ cs); [done|done|by apply parse_joined|done]. Qed.

(** ** Deleting the root directory *)

Lemma entry_cluster_put e c : length e = 32%nat -> 0 <= c < 2 ^ 32 -> entry_cluster (put_cluster e c) = c.
Proof.
  intros He Hc. unfold entry_cluster, put_cluster, set_first. set (hi := Z.land (Z.shiftr c 16) 0xFFFF). set (lo := Z.land c 0xFFFF).
  assert (Hhi : hi = c / 65536) by (unfold hi; change 0xFFFF with (Z.ones 16); rewrite Z.land_ones, Z.shiftr_div_pow2 by lia; change (2 ^ 16) with 65536; apply Z.mod_small; dlia).
  assert (Hlo : lo = c mod 65536) by (unfold lo; change 0xFFFF with (Z.ones 16); by rewrite Z.land_ones by lia).
  rewrite !(field_write_other _ 28) by (rewrite ?buf_write_length; rewrite ?le_bytes_length, ?buf_write_length; rewrite ?le_bytes_length, ?He; lia).
  rewrite (field_write _ 26 2) by (rewrite ?buf_write_length; rewrite ?le_bytes_length, ?He; try lia; change (2 ^ (8 * Z.of_nat 2)) with 65536; dlia).
  rewrite (field_write_other _ 26) by (rewrite ?buf_write_length; rewrite ?le_bytes_length, ?He; lia). rewrite (field_write _ 20 2) by (rewrite ?He; try lia; change (2 ^ (8 * Z.of_nat 2)) with 65536; dlia).
  rewrite Z.lor_comm, Z.shiftl_mul_pow2 by lia. rewrite (lor_low hi 16) by (change (2 ^ 16) with 65536; dlia). change (2 ^ 16) with 65536. dlia.
Qed.

(** Deleting [/] is not refused: it frees all clusters of the root directory. *)
Theorem fat_delete_root s t l : represents s t -> file_chain (total_clusters (params s)) t (root_cluster (params s)) l -> 2 <= root_cluster (params s) < 2 ^ 32 ->
  runs (fat32_delete_file dev mem_ok garbage [slash]) (fun e s' => e = ERR_OK /\ represents s' (fun x => if decide (x ∈ l) then 0 else t x)) s.
Proof.
  intros Hr Hl Hroot. unfold fat32_delete_file. eapply (runs_bind _ _ (fun u s' => length u = 32%nat /\ s' = count_alloc s)); [eexists _, _; split; [reflexivity|]; split; [by rewrite length_fmap, length_seq|done]|].
  intros u ? [Hu ->]. eapply runs_step; [reflexivity|]. cbn [fst snd params count_alloc]. rewrite bool_decide_true by done. cbn [negb].
  rewrite entry_cluster_put by (rewrite ?buf_write_length; rewrite ?Hu; cbn; lia). rewrite (proj2 (Z.leb_le _ _)) by lia.
  pose proof (geo_clusters _ _ (mnt_geo _ _ _ (proj1 Hr))). eapply (runs_bind _ _ (fun _ s' => represents s' (fun x => if decide (x ∈ l) then 0 else t x))).
  - eapply runs_bind; [apply (free_chain_spec dev medium _ t _ l); [by apply represents_alloc|apply file_chain_chain; [cbn; lia|done]|lia]|]. intros e s' (_ & _ & Hr'). by apply runs_ret.
  - intros [] s' Hr'. by apply runs_ret.
Qed.

(** ** Creating a file *)

Lemma take_buf_write b o l n : (n <= o)%nat -> (n <= length b)%nat -> take n (buf_write b o l) = take n b.
Proof. intros Hn Hl. unfold buf_write. rewrite take_app_le by (rewrite length_take; lia). rewrite take_take. f_equal. lia. Qed.

(** A change of an entry behind its name. *)
Lemma entry_write_ok e o l : length e = 32%nat -> bytes e -> (o + length l <= 32)%nat -> bytes l -> length (buf_write e o l) = 32%nat /\ bytes (buf_write e o l) /\ ((11 <= o)%nat -> entry_name (buf_write e o l) = entry_name e).
Proof. intros He Hb Hl Hlb. split; [by rewrite buf_write_length by lia|]. split; [by apply buf_write_bytes|]. intros Ho. apply take_buf_write; lia. Qed.

Lemma put_cluster_ok e c : length e = 32%nat -> bytes e -> length (put_cluster e c) = 32%nat /\ bytes (put_cluster e c) /\ entry_name (put_cluster e c) = entry_name e.
Proof.
  intros He Hb. unfold put_cluster, set_first. destruct (entry_write_ok e 20 (le_bytes 2 (Z.land (Z.shiftr c 16) 0xFFFF))) as (L1 & B1 & N1); try done; [rewrite le_bytes_length; lia|apply le_bytes_ok|].
  destruct (entry_write_ok (buf_write e 20 (le_bytes 2 (Z.land (Z.shiftr c 16) 0xFFFF))) 26 (le_bytes 2 (Z.land c 0xFFFF))) as (L2 & B2 & N2); try done; [rewrite le_bytes_length; lia|apply le_bytes_ok|].
  edestruct (entry_write_ok _ 28 (le_bytes 4 0) L2 B2) as (L3 & B3 & N3); [rewrite le_bytes_length; lia|apply le_bytes_ok|]. split; [done|]. split; [done|]. by rewrite N3, N2, N1 by lia.
Qed.

Lemma new_entry_ok name attr cluster e : length e = 32%nat -> bytes e -> length name = 11%nat -> bytes name -> fits 8 attr ->
  length (new_entry name attr cluster e) = 32%nat /\ bytes (new_entry name attr cluster e) /\ entry_name (new_entry name attr cluster e) = name.
Proof.
  intros He Hb Hn Hnb Ha. destruct (entry_write_ok e 0 name He Hb ltac:(lia) Hnb) as (L1 & B1 & _).
  destruct (entry_write_ok (buf_write e 0 name) 11 [attr] L1 B1 ltac:(cbn; lia) ltac:(by apply Forall_singleton)) as (L2 & B2 & N2).
  destruct (put_cluster_ok (buf_write (buf_write e 0 name) 11 [attr]) cluster) as (L3 & B3 & N3); try done. split; [done|]. split; [done|]. unfold new_entry. rewrite N3, N2 by lia.
  unfold entry_name, buf_write. rewrite take_0. cbn [app]. rewrite take_app_le, take_ge by lia. done.
Qed.

Lemma stamp_ok now e : length e = 32%nat -> bytes e -> length (stamp now e) = 32%nat /\ bytes (stamp now e) /\ entry_name (stamp now e) = entry_name e.
Proof.
  intros He Hb. unfold stamp, entry_name. set (x := le_bytes 2 _ ++ le_bytes 2 _ ++ le_bytes 2 _). set (y := le_bytes 2 _ ++ le_bytes 2 _).
  assert (Hx : length x = 6%nat /\ bytes x) by (split; [unfold x; rewrite !length_app, !le_bytes_length; done|repeat apply Forall_app_2; apply le_bytes_ok]).
  assert (Hy : length y = 4%nat /\ bytes y) by (split; [unfold y; rewrite !length_app, !le_bytes_length; done|repeat apply Forall_app_2; apply le_bytes_ok]). destruct Hx as [Hx Hx']. destruct Hy as [Hy Hy'].
  assert (H1 : length (buf_write e 14 x) = 32%nat) by (rewrite buf_write_length; lia). split; [rewrite buf_write_length; lia|]. split; [by repeat apply buf_write_bytes|]. rewrite !take_buf_write by lia. done.
Qed.

Lemma entry_at_write b i x j : length x = 32%nat -> (32 * i + 32 <= length b)%nat -> entry_at (buf_write b (32 * i) x) j = if decide (j = i) then x else entry_at b j.
Proof.
  intros Hx Hb. unfold entry_at, buf_write. destruct (decide (j = i)) as [->|Hne].
  - rewrite drop_app_ge by (rewrite length_take; lia). rewrite length_take. replace (32 * i - Nat.min (32 * i) (length b))%nat with 0%nat by lia. rewrite drop_0, take_app_le, take_ge by lia. done.
  - destruct (Nat.lt_ge_cases j i).
    + rewrite drop_app_le by (rewrite length_take; lia). rewrite take_app_le by (rewrite length_drop, length_take; lia). rewrite skipn_firstn_comm, take_take. f_equal. lia.
    + rewrite app_assoc, drop_app_ge by (rewrite length_app, length_take; lia). rewrite drop_drop, length_app, length_take. do 2 f_equal. lia.
Qed.

Lemma uninit_runs n s t : represents s t -> runs (uninit garbage n) (fun u s' => length u = Z.to_nat n /\ represents s' t /\ unchanged medium s s') s.
Proof. intros Hr. eexists _, _. split; [reflexivity|]. rewrite length_fmap, length_seq. split; [done|]. split; [by apply represents_alloc|apply count_alloc_unchanged]. Qed.

Lemma cluster_extent s c : mounted dev medium s -> valid s c ->
  cluster_data s c = medium (disk s) (first_sector (params s) c) ++
    extent medium (disk s) (first_sector (params s) c + 1) (Z.to_nat (sectors_per_cluster (params s)) - 1).
Proof.
  intros Hm Hv. destruct (cluster_place dev medium s c Hm Hv) as (Hf & _ & _ & Hs). unfold Fat.cluster_data. rewrite Hf.
  destruct (Z.to_nat (sectors_per_cluster (params s))) as [|n] eqn:E; [lia|]. rewrite extent_S. by replace (S n - 1)%nat with n by lia.
Qed.

(** An entry of the first sector of a cluster is replaced. *)
Lemma store_entry_spec s t c i new f : block_size dev = 512 -> represents s t -> valid s c -> (i < 16)%nat ->
  (forall e, length e = 32%nat -> bytes e -> length (f e) = 32%nat /\ bytes (f e)) ->
  runs (store_entry dev garbage (first_sector (params s) c) i new f)
    (fun r s' => r = (ERR_OK, f (entry_at (cluster_data s c) i)) /\ represents s' t /\ params s' = params s /\
       cluster_data s' c = buf_write (cluster_data s c) (32 * i) (f (entry_at (cluster_data s c) i)) /\ forall c', c' <> c -> cluster_data s' c' = cluster_data s c') s.
Proof.
  intros H512 Hr Hv Hi Hf. eapply runs_bind; [by apply uninit_runs|]. intros u s1 (Hul & Hr1 & Hu1). pose proof (proj1 Hr) as Hm. destruct (cluster_place dev medium s c Hm Hv) as (Hfs & H0 & He & Hs).
  set (n0 := first_sector (params s) c) in *. eapply runs_bind; [apply on_disk_runs, (read_runs dev medium); [lia|rewrite Hul, H512; done]|]. intros r s2 (d2 & -> & -> & Ha2). cbn [fst snd].
  rewrite bool_decide_true by done. cbn [negb]. rewrite drop_ge, app_nil_r by (rewrite Hul, H512; done). set (b := medium (disk s1) n0). rewrite <- Hfs in H0, He.
  assert (Hb : b = medium (disk s) n0) by apply Hu1. destruct (disk_block (disk s) n0) as [Hbl Hbb]. rewrite <- Hb, H512 in Hbl. rewrite <- Hb in Hbb. change (Z.to_nat 512) with 512%nat in Hbl.
  assert (Hent : take 32 (drop (Z.to_nat (32 * Z.of_nat i)) b) = entry_at (cluster_data s c) i).
  { unfold entry_at. rewrite (cluster_extent s c) by done. fold n0. rewrite <- Hb, drop_app_le, take_app_le by (rewrite ?length_drop; lia). do 2 f_equal. lia. }
  set (e := entry_at (cluster_data s c) i) in *. destruct (Hf e) as [Hfl Hfb]; [rewrite <- Hent, length_take, length_drop; lia|rewrite <- Hent; by apply Forall_take, Forall_drop|].
  eapply runs_step; [unfold update_entry; erewrite bind_run by (apply rd_run; lia); rewrite Hent; erewrite bind_run by (apply wr_run; lia); reflexivity|]. cbn [fst snd].
  set (b' := buf_write b (Z.to_nat (32 * Z.of_nat i)) (f e)). assert (Hb'l : length b' = 512%nat) by (unfold b'; rewrite buf_write_length; lia).
  eapply runs_bind; [apply on_disk_runs, (write_runs dev medium); [lia|rewrite Hb'l, H512; done|by apply buf_write_bytes]|]. intros er s3 (d3 & -> & -> & Hst). rewrite bool_decide_true by done. cbn [negb]. apply runs_ret.
  assert (Hd3 : forall m, medium d3 m = if decide (m = n0) then b' else medium (disk s) m).
  { intros m. rewrite Hst. cbn [disk set_disk]. destruct (decide (m = n0)) as [->|Hne].
    - replace (_ && _) with true by lia. rewrite Z.sub_diag, Z.mul_0_l. change (Z.to_nat 0) with 0%nat. rewrite drop_0, take_ge by (rewrite Hb'l, H512; done). done.
    - replace (_ && _) with false by lia. rewrite Ha2. apply Hu1. }
  assert (Hparams : params s1 = params s) by apply Hu1. pose proof (mnt_geo _ _ _ Hm) as Hg. unfold valid in Hv.
  assert (Hbehind : data_start_sector (params s) <= n0) by (rewrite Hfs; nia).
  split; [done|]. split; [|split; [done|split]].
  - apply (represents_data dev medium (set_disk s1 d2)); [apply (represents_unchanged s1); [done|apply (represents_data dev medium s1 t d2 Hr1); intros m _; apply Ha2|by split]|].
    intros m Hlt. cbn [disk set_disk params] in *. rewrite Hd3, decide_False, Ha2 by (rewrite Hparams in Hlt; lia). symmetry. apply Hu1.
  - unfold Fat.cluster_data at 1. cbn [disk set_disk params]. rewrite Hparams, <- Hfs. rewrite (cluster_extent s c) by done. fold n0. rewrite <- Hb.
    destruct (Z.to_nat (sectors_per_cluster (params s))) as [|k] eqn:Ek; [lia|]. rewrite extent_S, Hd3, decide_True by done. replace (S k - 1)%nat with k by lia.
    assert (Hrest : extent medium d3 (n0 + 1) k = extent medium (disk s) (n0 + 1) k) by (unfold extent; f_equal; apply list_fmap_ext; intros j x _; rewrite Hd3, decide_False by lia; done). rewrite Hrest.
    unfold b', buf_write. replace (Z.to_nat (32 * Z.of_nat i)) with (32 * i)%nat by lia. rewrite take_app_le by lia. rewrite drop_app_le by lia. by rewrite <- !app_assoc.
  - intros c' Hne. unfold Fat.cluster_data, extent. cbn [disk set_disk params]. rewrite Hparams. f_equal. apply list_fmap_ext. intros j x Hj%lookup_seq. rewrite Hd3, decide_False; [done|].
    intros E. rewrite Hfs in E. destruct (Z.lt_ge_cases c c'); nia.
Qed.

Lemma find_free_spec c l s t : represents s t -> file_chain (total_clusters (params s)) t c l ->
  runs (fat32_find_free_dir_entry dev mem_ok garbage c)
    (fun r s' => r = (let x := found (scan_free (entries_per_cluster (params s)) 0) ERR_DISK_FULL (contents s l) in
                      (fst x, (fun y => (first_sector (params s) (fst (fst y)), snd (fst y))) <$> snd x)) /\ represents s' t /\ unchanged medium s s') s.
Proof.
  intros Hr Hl. eapply runs_bind; [by apply search_dir_spec|]. intros r s' (-> & Hr' & Hu). eapply runs_step; [reflexivity|]. apply runs_ret. split; [|done]. by rewrite (proj1 Hu).
Qed.

(** What [fat32_create_file] has to find: a free entry at [i] of the cluster [c] of the
    root directory, and the free cluster [new]. *)
Record room (s : st) (t : arr Z) (l : list Z) (c : Z) (i : nat) (new : Z) : Prop := {
  room_root : file_chain (total_clusters (params s)) t (root_cluster (params s)) l;
  room_entry : exists e, found (scan_free (entries_per_cluster (params s)) 0) ERR_DISK_FULL (contents s l) = (ERR_OK, Some (c, i, e));
  room_cluster : find_first (fun x => t x =? FAT32_CLUSTER_FREE) 2 (Z.to_nat (total_clusters (params s))) = Some new
}.

Lemma create_runs now path s t l c i new : represents s t -> room s t l c i new ->
  exists s', represents s' (t.[new <- FAT32_CLUSTER_EOF_MIN]) /\ kept dev medium s s' /\
    fat32_create_file dev mem_ok garbage now path s =
    store_entry dev garbage (first_sector (params s) c) i new (fun e => stamp now (new_entry (fat32_format_filename path) FAT32_ATTR_ARCHIVE new e)) s'.
Proof.
  intros Hr [Hl (e & He) Hnew]. unfold fat32_create_file. destruct (find_free_spec _ _ _ _ Hr Hl) as (r & s1 & E1 & -> & Hr1 & Hu1). destruct (alloc_spec dev medium s1 t Hr1) as (r & s2 & E2 & Hk2 & -> & Hr2).
  exists s2. unfold table_alloc in *. rewrite (proj1 Hu1), Hnew in *. cbn [fst snd] in *. split; [done|]. split; [eapply kept_trans; [by apply kept_unchanged|done]|].
  erewrite bind_run by reflexivity. rewrite (bind_run _ _ _ _ _ E1), He. cbn [fst snd fmap option_fmap option_map]. rewrite (bind_run _ _ _ _ _ E2).
  apply find_first_Some in Hnew as (Hb & _ & _). by rewrite (proj2 (Z.ltb_ge new 2)) by lia.
Qed.

(** A file is created in an array of one sector: when the first free entry of a cluster
    of the root directory is behind the first sixteen, the entry is written behind the
    array. *)
Theorem fat_create_overruns now path s t l c i new : block_size dev = 512 -> represents s t -> room s t l c i new -> valid s c -> (16 <= i)%nat ->
  fat32_create_file dev mem_ok garbage now path s = Fault.
Proof.
  intros H512 Hr Hroom Hv Hi. destruct (create_runs now path _ _ _ _ _ _ Hr Hroom) as (s1 & Hr1 & Hk & ->). unfold store_entry. pose proof (proj1 Hr) as Hm.
  destruct (cluster_place dev medium s c Hm Hv) as (Hfs & H0 & He & Hs). rewrite Hfs.
  destruct (uninit_runs 512 s1 _ Hr1) as (u & s2 & E2 & Hul & Hr2 & _). rewrite (bind_run _ _ _ _ _ E2).
  destruct (on_disk_runs _ _ s2 (read_runs dev medium (data_start_sector (params s) + (c - 2) * sectors_per_cluster (params s)) u (disk s2) ltac:(lia) ltac:(rewrite Hul, H512; done))) as (r & s3 & E3 & d & -> & -> & _).
  rewrite (bind_run _ _ _ _ _ E3). cbn [fst snd]. rewrite bool_decide_true by done. cbn [negb]. rewrite drop_ge, app_nil_r by (rewrite Hul, H512; done).
  unfold bind, update_entry, rd. rewrite (proj2 (Nat.leb_gt _ _)); [done|]. rewrite (proj1 (disk_block _ _)), H512. lia.
Qed.

(** ** A file that is created cannot be found *)

Lemma upper_slash x : upper x = slash <-> x = slash.
Proof. unfold upper, slash. destruct ((97 <=? x) && (x <=? 122)) eqn:E; lia. Qed.

Lemma padded_length n l : (length l <= n)%nat -> length (padded n l) = n.
Proof. intros H. unfold padded. rewrite length_app, repeat_length. lia. Qed.

Lemma format_length name : length (fat32_format_filename name) = 11%nat.
Proof. unfold fat32_format_filename. destruct (span dot name) as [b r]. rewrite length_app, !padded_length; rewrite ?length_fmap, ?length_take; lia. Qed.

Lemma span_spec c l : l = fst (span c l) ++ snd (span c l).
Proof. induction l as [|x l IH]; [done|]. cbn [span]. destruct (x =? c); [done|]. destruct (span c l) as [a b]. cbn in *. by rewrite IH. Qed.

Lemma padded_bytes n l : bytes l -> bytes (padded n (upper <$> l)).
Proof.
  intros Hl. apply Forall_app_2; [|apply List.Forall_forall; intros x ->%repeat_spec; unfold space; fits_lia]. apply Forall_fmap. eapply Forall_impl; [exact Hl|].
  intros x Hx. unfold compose, upper. destruct (_ && _) eqn:E; [fits_lia|done].
Qed.

Lemma format_bytes name : bytes name -> bytes (fat32_format_filename name).
Proof.
  intros Hb. rewrite (span_spec dot name) in Hb. apply Forall_app in Hb as [Hb1 Hb2]. unfold fat32_format_filename. destruct (span dot name) as [b r]. cbn [fst snd] in *.
  apply Forall_app_2; apply padded_bytes, Forall_take; [done|]. destruct r; [constructor|]. by apply Forall_cons_1 in Hb2 as [_ ?].
Qed.

(** A name with a slash in front never has the 8.3 form of a name without one. *)
Lemma format_slash name name' : (slash ∉ name') -> fat32_format_filename (slash :: name) <> fat32_format_filename name'.
Proof.
  intros Hs E. apply (f_equal head) in E. unfold fat32_format_filename in E. cbn [span] in E. change (slash =? dot) with false in E. cbv iota in E. destruct (span dot name) as [b r].
  pose proof (span_spec dot name') as Hspan. destruct (span dot name') as [b' r']. cbn [fst snd] in Hspan. destruct b' as [|x b']; [done|]. cbn in E. injection E as E. symmetry in E. apply (proj1 (upper_slash x)) in E. subst. apply Hs. left.
Qed.

Lemma dir_lookup_none formatted es : Forall (fun e => entry_name e <> formatted) es -> dir_lookup formatted es = None.
Proof. induction 1 as [|e es He Hes IH]; [done|]. cbn [dir_lookup]. destruct (_ =? 0); [done|]. by rewrite decide_False. Qed.

Lemma file_chain_valid total t l x : forall c, file_chain total t c l -> x ∈ l -> 2 <= x < total + 2.
Proof. induction l as [|y l IH]; intros c; cbn [file_chain]; [by intros _ ?%not_elem_of_nil|]. intros (-> & Hy & _ & Hl) [->|Hx]%elem_of_cons; [done|by eapply IH]. Qed.

Lemma file_chain_new total t l new v : forall c, t new = 0 -> file_chain total t c l -> file_chain total (t.[new <- v]) c l.
Proof.
  induction l as [|x l IH]; intros c Hnew; cbn [file_chain]; [done|]. intros (-> & Hx & Hne & Hl). assert (x <> new) by (by intros ->). rewrite aset_ne by done. split; [done|]. split; [done|]. split; [done|by apply IH].
Qed.

Lemma kept_cluster s s' c : mounted dev medium s -> valid s c -> kept dev medium s s' -> cluster_data s' c = cluster_data s c.
Proof.
  intros Hm Hv Hk. destruct (geo_cluster _ _ (mnt_geo _ _ _ Hm)) as [Hs _]. unfold valid in Hv. unfold Fat.cluster_data, extent. rewrite (kept_params _ _ _ _ Hk). f_equal. apply list_fmap_ext.
  intros i k _. apply (kept_outside _ _ _ _ Hk). right. nia.
Qed.

Lemma dir_entries_forall (P : list Z -> Prop) s l : Forall P (dir_entries s l) <-> forall c i, c ∈ l -> (i < entries_per_cluster (params s))%nat -> P (entry_at (cluster_data s c) i).
Proof.
  unfold dir_entries, contents. rewrite Forall_concat, !Forall_fmap, Forall_forall. split.
  - intros H c i Hc Hi. specialize (H c Hc). unfold compose in H. cbn in H. rewrite Forall_fmap, Forall_forall in H. apply H, elem_of_seq. lia.
  - intros H c Hc. unfold compose. cbn. rewrite Forall_fmap, Forall_forall. intros i Hi%elem_of_seq. apply H; [done|lia].
Qed.

Lemma create_file_spec now path s t l c i new : block_size dev = 512 -> represents s t -> room s t l c i new -> valid s c -> (i < 16)%nat -> bytes path ->
  runs (fat32_create_file dev mem_ok garbage now path)
    (fun r s' => fst r = ERR_OK /\ entry_name (snd r) = fat32_format_filename path /\ represents s' (t.[new <- FAT32_CLUSTER_EOF_MIN]) /\ params s' = params s /\
       length (snd r) = 32%nat /\ cluster_data s' c = buf_write (cluster_data s c) (32 * i) (snd r) /\ forall c', c' <> c -> valid s c' -> cluster_data s' c' = cluster_data s c') s.
Proof.
  intros H512 Hr Hroom Hv Hi Hp. pose proof (proj1 Hr) as Hm. set (f := fun e => stamp now (new_entry (fat32_format_filename path) FAT32_ATTR_ARCHIVE new e)).
  assert (Hf : forall e, length e = 32%nat -> bytes e -> length (f e) = 32%nat /\ bytes (f e) /\ entry_name (f e) = fat32_format_filename path).
  { intros e He Hb. destruct (new_entry_ok (fat32_format_filename path) FAT32_ATTR_ARCHIVE new e) as (L1 & B1 & N1); try done; [apply format_length|by apply format_bytes|].
    destruct (stamp_ok now _ L1 B1) as (L2 & B2 & N2). unfold f. split; [done|]. split; [done|congruence]. }
  assert (Hel : length (entry_at (cluster_data s c) i) = 32%nat /\ bytes (entry_at (cluster_data s c) i)).
  { split; [|apply Forall_take, Forall_drop, (cluster_bytes dev medium)]. unfold entry_at. rewrite length_take, length_drop, (cluster_length dev medium) by done. destruct (geo_cluster _ _ (mnt_geo _ _ _ Hm)) as [Hs ->]. rewrite H512. lia. }
  destruct (create_runs now path _ _ _ _ _ _ Hr Hroom) as (s1 & Hr1 & Hk & E). pose proof (kept_params _ _ _ _ Hk) as Hpar. unfold runs. rewrite E, <- Hpar. fold f.
  assert (Hv1 : valid s1 c) by (unfold valid; by rewrite Hpar). eapply runs_mono; [apply (store_entry_spec s1 _ c i new f H512 Hr1 Hv1 Hi)|].
  { intros e He Hb. destruct (Hf e He Hb) as (? & ? & _). done. }
  intros r s2 (-> & Hr2 & Hp2 & Hc2 & Ho2). rewrite (kept_cluster s s1 c Hm Hv Hk) in *. cbn [fst snd]. destruct Hel as [Hel Hbl]. destruct (Hf _ Hel Hbl) as (L & _ & N).
  split; [done|]. split; [done|]. split; [done|]. split; [congruence|]. split; [done|]. split; [done|]. intros c' Hne Hv'. rewrite Ho2 by done. by apply kept_cluster.
Qed.

(** A file that is created at [/name] is stored under a name that begins with the slash:
    a directory that had no such file still has none. *)
Theorem fat_created_file_lost now name u s t l c i new :
  block_size dev = 512 -> represents s t -> room s t l c i new -> valid s c -> (i < 16)%nat -> c ∈ l -> component_ok name -> bytes name ->
  Forall (fun e => entry_name e <> fat32_format_filename name) (dir_entries s l) ->
  runs (r <~ fat32_create_file dev mem_ok garbage now (slash :: name);; f <~ fat32_find_file dev mem_ok garbage (slash :: name) u;; ret (fst r, fst f))
    (fun x _ => x = (ERR_OK, ERR_NOT_FOUND)) s.
Proof.
  intros H512 Hr Hroom Hv Hi Hc Hok Hb Hnone. pose proof (proj1 Hr) as Hm. eapply runs_bind; [apply (create_file_spec now (slash :: name) s t l c i new); try done; apply Forall_cons_2; [unfold slash; fits_lia|done]|].
  intros r s1 (Hr0 & Hname & Hr1 & Hp1 & Hlen & Hc1 & Ho1). destruct Hroom as [Hl _ Hnew]. apply find_first_Some in Hnew as (_ & Hfree%Z.eqb_eq & _).
  assert (Hl1 : file_chain (total_clusters (params s1)) (t.[new <- FAT32_CLUSTER_EOF_MIN]) (root_cluster (params s1)) l) by (rewrite Hp1; by apply file_chain_new).
  eapply (runs_bind _ _ (fun f _ => fst f = ERR_NOT_FOUND)); [|intros f s2 Hf; apply runs_ret; by rewrite Hr0, Hf]. unfold fat32_find_file.
  assert (fat32_parse_path (slash :: name) = Some [name]) as -> by (apply (parse_joined [name] 32); [by apply Forall_singleton|cbn; lia]).
  eapply runs_step; [reflexivity|]. cbn [traverse]. eapply (runs_bind _ _ (fun f _ => fst f = ERR_NOT_FOUND)); [|intros f s2 Hf; by apply runs_ret].
  eapply runs_bind; [by apply find_in_dir_spec|]. intros f s2 (-> & _). rewrite dir_lookup_none; [by apply runs_ret|].
  rewrite dir_entries_forall in Hnone |- *. rewrite Hp1. intros c' j Hc' Hj. destruct (decide (c' = c)) as [->|Hne].
  - rewrite Hc1, entry_at_write; [|done|]. 
    + destruct (decide (j = i)); [|by apply Hnone]. rewrite Hname. by apply format_slash, Hok.
    + rewrite (cluster_length dev medium) by done. destruct (geo_cluster _ _ (mnt_geo _ _ _ Hm)) as [Hs ->]. rewrite H512. lia.
  - rewrite Ho1; [by apply Hnone|done|]. eapply file_chain_valid; [exact Hl|done].
Qed.

(** ** Making a directory *)

Lemma contents_same s s' l : (forall c, c ∈ l -> cluster_data s' c = cluster_data s c) -> contents s' l = contents s l.
Proof. intros H. unfold contents. apply list_fmap_ext. intros i c Hc%list_elem_of_lookup_2. by rewrite H. Qed.

(** A name without a dot and of at most eight characters is stored as it is looked up. *)
Lemma format_plain name : (dot ∉ name) -> (length name <= 8)%nat -> format_dirname name = fat32_format_filename name.
Proof.
  intros Hd Hl. unfold format_dirname, fat32_format_filename. rewrite span_none by done. rewrite !take_ge by lia. unfold padded. rewrite length_fmap. cbn [tail fmap list_fmap app length].
  replace (11 - length name)%nat with ((8 - length name) + 3)%nat by lia. rewrite repeat_app, <- app_assoc. done.
Qed.

(** A scan of [n] entries passes over entries in use only. *)
Definition passes_used (n : nat) (scan : list Z -> scanned) : Prop := forall b,
  match scan b with
  | at_entry i _ => (i < n)%nat /\ forall k, (k < i)%nat -> field 0 1 (entry_at b k) <> 0
  | at_end => True
  | past_all => forall k, (k < n)%nat -> field 0 1 (entry_at b k) <> 0
  end.

Lemma scan_free_used n : passes_used n (scan_free n 0).
Proof.
  intros b. pose proof (scan_free_spec b n 0) as H. destruct (scan_free n 0 b) as [i e| |]; [|done|by intros k Hk; apply H; lia].
  destruct H as (Hi & _ & _ & H). split; [lia|]. intros k Hk. apply H. lia.
Qed.

Lemma scan_names_used formatted n : passes_used n (scan_names n 0 formatted).
Proof.
  intros b. assert (H : forall m i, match scan_names m i formatted b with
    | at_entry j e => (i <= j < i + m)%nat /\ e = entry_at b j /\ forall k, (i <= k < j)%nat -> field 0 1 (entry_at b k) <> 0
    | at_end => True | past_all => forall k, (i <= k < i + m)%nat -> field 0 1 (entry_at b k) <> 0 end).
  { induction m as [|m IH]; intros i; cbn [scan_names]; [intros; lia|]. destruct (Z.eqb_spec (field 0 1 (entry_at b i)) 0); [done|]. rewrite name_is_e5_false. case_bool_decide; [split; [lia|]; split; [done|]; intros; lia|].
    specialize (IH (S i)). destruct (scan_names m (S i) formatted b) as [j e| |]; [|done|].
    - destruct IH as (Hj & -> & IH). split; [lia|]. split; [done|]. intros k Hk. destruct (decide (k = i)) as [->|]; [done|]. apply IH. lia.
    - intros k Hk. destruct (decide (k = i)) as [->|]; [done|]. apply IH. lia. }
  specialize (H n 0%nat). destruct (scan_names n 0 formatted b) as [i e| |]; [|done|by intros k Hk; apply H; lia]. destruct H as (Hi & _ & H). split; [lia|]. intros k Hk. apply H. lia.
Qed.

(** The entries before the one that is found are in use. *)
Lemma found_split n scan missing l c i e : passes_used n scan -> missing <> ERR_OK -> found scan missing l = (ERR_OK, Some (c, i, e)) ->
  exists l1 b l2, l = l1 ++ (c, b) :: l2 /\ scan b = at_entry i e /\ (i < n)%nat /\ (forall k, (k < i)%nat -> field 0 1 (entry_at b k) <> 0) /\
    (forall x k, x ∈ l1 -> (k < n)%nat -> field 0 1 (entry_at (snd x) k) <> 0).
Proof.
  intros Hscan Hmis. induction l as [|[c' b] l IH]; cbn [found]; [by intros [= ?]|]. pose proof (Hscan b) as Hs. destruct (scan b) as [j e'| |] eqn:Es; [|by intros [= ?]|].
  - intros [= -> -> ->]. destruct Hs as (Hj & Hbefore). exists [], b, l. split; [done|]. split; [done|]. split; [done|]. split; [done|]. by intros x k ?%not_elem_of_nil.
  - intros H. destruct (IH H) as (l1 & b' & l2 & -> & Hs' & Hi & Hb & Hl). exists ((c', b) :: l1), b', l2. split; [done|]. split; [done|]. split; [done|]. split; [done|].
    intros x k [->|Hx]%elem_of_cons Hk; [by apply Hs|by apply Hl].
Qed.

Lemma dir_lookup_app formatted es es' : Forall (fun e => field 0 1 e <> 0 /\ entry_name e <> formatted) es -> dir_lookup formatted (es ++ es') = dir_lookup formatted es'.
Proof. induction 1 as [|e es [H0 Hn] Hes IH]; [done|]. cbn [app dir_lookup]. rewrite (proj2 (Z.eqb_neq _ 0) H0). by rewrite decide_False. Qed.

(** The new entry is the first one of its name. *)
Lemma lookup_stored formatted scan missing s s' l c i e x :
  passes_used (entries_per_cluster (params s)) scan -> missing <> ERR_OK -> found scan missing (contents s l) = (ERR_OK, Some (c, i, e)) -> NoDup l -> params s' = params s ->
  length x = 32%nat -> (32 * i + 32 <= length (cluster_data s c))%nat -> entry_name x = formatted -> field 0 1 x <> 0 ->
  cluster_data s' c = buf_write (cluster_data s c) (32 * i) x -> (forall c', c' ∈ l -> c' <> c -> cluster_data s' c' = cluster_data s c') ->
  Forall (fun e => entry_name e <> formatted) (dir_entries s l) -> dir_lookup formatted (dir_entries s' l) = Some x.
Proof.
  intros Hscan Hmis Hfree Hnd Hp Hx Hlen Hname H0 Hc Ho Hnone. destruct (found_split _ _ _ _ _ _ _ Hscan Hmis Hfree) as (k1 & b & k2 & Hsplit & _ & Hi & Hbefore & Hl1).
  apply fmap_app_inv in Hsplit as (l1 & l' & Ek1 & Hl' & ->). symmetry in Hl'. apply fmap_cons_inv in Hl' as (y & l2 & [= <- ->] & -> & ->). subst k1. cbn [snd] in Hbefore.
  apply NoDup_app in Hnd as (_ & Hdis & Hnd2). rewrite dir_entries_forall in Hnone.
  assert (Hin : forall c', c' ∈ l1 -> c' <> c) by (intros c' Hc' ->; apply (Hdis c Hc'); left). set (n := entries_per_cluster (params s)) in *.
  unfold dir_entries, contents. rewrite Hp. fold n. rewrite !fmap_app, concat_app, !fmap_cons. cbn [concat]. rewrite dir_lookup_app.
  - cbn [snd fst]. replace n with (i + S (n - i - 1))%nat by lia. rewrite seq_app, fmap_app, <- app_assoc. rewrite dir_lookup_app.
    + cbn [Nat.add seq fmap list_fmap app dir_lookup]. rewrite Hc, entry_at_write, decide_True by done. rewrite (proj2 (Z.eqb_neq _ 0) H0). by rewrite decide_True.
    + apply Forall_fmap, Forall_forall. intros k Hk%elem_of_seq. unfold compose. rewrite Hc, entry_at_write, decide_False by (done || lia). split; [apply Hbefore; lia|]. apply Hnone; [apply elem_of_app; right; left|lia].
  - apply Forall_concat, Forall_fmap, Forall_fmap, Forall_forall. intros c' Hc'. unfold compose. cbn. apply Forall_fmap, Forall_forall. intros k Hk%elem_of_seq. unfold compose.
    rewrite Ho by (try (by apply Hin); apply elem_of_app; by left). split; [apply (Hl1 (c', cluster_data s c')); [apply list_elem_of_fmap; by exists c'|lia]|]. apply Hnone; [apply elem_of_app; by left|lia].
Qed.

Lemma update_entry_run b i f (s : st) : (32 * i + 32 <= length b)%nat -> length (f (entry_at b i)) = 32%nat ->
  update_entry b i f s = Ret (f (entry_at b i), buf_write b (32 * i) (f (entry_at b i))) s.
Proof.
  intros Hb Hf. assert (E : take 32 (drop (Z.to_nat (32 * Z.of_nat i)) b) = entry_at b i) by (unfold entry_at; do 2 f_equal; lia).
  unfold update_entry. erewrite bind_run by (apply rd_run; lia). rewrite E. erewrite bind_run by (apply wr_run; lia). by replace (Z.to_nat (32 * Z.of_nat i)) with (32 * i)%nat by lia.
Qed.

Lemma put_cluster_attributes e c : length e = 32%nat -> attributes (put_cluster e c) = attributes e.
Proof.
  intros He. unfold attributes, put_cluster, set_first.
  rewrite (field_write_other _ 28) by (rewrite ?buf_write_length; rewrite ?le_bytes_length, ?buf_write_length; rewrite ?le_bytes_length, ?He; lia).
  rewrite (field_write_other _ 26) by (rewrite ?buf_write_length; rewrite ?le_bytes_length, ?He; lia). by rewrite (field_write_other _ 20) by (rewrite ?le_bytes_length, ?He; lia).
Qed.

(** The fields of an entry for a directory. *)
Lemma new_directory name cluster e : length e = 32%nat -> length name = 11%nat -> 0 <= cluster < 2 ^ 32 ->
  attributes (new_entry name FAT32_ATTR_DIRECTORY cluster e) = FAT32_ATTR_DIRECTORY /\ entry_cluster (new_entry name FAT32_ATTR_DIRECTORY cluster e) = cluster.
Proof.
  intros He Hn Hc. assert (L1 : length (buf_write e 0 name) = 32%nat) by (rewrite buf_write_length; lia).
  assert (L2 : length (buf_write (buf_write e 0 name) 11 [FAT32_ATTR_DIRECTORY]) = 32%nat) by (rewrite buf_write_length; cbn; lia). unfold new_entry. split; [|by apply entry_cluster_put].
  rewrite put_cluster_attributes by done. unfold attributes. by rewrite (field_write _ 11 1 FAT32_ATTR_DIRECTORY) by (rewrite ?L1; lia || done).
Qed.

(** The first cluster of a new directory: entries for itself and its parent. *)
Definition dot_block (n : nat) (new parent : Z) (b : list Z) : Prop :=
  length b = n /\ bytes b /\ entry_name (entry_at b 0) = padded 11 [dot] /\ attributes (entry_at b 0) = FAT32_ATTR_DIRECTORY /\ entry_cluster (entry_at b 0) = new /\
  entry_name (entry_at b 1) = padded 11 [dot; dot] /\ attributes (entry_at b 1) = FAT32_ATTR_DIRECTORY /\ entry_cluster (entry_at b 1) = parent.

Lemma dot_block_run n new parent (s : st) : (64 <= n)%nat -> 0 <= new < 2 ^ 32 -> 0 <= parent < 2 ^ 32 ->
  exists x y b, update_entry (repeat 0 n) 0 (dot_entry [dot] new) s = Ret x s /\ update_entry (snd x) 1 (dot_entry [dot; dot] parent) s = Ret (y, b) s /\ dot_block n new parent b.
Proof.
  intros Hn Hnew Hpar. set (z := repeat 0 n). assert (Hz : length z = n) by apply repeat_length. assert (Hzb : bytes z) by (apply List.Forall_forall; intros x ->%repeat_spec; fits_lia).
  assert (Hd : forall nm c e, length nm = 11%nat -> bytes nm -> length e = 32%nat -> bytes e ->
    length (new_entry nm FAT32_ATTR_DIRECTORY c e) = 32%nat /\ bytes (new_entry nm FAT32_ATTR_DIRECTORY c e) /\ entry_name (new_entry nm FAT32_ATTR_DIRECTORY c e) = nm).
  { intros nm c e ? ? ? ?. by apply new_entry_ok. }
  assert (Hlen : forall b k, length b = n -> (k < 2)%nat -> length (entry_at b k) = 32%nat) by (intros b k Hb Hk; unfold entry_at; rewrite length_take, length_drop; lia).
  assert (Hby : forall b k, bytes b -> bytes (entry_at b k)) by (intros b k Hb; by apply Forall_take, Forall_drop).
  assert (N1 : length (padded 11 [dot]) = 11%nat /\ bytes (padded 11 [dot])) by (split; [done|repeat constructor; unfold dot, space; fits_lia]). destruct N1 as [N1 N1b].
  assert (N2 : length (padded 11 [dot; dot]) = 11%nat /\ bytes (padded 11 [dot; dot])) by (split; [done|repeat constructor; unfold dot, space; fits_lia]). destruct N2 as [N2 N2b].
  destruct (Hd (padded 11 [dot]) new (entry_at z 0) N1 N1b (Hlen z 0%nat Hz ltac:(lia)) (Hby z 0%nat Hzb)) as (L1 & B1 & E1). set (e1 := new_entry _ _ new (entry_at z 0)) in *.
  set (b1 := buf_write z (32 * 0) e1). assert (Hb1 : length b1 = n) by (unfold b1; rewrite buf_write_length; lia). assert (Hb1b : bytes b1) by (by apply buf_write_bytes).
  destruct (Hd (padded 11 [dot; dot]) parent (entry_at b1 1) N2 N2b (Hlen b1 1%nat Hb1 ltac:(lia)) (Hby b1 1%nat Hb1b)) as (L2 & B2 & E2). set (e2 := new_entry _ _ parent (entry_at b1 1)) in *.
  exists (e1, b1), e2, (buf_write b1 (32 * 1) e2). split; [apply (update_entry_run z 0 (dot_entry [dot] new)); [lia|done]|]. split; [apply (update_entry_run b1 1 (dot_entry [dot; dot] parent)); [lia|done]|].
  split; [rewrite buf_write_length; lia|]. split; [by apply buf_write_bytes|]. rewrite !entry_at_write by lia. cbn [decide]. rewrite (decide_False (P := 0%nat = 1%nat)), (decide_True (P := 1%nat = 1%nat)) by done.
  unfold b1. rewrite entry_at_write, decide_True by lia. destruct (new_directory (padded 11 [dot]) new (entry_at z 0)) as [A1 C1]; [apply Hlen; [done|lia]|done|done|]. destruct (new_directory (padded 11 [dot; dot]) parent (entry_at b1 1)) as [A2 C2]; [apply Hlen; [done|lia]|done|done|]. done.
Qed.

Lemma file_chain_used total t l x : forall c, file_chain total t c l -> x ∈ l -> t x <> 0.
Proof. induction l as [|y l IH]; intros c; cbn [file_chain]; [by intros _ ?%not_elem_of_nil|]. intros (-> & _ & Hy & Hl) [->|Hx]%elem_of_cons; [done|by eapply IH]. Qed.

(** The middle of [fat32_mkdir]: a cluster is taken and filled; the directory itself is
    not yet changed. *)
Lemma mkdir_cluster s t l c i new : block_size dev = 512 -> represents s t -> room s t l c i new ->
  exists s1 b s2, fat32_alloc_cluster dev s = Ret new s1 /\ represents s1 (t.[new <- FAT32_CLUSTER_EOF_MIN]) /\ kept dev medium s s1 /\
    Fat.kmalloc mem_ok garbage (bytes_per_cluster (params s)) s1 = Ret b s2 /\ length b = Z.to_nat (bytes_per_cluster (params s)) /\ b <> [] /\
    represents s2 (t.[new <- FAT32_CLUSTER_EOF_MIN]) /\ kept dev medium s s2 /\ (64 <= length b)%nat /\ valid s new /\ new ∉ l.
Proof.
  intros H512 Hr [Hl _ Hnew]. destruct (alloc_spec dev medium s t Hr) as (r & s1 & E1 & Hk1 & -> & Hr1). unfold table_alloc in *. rewrite Hnew in *. cbn [fst snd] in *.
  destruct (kmalloc_spec (bytes_per_cluster (params s)) s1 _ Hr1) as (b & s2 & E2 & Hb & Hne & Hr2 & Hu2); [by eapply cluster_size|]. exists s1, b, s2.
  apply find_first_Some in Hnew as (Hbd & Hz%Z.eqb_eq & _). destruct (geo_cluster _ _ (mnt_geo _ _ _ (proj1 Hr))) as [Hs Hbpc].
  split; [done|]. split; [done|]. split; [done|]. split; [done|]. split; [done|]. split; [done|]. split; [done|]. split; [eapply kept_trans; [done|by apply kept_unchanged]|].
  split; [rewrite Hb, Hbpc, H512; lia|]. split; [unfold valid; lia|]. intros Hin. by apply (file_chain_used _ _ _ _ _ Hl Hin).
Qed.

Lemma mkdir_spec path name s t l c i new : fat32_parse_path path = Some [name] -> block_size dev = 512 -> represents s t -> room s t l c i new -> valid s c -> (i < 16)%nat -> c ∈ l -> bytes name ->
  Forall (fun e => entry_name e <> fat32_format_filename name) (dir_entries s l) -> 2 <= root_cluster (params s) < 2 ^ 32 ->
  runs (fat32_mkdir dev mem_ok garbage path)
    (fun e s' => e = ERR_OK /\ represents s' (t.[new <- FAT32_CLUSTER_EOF_MIN]) /\ params s' = params s /\
       (let x := new_entry (format_dirname name) FAT32_ATTR_DIRECTORY new (entry_at (cluster_data s c) i) in cluster_data s' c = buf_write (cluster_data s c) (32 * i) x) /\
       (forall c', c' ∈ l -> c' <> c -> cluster_data s' c' = cluster_data s c') /\ dot_block (Z.to_nat (bytes_per_cluster (params s))) new (root_cluster (params s)) (cluster_data s' new)) s.
Proof.
  intros Hpath H512 Hr Hroom Hv Hi Hc Hb Hnone Hroot. pose proof (room_root _ _ _ _ _ _ Hroom) as Hl. pose proof (geo_clusters _ _ (mnt_geo _ _ _ (proj1 Hr))) as Hmax. unfold fat32_mkdir. rewrite Hpath.
  eapply runs_step; [reflexivity|]. cbn [walk_parents List.last]. eapply runs_step; [reflexivity|]. cbn [fst snd]. rewrite bool_decide_true by done. cbn [negb].
  eapply runs_bind; [by apply (find_in_dir_spec _ l)|]. rewrite dir_lookup_none by done. intros r s1 (-> & Hr1 & Hu1). cbn [fst]. rewrite bool_decide_false by done.
  assert (Hroom1 : room s1 t l c i new) by (destruct Hroom as [? [e He] ?]; split; rewrite ?(proj1 Hu1), ?(contents_unchanged s s1) by done; [done|by exists e|done]).
  destruct (mkdir_cluster s1 t l c i new H512 Hr1 Hroom1) as (s2 & b & s3 & E2 & Hr2 & Hk2 & E3 & Hbl & Hne & Hr3 & Hk3 & H64 & Hvn & Hnin). rewrite (proj1 Hu1) in E3, Hbl.
  assert (Hk : kept dev medium s s3) by (eapply kept_trans; [by apply kept_unchanged|done]). pose proof (kept_params _ _ _ _ Hk) as Hp3. unfold valid in Hvn. rewrite (proj1 Hu1) in Hvn.
  eapply runs_step; [exact E2|]. rewrite (proj2 (Z.ltb_ge new 2)) by lia. eapply runs_step; [exact E3|]. rewrite bool_decide_false by done.
  destruct (dot_block_run (length b) new (root_cluster (params s)) s3 H64) as (x & y & b2 & F1 & F2 & Hdot); [lia|lia|]. eapply runs_step; [exact F1|]. eapply runs_step; [exact F2|]. cbn [snd].
  assert (Hkc : forall c', valid s c' -> cluster_data s3 c' = cluster_data s c') by (intros c' Hv'; apply kept_cluster; [apply Hr|done|done]).
  eapply runs_bind; [apply (write_cluster_runs dev medium s3 _ new b2 Hr3); [unfold valid; rewrite Hp3; lia|rewrite Hp3, <- Hbl; apply Hdot|apply Hdot]|].
  intros e s4 (-> & Hr4 & Hp4 & Hn4 & Ho4 & _). rewrite bool_decide_true by done. cbn [negb]. rewrite Hp3 in Hp4.
  assert (Hin : forall c', c' ∈ l -> cluster_data s4 c' = cluster_data s c') by (intros c' Hc'; rewrite Ho4 by (by intros ->); apply Hkc; eapply file_chain_valid; [exact Hl|done]).
  eapply runs_bind; [apply (find_free_spec _ l s4); [done|rewrite Hp4; apply file_chain_new; [|done]]|].
  { destruct Hroom as [_ _ Hnew]. by apply find_first_Some in Hnew as (_ & ?%Z.eqb_eq & _). }
  intros r s5 (-> & Hr5 & Hu5). rewrite (contents_same s s4 l Hin), Hp4. destruct (room_entry _ _ _ _ _ _ Hroom) as (e & ->). cbn [fst snd fmap option_fmap option_map].
  assert (Hp5 : params s5 = params s) by (rewrite (proj1 Hu5); done). rewrite <- Hp5. assert (Hcd : forall c', cluster_data s5 c' = cluster_data s4 c') by (intros c'; by apply cluster_data_unchanged).
  eapply runs_bind; [apply (store_entry_spec s5 _ c i new _ H512 Hr5); [unfold valid; by rewrite Hp5|done|]|].
  { intros e' He' Hb'. destruct (new_entry_ok (format_dirname name) FAT32_ATTR_DIRECTORY new e') as (? & ? & _); try done; [by apply padded_length; rewrite length_fmap, length_take; lia|].
    apply padded_bytes, Forall_take, Hb. }
  intros r s6 (-> & Hr6 & Hp6 & Hc6 & Ho6). apply runs_ret. rewrite !Hcd, !Hin in Hc6 by done. rewrite Hp6, Hp5. split; [done|]. split; [done|]. split; [done|]. split; [done|]. split.
  - intros c' Hc' Hne'. by rewrite Ho6, Hcd, Hin.
  - rewrite Ho6, Hcd, Hn4 by (by intros ->). by rewrite <- Hbl.
Qed.

(** After a directory is made, its name leads to an entry for it. *)
Lemma mkdir_resolves path name s t l c i new :
  fat32_parse_path path = Some [name] -> block_size dev = 512 -> represents s t -> room s t l c i new -> valid s c -> (i < 16)%nat -> c ∈ l -> name <> [] -> bytes name -> (dot ∉ name) -> (0 ∉ name) -> (length name <= 8)%nat ->
  Forall (fun e => entry_name e <> fat32_format_filename name) (dir_entries s l) ->
  runs (fat32_mkdir dev mem_ok garbage path)
    (fun e s' => e = ERR_OK /\ represents s' (t.[new <- FAT32_CLUSTER_EOF_MIN]) /\ params s' = params s /\ dot_block (Z.to_nat (bytes_per_cluster (params s))) new (root_cluster (params s)) (cluster_data s' new) /\
       exists x, resolves s' (t.[new <- FAT32_CLUSTER_EOF_MIN]) (root_cluster (params s')) [name] x /\ is_directory x = true /\ entry_cluster x = new) s.
Proof.
  intros Hpath H512 Hr Hroom Hv Hi Hc Hne Hb Hdot H0 H8 Hnone. pose proof (room_root _ _ _ _ _ _ Hroom) as Hl. pose proof (geo_clusters _ _ (mnt_geo _ _ _ (proj1 Hr))) as Hmax.
  assert (Hroot : 2 <= root_cluster (params s) < total_clusters (params s) + 2) by (destruct l as [|x l]; [by apply not_elem_of_nil in Hc|]; destruct Hl as (-> & Hx & _); done).
  eapply runs_mono; [apply (mkdir_spec path name s t l c i new); try done; lia|]. intros e s1 (-> & Hr1 & Hp1 & Hc1 & Ho1 & Hd1).
  destruct (room_entry _ _ _ _ _ _ Hroom) as (e & He). pose proof (room_cluster _ _ _ _ _ _ Hroom) as Hnew. apply find_first_Some in Hnew as (Hnb & Hfree%Z.eqb_eq & _).
  assert (Hcl : (32 * i + 32 <= length (cluster_data s c))%nat) by (rewrite (cluster_length dev medium) by apply Hr; destruct (geo_cluster _ _ (mnt_geo _ _ _ (proj1 Hr))) as [Hs ->]; rewrite H512; lia).
  assert (Hel : length (entry_at (cluster_data s c) i) = 32%nat) by (unfold entry_at; rewrite length_take, length_drop; lia).
  assert (Hfl : length (format_dirname name) = 11%nat) by (apply padded_length; rewrite length_fmap, length_take; lia). set (x := new_entry _ _ new _) in Hc1.
  destruct (new_entry_ok (format_dirname name) FAT32_ATTR_DIRECTORY new (entry_at (cluster_data s c) i)) as (Hxl & _ & Hxn); try done; [apply Forall_take, Forall_drop, (cluster_bytes dev medium)|by apply padded_bytes, Forall_take|].
  destruct (new_directory (format_dirname name) new _ Hel Hfl) as [Hxd Hxc]; [lia|]. fold x in Hxl, Hxn, Hxd, Hxc.
  assert (Hx0 : field 0 1 x <> 0).
  { assert (E : field 0 1 x = field 0 1 (entry_name x)) by (unfold entry_name; destruct x; done). rewrite E, Hxn. destruct name as [|z name]; [done|].
    unfold format_dirname, field. cbn [take fmap list_fmap padded app drop le_value]. unfold upper. rewrite take_0. cbn [le_value]. apply not_elem_of_cons in H0 as [Hz _]. destruct ((97 <=? z) && (z <=? 122)) eqn:Ez; lia. }
  split; [done|]. split; [done|]. split; [done|]. split; [done|]. exists x. split; [|split; [unfold is_directory; by rewrite Hxd|done]].
  eapply (resolves_last _ _ _ l); [rewrite Hp1; by apply file_chain_new|]. rewrite <- format_plain by done.
  eapply (lookup_stored _ _ ERR_DISK_FULL); [apply scan_free_used|done|exact He| |done|done|done|done|done|done|done|by rewrite format_plain]. eapply chain_NoDup, file_chain_chain; [|exact Hl]. lia.
Qed.

(** Making a directory.  A directory that is made in the root directory, with a name of
    at most eight characters and without a dot, is found at its path: its entry gives a new
    cluster that holds the entries for itself and for the root directory. *)
Theorem fat_mkdir_found name u s t l c i new :
  block_size dev = 512 -> represents s t -> room s t l c i new -> valid s c -> (i < 16)%nat -> c ∈ l -> component_ok name -> bytes name -> (dot ∉ name) -> (0 ∉ name) -> (length name <= 8)%nat ->
  Forall (fun e => entry_name e <> fat32_format_filename name) (dir_entries s l) ->
  runs (e <~ fat32_mkdir dev mem_ok garbage (slash :: name);; f <~ fat32_find_file dev mem_ok garbage (slash :: name) u;; ret (e, f))
    (fun x s' => fst x = ERR_OK /\ fst (snd x) = ERR_OK /\ is_directory (snd (snd x)) = true /\ entry_cluster (snd (snd x)) = new /\
       dot_block (Z.to_nat (bytes_per_cluster (params s))) new (root_cluster (params s)) (cluster_data s' new)) s.
Proof.
  intros H512 Hr Hroom Hv Hi Hc Hok Hb Hdot H0 H8 Hnone. assert (Hpath : fat32_parse_path (slash :: name) = Some [name]) by (apply (parse_joined [name] 32); [by apply Forall_singleton|cbn; lia]).
  eapply runs_bind; [apply (mkdir_resolves (slash :: name) name s t l c i new); try done; apply Hok|]. intros e s1 (-> & Hr1 & Hp1 & Hd1 & x & Hres & Hxd & Hxc).
  eapply runs_bind; [by apply (find_path_spec _ [name] x)|]. intros f s2 (-> & _ & Hu). apply runs_ret. cbn [fst snd]. by rewrite (cluster_data_unchanged s1 s2).
Qed.

Lemma scan_names_entry formatted b n : forall i j e, scan_names n i formatted b = at_entry j e -> e = entry_at b j.
Proof.
  induction n as [|n IH]; intros i j e; cbn [scan_names]; [done|]. destruct (field 0 1 (entry_at b i) =? 0); [done|]. rewrite name_is_e5_false. case_bool_decide; [by intros [= <- <-]|]. apply IH.
Qed.

Lemma found_names formatted n missing s l c i e : missing <> ERR_OK -> found (scan_names n 0 formatted) missing (contents s l) = (ERR_OK, Some (c, i, e)) ->
  c ∈ l /\ (i < n)%nat /\ e = entry_at (cluster_data s c) i.
Proof.
  intros Hmis H. destruct (found_split _ _ _ _ _ _ _ (scan_names_used formatted n) Hmis H) as (l1 & b & l2 & Hl & Hs & Hi & _).
  assert (Hin : (c, b) ∈ contents s l) by (rewrite Hl; apply elem_of_app; right; left). apply list_elem_of_fmap in Hin as (c' & [= <- ->] & Hc). split; [done|]. split; [done|]. by eapply scan_names_entry.
Qed.

Lemma buf_write_entry b i l : (32 * i + 32 <= length b)%nat -> (length l <= 32)%nat -> buf_write b (32 * i) l = buf_write b (32 * i) (buf_write (entry_at b i) 0 l).
Proof.
  intros Hb Hl. unfold buf_write, entry_at. rewrite take_0, Nat.add_0_l. cbn [app]. apply (f_equal (app _)). rewrite length_app, length_drop, length_take, length_drop. rewrite <- app_assoc. apply (f_equal (app _)).
  replace (32 * i + (length l + (32 `min` (length b - 32 * i) - length l)))%nat with (32 * i + 32)%nat by lia. rewrite skipn_firstn_comm, !drop_drop.
  transitivity (take (32 - length l) (drop (32 * i + length l) b) ++ drop (32 - length l) (drop (32 * i + length l) b)); [by rewrite take_drop|]. f_equal. rewrite drop_drop. f_equal. lia.
Qed.

Lemma patch_entry_spec s t c i l : represents s t -> valid s c -> (32 * i + 32 <= Z.to_nat (bytes_per_cluster (params s)))%nat -> (length l <= 32)%nat -> bytes l ->
  runs (patch_entry dev mem_ok garbage c i l)
    (fun e s' => e = ERR_OK /\ represents s' t /\ params s' = params s /\ cluster_data s' c = buf_write (cluster_data s c) (32 * i) (buf_write (entry_at (cluster_data s c) i) 0 l) /\
       (forall c', c' <> c -> cluster_data s' c' = cluster_data s c')) s.
Proof.
  intros Hr Hv Hi Hl Hb. pose proof (cluster_size _ _ Hr) as Hz. eapply runs_step; [reflexivity|]. cbv beta.
  eapply runs_bind; [by apply kmalloc_spec|]. intros b s1 (Hbl & Hb0 & Hr1 & Hu1). rewrite bool_decide_false by done. assert (Hv1 : valid s1 c) by (unfold valid; by rewrite (proj1 Hu1)).
  eapply runs_bind; [apply (read_cluster_runs dev medium); [apply Hr1|done|by rewrite (proj1 Hu1)]|]. intros r s2 (-> & Hm2 & Hu2). cbn [fst snd]. rewrite bool_decide_true by done. cbn [negb].
  pose proof (fat_unchanged_trans _ _ _ _ Hu1 Hu2) as Hu. assert (Hv2 : valid s2 c) by (unfold valid; by rewrite (proj1 Hu)). pose proof (represents_unchanged _ _ _ Hr1 Hm2 Hu2) as Hr2.
  assert (Hcl : length (cluster_data s c) = Z.to_nat (bytes_per_cluster (params s))) by (apply (cluster_length dev medium), Hr). rewrite (cluster_data_unchanged s s1) by done.
  eapply runs_step; [apply wr_run; lia|]. replace (Z.to_nat (32 * Z.of_nat i)) with (32 * i)%nat by lia. rewrite buf_write_entry by lia.
  assert (Hxl : length (buf_write (entry_at (cluster_data s c) i) 0 l) = 32%nat) by (rewrite buf_write_length; unfold entry_at; rewrite length_take, length_drop; lia).
  eapply runs_mono; [apply (write_cluster_runs dev medium s2 t c); try done|].
  - rewrite buf_write_length by lia. by rewrite (proj1 Hu).
  - apply buf_write_bytes; [apply (cluster_bytes dev medium)|]. apply buf_write_bytes; [|done]. apply Forall_take, Forall_drop, (cluster_bytes dev medium).
  - intros e s' (-> & Hr' & Hp' & Hc' & Ho' & _). split; [done|]. split; [done|]. split; [by rewrite Hp', (proj1 Hu)|]. split; [done|]. intros c' Hne. rewrite Ho' by done. by apply cluster_data_unchanged.
Qed.

Lemma walk_root check name cluster (s : st) : walk_parents dev mem_ok garbage check [name] cluster s = Ret (ERR_OK, cluster) s.
Proof. done. Qed.

Lemma format_first name : (0 ∉ name) -> field 0 1 (fat32_format_filename name) <> 0.
Proof.
  intros H0. destruct name as [|z name]; [done|]. apply not_elem_of_cons in H0 as [Hz _]. unfold fat32_format_filename. cbn [span]. destruct (z =? dot); [done|]. destruct (span dot name) as [b r].
  unfold field, upper. cbn. rewrite take_0. cbn [le_value]. destruct ((97 <=? z) && (z <=? 122)) eqn:E; lia.
Qed.

Lemma rename_spec old new s t l c i e : represents s t -> file_chain (total_clusters (params s)) t (root_cluster (params s)) l -> component_ok old -> component_ok new -> bytes new ->
  found (scan_names (entries_per_cluster (params s)) 0 (fat32_format_filename old)) ERR_NOT_FOUND (contents s l) = (ERR_OK, Some (c, i, e)) ->
  Forall (fun e => entry_name e <> fat32_format_filename new) (dir_entries s l) ->
  runs (fat32_vfs_rename dev mem_ok garbage (slash :: old) (slash :: new))
    (fun r s' => r = ERR_OK /\ represents s' t /\ params s' = params s /\ cluster_data s' c = buf_write (cluster_data s c) (32 * i) (buf_write e 0 (fat32_format_filename new)) /\
       (forall c', c' <> c -> cluster_data s' c' = cluster_data s c')) s.
Proof.
  intros Hr Hl Ho Hn Hb Hf Hnone. destruct (found_names _ _ ERR_NOT_FOUND _ _ _ _ _ ltac:(done) Hf) as (Hc & Hi & ->). pose proof (file_chain_valid _ _ _ _ _ Hl Hc) as Hv.
  assert (Hp : forall n, component_ok n -> fat32_parse_path (slash :: n) = Some [n]) by (intros n Hn'; apply (parse_joined [n] 32); [by apply Forall_singleton|cbn; lia]).
  unfold fat32_vfs_rename. rewrite (Hp old), (Hp new) by done. eapply runs_step; [reflexivity|]. cbv beta.
  eapply runs_step; [apply walk_root|]. cbn [fst snd]. rewrite bool_decide_true by done. cbn [negb]. eapply runs_step; [apply walk_root|]. cbn [fst snd]. rewrite bool_decide_true by done. rewrite Z.eqb_refl. cbn [negb List.last].
  eapply runs_bind; [by apply find_in_dir_spec|]. intros x s1 (-> & Hr1 & Hu1). rewrite dir_lookup_none by done. cbn [fst]. rewrite bool_decide_false by done.
  eapply runs_bind; [apply (find_location_spec _ l); [done|by rewrite (proj1 Hu1)]|]. intros x s2 (-> & Hr2 & Hu2).
  rewrite (contents_unchanged s s1), (proj1 Hu1), Hf by done. cbn [fst snd fmap option_fmap option_map]. pose proof (fat_unchanged_trans _ _ _ _ Hu1 Hu2) as Hu.
  eapply runs_mono; [apply (patch_entry_spec s2 t); try done|].
  - unfold valid. by rewrite (proj1 Hu).
  - rewrite (proj1 Hu). unfold entries_per_cluster, ENTRY_SIZE in Hi. dlia.
  - rewrite format_length. lia.
  - by apply format_bytes.
  - intros r s' (-> & Hr' & Hp' & Hc' & Ho'). split; [done|]. split; [done|]. split; [by rewrite Hp', (proj1 Hu)|]. rewrite Hc', !(cluster_data_unchanged s s2) by done. split; [done|].
    intros c' Hne. rewrite Ho' by done. by apply cluster_data_unchanged.
Qed.

(** After a file of the root directory was renamed to a name that no entry has, the new name
    leads to its entry, in which only the name differs, and the table is as before. *)
Theorem fat_rename_found old new u s t l c i e : represents s t -> file_chain (total_clusters (params s)) t (root_cluster (params s)) l -> component_ok old -> component_ok new -> bytes new -> (0 ∉ new) ->
  found (scan_names (entries_per_cluster (params s)) 0 (fat32_format_filename old)) ERR_NOT_FOUND (contents s l) = (ERR_OK, Some (c, i, e)) ->
  Forall (fun e => entry_name e <> fat32_format_filename new) (dir_entries s l) ->
  runs (r <~ fat32_vfs_rename dev mem_ok garbage (slash :: old) (slash :: new);; f <~ fat32_find_file dev mem_ok garbage (slash :: new) u;; ret (r, f))
    (fun x s' => x = (ERR_OK, (ERR_OK, fat32_format_filename new ++ drop 11 e)) /\ represents s' t) s.
Proof.
  intros Hr Hl Ho Hn Hb H0 Hf Hnone. destruct (found_names _ _ ERR_NOT_FOUND _ _ _ _ _ ltac:(done) Hf) as (Hc & Hi & He). pose proof (geo_clusters _ _ (mnt_geo _ _ _ (proj1 Hr))) as Hmax.
  assert (Hcl : (32 * i + 32 <= length (cluster_data s c))%nat) by (rewrite (cluster_length dev medium) by apply Hr; unfold entries_per_cluster, ENTRY_SIZE in Hi; dlia).
  assert (Hel : length e = 32%nat) by (subst e; unfold entry_at; rewrite length_take, length_drop; lia).
  assert (Ex : fat32_format_filename new ++ drop 11 e = buf_write e 0 (fat32_format_filename new)) by (unfold buf_write; by rewrite format_length, take_0). rewrite Ex.
  eapply runs_bind; [by apply (rename_spec old new s t l c i e)|]. intros r s1 (-> & Hr1 & Hp1 & Hc1 & Ho1).
  eapply runs_bind; [|intros f s2 Hq; apply runs_ret; exact (conj (f_equal (pair ERR_OK) (proj1 Hq)) (proj2 Hq))].
  eapply runs_mono; [apply (find_file_spec [new] (fat32_format_filename new ++ drop 11 e)); [exact Hr1|done|by apply Forall_singleton|cbn; lia|]|by intros f s2 (-> & Hr2 & _); rewrite Ex].
  eapply (resolves_last _ _ _ l); [by rewrite Hp1|]. pose proof (format_first new H0) as Hfirst. pose proof (format_length new) as Hfl. rewrite <- Ex in *.
  eapply (lookup_stored _ _ ERR_NOT_FOUND); [apply scan_names_used|done|exact Hf| |done| |done| | |done|by intros; apply Ho1|done].
  - eapply chain_NoDup, file_chain_chain; [|exact Hl]. lia.
  - rewrite length_app, Hfl, length_drop. lia.
  - unfold entry_name. rewrite take_app_le, take_ge by lia. done.
  - unfold field in *. rewrite drop_0 in *. rewrite take_app_le by lia. done.
Qed.

(** A search in a directory whose chain of clusters is a cycle, without free entries and
    without the name, does not end. *)
Theorem fat_cyclic_directory_hangs scan missing c b s t fuel : represents s t -> valid s c -> t c = c -> length b = Z.to_nat (bytes_per_cluster (params s)) -> scan (cluster_data s c) = past_all ->
  search dev fuel scan missing c b s = NoFuel.
Proof.
  intros Hr Hv Hc Hb Hs. revert s b Hr Hv Hb Hs. induction fuel as [|fuel IH]; intros s b Hr Hv Hb Hs; [done|]. cbn [search]. pose proof (proj1 Hr) as Hm.
  pose proof (geo_clusters _ _ (mnt_geo _ _ _ Hm)). replace (_ && _) with true by (unfold FAT32_CLUSTER_EOF_MIN, valid in *; lia).
  destruct (read_cluster_runs dev medium s c b Hm Hv Hb) as (r & s1 & E1 & -> & Hm1 & Hu1). rewrite (bind_run _ _ _ _ _ E1). cbn [fst snd]. rewrite bool_decide_true by done. cbn [negb]. rewrite Hs.
  pose proof (represents_unchanged _ _ _ Hr Hm1 Hu1) as Hr1. assert (Hv1 : valid s1 c) by (unfold valid; by rewrite (proj1 Hu1)).
  destruct (get_next_runs dev medium s1 c Hm1 Hv1) as (v & s2 & E2 & -> & Hm2 & Hu2). rewrite (bind_run _ _ _ _ _ E2). pose proof (fat_unchanged_trans _ _ _ _ Hu1 Hu2) as Hu.
  rewrite (proj2 Hr1 c Hv1), Hc. apply IH; [by apply (represents_unchanged s)|unfold valid; by rewrite (proj1 Hu)|rewrite (proj1 Hu); by apply (cluster_length dev medium)|by rewrite (cluster_data_unchanged s s2)].
Qed.

End directory.

(** ** Examples *)

(** A root directory with one file [A] of 1500 bytes at cluster 3. *)
Definition sample_entry : list Z := buf_write (new_entry (fat32_format_filename [65]) FAT32_ATTR_ARCHIVE 3 (replicate 32 0)) 28 (le_bytes 4 1500).
Definition sample_volume : fat32 (gmap Z (list Z)) := sample sample_fat sample_entry.

(** Sixteen files. *)
Definition crowded_volume : fat32 (gmap Z (list Z)) := sample sample_fat (concat (replicate 16 sample_entry)).

Lemma fat_date_roundtrip_witness : exists u, fat32_date_to_unix (pack_date 2024 2 29) (pack_time 23 59 29) = Some u /\ fat32_unix_to_date 128 u = Some (pack_date 2024 2 29, pack_time 23 59 29) /\ u = 1709251198.
Proof.
  destruct (fat_date_roundtrip 2024 2 29 23 59 29) as (u & H1 & H2 & H3); [lia|lia|vm_compute; split; congruence|lia|lia|lia|]. exists u. split; [done|]. split; [done|]. rewrite H3. by vm_compute.
Defined.

Lemma sample_room : room (ram_medium 512) sample_volume (table_of sample_fat) [2] 2 1 5.
Proof. split; [by vm_compute; repeat split; try congruence; right|eexists; vm_compute; reflexivity|vm_compute; reflexivity]. Qed.

(** No entry has another name. *)
Lemma sample_names n : n <> fat32_format_filename [65] -> n <> replicate 11 0 -> Forall (fun e => entry_name e <> n) (dir_entries (ram_medium 512) sample_volume [2]).
Proof.
  intros H1 H0. apply (Forall_impl (fun e => entry_name e = fat32_format_filename [65] \/ entry_name e = replicate 11 0)); [|intros e [-> | ->]; done].
  apply List.Forall_forall. intros e He. vm_compute in He. repeat (destruct He as [<-|He]; [vm_compute; auto|]). done.
Qed.

Lemma sample_component : component_ok [66].
Proof. split; [by rewrite list_elem_of_singleton|]. split; [done|cbn; lia]. Qed.

Definition sample_time : rtc_time_t := {| year := 2024; month := 1; day := 1; hour := 0; minute := 0; second := 0 |}.

Lemma fat_mkdir_found_witness :
  runs (e <~ fat32_mkdir sample_device (fun _ => true) (fun _ _ => 0) [47; 66];; f <~ fat32_find_file sample_device (fun _ => true) (fun _ _ => 0) [47; 66] [];; ret (e, f))%effect
    (fun x _ => fst x = ERR_OK /\ fst (snd x) = ERR_OK /\ is_directory (snd (snd x)) = true /\ entry_cluster (snd (snd x)) = 5) sample_volume.
Proof.
  eapply runs_mono; [apply (fat_mkdir_found sample_device (ram_medium 512) (fun _ => true) (fun _ _ => 0) (fun _ => eq_refl) [66] [] sample_volume (table_of sample_fat) [2] 2 1 5)|by intros x s' (H1 & H2 & H3 & H4 & _)].
  - done.
  - apply sample_represents.
  - apply sample_room.
  - by vm_compute.
  - lia.
  - left.
  - apply sample_component.
  - repeat constructor; fits_lia.
  - by rewrite list_elem_of_singleton.
  - by rewrite list_elem_of_singleton.
  - cbn. lia.
  - by apply sample_names.
Defined.

Lemma fat_created_file_lost_witness :
  runs (r <~ fat32_create_file sample_device (fun _ => true) (fun _ _ => 0) sample_time [47; 66];;
        f <~ fat32_find_file sample_device (fun _ => true) (fun _ _ => 0) [47; 66] [];; ret (fst r, fst f))%effect
    (fun x _ => x = (ERR_OK, ERR_NOT_FOUND)) sample_volume.
Proof.
  apply (fat_created_file_lost sample_device (ram_medium 512) (fun _ => true) (fun _ _ => 0) (fun _ => eq_refl) _ [66] [] sample_volume (table_of sample_fat) [2] 2 1 5).
  - done.
  - apply sample_represents.
  - apply sample_room.
  - by vm_compute.
  - lia.
  - left.
  - apply sample_component.
  - repeat constructor; fits_lia.
  - by apply sample_names.
Defined.

Lemma fat_create_overruns_witness : fat32_create_file sample_device (fun _ => true) (fun _ _ => 0) sample_time [47; 66] crowded_volume = Fault.
Proof.
  apply (fat_create_overruns sample_device (ram_medium 512) (fun _ => true) (fun _ _ => 0) (fun _ => eq_refl) sample_time [47; 66] crowded_volume (table_of sample_fat) [2] 2 16 5); [done|apply sample_represents| |by vm_compute|lia].
  split; [by vm_compute; repeat split; try congruence; right|eexists; vm_compute; reflexivity|vm_compute; reflexivity].
Defined.

Lemma fat_rename_found_witness :
  runs (r <~ fat32_vfs_rename sample_device (fun _ => true) (fun _ _ => 0) [47; 65] [47; 66];; f <~ fat32_find_file sample_device (fun _ => true) (fun _ _ => 0) [47; 66] [];; ret (r, f))%effect
    (fun x _ => fst x = ERR_OK /\ fst (snd x) = ERR_OK /\ file_size (snd (snd x)) = 1500) sample_volume.
Proof.
  eapply runs_mono; [apply (fat_rename_found sample_device (ram_medium 512) (fun _ => true) (fun _ _ => 0) (fun _ => eq_refl) [65] [66] [] sample_volume (table_of sample_fat) [2] 2 0 sample_entry)|].
  - apply sample_represents.
  - apply sample_room.
  - split; [by rewrite list_elem_of_singleton|]. split; [done|cbn; lia].
  - apply sample_component.
  - repeat constructor; fits_lia.
  - by rewrite list_elem_of_singleton.
  - by vm_compute.
  - by apply sample_names.
  - intros x s' [-> _]. by vm_compute.
Defined.
