(* ===== verification/FatFile.v ===== *)
(** * FAT32: open files (kernel/fs/fat32_file.c)

    The 64 file handles, each with a buffer of one cluster that is written back when another
    cluster is loaded and when the file is closed.

    A descriptor is a pointer to a handle, cast to [int] and back; the kernel is linked in
    the upper 2 GiB, where the cast keeps the address.  Here it is the index of the handle,
    and [None] for the null pointer.  The buffers of the callers are not null and as long
    as they say.  The helpers work on the value of the handle, which the operations read
    and store, since nothing else changes it meanwhile.  The field [fs] is left out: one
    file system is mounted. *)

From stdpp Require Import base tactics list numbers option gmap.
From Stdlib Require Import Lia ZifyBool.
From S2P Require Import Prelude Effect Bytes Buffer Block Fat FatDir VfsTypes.

#[local] Open Scope Z_scope.

Definition MAX_FAT32_FILES : Z := 64.

(** [fat32_file_t]; a null pointer to the buffer is the empty list. *)
Record fat32_file_t := { f_entry : list Z; current_cluster : Z; position : Z; f_size : Z; cluster_buffer : list Z; cluster_dirty : bool }.

(** The file system and the handles. *)
Record fat_files (D : Type) := { fvol : fat32 D; fat32_files : arr fat32_file_t; fat32_file_slots : arr bool }.
Arguments fvol {D} _.
Arguments fat32_files {D} _.
Arguments fat32_file_slots {D} _.

Definition with_buffer (f : fat32_file_t) (cluster : Z) (b : list Z) (dirty : bool) : fat32_file_t :=
  {| f_entry := f_entry f; current_cluster := cluster; position := position f; f_size := f_size f; cluster_buffer := b; cluster_dirty := dirty |}.
Definition with_position (f : fat32_file_t) (pos size : Z) : fat32_file_t :=
  {| f_entry := f_entry f; current_cluster := current_cluster f; position := pos; f_size := size; cluster_buffer := cluster_buffer f; cluster_dirty := cluster_dirty f |}.
Definition with_entry (f : fat32_file_t) (e : list Z) : fat32_file_t :=
  {| f_entry := e; current_cluster := current_cluster f; position := position f; f_size := f_size f; cluster_buffer := cluster_buffer f; cluster_dirty := cluster_dirty f |}.

(** The cluster in the buffer must be written before the buffer is used for another one. *)
Definition must_write (f : fat32_file_t) : bool := cluster_dirty f && negb (bool_decide (cluster_buffer f = [])) && (2 <=? current_cluster f).

Section files.
  Context {D : Type} (dev : block_device_t D) (mem_ok : nat -> bool) (garbage : nat -> nat -> Z).

#[local] Abbreviation V := (Effect.M (fat32 D)).
#[local] Abbreviation M := (Effect.M (fat_files D)).
#[local] Open Scope effect_scope.

(** ** The buffer of a handle *)

Definition fat32_load_cluster (f : fat32_file_t) (cluster : Z) : V (error_code_t * fat32_file_t) :=
  if cluster <? 2 then ret (ERR_INVALID_ARG, f)
  else
    w <~ (if must_write f then err <~ fat32_write_cluster dev (current_cluster f) (cluster_buffer f);;
                               ret (err, if bool_decide (err = ERR_OK) then with_buffer f (current_cluster f) (cluster_buffer f) false else f)
          else ret (ERR_OK, f));;
    let f := snd w in
    if negb (bool_decide (fst w = ERR_OK)) then ret (fst w, f)
    else
      p <~ get params;;
      b <~ (if bool_decide (cluster_buffer f = []) then kmalloc mem_ok garbage (bytes_per_cluster p) else ret (cluster_buffer f));;
      if bool_decide (b = []) then ret (ERR_OUT_OF_MEMORY, f)
      else
        r <~ fat32_read_cluster dev cluster b;;
        if negb (bool_decide (fst r = ERR_OK)) then ret (fst r, with_buffer f (current_cluster f) (snd r) (cluster_dirty f))
        else ret (ERR_OK, with_buffer f cluster (snd r) (cluster_dirty f)).

(** [n] clusters after [cluster] in its chain. *)
Fixpoint walk (n : nat) (cluster : Z) : V Z :=
  match n with
  | O => ret cluster
  | S n => cluster <~ fat32_get_next_cluster dev cluster;; if FAT32_CLUSTER_EOF_MIN <=? cluster then ret 0 else walk n cluster
  end.

Definition fat32_get_cluster_for_position (f : fat32_file_t) (pos : Z) : V Z :=
  if f_size f <=? pos then ret 0
  else
    size <~ get (fun s => bytes_per_cluster (params s));;
    if size =? 0 then stop Fault else walk (Z.to_nat (u32 (pos / size))) (entry_cluster (f_entry f)).

(** The cluster is loaded unless it is the current one. *)
Definition need_cluster (f : fat32_file_t) (cluster : Z) : V (error_code_t * fat32_file_t) :=
  if current_cluster f =? cluster then ret (ERR_OK, f) else fat32_load_cluster f cluster.

(** ** Reading *)

Fixpoint file_read_loop (fuel : nat) (f : fat32_file_t) (to_read : Z) : V (list Z * fat32_file_t) :=
  match fuel with
  | O => stop NoFuel
  | S fuel =>
      if to_read <=? 0 then ret ([], f)
      else
        cluster <~ fat32_get_cluster_for_position f (position f);;
        if cluster <? 2 then ret ([], f)
        else
          l <~ need_cluster f cluster;;
          let f := snd l in
          if negb (bool_decide (fst l = ERR_OK)) then ret ([], f)
          else
            size <~ get (fun s => bytes_per_cluster (params s));;
            let offset := position f mod size in
            let n := Z.min to_read (size - offset) in
            xs <~ rd (cluster_buffer f) offset (Z.to_nat n);;
            r <~ file_read_loop fuel (with_position f (u64 (position f + n)) (f_size f)) (to_read - n);;
            ret (xs ++ fst r, snd r)
  end.

Definition read_file (f : fat32_file_t) (count : Z) : V (list Z * fat32_file_t) :=
  if f_size f <=? position f then ret ([], f)
  else let to_read := Z.min count (f_size f - position f) in file_read_loop (S (Z.to_nat to_read)) f to_read.

(** ** Writing *)

(** Link [cluster] behind the last cluster of the chain of [current]. *)
Fixpoint link_last (fuel : nat) (current cluster : Z) : V unit :=
  match fuel with
  | O => stop NoFuel
  | S fuel =>
      next <~ fat32_get_next_cluster dev current;;
      if FAT32_CLUSTER_EOF_MIN <=? next then
        fat32_set_next_cluster dev current cluster;;; fat32_set_next_cluster dev cluster FAT32_CLUSTER_EOF_MIN;;; ret tt
      else link_last fuel next cluster
  end.

(** A new cluster at the end of the file, which becomes the current one; [None]: no cluster
    or no memory. *)
Definition append_cluster (f : fat32_file_t) : V (option Z * fat32_file_t) :=
  cluster <~ fat32_alloc_cluster dev;;
  if cluster <? 2 then ret (None, f)
  else
    p <~ get params;;
    let first := entry_cluster (f_entry f) in
    f <~ (if 2 <=? first then link_last (S (S (Z.to_nat (total_clusters p)))) first cluster;;; ret f
          else fat32_set_next_cluster dev cluster FAT32_CLUSTER_EOF_MIN;;; ret (with_entry f (set_first (f_entry f) cluster)));;
    b <~ (if bool_decide (cluster_buffer f = []) then kmalloc mem_ok garbage (bytes_per_cluster p) else ret (cluster_buffer f));;
    if bool_decide (b = []) then ret (None, with_buffer f cluster [] (cluster_dirty f))
    else ret (Some cluster, with_buffer f cluster (replicate (Z.to_nat (bytes_per_cluster p)) 0) (cluster_dirty f)).

Fixpoint file_write_loop (fuel : nat) (f : fat32_file_t) (src : list Z) : V (Z * fat32_file_t) :=
  match fuel with
  | O => stop NoFuel
  | S fuel =>
      if bool_decide (src = []) then ret (0, f)
      else
        cluster <~ fat32_get_cluster_for_position f (position f);;
        a <~ (if cluster <? 2 then append_cluster f else ret (Some cluster, f));;
        match fst a with
        | None => ret (0, snd a)
        | Some cluster =>
            l <~ need_cluster (snd a) cluster;;
            let f := snd l in
            if negb (bool_decide (fst l = ERR_OK)) then ret (0, f)
            else
              size <~ get (fun s => bytes_per_cluster (params s));;
              if size =? 0 then stop Fault
              else
                let offset := position f mod size in
                let n := Z.min (Z.of_nat (length src)) (size - offset) in
                b <~ wr (cluster_buffer f) offset (take (Z.to_nat n) src);;
                let pos := u64 (position f + n) in
                r <~ file_write_loop fuel (with_position (with_buffer f (current_cluster f) b true) pos (Z.max (f_size f) pos)) (drop (Z.to_nat n) src);;
                ret (n + fst r, snd r)
        end
  end.

Definition write_file (f : fat32_file_t) (src : list Z) : V (error_code_t * Z * fat32_file_t) :=
  if has_any (attributes (f_entry f)) FAT32_ATTR_READ_ONLY then ret (ERR_PERMISSION_DENIED, 0, f)
  else r <~ file_write_loop (S (length src)) f src;; ret (ERR_OK, fst r, snd r).

(** ** The handles *)

Definition on_fvol {A} (m : V A) : M A := fun s =>
  match m (fvol s) with
  | Ret a v => Ret a {| fvol := v; fat32_files := fat32_files s; fat32_file_slots := fat32_file_slots s |}
  | Fault => Fault | Deadlock => Deadlock | Panic => Panic | NoFuel => NoFuel
  end.

Definition set_file (i : Z) (f : fat32_file_t) : M unit :=
  modify (fun s => {| fvol := fvol s; fat32_files := (fat32_files s).[i <- f]; fat32_file_slots := fat32_file_slots s |}).
Definition set_slot (i : Z) (b : bool) : M unit :=
  modify (fun s => {| fvol := fvol s; fat32_files := fat32_files s; fat32_file_slots := (fat32_file_slots s).[i <- b] |}).

Definition zero_file : fat32_file_t :=
  {| f_entry := replicate 32 0; current_cluster := 0; position := 0; f_size := 0; cluster_buffer := []; cluster_dirty := false |}.

Definition fat32_alloc_file : M (option Z) :=
  slots <~ get fat32_file_slots;;
  match find_first (fun i => negb (slots i)) 0 (Z.to_nat MAX_FAT32_FILES) with
  | None => ret None
  | Some i => set_slot i true;;; set_file i zero_file;;; ret (Some i)
  end.

(** Errors of the write are ignored. *)
Definition fat32_free_file (i : Z) : M unit :=
  f <~ get (fun s => fat32_files s i);;
  (if must_write f then on_fvol (fat32_write_cluster dev (current_cluster f) (cluster_buffer f));;; set_file i (with_buffer f (current_cluster f) [] false)
   else set_file i (with_buffer f (current_cluster f) [] (cluster_dirty f)));;;
  set_slot i false.

(** ** The operations *)

Definition fat32_file_open (now : rtc_time_t) (path : list Z) (flags : Z) : M (error_code_t * option Z) :=
  u <~ on_fvol (uninit garbage ENTRY_SIZE);;
  r <~ on_fvol (fat32_find_file dev mem_ok garbage path u);;
  r <~ (if bool_decide (fst r = ERR_OK) then ret r
        else if has_any flags VFS_MODE_CREATE then on_fvol (fat32_create_file dev mem_ok garbage now path) else ret (ERR_NOT_FOUND, []));;
  if negb (bool_decide (fst r = ERR_OK)) then ret (fst r, None)
  else
    let entry := snd r in
    if is_directory entry then ret (ERR_IS_DIRECTORY, None)
    else
      h <~ fat32_alloc_file;;
      match h with
      | None => ret (ERR_OUT_OF_MEMORY, None)
      | Some i =>
          let f := {| f_entry := entry; current_cluster := 0; position := 0; f_size := file_size entry; cluster_buffer := []; cluster_dirty := false |} in
          set_file i f;;;
          if (2 <=? entry_cluster entry) && (0 <? f_size f) then
            l <~ on_fvol (fat32_load_cluster f (entry_cluster entry));;
            set_file i (snd l);;;
            if negb (bool_decide (fst l = ERR_OK)) then fat32_free_file i;;; ret (fst l, None) else ret (ERR_OK, Some i)
          else ret (ERR_OK, Some i)
      end.

(** The handle of a descriptor. *)
Definition with_file {A} (fd : option Z) (null : A) (k : Z -> M A) : M A :=
  match fd with
  | None => ret null
  | Some i => if (0 <=? i) && (i <? MAX_FAT32_FILES) then k i else stop Fault
  end.

Definition fat32_file_close (fd : option Z) : M error_code_t := with_file fd ERR_INVALID_ARG (fun i => fat32_free_file i;;; ret ERR_OK).

(** The error code and the bytes that are stored in the buffer of the caller. *)
Definition fat32_file_read (fd : option Z) (count : Z) : M (error_code_t * list Z) :=
  with_file fd (ERR_INVALID_ARG, []) (fun i =>
    f <~ get (fun s => fat32_files s i);; r <~ on_fvol (read_file f count);; set_file i (snd r);;; ret (ERR_OK, fst r)).

(** The error code and the number of bytes written. *)
Definition fat32_file_write (fd : option Z) (src : list Z) : M (error_code_t * Z) :=
  with_file fd (ERR_INVALID_ARG, 0) (fun i =>
    f <~ get (fun s => fat32_files s i);; r <~ on_fvol (write_file f src);; set_file i (snd r);;; ret (fst r)).

Definition fat32_file_seek (fd : option Z) (offset whence : Z) : M error_code_t :=
  with_file fd ERR_INVALID_ARG (fun i =>
    f <~ get (fun s => fat32_files s i);;
    let to new := set_file i (with_position f (Z.min new (f_size f)) (f_size f));;; ret ERR_OK in
    if whence =? 0 then to (u64 offset)
    else if whence =? 1 then to (u64 (position f + offset))
    else if whence =? 2 then to (u64 (f_size f + offset))
    else ret ERR_INVALID_ARG).

Definition fat32_file_tell (fd : option Z) : M (error_code_t * Z) :=
  with_file fd (ERR_INVALID_ARG, 0) (fun i => f <~ get (fun s => fat32_files s i);; ret (ERR_OK, position f)).

End files.

(** ** Blocks of the same length *)

Lemma buf_write_app_l (a b l : list Z) (o : nat) : (o + length l <= length a)%nat -> buf_write (a ++ b) o l = buf_write a o l ++ b.
Proof. intros H. unfold buf_write. rewrite take_app_le by lia. rewrite drop_app_le by lia. by rewrite <- !app_assoc. Qed.

Lemma buf_write_app_r (a b l : list Z) (o : nat) : (length a <= o)%nat -> buf_write (a ++ b) o l = a ++ buf_write b (o - length a) l.
Proof.
  intros H. unfold buf_write. rewrite take_app_ge by lia. rewrite drop_app_ge by lia. rewrite <- !app_assoc. do 4 f_equal. lia.
Qed.

Lemma concat_write (z o : nat) (l : list Z) (bs : list (list Z)) : forall i b, Forall (fun b => length b = z) bs -> bs !! i = Some b -> (o + length l <= z)%nat ->
  buf_write (concat bs) (i * z + o) l = concat (<[i := buf_write b o l]> bs).
Proof.
  induction bs as [|x bs IH]; intros [|i] b Hz Hb Hn; apply Forall_cons_1 in Hz as [Hx Hz] || done; cbn [concat].
  - injection Hb as ->. rewrite Nat.mul_0_l, Nat.add_0_l. cbn. by rewrite buf_write_app_l by lia.
  - rewrite buf_write_app_r by lia. change (<[S i := ?y]> (x :: bs)) with (x :: <[i := y]> bs). cbn [concat]. rewrite <- IH by done. do 2 f_equal. lia.
Qed.

Lemma buf_write_two (x a b : list Z) (o : nat) : (o + length a + length b <= length x)%nat -> buf_write (buf_write x o a) (o + length a) b = buf_write x o (a ++ b).
Proof.
  intros H. unfold buf_write. rewrite length_app. rewrite (app_assoc (take o x) a). rewrite take_app_length' by (rewrite length_app, length_take; lia). rewrite drop_app_ge by (rewrite length_app, length_take; lia).
  rewrite drop_drop, <- !app_assoc. do 4 f_equal. rewrite length_app, length_take. lia.
Qed.

Lemma buf_write_nil (x : list Z) (o : nat) : buf_write x o [] = x.
Proof. unfold buf_write. cbn [app length]. rewrite Nat.add_0_r. apply take_drop. Qed.

Lemma take_write (x l : list Z) (o n : nat) : (o + length l <= n)%nat -> (n <= length x)%nat -> take n (buf_write x o l) = buf_write (take n x) o l.
Proof.
  intros H Hx. unfold buf_write. rewrite !take_app, !length_take. rewrite !take_take, skipn_firstn_comm. replace (o `min` n)%nat with (n `min` o)%nat by lia. f_equal.
  rewrite (take_ge l) by lia. do 2 f_equal. lia.
Qed.

(** ** A file as a sequence of bytes *)

Section sessions.
  Context {D : Type} (dev : block_device_t D) (medium : D -> Z -> list Z) `{Hdisk : !Disk dev medium}.
  Context (mem_ok : nat -> bool) (garbage : nat -> nat -> Z) (mem_ok_all : forall n, mem_ok n = true).

#[local] Abbreviation st := (fat32 D).
#[local] Abbreviation represents := (Fat.represents dev medium).
#[local] Abbreviation cluster_data := (Fat.cluster_data medium).
#[local] Open Scope effect_scope.

(** A cluster as the handle sees it: the buffer, if it holds this cluster. *)
Definition view (s : st) (f : fat32_file_t) (c : Z) : list Z :=
  if decide (cluster_buffer f <> [] /\ c = current_cluster f) then cluster_buffer f else cluster_data s c.

Definition file_bytes (s : st) (l : list Z) (f : fat32_file_t) : list Z := concat (view s f <$> l).

(** A handle for a file with the clusters [l]. *)
Record file_ok (s : st) (t : arr Z) (l : list Z) (f : fat32_file_t) : Prop := {
  fo_rep : represents s t;
  fo_chain : file_chain (total_clusters (params s)) t (entry_cluster (f_entry f)) l;
  fo_size : 0 <= f_size f <= Z.of_nat (length l) * bytes_per_cluster (params s) /\ f_size f < 2 ^ 32;
  fo_pos : 0 <= position f <= f_size f;
  fo_buffer : (cluster_buffer f = [] /\ current_cluster f = 0 /\ cluster_dirty f = false) \/
    (current_cluster f ∈ l /\ length (cluster_buffer f) = Z.to_nat (bytes_per_cluster (params s)) /\ bytes (cluster_buffer f) /\
     (cluster_dirty f = false -> cluster_buffer f = cluster_data s (current_cluster f)))
}.

(** Only the clusters [l] change. *)
Record touched (l : list Z) (s s' : st) : Prop := {
  tch_params : params s' = params s;
  tch_others : forall c, (c ∉ l) -> cluster_data s' c = cluster_data s c;
  tch_tables : forall m, m < data_start_sector (params s) -> medium (disk s') m = medium (disk s) m
}.

Lemma touched_unchanged l s s' : unchanged medium s s' -> touched l s s'.
Proof. intros Hu. split; [apply Hu|by intros c _; apply cluster_data_unchanged|by intros m _; apply Hu]. Qed.

Lemma touched_trans l s s' s'' : touched l s s' -> touched l s' s'' -> touched l s s''.
Proof. intros [Hp Ho Ht] [Hp' Ho' Ht']. split; [congruence|intros c Hc; by rewrite Ho', Ho|intros m Hm; rewrite Ht' by (by rewrite Hp); by apply Ht]. Qed.

(** [f'] is the handle [f], perhaps with another cluster in its buffer. *)
Definition same_file (f f' : fat32_file_t) : Prop := f_entry f' = f_entry f /\ position f' = position f /\ f_size f' = f_size f.

Lemma walk_spec n : forall c l s t, represents s t -> file_chain (total_clusters (params s)) t c l -> (n < length l)%nat ->
  runs (walk dev n c) (fun v s' => l !! n = Some v /\ represents s' t /\ unchanged medium s s') s.
Proof.
  induction n as [|n IH]; intros c [|x l] s t Hr Hl Hn; cbn [length walk file_chain] in *; try lia; destruct Hl as (-> & Hx & H0 & Hl).
  { apply runs_ret. split; [done|]. split; [done|apply (unchanged_refl medium)]. }
  pose proof (geo_clusters _ _ (mnt_geo _ _ _ (proj1 Hr))) as Hmax. eapply runs_bind; [apply (get_next_runs dev medium); [apply Hr|exact Hx]|]. intros v s1 (-> & Hm1 & Hu1). rewrite (proj2 Hr x Hx).
  destruct l as [|y l]; cbn [length] in Hn; [lia|]. assert (Hty : t x = y /\ 2 <= y < total_clusters (params s) + 2) by (destruct Hl as (H1 & H2 & _); exact (conj H1 H2)). destruct Hty as [Ht Hy]. rewrite Ht in *.
  replace (FAT32_CLUSTER_EOF_MIN <=? y) with false by (unfold FAT32_CLUSTER_EOF_MIN; lia).
  eapply runs_mono; [apply (IH y (y :: l) s1 t); [by apply (represents_unchanged _ _ s)|by rewrite (proj1 Hu1)|cbn [length]; lia]|].
  intros v s2 (Hv & Hr2 & Hu2). split; [done|]. split; [done|by eapply fat_unchanged_trans].
Qed.

Lemma view_length s t l f c : file_ok s t l f -> length (view s f c) = Z.to_nat (bytes_per_cluster (params s)).
Proof.
  intros Hf. unfold view. destruct (decide _) as [[Hb _]|_]; [|apply (cluster_length dev medium), (fo_rep _ _ _ _ Hf)]. destruct (fo_buffer _ _ _ _ Hf) as [(? & _)|(_ & H & _)]; done.
Qed.

Lemma views_length s t l f k : file_ok s t l f -> Forall (fun b => length b = Z.to_nat (bytes_per_cluster (params s))) (view s f <$> k).
Proof. intros Hf. apply Forall_fmap, Forall_true. intros c. by eapply view_length. Qed.

Lemma file_bytes_length s t l f : file_ok s t l f -> length (file_bytes s l f) = (length l * Z.to_nat (bytes_per_cluster (params s)))%nat.
Proof. intros Hf. unfold file_bytes. rewrite (concat_length (Z.to_nat (bytes_per_cluster (params s)))) by (by eapply views_length). by rewrite length_fmap. Qed.

(** The cluster of a position in the file. *)
Lemma position_spec s t l f pos : file_ok s t l f -> 0 <= pos < f_size f ->
  runs (fat32_get_cluster_for_position dev f pos) (fun c s' => l !! Z.to_nat (pos / bytes_per_cluster (params s)) = Some c /\ represents s' t /\ unchanged medium s s') s.
Proof.
  intros Hf Hp. pose proof (fo_rep _ _ _ _ Hf) as Hr. pose proof (cluster_size _ _ _ _ Hr) as Hz. destruct (fo_size _ _ _ _ Hf) as [Hs Hs32]. pose proof (geo_clusters _ _ (mnt_geo _ _ _ (proj1 Hr))) as Hmax.
  assert (Hlen : (length l <= Z.to_nat (total_clusters (params s)))%nat) by (eapply fat_chain_length; apply file_chain_chain; [lia|apply (fo_chain _ _ _ _ Hf)]).
  assert (Hq : 0 <= pos / bytes_per_cluster (params s) < Z.of_nat (length l)) by (split; [apply Z.div_pos; lia|apply Z.div_lt_upper_bound; lia]).
  unfold fat32_get_cluster_for_position. replace (f_size f <=? pos) with false by lia. eapply runs_step; [reflexivity|]. cbv beta. rewrite (proj2 (Z.eqb_neq _ 0)) by lia.
  rewrite (wrap_small 32) by fits_lia. apply walk_spec; [done|apply (fo_chain _ _ _ _ Hf)|lia].
Qed.

Lemma clean_view s t l f x : file_ok s t l f -> cluster_dirty f = false -> view s f x = cluster_data s x.
Proof. intros Hf Hd. unfold view. destruct (decide _) as [[Hb ->]|_]; [|done]. destruct (fo_buffer _ _ _ _ Hf) as [(? & _)|(_ & _ & _ & H)]; [done|by apply H]. Qed.

Lemma must_write_dirty s t l f : file_ok s t l f -> must_write f = cluster_dirty f.
Proof.
  intros Hf. unfold must_write. destruct (cluster_dirty f) eqn:Hd; [|done]. destruct (fo_buffer _ _ _ _ Hf) as [(_ & _ & ?)|(Hc & Hl & _)]; [congruence|].
  pose proof (file_chain_valid _ _ _ _ _ (fo_chain _ _ _ _ Hf) Hc). pose proof (cluster_size _ _ _ _ (fo_rep _ _ _ _ Hf)). rewrite bool_decide_false by (intros E; rewrite E in Hl; cbn in Hl; lia). cbn. lia.
Qed.

(** The buffer is written to its cluster. *)
Lemma flush_spec s t l f : file_ok s t l f -> cluster_dirty f = true ->
  runs (fat32_write_cluster dev (current_cluster f) (cluster_buffer f)) (fun e s' => e = ERR_OK /\ represents s' t /\ touched l s s' /\ forall x, cluster_data s' x = view s f x) s.
Proof.
  intros Hf Hd. destruct (fo_buffer _ _ _ _ Hf) as [(_ & _ & ?)|(Hc & Hl & Hb & _)]; [congruence|]. pose proof (fo_rep _ _ _ _ Hf) as Hr. pose proof (file_chain_valid _ _ _ _ _ (fo_chain _ _ _ _ Hf) Hc) as Hv.
  pose proof (cluster_size _ _ _ _ Hr). assert (Hne : cluster_buffer f <> []) by (intros E; rewrite E in Hl; cbn in Hl; lia).
  eapply runs_mono; [by apply (write_cluster_runs dev medium s t)|]. intros e s' (-> & Hr' & Hp & Hc' & Ho & Ht). split; [done|]. split; [done|]. split.
  - split; [done| |done]. intros c Hcl. apply Ho. by intros ->.
  - intros x. unfold view. destruct (decide _) as [[_ ->]|Hx]; [done|]. apply Ho. intros ->. by apply Hx.
Qed.

Lemma file_ok_state s s' t l f f' : file_ok s t l f -> represents s' t -> params s' = params s -> f_entry f' = f_entry f -> f_size f' = f_size f -> 0 <= position f' <= f_size f ->
  ((cluster_buffer f' = [] /\ current_cluster f' = 0 /\ cluster_dirty f' = false) \/
   (current_cluster f' ∈ l /\ length (cluster_buffer f') = Z.to_nat (bytes_per_cluster (params s)) /\ bytes (cluster_buffer f') /\ (cluster_dirty f' = false -> cluster_buffer f' = cluster_data s' (current_cluster f')))) ->
  file_ok s' t l f'.
Proof. intros Hf Hr Hp He Hs Hpos Hb. split; [done|rewrite Hp, He; apply Hf|rewrite Hp, Hs; apply Hf|by rewrite Hs|by rewrite Hp]. Qed.

(** What loading a cluster achieves: the bytes of the file are the same through the handle. *)
Definition loads (s : st) (t : arr Z) (l : list Z) (f : fat32_file_t) (c : Z) (r : error_code_t * fat32_file_t) (s' : st) : Prop :=
  fst r = ERR_OK /\ file_ok s' t l (snd r) /\ same_file f (snd r) /\ current_cluster (snd r) = c /\ cluster_buffer (snd r) <> [] /\ (forall x, view s' (snd r) x = view s f x) /\ touched l s s'.

(** With nothing to write, the buffer is allocated and filled. *)
Lemma load_clean s t l f c : file_ok s t l f -> c ∈ l -> cluster_dirty f = false -> runs (fat32_load_cluster dev mem_ok garbage f c) (loads s t l f c) s.
Proof.
  intros Hf Hc Hd. pose proof (fo_rep _ _ _ _ Hf) as Hr. pose proof (file_chain_valid _ _ _ _ _ (fo_chain _ _ _ _ Hf) Hc) as Hv. pose proof (cluster_size _ _ _ _ Hr) as Hz.
  unfold fat32_load_cluster. replace (c <? 2) with false by lia. rewrite (must_write_dirty s t l) by done. rewrite Hd. eapply runs_step; [reflexivity|]. cbn [fst snd]. rewrite bool_decide_true by done. cbn [negb].
  eapply runs_step; [reflexivity|]. cbv beta.
  eapply (runs_bind _ _ (fun b s1 => length b = Z.to_nat (bytes_per_cluster (params s)) /\ b <> [] /\ represents s1 t /\ unchanged medium s s1)).
  { case_bool_decide as Hb; [by apply (kmalloc_spec dev medium)|]. apply runs_ret. destruct (fo_buffer _ _ _ _ Hf) as [(? & _)|(_ & Hl & _)]; [done|]. split; [done|]. split; [done|]. split; [done|apply (unchanged_refl medium)]. }
  intros b s1 (Hl & Hb & Hr1 & Hu1). rewrite bool_decide_false by done. pose proof (proj1 Hu1) as Hp1.
  eapply runs_bind; [apply (read_cluster_runs dev medium); [apply Hr1|unfold valid; by rewrite Hp1|by rewrite Hp1]|]. intros r s2 (-> & Hm2 & Hu2). cbn [fst snd]. rewrite bool_decide_true by done. cbn [negb].
  pose proof (fat_unchanged_trans _ _ _ _ Hu1 Hu2) as Hu. assert (Hdata : cluster_data s1 c = cluster_data s2 c) by (symmetry; by apply cluster_data_unchanged).
  assert (Hlen : length (cluster_data s2 c) = Z.to_nat (bytes_per_cluster (params s))) by (rewrite <- (proj1 Hu); by apply (cluster_length dev medium)).
  apply runs_ret. unfold loads. cbn [fst snd]. rewrite Hdata, Hd.
  assert (Hok : file_ok s2 t l (with_buffer f c (cluster_data s2 c) false)).
  { apply (file_ok_state s s2 t l f); [done|by apply (represents_unchanged _ _ s1)|apply Hu|done|done|apply Hf|]. right. split; [done|]. split; [done|]. split; [apply (cluster_bytes dev medium)|done]. }
  split; [done|]. split; [done|]. split; [done|]. split; [done|]. split; [intros E; cbn [cluster_buffer with_buffer] in E; rewrite E in Hlen; cbn in Hlen; lia|]. split; [|by apply touched_unchanged].
  intros x. rewrite (clean_view s2 t l), (clean_view s t l) by done. by apply cluster_data_unchanged.
Qed.

Lemma load_spec s t l f c : file_ok s t l f -> c ∈ l -> runs (fat32_load_cluster dev mem_ok garbage f c) (loads s t l f c) s.
Proof.
  intros Hf Hc. destruct (cluster_dirty f) eqn:Hd; [|by apply load_clean]. pose proof (file_chain_valid _ _ _ _ _ (fo_chain _ _ _ _ Hf) Hc) as Hv.
  destruct (flush_spec s t l f Hf Hd) as (e & s1 & E & -> & Hr1 & Ht1 & Hview). set (f1 := with_buffer f (current_cluster f) (cluster_buffer f) false).
  assert (Hne : cluster_buffer f <> []) by (intros Hb; pose proof (must_write_dirty s t l f Hf) as Hm; unfold must_write in Hm; rewrite Hd, Hb in Hm; done).
  assert (Hok : file_ok s1 t l f1).
  { apply (file_ok_state s s1 t l f); [done|done|apply Ht1|done|done|apply Hf|]. right. destruct (fo_buffer _ _ _ _ Hf) as [(_ & _ & ?)|(? & ? & ? & _)]; [congruence|]. split; [done|]. split; [done|]. split; [done|].
    intros _. rewrite Hview. unfold view. by rewrite decide_True. }
  destruct (load_clean s1 t l f1 c Hok Hc eq_refl) as (r & s2 & E2 & H1 & H2 & H3 & H4 & H5 & H6 & H7). exists r, s2. split.
  - rewrite <- E2. unfold fat32_load_cluster. replace (c <? 2) with false by lia. rewrite (must_write_dirty s t l), (must_write_dirty s1 t l), Hd by done. cbn [cluster_dirty f1 with_buffer].
    erewrite bind_run by (erewrite bind_run by exact E; reflexivity). cbn [fst snd]. rewrite bool_decide_true by done. by erewrite (bind_run (ret (ERR_OK, f1))) by reflexivity.
  - split; [done|]. split; [done|]. split; [done|]. split; [done|]. split; [done|]. split; [|by eapply touched_trans]. intros x. rewrite H6, (clean_view s1 t l) by done. apply Hview.
Qed.

Lemma need_spec s t l f c : file_ok s t l f -> c ∈ l -> runs (need_cluster dev mem_ok garbage f c) (loads s t l f c) s.
Proof.
  intros Hf Hc. unfold need_cluster. destruct (Z.eqb_spec (current_cluster f) c) as [E|_]; [|by apply load_spec]. apply runs_ret. split; [done|]. split; [done|]. split; [done|]. split; [done|]. split.
  - pose proof (file_chain_valid _ _ _ _ _ (fo_chain _ _ _ _ Hf) Hc). pose proof (cluster_size _ _ _ _ (fo_rep _ _ _ _ Hf)). destruct (fo_buffer _ _ _ _ Hf) as [(_ & ? & _)|(_ & Hl & _)]; [lia|]. intros Eb. cbn [snd] in Eb. rewrite Eb in Hl. cbn in Hl. lia.
  - split; [done|]. apply touched_unchanged, (unchanged_refl medium).
Qed.

Lemma file_bytes_views s s' l f f' : (forall x, view s' f' x = view s f x) -> file_bytes s' l f' = file_bytes s l f.
Proof. intros H. unfold file_bytes. f_equal. apply list_fmap_ext. intros i x _. apply H. Qed.

(** Where a position is: the cluster, its place in the file and the offset in it. *)
Lemma position_split s t l f pos : file_ok s t l f -> 0 <= pos < f_size f -> let z := bytes_per_cluster (params s) in
  0 < z /\ (Z.to_nat pos = Z.to_nat (pos / z) * Z.to_nat z + Z.to_nat (pos mod z))%nat /\ 0 <= pos mod z < z.
Proof.
  intros Hf Hp z. pose proof (cluster_size _ _ _ _ (fo_rep _ _ _ _ Hf)) as Hz. fold z in Hz. pose proof (Z.div_mod pos z ltac:(lia)). pose proof (Z.mod_pos_bound pos z Hz). assert (0 <= pos / z) by (apply Z.div_pos; lia).
  split; [done|]. split; [|done]. apply Nat2Z.inj. rewrite Nat2Z.inj_add, Nat2Z.inj_mul, !Z2Nat.id by lia. lia.
Qed.

(** The next bytes are those of the buffer at the offset of the position. *)
Lemma buffer_read s t l f c n : file_ok s t l f -> l !! Z.to_nat (position f / bytes_per_cluster (params s)) = Some c -> current_cluster f = c -> cluster_buffer f <> [] -> position f < f_size f ->
  0 <= n <= bytes_per_cluster (params s) - position f mod bytes_per_cluster (params s) ->
  take (Z.to_nat n) (drop (Z.to_nat (position f)) (file_bytes s l f)) = take (Z.to_nat n) (drop (Z.to_nat (position f mod bytes_per_cluster (params s))) (cluster_buffer f)).
Proof.
  intros Hf Hl Hc Hb Hp Hn. destruct (position_split s t l f (position f) Hf) as (Hz & Hs & Hm); [pose proof (fo_pos _ _ _ _ Hf); lia|]. rewrite Hs.
  apply concat_read; [by eapply views_length| |lia]. rewrite list_lookup_fmap, Hl. cbn. unfold view. by rewrite decide_True.
Qed.

(** The handle after [n] more bytes, with the bytes [content] of the file. *)
Record moved (s : st) (t : arr Z) (l : list Z) (f : fat32_file_t) (n : Z) (content : list Z) (f' : fat32_file_t) (s' : st) : Prop := {
  mv_ok : file_ok s' t l f';
  mv_entry : f_entry f' = f_entry f;
  mv_size : f_size f' = f_size f;
  mv_pos : position f' = position f + n;
  mv_bytes : file_bytes s' l f' = content;
  mv_touched : touched l s s'
}.

Lemma moved_trans s t l f n b f' s' m b' f'' s'' : moved s t l f n b f' s' -> moved s' t l f' m b' f'' s'' -> moved s t l f (n + m) b' f'' s''.
Proof. intros [H1 H2 H3 H4 H5 H6] [H1' H2' H3' H4' H5' H6']. split; [done|congruence|congruence|rewrite H4', H4; lia|done|by eapply touched_trans]. Qed.

Lemma moved_refl s t l f : file_ok s t l f -> moved s t l f 0 (file_bytes s l f) f s.
Proof. intros Hf. split; try done. lia. Qed.

Lemma take_split (n m o : nat) (x : list Z) : take n (drop o x) ++ take m (drop (o + n) x) = take (n + m) (drop o x).
Proof. rewrite <- drop_drop. apply take_take_drop. Qed.

(** The handle [f'] has the cluster of its position in its buffer. *)
Record ready (s : st) (t : arr Z) (l : list Z) (f : fat32_file_t) (c : Z) (f' : fat32_file_t) (s' : st) : Prop := {
  rd_ok : file_ok s' t l f';
  rd_same : same_file f f';
  rd_params : params s' = params s;
  rd_cluster : l !! Z.to_nat (position f / bytes_per_cluster (params s)) = Some c;
  rd_current : current_cluster f' = c;
  rd_buffer : cluster_buffer f' <> [] /\ length (cluster_buffer f') = Z.to_nat (bytes_per_cluster (params s));
  rd_bytes : file_bytes s' l f' = file_bytes s l f;
  rd_touched : touched l s s'
}.

(** Both loops start with finding and loading the cluster of the position. *)
Lemma ready_spec s t l f : file_ok s t l f -> position f < f_size f ->
  exists c s1 f' s', fat32_get_cluster_for_position dev f (position f) s = Ret c s1 /\ 2 <= c /\ need_cluster dev mem_ok garbage f c s1 = Ret (ERR_OK, f') s' /\ ready s t l f c f' s'.
Proof.
  intros Hf Hlt. pose proof (fo_pos _ _ _ _ Hf) as Hpos. destruct (position_spec s t l f (position f) Hf) as (c & s1 & E1 & Hc & Hr1 & Hu1); [lia|].
  assert (Hin : c ∈ l) by (by apply list_elem_of_lookup_2 in Hc). pose proof (file_chain_valid _ _ _ _ _ (fo_chain _ _ _ _ Hf) Hin) as Hv.
  assert (Hview1 : forall x, view s1 f x = view s f x) by (intros x; unfold view; by rewrite (cluster_data_unchanged medium s s1)).
  assert (Hf1 : file_ok s1 t l f).
  { apply (file_ok_state s s1 t l f); [done|done|apply Hu1|done|done|done|]. destruct (fo_buffer _ _ _ _ Hf) as [H|(? & ? & ? & H)]; [by left|right]. split; [done|]. split; [done|]. split; [done|].
    intros Hd. rewrite (cluster_data_unchanged medium s s1) by done. by apply H. }
  destruct (need_spec s1 t l f c Hf1 Hin) as ([e f'] & s2 & E2 & He & Hf2 & Hsame & Hcur & Hbuf & Hview2 & Ht2). cbn [fst snd] in *. subst e.
  assert (Hp2 : params s2 = params s) by (rewrite (tch_params _ _ _ Ht2); apply Hu1). exists c, s1, f', s2. split; [done|]. split; [lia|]. split; [done|].
  split; try done; [|by apply file_bytes_views; intros x; rewrite Hview2, Hview1|eapply touched_trans; [by apply touched_unchanged|done]].
  split; [done|]. destruct (fo_buffer _ _ _ _ Hf2) as [(? & _)|(_ & H & _)]; [done|by rewrite H, Hp2].
Qed.

Lemma read_loop_spec fuel : forall k f s t l, file_ok s t l f -> 0 <= k <= f_size f - position f -> (Z.to_nat k < fuel)%nat ->
  runs (file_read_loop dev mem_ok garbage fuel f k)
    (fun r s' => fst r = take (Z.to_nat k) (drop (Z.to_nat (position f)) (file_bytes s l f)) /\ moved s t l f k (file_bytes s l f) (snd r) s') s.
Proof.
  induction fuel as [|fuel IH]; intros k f s t l Hf Hk Hfuel; [lia|]. cbn [file_read_loop]. pose proof (fo_pos _ _ _ _ Hf) as Hpos. destruct (Z.leb_spec k 0) as [Hle|Hgt].
  { replace k with 0 by lia. apply runs_ret. split; [done|]. split; try done. cbn [snd]. lia. }
  destruct (position_split s t l f (position f) Hf) as (Hz & Hs & Hm); [lia|]. destruct (ready_spec s t l f Hf) as (c & s1 & f' & s2 & E1 & Hc & E2 & [Hf2 (Hfe & Hfp & Hfs) Hp2 Hat Hcur [Hbuf Hlen] Hb2 Ht2]); [lia|].
  eapply runs_step; [exact E1|]. replace (c <? 2) with false by lia. eapply runs_step; [exact E2|]. cbn [fst snd]. rewrite bool_decide_true by done. cbn [negb].
  eapply runs_step; [reflexivity|]. cbv beta. rewrite Hp2, Hfp, Hfs. set (z := bytes_per_cluster (params s)) in *. set (n := Z.min k (z - position f mod z)). assert (Hn : 0 < n <= k) by lia.
  eapply runs_step; [apply rd_run; lia|]. destruct (fo_size _ _ _ _ Hf) as [_ H32]. rewrite (wrap_small 64) by fits_lia.
  assert (Hread : take (Z.to_nat n) (drop (Z.to_nat (position f mod z)) (cluster_buffer f')) = take (Z.to_nat n) (drop (Z.to_nat (position f)) (file_bytes s l f))).
  { rewrite <- Hb2. unfold z. rewrite <- Hp2, <- Hfp. symmetry. apply (buffer_read s2 t l _ c); try done; rewrite ?Hp2, ?Hfp; [done|lia|]. fold z. lia. }
  assert (Hmv : moved s t l f n (file_bytes s l f) (with_position f' (position f + n) (f_size f)) s2).
  { split; [|done|done|done|done|done]. apply (file_ok_state s2 s2 t l f'); try done; [apply Hf2|cbn [position with_position]; lia|apply (fo_buffer _ _ _ _ Hf2)]. }
  eapply runs_bind; [apply (IH (k - n) (with_position f' (position f + n) (f_size f)) s2 t l); [apply Hmv|cbn [f_size position with_position]; lia|lia]|].
  intros q s3 (Hq & Hmv3). apply runs_ret. cbn [fst snd]. rewrite (mv_bytes _ _ _ _ _ _ _ _ Hmv) in Hq, Hmv3. split.
  - rewrite Hq, Hread. cbn [position with_position]. replace (Z.to_nat (position f + n)) with (Z.to_nat (position f) + Z.to_nat n)%nat by lia. rewrite take_split. f_equal. lia.
  - replace k with (n + (k - n)) by lia. by eapply moved_trans.
Qed.

(** Bytes that are stored in the buffer are stored in the file. *)
Lemma buffer_write s t l f c xs (f' := with_buffer f (current_cluster f) (buf_write (cluster_buffer f) (Z.to_nat (position f mod bytes_per_cluster (params s))) xs) true) :
  file_ok s t l f -> l !! Z.to_nat (position f / bytes_per_cluster (params s)) = Some c -> current_cluster f = c -> cluster_buffer f <> [] -> position f < f_size f -> bytes xs ->
  Z.of_nat (length xs) <= bytes_per_cluster (params s) - position f mod bytes_per_cluster (params s) ->
  file_ok s t l f' /\ file_bytes s l f' = buf_write (file_bytes s l f) (Z.to_nat (position f)) xs.
Proof.
  intros Hf Hl Hc Hb Hp Hxs Hn. destruct (position_split s t l f (position f) Hf) as (Hz & Hs & Hm); [pose proof (fo_pos _ _ _ _ Hf); lia|]. set (z := bytes_per_cluster (params s)) in *.
  destruct (fo_buffer _ _ _ _ Hf) as [(? & _)|(Hin & Hlen & Hbb & _)]; [done|]. fold z in Hlen.
  assert (Hlen' : length (cluster_buffer f') = Z.to_nat z) by (cbn [f' cluster_buffer with_buffer]; rewrite buf_write_length; lia).
  assert (Hok : file_ok s t l f') by (apply (file_ok_state s s t l f); [done|apply Hf|done|done|done|apply Hf|]; right; split; [done|]; split; [done|]; split; [by apply buf_write_bytes|done]).
  split; [done|]. rewrite Hs. unfold file_bytes. erewrite concat_write; [|by eapply views_length|rewrite list_lookup_fmap, Hl; reflexivity|fold z; lia]. fold z. f_equal.
  assert (Hnd : NoDup l) by (eapply chain_NoDup, file_chain_chain; [|apply (fo_chain _ _ _ _ Hf)]; apply (geo_clusters _ _ (mnt_geo _ _ _ (proj1 (fo_rep _ _ _ _ Hf))))).
  assert (Hb' : cluster_buffer f' <> []) by (intros E; rewrite E in Hlen'; cbn in Hlen'; lia). apply list_eq. intros j. rewrite list_lookup_fmap. destruct (decide (j = Z.to_nat (position f / z))) as [->|Hne].
  - rewrite list_lookup_insert_eq by (rewrite length_fmap; by eapply lookup_lt_Some). rewrite Hl. cbn [fmap option_fmap option_map]. f_equal. subst c. unfold view. rewrite decide_True by done. by rewrite decide_True by done.
  - rewrite list_lookup_insert_ne, list_lookup_fmap by done. destruct (l !! j) as [x|] eqn:Hx; [|done]. cbn [fmap option_fmap option_map]. f_equal. unfold view.
    assert (x <> c) by (intros ->; apply Hne; by eapply NoDup_lookup). rewrite !decide_False by (intros [_ Hx']; cbn in Hx'; congruence). done.
Qed.

Lemma write_loop_spec fuel : forall xs f s t l, file_ok s t l f -> bytes xs -> Z.of_nat (length xs) <= f_size f - position f -> (length xs < fuel)%nat ->
  runs (file_write_loop dev mem_ok garbage fuel f xs)
    (fun r s' => fst r = Z.of_nat (length xs) /\ moved s t l f (Z.of_nat (length xs)) (buf_write (file_bytes s l f) (Z.to_nat (position f)) xs) (snd r) s') s.
Proof.
  induction fuel as [|fuel IH]; intros xs f s t l Hf Hxs Hk Hfuel; [lia|]. cbn [file_write_loop]. pose proof (fo_pos _ _ _ _ Hf) as Hpos. case_bool_decide as Hnil.
  { subst xs. apply runs_ret. split; [done|]. rewrite buf_write_nil. split; try done. cbn [snd length]. lia. }
  assert (Hgt : (0 < length xs)%nat) by (destruct xs; [done|cbn; lia]).
  destruct (position_split s t l f (position f) Hf) as (Hz & Hs & Hm); [lia|]. destruct (ready_spec s t l f Hf) as (c & s1 & f' & s2 & E1 & Hc & E2 & [Hf2 (Hfe & Hfp & Hfs) Hp2 Hat Hcur [Hbuf Hlen] Hb2 Ht2]); [lia|].
  eapply runs_step; [exact E1|]. replace (c <? 2) with false by lia. eapply runs_step; [reflexivity|]. cbn [fst snd]. eapply runs_step; [exact E2|]. cbn [fst snd]. rewrite bool_decide_true by done. cbn [negb].
  eapply runs_step; [reflexivity|]. cbv beta. rewrite Hp2, Hfp, Hfs. set (z := bytes_per_cluster (params s)) in *. set (n := Z.min (Z.of_nat (length xs)) (z - position f mod z)). assert (Hn : 0 < n <= Z.of_nat (length xs)) by lia.
  rewrite (proj2 (Z.eqb_neq z 0)) by lia. assert (Hnl : length (take (Z.to_nat n) xs) = Z.to_nat n) by (rewrite length_take; lia).
  eapply runs_step; [apply wr_run; rewrite Hnl; lia|]. destruct (fo_size _ _ _ _ Hf) as [_ H32]. rewrite (wrap_small 64) by fits_lia. rewrite Z.max_l by lia. set (f2 := with_buffer _ _ _ _).
  destruct (buffer_write s2 t l f' c (take (Z.to_nat n) xs)) as [Hok Hbw]; try done; [by rewrite Hp2, Hfp|lia|by apply Forall_take|rewrite Hnl, Hp2, Hfp; fold z; lia|]. rewrite Hp2, Hfp in Hok, Hbw. fold z in Hok, Hbw. fold f2 in Hok, Hbw. rewrite Hb2 in Hbw.
  assert (Hmv : moved s t l f n (buf_write (file_bytes s l f) (Z.to_nat (position f)) (take (Z.to_nat n) xs)) (with_position f2 (position f + n) (f_size f)) s2).
  { split; [|done|done|done|done|done]. apply (file_ok_state s2 s2 t l f2); try done; [apply Hok|cbn [position f_size with_position f2 with_buffer]; lia|apply (fo_buffer _ _ _ _ Hok)]. }
  eapply runs_bind; [apply (IH (drop (Z.to_nat n) xs) (with_position f2 (position f + n) (f_size f)) s2 t l); [apply Hmv|by apply Forall_drop|rewrite length_drop; cbn [f_size position with_position]; lia|rewrite length_drop; lia]|].
  intros q s3 (Hq & Hmv3). apply runs_ret. cbn [fst snd]. rewrite (mv_bytes _ _ _ _ _ _ _ _ Hmv) in Hmv3. rewrite length_drop in Hq, Hmv3. split; [lia|].
  assert (Hfl : length (file_bytes s l f) = (length l * Z.to_nat z)%nat) by (by eapply file_bytes_length). destruct (fo_size _ _ _ _ Hf) as [Hsz _].
  assert (Hcat : buf_write (buf_write (file_bytes s l f) (Z.to_nat (position f)) (take (Z.to_nat n) xs)) (Z.to_nat (position f + n)) (drop (Z.to_nat n) xs) = buf_write (file_bytes s l f) (Z.to_nat (position f)) xs).
  { replace (Z.to_nat (position f + n)) with (Z.to_nat (position f) + length (take (Z.to_nat n) xs))%nat by lia. rewrite buf_write_two; [by rewrite take_drop|]. rewrite Hnl, length_drop, Hfl. nia. }
  rewrite <- Hcat. replace (Z.of_nat (length xs)) with (n + Z.of_nat (length xs - Z.to_nat n)) by lia. by eapply moved_trans.
Qed.

(** ** Operations on an open file *)

Inductive file_op := op_read (count : Z) | op_write (src : list Z) | op_seek (offset whence : Z) | op_tell.

Inductive file_result := res_read (r : error_code_t * list Z) | res_write (r : error_code_t * Z) | res_seek (e : error_code_t) | res_tell (r : error_code_t * Z).

Definition file_call (fd : option Z) (o : file_op) : Effect.M (fat_files D) file_result :=
  match o with
  | op_read n => r <~ fat32_file_read dev mem_ok garbage fd n;; ret (res_read r)
  | op_write xs => r <~ fat32_file_write dev mem_ok garbage fd xs;; ret (res_write r)
  | op_seek o w => r <~ fat32_file_seek fd o w;; ret (res_seek r)
  | op_tell => r <~ fat32_file_tell fd;; ret (res_tell r)
  end.

Fixpoint file_calls (fd : option Z) (l : list file_op) : Effect.M (fat_files D) (list file_result) :=
  match l with [] => ret [] | o :: l => r <~ file_call fd o;; rs <~ file_calls fd l;; ret (r :: rs) end.

(** The specification, on the bytes of the file and the position.  A seek to a place outside
    the file goes to its end, also for a place before its start. *)
Definition file_step (read_only : bool) (o : file_op) (b : list Z * Z) : file_result * (list Z * Z) :=
  let '(content, pos) := b in
  let size := Z.of_nat (length content) in
  let seek target := (res_seek ERR_OK, (content, if (0 <=? target) && (target <=? size) then target else size)) in
  match o with
  | op_read n => let xs := take (Z.to_nat n) (drop (Z.to_nat pos) content) in (res_read (ERR_OK, xs), (content, pos + Z.of_nat (length xs)))
  | op_write xs =>
      if read_only then (res_write (ERR_PERMISSION_DENIED, 0), b)
      else (res_write (ERR_OK, Z.of_nat (length xs)), (buf_write content (Z.to_nat pos) xs, pos + Z.of_nat (length xs)))
  | op_seek o 0 => seek o
  | op_seek o 1 => seek (pos + o)
  | op_seek o 2 => seek (size + o)
  | op_seek _ _ => (res_seek ERR_INVALID_ARG, b)
  | op_tell => (res_tell (ERR_OK, pos), b)
  end.

(** The arguments are integers of their types, and a write stays within the file. *)
Definition op_ok (read_only : bool) (o : file_op) (b : list Z * Z) : Prop :=
  match o with
  | op_read n => fits 64 n
  | op_write xs => bytes xs /\ (read_only = true \/ snd b + Z.of_nat (length xs) <= Z.of_nat (length (fst b)))
  | op_seek o _ => - 2 ^ 63 <= o < 2 ^ 63
  | op_tell => True
  end.

Fixpoint ops_ok (read_only : bool) (l : list file_op) (b : list Z * Z) : Prop :=
  match l with [] => True | o :: l => op_ok read_only o b /\ ops_ok read_only l (snd (file_step read_only o b)) end.

(** The handle [i] is open on a file with the clusters [l], the bytes and the position of [b]. *)
Definition open_at (s : fat_files D) (t : arr Z) (l : list Z) (i : Z) (b : list Z * Z) : Prop :=
  let f := fat32_files s i in
  0 <= i < MAX_FAT32_FILES /\ file_ok (fvol s) t l f /\ fst b = take (Z.to_nat (f_size f)) (file_bytes (fvol s) l f) /\ snd b = position f.

Record still_open (l : list Z) (i : Z) (s s' : fat_files D) : Prop := {
  so_slots : fat32_file_slots s' = fat32_file_slots s;
  so_entry : f_entry (fat32_files s' i) = f_entry (fat32_files s i);
  so_size : f_size (fat32_files s' i) = f_size (fat32_files s i);
  so_touched : touched l (fvol s) (fvol s')
}.

Lemma still_open_trans l i s s' s'' : still_open l i s s' -> still_open l i s' s'' -> still_open l i s s''.
Proof. intros [H1 H2 H3 H4] [H1' H2' H3' H4']. split; [congruence|congruence|congruence|by eapply touched_trans]. Qed.

Lemma on_fvol_runs {A} (m : Effect.M st A) P (s : fat_files D) : runs m P (fvol s) ->
  runs (on_fvol m) (fun a s' => exists v, s' = {| fvol := v; fat32_files := fat32_files s; fat32_file_slots := fat32_file_slots s |} /\ P a v) s.
Proof. intros (a & v & E & Hp). eexists a, _. split; [unfold on_fvol; by rewrite E|]. by exists v. Qed.

Lemma content_length s t l f : file_ok s t l f -> length (take (Z.to_nat (f_size f)) (file_bytes s l f)) = Z.to_nat (f_size f).
Proof. intros Hf. rewrite length_take, (file_bytes_length s t) by done. destruct (fo_size _ _ _ _ Hf). pose proof (cluster_size _ _ _ _ (fo_rep _ _ _ _ Hf)). nia. Qed.

Lemma read_file_spec s t l f n (content := take (Z.to_nat (f_size f)) (file_bytes s l f)) (xs := take (Z.to_nat n) (drop (Z.to_nat (position f)) content)) : file_ok s t l f -> 0 <= n ->
  runs (read_file dev mem_ok garbage f n) (fun r s' => fst r = xs /\ moved s t l f (Z.of_nat (length xs)) (file_bytes s l f) (snd r) s') s.
Proof.
  intros Hf Hn. pose proof (fo_pos _ _ _ _ Hf) as Hp. pose proof (content_length _ _ _ _ Hf) as Hlen. fold content in Hlen. unfold read_file. set (k := Z.min n (f_size f - position f)).
  assert (Hxl : length xs = Z.to_nat k) by (unfold xs, k; rewrite length_take, length_drop, Hlen; lia).
  destruct (Z.leb_spec (f_size f) (position f)) as [Hle|Hlt].
  { assert (Hnil : xs = []) by (apply nil_length_inv; lia). rewrite Hnil. apply runs_ret. split; [done|]. split; try done. cbn [snd length]. lia. }
  eapply runs_mono; [apply (read_loop_spec _ k f s t l); [done|lia|lia]|]. intros r s' [Hr Hm]. replace (Z.of_nat (length xs)) with k by lia. split; [|done].
  rewrite Hr. unfold xs, content. rewrite skipn_firstn_comm, take_take. f_equal. lia.
Qed.

Lemma write_file_spec s t l f xs : file_ok s t l f -> bytes xs -> has_any (attributes (f_entry f)) FAT32_ATTR_READ_ONLY = false -> position f + Z.of_nat (length xs) <= f_size f ->
  runs (write_file dev mem_ok garbage f xs) (fun r s' => fst r = (ERR_OK, Z.of_nat (length xs)) /\ moved s t l f (Z.of_nat (length xs)) (buf_write (file_bytes s l f) (Z.to_nat (position f)) xs) (snd r) s') s.
Proof.
  intros Hf Hxs Hro Hp. unfold write_file. rewrite Hro. eapply runs_bind; [apply (write_loop_spec _ xs f s t l); [done|done|lia|lia]|]. intros r s' [Hr Hm]. apply runs_ret. cbn [fst snd]. by rewrite Hr.
Qed.

(** A handle that moved, stored back. *)
Lemma stored_open s t l i b n content f' v : open_at s t l i b -> moved (fvol s) t l (fat32_files s i) n content f' v ->
  let s' := {| fvol := v; fat32_files := (fat32_files s).[i <- f']; fat32_file_slots := fat32_file_slots s |} in
  open_at s' t l i (take (Z.to_nat (f_size (fat32_files s i))) content, snd b + n) /\ still_open l i s s'.
Proof.
  intros (Hi & Hf & Hb & Hp) [H1 H2 H3 H4 H5 H6]. unfold open_at. cbn [fvol fat32_files fat32_file_slots fst snd]. rewrite aset_eq. split.
  - split; [done|]. split; [done|]. by rewrite H3, H5, H4, Hp.
  - split; [done|cbn [fat32_files]; by rewrite aset_eq|cbn [fat32_files]; by rewrite aset_eq|done].
Qed.

Lemma with_file_open {A} s t l i b (null : A) k : open_at s t l i b -> with_file (D:=D) (Some i) null k = k i.
Proof. intros (Hi & _). unfold with_file. by replace (_ && _) with true by lia. Qed.

Lemma seek_clamp target size : 0 <= size < 2 ^ 32 -> - 2 ^ 63 <= target < 2 ^ 63 + 2 ^ 32 -> Z.min (u64 target) size = if (0 <=? target) && (target <=? size) then target else size.
Proof.
  intros Hs Ht. unfold wrap. destruct (Z.leb_spec 0 target).
  - rewrite Z.mod_small by lia. cbn [andb]. destruct (Z.leb_spec target size); lia.
  - replace (target mod 2 ^ 64) with (target + 2 ^ 64) by (apply (Z.mod_unique _ _ (-1)); lia). cbn [andb]. lia.
Qed.

Lemma seek_to_open s t l i b pos (f := fat32_files s i) : open_at s t l i b -> 0 <= pos <= f_size f ->
  let s' := {| fvol := fvol s; fat32_files := (fat32_files s).[i <- with_position f pos (f_size f)]; fat32_file_slots := fat32_file_slots s |} in
  open_at s' t l i (fst b, pos) /\ still_open l i s s'.
Proof.
  intros (Hi & Hf & Hb & Hp) Hpos. unfold open_at. cbn [fvol fat32_files fat32_file_slots fst snd]. rewrite aset_eq. fold f in Hf, Hb, Hp. split.
  - split; [done|]. split; [|done]. apply (file_ok_state (fvol s) (fvol s) t l f); try done; [apply Hf|apply Hf].
  - split; [done|cbn [fat32_files]; by rewrite aset_eq|cbn [fat32_files]; by rewrite aset_eq|apply touched_unchanged, (unchanged_refl medium)].
Qed.

Lemma seek_call s t l i content pos o w ro : open_at s t l i (content, pos) -> - 2 ^ 63 <= o < 2 ^ 63 ->
  runs (file_call (Some i) (op_seek o w)) (fun r s' => r = fst (file_step ro (op_seek o w) (content, pos)) /\ open_at s' t l i (snd (file_step ro (op_seek o w) (content, pos))) /\ still_open l i s s') s.
Proof.
  intros Ho Hr. pose proof Ho as (Hi & Hf & Hc & Hp). cbn [fst snd] in Hc, Hp. pose proof (content_length _ _ _ _ Hf) as Hlen. rewrite <- Hc in Hlen. pose proof (fo_pos _ _ _ _ Hf) as Hpos. destruct (fo_size _ _ _ _ Hf) as [_ H32].
  set (f := fat32_files s i) in *. assert (Hsz : Z.of_nat (length content) = f_size f) by lia. cbn [file_call]. unfold fat32_file_seek. rewrite (with_file_open s t l i (content, pos)) by done.
  assert (Hto : forall target, - 2 ^ 63 <= target < 2 ^ 63 + 2 ^ 32 ->
    runs (r <~ (set_file i (with_position f (Z.min (u64 target) (f_size f)) (f_size f));;; ret ERR_OK);; ret (res_seek r))
      (fun r s' => r = res_seek ERR_OK /\ open_at s' t l i (content, if (0 <=? target) && (target <=? f_size f) then target else f_size f) /\ still_open l i s s') s).
  { intros target Ht. rewrite seek_clamp by lia. eapply runs_step; [reflexivity|]. apply runs_ret. split; [done|]. apply (seek_to_open s t l i (content, pos)); [done|]. fold f. destruct ((0 <=? target) && (target <=? f_size f)) eqn:E; lia. }
  destruct (decide (w = 0)) as [->|]; [cbn [file_step]; rewrite Hsz; apply Hto; lia|]. destruct (decide (w = 1)) as [->|]; [cbn [file_step]; rewrite Hsz, Hp; apply (Hto (position f + o)); lia|].
  destruct (decide (w = 2)) as [->|]; [cbn [file_step]; rewrite Hsz; apply (Hto (f_size f + o)); lia|].
  assert (Hstep : file_step ro (op_seek o w) (content, pos) = (res_seek ERR_INVALID_ARG, (content, pos))) by (destruct w as [|[[]|[]|]|]; done). rewrite Hstep.
  eapply runs_step; [unfold bind, get; cbv beta; rewrite !(proj2 (Z.eqb_neq w _)) by done; reflexivity|]. apply runs_ret. split; [done|]. split; [done|]. split; [done|done|done|apply touched_unchanged, (unchanged_refl medium)].
Qed.

Lemma file_call_spec s t l i b o ro : open_at s t l i b -> ro = has_any (attributes (f_entry (fat32_files s i))) FAT32_ATTR_READ_ONLY -> op_ok ro o b ->
  runs (file_call (Some i) o) (fun r s' => r = fst (file_step ro o b) /\ open_at s' t l i (snd (file_step ro o b)) /\ still_open l i s s') s.
Proof.
  intros Ho Hro Hok. destruct b as [content pos]. pose proof Ho as (Hi & Hf & Hc & Hp). cbn [fst snd] in Hc, Hp. destruct o as [n|xs|o w|]; cbn [op_ok] in Hok.
  - cbn [file_call]. unfold fat32_file_read. rewrite (with_file_open s t l i (content, pos)) by done. eapply runs_bind; [|intros r s' Hr; apply runs_ret; exact Hr].
    eapply runs_step; [reflexivity|]. eapply runs_bind; [apply on_fvol_runs, (read_file_spec _ t l); [done|apply Hok]|]. intros r ? (v & -> & Hr & Hm). eapply runs_step; [reflexivity|]. apply runs_ret.
    pose proof (stored_open _ _ _ _ _ _ _ _ _ Ho Hm) as [H1 H2]. cbn [snd] in H1. rewrite Hr, <- Hc, <- Hp. rewrite <- Hc, <- Hp in H1. done.
  - cbn [file_call]. unfold fat32_file_write. rewrite (with_file_open s t l i (content, pos)) by done. eapply runs_bind; [|intros r s' Hr; apply runs_ret; exact Hr]. destruct Hok as [Hxs Hok].
    eapply runs_step; [reflexivity|]. cbv beta. destruct ro.
    + eapply runs_step; [unfold on_fvol, write_file; rewrite <- Hro; reflexivity|]. eapply runs_step; [reflexivity|]. apply runs_ret. cbn [fst snd file_step]. split; [done|].
      pose proof (stored_open _ _ _ _ _ _ _ _ _ Ho (moved_refl _ _ _ _ Hf)) as [H1 H2]. cbn [snd] in H1. rewrite Z.add_0_r, <- Hc in H1. done.
    + destruct Hok as [?|Hok]; [done|]. cbn [fst snd] in Hok. pose proof (content_length _ _ _ _ Hf) as Hlen. rewrite <- Hc in Hlen. pose proof (fo_pos _ _ _ _ Hf) as Hpos.
      eapply runs_bind; [apply on_fvol_runs, (write_file_spec _ t l); [done|done|done|lia]|]. intros r ? (v & -> & Hr & Hm). eapply runs_step; [reflexivity|]. apply runs_ret.
      pose proof (stored_open _ _ _ _ _ _ _ _ _ Ho Hm) as [H1 H2]. rewrite Hr. cbn [fst snd file_step] in *. split; [done|]. split; [|done].
      rewrite take_write in H1 by (try lia; rewrite Hc, length_take in Hlen; lia). by rewrite <- Hc, <- Hp in H1.
  - by apply seek_call.
  - cbn [file_call]. unfold fat32_file_tell. rewrite (with_file_open s t l i (content, pos)) by done. eapply runs_step; [reflexivity|]. apply runs_ret. cbn [file_step fst snd]. rewrite Hp. split; [done|]. split; [by rewrite <- Hp|]. split; [done|done|done|apply touched_unchanged, (unchanged_refl medium)].
Qed.

Lemma file_calls_spec ops : forall s t l i b ro, open_at s t l i b -> ro = has_any (attributes (f_entry (fat32_files s i))) FAT32_ATTR_READ_ONLY -> ops_ok ro ops b ->
  runs (file_calls (Some i) ops) (fun rs s' => rs = fst (Prelude.run (file_step ro) ops b) /\ open_at s' t l i (snd (Prelude.run (file_step ro) ops b)) /\ still_open l i s s') s.
Proof.
  induction ops as [|o ops IH]; intros s t l i b ro Ho Hro Hok; cbn [file_calls ops_ok Prelude.run] in *.
  { apply runs_ret. split; [done|]. split; [done|]. split; [done|done|done|apply touched_unchanged, (unchanged_refl medium)]. }
  destruct Hok as [Hok Hoks]. eapply runs_bind; [by apply (file_call_spec s t l i b o ro)|]. intros r s1 (-> & Ho1 & Hs1).
  eapply runs_bind; [apply (IH s1 t l i (snd (file_step ro o b)) ro); [exact Ho1|by rewrite (so_entry _ _ _ _ Hs1)|done]|]. intros rs s2 (-> & Ho2 & Hs2). apply runs_ret. split; [done|]. split; [done|by eapply still_open_trans].
Qed.

(** Closing writes the buffer, so the device holds the bytes of the file. *)
Lemma close_spec s t l i b : open_at s t l i b ->
  runs (fat32_file_close dev (Some i)) (fun e s' => e = ERR_OK /\ represents (fvol s') t /\ touched l (fvol s) (fvol s') /\
    fst b = take (Z.to_nat (f_size (fat32_files s i))) (concat (cluster_data (fvol s') <$> l)) /\ fat32_file_slots s' = (fat32_file_slots s).[i <- false]) s.
Proof.
  intros Ho. pose proof Ho as (Hi & Hf & Hb & _). unfold fat32_file_close. rewrite (with_file_open s t l i b) by done. set (f := fat32_files s i) in *.
  assert (Hfree : exists v fs, fat32_free_file dev i s = Ret tt {| fvol := v; fat32_files := fs; fat32_file_slots := (fat32_file_slots s).[i <- false] |} /\
    represents v t /\ touched l (fvol s) v /\ forall x, cluster_data v x = view (fvol s) f x).
  { destruct (cluster_dirty f) eqn:Hd.
    - destruct (flush_spec _ _ _ _ Hf Hd) as (e & v & E & _ & Hr & Ht & Hv). eexists v, _. split; [|done]. unfold fat32_free_file, bind, get, on_fvol. cbv beta. fold f. rewrite (must_write_dirty _ t l), Hd by done. rewrite E. reflexivity.
    - eexists (fvol s), _. split; [|split; [apply Hf|split; [apply touched_unchanged, (unchanged_refl medium)|intros x; symmetry; by apply (clean_view _ t l)]]].
      unfold fat32_free_file, bind, get. cbv beta. fold f. rewrite (must_write_dirty _ t l), Hd by done. reflexivity. }
  destruct Hfree as (v & fs & E & Hr & Ht & Hv). eapply runs_step; [exact E|]. apply runs_ret. cbn [fvol fat32_file_slots]. split; [done|]. split; [done|]. split; [done|]. split; [|done].
  rewrite Hb. unfold file_bytes. do 2 f_equal. apply list_fmap_ext. intros j x _. symmetry. apply Hv.
Qed.

(** ** A session *)

Lemma alloc_file_run (s : fat_files D) i : find_first (fun i => negb (fat32_file_slots s i)) 0 (Z.to_nat MAX_FAT32_FILES) = Some i ->
  fat32_alloc_file s = Ret (Some i) {| fvol := fvol s; fat32_files := (fat32_files s).[i <- zero_file]; fat32_file_slots := (fat32_file_slots s).[i <- true] |}.
Proof. intros H. unfold fat32_alloc_file, bind, get. cbv beta. by rewrite H. Qed.

(** The handle of [fat32_file_open] before a cluster is loaded. *)
Definition opened (e : list Z) : fat32_file_t :=
  {| f_entry := e; current_cluster := 0; position := 0; f_size := file_size e; cluster_buffer := []; cluster_dirty := false |}.

Lemma opened_ok s t l e : represents s t -> bytes e -> file_chain (total_clusters (params s)) t (entry_cluster e) l -> file_size e <= Z.of_nat (length l) * bytes_per_cluster (params s) -> file_ok s t l (opened e).
Proof.
  intros Hr Hb Hl Hs. pose proof (field_fits 28 4 e Hb) as Hf. split; [done|done|cbn [f_size opened]|cbn [position f_size opened]|by left]; unfold file_size in *; change (8 * Z.of_nat 4) with 32 in Hf; lia.
Qed.

(** The first handle that is free is opened at the start of the file. *)
Lemma open_spec now flags cs e l i s t : represents (fvol s) t -> cs <> [] -> Forall component_ok cs -> (length cs <= 32)%nat -> resolves medium (fvol s) t (root_cluster (params (fvol s))) cs e ->
  is_directory e = false -> file_chain (total_clusters (params (fvol s))) t (entry_cluster e) l -> file_size e <= Z.of_nat (length l) * bytes_per_cluster (params (fvol s)) ->
  find_first (fun i => negb (fat32_file_slots s i)) 0 (Z.to_nat MAX_FAT32_FILES) = Some i ->
  runs (fat32_file_open dev mem_ok garbage now (slash :: joined cs) flags)
    (fun r s' => r = (ERR_OK, Some i) /\ open_at s' t l i (take (Z.to_nat (file_size e)) (concat (cluster_data (fvol s) <$> l)), 0) /\ f_entry (fat32_files s' i) = e /\ f_size (fat32_files s' i) = file_size e /\
       touched l (fvol s) (fvol s') /\ fat32_file_slots s' = (fat32_file_slots s).[i <- true]) s.
Proof.
  intros Hr Hne Hcs Hn Hres Hdir Hl Hsz Hi. unfold fat32_file_open. pose proof (resolves_bytes _ _ _ _ _ _ _ Hres) as Hb. apply find_first_Some in Hi as Hi'. destruct Hi' as (Hib & _).
  eapply runs_bind; [apply on_fvol_runs, (uninit_runs dev medium); exact Hr|]. intros u ? (v1 & -> & _ & Hr1 & Hu1).
  eapply runs_bind; [apply on_fvol_runs, (find_file_spec dev medium mem_ok garbage mem_ok_all cs e); [exact Hr1|done|done|done|cbn [fvol]; rewrite (proj1 Hu1); by eapply resolves_unchanged]|]. cbn [fvol fat32_files fat32_file_slots].
  intros r ? (v2 & -> & -> & Hr2 & Hu2). cbn [fst]. rewrite bool_decide_true by done. eapply runs_step; [reflexivity|]. cbn [fst snd]. rewrite bool_decide_true by done. cbn [negb]. rewrite Hdir.
  pose proof (fat_unchanged_trans _ _ _ _ Hu1 Hu2) as Hu. eapply runs_step; [by apply alloc_file_run|]. cbv iota. change {| f_entry := e; current_cluster := 0; position := 0 |} with (opened e). eapply runs_step; [reflexivity|].
  assert (Hok : file_ok v2 t l (opened e)) by (apply opened_ok; [done|done|by rewrite (proj1 Hu)|by rewrite (proj1 Hu)]).
  assert (Hviews : take (Z.to_nat (file_size e)) (file_bytes v2 l (opened e)) = take (Z.to_nat (file_size e)) (concat (cluster_data (fvol s) <$> l))).
  { unfold file_bytes. do 2 f_equal. apply list_fmap_ext. intros j x _. rewrite (clean_view v2 t l) by done. by apply cluster_data_unchanged. }
  destruct ((2 <=? entry_cluster e) && (0 <? f_size (opened e))) eqn:Hload.
  - assert (Hin : entry_cluster e ∈ l) by (destruct l as [|x l]; [cbn [length f_size opened] in *; lia|]; destruct Hl as (-> & _); left).
    eapply runs_bind; [apply on_fvol_runs, (load_spec v2 t l); done|]. cbn [fvol fat32_files fat32_file_slots]. intros r ? (v3 & -> & He & Hok3 & (Hfe & Hfp & Hfs) & _ & _ & Hv3 & Ht3). eapply runs_step; [reflexivity|].
    rewrite He. rewrite bool_decide_true by done. apply runs_ret. cbn [fvol fat32_files fat32_file_slots]. rewrite aset_eq. split; [done|].
    split; [|by split; [done|]; split; [done|]; split; [eapply touched_trans; [by apply touched_unchanged|done]|]]. unfold open_at. cbn [fvol fat32_files fat32_file_slots fst snd]. rewrite aset_eq. split; [lia|]. split; [done|].
    rewrite Hfs, Hfp. split; [|done]. rewrite <- Hviews. f_equal. symmetry. by apply file_bytes_views.
  - apply runs_ret. cbn [fvol fat32_files fat32_file_slots]. rewrite aset_eq. split; [done|]. split; [|by split; [done|]; split; [done|]; split; [by apply touched_unchanged|]].
    unfold open_at. cbn [fvol fat32_files fat32_file_slots fst snd]. rewrite aset_eq. split; [lia|]. split; [done|]. split; [by symmetry|done].
Qed.

(** C9. A file that is opened, used and closed.  Reads, seeks, tells and writes that stay within
    the file return what the specification on its bytes returns, with a position that starts
    at 0; after it is closed the clusters of the file hold the bytes of the specification,
    and the table, the other clusters and the set of free handles are as before. *)
Theorem fat_file_session now flags cs e l i ops s t (read_only := has_any (attributes e) FAT32_ATTR_READ_ONLY)
  (content := fun v => take (Z.to_nat (file_size e)) (concat (cluster_data v <$> l))) (spec := Prelude.run (file_step read_only) ops (content (fvol s), 0)) :
  represents (fvol s) t -> cs <> [] -> Forall component_ok cs -> (length cs <= 32)%nat -> resolves medium (fvol s) t (root_cluster (params (fvol s))) cs e ->
  is_directory e = false -> file_chain (total_clusters (params (fvol s))) t (entry_cluster e) l -> file_size e <= Z.of_nat (length l) * bytes_per_cluster (params (fvol s)) ->
  find_first (fun i => negb (fat32_file_slots s i)) 0 (Z.to_nat MAX_FAT32_FILES) = Some i -> ops_ok read_only ops (content (fvol s), 0) ->
  runs (o <~ fat32_file_open dev mem_ok garbage now (slash :: joined cs) flags;; rs <~ file_calls (snd o) ops;; c <~ fat32_file_close dev (snd o);; ret (fst o, rs, c))
    (fun x s' => x = (ERR_OK, fst spec, ERR_OK) /\ content (fvol s') = fst (snd spec) /\ represents (fvol s') t /\ touched l (fvol s) (fvol s') /\
       forall j, fat32_file_slots s' j = fat32_file_slots s j) s.
Proof.
  intros Hr Hne Hcs Hn Hres Hdir Hl Hsz Hi Hops. eapply runs_bind; [by apply (open_spec now flags cs e l i s t)|]. intros o s1 (-> & Ho1 & He1 & Hs1 & Ht1 & Hslots1). cbn [fst snd].
  eapply runs_bind; [apply (file_calls_spec ops s1 t l i (content (fvol s), 0) read_only); [exact Ho1|unfold read_only; by rewrite He1|done]|]. fold spec. intros rs s2 (-> & Ho2 & [Hslots2 _ Hs2 Ht2]).
  eapply runs_bind; [by apply (close_spec s2 t l i (snd spec))|]. intros c s3 (-> & Hr3 & Ht3 & Hc3 & Hslots3). apply runs_ret. split; [done|]. rewrite Hs2, Hs1 in Hc3. split; [by symmetry|]. split; [done|].
  split; [eapply touched_trans; [exact Ht1|]; by eapply touched_trans|]. apply find_first_Some in Hi as (_ & Hfree & _). intros j. rewrite Hslots3, Hslots2, Hslots1.
  destruct (decide (j = i)) as [->|Hj]; [rewrite aset_eq; by destruct (fat32_file_slots s i)|by rewrite !aset_ne].
Qed.

(** ** A write behind the end of a file *)

(** The table after a cluster was linked behind the last one of a chain. *)
Definition table_append (t : arr Z) (last new : Z) : arr Z := t.[new <- FAT32_CLUSTER_EOF_MIN].[last <- new].[new <- FAT32_CLUSTER_EOF_MIN].

(** A second cluster for a file of one cluster. *)
Lemma append_spec s t e c new : represents s t -> valid s c -> FAT32_CLUSTER_EOF_MIN <= t c -> entry_cluster e = c ->
  find_first (fun c => t c =? FAT32_CLUSTER_FREE) 2 (Z.to_nat (total_clusters (params s))) = Some new ->
  runs (append_cluster dev mem_ok garbage (opened e))
    (fun r s' => r = (Some new, with_buffer (opened e) new (replicate (Z.to_nat (bytes_per_cluster (params s))) 0) false) /\
       represents s' (table_append t c new) /\ params s' = params s /\ cluster_data s' c = cluster_data s c) s.
Proof.
  intros Hr Hv Hend He Hnew. apply find_first_Some in Hnew as Hn. destruct Hn as (Hnb & Hfree%Z.eqb_eq & _). pose proof (geo_clusters _ _ (mnt_geo _ _ _ (proj1 Hr))) as Hmax. unfold valid in Hv. unfold FAT32_CLUSTER_FREE in Hfree.
  assert (Hne : new <> c) by (intros ->; unfold FAT32_CLUSTER_EOF_MIN in Hend; lia). unfold append_cluster.
  eapply runs_bind; [by apply (alloc_spec dev medium s t)|]. unfold table_alloc. rewrite Hnew. cbn [fst snd]. intros r s1 (Hk1 & -> & Hr1). replace (new <? 2) with false by lia. pose proof (kept_params _ _ _ _ Hk1) as Hp1.
  eapply runs_step; [reflexivity|]. cbv beta. cbn [f_entry opened cluster_buffer]. rewrite He. replace (2 <=? c) with true by lia. rewrite Hp1.
  eapply (runs_bind _ _ (fun f s' => f = opened e /\ represents s' (table_append t c new) /\ kept dev medium s s')).
  - eapply (runs_bind _ _ (fun _ s' => represents s' (table_append t c new) /\ kept dev medium s s')); [|by intros [] s' H; apply runs_ret]. cbn [link_last].
    eapply runs_bind; [apply (next_spec dev medium s1 _ c Hr1); unfold valid; by rewrite Hp1|]. intros v s2 (-> & Hr2 & Hk2). rewrite aset_ne by done. replace (FAT32_CLUSTER_EOF_MIN <=? t c) with true by lia.
    pose proof (kept_trans _ _ _ _ _ Hk1 Hk2) as Hk12. eapply runs_bind; [apply (link_spec dev medium s2 _ c new Hr2); unfold valid; by rewrite (kept_params _ _ _ _ Hk12)|]. intros x s3 (_ & Hr3 & Hk3).
    pose proof (kept_trans _ _ _ _ _ Hk12 Hk3) as Hk13. eapply runs_bind; [apply (link_spec dev medium s3 _ new FAT32_CLUSTER_EOF_MIN Hr3); unfold valid; rewrite (kept_params _ _ _ _ Hk13); lia|]. intros y s4 (_ & Hr4 & Hk4).
    apply runs_ret. rewrite mask_small in Hr4 by lia. split; [exact Hr4|by eapply kept_trans].
  - intros f s2 (-> & Hr2 & Hk2). cbn [cluster_buffer opened]. rewrite bool_decide_true by done.
    eapply runs_bind; [apply (kmalloc_spec dev medium mem_ok garbage mem_ok_all _ s2 _ Hr2); by eapply cluster_size|]. intros b s3 (_ & Hb & Hr3 & Hu3). rewrite bool_decide_false by done. apply runs_ret.
    split; [done|]. split; [done|]. split; [by rewrite (proj1 Hu3), (kept_params _ _ _ _ Hk2)|]. rewrite (cluster_data_unchanged medium s2 s3) by done. apply (kept_cluster dev medium); [apply Hr|done|done].
Qed.

(** What a write to the empty file leaves: the bytes are in a second cluster. *)
Lemma write_lost_spec s t e c new xs : represents s t -> valid s c -> FAT32_CLUSTER_EOF_MIN <= t c -> entry_cluster e = c -> bytes e -> file_size e = 0 ->
  has_any (attributes e) FAT32_ATTR_READ_ONLY = false -> find_first (fun c => t c =? FAT32_CLUSTER_FREE) 2 (Z.to_nat (total_clusters (params s))) = Some new ->
  xs <> [] -> bytes xs -> Z.of_nat (length xs) <= bytes_per_cluster (params s) -> Z.of_nat (length xs) < 2 ^ 32 ->
  runs (write_file dev mem_ok garbage (opened e) xs)
    (fun r s' => let f := snd r in fst r = (ERR_OK, Z.of_nat (length xs)) /\ f_size f = Z.of_nat (length xs) /\ file_ok s' (table_append t c new) [c; new] f /\
       current_cluster f = new /\ cluster_data s' c = cluster_data s c) s.
Proof.
  intros Hr Hv Hend He Hb Hsz Hro Hnew Hne Hxs Hlen H32. apply find_first_Some in Hnew as Hn. destruct Hn as (Hnb & Hfree%Z.eqb_eq & _). pose proof (cluster_size _ _ _ _ Hr) as Hz. assert (Hxl : (0 < length xs)%nat) by (destruct xs; [done|cbn; lia]).
  unfold write_file. cbn [f_entry opened]. rewrite Hro. cbn [file_write_loop]. rewrite (bool_decide_false (xs = [])) by done.
  eapply (runs_bind _ _ (fun r s' => fst r = Z.of_nat (length xs) /\ f_size (snd r) = Z.of_nat (length xs) /\ file_ok s' (table_append t c new) [c; new] (snd r) /\ current_cluster (snd r) = new /\ cluster_data s' c = cluster_data s c)).
  2:{ intros r s' (Hr1 & H). apply runs_ret. cbn [fst snd]. by rewrite Hr1. }
  eapply runs_step; [unfold fat32_get_cluster_for_position; cbn [f_size position opened]; rewrite Hsz; reflexivity|]. change (0 <? 2) with true. cbv iota.
  eapply runs_bind; [by apply (append_spec s t e c new)|]. intros a s1 (-> & Hr1 & Hp1 & Hc1). cbn [fst snd].
  eapply runs_step; [unfold need_cluster; cbn [current_cluster with_buffer]; rewrite Z.eqb_refl; reflexivity|]. cbn [fst snd]. rewrite bool_decide_true by done. cbn [negb].
  eapply runs_step; [reflexivity|]. cbv beta. rewrite Hp1. set (z := bytes_per_cluster (params s)) in *. rewrite (proj2 (Z.eqb_neq z 0)) by lia. cbn [position with_buffer opened cluster_buffer current_cluster f_size].
  rewrite Z.mod_0_l, Z.sub_0_r, Z.min_l by lia. rewrite Nat2Z.id, firstn_all, drop_all. eapply runs_step; [apply wr_run; rewrite length_replicate; lia|].
  rewrite (wrap_small 64) by fits_lia. rewrite Hsz, Z.add_0_l, Z.max_r by lia. cbn [Z.to_nat]. destruct (length xs) as [|n] eqn:En; [lia|]. cbn [file_write_loop]. rewrite (bool_decide_true (@nil Z = [])) by done.
  apply runs_ret. cbn [fst snd]. rewrite Z.add_0_r. split; [done|]. split; [done|]. split; [|done].
  assert (Hcn : c <> new) by (intros ->; unfold FAT32_CLUSTER_EOF_MIN, FAT32_CLUSTER_FREE in *; lia). unfold valid in Hv.
  split; cbn [f_entry f_size position cluster_buffer current_cluster cluster_dirty with_position with_buffer opened]; rewrite ?Hp1; fold z; [done| |cbn [length]; lia|lia|right].
  - rewrite He. cbn [file_chain]. unfold table_append. rewrite aset_ne, !aset_eq by done. unfold FAT32_CLUSTER_EOF_MIN. repeat split; lia.
  - split; [right; left|]. rewrite buf_write_length by (rewrite length_replicate; lia). rewrite length_replicate. split; [done|]. split; [|done]. apply buf_write_bytes; [|done]. apply Forall_replicate. fits_lia.
Qed.

(** Bytes that are written to a file just created are not those read back.  The write takes
    a second cluster for them, because the position is at the end of the file, and leaves
    the first cluster as it was: what is read from the start is what that cluster held. *)
Theorem fat_write_lost s t e c new xs i n : represents (fvol s) t -> 0 <= i < MAX_FAT32_FILES -> fat32_files s i = opened e -> valid (fvol s) c -> FAT32_CLUSTER_EOF_MIN <= t c -> entry_cluster e = c -> bytes e -> file_size e = 0 ->
  has_any (attributes e) FAT32_ATTR_READ_ONLY = false -> find_first (fun c => t c =? FAT32_CLUSTER_FREE) 2 (Z.to_nat (total_clusters (params (fvol s)))) = Some new ->
  xs <> [] -> bytes xs -> Z.of_nat (length xs) <= bytes_per_cluster (params (fvol s)) -> Z.of_nat (length xs) < 2 ^ 32 -> fits 64 n ->
  runs (file_calls (Some i) [op_write xs; op_seek 0 0; op_read n])
    (fun rs _ => rs = [res_write (ERR_OK, Z.of_nat (length xs)); res_seek ERR_OK; res_read (ERR_OK, take (Z.to_nat n) (take (length xs) (cluster_data (fvol s) c)))]) s.
Proof.
  intros Hr Hi Hf Hv Hend He Hb Hsz Hro Hnew Hne Hxs Hlen H32 Hn. cbn [file_calls].
  eapply (runs_bind _ _ (fun w s1 => w = res_write (ERR_OK, Z.of_nat (length xs)) /\ open_at s1 (table_append t c new) [c; new] i (take (length xs) (cluster_data (fvol s) c), position (fat32_files s1 i)))).
  - cbn [file_call]. unfold fat32_file_write, with_file. replace (_ && _) with true by lia. eapply runs_bind; [|intros r s' H; apply runs_ret; exact H]. eapply runs_step; [reflexivity|]. cbv beta. rewrite Hf.
    eapply runs_bind; [apply on_fvol_runs; by apply (write_lost_spec (fvol s) t e c new)|]. intros r ? (v & -> & Hr1 & Hs1 & Hok & Hcur & Hd). eapply runs_step; [reflexivity|]. apply runs_ret. rewrite Hr1. split; [done|].
    unfold open_at. cbn [fvol fat32_files fat32_file_slots fst snd]. rewrite aset_eq. split; [done|]. split; [done|]. split; [|done]. rewrite Hs1, Nat2Z.id. unfold file_bytes. cbn [fmap list_fmap concat]. rewrite app_nil_r.
    assert (Hview : view v (snd r) c = cluster_data (fvol s) c) by (unfold view; rewrite decide_False; [done|]; intros [_ E]; rewrite Hcur in E; apply find_first_Some in Hnew as (_ & Hfree%Z.eqb_eq & _); rewrite <- E in Hfree; unfold FAT32_CLUSTER_EOF_MIN, FAT32_CLUSTER_FREE in *; lia).
    rewrite Hview, take_app_le; [done|]. rewrite (cluster_length dev medium) by apply Hr. lia.
  - intros w s1 (-> & Ho). eapply runs_bind; [apply (file_calls_spec [op_seek 0 0; op_read n] s1 _ _ i _ _ Ho eq_refl); cbn [ops_ok op_ok]; repeat split; try done; apply Hn|].
    intros rs s2 (-> & _). apply runs_ret. cbn [Prelude.run file_step fst snd]. by replace ((0 <=? 0) && (0 <=? Z.of_nat _)) with true by lia.
Qed.

End sessions.

(** ** Examples *)

Definition sample_files (v : fat32 (gmap Z (list Z))) : fat_files (gmap Z (list Z)) := {| fvol := v; fat32_files := fun _ => zero_file; fat32_file_slots := fun i => i <? 3 |}.

Definition sample_session : list file_op := [op_seek 1022 0; op_write [1; 2; 3]; op_seek (-4) 1; op_read 6; op_seek (-1) 0; op_tell].

Lemma fat_file_session_witness :
  runs (o <~ fat32_file_open sample_device (fun _ => true) (fun _ _ => 0) sample_time [47; 65] 0;; rs <~ file_calls sample_device (fun _ => true) (fun _ _ => 0) (snd o) sample_session;;
        c <~ fat32_file_close sample_device (snd o);; ret (fst o, rs, c))%effect
    (fun x _ => x = (ERR_OK, [res_seek ERR_OK; res_write (ERR_OK, 3); res_seek ERR_OK; res_read (ERR_OK, [7; 1; 2; 3; 9; 9]); res_seek ERR_OK; res_tell (ERR_OK, 1500)], ERR_OK)) (sample_files sample_volume).
Proof.
  eapply runs_mono; [apply (fat_file_session sample_device (ram_medium 512) (fun _ => true) (fun _ _ => 0) (fun _ => eq_refl) sample_time 0 [[65]] sample_entry [3; 4] 3 sample_session (sample_files sample_volume) (table_of sample_fat))|].
  - apply sample_represents.
  - done.
  - apply Forall_singleton. split; [by rewrite list_elem_of_singleton|]. split; [done|cbn; lia].
  - cbn. lia.
  - apply (resolves_last _ _ _ _ [2]); [by vm_compute; repeat split; try congruence; right|by vm_compute].
  - by vm_compute.
  - by vm_compute; repeat split; try congruence; right.
  - by vm_compute.
  - by vm_compute.
  - vm_compute. repeat split; try congruence; [repeat constructor; congruence|right; congruence].
  - intros x s' (-> & _). by vm_compute.
Defined.

(** The entry that [fat32_create_file] makes for a file with cluster 4. *)
Definition created_entry : list Z := new_entry (fat32_format_filename [66]) FAT32_ATTR_ARCHIVE 4 (replicate 32 0).

Lemma fat_write_lost_witness :
  runs (file_calls sample_device (fun _ => true) (fun _ _ => 0) (Some 3) [op_write [1; 2; 3]; op_seek 0 0; op_read 8])
    (fun rs _ => rs = [res_write (ERR_OK, 3); res_seek ERR_OK; res_read (ERR_OK, [9; 9; 9])]) {| fvol := sample_volume; fat32_files := fun _ => opened created_entry; fat32_file_slots := fun i => i <? 4 |}.
Proof.
  eapply runs_mono; [apply (fat_write_lost sample_device (ram_medium 512) (fun _ => true) (fun _ _ => 0) (fun _ => eq_refl) _ (table_of sample_fat) created_entry 4 5 [1; 2; 3] 3 8)|].
  - apply sample_represents.
  - unfold MAX_FAT32_FILES. lia.
  - done.
  - by vm_compute.
  - by vm_compute.
  - by vm_compute.
  - vm_compute. repeat constructor; congruence.
  - by vm_compute.
  - by vm_compute.
  - by vm_compute.
  - done.
  - repeat constructor; fits_lia.
  - by vm_compute.
  - by vm_compute.
  - fits_lia.
  - intros rs s' ->. by vm_compute.
Defined.
