(* ===== verification/FatVfs.v ===== *)
(** * FAT32 in the virtual file system (kernel/fs/fat32_vfs.c)

    The operations of FAT32 as the virtual file system calls them.  Their state is the list
    of block devices, the volume with its open files and directories, and [private_data]:
    the device of the volume that is mounted, if one is.

    A descriptor of an open file is the address of its handle, cast to [int] and back;
    [files_base] is the address of the array of handles, and a handle takes 80 bytes.
    [now] is the time that [rtc_get_time] gives, and [fuel] bounds the entries that one
    call of [fat32_readdir] passes over.  The null pointers that the operations check for
    are not null, [private_data] excepted.  Files and directories that stay open while the
    volume is unmounted, or while another one is mounted, are not followed: their handles
    keep a pointer to memory that is freed. *)

From stdpp Require Import base tactics list numbers option gmap.
From Stdlib Require Import Lia ZifyBool.
From S2P Require Import Prelude Effect Bytes Buffer Linked Block Fat FatDir FatFile VfsTypes Vfs.

#[local] Open Scope Z_scope.

(** [sizeof (fat32_fs_t)] and [sizeof (fat32_file_t)] *)
Definition FS_SIZE : Z := 568.
Definition HANDLE_SIZE : Z := 80.

Record fat_vfs (D : Type) := {
  registry : devices D; volume : fat32 D; open_files : arr fat32_file_t; file_slots : arr bool;
  open_dirs : arr fat32_dir_handle_t; next_dir : Z; private_data : option (block_device_t D)
}.
Arguments registry {D} _.
Arguments volume {D} _.
Arguments open_files {D} _.
Arguments file_slots {D} _.
Arguments open_dirs {D} _.
Arguments next_dir {D} _.
Arguments private_data {D} _.

Section operations.
  Context {D : Type} (mem_ok : nat -> bool) (garbage : nat -> nat -> Z) (now : rtc_time_t) (files_base : Z) (fuel : nat).

#[local] Abbreviation M := (Effect.M (fat_vfs D)).
#[local] Open Scope effect_scope.

Definition set_volume (s : fat_vfs D) (v : fat32 D) : fat_vfs D :=
  {| registry := registry s; volume := v; open_files := open_files s; file_slots := file_slots s; open_dirs := open_dirs s; next_dir := next_dir s; private_data := private_data s |}.
Definition set_files (s : fat_vfs D) (x : fat_files D) : fat_vfs D :=
  {| registry := registry s; volume := fvol x; open_files := fat32_files x; file_slots := fat32_file_slots x; open_dirs := open_dirs s; next_dir := next_dir s; private_data := private_data s |}.
Definition set_dirs (s : fat_vfs D) (x : fat_dirs D) : fat_vfs D :=
  {| registry := registry s; volume := vol x; open_files := open_files s; file_slots := file_slots s; open_dirs := dir_handles x; next_dir := next_dir_handle x; private_data := private_data s |}.
Definition set_private (p : option (block_device_t D)) (s : fat_vfs D) : fat_vfs D :=
  {| registry := registry s; volume := volume s; open_files := open_files s; file_slots := file_slots s; open_dirs := open_dirs s; next_dir := next_dir s; private_data := p |}.
Definition set_registry (s : fat_vfs D) (r : devices D) : fat_vfs D :=
  {| registry := r; volume := volume s; open_files := open_files s; file_slots := file_slots s; open_dirs := open_dirs s; next_dir := next_dir s; private_data := private_data s |}.

(** A computation on a part of the state. *)
Definition on_part {S A} (part : fat_vfs D -> S) (put : fat_vfs D -> S -> fat_vfs D) (m : Effect.M S A) : M A := fun s =>
  match m (part s) with Ret a x => Ret a (put s x) | Fault => Fault | Deadlock => Deadlock | Panic => Panic | NoFuel => NoFuel end.

Definition on_registry {A} : Effect.M (devices D) A -> M A := on_part registry set_registry.
Definition on_volume {A} : Effect.M (fat32 D) A -> M A := on_part volume set_volume.
Definition on_files {A} : Effect.M (fat_files D) A -> M A := on_part (fun s => {| fvol := volume s; fat32_files := open_files s; fat32_file_slots := file_slots s |}) set_files.
Definition on_dirs {A} : Effect.M (fat_dirs D) A -> M A := on_part (fun s => {| vol := volume s; dir_handles := open_dirs s; next_dir_handle := next_dir s |}) set_dirs.

(** A volume that could not be mounted leaves the structure of the one before. *)
Definition keep_volume (old : fat32 D) (s : fat_vfs D) : fat_vfs D :=
  set_volume s {| disk := disk (volume s); params := params old; fat_cache := fat_cache old; fat_cache_sector := fat_cache_sector old; allocs := allocs (volume s) |}.

Definition fat32_vfs_mount (device mountpoint : list Z) : M error_code_t :=
  block_dev <~ on_registry (block_device_get device);;
  if block_dev =? 0 then ret ERR_NOT_FOUND
  else
    b <~ on_volume (Fat.kmalloc mem_ok garbage FS_SIZE);;
    if bool_decide (b = []) then ret ERR_OUT_OF_MEMORY
    else
      dev <~ on_registry (dev_at block_dev);;
      old <~ get volume;;
      err <~ on_volume (fat32_init dev mem_ok garbage);;
      if negb (bool_decide (err = ERR_OK)) then modify (keep_volume old);;; ret err else modify (set_private (Some dev));;; ret ERR_OK.

(** The mounted volume, or [null]. *)
Definition with_private {A} (null : A) (k : block_device_t D -> M A) : M A := p <~ get private_data;; match p with Some dev => k dev | None => ret null end.

Definition fat32_vfs_unmount : M error_code_t := with_private ERR_INVALID_ARG (fun _ => modify (set_private None);;; ret ERR_OK).

(** ** Descriptors *)

(** The cast of an address to [int]. *)
Definition to_fd (addr : Z) : Z := if u32 addr <? 2 ^ 31 then u32 addr else u32 addr - 2 ^ 32.

Definition fd_of (h : option Z) : Z := match h with Some i => to_fd (files_base + HANDLE_SIZE * i) | None => 0 end.

(** The handle at the address to which a descriptor is cast back; at another address there
    is no handle. *)
Definition handle_of (fd : Z) : M (option Z) :=
  if fd =? 0 then ret None
  else let o := u64 fd - files_base in if o mod HANDLE_SIZE =? 0 then ret (Some (o / HANDLE_SIZE)) else stop Fault.

(** ** Files *)

(** The descriptor behind the pointer is changed on success only; the pointer to the file
    data is a fifth argument, which the function does not have. *)
Definition fat32_vfs_open (path : list Z) (flags fd : Z) : M (error_code_t * Z * Z) :=
  with_private (ERR_INVALID_ARG, fd, 0) (fun dev =>
    r <~ on_files (fat32_file_open dev mem_ok garbage now path flags);;
    ret (fst r, if bool_decide (fst r = ERR_OK) then fd_of (snd r) else fd, 0)).

Definition fat32_vfs_close (fd : Z) : M error_code_t := with_private ERR_INVALID_ARG (fun dev => h <~ handle_of fd;; on_files (fat32_file_close dev h)).

Definition fat32_vfs_read (fd count : Z) : M (error_code_t * list Z) :=
  with_private (ERR_INVALID_ARG, []) (fun dev => h <~ handle_of fd;; on_files (fat32_file_read dev mem_ok garbage h count)).

Definition fat32_vfs_write (fd : Z) (src : list Z) : M (error_code_t * Z) :=
  with_private (ERR_INVALID_ARG, 0) (fun dev => h <~ handle_of fd;; on_files (fat32_file_write dev mem_ok garbage h src)).

Definition fat32_vfs_seek (fd offset whence : Z) : M error_code_t :=
  with_private ERR_INVALID_ARG (fun _ => h <~ handle_of fd;; on_files (fat32_file_seek h offset whence)).

(** The position behind the pointer is changed on success only. *)
Definition fat32_vfs_tell (fd position : Z) : M (error_code_t * Z) :=
  with_private (ERR_INVALID_ARG, position) (fun _ => h <~ handle_of fd;; r <~ on_files (fat32_file_tell h);; ret (fst r, if bool_decide (fst r = ERR_OK) then snd r else position)).

(** ** Directories *)

Definition fat32_vfs_stat (path : list Z) : M (error_code_t * option vfs_stat_t) := with_private (ERR_INVALID_ARG, None) (fun dev => on_volume (fat32_stat dev mem_ok garbage path)).
Definition fat32_vfs_mkdir (path : list Z) : M error_code_t := with_private ERR_INVALID_ARG (fun dev => on_volume (fat32_mkdir dev mem_ok garbage path)).
Definition fat32_vfs_rmdir (path : list Z) : M error_code_t := with_private ERR_INVALID_ARG (fun dev => on_volume (fat32_rmdir dev mem_ok garbage path)).
Definition fat32_vfs_opendir (path : list Z) : M (error_code_t * Z) := with_private (ERR_INVALID_ARG, 0) (fun dev => on_dirs (fat32_opendir dev mem_ok garbage path)).
Definition fat32_vfs_readdir (fd : Z) : M (error_code_t * option vfs_dirent_t) := with_private (ERR_INVALID_ARG, None) (fun dev => on_dirs (fat32_readdir dev fuel fd)).
Definition fat32_vfs_closedir (fd : Z) : M error_code_t := with_private ERR_INVALID_ARG (fun dev => on_dirs (fat32_closedir dev fd)).
Definition fat32_vfs_unlink (path : list Z) : M error_code_t := with_private ERR_INVALID_ARG (fun dev => on_volume (fat32_delete_file dev mem_ok garbage path)).
Definition fat32_vfs_move (oldpath newpath : list Z) : M error_code_t := with_private ERR_INVALID_ARG (fun dev => on_volume (fat32_vfs_rename dev mem_ok garbage oldpath newpath)).

(** ["fat32"] *)
Definition fat32_vfs_filesystem : vfs_filesystem_t (fat_vfs D) := {|
  fs_name := [102; 97; 116; 51; 50]; fs_mount := Some fat32_vfs_mount; fs_unmount := Some fat32_vfs_unmount;
  fs_open := Some fat32_vfs_open; fs_close := Some fat32_vfs_close; fs_read := Some fat32_vfs_read; fs_write := Some fat32_vfs_write; fs_seek := Some fat32_vfs_seek; fs_tell := Some fat32_vfs_tell;
  fs_mkdir := Some fat32_vfs_mkdir; fs_rmdir := Some fat32_vfs_rmdir; fs_opendir := Some fat32_vfs_opendir; fs_readdir := Some fat32_vfs_readdir; fs_closedir := Some fat32_vfs_closedir;
  fs_unlink := Some fat32_vfs_unlink; fs_rename := Some fat32_vfs_move; fs_stat := Some fat32_vfs_stat; fs_clear := set_private None; fs_next := 0 |}.

(** [fs] is the address of the structure. *)
Definition fat32_register_vfs (fs : Z) : Effect.M (vfs (fat_vfs D)) error_code_t := vfs_register_filesystem fs.

End operations.

(** ** Opening a file *)

Section through_vfs.
  Context {D : Type} (mem_ok : nat -> bool) (garbage : nat -> nat -> Z) (now : rtc_time_t) (files_base : Z) (fuel : nat).

#[local] Abbreviation st := (vfs (fat_vfs D)).
#[local] Abbreviation system := (fat32_vfs_filesystem (D := D) mem_ok garbage now files_base fuel).
#[local] Open Scope effect_scope.

Lemma file_open_handle (dev : block_device_t D) path flags s h s' : fat32_file_open dev mem_ok garbage now path flags s = Ret (ERR_OK, h) s' -> exists i, h = Some i /\ 0 <= i < MAX_FAT32_FILES.
Proof.
  unfold fat32_file_open. intros (u & s1 & _ & H)%bind_Ret. apply bind_Ret in H as (r & s2 & _ & H). apply bind_Ret in H as (r' & s3 & _ & H).
  case_bool_decide as Hr; cbn [negb] in H; [|by injection H as H _ _]. destruct (is_directory _); [done|]. apply bind_Ret in H as (a & s4 & Ha & H). destruct a as [i|]; [|done].
  assert (Hi : 0 <= i < MAX_FAT32_FILES).
  { unfold fat32_alloc_file in Ha. apply bind_Ret in Ha as (sl & s5 & _ & Ha). destruct (find_first _ _ _) as [j|] eqn:Hf; [|done]. apply find_first_Some in Hf as (Hj & _).
    apply bind_Ret in Ha as (? & ? & _ & Ha). apply bind_Ret in Ha as (? & ? & _ & [= <- _]). unfold MAX_FAT32_FILES in *. lia. }
  exists i. split; [|done]. apply bind_Ret in H as (? & s5 & _ & H). destruct (_ && _); [|by injection H as <- _].
  apply bind_Ret in H as (l & s6 & _ & H). apply bind_Ret in H as (? & s7 & _ & H). case_bool_decide as Hl; cbn [negb] in H; [by injection H as <- _|]. apply bind_Ret in H as (? & ? & _ & H). by injection H as H _ _.
Qed.

Lemma fd_negative i : 2 ^ 64 - 2 ^ 31 <= files_base -> files_base + HANDLE_SIZE * MAX_FAT32_FILES <= 2 ^ 64 -> 0 <= i < MAX_FAT32_FILES -> fd_of files_base (Some i) < 0.
Proof. intros Hb He Hi. unfold fd_of, to_fd, u32, wrap, HANDLE_SIZE, MAX_FAT32_FILES in *. rewrite (Z.mod_eq _ (2 ^ 32)) by done. assert ((files_base + 80 * i) / 2 ^ 32 = 2 ^ 32 - 1) as -> by (symmetry; apply (Z.div_unique _ _ _ (files_base + 80 * i - 2 ^ 32 * (2 ^ 32 - 1))); lia). case_match; lia. Qed.

Lemma vfs_open_handle path flags fd fd' data (w w' : fat_vfs D) : fat32_vfs_open mem_ok garbage now files_base path flags fd w = Ret (ERR_OK, fd', data) w' ->
  exists i, 0 <= i < MAX_FAT32_FILES /\ fd' = fd_of files_base (Some i).
Proof.
  unfold fat32_vfs_open, with_private. erewrite bind_run by reflexivity. destruct (private_data w) as [dev|]; [|done]. intros (r & w1 & Hr & [= Hok <- _ _])%bind_Ret. destruct r as [e h]. cbn [fst snd] in *. subst e.
  unfold on_files, on_part in Hr. destruct (fat32_file_open _ _ _ _ _ _ _) as [y x| | | |] eqn:E; try done. injection Hr as -> _. apply file_open_handle in E as (i & -> & Hi). by exists i.
Qed.

(** C39. No file of a FAT volume can be opened.  The descriptor that [vfs_open] has taken is
    replaced by the address of the handle as an [int], which is negative in a kernel that
    is linked in the upper 2 GiB: the call returns an error, or it stores outside the
    table of descriptors. *)
Theorem fat_vfs_open_fails uid gid path flags fd (s s' : st) p m f rel :
  2 ^ 64 - 2 ^ 31 <= files_base -> files_base + HANDLE_SIZE * MAX_FAT32_FILES <= 2 ^ 64 ->
  vfs_resolve_path path s = Ret (ERR_OK, p, rel) s -> mounts s !! p = Some m -> systems s !! m_fs m = Some f -> fs_stat f = fs_stat system -> fs_open f = fs_open system ->
  vfs_open uid gid path flags s <> Ret (ERR_OK, fd) s'.
Proof.
  intros Hb He Hres Hm Hf Hstat Hopen H. unfold vfs_open in H. rewrite (bind_run _ _ _ _ _ Hres) in H. cbv beta iota in H. destruct (_ || _); [done|].
  erewrite bind_run in H by (unfold mount_at; by rewrite Hm). destruct (m_fs m =? 0); [done|]. apply bind_Ret in H as (new & s1 & Ha & H). destruct (new <? 0); [done|].
  apply bind_Ret in H as (f' & s2 & Hf' & H). assert (systems s1 = systems s) as Hs1.
  { destruct (allocate_run s) as [E|(i & s3 & E & _ & _ & _ & w & t & -> & _)]; rewrite E in Ha; injection Ha as _ <-; done. }
  unfold system_at in Hf'. rewrite Hs1, Hf in Hf'. injection Hf' as <- <-. apply bind_Ret in H as (x & s3 & _ & H). destruct (match x with (ERR_OK, Some _) => _ | _ => _ end); [by apply bind_Ret in H as (? & ? & _ & H)|].
  apply bind_Ret in H as (o & s4 & Ho & H). rewrite Hopen in Ho. cbn [fs_open fat32_vfs_filesystem] in Ho. destruct o as [[err fd'] data].
  case_bool_decide as Herr; cbn [negb] in H; [|apply bind_Ret in H as (? & ? & _ & H); injection H as -> _ _; done]. subst err.
  apply bind_Ret in H as (? & s5 & H & _). enough (fd' < 0) by (unfold set_fd in H; replace (0 <=? fd') with false in H by lia; done).
  unfold on_world in Ho. destruct (fat32_vfs_open _ _ _ _ _ _ _ _) as [r w| | | |] eqn:E; try done. injection Ho as -> _. apply vfs_open_handle in E as (i & Hi & ->). by apply fd_negative.
Qed.

End through_vfs.

(** ** Directories *)

Lemma on_part_runs {D S A} (part : fat_vfs D -> S) put (m : Effect.M S A) Q s : runs m Q (part s) -> runs (on_part part put m) (fun a s' => exists x, s' = put s x /\ Q a x) s.
Proof. intros (a & x & E & Hq). exists a, (put s x). split; [unfold on_part; by rewrite E|by exists x]. Qed.

Lemma on_world_state {F A} (m : Effect.M F A) Q (s : vfs F) : runs m Q (world s) -> runs (on_world m) (fun a s' => exists w, s' = set_world s w /\ Q a w) s.
Proof. intros (a & w & E & Hq). exists a, (set_world s w). split; [unfold on_world; by rewrite E|by exists w]. Qed.

Lemma on_vol_runs {D A} (m : Effect.M (fat32 D) A) Q s : runs m Q (vol s) -> runs (on_vol m) (fun a s' => exists v, s' = {| vol := v; dir_handles := dir_handles s; next_dir_handle := next_dir_handle s |} /\ Q a v) s.
Proof. intros (a & v & E & Hq). eexists a, _. split; [unfold on_vol; by rewrite E|by exists v]. Qed.

Section directories.
  Context {D : Type} (dev : block_device_t D) (medium : D -> Z -> list Z) `{Hdisk : !Disk dev medium}.
  Context (mem_ok : nat -> bool) (garbage : nat -> nat -> Z) (mem_ok_all : forall n, mem_ok n = true).
  Context (now : rtc_time_t) (files_base : Z) (fuel : nat).

#[local] Abbreviation st := (fat_dirs D).
#[local] Abbreviation represents := (Fat.represents dev medium).
#[local] Abbreviation cluster_data := (Fat.cluster_data medium).
#[local] Abbreviation resolves := (FatDir.resolves medium).
#[local] Open Scope effect_scope.

(** The handle of a directory that was just opened. *)
Definition opened_dir (cluster : Z) (b : list Z) : fat32_dir_handle_t := {| dh_open := true; dh_cluster := cluster; dh_current := 0; dh_buffer := b; dh_dirty := false |}.

Lemma alloc_dir_handle_run (s : st) : 0 <= next_dir_handle s < MAX_DIR_HANDLES -> (exists i, 0 <= i < MAX_DIR_HANDLES /\ dh_open (dir_handles s i) = false) ->
  runs fat32_alloc_dir_handle (fun fd s' => 0 <= fd < MAX_DIR_HANDLES /\ vol s' = vol s /\ dir_handles s' = dir_handles s) s.
Proof.
  intros Hn (i & Hi & Hfree). unfold MAX_DIR_HANDLES in *. eapply runs_step; [reflexivity|]. eapply runs_step; [reflexivity|]. destruct (find_first _ _ _) as [j|] eqn:Hf.
  - eapply runs_step; [reflexivity|]. apply runs_ret. split; [apply Z.mod_pos_bound; done|done].
  - assert (H : exists j, 0 <= j < 16 /\ (next_dir_handle s + j) mod 16 = i) by (exists ((i - next_dir_handle s) mod 16); split; [by apply Z.mod_pos_bound|rewrite Zplus_mod_idemp_r; replace (_ + _) with i by lia; by apply Z.mod_small]).
    destruct H as (j & Hj & Hij). pose proof (proj1 (find_first_None _ _ _) Hf j ltac:(unfold MAX_DIR_HANDLES; lia)) as H. cbv beta in H. unfold MAX_DIR_HANDLES in H. by rewrite Hij, Hfree in H.
Qed.

Lemma opendir_spec path cs x (s : st) t : represents (vol s) t -> cs <> [] -> fat32_parse_path path = Some cs -> resolves (vol s) t (root_cluster (params (vol s))) cs x -> is_directory x = true -> valid (vol s) (entry_cluster x) ->
  0 <= next_dir_handle s < MAX_DIR_HANDLES -> (exists i, 0 <= i < MAX_DIR_HANDLES /\ dh_open (dir_handles s i) = false) ->
  runs (fat32_opendir dev mem_ok garbage path)
    (fun r s' => exists fd, r = (ERR_OK, fd) /\ 0 <= fd < MAX_DIR_HANDLES /\ params (vol s') = params (vol s) /\ dir_handles s' fd = opened_dir (entry_cluster x) (cluster_data (vol s) (entry_cluster x))) s.
Proof.
  intros Hr Hne Hcs Hres Hdir Hv Hn Hfree. eapply runs_bind; [apply on_vol_runs, (uninit_runs dev medium), Hr|]. intros u s1 (v1 & -> & _ & Hr1 & Hu1).
  eapply runs_bind; [apply on_vol_runs, (find_path_spec dev medium mem_ok garbage mem_ok_all path cs x); [exact Hr1|done|done|cbn [vol]; rewrite (proj1 Hu1); by eapply resolves_unchanged]|]. intros r s2 (v2 & -> & -> & Hr2 & Hu2). cbn [fst snd dir_handles next_dir_handle vol] in *.
  rewrite bool_decide_true, Hdir by done. cbn [negb]. eapply runs_bind; [by apply alloc_dir_handle_run|]. cbn [vol dir_handles]. intros fd s3 (Hfd & Hv3 & Hh3). replace (fd <? 0) with false by lia.
  eapply runs_step; [reflexivity|]. cbv beta. rewrite Hv3. pose proof (proj1 Hu1) as P1. pose proof (proj1 Hu2) as P2.
  eapply runs_bind; [apply on_vol_runs, (kmalloc_spec dev medium mem_ok garbage mem_ok_all _ _ t); [by rewrite Hv3|rewrite P2; by eapply (cluster_size dev medium v1)]|]. intros b s4 (v4 & -> & Hbl & Hb & Hr4 & Hu4). rewrite Hv3 in Hu4. pose proof (proj1 Hu4) as P4.
  rewrite bool_decide_false by done. eapply runs_bind; [apply on_vol_runs, (read_cluster_runs dev medium v4 (entry_cluster x) b); [apply Hr4|unfold valid in *; by rewrite P4, P2, P1|by rewrite Hbl, P4]|].
  intros r s5 (v5 & -> & -> & _ & Hu5). cbn [fst snd]. rewrite bool_decide_true by done. cbn [negb]. eapply runs_step; [reflexivity|]. apply runs_ret. exists fd. split; [done|]. split; [done|].
  cbn [vol dir_handles]. split; [by rewrite (proj1 Hu5), P4, P2, P1|]. rewrite aset_eq. unfold opened_dir. by rewrite (cluster_data_unchanged medium v2 v4), (cluster_data_unchanged medium v1 v2), (cluster_data_unchanged medium (vol s) v1).
Qed.

Lemma readdir_dot (s : st) fd n new parent b : 0 <= fd < MAX_DIR_HANDLES -> dir_handles s fd = opened_dir new b -> dot_block n new parent b -> (32 <= n)%nat -> n = Z.to_nat (bytes_per_cluster (params (vol s))) -> (0 < fuel)%nat ->
  runs (fat32_readdir dev fuel fd) (fun r _ => r = (ERR_OK, Some {| ino := new; d_name := [dot]; d_type := VFS_TYPE_DIRECTORY |})) s.
Proof.
  intros Hfd Hh (Hbl & Hb & Hname & Hattr & Hcl & _) Hn Hbpc Hfuel. unfold fat32_readdir, fat32_get_dir_handle. replace (_ || _) with false by (unfold MAX_DIR_HANDLES in *; lia).
  eapply runs_step; [erewrite bind_run by reflexivity; rewrite Hh; reflexivity|]. cbv beta iota. eapply runs_step; [reflexivity|]. destruct fuel as [|k]; [lia|]. cbn [readdir_loop dh_current opened_dir dh_buffer].
  assert (0 < bytes_per_cluster (params (vol s)) / ENTRY_SIZE) by (apply Z.div_str_pos; unfold ENTRY_SIZE; lia). replace (_ <=? 0) with false by lia. eapply runs_step; [reflexivity|]. cbn [snd fst]. rewrite bool_decide_true by done. cbn [negb dh_buffer opened_dir dh_current].
  eapply runs_step; [apply rd_run; cbn; lia|]. cbv beta. change (take 32 (drop _ b)) with (entry_at b 0).
  assert (H0 : field 0 1 (entry_at b 0) = dot).
  { assert (E : field 0 1 (entry_at b 0) = field 0 1 (entry_name (entry_at b 0))) by (unfold entry_name; destruct (entry_at b 0); done). by rewrite E, Hname. }
  rewrite H0, Hattr, name_is_e5_false. eapply runs_step; [reflexivity|]. apply runs_ret. unfold dirent_of, type_of, is_directory. rewrite Hattr, Hname. fold (entry_cluster (entry_at b 0)). by rewrite Hcl.
Qed.

#[local] Abbreviation system := (fat32_vfs_filesystem (D := D) mem_ok garbage now files_base fuel).

Lemma with_private_runs {A} (null : A) k Q (s : fat_vfs D) : private_data s = Some dev -> runs (k dev) Q s -> runs (with_private null k) Q s.
Proof. intros Hp H. unfold with_private. eapply runs_step; [reflexivity|]. by rewrite Hp. Qed.

(** C16. Making and listing a directory in the root of a FAT volume.  The path leads to a
    mounted volume of 512-byte blocks, and what remains of it is one component: one to eight
    bytes without dot, slash or zero, whose stored form no entry of the root directory has.
    The first free entry of the root directory is one of the first sixteen of its cluster,
    and a cluster, a directory handle and a descriptor are free; allocations succeed.  Then a
    directory made at the path through the virtual file system can be opened and read, and
    its first entry is the one for itself. *)
Theorem fat_vfs_mkdir_listed (s : vfs (fat_vfs D)) path p m f name t l c i new :
  leads s path p m f name -> fs_mkdir f = fs_mkdir system -> fs_opendir f = fs_opendir system -> fs_readdir f = fs_readdir system -> (0 < fuel)%nat ->
  private_data (world s) = Some dev -> block_size dev = 512 -> represents (volume (world s)) t -> room medium (volume (world s)) t l c i new -> valid (volume (world s)) c -> (i < 16)%nat -> c ∈ l ->
  component_ok name -> bytes name -> (dot ∉ name) -> (0 ∉ name) -> (length name <= 8)%nat -> Forall (fun e => entry_name e <> fat32_format_filename name) (dir_entries medium (volume (world s)) l) ->
  0 <= next_dir (world s) < MAX_DIR_HANDLES -> (exists i, 0 <= i < MAX_DIR_HANDLES /\ dh_open (open_dirs (world s) i) = false) -> (exists i, 0 <= i < MAX_FDS /\ used (fd_table s i) = false) ->
  runs (e <~ vfs_mkdir path;; o <~ vfs_opendir path;; r <~ vfs_readdir (snd o);; ret (e, fst o, r))
    (fun x _ => x = (ERR_OK, ERR_OK, (ERR_OK, Some {| ino := new; d_name := [dot]; d_type := VFS_TYPE_DIRECTORY |}))) s.
Proof.
  intros Hleads Hmk Hop Hrd Hfuel Hpriv H512 Hr Hroom Hv Hi Hc Hok Hb Hdot H0 H8 Hnone Hnext Hdir Hfd.
  assert (Hpath : fat32_parse_path name = Some [name]) by exact (proj2 (fat_path_roundtrip [name] ltac:(by apply Forall_singleton) ltac:(cbn; lia))).
  eapply (runs_bind _ _ (fun e s1 => e = ERR_OK /\ exists v, s1 = set_world s (set_volume (world s) v) /\ params v = params (volume (world s)) /\ represents v (t.[new <- FAT32_CLUSTER_EOF_MIN]) /\
    dot_block (Z.to_nat (bytes_per_cluster (params v))) new (root_cluster (params v)) (cluster_data v new) /\ exists x, resolves v (t.[new <- FAT32_CLUSTER_EOF_MIN]) (root_cluster (params v)) [name] x /\ is_directory x = true /\ entry_cluster x = new)).
  { unfold vfs_mkdir, path_call. eapply runs_step; [by eapply leads_run|]. cbv beta iota. rewrite Hmk. cbn [fs_mkdir fat32_vfs_filesystem]. eapply runs_mono.
    - apply on_world_state, with_private_runs; [done|]. apply on_part_runs, (mkdir_resolves dev medium mem_ok garbage mem_ok_all name name _ t l c i new); try done. apply Hok.
    - intros e s1 (w & -> & v & -> & -> & Hr1 & Hp1 & Hd1 & Hx). split; [done|]. exists v. rewrite Hp1 in *. done. }
  intros e s1 (-> & v & -> & Hp1 & Hr1 & Hd1 & x & Hres & Hxd & Hxc). set (s1 := set_world s (set_volume (world s) v)).
  eapply (runs_bind _ _ (fun o s2 => exists fd h w tb, o = (ERR_OK, fd) /\ 0 <= fd < MAX_FDS /\ s2 = set_fds (tb.[fd <- {| used := true; fd_fs := m_fs m; file_data := h; fd_position := 0; fd_flags := 0 |}]) (set_world s w) /\
    0 <= h < MAX_DIR_HANDLES /\ private_data w = Some dev /\ params (volume w) = params v /\ open_dirs w h = opened_dir new (cluster_data v new))).
  { destruct (allocate_free s1) as (fd & tb & Ea & Hfd'); [done|]. unfold vfs_opendir. eapply runs_step; [eapply (leads_run s1); by destruct Hleads|]. cbv beta iota. rewrite Hop. cbn [fs_opendir fat32_vfs_filesystem].
    eapply runs_step; [exact Ea|]. replace (fd <? 0) with false by lia. eapply runs_bind.
    - apply on_world_state, with_private_runs; [done|]. apply on_part_runs. apply (opendir_spec name [name] x _ (t.[new <- FAT32_CLUSTER_EOF_MIN])); cbn [vol dir_handles next_dir_handle world set_fds s1 set_world volume set_volume open_dirs next_dir]; try done.
      rewrite Hxc. unfold valid. rewrite Hp1. pose proof (room_cluster _ _ _ _ _ _ _ Hroom) as Hn%find_first_Some. lia.
    - intros o s2 (w & -> & y & -> & h & -> & Hh & Hpy & Hdy). cbn [fst snd]. rewrite bool_decide_true by done. cbn [negb]. eapply runs_step; [unfold mount_at; cbn [mounts set_fds set_world s1]; by rewrite (proj2 (leads_mount _ _ _ _ _ _ Hleads))|].
      unfold set_fd. replace (_ && _) with true by lia. eapply runs_step; [reflexivity|]. apply runs_ret. eexists fd, h, _, tb. split; [done|]. split; [done|]. split; [reflexivity|]. cbn. rewrite <- Hxc. done. }
  intros o s2 (fd & h & w & tb & -> & Hfd2 & -> & Hh & Hw & Hpw & Hdw). eapply (runs_bind _ _ (fun r _ => r = (ERR_OK, Some {| ino := new; d_name := [dot]; d_type := VFS_TYPE_DIRECTORY |}))); [|intros r s3 ->; by apply runs_ret].
  destruct (leads_system _ _ _ _ _ _ Hleads) as [Hf0 Hf]. eapply runs_step; [apply (dir_op_run fd fs_readdir _ f); cbn [fd_table set_fds systems set_world snd]; rewrite ?aset_eq; done|].
  cbn [fd_table set_fds snd]. rewrite Hrd, aset_eq. cbn [fs_readdir fat32_vfs_filesystem fmap option_fmap option_map file_data]. pose proof (geo_cluster _ _ (mnt_geo _ _ _ (proj1 Hr1))) as [Hspc Hbpc].
  eapply runs_mono; [apply on_world_state, with_private_runs; [done|]; apply on_part_runs, (readdir_dot _ h (Z.to_nat (bytes_per_cluster (params v))) new (root_cluster (params v)) (cluster_data v new))|];
    cbn [vol dir_handles world set_fds set_world]; [done|exact Hdw|exact Hd1|rewrite Hbpc, H512; lia|by rewrite Hpw|done|by intros r s3 (? & _ & ? & _ & ->)].
Qed.

End directories.

(** ** An example

    The volume of [FatDir]'s example, with the file A, is mounted at /.  The handles are at
    the start of the last page of memory. *)
Section example.

#[local] Open Scope effect_scope.

Definition sample_system : vfs_filesystem_t (fat_vfs (gmap Z (list Z))) := fat32_vfs_filesystem (fun _ => true) (fun _ _ => 0) sample_time (2 ^ 64 - 8192) 1.

Definition sample_vfs : vfs (fat_vfs (gmap Z (list Z))) := {|
  world := {| registry := {| devs := {[1 := sample_device]}; block_devices := 1 |}; volume := sample_volume; open_files := fun _ => zero_file; file_slots := fun _ => false;
              open_dirs := fun _ => no_handle; next_dir := 0; private_data := Some sample_device |};
  systems := {[1 := sample_system]}; filesystems := 1; mounts := {[10 := {| mountpoint := [slash]; m_fs := 1; m_next := 0 |}]}; mount_points := 10; root_mount := 10; fd_table := fun _ => no_fd |}.

(** The file A is there, and opening it ends outside the table of descriptors. *)
Lemma fat_vfs_open_fails_witness : vfs_open 0 0 [slash; 65] VFS_MODE_READ sample_vfs = Fault /\ forall fd s', vfs_open 0 0 [slash; 65] VFS_MODE_READ sample_vfs <> Ret (ERR_OK, fd) s'.
Proof.
  split; [by vm_compute|]. intros fd s'. apply (fat_vfs_open_fails (fun _ => true) (fun _ _ => 0) sample_time (2 ^ 64 - 8192) 1 0 0 [slash; 65] VFS_MODE_READ fd sample_vfs s' 10 {| mountpoint := [slash]; m_fs := 1; m_next := 0 |} sample_system [65]).
  - lia.
  - unfold HANDLE_SIZE, MAX_FAT32_FILES; lia.
  - apply (resolve_run [slash; 65] sample_vfs [10]). cbn. eauto.
  - done.
  - done.
  - done.
  - done.
Defined.

Lemma fat_vfs_mkdir_listed_witness : runs (e <~ vfs_mkdir [slash; 66];; o <~ vfs_opendir [slash; 66];; r <~ vfs_readdir (snd o);; ret (e, fst o, r))
    (fun x _ => x = (ERR_OK, ERR_OK, (ERR_OK, Some {| ino := 5; d_name := [dot]; d_type := VFS_TYPE_DIRECTORY |}))) sample_vfs.
Proof.
  apply (fat_vfs_mkdir_listed sample_device (ram_medium 512) (fun _ => true) (fun _ _ => 0) (fun _ => eq_refl) sample_time (2 ^ 64 - 8192) 1 sample_vfs [slash; 66] 10 {| mountpoint := [slash]; m_fs := 1; m_next := 0 |} sample_system [66] (table_of sample_fat) [2] 2 1 5);
    [|done|done|done|lia|done|done|apply sample_represents|apply sample_room|by vm_compute|lia|left|apply sample_component|repeat constructor; fits_lia|by rewrite list_elem_of_singleton|by rewrite list_elem_of_singleton|cbn; lia|by apply sample_names|done|by exists 0|by exists 0].
  split; [exists [10]; split; [cbn; eauto|done]|done|done].
Defined.

End example.
