(* ===== verification/KString.v ===== *)
(** * Memory and string routines (kernel/core/string.c)

    Byte memory is an array indexed by address, a pointer is its address and
    the null pointer is 0.  A routine returns the memory it leaves together with
    its C result.  Loops that run to a terminator take the number of iterations
    as fuel and return [None] when it runs out; the theorems give the fuel that
    is always enough. *)

From stdpp Require Import base tactics list numbers option.
From Stdlib Require Import Lia.
From S2P Require Import Prelude.

Definition mem : Type := arr Z.
Definition is_null (p : Z) : bool := p =? 0.

(** ** Memory areas *)

Definition copy_forward (m : mem) (d s n : Z) : mem :=
  for_loop (Z.to_nat n) 0 (fun i m => m.[d + i <- m (s + i)]) m.

(** [for (i = n; i > 0; i--) d[i - 1] = s[i - 1]], with [k = n - i] counting up. *)
Definition copy_backward (m : mem) (d s n : Z) : mem :=
  for_loop (Z.to_nat n) 0 (fun k m => let i := n - k in m.[d + (i - 1) <- m (s + (i - 1))]) m.

Definition memcpy (m : mem) (dest src n : Z) : mem * Z :=
  if (is_null dest || is_null src)%bool then (m, dest) else (copy_forward m dest src n, dest).

Definition memmove (m : mem) (dest src n : Z) : mem * Z :=
  if (is_null dest || is_null src)%bool then (m, dest)
  else if dest <? src then (copy_forward m dest src n, dest)
  else if src <? dest then (copy_backward m dest src n, dest)
  else (m, dest).

Definition memset (m : mem) (s c n : Z) : mem * Z :=
  if is_null s then (m, s)
  else (for_loop (Z.to_nat n) 0 (fun i m => m.[s + i <- u8 c]) m, s).

Definition memcmp (m : mem) (s1 s2 n : Z) : Z :=
  if (is_null s1 || is_null s2)%bool then (if s1 =? s2 then 0 else 1)
  else match find_first (fun i => negb (m (s1 + i) =? m (s2 + i))) 0 (Z.to_nat n) with
       | Some i => m (s1 + i) - m (s2 + i)
       | None => 0
       end.

Definition memchr (m : mem) (s c n : Z) : Z :=
  if is_null s then 0
  else match find_first (fun i => m (s + i) =? u8 c) 0 (Z.to_nat n) with
       | Some i => s + i
       | None => 0
       end.

(** ** Terminated strings *)

Definition strlen (fuel : nat) (m : mem) (str : Z) : option Z :=
  if is_null str then Some 0 else find_first (fun i => m (str + i) =? 0) 0 fuel.

(** [while ( *s) *d++ = *s++; *d = 0]. *)
Fixpoint copy_string (fuel : nat) (m : mem) (d s : Z) : option mem :=
  match fuel with
  | O => None
  | S f => if m s =? 0 then Some (m.[d <- 0]) else copy_string f (m.[d <- m s]) (d + 1) (s + 1)
  end.

Definition strcpy (fuel : nat) (m : mem) (dest src : Z) : option (mem * Z) :=
  if (is_null dest || is_null src)%bool then Some (m, dest)
  else m' ← copy_string fuel m dest src; Some (m', dest).

Definition zero_fill (n : nat) (m : mem) (d : Z) : mem :=
  for_loop n 0 (fun i m => m.[d + i <- 0]) m.

(** [n] is the number of destination bytes still to write. *)
Fixpoint strncpy_loop (n : nat) (m : mem) (d s : Z) : mem :=
  match n with
  | O => m
  | S n' => if m s =? 0 then zero_fill n m d else strncpy_loop n' (m.[d <- m s]) (d + 1) (s + 1)
  end.

Definition strncpy (m : mem) (dest src n : Z) : mem * Z :=
  if (is_null dest || is_null src)%bool then (m, dest)
  else (strncpy_loop (Z.to_nat n) m dest src, dest).

Definition strcat (fuel : nat) (m : mem) (dest src : Z) : option (mem * Z) :=
  if (is_null dest || is_null src)%bool then Some (m, dest)
  else k ← find_first (fun i => m (dest + i) =? 0) 0 fuel;
       m' ← copy_string fuel m (dest + k) src; Some (m', dest).

Fixpoint strncat_loop (n : nat) (m : mem) (d s : Z) : mem :=
  match n with
  | O => m.[d <- 0]
  | S n' => if m s =? 0 then m.[d <- 0] else strncat_loop n' (m.[d <- m s]) (d + 1) (s + 1)
  end.

Definition strncat (fuel : nat) (m : mem) (dest src n : Z) : option (mem * Z) :=
  if (is_null dest || is_null src)%bool then Some (m, dest)
  else k ← find_first (fun i => m (dest + i) =? 0) 0 fuel;
       Some (strncat_loop (Z.to_nat n) m (dest + k) src, dest).

(** The comparison loops stop at a terminator or at the first difference. *)
Definition stop_at (m : mem) (s1 s2 i : Z) : bool :=
  ((m (s1 + i) =? 0) || (m (s2 + i) =? 0) || negb (m (s1 + i) =? m (s2 + i)))%bool.

Definition strcmp (fuel : nat) (m : mem) (s1 s2 : Z) : option Z :=
  if (is_null s1 || is_null s2)%bool then Some (if s1 =? s2 then 0 else 1)
  else i ← find_first (stop_at m s1 s2) 0 fuel; Some (m (s1 + i) - m (s2 + i)).

Definition strncmp (m : mem) (s1 s2 n : Z) : Z :=
  if (is_null s1 || is_null s2)%bool then (if s1 =? s2 then 0 else 1)
  else if n =? 0 then 0
  else match find_first (stop_at m s1 s2) 0 (Z.to_nat n) with
       | None => 0
       | Some i => m (s1 + i) - m (s2 + i)
       end.

Definition strchr (fuel : nat) (m : mem) (s c : Z) : option Z :=
  if is_null s then Some 0
  else i ← find_first (fun i => ((m (s + i) =? 0) || (m (s + i) =? u8 c))%bool) 0 fuel;
       Some (if (negb (m (s + i) =? 0) || (u8 c =? 0))%bool then s + i else 0).

(** [last] is the latest hit, 0 when there is none. *)
Fixpoint strrchr_loop (fuel : nat) (m : mem) (s ch last : Z) : option Z :=
  match fuel with
  | O => None
  | S f => if m s =? 0 then Some (if ch =? 0 then s else last)
           else strrchr_loop f m (s + 1) ch (if m s =? ch then s else last)
  end.

Definition strrchr (fuel : nat) (m : mem) (s c : Z) : option Z :=
  if is_null s then Some 0 else strrchr_loop fuel m s (u8 c) 0.

Fixpoint strstr_loop (fuel : nat) (m : mem) (haystack needle needle_len : Z) : option Z :=
  match fuel with
  | O => None
  | S f => if m haystack =? 0 then Some 0
           else if strncmp m haystack needle needle_len =? 0 then Some haystack
           else strstr_loop f m (haystack + 1) needle needle_len
  end.

Definition strstr (fuel : nat) (m : mem) (haystack needle : Z) : option Z :=
  if (is_null haystack || is_null needle)%bool then Some 0
  else if m needle =? 0 then Some haystack
  else needle_len ← strlen fuel m needle; strstr_loop fuel m haystack needle needle_len.

(** [dup] is what [kmalloc(strlen(s) + 1)] returned. *)
Definition strdup (fuel : nat) (m : mem) (s dup : Z) : option (mem * Z) :=
  if is_null s then Some (m, 0)
  else n ← strlen fuel m s;
       let len := n + 1 in
       if is_null dup then Some (m, 0) else Some (fst (memcpy m dup s len), dup).

(** * Copies *)

Lemma copy_forward_get m d s n a :
  0 <= n -> d < s \/ d + n <= s \/ s + n <= d ->
  copy_forward m d s n a = if ((d <=? a) && (a <? d + n))%bool then m (s + (a - d)) else m a.
Proof.
  intros Hn Hd. unfold copy_forward.
  refine (for_range_ind (fun k m' => forall a,
    m' a = if ((d <=? a) && (a <? d + k))%bool then m (s + (a - d)) else m a) n _ m Hn _ _ a).
  - intros a'. by if_lia.
  - intros k m' Hk H a'. unfold aset. destruct (Z.eqb_spec a' (d + k)) as [->|Hne].
    + rewrite H. replace ((d <=? s + k) && (s + k <? d + k))%bool with false by lia.
      replace ((d <=? d + k) && (d + k <? d + (k + 1)))%bool with true by lia. f_equal. lia.
    + rewrite H. by replace (a' <? d + (k + 1)) with (a' <? d + k) by lia.
Qed.

Lemma copy_backward_get m d s n a :
  0 <= n -> s < d ->
  copy_backward m d s n a = if ((d <=? a) && (a <? d + n))%bool then m (s + (a - d)) else m a.
Proof.
  intros Hn Hd. unfold copy_backward.
  pose proof (for_range_ind (fun k m' => forall a,
    m' a = if ((d + (n - k) <=? a) && (a <? d + n))%bool then m (s + (a - d)) else m a) n
    (fun k m => let i := n - k in m.[d + (i - 1) <- m (s + (i - 1))]) m Hn) as H.
  rewrite H; clear H.
  - by replace (d + (n - n)) with d by lia.
  - intros a'. by if_lia.
  - intros k m' Hk H a'. cbv zeta. unfold aset. destruct (Z.eqb_spec a' (d + (n - k - 1))) as [->|Hne].
    + rewrite H. replace ((d + (n - k) <=? s + (n - k - 1)) && (s + (n - k - 1) <? d + n))%bool with false by lia.
      replace ((d + (n - (k + 1)) <=? d + (n - k - 1)) && (d + (n - k - 1) <? d + n))%bool with true by lia.
      f_equal. lia.
    + rewrite H. by replace (d + (n - (k + 1)) <=? a') with (d + (n - k) <=? a') by lia.
Qed.

(** * Strings in memory *)

(** The bytes [l], none of them 0, lie at [p], followed by the terminator. *)
Definition cstr (m : mem) (p : Z) (l : list Z) : Prop :=
  Forall (fun c => 0 < c < 256) l /\
  forall i, 0 <= i <= Z.of_nat (length l) -> m (p + i) = nth (Z.to_nat i) l 0.

Lemma cstr_char m p l i :
  cstr m p l -> 0 <= i < Z.of_nat (length l) -> 0 < m (p + i) < 256.
Proof.
  intros [Hf Hm] Hi. rewrite Hm by lia. apply (proj1 (List.Forall_forall _ _) Hf), nth_In. lia.
Qed.

Lemma cstr_end m p l : cstr m p l -> m (p + Z.of_nat (length l)) = 0.
Proof. intros [_ Hm]. rewrite Hm by lia. apply nth_overflow. lia. Qed.

Lemma cstr_tail m p c l : cstr m p (c :: l) -> cstr m (p + 1) l.
Proof.
  intros [Hf Hm]. split; [by inversion Hf|]. intros i Hi.
  replace (p + 1 + i) with (p + (i + 1)) by lia. rewrite Hm by (simpl; lia).
  replace (Z.to_nat (i + 1)) with (S (Z.to_nat i)) by lia. done.
Qed.

Lemma cstr_head m p c l : cstr m p (c :: l) -> m p = c /\ 0 < c < 256.
Proof.
  intros H. pose proof (cstr_char m p _ 0 H ltac:(simpl; lia)) as Hc.
  destruct H as [_ Hm]. specialize (Hm 0). rewrite Z.add_0_r in *.
  simpl in Hm. rewrite Hm in * by lia. done.
Qed.

Lemma cstr_nil m p : cstr m p [] -> m p = 0.
Proof. intros H. apply cstr_end in H. by rewrite Z.add_0_r in H. Qed.

Lemma strlen_cstr fuel m p l :
  cstr m p l -> p <> 0 -> (length l < fuel)%nat -> strlen fuel m p = Some (Z.of_nat (length l)).
Proof.
  intros H Hp Hf. unfold strlen, is_null. rewrite (proj2 (Z.eqb_neq _ _)) by done.
  apply find_first_Some. split_and!; [lia|lia|by rewrite (cstr_end m p l H)|].
  intros j Hj. apply Z.eqb_neq. pose proof (cstr_char m p l j H). lia.
Qed.

(** Writes outside a string leave it in place. *)
Lemma cstr_ext m m' p l :
  cstr m p l -> (forall i, 0 <= i <= Z.of_nat (length l) -> m' (p + i) = m (p + i)) -> cstr m' p l.
Proof. intros [Hf Hm] He. split; [done|]. intros i Hi. by rewrite He, Hm. Qed.

(** [d .. d + n] and [s .. s + k] do not meet. *)
Definition apart (d n s k : Z) : Prop := d + n < s \/ s + k < d.

Lemma copy_string_spec l : forall fuel m d s,
  cstr m s l -> apart d (Z.of_nat (length l)) s (Z.of_nat (length l)) -> (length l < fuel)%nat ->
  exists m', copy_string fuel m d s = Some m' /\
  forall a, m' a = if ((d <=? a) && (a <=? d + Z.of_nat (length l)))%bool
                   then nth (Z.to_nat (a - d)) l 0 else m a.
Proof.
  induction l as [|c l IH]; intros fuel m d s Hs Hd Hf; destruct fuel as [|fuel]; simpl in *; try lia.
  - rewrite (cstr_nil m s Hs). simpl. eexists. split; [done|]. intros a. unfold aset.
    change (Z.of_nat 0) with 0.
    destruct (Z.eqb_spec a d) as [->|].
    + if_lia. by rewrite Z.sub_diag.
    + by if_lia.
  - destruct (cstr_head m s c l Hs) as [-> Hc]. rewrite (proj2 (Z.eqb_neq _ _)) by lia.
    unfold apart in *. destruct (IH fuel (m.[d <- c]) (d + 1) (s + 1)) as (m' & -> & Hm'); [|lia|lia|].
    + eapply cstr_ext; [by eapply cstr_tail|]. intros i Hi. apply aset_ne. lia.
    + exists m'. split; [done|]. intros a. rewrite Hm'. unfold aset. rewrite Nat2Z.inj_succ.
      destruct (Z.eqb_spec a d) as [->|Hne].
      * if_lia. if_lia. by rewrite Z.sub_diag.
      * replace (d + Z.succ (Z.of_nat (length l))) with (d + 1 + Z.of_nat (length l)) by lia.
        destruct (Z.leb_spec (d + 1) a), (Z.leb_spec d a); try lia; simpl; [|done].
        destruct (_ <=? _); [|done]. by replace (Z.to_nat (a - d)) with (S (Z.to_nat (a - (d + 1)))) by lia.
Qed.

Lemma zero_fill_get n m d a :
  zero_fill n m d a = if ((d <=? a) && (a <? d + Z.of_nat n))%bool then 0 else m a.
Proof.
  unfold zero_fill. pose proof (for_range_ind (fun k m' => forall a,
    m' a = if ((d <=? a) && (a <? d + k))%bool then 0 else m a) (Z.of_nat n)
    (fun i m => m.[d + i <- 0]) m ltac:(lia)) as H. rewrite Nat2Z.id in H. apply H; clear H.
  - intros a'. by if_lia.
  - intros k m' Hk H a'. unfold aset. destruct (Z.eqb_spec a' (d + k)) as [->|Hne].
    + by if_lia.
    + rewrite H. by replace (a' <? d + (k + 1)) with (a' <? d + k) by lia.
Qed.

Lemma strncpy_loop_spec n : forall m d s l,
  cstr m s l -> d + Z.of_nat n <= s \/ s + Z.of_nat (length l) < d ->
  forall a, strncpy_loop n m d s a =
    if ((d <=? a) && (a <? d + Z.of_nat n))%bool then nth (Z.to_nat (a - d)) l 0 else m a.
Proof.
  induction n as [|n IH]; intros m d s l Hs Hd a.
  { simpl. by if_lia. }
  cbn [strncpy_loop]. destruct l as [|c l].
  { rewrite (cstr_nil m s Hs), Z.eqb_refl, zero_fill_get. simpl. by destruct (Z.to_nat (a - d)). }
  destruct (cstr_head m s c l Hs) as [-> Hc]. rewrite (proj2 (Z.eqb_neq _ _)) by lia. simpl in Hd.
  rewrite (IH (m.[d <- c]) (d + 1) (s + 1) l); [|eapply cstr_ext; [by eapply cstr_tail|]|lia].
  2:{ intros i Hi. apply aset_ne. lia. }
  unfold aset. destruct (Z.eqb_spec a d) as [->|Hne].
  - if_lia. if_lia. by rewrite Z.sub_diag.
  - replace (d + 1 + Z.of_nat n) with (d + Z.of_nat (S n)) by lia.
    destruct (Z.leb_spec (d + 1) a), (Z.leb_spec d a); try lia; simpl; [|done].
    destruct (_ <? _); [|done]. by replace (Z.to_nat (a - d)) with (S (Z.to_nat (a - (d + 1)))) by lia.
Qed.

(** * Comparison *)

(** The byte difference at the first place where two strings differ. *)
Fixpoint lex_diff (l1 l2 : list Z) : Z :=
  match l1, l2 with
  | [], [] => 0
  | [], c :: _ => - c
  | c :: _, [] => c
  | c1 :: t1, c2 :: t2 => if c1 =? c2 then lex_diff t1 t2 else c1 - c2
  end.

Lemma stop_at_shift m a b i : stop_at m a b (i + 1) = stop_at m (a + 1) (b + 1) i.
Proof. unfold stop_at. by replace (a + (i + 1)) with (a + 1 + i) by lia; replace (b + (i + 1)) with (b + 1 + i) by lia. Qed.

Lemma find_stop_step fuel m a b :
  find_first (stop_at m a b) 0 (S fuel) =
  if stop_at m a b 0 then Some 0
  else (fun i => i + 1) <$> find_first (stop_at m (a + 1) (b + 1)) 0 fuel.
Proof.
  cbn [find_first]. destruct (stop_at m a b 0); [done|]. rewrite find_first_shift. f_equal.
  apply find_first_ext. intros. apply stop_at_shift.
Qed.

Lemma compare_spec l1 : forall l2 fuel m a b,
  cstr m a l1 -> cstr m b l2 -> (length l1 < fuel)%nat ->
  exists i, find_first (stop_at m a b) 0 fuel = Some i /\ m (a + i) - m (b + i) = lex_diff l1 l2.
Proof.
  induction l1 as [|c1 l1 IH]; intros l2 fuel m a b Ha Hb Hf; destruct fuel as [|fuel]; simpl in Hf; try lia;
    rewrite find_stop_step; unfold stop_at at 1; rewrite !Z.add_0_r.
  - rewrite (cstr_nil m a Ha). exists 0. split; [done|]. rewrite !Z.add_0_r, (cstr_nil m a Ha).
    destruct l2; [by rewrite (cstr_nil m b Hb)|]. by rewrite (proj1 (cstr_head _ _ _ _ Hb)).
  - destruct (cstr_head m a c1 l1 Ha) as [Ea Hc1]. rewrite Ea.
    destruct l2 as [|c2 l2].
    + rewrite (cstr_nil m b Hb). rewrite Z.eqb_refl, orb_true_r. exists 0. split; [done|].
      rewrite !Z.add_0_r, Ea, (cstr_nil m b Hb). simpl. lia.
    + destruct (cstr_head m b c2 l2 Hb) as [Eb Hc2]. rewrite Eb.
      rewrite (proj2 (Z.eqb_neq c1 0)), (proj2 (Z.eqb_neq c2 0)) by lia. simpl.
      destruct (Z.eqb_spec c1 c2) as [->|Hne]; simpl.
      * destruct (IH l2 fuel m (a + 1) (b + 1)) as (i & -> & Hi);
          [by eapply cstr_tail|by eapply cstr_tail|lia|].
        exists (i + 1). split; [done|]. rewrite <- Hi.
        by replace (a + (i + 1)) with (a + 1 + i) by lia; replace (b + (i + 1)) with (b + 1 + i) by lia.
      * exists 0. split; [done|]. by rewrite !Z.add_0_r, Ea, Eb.
Qed.

Lemma lex_diff_zero l1 l2 :
  Forall (fun c => 0 < c < 256) l1 -> Forall (fun c => 0 < c < 256) l2 -> lex_diff l1 l2 = 0 <-> l1 = l2.
Proof.
  revert l2. induction l1 as [|c1 l1 IH]; intros [|c2 l2] H1 H2; simpl; try done.
  - inversion H2; subst. split; [lia|done].
  - inversion H1; subst. split; [lia|done].
  - inversion H1; inversion H2; subst. destruct (Z.eqb_spec c1 c2) as [->|].
    + rewrite IH by done. split; congruence.
    + split; [lia|congruence].
Qed.

(** * Search *)

Lemma prefix_cons_eq (x : Z) l1 l2 : x :: l1 `prefix_of` x :: l2 <-> l1 `prefix_of` l2.
Proof. split; [apply prefix_cons_inv_2|apply prefix_cons]. Qed.

Lemma strncmp_prefix m a b la lb :
  a <> 0 -> b <> 0 -> cstr m a la -> cstr m b lb -> lb <> [] ->
  strncmp m a b (Z.of_nat (length lb)) = 0 <-> lb `prefix_of` la.
Proof.
  intros Ha Hb Hca Hcb Hne. unfold strncmp, is_null.
  rewrite (proj2 (Z.eqb_neq a 0)), (proj2 (Z.eqb_neq b 0)) by done. simpl.
  rewrite (proj2 (Z.eqb_neq _ 0)) by (destruct lb; simpl; [done|lia]). rewrite Nat2Z.id.
  clear Hne Ha Hb. revert m a b la Hca Hcb.
  induction lb as [|c lb IH]; intros m a b la Hca Hcb.
  { simpl. split; [intros _; apply prefix_nil|done]. }
  cbn [length]. rewrite find_stop_step. unfold stop_at at 1. rewrite !Z.add_0_r.
  destruct (cstr_head m b c lb Hcb) as [Eb Hc]. rewrite Eb.
  destruct la as [|c' la].
  - rewrite (cstr_nil m a Hca). simpl. rewrite !Z.add_0_r, (cstr_nil m a Hca), Eb.
    split; [lia|]. intros Hp. by apply prefix_nil_not in Hp.
  - destruct (cstr_head m a c' la Hca) as [Ea Hc']. rewrite Ea.
    rewrite (proj2 (Z.eqb_neq c' 0)), (proj2 (Z.eqb_neq c 0)) by lia. simpl.
    destruct (Z.eqb_spec c' c) as [->|Hne]; simpl.
    + rewrite prefix_cons_eq. rewrite <- (IH m (a + 1) (b + 1) la) by (by eapply cstr_tail).
      destruct (find_first _ 0 (length lb)) as [i|]; simpl; [|done].
      replace (a + (i + 1)) with (a + 1 + i) by lia. replace (b + (i + 1)) with (b + 1 + i) by lia.
      done.
    + rewrite !Z.add_0_r, Ea, Eb. split; [lia|]. intros Hp. apply prefix_cons_inv_1 in Hp. congruence.
Qed.

Lemma strstr_loop_spec lh : forall fuel m h b lb,
  cstr m h lh -> cstr m b lb -> lb <> [] -> 0 < h -> b <> 0 -> (length lh < fuel)%nat ->
  exists r, strstr_loop fuel m h b (Z.of_nat (length lb)) = Some r /\
  ((exists k : nat, r = h + Z.of_nat k /\ lb `prefix_of` drop k lh /\
      forall j, (j < k)%nat -> ~ lb `prefix_of` drop j lh) \/
   (r = 0 /\ forall j, ~ lb `prefix_of` drop j lh)).
Proof.
  induction lh as [|c lh IH]; intros fuel m h b lb Hh Hb Hne Hh0 Hb0 Hf; destruct fuel as [|fuel];
    simpl in Hf; try lia; cbn [strstr_loop].
  - rewrite (cstr_nil m h Hh). simpl. exists 0. split; [done|]. right. split; [done|].
    intros j Hj. rewrite drop_nil in Hj. destruct lb; [done|]. by apply prefix_nil_not in Hj.
  - destruct (cstr_head m h c lh Hh) as [-> Hc]. rewrite (proj2 (Z.eqb_neq c 0)) by lia.
    destruct (Z.eqb_spec (strncmp m h b (Z.of_nat (length lb))) 0) as [E|E].
    + exists h. split; [done|]. left. exists O. split_and!; [lia| |lia]. simpl.
      apply (strncmp_prefix m h b (c :: lh) lb); done || lia.
    + assert (Hn0 : ~ lb `prefix_of` c :: lh).
      { intros Hp. apply E. apply (strncmp_prefix m h b (c :: lh)); done || lia. }
      destruct (IH fuel m (h + 1) b lb) as (r & Hr & Hor); [by eapply cstr_tail|done|done|lia|done|lia|].
      exists r. split; [done|]. destruct Hor as [(k & -> & Hp & Hmin)|[-> Hno]].
      * left. exists (S k). split_and!; [lia|done|]. intros [|j] Hj; [done|]. apply Hmin. lia.
      * right. split; [done|]. intros [|j]; [done|]. apply Hno.
Qed.

(** * Properties *)

(** Two strings of a concrete memory, for the witnesses: "abcab" at 100 and
    "cab" at 200. *)
Definition demo_mem : mem := fun a =>
  if (100 <=? a) && (a <? 105) then nth (Z.to_nat (a - 100)) [97; 98; 99; 97; 98] 0
  else if (200 <=? a) && (a <? 203) then nth (Z.to_nat (a - 200)) [99; 97; 98] 0
  else 0.

Lemma demo_str1 : cstr demo_mem 100 [97; 98; 99; 97; 98].
Proof.
  split; [repeat constructor; lia|]. intros i Hi. simpl in Hi.
  assert (Hc : i = 0 \/ i = 1 \/ i = 2 \/ i = 3 \/ i = 4 \/ i = 5) by lia.
  destruct Hc as [->|[->|[->|[->|[->| ->]]]]]; reflexivity.
Qed.

Lemma demo_str2 : cstr demo_mem 200 [99; 97; 98].
Proof.
  split; [repeat constructor; lia|]. intros i Hi. simpl in Hi.
  assert (Hc : i = 0 \/ i = 1 \/ i = 2 \/ i = 3) by lia.
  destruct Hc as [->|[->|[->| ->]]]; reflexivity.
Qed.

(** [memmove] copies correctly however the two areas overlap: afterwards
    every destination byte is the source byte from before the call, and no byte
    outside the destination has changed. *)
Theorem memmove_correct m dest src n :
  dest <> 0 -> src <> 0 -> 0 <= n ->
  let m' := fst (memmove m dest src n) in
  (forall i, 0 <= i < n -> m' (dest + i) = m (src + i)) /\
  (forall a, a < dest \/ dest + n <= a -> m' a = m a).
Proof.
  intros Hd Hs Hn. unfold memmove, is_null.
  rewrite (proj2 (Z.eqb_neq dest 0)), (proj2 (Z.eqb_neq src 0)) by done. simpl.
  destruct (Z.ltb_spec dest src); [|destruct (Z.ltb_spec src dest)]; simpl.
  - split; intros; rewrite copy_forward_get by lia; if_lia; [f_equal; lia|done].
  - split; intros; rewrite copy_backward_get by lia; if_lia; [f_equal; lia|done].
  - assert (dest = src) as -> by lia. done.
Qed.

Lemma memmove_correct_witness : fst (memmove demo_mem 102 100 3) 104 = 99.
Proof.
  destruct (memmove_correct demo_mem 102 100 3) as [H _]; [lia|lia|lia|].
  change 104 with (102 + 2). rewrite (H 2) by lia. reflexivity.
Defined.

(** [strncpy] writes exactly [n] destination bytes: the string, cut at [n]
    characters, then zero padding; when the string has [n] or more characters
    no terminator is written. *)
Theorem strncpy_correct m dest src n l :
  dest <> 0 -> src <> 0 -> 0 <= n -> cstr m src l ->
  dest + n <= src \/ src + Z.of_nat (length l) < dest ->
  let m' := fst (strncpy m dest src n) in
  (forall i, 0 <= i < n -> m' (dest + i) = nth (Z.to_nat i) l 0) /\
  (forall a, a < dest \/ dest + n <= a -> m' a = m a).
Proof.
  intros Hd Hs Hn Hl Ha. unfold strncpy, is_null.
  rewrite (proj2 (Z.eqb_neq dest 0)), (proj2 (Z.eqb_neq src 0)) by done. simpl.
  split; intros i Hi; rewrite (strncpy_loop_spec _ _ _ _ l) by (done || lia); if_lia; [|done].
  by replace (dest + i - dest) with i by lia.
Qed.

Lemma strncpy_correct_witness :
  fst (strncpy demo_mem 300 200 8) 302 = 98 /\ fst (strncpy demo_mem 300 200 8) 305 = 0.
Proof.
  destruct (strncpy_correct demo_mem 300 200 8 _ ltac:(lia) ltac:(lia) ltac:(lia) demo_str2
    ltac:(simpl; lia)) as [H _].
  change 302 with (300 + 2). change 305 with (300 + 5). rewrite (H 2), (H 5) by lia. done.
Defined.

(** [strcat] with destination and source apart leaves the concatenation
    of the two strings at the destination, and [strcmp] returns 0 exactly on
    equal strings; both need no more iterations than the strings are long. *)
Theorem strcat_strcmp_correct fuel m dest src l1 l2 :
  dest <> 0 -> src <> 0 -> cstr m dest l1 -> cstr m src l2 ->
  apart dest (Z.of_nat (length l1 + length l2)) src (Z.of_nat (length l2)) ->
  (length l1 + length l2 < fuel)%nat ->
  (exists m', strcat fuel m dest src = Some (m', dest) /\ cstr m' dest (l1 ++ l2) /\ cstr m' src l2) /\
  (exists d, strcmp fuel m dest src = Some d /\ (d = 0 <-> l1 = l2)).
Proof.
  intros Hd Hs H1 H2 Ha Hf. unfold strcat, strcmp, is_null.
  rewrite (proj2 (Z.eqb_neq dest 0)), (proj2 (Z.eqb_neq src 0)) by done. simpl. split.
  - pose proof (strlen_cstr fuel m dest l1 H1 Hd ltac:(lia)) as Hl.
    unfold strlen, is_null in Hl. rewrite (proj2 (Z.eqb_neq dest 0)) in Hl by done. rewrite Hl. simpl.
    unfold apart in Ha.
    destruct (copy_string_spec l2 fuel m (dest + Z.of_nat (length l1)) src) as (m' & -> & Hm');
      [done|unfold apart; lia|lia|].
    exists m'. split_and!; [done| |].
    + destruct H1 as [Hf1 Hm1]. pose proof H2 as [Hf2 _]. split; [by apply Forall_app|].
      intros i Hi. rewrite length_app in Hi. rewrite Hm'.
      destruct (decide (i < Z.of_nat (length l1))).
      * if_lia. rewrite Hm1 by lia. symmetry. apply app_nth1. lia.
      * if_lia. rewrite app_nth2 by lia. f_equal. lia.
    + eapply cstr_ext; [done|]. intros i Hi. rewrite Hm'. by if_lia.
  - destruct (compare_spec l1 l2 fuel m dest src H1 H2 ltac:(lia)) as (i & -> & Hi). simpl.
    eexists. split; [done|]. rewrite Hi. apply lex_diff_zero; [apply H1|apply H2].
Qed.

Lemma strcat_strcmp_correct_witness : exists d, strcmp 10 demo_mem 100 200 = Some d /\ (d = 0 <-> [97; 98; 99; 97; 98] = [99; 97; 98]).
Proof.
  apply (strcat_strcmp_correct 10 demo_mem 100 200 _ _ ltac:(lia) ltac:(lia) demo_str1 demo_str2);
    [left; simpl; lia|simpl; lia].
Defined.

(** [strstr] terminates within the length of the two strings and returns
    the address of the first occurrence of a non-empty needle, or the null
    pointer when the needle does not occur. *)
Theorem strstr_first_occurrence fuel m h b lh lb :
  0 < h -> b <> 0 -> cstr m h lh -> cstr m b lb -> lb <> [] ->
  (length lh < fuel)%nat -> (length lb < fuel)%nat ->
  exists r, strstr fuel m h b = Some r /\
  ((exists k : nat, r = h + Z.of_nat k /\ lb `prefix_of` drop k lh /\
      forall j, (j < k)%nat -> ~ lb `prefix_of` drop j lh) \/
   (r = 0 /\ forall j, ~ lb `prefix_of` drop j lh)).
Proof.
  intros Hh Hb Ch Cb Hne Hf1 Hf2. unfold strstr. unfold is_null at 1 2.
  rewrite (proj2 (Z.eqb_neq h 0)), (proj2 (Z.eqb_neq b 0)) by lia. simpl.
  destruct lb as [|c lb]; [done|]. destruct (cstr_head m b c lb Cb) as [E ?].
  rewrite E, (proj2 (Z.eqb_neq c 0)) by lia. rewrite (strlen_cstr fuel m b (c :: lb)) by (done || lia).
  apply (strstr_loop_spec lh); done || lia.
Qed.

Lemma strstr_first_occurrence_witness :
  exists r, strstr 10 demo_mem 100 200 = Some r /\
  ((exists k : nat, r = 100 + Z.of_nat k /\ [99; 97; 98] `prefix_of` drop k [97; 98; 99; 97; 98] /\
      forall j, (j < k)%nat -> ~ [99; 97; 98] `prefix_of` drop j [97; 98; 99; 97; 98]) \/
   (r = 0 /\ forall j, ~ [99; 97; 98] `prefix_of` drop j [97; 98; 99; 97; 98])).
Proof.
  apply (strstr_first_occurrence 10 demo_mem 100 200 _ _ ltac:(lia) ltac:(lia) demo_str1 demo_str2);
    [done|simpl; lia|simpl; lia].
Defined.
