(* ===== verification/Rbac.v ===== *)
(** * Role-based access control (kernel/security/rbac.c)

    The state is the file's static structure: a table of roles, each with a
    table of permissions, and a table of users, each with a table of role ids.
    The operations run under the one lock of the file and are atomic here.  The
    refinement is to two finite maps, from role to permission set and from user
    to role set. *)

From stdpp Require Import base tactics list numbers option gmap fin_maps relations.
From Stdlib Require Import Lia.
From S2P Require Import Prelude Table.

Definition MAX_ROLES_PER_USER : Z := 16.
Definition MAX_PERMISSIONS_PER_ROLE : Z := 64.
Definition MAX_ROLES : Z := 128.
Definition MAX_USERS : Z := 256.

Record rbac_role_t := { role_id : Z; name : arr Z; permissions : arr Z; permission_count : Z }.
Record rbac_user_roles_t := { uid : Z; u_roles : arr Z; u_role_count : Z }.

Record rbac := {
  roles : arr rbac_role_t;
  user_roles : arr rbac_user_roles_t;
  role_count : Z;
  user_count : Z;
  initialized : bool
}.

Definition zero_role : rbac_role_t :=
  {| role_id := 0; name := fun _ => 0; permissions := fun _ => 0; permission_count := 0 |}.
Definition zero_user : rbac_user_roles_t := {| uid := 0; u_roles := fun _ => 0; u_role_count := 0 |}.
Definition zero_rbac (init : bool) : rbac :=
  {| roles := fun _ => zero_role; user_roles := fun _ => zero_user; role_count := 0; user_count := 0;
     initialized := init |}.

Definition with_roles (s : rbac) (r : arr rbac_role_t) (n : Z) : rbac :=
  {| roles := r; user_roles := user_roles s; role_count := n; user_count := user_count s;
     initialized := initialized s |}.
Definition with_users (s : rbac) (u : arr rbac_user_roles_t) (n : Z) : rbac :=
  {| roles := roles s; user_roles := u; role_count := role_count s; user_count := n;
     initialized := initialized s |}.

Definition rbac_init (s : rbac) : error_code_t * rbac :=
  if initialized s then (ERR_OK, s) else (ERR_OK, zero_rbac true).

(** [if (!rbac_state.initialized) rbac_init();]. *)
Definition ensure_init (s : rbac) : rbac := if initialized s then s else snd (rbac_init s).

Definition find_role (s : rbac) (rid : Z) : option Z :=
  tfind (fun r => role_id r =? rid) (roles s) (role_count s).
Definition find_user (s : rbac) (u : Z) : option Z :=
  tfind (fun e => uid e =? u) (user_roles s) (user_count s).

(** [strncpy(role->name, name, 31); role->name[31] = 0] for the characters [l]
    of a C string. *)
Definition copy_name (l : list Z) : arr Z := fun i => if i <? 31 then nth (Z.to_nat i) l 0 else 0.

(** A null name is [None]. *)
Definition rbac_create_role (s : rbac) (rid : Z) (nm : option (list Z)) : error_code_t * rbac :=
  match nm with
  | None => (ERR_INVALID_ARG, s)
  | Some l =>
      let s := ensure_init s in
      match find_role s rid with
      | Some _ => (ERR_ALREADY_EXISTS, s)
      | None =>
          if MAX_ROLES <=? role_count s then (ERR_OUT_OF_MEMORY, s)
          else
            let k := role_count s in
            let role := {| role_id := rid; name := copy_name l;
                           permissions := permissions (roles s k); permission_count := 0 |} in
            (ERR_OK, with_roles s ((roles s).[k <- role]) (u32 (role_count s + 1)))
      end
  end.

Definition rbac_add_permission_to_role (s : rbac) (rid perm : Z) : error_code_t * rbac :=
  let s := ensure_init s in
  match find_role s rid with
  | None => (ERR_NOT_FOUND, s)
  | Some i =>
      let role := roles s i in
      match tfind (fun p => p =? perm) (permissions role) (permission_count role) with
      | Some _ => (ERR_OK, s)
      | None =>
          if MAX_PERMISSIONS_PER_ROLE <=? permission_count role then (ERR_OUT_OF_MEMORY, s)
          else
            let role' := {| role_id := role_id role; name := name role;
                            permissions := (permissions role).[permission_count role <- perm];
                            permission_count := u32 (permission_count role + 1) |} in
            (ERR_OK, with_roles s ((roles s).[i <- role']) (role_count s))
      end
  end.

(** The tail of [rbac_assign_role_to_user], once the user's entry is at index [i]. *)
Definition assign_at (s : rbac) (i rid : Z) : error_code_t * rbac :=
  let u := user_roles s i in
  match tfind (fun r => r =? rid) (u_roles u) (u_role_count u) with
  | Some _ => (ERR_OK, s)
  | None =>
      if MAX_ROLES_PER_USER <=? u_role_count u then (ERR_OUT_OF_MEMORY, s)
      else
        let u' := {| uid := uid u; u_roles := (u_roles u).[u_role_count u <- rid];
                     u_role_count := u32 (u_role_count u + 1) |} in
        (ERR_OK, with_users s ((user_roles s).[i <- u']) (user_count s))
  end.

Definition rbac_assign_role_to_user (s : rbac) (u rid : Z) : error_code_t * rbac :=
  let s := ensure_init s in
  match find_user s u with
  | Some i => assign_at s i rid
  | None =>
      if MAX_USERS <=? user_count s then (ERR_OUT_OF_MEMORY, s)
      else
        let k := user_count s in
        let e := {| uid := u; u_roles := u_roles (user_roles s k); u_role_count := 0 |} in
        assign_at (with_users s ((user_roles s).[k <- e]) (u32 (user_count s + 1))) k rid
  end.

Definition rbac_remove_role_from_user (s : rbac) (u rid : Z) : error_code_t * rbac :=
  if negb (initialized s) then (ERR_INVALID_STATE, s)
  else match find_user s u with
       | None => (ERR_NOT_FOUND, s)
       | Some i =>
           let e := user_roles s i in
           match tfind (fun r => r =? rid) (u_roles e) (u_role_count e) with
           | None => (ERR_NOT_FOUND, s)
           | Some j =>
               let e' := {| uid := uid e; u_roles := shift_left (u_roles e) j (u_role_count e);
                            u_role_count := u32 (u_role_count e - 1) |} in
               (ERR_OK, with_users s ((user_roles s).[i <- e']) (user_count s))
           end
       end.

(** Does the role numbered [rid], the first of that id, hold the permission? *)
Definition role_grants (s : rbac) (perm rid : Z) : bool :=
  match find_role s rid with
  | Some j =>
      match tfind (fun p => p =? perm) (permissions (roles s j)) (permission_count (roles s j)) with
      | Some _ => true
      | None => false
      end
  | None => false
  end.

Definition rbac_user_has_permission (s : rbac) (u perm : Z) : bool :=
  if negb (initialized s) then false
  else match find_user s u with
       | None => false
       | Some i =>
           match tfind (role_grants s perm) (u_roles (user_roles s i)) (u_role_count (user_roles s i)) with
           | Some _ => true
           | None => false
           end
       end.

Definition rbac_user_has_role (s : rbac) (u rid : Z) : bool :=
  if negb (initialized s) then false
  else match find_user s u with
       | None => false
       | Some i =>
           match tfind (fun r => r =? rid) (u_roles (user_roles s i)) (u_role_count (user_roles s i)) with
           | Some _ => true
           | None => false
           end
       end.

(** The output buffer and the in-out count; [None] is a null pointer. *)
Definition rbac_get_user_roles (s : rbac) (u : Z) (buf : option (arr Z)) (count : option Z)
  : error_code_t * option (arr Z) * option Z :=
  match buf, count with
  | Some b, Some c =>
      if negb (initialized s) then (ERR_INVALID_STATE, buf, count)
      else match find_user s u with
           | Some i =>
               let e := user_roles s i in
               let copy_count := if c <? u_role_count e then c else u_role_count e in
               (ERR_OK, Some (for_loop (Z.to_nat copy_count) 0 (fun k b => b.[k <- u_roles e k]) b),
                Some (u_role_count e))
           | None => (ERR_NOT_FOUND, buf, Some 0)
           end
  | _, _ => (ERR_INVALID_ARG, buf, count)
  end.

(** * Invariant and abstraction *)

Definition role_ok (r : rbac_role_t) : Prop :=
  0 <= permission_count r <= MAX_PERMISSIONS_PER_ROLE /\
  NoDup (contents (permissions r) (permission_count r)).

Definition user_ok (u : rbac_user_roles_t) : Prop :=
  0 <= u_role_count u <= MAX_ROLES_PER_USER /\ NoDup (contents (u_roles u) (u_role_count u)).

Definition role_list (s : rbac) : list rbac_role_t := contents (roles s) (role_count s).
Definition user_list (s : rbac) : list rbac_user_roles_t := contents (user_roles s) (user_count s).

Record rbac_wf (s : rbac) : Prop := {
  rw_roles : 0 <= role_count s <= MAX_ROLES;
  rw_users : 0 <= user_count s <= MAX_USERS;
  rw_role_keys : unique_keys role_id (role_list s);
  rw_user_keys : unique_keys uid (user_list s);
  rw_role_ok : forall r, r ∈ role_list s -> role_ok r;
  rw_user_ok : forall u, u ∈ user_list s -> user_ok u
}.

Definition perm_set (r : rbac_role_t) : gset Z := as_set (permissions r) (permission_count r).
Definition role_set (u : rbac_user_roles_t) : gset Z := as_set (u_roles u) (u_role_count u).

Definition abs_roles (s : rbac) : gmap Z (gset Z) := perm_set <$> as_map role_id (role_list s).
Definition abs_users (s : rbac) : gmap Z (gset Z) := role_set <$> as_map uid (user_list s).

(** * Proofs *)

Lemma wf_role_table s : rbac_wf s -> keyed_ok role_id role_ok (roles s) (role_count s).
Proof. intros []. split_and!; done || lia. Qed.
Lemma wf_user_table s : rbac_wf s -> keyed_ok uid user_ok (user_roles s) (user_count s).
Proof. intros []. split_and!; done || lia. Qed.

Lemma find_role_Some s rid i :
  rbac_wf s -> find_role s rid = Some i ->
  0 <= i < role_count s /\ role_id (roles s i) = rid /\ role_ok (roles s i) /\
  abs_roles s !! rid = Some (perm_set (roles s i)).
Proof.
  intros H E. eapply (keyed_find_Some role_id role_ok) in E as (? & ? & ? & Hm); [|by apply wf_role_table].
  split_and!; try done; try lia. unfold abs_roles, role_list. by rewrite lookup_fmap, Hm.
Qed.

Lemma find_role_None s rid :
  rbac_wf s -> find_role s rid = None ->
  abs_roles s !! rid = None /\ forall r, r ∈ role_list s -> role_id r <> rid.
Proof.
  intros H E. eapply (keyed_find_None role_id role_ok) in E as [Hm ?]; [|by apply wf_role_table].
  split; [|done]. unfold abs_roles, role_list. by rewrite lookup_fmap, Hm.
Qed.

Lemma find_user_Some s u i :
  rbac_wf s -> find_user s u = Some i ->
  0 <= i < user_count s /\ uid (user_roles s i) = u /\ user_ok (user_roles s i) /\
  abs_users s !! u = Some (role_set (user_roles s i)).
Proof.
  intros H E. eapply (keyed_find_Some uid user_ok) in E as (? & ? & ? & Hm); [|by apply wf_user_table].
  split_and!; try done; try lia. unfold abs_users, user_list. by rewrite lookup_fmap, Hm.
Qed.

Lemma find_user_None s u :
  rbac_wf s -> find_user s u = None ->
  abs_users s !! u = None /\ forall e, e ∈ user_list s -> uid e <> u.
Proof.
  intros H E. eapply (keyed_find_None uid user_ok) in E as [Hm ?]; [|by apply wf_user_table].
  split; [|done]. unfold abs_users, user_list. by rewrite lookup_fmap, Hm.
Qed.

(** A role table change that the table lemmas justify. *)
Lemma with_roles_wf s r n :
  rbac_wf s -> n <= MAX_ROLES -> keyed_ok role_id role_ok r n -> rbac_wf (with_roles s r n).
Proof. intros [] Hn (? & ? & ?). by constructor. Qed.
Lemma with_users_wf s u n :
  rbac_wf s -> n <= MAX_USERS -> keyed_ok uid user_ok u n -> rbac_wf (with_users s u n).
Proof. intros [] Hn (? & ? & ?). by constructor. Qed.

Lemma zero_rbac_wf b : rbac_wf (zero_rbac b).
Proof.
  constructor; simpl; try (unfold MAX_ROLES, MAX_USERS; lia); try apply NoDup_nil_2;
    intros x Hx; by apply not_elem_of_nil in Hx.
Qed.

Lemma abs_roles_size s : rbac_wf s -> Z.of_nat (size (abs_roles s)) = role_count s.
Proof.
  intros H. unfold abs_roles, role_list. rewrite map_size_fmap.
  by apply (keyed_size _ _ _ _ (wf_role_table s H)).
Qed.
Lemma abs_users_size s : rbac_wf s -> Z.of_nat (size (abs_users s)) = user_count s.
Proof.
  intros H. unfold abs_users, user_list. rewrite map_size_fmap.
  by apply (keyed_size _ _ _ _ (wf_user_table s H)).
Qed.
Lemma perm_set_size r : role_ok r -> Z.of_nat (size (perm_set r)) = permission_count r.
Proof. intros [[? _] ?]. by apply as_set_size. Qed.
Lemma role_set_size u : user_ok u -> Z.of_nat (size (role_set u)) = u_role_count u.
Proof. intros [[? _] ?]. by apply as_set_size. Qed.

(** Replacing or appending a role or a user, on the abstract maps. *)
Lemma set_role s i r :
  rbac_wf s -> 0 <= i < role_count s -> role_id r = role_id (roles s i) -> role_ok r ->
  let s' := with_roles s ((roles s).[i <- r]) (role_count s) in
  rbac_wf s' /\ abs_roles s' = <[role_id r := perm_set r]> (abs_roles s).
Proof.
  intros H Hi Hk Hr. pose proof (rw_roles s H).
  destruct (keyed_set _ _ _ _ i r (wf_role_table s H) Hi Hk Hr) as [Hok Hm].
  split; [apply with_roles_wf; done || lia|]. unfold abs_roles, role_list. simpl. by rewrite Hm, fmap_insert.
Qed.

Lemma push_role s r :
  rbac_wf s -> role_count s < MAX_ROLES -> (forall x, x ∈ role_list s -> role_id x <> role_id r) -> role_ok r ->
  let s' := with_roles s ((roles s).[role_count s <- r]) (u32 (role_count s + 1)) in
  rbac_wf s' /\ abs_roles s' = <[role_id r := perm_set r]> (abs_roles s).
Proof.
  intros H Hn Hk Hr. pose proof (rw_roles s H). unfold MAX_ROLES in *. rewrite wrap_small by fits_lia.
  destruct (keyed_snoc _ _ _ _ r (wf_role_table s H) Hk Hr) as [Hok Hm].
  split; [apply with_roles_wf; unfold MAX_ROLES; done || lia|].
  unfold abs_roles, role_list. simpl. by rewrite Hm, fmap_insert.
Qed.

Lemma set_user s i e :
  rbac_wf s -> 0 <= i < user_count s -> uid e = uid (user_roles s i) -> user_ok e ->
  let s' := with_users s ((user_roles s).[i <- e]) (user_count s) in
  rbac_wf s' /\ abs_users s' = <[uid e := role_set e]> (abs_users s).
Proof.
  intros H Hi Hk Hr. pose proof (rw_users s H).
  destruct (keyed_set _ _ _ _ i e (wf_user_table s H) Hi Hk Hr) as [Hok Hm].
  split; [apply with_users_wf; done || lia|]. unfold abs_users, user_list. simpl. by rewrite Hm, fmap_insert.
Qed.

Lemma push_user s e :
  rbac_wf s -> user_count s < MAX_USERS -> (forall x, x ∈ user_list s -> uid x <> uid e) -> user_ok e ->
  let s' := with_users s ((user_roles s).[user_count s <- e]) (u32 (user_count s + 1)) in
  rbac_wf s' /\ abs_users s' = <[uid e := role_set e]> (abs_users s).
Proof.
  intros H Hn Hk Hr. pose proof (rw_users s H). unfold MAX_USERS in *. rewrite wrap_small by fits_lia.
  destruct (keyed_snoc _ _ _ _ e (wf_user_table s H) Hk Hr) as [Hok Hm].
  split; [apply with_users_wf; unfold MAX_USERS; done || lia|].
  unfold abs_users, user_list. simpl. by rewrite Hm, fmap_insert.
Qed.

(** * The abstract policy *)

Record policy := { p_init : bool; p_roles : gmap Z (gset Z); p_users : gmap Z (gset Z) }.

Definition policy_of (s : rbac) : policy :=
  {| p_init := initialized s; p_roles := abs_roles s; p_users := abs_users s |}.

Definition p_ensure (p : policy) : policy :=
  if p_init p then p else {| p_init := true; p_roles := ∅; p_users := ∅ |}.
Definition p_set_roles (p : policy) (m : gmap Z (gset Z)) : policy :=
  {| p_init := p_init p; p_roles := m; p_users := p_users p |}.
Definition p_set_users (p : policy) (m : gmap Z (gset Z)) : policy :=
  {| p_init := p_init p; p_roles := p_roles p; p_users := m |}.

(** The operations of the interface, and what each of them does to a policy. *)
Inductive rbac_op :=
  | OpInit
  | OpCreate (rid : Z) (nm : option (list Z))
  | OpAddPermission (rid perm : Z)
  | OpAssign (u rid : Z)
  | OpRemove (u rid : Z).

Definition spec_op (op : rbac_op) (p : policy) : error_code_t * policy :=
  match op with
  | OpInit => (ERR_OK, p_ensure p)
  | OpCreate rid None => (ERR_INVALID_ARG, p)
  | OpCreate rid (Some _) =>
      let p := p_ensure p in
      match p_roles p !! rid with
      | Some _ => (ERR_ALREADY_EXISTS, p)
      | None =>
          if MAX_ROLES <=? Z.of_nat (size (p_roles p)) then (ERR_OUT_OF_MEMORY, p)
          else (ERR_OK, p_set_roles p (<[rid := ∅]> (p_roles p)))
      end
  | OpAddPermission rid perm =>
      let p := p_ensure p in
      match p_roles p !! rid with
      | None => (ERR_NOT_FOUND, p)
      | Some ps =>
          if decide (perm ∈ ps) then (ERR_OK, p)
          else if MAX_PERMISSIONS_PER_ROLE <=? Z.of_nat (size ps) then (ERR_OUT_OF_MEMORY, p)
          else (ERR_OK, p_set_roles p (<[rid := {[perm]} ∪ ps]> (p_roles p)))
      end
  | OpAssign u rid =>
      let p := p_ensure p in
      match p_users p !! u with
      | None =>
          if MAX_USERS <=? Z.of_nat (size (p_users p)) then (ERR_OUT_OF_MEMORY, p)
          else (ERR_OK, p_set_users p (<[u := {[rid]}]> (p_users p)))
      | Some rs =>
          if decide (rid ∈ rs) then (ERR_OK, p)
          else if MAX_ROLES_PER_USER <=? Z.of_nat (size rs) then (ERR_OUT_OF_MEMORY, p)
          else (ERR_OK, p_set_users p (<[u := {[rid]} ∪ rs]> (p_users p)))
      end
  | OpRemove u rid =>
      if negb (p_init p) then (ERR_INVALID_STATE, p)
      else match p_users p !! u with
           | None => (ERR_NOT_FOUND, p)
           | Some rs =>
               if decide (rid ∈ rs) then (ERR_OK, p_set_users p (<[u := rs ∖ {[rid]}]> (p_users p)))
               else (ERR_NOT_FOUND, p)
           end
  end.

Definition rbac_do (op : rbac_op) (s : rbac) : error_code_t * rbac :=
  match op with
  | OpInit => rbac_init s
  | OpCreate rid nm => rbac_create_role s rid nm
  | OpAddPermission rid perm => rbac_add_permission_to_role s rid perm
  | OpAssign u rid => rbac_assign_role_to_user s u rid
  | OpRemove u rid => rbac_remove_role_from_user s u rid
  end.

(** A user has a permission when one of the user's roles grants it. *)
Definition policy_allows (p : policy) (u perm : Z) : Prop :=
  p_init p = true /\
  exists rs rid ps, p_users p !! u = Some rs /\ rid ∈ rs /\ p_roles p !! rid = Some ps /\ perm ∈ ps.

(** * Refinement *)

Definition refines (r : error_code_t * rbac) (q : error_code_t * policy) : Prop :=
  rbac_wf (snd r) /\ (fst r, policy_of (snd r)) = q.

Lemma ensure_init_refines s :
  rbac_wf s -> rbac_wf (ensure_init s) /\ policy_of (ensure_init s) = p_ensure (policy_of s).
Proof.
  intros H. unfold ensure_init, rbac_init, p_ensure. simpl. destruct (initialized s) eqn:E; [done|].
  split; [apply zero_rbac_wf|done].
Qed.

Lemma create_role_refines s rid nm :
  rbac_wf s -> refines (rbac_create_role s rid nm) (spec_op (OpCreate rid nm) (policy_of s)).
Proof.
  intros H. destruct nm as [l|]; [|done]. unfold rbac_create_role. cbn [spec_op].
  destruct (ensure_init_refines s H) as [H1 <-]. set (t := ensure_init s) in *. clearbody t. simpl.
  rewrite abs_roles_size by done. destruct (find_role t rid) as [i|] eqn:E.
  { by destruct (find_role_Some t rid i H1 E) as (_ & _ & _ & ->). }
  destruct (find_role_None t rid H1 E) as [-> Hk].
  destruct (Z.leb_spec MAX_ROLES (role_count t)) as [|Hc]; [done|]. set (r := {| role_id := rid |}).
  destruct (push_role t r H1 Hc Hk) as [Hw Hm].
  { split; simpl; [unfold MAX_PERMISSIONS_PER_ROLE; lia|]. apply NoDup_nil_2. }
  split; [done|]. simpl. unfold policy_of at 1. by rewrite Hm.
Qed.

Lemma add_permission_refines s rid perm :
  rbac_wf s ->
  refines (rbac_add_permission_to_role s rid perm) (spec_op (OpAddPermission rid perm) (policy_of s)).
Proof.
  intros H. unfold rbac_add_permission_to_role. cbn [spec_op].
  destruct (ensure_init_refines s H) as [H1 <-]. set (t := ensure_init s) in *. clearbody t. simpl.
  destruct (find_role t rid) as [i|] eqn:E.
  2:{ by destruct (find_role_None t rid H1 E) as [-> _]. }
  destruct (find_role_Some t rid i H1 E) as (Hr & <- & Hok & ->). pose proof Hok as [[Hc0 Hc1] Hd].
  destruct (tfind _ _ _) as [j|] eqn:Ef.
  { rewrite decide_True; [done|]. apply tfind_eq_Some; [done|by rewrite Ef]. }
  apply tfind_eq_None in Ef; [|done]. rewrite decide_False, perm_set_size by done.
  destruct (Z.leb_spec MAX_PERMISSIONS_PER_ROLE (permission_count (roles t i))); [done|].
  unfold MAX_PERMISSIONS_PER_ROLE in *. rewrite wrap_small by fits_lia. set (r := {| role_id := _ |}).
  destruct (set_role t i r H1 Hr eq_refl) as [Hw Hm].
  { split; simpl; [unfold MAX_PERMISSIONS_PER_ROLE; lia|]. by apply nodup_snoc. }
  split; [done|]. simpl. unfold policy_of at 1. rewrite Hm. unfold perm_set. simpl. by rewrite as_set_snoc.
Qed.

Lemma assign_at_refines t i rid :
  rbac_wf t -> 0 <= i < user_count t ->
  let e := user_roles t i in
  refines (assign_at t i rid)
    (if decide (rid ∈ role_set e) then (ERR_OK, policy_of t)
     else if MAX_ROLES_PER_USER <=? u_role_count e then (ERR_OUT_OF_MEMORY, policy_of t)
     else (ERR_OK, p_set_users (policy_of t) (<[uid e := {[rid]} ∪ role_set e]> (abs_users t)))).
Proof.
  intros H Hi e. assert (Hok : user_ok e).
  { apply (rw_user_ok t H). apply contents_elem. exists i. done. }
  pose proof Hok as [[Hc0 Hc1] Hd]. unfold assign_at. fold e. destruct (tfind _ _ _) as [j|] eqn:Ef.
  { rewrite decide_True; [done|]. apply tfind_eq_Some; [done|by rewrite Ef]. }
  apply tfind_eq_None in Ef; [|done]. rewrite decide_False by done.
  destruct (Z.leb_spec MAX_ROLES_PER_USER (u_role_count e)); [done|].
  unfold MAX_ROLES_PER_USER in *. rewrite wrap_small by fits_lia. set (r := {| uid := _ |}).
  destruct (set_user t i r H Hi eq_refl) as [Hw Hm].
  { split; simpl; [unfold MAX_ROLES_PER_USER; lia|]. by apply nodup_snoc. }
  split; [done|]. simpl. unfold policy_of at 1. rewrite Hm. unfold role_set. simpl. by rewrite as_set_snoc.
Qed.

Lemma assign_refines s u rid :
  rbac_wf s -> refines (rbac_assign_role_to_user s u rid) (spec_op (OpAssign u rid) (policy_of s)).
Proof.
  intros H. unfold rbac_assign_role_to_user. cbn [spec_op].
  destruct (ensure_init_refines s H) as [H1 <-]. set (t := ensure_init s) in *. clearbody t. simpl.
  destruct (find_user t u) as [i|] eqn:E.
  { destruct (find_user_Some t u i H1 E) as (Hr & Hu & Hok & ->). rewrite role_set_size by done.
    pose proof (assign_at_refines t i rid H1 Hr) as Ha. simpl in Ha. by rewrite Hu in Ha. }
  destruct (find_user_None t u H1 E) as [-> Hk]. rewrite abs_users_size by done.
  destruct (Z.leb_spec MAX_USERS (user_count t)) as [|Hc]; [done|]. set (e := {| uid := u |}).
  destruct (push_user t e H1 Hc Hk) as [Hw Hm].
  { split; simpl; [unfold MAX_ROLES_PER_USER; lia|]. apply NoDup_nil_2. }
  pose proof (rw_users t H1). pose proof (rw_users _ Hw) as Hn. simpl in Hn.
  unfold MAX_USERS in *. rewrite wrap_small in * by fits_lia.
  set (t' := with_users _ _ _) in *. assert (He : user_roles t' (user_count t) = e) by apply aset_eq.
  pose proof (assign_at_refines t' (user_count t) rid Hw) as Ha. rewrite He in Ha. simpl in Ha.
  specialize (Ha ltac:(lia)). destruct Ha as [Hw' Hp]. split; [done|]. rewrite Hp, Hm.
  rewrite decide_False by (apply not_elem_of_empty). unfold p_set_users, policy_of. simpl. f_equal.
  rewrite insert_insert_eq. unfold role_set, as_set. simpl. by rewrite (right_id_L ∅ (∪)).
Qed.

Lemma remove_refines s u rid :
  rbac_wf s -> refines (rbac_remove_role_from_user s u rid) (spec_op (OpRemove u rid) (policy_of s)).
Proof.
  intros H. unfold rbac_remove_role_from_user. simpl. destruct (initialized s); [|done]. simpl.
  destruct (find_user s u) as [i|] eqn:E.
  2:{ by destruct (find_user_None s u H E) as [-> _]. }
  destruct (find_user_Some s u i H E) as (Hr & <- & Hok & ->). pose proof Hok as [[Hc0 Hc1] Hd].
  destruct (tfind _ _ _) as [j|] eqn:Ef.
  2:{ apply tfind_eq_None in Ef; [|done]. by rewrite decide_False. }
  rewrite decide_True by (apply tfind_eq_Some; [done|by rewrite Ef]).
  apply tfind_Some in Ef as (Hj & Hv & _); [|done]. apply Z.eqb_eq in Hv.
  unfold MAX_ROLES_PER_USER in *. rewrite wrap_small by fits_lia. set (r := {| uid := _ |}).
  destruct (set_user s i r H Hr eq_refl) as [Hw Hm].
  { split; simpl; [unfold MAX_ROLES_PER_USER; lia|]. by apply nodup_shift. }
  split; [done|]. simpl. unfold policy_of at 1. rewrite Hm. unfold role_set. simpl.
  by rewrite as_set_shift, Hv.
Qed.

Lemma rbac_do_refines op s : rbac_wf s -> refines (rbac_do op s) (spec_op op (policy_of s)).
Proof.
  intros H. destruct op.
  - destruct (ensure_init_refines s H) as [H1 H2]. unfold refines, ensure_init, rbac_do, rbac_init in *.
    unfold spec_op. rewrite <- H2. destruct (initialized s) eqn:E; by rewrite ?E in *.
  - by apply create_role_refines.
  - by apply add_permission_refines.
  - by apply assign_refines.
  - by apply remove_refines.
Qed.

Lemma role_grants_iff s perm rid :
  rbac_wf s ->
  role_grants s perm rid = true <-> exists ps, abs_roles s !! rid = Some ps /\ perm ∈ ps.
Proof.
  intros H. unfold role_grants. destruct (find_role s rid) as [j|] eqn:E.
  - destruct (find_role_Some s rid j H E) as (_ & _ & [[? _] _] & ->).
    pose proof (tfind_eq_Some (permissions (roles s j)) (permission_count (roles s j)) perm) as Hf.
    destruct (tfind _ _ _); split; try done.
    + intros _. eexists. split; [done|]. apply Hf; [lia|done].
    + intros (ps & [= <-] & Hp). apply Hf in Hp as [? ?]; [done|lia].
  - destruct (find_role_None s rid H E) as [-> _]. split; [done|]. by intros (? & ? & _).
Qed.

Lemma has_permission_iff s u perm :
  rbac_wf s -> rbac_user_has_permission s u perm = true <-> policy_allows (policy_of s) u perm.
Proof.
  intros H. unfold rbac_user_has_permission, policy_allows. simpl.
  destruct (initialized s); [|split; [done|by intros [? _]]]. simpl.
  destruct (find_user s u) as [i|] eqn:E.
  2:{ destruct (find_user_None s u H E) as [-> _]. split; [done|]. by intros (_ & ? & ? & ? & ? & _). }
  destruct (find_user_Some s u i H E) as (_ & _ & [[? _] _] & ->).
  pose proof (tfind_is_Some (role_grants s perm) (u_roles (user_roles s i)) (u_role_count (user_roles s i))) as Hf.
  destruct (tfind _ _ _); split; try done.
  - intros _. split; [done|]. destruct (proj1 (Hf ltac:(done)) ltac:(done)) as (rid & Hr & Hg).
    apply role_grants_iff in Hg as (ps & ? & ?); [|done].
    exists (role_set (user_roles s i)), rid, ps. split_and!; try done. by apply as_set_elem.
  - intros (_ & rs & rid & ps & [= <-] & Hr & Hp & Hin). apply as_set_elem in Hr.
    destruct (proj2 (Hf ltac:(done))) as [? ?]; [|done]. exists rid. split; [done|].
    apply role_grants_iff; eauto.
Qed.

Lemma has_role_iff s u rid :
  rbac_wf s ->
  rbac_user_has_role s u rid = true <-> initialized s = true /\ exists rs, abs_users s !! u = Some rs /\ rid ∈ rs.
Proof.
  intros H. unfold rbac_user_has_role. destruct (initialized s); [|split; [done|by intros [? _]]]. simpl.
  destruct (find_user s u) as [i|] eqn:E.
  2:{ destruct (find_user_None s u H E) as [-> _]. split; [done|]. by intros (_ & ? & ? & _). }
  destruct (find_user_Some s u i H E) as (_ & _ & [[? _] _] & ->).
  pose proof (tfind_eq_Some (u_roles (user_roles s i)) (u_role_count (user_roles s i)) rid) as Hf.
  destruct (tfind _ _ _); split; try done.
  - intros _. split; [done|]. eexists. split; [done|]. by apply Hf.
  - intros (_ & rs & [= <-] & Hr). by apply Hf in Hr as [? ?].
Qed.

(** The boot state and the empty policy. *)
Definition rbac_boot : rbac := zero_rbac false.
Definition no_policy : policy := {| p_init := false; p_roles := ∅; p_users := ∅ |}.

Lemma boot_run ops :
  rbac_wf (snd (run rbac_do ops rbac_boot)) /\
  run spec_op ops no_policy = (fst (run rbac_do ops rbac_boot), policy_of (snd (run rbac_do ops rbac_boot))).
Proof.
  destruct (run_simulation (fun s p => rbac_wf s /\ p = policy_of s) rbac_do spec_op) with
    (ops := ops) (s := rbac_boot) (t := no_policy) as (Hc & Hw & Hp).
  - intros op s p [H ->]. destruct (rbac_do_refines op s H) as [Hw <-]. done.
  - split; [apply zero_rbac_wf|done].
  - split; [done|]. rewrite Hc, <- Hp. by destruct (run spec_op ops no_policy).
Qed.

(** * Properties *)

(** C6. Refinement: from boot, any sequence of calls to the operations that
    change the role and user tables returns exactly the error codes, and leaves
    exactly the role-to-permissions and user-to-roles maps, of the abstract
    policy; and the tables stay well formed (counts within the array bounds,
    role and user ids unique, no duplicate permission or role). *)
Theorem rbac_refines_policy (ops : list rbac_op) :
  let '(cs, s) := run rbac_do ops rbac_boot in
  rbac_wf s /\ run spec_op ops no_policy = (cs, policy_of s).
Proof. pose proof (boot_run ops) as H. by destruct (run rbac_do ops rbac_boot). Qed.

(** After any sequence of calls, [rbac_user_has_permission] answers yes
    exactly when the policy gives the user a role that grants the permission,
    and [rbac_user_has_role] exactly when the policy gives the user the role. *)
Theorem rbac_checks_correct (ops : list rbac_op) (u x : Z) :
  let s := snd (run rbac_do ops rbac_boot) in
  let p := snd (run spec_op ops no_policy) in
  (rbac_user_has_permission s u x = true <-> policy_allows p u x) /\
  (rbac_user_has_role s u x = true <-> p_init p = true /\ exists rs, p_users p !! u = Some rs /\ x ∈ rs).
Proof.
  destruct (boot_run ops) as [Hw ->]. split; [by apply has_permission_iff|by apply has_role_iff].
Qed.

(** [rbac_get_user_roles] with a buffer of at least [MAX_ROLES_PER_USER]
    entries reports the user's role count and fills the buffer with an
    enumeration, without repetition, of the roles the policy gives the user. *)
Theorem rbac_get_user_roles_correct (ops : list rbac_op) (u c : Z) (buf : arr Z) (rs : gset Z)
  (Hc : MAX_ROLES_PER_USER <= c)
  (Hi : p_init (snd (run spec_op ops no_policy)) = true)
  (Hu : p_users (snd (run spec_op ops no_policy)) !! u = Some rs) :
  exists buf', rbac_get_user_roles (snd (run rbac_do ops rbac_boot)) u (Some buf) (Some c)
                 = (ERR_OK, Some buf', Some (Z.of_nat (size rs))) /\
    NoDup (contents buf' (Z.of_nat (size rs))) /\ as_set buf' (Z.of_nat (size rs)) = rs /\
    forall j, Z.of_nat (size rs) <= j -> buf' j = buf j.
Proof.
  destruct (boot_run ops) as [Hw Hr]. rewrite Hr in *. simpl in *.
  set (s := snd (run rbac_do ops rbac_boot)) in *. clearbody s. unfold rbac_get_user_roles.
  rewrite Hi. simpl. destruct (find_user s u) as [i|] eqn:E.
  2:{ destruct (find_user_None s u Hw E) as [? _]. congruence. }
  destruct (find_user_Some s u i Hw E) as (_ & _ & Hok & Hm). assert (role_set (user_roles s i) = rs) as <- by congruence.
  rewrite role_set_size by done. destruct Hok as [[Hn0 Hn1] Hd]. set (n := u_role_count (user_roles s i)) in *.
  destruct (Z.ltb_spec c n); [lia|]. eexists. split; [reflexivity|].
  assert (Hct : contents (for_loop (Z.to_nat n) 0 (fun k b => b.[k <- u_roles (user_roles s i) k]) buf) n
                = contents (u_roles (user_roles s i)) n).
  { apply list_eq. intros k. rewrite !contents_lookup. case_decide; [|done]. rewrite fill_loop. by if_lia. }
  unfold as_set, role_set. rewrite Hct. split_and!; [done|done|]. intros j Hj. rewrite fill_loop. by if_lia.
Qed.

(** A run with two roles and a user, used by the witness. *)
Definition demo_ops : list rbac_op :=
  [OpCreate 1 (Some [97]); OpAddPermission 1 7; OpCreate 2 (Some [98]); OpAssign 1000 1; OpAssign 1000 2;
   OpRemove 1000 1].

Lemma rbac_get_user_roles_witness :
  exists buf', rbac_get_user_roles (snd (run rbac_do demo_ops rbac_boot)) 1000 (Some (fun _ => 0)) (Some 16)
                 = (ERR_OK, Some buf', Some 1) /\ NoDup (contents buf' 1) /\ as_set buf' 1 = {[2]} /\
    forall j, 1 <= j -> buf' j = 0.
Proof.
  assert (Hc : MAX_ROLES_PER_USER <= 16) by (unfold MAX_ROLES_PER_USER; lia).
  pose proof (rbac_get_user_roles_correct demo_ops 1000 16 (fun _ => 0) {[2]} Hc
                ltac:(vm_compute; reflexivity) ltac:(vm_compute; reflexivity)) as H.
  rewrite size_singleton in H. exact H.
Defined.
