(* ===== verification/Sandbox.v ===== *)
(** * Process sandboxes (kernel/security/sandbox.c)

    A table of per-process resource limits and usage counters.  The operations
    refine a finite map from process id to sandbox, and keep usage within the
    limits as long as the limits leave the counters room below their width. *)

From stdpp Require Import base tactics list numbers option gmap fin_maps relations.
From Stdlib Require Import Lia.
From S2P Require Import Prelude Table.

Definition MAX_SANDBOXES : Z := 256.

Record sandbox_limits_t := {
  max_memory : Z; max_files : Z; max_processes : Z; max_fds : Z; flags : Z
}.

Record sandbox_t := {
  sb_pid : Z;
  limits : sandbox_limits_t;
  current_memory : Z;
  current_files : Z;
  current_processes : Z;
  current_fds : Z;
  active : bool
}.

Record sandbox_state := { sandboxes : arr sandbox_t; sandbox_count : Z; initialized : bool }.

Definition zero_sandbox : sandbox_t :=
  {| sb_pid := 0; limits := {| max_memory := 0; max_files := 0; max_processes := 0; max_fds := 0; flags := 0 |};
     current_memory := 0; current_files := 0; current_processes := 0; current_fds := 0; active := false |}.
Definition zero_state (init : bool) : sandbox_state :=
  {| sandboxes := fun _ => zero_sandbox; sandbox_count := 0; initialized := init |}.

Definition with_sandboxes (s : sandbox_state) (a : arr sandbox_t) (n : Z) : sandbox_state :=
  {| sandboxes := a; sandbox_count := n; initialized := initialized s |}.

Definition sandbox_init (s : sandbox_state) : error_code_t * sandbox_state :=
  if initialized s then (ERR_OK, s) else (ERR_OK, zero_state true).

(** [sandboxes[i].pid == pid]: an unsigned field against a signed argument. *)
Definition has_pid (pid : Z) (b : sandbox_t) : bool := sb_pid b =? u32 pid.

Definition set_limits (b : sandbox_t) (l : sandbox_limits_t) : sandbox_t :=
  {| sb_pid := sb_pid b; limits := l; current_memory := current_memory b; current_files := current_files b;
     current_processes := current_processes b; current_fds := current_fds b; active := true |}.

Definition sandbox_create (s : sandbox_state) (pid : Z) (l : option sandbox_limits_t) : error_code_t * sandbox_state :=
  match l with
  | None => (ERR_INVALID_ARG, s)
  | Some l =>
      let s := if initialized s then s else snd (sandbox_init s) in
      match tfind (has_pid pid) (sandboxes s) (sandbox_count s) with
      | Some i =>
          (ERR_OK, with_sandboxes s ((sandboxes s).[i <- set_limits (sandboxes s i) l]) (sandbox_count s))
      | None =>
          if MAX_SANDBOXES <=? sandbox_count s then (ERR_OUT_OF_MEMORY, s)
          else
            let b := {| sb_pid := u32 pid; limits := l; current_memory := 0; current_files := 0;
                        current_processes := 0; current_fds := 0; active := true |} in
            (ERR_OK, with_sandboxes s ((sandboxes s).[sandbox_count s <- b]) (u32 (sandbox_count s + 1)))
      end
  end.

Definition sandbox_destroy (s : sandbox_state) (pid : Z) : error_code_t * sandbox_state :=
  if negb (initialized s) then (ERR_INVALID_STATE, s)
  else match tfind (has_pid pid) (sandboxes s) (sandbox_count s) with
       | Some i =>
           (ERR_OK, with_sandboxes s (shift_left (sandboxes s) i (sandbox_count s)) (u32 (sandbox_count s - 1)))
       | None => (ERR_NOT_FOUND, s)
       end.

(** The index of the entry whose address the code returns. *)
Definition sandbox_get (s : sandbox_state) (pid : Z) : option Z :=
  if negb (initialized s) then None
  else tfind (fun b => (has_pid pid b && active b)%bool) (sandboxes s) (sandbox_count s).

Definition sandbox_check_memory (s : sandbox_state) (pid requested : Z) : error_code_t :=
  match sandbox_get s pid with
  | None => ERR_OK
  | Some i =>
      let b := sandboxes s i in
      if max_memory (limits b) <? u64 (current_memory b + requested) then ERR_OUT_OF_MEMORY else ERR_OK
  end.

Definition sandbox_check_file (s : sandbox_state) (pid : Z) : error_code_t :=
  match sandbox_get s pid with
  | None => ERR_OK
  | Some i =>
      let b := sandboxes s i in
      if max_files (limits b) <=? current_files b then ERR_OUT_OF_MEMORY else ERR_OK
  end.

Definition sandbox_check_process (s : sandbox_state) (pid : Z) : error_code_t :=
  match sandbox_get s pid with
  | None => ERR_OK
  | Some i =>
      let b := sandboxes s i in
      if max_processes (limits b) <=? current_processes b then ERR_OUT_OF_MEMORY else ERR_OK
  end.

Definition sandbox_check_fd (s : sandbox_state) (pid : Z) : error_code_t :=
  match sandbox_get s pid with
  | None => ERR_OK
  | Some i =>
      let b := sandboxes s i in
      if max_fds (limits b) <=? current_fds b then ERR_OUT_OF_MEMORY else ERR_OK
  end.

Definition sandbox_check_flag (s : sandbox_state) (pid flag : Z) : error_code_t :=
  match sandbox_get s pid with
  | None => ERR_OK
  | Some i => if has_any (flags (limits (sandboxes s i))) flag then ERR_OK else ERR_PERMISSION_DENIED
  end.

(** The guard and the saturating addition of the four update functions on a
    [w]-bit counter: [None] when the limit refuses. *)
Definition bump (w cur delta limit : Z) : option Z :=
  if (0 <? delta) && (limit <? wrap w (cur + delta)) then None
  else if (delta <? 0) && (cur <? wrap w (- delta)) then Some 0
  else Some (wrap w (cur + delta)).

Definition set_memory (b : sandbox_t) (v : Z) : sandbox_t :=
  {| sb_pid := sb_pid b; limits := limits b; current_memory := v; current_files := current_files b;
     current_processes := current_processes b; current_fds := current_fds b; active := active b |}.
Definition set_files (b : sandbox_t) (v : Z) : sandbox_t :=
  {| sb_pid := sb_pid b; limits := limits b; current_memory := current_memory b; current_files := v;
     current_processes := current_processes b; current_fds := current_fds b; active := active b |}.
Definition set_processes (b : sandbox_t) (v : Z) : sandbox_t :=
  {| sb_pid := sb_pid b; limits := limits b; current_memory := current_memory b; current_files := current_files b;
     current_processes := v; current_fds := current_fds b; active := active b |}.
Definition set_fds (b : sandbox_t) (v : Z) : sandbox_t :=
  {| sb_pid := sb_pid b; limits := limits b; current_memory := current_memory b; current_files := current_files b;
     current_processes := current_processes b; current_fds := v; active := active b |}.

Definition update_memory (b : sandbox_t) (d : Z) : option sandbox_t :=
  set_memory b <$> bump 64 (current_memory b) d (max_memory (limits b)).
Definition update_files (b : sandbox_t) (d : Z) : option sandbox_t :=
  set_files b <$> bump 32 (current_files b) d (max_files (limits b)).
Definition update_processes (b : sandbox_t) (d : Z) : option sandbox_t :=
  set_processes b <$> bump 32 (current_processes b) d (max_processes (limits b)).
Definition update_fds (b : sandbox_t) (d : Z) : option sandbox_t :=
  set_fds b <$> bump 32 (current_fds b) d (max_fds (limits b)).

(** The four functions look the sandbox up and change it in place. *)
Definition update_with (f : sandbox_t -> Z -> option sandbox_t) (s : sandbox_state) (pid delta : Z)
  : error_code_t * sandbox_state :=
  match sandbox_get s pid with
  | None => (ERR_OK, s)
  | Some i =>
      match f (sandboxes s i) delta with
      | None => (ERR_OUT_OF_MEMORY, s)
      | Some b => (ERR_OK, with_sandboxes s ((sandboxes s).[i <- b]) (sandbox_count s))
      end
  end.

Definition sandbox_update_memory := update_with update_memory.
Definition sandbox_update_files := update_with update_files.
Definition sandbox_update_processes := update_with update_processes.
Definition sandbox_update_fds := update_with update_fds.

(** * The abstract sandbox map *)

Inductive counter := Memory | Files | Processes | Fds.

#[global] Instance counter_eq_dec : EqDecision counter.
Proof. solve_decision. Defined.

Inductive sandbox_op :=
  | OpInit
  | OpCreate (pid : Z) (l : option sandbox_limits_t)
  | OpDestroy (pid : Z)
  | OpUpdate (c : counter) (pid delta : Z)
  | OpCheckMemory (pid requested : Z)
  | OpCheckFile (pid : Z)
  | OpCheckProcess (pid : Z)
  | OpCheckFd (pid : Z)
  | OpCheckFlag (pid flag : Z).

Definition sandbox_do (op : sandbox_op) (s : sandbox_state) : error_code_t * sandbox_state :=
  match op with
  | OpInit => sandbox_init s
  | OpCreate pid l => sandbox_create s pid l
  | OpDestroy pid => sandbox_destroy s pid
  | OpUpdate Memory pid d => sandbox_update_memory s pid d
  | OpUpdate Files pid d => sandbox_update_files s pid d
  | OpUpdate Processes pid d => sandbox_update_processes s pid d
  | OpUpdate Fds pid d => sandbox_update_fds s pid d
  | OpCheckMemory pid n => (sandbox_check_memory s pid n, s)
  | OpCheckFile pid => (sandbox_check_file s pid, s)
  | OpCheckProcess pid => (sandbox_check_process s pid, s)
  | OpCheckFd pid => (sandbox_check_fd s pid, s)
  | OpCheckFlag pid flag => (sandbox_check_flag s pid flag, s)
  end.

(** What a sandbox means: for each resource a limit and the amount in use, as
    mathematical integers, and a set of flags. *)
Record box := { allowed : counter -> Z; usage : counter -> Z; box_flags : Z }.

(** [None] is the system before its initialisation. *)
Definition boxes := option (gmap Z box).
Definition box_of (t : boxes) (pid : Z) : option box := default ∅ t !! (pid mod 2 ^ 32).

Definition limit_in (l : sandbox_limits_t) (c : counter) : Z :=
  match c with
  | Memory => max_memory l | Files => max_files l | Processes => max_processes l | Fds => max_fds l
  end.

(** Usage goes up or down by [d], never below zero; an increase that would
    exceed the limit is refused. *)
Definition spec_update (x : box) (c : counter) (d : Z) : option box :=
  let n := usage x c + d in
  if bool_decide (0 < d /\ allowed x c < n) then None
  else Some {| allowed := allowed x; usage := fun c' => if decide (c' = c) then Z.max 0 n else usage x c';
               box_flags := box_flags x |}.

Definition spec_create (t : boxes) (pid : Z) (l : sandbox_limits_t) : error_code_t * boxes :=
  let put u := Some (<[pid mod 2 ^ 32 := {| allowed := limit_in l; usage := u; box_flags := flags l |}]> (default ∅ t)) in
  match box_of t pid with
  | Some x => (ERR_OK, put (usage x))
  | None =>
      if decide (256 <= size (default ∅ t))%nat then (ERR_OUT_OF_MEMORY, Some (default ∅ t))
      else (ERR_OK, put (fun _ => 0))
  end.

(** A check: processes without a sandbox pass. *)
Definition spec_check (t : boxes) (pid : Z) (e : error_code_t) (pass : box -> Prop) `{forall x, Decision (pass x)}
  : error_code_t * boxes :=
  (match box_of t pid with Some x => if decide (pass x) then ERR_OK else e | None => ERR_OK end, t).

Definition spec_op (op : sandbox_op) (t : boxes) : error_code_t * boxes :=
  match op with
  | OpInit => (ERR_OK, Some (default ∅ t))
  | OpCreate _ None => (ERR_INVALID_ARG, t)
  | OpCreate pid (Some l) => spec_create t pid l
  | OpDestroy pid =>
      match t with
      | None => (ERR_INVALID_STATE, None)
      | Some m =>
          match box_of t pid with
          | Some _ => (ERR_OK, Some (delete (pid mod 2 ^ 32) m))
          | None => (ERR_NOT_FOUND, t)
          end
      end
  | OpUpdate c pid d =>
      match box_of t pid with
      | None => (ERR_OK, t)
      | Some x =>
          match spec_update x c d with
          | None => (ERR_OUT_OF_MEMORY, t)
          | Some x' => (ERR_OK, Some (<[pid mod 2 ^ 32 := x']> (default ∅ t)))
          end
      end
  | OpCheckMemory pid n => spec_check t pid ERR_OUT_OF_MEMORY (fun x => usage x Memory + n <= allowed x Memory)
  | OpCheckFile pid => spec_check t pid ERR_OUT_OF_MEMORY (fun x => usage x Files < allowed x Files)
  | OpCheckProcess pid => spec_check t pid ERR_OUT_OF_MEMORY (fun x => usage x Processes < allowed x Processes)
  | OpCheckFd pid => spec_check t pid ERR_OUT_OF_MEMORY (fun x => usage x Fds < allowed x Fds)
  | OpCheckFlag pid flag => spec_check t pid ERR_PERMISSION_DENIED (fun x => Z.land (box_flags x) flag <> 0)
  end.

(** The arguments the refinement is about: limits below half the range of their
    counters, increments and requests of the C types, requests below 2^63. *)
Definition width (c : counter) : Z := match c with Memory => 64 | _ => 32 end.
Definition half (c : counter) : Z := 2 ^ (width c - 1).
Definition op_ok (op : sandbox_op) : Prop :=
  match op with
  | OpCreate _ (Some l) => forall c, 0 <= limit_in l c < half c
  | OpUpdate c _ d => - half c <= d < half c
  | OpCheckMemory _ n => 0 <= n < half Memory
  | _ => True
  end.

(** * Refinement *)

Definition is_active (b : sandbox_t) : Prop := active b = true.
Definition sandbox_map (s : sandbox_state) : gmap Z sandbox_t :=
  as_map sb_pid (contents (sandboxes s) (sandbox_count s)).

Definition used_in (b : sandbox_t) (c : counter) : Z :=
  match c with
  | Memory => current_memory b | Files => current_files b | Processes => current_processes b | Fds => current_fds b
  end.

Record repr (b : sandbox_t) (x : box) : Prop := {
  rp_allowed : forall c, limit_in (limits b) c = allowed x c;
  rp_usage : forall c, used_in b c = usage x c;
  rp_flags : flags (limits b) = box_flags x;
  rp_limit : forall c, 0 <= allowed x c < half c;
  rp_range : forall c, 0 <= usage x c < half c
}.

(** The boxes of a table: the same process ids, and an entry represents its box. *)
Definition boxes_rel (m : gmap Z sandbox_t) (t : gmap Z box) : Prop :=
  forall pid, option_Forall2 repr (m !! pid) (t !! pid).

Record sandbox_rel (s : sandbox_state) (t : boxes) : Prop := {
  sr_count : sandbox_count s <= MAX_SANDBOXES;
  sr_table : keyed_ok sb_pid is_active (sandboxes s) (sandbox_count s);
  sr_init : initialized s = bool_decide (is_Some t);
  sr_boxes : boxes_rel (sandbox_map s) (default ∅ t)
}.

Lemma boxes_rel_insert m t pid b x : boxes_rel m t -> repr b x -> boxes_rel (<[pid := b]> m) (<[pid := x]> t).
Proof.
  intros H Hx p. destruct (decide (p = pid)) as [->|]; [rewrite !lookup_insert_eq; by constructor|].
  rewrite !lookup_insert_ne by done. apply H.
Qed.

Lemma boxes_rel_delete m t pid : boxes_rel m t -> boxes_rel (delete pid m) (delete pid t).
Proof.
  intros H p. destruct (decide (p = pid)) as [->|]; [rewrite !lookup_delete_eq; by constructor|].
  rewrite !lookup_delete_ne by done. apply H.
Qed.

Lemma boxes_rel_size m t : boxes_rel m t -> size m = size t.
Proof.
  intros H. rewrite <- !size_dom. f_equal. apply set_eq. intros p. rewrite !elem_of_dom.
  destruct (H p); split; intros [? ?]; by eauto.
Qed.

Lemma zero_state_rel b : sandbox_rel (zero_state b) (if b then Some ∅ else None).
Proof.
  split; simpl; [unfold MAX_SANDBOXES; lia| |by destruct b|].
  - split_and!; [lia|apply NoDup_nil_2|]. intros x Hx. by apply not_elem_of_nil in Hx.
  - intros p. unfold sandbox_map. simpl. destruct b; simpl; rewrite !lookup_empty; constructor.
Qed.

(** Before the initialisation there is no entry. *)
Lemma sandbox_get_find s t pid :
  sandbox_rel s t -> initialized s = true ->
  sandbox_get s pid = tfind (has_pid pid) (sandboxes s) (sandbox_count s).
Proof.
  intros [_ (Hn & _ & Ha) _ _] Hi. unfold sandbox_get. rewrite Hi. simpl. unfold tfind.
  apply find_first_ext. intros j Hj. rewrite (Ha (sandboxes s j)); [by rewrite andb_true_r|].
  apply contents_elem. exists j. split; [lia|done].
Qed.

(** Looking a process up in the table and in the map. *)
Inductive found (s : sandbox_state) (pid : Z) : option Z -> option box -> Prop :=
  | found_none : sandbox_map s !! u32 pid = None -> found s pid None None
  | found_some i x :
      0 <= i < sandbox_count s -> sb_pid (sandboxes s i) = u32 pid -> is_active (sandboxes s i) ->
      repr (sandboxes s i) x -> found s pid (Some i) (Some x).

Lemma sandbox_find s t pid :
  sandbox_rel s t -> found s pid (tfind (has_pid pid) (sandboxes s) (sandbox_count s)) (box_of t pid).
Proof.
  intros H. pose proof (sr_boxes _ _ H (u32 pid)) as Hb. unfold box_of. change (pid mod 2 ^ 32) with (u32 pid).
  destruct (tfind _ _ _) as [i|] eqn:E.
  - destruct (keyed_find_Some sb_pid is_active _ _ (u32 pid) i (sr_table _ _ H) E) as (Hr & Hk & Ha & Hl).
    unfold sandbox_map in Hb. rewrite Hl in Hb. inversion Hb as [? x Hx Heq1 Heq2|]; subst. by constructor.
  - destruct (keyed_find_None sb_pid is_active _ _ (u32 pid) (sr_table _ _ H) E) as [Hl _].
    unfold sandbox_map in Hb. rewrite Hl in Hb. inversion Hb as [|]; subst. by constructor.
Qed.

Lemma sandbox_find_active s t pid : sandbox_rel s t -> found s pid (sandbox_get s pid) (box_of t pid).
Proof.
  intros H. destruct (initialized s) eqn:Hi; [rewrite (sandbox_get_find s t pid H Hi); by apply sandbox_find|].
  unfold sandbox_get. rewrite Hi. simpl. pose proof (sr_init _ _ H) as Ht. rewrite Hi in Ht.
  destruct t as [m|]; [done|]. pose proof (sr_boxes _ _ H (u32 pid)) as Hb. unfold box_of in *. simpl in *.
  rewrite lookup_empty in *. inversion Hb; subst. by constructor.
Qed.

Lemma sandbox_size s t : sandbox_rel s t -> Z.of_nat (size (default ∅ t)) = sandbox_count s.
Proof.
  intros H. rewrite <- (boxes_rel_size _ _ (sr_boxes _ _ H)). apply (keyed_size _ _ _ _ (sr_table _ _ H)).
Qed.

Lemma sandbox_put s t i b x :
  sandbox_rel s t -> initialized s = true -> 0 <= i < sandbox_count s -> sb_pid b = sb_pid (sandboxes s i) ->
  is_active b -> repr b x ->
  sandbox_rel (with_sandboxes s ((sandboxes s).[i <- b]) (sandbox_count s)) (Some (<[sb_pid b := x]> (default ∅ t))).
Proof.
  intros H Hi Hr Hk Hb Hx. destruct (keyed_set _ _ _ _ i b (sr_table _ _ H) Hr Hk Hb) as [Hok Hm].
  split; simpl; [apply H|done|by rewrite Hi|]. unfold sandbox_map. simpl. rewrite Hm.
  apply boxes_rel_insert; [apply H|done].
Qed.

Lemma init_refines s t :
  sandbox_rel s t -> sandbox_rel (snd (sandbox_init s)) (Some (default ∅ t)) /\ initialized (snd (sandbox_init s)) = true.
Proof.
  intros H. unfold sandbox_init. pose proof (sr_init _ _ H) as Hi. destruct (initialized s) eqn:E.
  - destruct t as [m|]; [|done]. done.
  - destruct t as [m|]; [done|]. split; [apply (zero_state_rel true)|done].
Qed.

Lemma create_refines s t pid l :
  op_ok (OpCreate pid l) -> sandbox_rel s t ->
  fst (sandbox_create s pid l) = fst (spec_op (OpCreate pid l) t) /\
  sandbox_rel (snd (sandbox_create s pid l)) (snd (spec_op (OpCreate pid l) t)).
Proof.
  intros Hok H0. destruct l as [l|]; [|done]. unfold sandbox_create. cbn [spec_op op_ok] in *. unfold spec_create.
  set (s1 := if initialized s then s else _).
  assert (sandbox_rel s1 (Some (default ∅ t)) /\ initialized s1 = true) as [H Hi].
  { pose proof (init_refines s t H0) as Hx. unfold s1. destruct (initialized s) eqn:E; [|done].
    unfold sandbox_init in Hx. by rewrite E in Hx. }
  clearbody s1. change (box_of t pid) with (box_of (Some (default ∅ t)) pid). change (pid mod 2 ^ 32) with (u32 pid).
  pose proof (sandbox_find s1 _ pid H) as Hf. pose proof (sandbox_size _ _ H) as Hsz. change (default ∅ (Some (default ∅ t))) with (default ∅ t) in Hsz.
  pose proof (sr_table _ _ H) as [Hn _]. destruct (tfind _ _ _) as [i|] eqn:E.
  - inversion Hf as [|? x Hr Hk Ha Hx Heq1 Heq2]; subst. split; [done|]. cbn [snd]. rewrite <- Hk.
    apply (sandbox_put _ _ i (set_limits (sandboxes s1 i) l) _ H Hi Hr); [done|done|].
    destruct Hx. by split.
  - inversion Hf as [Hl|]; subst. destruct (decide _), (Z.leb_spec MAX_SANDBOXES (sandbox_count s1));
      unfold MAX_SANDBOXES in *; [done|lia|lia|]. split; [done|]. cbn [snd].
    destruct (keyed_find_None sb_pid is_active _ _ (u32 pid) (sr_table _ _ H) E) as [_ Hk].
    rewrite (wrap_small 32 (sandbox_count s1 + 1)) by fits_lia.
    set (b := {| sb_pid := u32 pid |}).
    destruct (keyed_snoc _ _ _ _ b (sr_table _ _ H) Hk eq_refl) as [Hok' Hm].
    split; simpl; [unfold MAX_SANDBOXES; lia|done|by rewrite Hi|]. unfold sandbox_map. simpl. rewrite Hm.
    apply boxes_rel_insert; [apply H|]. split; [done|by intros []|done|done|]. intros c. specialize (Hok c). simpl. lia.
Qed.

Lemma destroy_refines s t pid :
  sandbox_rel s t ->
  fst (sandbox_destroy s pid) = fst (spec_op (OpDestroy pid) t) /\
  sandbox_rel (snd (sandbox_destroy s pid)) (snd (spec_op (OpDestroy pid) t)).
Proof.
  intros H. unfold sandbox_destroy. simpl. pose proof (sr_init _ _ H) as Hi.
  destruct t as [m|]; simpl in Hi; rewrite Hi; simpl; [|done]. change (pid mod 2 ^ 32) with (u32 pid).
  pose proof (sandbox_find s _ pid H) as Hf. destruct (tfind _ _ _) as [i|] eqn:E.
  - inversion Hf as [|? x Hr Hk Ha Hx Heq1 Heq2]; subst. split; [done|]. simpl.
    pose proof (sr_count _ _ H). unfold MAX_SANDBOXES in *.
    rewrite (wrap_small 32 (sandbox_count s - 1)) by fits_lia.
    destruct (keyed_shift _ _ _ _ i (sr_table _ _ H) Hr) as [Hok Hm].
    split; simpl; [unfold MAX_SANDBOXES; lia|done|by rewrite Hi|]. unfold sandbox_map. simpl. rewrite Hm, Hk.
    apply boxes_rel_delete. apply (sr_boxes _ _ H).
  - by inversion Hf.
Qed.

(** The guarded addition of the update functions on a [w]-bit counter below half
    its range, and an increment of the signed type of that width. *)
Lemma bump_spec w cur d limit :
  0 < w -> 0 <= cur < 2 ^ (w - 1) -> limit < 2 ^ (w - 1) -> - 2 ^ (w - 1) <= d < 2 ^ (w - 1) ->
  bump w cur d limit = if bool_decide (0 < d /\ limit < cur + d) then None else Some (Z.max 0 (cur + d)).
Proof.
  intros Hw Hc Hl Hd. unfold bump.
  assert (Hp : 2 ^ w = 2 * 2 ^ (w - 1)) by (rewrite <- Z.pow_succ_r by lia; f_equal; lia).
  destruct (Z.ltb_spec 0 d).
  - rewrite wrap_small by (unfold fits; lia). simpl.
    destruct (Z.ltb_spec limit (cur + d)); [by rewrite bool_decide_true|]. rewrite bool_decide_false by lia.
    if_lia. f_equal; lia.
  - simpl. rewrite bool_decide_false by lia. destruct (Z.ltb_spec d 0); simpl.
    + rewrite wrap_small by (unfold fits; lia). destruct (Z.ltb_spec cur (- d)); [f_equal; lia|].
      rewrite wrap_small by (unfold fits; lia). f_equal; lia.
    + rewrite wrap_small by (unfold fits; lia). f_equal; lia.
Qed.

(** The update function of a counter, and what it does to the sandbox. *)
Definition update_of (c : counter) : sandbox_t -> Z -> option sandbox_t :=
  match c with
  | Memory => update_memory | Files => update_files | Processes => update_processes | Fds => update_fds
  end.

Lemma update_of_refines c b x d :
  repr b x -> - half c <= d < half c ->
  match update_of c b d, spec_update x c d with
  | None, None => True
  | Some b', Some x' => repr b' x' /\ sb_pid b' = sb_pid b /\ active b' = active b
  | _, _ => False
  end.
Proof.
  intros [Ra Ru Rf Rl Rr] Hd. unfold spec_update. pose proof (Rl c). pose proof (Rr c).
  pose proof (Ra c). pose proof (Ru c). unfold half in *.
  destruct c; simpl in *; unfold update_memory, update_files, update_processes, update_fds;
    rewrite bump_spec by lia; repeat match goal with E : _ b = usage _ _ |- _ => rewrite E | E : _ = allowed _ _ |- _ => rewrite E end;
    case_bool_decide; simpl; try done; (split; [|done]); split; simpl; try done; intros c'; try apply Rl;
    try (pose proof (Ru c'); by destruct c'); pose proof (Rr c'); case_decide; try done; subst c'; unfold half; simpl; lia.
Qed.

Lemma update_refines c s t pid d :
  op_ok (OpUpdate c pid d) -> sandbox_rel s t ->
  fst (update_with (update_of c) s pid d) = fst (spec_op (OpUpdate c pid d) t) /\
  sandbox_rel (snd (update_with (update_of c) s pid d)) (snd (spec_op (OpUpdate c pid d) t)).
Proof.
  intros Hd H. unfold update_with. cbn [spec_op op_ok] in *. change (pid mod 2 ^ 32) with (u32 pid).
  pose proof (sandbox_find_active s t pid H) as Hf. destruct (sandbox_get s pid) as [i|] eqn:Eg; [|by inversion Hf].
  inversion Hf as [|? x Hr Hk Ha Hx Heq1 Heq2]; subst.
  pose proof (update_of_refines c (sandboxes s i) x d Hx Hd) as Hu.
  destruct (update_of c (sandboxes s i) d) as [b|], (spec_update x c d) as [x'|]; try done.
  destruct Hu as (Hb & Hp & Hac). split; [done|]. cbn [snd]. rewrite <- Hk, <- Hp.
  assert (Hi : initialized s = true) by (unfold sandbox_get in Eg; by destruct (initialized s)).
  apply (sandbox_put _ _ i b _ H Hi Hr Hp); [|done]. unfold is_active in *. congruence.
Qed.

(** The checks look one sandbox up and compare. *)
Lemma check_refines s t pid (f : sandbox_t -> error_code_t) e (pass : box -> Prop) `{forall x, Decision (pass x)} :
  sandbox_rel s t -> (forall b x, repr b x -> f b = if decide (pass x) then ERR_OK else e) ->
  match sandbox_get s pid with None => ERR_OK | Some i => f (sandboxes s i) end = fst (spec_check t pid e pass) /\
  sandbox_rel s (snd (spec_check t pid e pass)).
Proof.
  intros Hs Hf. split; [|done]. pose proof (sandbox_find_active s t pid Hs) as Hx. unfold spec_check. simpl.
  inversion Hx as [|i x ? ? ? Hr]; [done|]. by apply Hf.
Qed.

Lemma sandbox_do_refines op s t :
  op_ok op -> sandbox_rel s t ->
  fst (sandbox_do op s) = fst (spec_op op t) /\ sandbox_rel (snd (sandbox_do op s)) (snd (spec_op op t)).
Proof.
  intros Hok H. destruct op as [|pid l|pid|[] pid d|pid n|pid|pid|pid|pid flag].
  - split; [simpl; unfold sandbox_init; by destruct (initialized s)|]. by apply init_refines.
  - by apply create_refines.
  - by apply destroy_refines.
  - by apply (update_refines Memory).
  - by apply (update_refines Files).
  - by apply (update_refines Processes).
  - by apply (update_refines Fds).
  - apply (check_refines s t pid (fun b => if max_memory (limits b) <? u64 (current_memory b + n) then ERR_OUT_OF_MEMORY else ERR_OK)); [done|].
    intros b x [Ra Ru _ Rl Rr]. specialize (Rl Memory). specialize (Rr Memory). specialize (Ra Memory). specialize (Ru Memory).
    cbn [op_ok] in Hok. unfold half in *. simpl in *. rewrite wrap_small by fits_lia. case_decide; if_lia; done.
  - apply (check_refines s t pid (fun b => if max_files (limits b) <=? current_files b then ERR_OUT_OF_MEMORY else ERR_OK)); [done|].
    intros b x [Ra Ru _ _ _]. specialize (Ra Files). specialize (Ru Files). simpl in *. case_decide; if_lia; done.
  - apply (check_refines s t pid (fun b => if max_processes (limits b) <=? current_processes b then ERR_OUT_OF_MEMORY else ERR_OK)); [done|].
    intros b x [Ra Ru _ _ _]. specialize (Ra Processes). specialize (Ru Processes). simpl in *. case_decide; if_lia; done.
  - apply (check_refines s t pid (fun b => if max_fds (limits b) <=? current_fds b then ERR_OUT_OF_MEMORY else ERR_OK)); [done|].
    intros b x [Ra Ru _ _ _]. specialize (Ra Fds). specialize (Ru Fds). simpl in *. case_decide; if_lia; done.
  - apply (check_refines s t pid (fun b => if has_any (flags (limits b)) flag then ERR_OK else ERR_PERMISSION_DENIED)); [done|].
    intros b x [_ _ -> _ _]. unfold has_any. destruct (Z.eqb_spec (Z.land (box_flags x) flag) 0); simpl; case_decide; done.
Qed.

Lemma sandbox_run ops : forall s t, Forall op_ok ops -> sandbox_rel s t ->
  fst (run sandbox_do ops s) = fst (run spec_op ops t) /\ sandbox_rel (snd (run sandbox_do ops s)) (snd (run spec_op ops t)).
Proof.
  induction ops as [|op ops IH]; intros s t Hok H; [done|]. apply Forall_cons in Hok as [Hop Hok].
  destruct (sandbox_do_refines op s t Hop H) as [E Hr]. destruct (IH _ _ Hok Hr) as [E' Hr'].
  simpl. by rewrite E, E'.
Qed.

(** * Limits *)

(** Limits not lowered below the present usage. *)
Definition not_below (t : boxes) (op : sandbox_op) : Prop :=
  match op with
  | OpCreate pid (Some l) => forall x c, box_of t pid = Some x -> usage x c <= limit_in l c
  | _ => True
  end.

Fixpoint all_not_below (t : boxes) (ops : list sandbox_op) : Prop :=
  match ops with
  | [] => True
  | op :: ops => not_below t op /\ all_not_below (snd (spec_op op t)) ops
  end.

Definition all_within (t : boxes) : Prop := forall pid x c, default ∅ t !! pid = Some x -> 0 <= usage x c <= allowed x c.

Lemma insert_within t pid x :
  all_within t -> (forall c, 0 <= usage x c <= allowed x c) -> all_within (Some (<[pid := x]> (default ∅ t))).
Proof.
  intros H Hx p y c Hy. simpl in Hy. apply lookup_insert_Some in Hy as [[_ <-]|[_ Hy]]; [done|by eapply H].
Qed.

Lemma spec_op_within op t : op_ok op -> not_below t op -> all_within t -> all_within (snd (spec_op op t)).
Proof.
  intros Hok Hop H. destruct op as [|pid [l|]|pid|c pid d|pid n|pid|pid|pid|pid flag]; simpl in *; try done.
  - unfold spec_create. destruct (box_of t pid) as [x|] eqn:E.
    + apply insert_within; [done|]. intros c. simpl. split; [apply (H _ _ c E)|by apply Hop].
    + case_decide; [done|]. apply insert_within; [done|]. intros c. simpl. specialize (Hok c). lia.
  - destruct t as [m|]; [|done]. destruct (box_of _ pid); [|done]. intros p x c Hx. simpl in Hx.
    apply lookup_delete_Some in Hx as [_ Hx]. by apply (H p).
  - destruct (box_of t pid) as [x|] eqn:E; [|done]. unfold spec_update. case_bool_decide as Hd; [done|].
    apply insert_within; [done|]. intros c'. simpl. pose proof (H _ _ c' E). case_decide; [|done]. subst c'. lia.
Qed.

Lemma run_within ops : forall t, Forall op_ok ops -> all_not_below t ops -> all_within t -> all_within (snd (run spec_op ops t)).
Proof.
  induction ops as [|op ops IH]; intros t Hok Hnb H; simpl; [done|]. apply Forall_cons in Hok as [Hop Hok].
  destruct Hnb as [H1 H2]. apply IH; [done|done|]. by apply spec_op_within.
Qed.

(** * Properties *)

(** C7. Refinement: from boot, any sequence of initialisations, creations,
    destructions, usage updates and checks, made one call at a time, returns exactly
    the error codes of an abstract map from process id to sandbox with unbounded
    counters: an update adds the increment, stops at zero, and is refused when it is
    positive and exceeds the limit; the checks compare usage and limit; 256
    sandboxes fit.  The table it leaves represents that map (the same process ids,
    each once, all active, with the same limits, usage and flags).  Assumed of the
    arguments: limits below half the range of their counters (2^63 for memory, 2^31
    for the others), increments of their signed C types and requests below 2^63. *)
Theorem sandbox_refines_map (ops : list sandbox_op) (Hok : Forall op_ok ops) :
  fst (run sandbox_do ops (zero_state false)) = fst (run spec_op ops None) /\
  sandbox_rel (snd (run sandbox_do ops (zero_state false))) (snd (run spec_op ops None)).
Proof. apply sandbox_run; [done|apply (zero_state_rel false)]. Qed.

(** Enforcement: under the same assumptions, when no limit is lowered below the
    usage at the time, then after any sequence of calls a sandboxed process's
    usage is within its limits, and [sandbox_check_memory] accepts a request below
    2^63 exactly when it fits in what remains of the limit. *)
Theorem sandbox_limits_enforced (ops : list sandbox_op) (pid i requested : Z)
  (Hok : Forall op_ok ops) (Hnb : all_not_below None ops)
  (Hget : sandbox_get (snd (run sandbox_do ops (zero_state false))) pid = Some i)
  (Hreq : 0 <= requested < 2 ^ 63) :
  let s := snd (run sandbox_do ops (zero_state false)) in
  let b := sandboxes s i in
  (forall c, 0 <= used_in b c <= limit_in (limits b) c) /\
  (sandbox_check_memory s pid requested = ERR_OK <-> requested <= max_memory (limits b) - current_memory b).
Proof.
  destruct (sandbox_run ops _ _ Hok (zero_state_rel false)) as [_ Hrel]. pose proof (run_within ops None Hok Hnb) as Hw.
  set (s := snd (run sandbox_do ops (zero_state false))) in *. simpl.
  pose proof (sandbox_find_active s _ pid Hrel) as Hf. rewrite Hget in Hf.
  inversion Hf as [|? x Hr Hk Ha Hx Heq1 Heq2]; subst. destruct Hx as [Ra Ru _ Rl Rr].
  assert (Hb : forall c, 0 <= used_in (sandboxes s i) c <= limit_in (limits (sandboxes s i)) c).
  { intros c. rewrite Ra, Ru. split; [apply Rr|]. symmetry in Heq2. eapply Hw; [|exact Heq2]. intros p y c0 Hy. simpl in Hy. by rewrite lookup_empty in Hy. }
  split; [done|]. unfold sandbox_check_memory. rewrite Hget.
  pose proof (Hb Memory) as Hm. pose proof (Rl Memory). rewrite <- Ra in *. unfold half in *. simpl in *.
  rewrite wrap_small by fits_lia. destruct (Z.ltb_spec (max_memory (limits (sandboxes s i)))
    (current_memory (sandboxes s i) + requested)); split; intros; done || lia.
Qed.

(** The addition in [sandbox_check_memory] wraps: whatever the limit, a
    process with some memory in use passes the check for a request of
    2^64 minus its usage, which exceeds every limit. *)
Theorem sandbox_check_memory_wraps (s : sandbox_state) (pid i : Z)
  (Hget : sandbox_get s pid = Some i)
  (Hcur : 0 < current_memory (sandboxes s i) < 2 ^ 64)
  (Hmax : 0 <= max_memory (limits (sandboxes s i)) < 2 ^ 64) :
  let requested := 2 ^ 64 - current_memory (sandboxes s i) in
  fits 64 requested /\ sandbox_check_memory s pid requested = ERR_OK /\
  max_memory (limits (sandboxes s i)) < current_memory (sandboxes s i) + requested.
Proof.
  simpl. split; [unfold fits; lia|]. split; [|lia]. unfold sandbox_check_memory. rewrite Hget.
  replace (u64 _) with 0; [if_lia; done|]. unfold wrap.
  replace (current_memory (sandboxes s i) + (2 ^ 64 - current_memory (sandboxes s i))) with (2 ^ 64) by lia.
  by rewrite Z.mod_same.
Qed.

(** A concrete run for the witnesses: two sandboxes, some usage. *)
Definition demo_limits : sandbox_limits_t :=
  {| max_memory := 4096; max_files := 4; max_processes := 2; max_fds := 8; flags := 3 |}.
Definition demo_ops : list sandbox_op :=
  [OpInit; OpCreate 7 (Some demo_limits); OpCreate 9 (Some demo_limits); OpUpdate Memory 7 1000;
   OpUpdate Memory 7 5000; OpUpdate Files 9 2; OpUpdate Files 9 (-1); OpDestroy 9].

Lemma demo_ops_ok : Forall op_ok demo_ops.
Proof. repeat apply Forall_cons_2; try apply Forall_nil_2; simpl; try done; intros []; done. Qed.

Lemma sandbox_refines_map_witness :
  fst (run sandbox_do demo_ops (zero_state false)) =
    [ERR_OK; ERR_OK; ERR_OK; ERR_OK; ERR_OUT_OF_MEMORY; ERR_OK; ERR_OK; ERR_OK].
Proof. rewrite (proj1 (sandbox_refines_map demo_ops demo_ops_ok)). vm_compute. reflexivity. Defined.

Lemma sandbox_limits_enforced_witness :
  current_memory (sandboxes (snd (run sandbox_do demo_ops (zero_state false))) 0) = 1000 /\
  (sandbox_check_memory (snd (run sandbox_do demo_ops (zero_state false))) 7 3096 = ERR_OK <-> 3096 <= 4096 - 1000).
Proof.
  split; [vm_compute; reflexivity|].
  refine (proj2 (sandbox_limits_enforced demo_ops 7 0 3096 demo_ops_ok _ _ _)); [|vm_compute; reflexivity|lia].
  unfold demo_ops. cbn [all_not_below not_below].
  repeat match goal with |- _ /\ _ => split | |- True => exact I end; intros x c Hx; exfalso; vm_compute in Hx; discriminate.
Defined.

Lemma sandbox_check_memory_wraps_witness :
  sandbox_check_memory (snd (run sandbox_do demo_ops (zero_state false))) 7 (2 ^ 64 - 1000) = ERR_OK.
Proof.
  apply (sandbox_check_memory_wraps (snd (run sandbox_do demo_ops (zero_state false))) 7 0);
    vm_compute; [reflexivity|split; [reflexivity|reflexivity]|split; [discriminate|reflexivity]].
Defined.
