(* ===== verification/Capability.v ===== *)
(** * Capabilities (kernel/security/capability.c)

    Every process has a growable table of capabilities; capability ids come from
    one global counter.  The heap is a parameter of the operations that allocate:
    the result of a [kmalloc] call is [None] for failure or [Some a], [a] being
    the unspecified contents of the new block.  The current process is the pid
    argument, [None] when [process_get_current] returns null.

    An operation that would dereference a null table returns [None]; that this
    never happens is part of the invariant.  Each operation runs under the lock of
    its table and is one step.  The flag [capability_system_initialized] is
    written and never read; it is left out. *)

From stdpp Require Import base tactics list numbers option gmap fin_maps relations.
From Stdlib Require Import Lia.
From S2P Require Import Prelude Table.

(** ** Messages (kernel/include/ipc/ipc.h) *)

Definition IPC_INLINE_SIZE : Z := 64.

Record ipc_message_t := {
  sender_tid : Z; msg_id : Z; msg_type : Z; inline_size : Z; inline_data : arr Z; buffer : Z; buffer_size : Z
}.

(** ** Capabilities *)

Definition CAP_TYPE_IPC_PORT : Z := 1.
Definition CAP_RIGHT_READ : Z := Z.shiftl 1 0.
Definition CAP_RIGHT_WRITE : Z := Z.shiftl 1 1.
Definition CAP_RIGHT_TRANSFER : Z := Z.shiftl 1 4.
Definition MAX_CAPABILITIES_PER_PROCESS : Z := 256.
Definition INITIAL_CAPACITY : Z := 16.
Definition MAX_PROCESSES : Z := 32768.

Record capability_t := { cap_id : Z; cap_type : Z; resource_id : Z; rights : Z }.

Record capability_table_t := {
  capabilities : option (arr capability_t); count : Z; capacity : Z; t_initialized : bool
}.

Record caps := { capability_tables : arr capability_table_t; next_cap_id : Z }.

Definition set_table (s : caps) (p : Z) (t : capability_table_t) : caps :=
  {| capability_tables := (capability_tables s).[p <- t]; next_cap_id := next_cap_id s |}.

Definition get_process_table (pid : Z) : option Z :=
  if (pid <? 0) || (MAX_PROCESSES <=? pid) then None else Some pid.

Definition empty_table : capability_table_t :=
  {| capabilities := None; count := 0; capacity := 0; t_initialized := false |}.

Definition capability_init (s : caps) : caps :=
  {| capability_tables := for_loop (Z.to_nat MAX_PROCESSES) 0 (fun i a => a.[i <- empty_table]) (capability_tables s);
     next_cap_id := 1 |}.

Arguments capability_init : simpl never.

(** A heap answer. *)
Definition kmem : Type := option (arr capability_t).

Definition ensure_table_initialized (t : capability_table_t) (km : kmem) : Z * capability_table_t :=
  if t_initialized t && bool_decide (is_Some (capabilities t)) then (0, t)
  else if negb (t_initialized t) then
    match km with
    | None => (-1, {| capabilities := None; count := count t; capacity := INITIAL_CAPACITY; t_initialized := false |})
    | Some a => (0, {| capabilities := Some a; count := 0; capacity := INITIAL_CAPACITY; t_initialized := true |})
    end
  else (0, t).

(** The resize step of [capability_create]: [None] is a null dereference,
    [Some None] the early return of 0. *)
Definition grow (t : capability_table_t) (km : kmem) : option (option capability_table_t) :=
  if capacity t <=? count t then
    let new_cap := u64 (capacity t * 2) in
    let new_cap := if MAX_CAPABILITIES_PER_PROCESS <? new_cap then MAX_CAPABILITIES_PER_PROCESS else new_cap in
    if new_cap <=? count t then Some None
    else match km with
         | None => Some None
         | Some new_arr =>
             let done a := Some (Some {| capabilities := Some a; count := count t; capacity := new_cap;
                                         t_initialized := t_initialized t |}) in
             match capabilities t with
             | Some old => done (for_loop (Z.to_nat (count t)) 0 (fun i a => a.[i <- old i]) new_arr)
             | None => if count t =? 0 then done new_arr else None
             end
         end
  else Some (Some t).

Definition capability_create (s : caps) (proc : option Z) (km1 km2 : kmem) (ty res rts : Z) : option (Z * caps) :=
  match proc with
  | None => Some (0, s)
  | Some pid =>
      match get_process_table pid with
      | None => Some (0, s)
      | Some p =>
          let (rc, t) := ensure_table_initialized (capability_tables s p) km1 in
          let s := set_table s p t in
          if negb (rc =? 0) then Some (0, s)
          else match grow t km2 with
               | None => None
               | Some None => Some (0, s)
               | Some (Some t) =>
                   let id := next_cap_id s in
                   match capabilities t with
                   | None => None
                   | Some a =>
                       let slot := {| cap_id := id; cap_type := ty; resource_id := res; rights := rts |} in
                       let t := {| capabilities := Some (a.[count t <- slot]); count := u64 (count t + 1);
                                   capacity := capacity t; t_initialized := t_initialized t |} in
                       Some (id, {| capability_tables := (capability_tables s).[p <- t];
                                    next_cap_id := u64 (next_cap_id s + 1) |})
                   end
               end
      end
  end.

(** The search loop over a table; the outer [None] is a null dereference. *)
Definition table_find (q : capability_t -> bool) (t : capability_table_t) : option (option (Z * capability_t)) :=
  if count t =? 0 then Some None
  else match capabilities t with
       | None => None
       | Some a => Some ((fun i => (i, a i)) <$> tfind q a (count t))
       end.

(** The table of the current process, when there is one and it is initialised. *)
Definition current_table (s : caps) (proc : option Z) : option (Z * capability_table_t) :=
  match proc with
  | None => None
  | Some pid =>
      match get_process_table pid with
      | None => None
      | Some p => if t_initialized (capability_tables s p) then Some (p, capability_tables s p) else None
      end
  end.

Definition has_id (id : Z) (c : capability_t) : bool := cap_id c =? id.

Definition capability_check (s : caps) (proc : option Z) (id right : Z) : option bool :=
  match current_table s proc with
  | None => Some false
  | Some (_, t) =>
      match table_find (has_id id) t with
      | None => None
      | Some None => Some false
      | Some (Some (_, c)) => Some (has_all (rights c) right)
      end
  end.

Definition MAGIC : Z := 0xCAFEBABECAFEBABE.

(** [None] in the message argument is a null pointer; the result code comes with
    the message as the call leaves it. *)
Definition capability_transfer (s : caps) (proc : option Z) (msg : option ipc_message_t) (id : Z)
  : option (Z * option ipc_message_t) :=
  match msg with
  | None => Some (-1, msg)
  | Some m =>
      match current_table s proc with
      | None => Some (-1, msg)
      | Some (_, t) =>
          match table_find (has_id id) t with
          | None => None
          | Some None => Some (-1, msg)
          | Some (Some (_, c)) =>
              if negb (has_all (rights c) CAP_RIGHT_TRANSFER) then Some (-1, msg)
              else if u32 (inline_size m + 32) <=? IPC_INLINE_SIZE then
                let d := inline_data m in
                let o := inline_size m in
                let d := put64 d (o + 0) MAGIC in
                let d := put64 d (o + 8) (cap_type c) in
                let d := put64 d (o + 16) (resource_id c) in
                let d := put64 d (o + 24) (rights c) in
                Some (0, Some {| sender_tid := sender_tid m; msg_id := msg_id m; msg_type := msg_type m;
                                 inline_size := u32 (inline_size m + 32); inline_data := d;
                                 buffer := buffer m; buffer_size := buffer_size m |})
              else Some (-1, msg)
          end
      end
  end.

Definition capability_revoke (s : caps) (proc : option Z) (id : Z) : option (Z * caps) :=
  match current_table s proc with
  | None => Some (-1, s)
  | Some (p, t) =>
      match table_find (has_id id) t with
      | None => None
      | Some None => Some (-1, s)
      | Some (Some (i, _)) =>
          match capabilities t with
          | None => None
          | Some a =>
              Some (0, set_table s p {| capabilities := Some (a.[i <- a (count t - 1)]); count := u64 (count t - 1);
                                        capacity := capacity t; t_initialized := t_initialized t |})
          end
      end
  end.

Definition is_port_cap (port_id : Z) (c : capability_t) : bool :=
  (cap_type c =? CAP_TYPE_IPC_PORT) && (resource_id c =? port_id).

Definition capability_find_for_port (s : caps) (proc : option Z) (port_id : Z) : option Z :=
  match current_table s proc with
  | None => Some 0
  | Some (_, t) =>
      match table_find (is_port_cap port_id) t with
      | None => None
      | Some None => Some 0
      | Some (Some (_, c)) => Some (cap_id c)
      end
  end.

(** * Invariant and abstraction *)

Definition id_below (n : Z) (c : capability_t) : Prop := 1 <= cap_id c < n.

(** The capabilities in use, as a list and as a map from capability id. *)
Definition cap_list (t : capability_table_t) : list capability_t :=
  match capabilities t with Some a => contents a (count t) | None => [] end.
Definition cap_map (t : capability_table_t) : gmap Z capability_t := as_map cap_id (cap_list t).

(** What process [pid] holds. *)
Definition owned (s : caps) (pid : Z) : gmap Z capability_t := cap_map (capability_tables s pid).

Inductive table_ok (n : Z) (t : capability_table_t) : Prop :=
  | table_unused : capabilities t = None -> count t = 0 -> t_initialized t = false -> table_ok n t
  | table_used a :
      capabilities t = Some a -> t_initialized t = true ->
      count t <= capacity t -> INITIAL_CAPACITY <= capacity t <= MAX_CAPABILITIES_PER_PROCESS ->
      keyed_ok cap_id (id_below n) a (count t) -> table_ok n t.

Record caps_inv (s : caps) : Prop := {
  ci_next : 1 <= next_cap_id s < 2 ^ 64;
  ci_tables : forall p, table_ok (next_cap_id s) (capability_tables s p);
  ci_range : forall p, ~ 0 <= p < MAX_PROCESSES -> capability_tables s p = empty_table;
  ci_disjoint : forall p q id c d, owned s p !! id = Some c -> owned s q !! id = Some d -> p = q
}.

Lemma keyed_ok_mono {A} (key : A -> Z) (P Q : A -> Prop) a n :
  (forall x, P x -> Q x) -> keyed_ok key P a n -> keyed_ok key Q a n.
Proof. intros HPQ (? & ? & HP). split_and!; try done. intros x Hx. by apply HPQ, HP. Qed.

Lemma table_ok_mono n n' t : n <= n' -> table_ok n t -> table_ok n' t.
Proof.
  intros Hn [|a ? ? ? ? Hk]; [by apply table_unused|]. eapply table_used; try done.
  eapply keyed_ok_mono; [|exact Hk]. unfold id_below. intros; lia.
Qed.

Lemma cap_map_Some n t id c :
  table_ok n t -> cap_map t !! id = Some c <-> c ∈ cap_list t /\ cap_id c = id.
Proof.
  intros H. unfold cap_map. destruct H as [E _ _|a E _ _ _ (_ & Hu & _)]; unfold cap_list; rewrite E.
  - rewrite as_map_lookup by apply NoDup_nil_2. tauto.
  - rewrite as_map_lookup by done. tauto.
Qed.

Lemma owned_id s p id c : caps_inv s -> owned s p !! id = Some c -> 1 <= id < next_cap_id s /\ cap_id c = id.
Proof.
  intros Hs Hl. pose proof (ci_tables s Hs p) as Ht. apply (cap_map_Some _ _ _ _ Ht) in Hl as [Hc <-].
  split; [|done]. destruct Ht as [E _ _|a E _ _ _ (_ & _ & HP)]; unfold cap_list in Hc; rewrite E in Hc.
  - by apply not_elem_of_nil in Hc.
  - apply (HP _ Hc).
Qed.

(** The search loop never faults, and finds an entry exactly when there is one. *)
Lemma table_find_ok n t q :
  table_ok n t ->
  exists r, table_find q t = Some r /\
    match r with
    | None => forall c, c ∈ cap_list t -> q c = false
    | Some (i, c) =>
        0 <= i < count t /\ q c = true /\ c ∈ cap_list t /\
        exists a, capabilities t = Some a /\ c = a i /\ keyed_ok cap_id (id_below n) a (count t)
    end.
Proof.
  intros H. unfold table_find, cap_list. destruct H as [E E0 _|a E _ _ _ Hk].
  - rewrite E0, E. simpl. exists None. split; [done|]. intros c Hc. by apply not_elem_of_nil in Hc.
  - pose proof Hk as (Hn & _). rewrite E. destruct (Z.eqb_spec (count t) 0) as [E0|].
    { exists None. split; [done|]. rewrite E0, contents_0. intros c Hc. by apply not_elem_of_nil in Hc. }
    eexists. split; [done|]. destruct (tfind q a (count t)) as [i|] eqn:Ef; simpl.
    + apply tfind_Some in Ef as (Hi & Hq & _); [|done]. split_and!; try done; try lia.
      * apply contents_elem. exists i. split; [lia|done].
      * by exists a.
    + by apply tfind_None.
Qed.

Lemma table_find_id n t id :
  table_ok n t ->
  exists r, table_find (has_id id) t = Some r /\
    match r with
    | None => cap_map t !! id = None
    | Some (i, c) =>
        cap_map t !! id = Some c /\
        exists a, capabilities t = Some a /\ 0 <= i < count t /\ c = a i /\ keyed_ok cap_id (id_below n) a (count t)
    end.
Proof.
  intros H. destruct (table_find_ok n t (has_id id) H) as (r & Hr & Hspec). exists r. split; [done|].
  unfold has_id in Hspec. destruct r as [[i c]|].
  - destruct Hspec as (Hi & Hq & Hc & a & Ha & Hca & Hk). bprop. split; [|by exists a].
    apply (cap_map_Some n); [done|]. done.
  - apply as_map_None. intros c Hc. specialize (Hspec c Hc). by bprop.
Qed.

(** ** The current process's table *)

Lemma current_table_spec s proc :
  caps_inv s ->
  match current_table s proc with
  | Some (p, t) => proc = Some p /\ 0 <= p < MAX_PROCESSES /\ t = capability_tables s p /\ t_initialized t = true
  | None => forall p, proc = Some p -> 0 <= p < MAX_PROCESSES -> owned s p = ∅
  end.
Proof.
  intros Hs. unfold current_table, get_process_table. destruct proc as [p|]; [|done].
  destruct ((p <? 0) || (MAX_PROCESSES <=? p)) eqn:E; bprop.
  - intros q [= <-] Hq. lia.
  - destruct (t_initialized (capability_tables s p)) eqn:Ei; [split_and!; done || lia|].
    intros q [= <-] _. unfold owned, cap_map, cap_list.
    destruct (ci_tables s Hs p) as [-> _ _|a _ Hi _ _ _]; [done|congruence].
Qed.

(** What the process the call runs for holds. *)
Definition owned_by (s : caps) (proc : option Z) : gmap Z capability_t :=
  match proc with
  | Some p => if (p <? 0) || (MAX_PROCESSES <=? p) then ∅ else owned s p
  | None => ∅
  end.

Lemma owned_by_current s proc :
  caps_inv s ->
  match current_table s proc with
  | Some (p, t) => owned_by s proc = cap_map t /\ table_ok (next_cap_id s) t
  | None => owned_by s proc = ∅
  end.
Proof.
  intros Hs. pose proof (current_table_spec s proc Hs) as H. destruct (current_table s proc) as [[p t]|].
  - destruct H as (-> & Hp & -> & _). unfold owned_by. if_lia. split; [done|apply (ci_tables s Hs)].
  - unfold owned_by. destruct proc as [p|]; [|done]. destruct (_ || _) eqn:E; [done|]. bprop. apply H; [done|lia].
Qed.

Lemma check_spec s proc id right :
  caps_inv s ->
  exists b, capability_check s proc id right = Some b /\
    (b = true <-> exists c, owned_by s proc !! id = Some c /\ has_all (rights c) right = true).
Proof.
  intros Hs. unfold capability_check. pose proof (owned_by_current s proc Hs) as H.
  destruct (current_table s proc) as [[p t]|].
  - destruct H as [-> Ht]. destruct (table_find_id _ t id Ht) as (r & -> & Hr). destruct r as [[i c]|].
    + destruct Hr as [-> _]. eexists. split; [done|]. split; [by exists c|]. by intros (? & [= <-] & ?).
    + rewrite Hr. eexists. split; [done|]. split; [done|]. by intros (? & ? & _).
  - rewrite H. eexists. split; [done|]. split; [done|]. by intros (? & ? & _).
Qed.

Lemma find_for_port_spec s proc port :
  caps_inv s ->
  exists id, capability_find_for_port s proc port = Some id /\
    match decide (id = 0) with
    | left _ => forall i c, owned_by s proc !! i = Some c -> is_port_cap port c = false
    | right _ => exists c, owned_by s proc !! id = Some c /\ is_port_cap port c = true
    end.
Proof.
  intros Hs. unfold capability_find_for_port. pose proof (owned_by_current s proc Hs) as H.
  destruct (current_table s proc) as [[p t]|].
  - destruct H as [-> Ht]. destruct (table_find_ok _ t (is_port_cap port) Ht) as (r & -> & Hr).
    destruct r as [[i c]|].
    + destruct Hr as (_ & Hq & Hc & a & Ha & _ & (_ & _ & HP)). eexists. split; [done|].
      assert (1 <= cap_id c) by (unfold cap_list in Hc; rewrite Ha in Hc; apply (HP _ Hc)).
      rewrite decide_False by lia. exists c. split; [|done]. by apply (cap_map_Some (next_cap_id s)).
    + exists 0. split; [done|]. rewrite decide_True by done. intros i c Hl.
      apply (cap_map_Some (next_cap_id s)) in Hl as [Hc _]; [|done]. by apply Hr.
  - rewrite H. exists 0. split; [done|]. rewrite decide_True by done. intros i c Hl. by rewrite lookup_empty in Hl.
Qed.

(** ** Updates *)

Lemma owned_set s p t q : owned (set_table s p t) q = if q =? p then cap_map t else owned s q.
Proof. unfold owned, set_table, aset. simpl. by destruct (q =? p). Qed.

(** Replacing a table by one that holds a part of its capabilities. *)
Lemma set_table_inv s p t :
  caps_inv s -> 0 <= p < MAX_PROCESSES -> table_ok (next_cap_id s) t -> cap_map t ⊆ owned s p -> caps_inv (set_table s p t).
Proof.
  intros Hs Hp Ht Hsub. split; [apply Hs| | |].
  - intros q. simpl. unfold aset. destruct (q =? p); [done|apply Hs].
  - intros q Hq. simpl. rewrite aset_ne by lia. by apply (ci_range s Hs).
  - assert (Hle : forall r id c, owned (set_table s p t) r !! id = Some c -> owned s r !! id = Some c).
    { intros r id c. rewrite owned_set. destruct (Z.eqb_spec r p) as [->|]; [|done].
      intros Hl. by eapply lookup_weaken. }
    intros q r id c d Hq Hr. eapply (ci_disjoint s Hs); by apply Hle.
Qed.

Lemma ensure_ok n t km :
  table_ok n t ->
  let '(rc, t') := ensure_table_initialized t km in
  table_ok n t' /\ cap_map t' = cap_map t /\ (rc = 0 -> t_initialized t' = true) /\ (is_Some km -> rc = 0).
Proof.
  intros H. unfold ensure_table_initialized, cap_map, cap_list. destruct H as [E E0 Ei|a E Ei Hc Hcap Hk].
  - rewrite Ei. simpl. destruct km as [b|].
    + split_and!; try done; [|by rewrite E].
      eapply table_used; simpl; try done.
      split_and!; [lia|apply NoDup_nil_2|]. intros x Hx. by apply not_elem_of_nil in Hx.
    + rewrite E. split_and!; try done; by apply table_unused || by intros [].
  - rewrite Ei, bool_decide_true by (by rewrite E). simpl. split_and!; try done. by eapply table_used.
Qed.

Lemma copy_contents {A} (src buf : arr A) (n : Z) :
  contents (for_loop (Z.to_nat n) 0 (fun i a => a.[i <- src i]) buf) n = contents src n.
Proof.
  apply list_eq. intros k. rewrite !contents_lookup. case_decide as Hk; [|done]. f_equal.
  rewrite fill_loop. by if_lia.
Qed.

Lemma keyed_ok_contents {A} (key : A -> Z) P (a b : arr A) n :
  contents a n = contents b n -> keyed_ok key P a n -> keyed_ok key P b n.
Proof. intros E. unfold keyed_ok. by rewrite E. Qed.

Lemma grow_ok n t km :
  table_ok n t -> t_initialized t = true ->
  exists r, grow t km = Some r /\
    (is_Some km -> count t < MAX_CAPABILITIES_PER_PROCESS -> is_Some r) /\
    forall t', r = Some t' ->
      table_ok n t' /\ cap_map t' = cap_map t /\ t_initialized t' = true /\ count t' = count t /\
      count t' < capacity t'.
Proof.
  intros H Hi. unfold grow, MAX_CAPABILITIES_PER_PROCESS. destruct H as [|a E _ Hc Hcap Hk]; [congruence|].
  unfold INITIAL_CAPACITY, MAX_CAPABILITIES_PER_PROCESS in *.
  destruct (Z.leb_spec (capacity t) (count t)) as [Hfull|Hroom].
  2:{ eexists. split; [done|]. split; [done|]. intros t' [= <-]. split_and!; try done. by eapply table_used. }
  rewrite wrap_small by fits_lia.
  set (new_cap := if 256 <? capacity t * 2 then 256 else capacity t * 2).
  assert (Hnew : count t < 256 -> count t < new_cap) by (unfold new_cap; case_if; bprop; lia).
  assert (16 <= new_cap <= 256) by (unfold new_cap; case_if; bprop; lia). clearbody new_cap.
  destruct (Z.leb_spec new_cap (count t)); [eexists; split; [done|]; split; [intros; lia|done]|].
  destruct km as [b|]; [|eexists; split; [done|]; split; [by intros []|done]]. rewrite E.
  eexists. split; [done|]. split; [done|]. intros t' [= <-].
  split_and!; simpl; try done.
  - eapply table_used; simpl; try done; [lia|]. eapply keyed_ok_contents; [|exact Hk].
    by rewrite copy_contents.
  - unfold cap_map, cap_list. simpl. by rewrite E, copy_contents.
Qed.

(** Storing a capability with the next id in a table that has room. *)
Lemma push_cap s p t a slot :
  caps_inv s -> next_cap_id s + 1 < 2 ^ 64 -> 0 <= p < MAX_PROCESSES -> table_ok (next_cap_id s) t ->
  capabilities t = Some a -> count t < capacity t -> cap_map t = owned s p -> cap_id slot = next_cap_id s ->
  let s' := {| capability_tables := (capability_tables s).[p <-
                 {| capabilities := Some (a.[count t <- slot]); count := u64 (count t + 1);
                    capacity := capacity t; t_initialized := t_initialized t |}];
               next_cap_id := u64 (next_cap_id s + 1) |} in
  caps_inv s' /\ forall q, owned s' q = if q =? p then <[next_cap_id s := slot]> (owned s p) else owned s q.
Proof.
  intros Hs Hnext Hp Ht Ea Hroom Hm Hslot. destruct Ht as [|a' Ea' Hi Hcc Hcap Hk]; [congruence|].
  assert (a' = a) as -> by congruence. pose proof (ci_next s Hs) as Hn. pose proof Hk as (Hc0 & _ & Hids).
  unfold INITIAL_CAPACITY, MAX_CAPABILITIES_PER_PROCESS in *. set (id := next_cap_id s) in *.
  rewrite (wrap_small 64 (count t + 1)), (wrap_small 64 (id + 1)) by fits_lia.
  destruct (keyed_snoc cap_id (id_below (id + 1)) a (count t) slot) as [Hok Hmap].
  { eapply keyed_ok_mono; [|exact Hk]. unfold id_below. intros; lia. }
  { intros y Hy. specialize (Hids y Hy). unfold id_below in Hids. lia. }
  { unfold id_below. lia. }
  match goal with |- caps_inv ?x /\ _ => set (s' := x) end.
  assert (Ho : forall q, owned s' q = if q =? p then <[id := slot]> (owned s p) else owned s q).
  { intros q. rewrite <- Hm. unfold owned, s', aset. simpl. destruct (q =? p); [|done].
    unfold cap_map, cap_list. simpl. rewrite Ea, <- Hslot. exact Hmap. }
  split; [|done]. split; simpl; [lia| | |].
  - intros q. unfold aset. destruct (q =? p).
    + eapply table_used; simpl; try done; unfold INITIAL_CAPACITY, MAX_CAPABILITIES_PER_PROCESS; lia.
    + eapply table_ok_mono; [|apply (ci_tables s Hs)]. fold id. lia.
  - intros q Hq. rewrite aset_ne by lia. by apply (ci_range s Hs).
  - assert (Hold : forall q i c, owned s' q !! i = Some c -> (i = id /\ q = p) \/ (i < id /\ owned s q !! i = Some c)).
    { intros q i c. rewrite Ho. destruct (Z.eqb_spec q p) as [->|]; rewrite ?lookup_insert_Some.
      - intros [[<- _]|[_ Hl]]; [by left|]. right. split; [|done]. apply owned_id in Hl as [? _]; [unfold id; lia|done].
      - intros Hl. right. split; [|done]. apply owned_id in Hl as [? _]; [unfold id; lia|done]. }
    intros q r i c d Hq Hr. apply Hold in Hq as [[-> ->]|[Hlt Hq]]; apply Hold in Hr as [[Hj ->]|[Hlt' Hr]];
      try lia; try done. eapply (ci_disjoint s Hs); done.
Qed.

Lemma caps_inv_ext s s' :
  next_cap_id s = next_cap_id s' -> (forall q, capability_tables s' q = capability_tables s q) ->
  caps_inv s' -> caps_inv s.
Proof.
  intros Hn Ht [H1 H2 H3 H4]. unfold owned in H4. split.
  - by rewrite Hn.
  - intros q. rewrite <- Ht, Hn. done.
  - intros q Hq. rewrite <- Ht. by apply H3.
  - intros q r id c d. unfold owned. rewrite <- !Ht. apply H4.
Qed.

(** Creation adds one capability with a fresh non-zero id to the caller's table,
    or changes nothing; it succeeds whenever the heap answers, the pid is valid
    and the caller holds fewer than 256 capabilities. *)
Lemma create_spec s proc km1 km2 ty res rts :
  caps_inv s -> next_cap_id s + 1 < 2 ^ 64 ->
  exists id s', capability_create s proc km1 km2 ty res rts = Some (id, s') /\ caps_inv s' /\
    next_cap_id s' <= next_cap_id s + 1 /\
    (id = 0 /\ (forall q, owned s' q = owned s q) \/
     id = next_cap_id s /\ exists p, proc = Some p /\ 0 <= p < MAX_PROCESSES /\
       forall q, owned s' q =
         if q =? p then <[id := {| cap_id := id; cap_type := ty; resource_id := res; rights := rts |}]> (owned s p)
         else owned s q) /\
    (forall p, proc = Some p -> 0 <= p < MAX_PROCESSES -> is_Some km1 -> is_Some km2 ->
       Z.of_nat (size (owned s p)) < MAX_CAPABILITIES_PER_PROCESS -> id <> 0).
Proof.
  intros Hs Hnext. unfold capability_create, get_process_table.
  destruct proc as [p|]; [|exists 0, s; split_and!; [done|done|lia|by left|done]].
  destruct ((p <? 0) || (MAX_PROCESSES <=? p)) eqn:Ep; bprop.
  { exists 0, s. split_and!; [done|done|lia|by left|]. intros q [= <-]. lia. }
  pose proof (ensure_ok _ _ km1 (ci_tables s Hs p)) as He.
  destruct (ensure_table_initialized _ km1) as [rc t]. destruct He as (Ht & Hm & Hti & Hrc).
  assert (Hs1 : caps_inv (set_table s p t)) by (apply set_table_inv; [done|lia|done|by rewrite Hm]).
  assert (Ho1 : forall q, owned (set_table s p t) q = owned s q).
  { intros q. rewrite owned_set. destruct (Z.eqb_spec q p) as [->|]; done. }
  destruct (Z.eqb_spec rc 0) as [->|Hrc0]; simpl.
  2:{ exists 0, (set_table s p t). split_and!; [done|done|simpl; lia|by left|]. intros q _ _ H1. by apply Hrc in H1. }
  specialize (Hti eq_refl). destruct (grow_ok _ t km2 Ht Hti) as (r & -> & Hkm & Hg).
  assert (Hsize : Z.of_nat (size (owned s p)) = count t).
  { change (owned s p) with (cap_map (capability_tables s p)). rewrite <- Hm. unfold cap_map, cap_list.
    destruct Ht as [|a -> _ _ _ Hk]; [congruence|]. by apply (keyed_size _ _ _ _ Hk). }
  destruct r as [t'|].
  2:{ exists 0, (set_table s p t). split_and!; [done|done|simpl; lia|by left|].
      intros q [= <-] _ H1 H2 H3. destruct (Hkm H2) as [? ?]; [lia|done]. }
  destruct (Hg t' eq_refl) as (Ht' & Hm' & Hi' & Hc' & Hroom).
  assert (exists a, capabilities t' = Some a) as [a Ea] by (destruct Ht' as [|a Ea]; [congruence|by exists a]).
  destruct (push_cap s p t' a {| cap_id := next_cap_id s; cap_type := ty; resource_id := res; rights := rts |})
    as [Hs' Ho]; try done; try lia; [by rewrite Hm'|].
  rewrite Ea. pose proof (ci_next s Hs). eexists _, _. split; [done|]. split_and!.
  - eapply caps_inv_ext; [| |exact Hs']; [done|]. intros q. simpl. by rewrite aset_aset.
  - simpl. rewrite wrap_small by (unfold fits; lia). lia.
  - right. split; [done|]. exists p. split_and!; [done|lia|lia|]. intros q. rewrite <- Ho.
    unfold owned. simpl. by rewrite aset_aset.
  - simpl. intros; lia.
Qed.

Lemma create_next_mono s proc km1 km2 ty res rts r s' :
  caps_inv s -> next_cap_id s + 1 < 2 ^ 64 ->
  capability_create s proc km1 km2 ty res rts = Some (r, s') -> next_cap_id s <= next_cap_id s'.
Proof.
  intros Hs Hn. pose proof (ci_next s Hs). unfold capability_create.
  destruct proc as [p|]; [|by intros [= <- <-]].
  destruct (get_process_table p); [|by intros [= <- <-]].
  destruct (ensure_table_initialized _ _) as [rc t]. destruct (negb _); [by intros [= <- <-]|].
  destruct (grow _ _) as [[t'|]|]; [|by intros [= <- <-]|done]. destruct (capabilities t'); [|done].
  intros [= <- <-]. simpl. rewrite wrap_small by (unfold fits; lia). lia.
Qed.

Lemma revoke_spec s proc id :
  caps_inv s ->
  exists r s', capability_revoke s proc id = Some (r, s') /\ caps_inv s' /\ next_cap_id s' = next_cap_id s /\
    match owned_by s proc !! id with
    | None => r = -1 /\ s' = s
    | Some _ => r = 0 /\ exists p, proc = Some p /\
        forall q, owned s' q = if q =? p then delete id (owned s p) else owned s q
    end.
Proof.
  intros Hs. unfold capability_revoke. pose proof (owned_by_current s proc Hs) as H.
  pose proof (current_table_spec s proc Hs) as Hcur. destruct (current_table s proc) as [[p t]|].
  2:{ rewrite H. eexists _, _. split; [done|]. by rewrite lookup_empty. }
  destruct H as [-> Ht]. destruct Hcur as (-> & Hp & Et & Ei).
  destruct (table_find_id _ t id Ht) as (r & -> & Hr). destruct r as [[i c]|].
  2:{ rewrite Hr. eexists _, _. split; [done|]. done. }
  destruct Hr as (Hm & a & Ha & Hi & -> & Hk). rewrite Hm, Ha.
  assert (Hidi : cap_id (a i) = id) by (by apply (cap_map_Some _ _ _ _ Ht) in Hm as [_ ?]).
  destruct Ht as [|a' E _ Hc Hcap _]; [congruence|].
  unfold INITIAL_CAPACITY, MAX_CAPABILITIES_PER_PROCESS in *. rewrite wrap_small by fits_lia.
  destruct (keyed_swap _ _ _ _ i Hk Hi) as [Hok Hmap]. set (tn := {| capabilities := Some _ |}).
  assert (Hmt : cap_map tn = delete id (owned s p)).
  { unfold owned. rewrite <- Et. unfold cap_map, cap_list. simpl. by rewrite Ha, Hmap, Hidi. }
  eexists _, _. split; [done|]. split_and!; [|done|done|].
  - apply set_table_inv; [done|done| |rewrite Hmt; apply delete_subseteq].
    eapply table_used; simpl; try done; unfold INITIAL_CAPACITY, MAX_CAPABILITIES_PER_PROCESS; lia.
  - exists p. split; [done|]. intros q. rewrite owned_set, Hmt. done.
Qed.

Lemma init_spec s :
  caps_inv s -> caps_inv (capability_init s) /\ forall q, owned (capability_init s) q = ∅.
Proof.
  intros Hs. assert (Ht : forall q, capability_tables (capability_init s) q = empty_table).
  { intros q. unfold capability_init. cbn [capability_tables]. rewrite fill_loop.
    destruct (_ && _) eqn:E; [done|]. apply (ci_range s Hs). unfold MAX_PROCESSES in *.
    rewrite Z2Nat.id in E by lia. bprop. lia. }
  assert (Hn : next_cap_id (capability_init s) = 1) by done.
  assert (Ho : forall q, owned (capability_init s) q = ∅) by (intros q; unfold owned; by rewrite Ht).
  split; [|done]. split; [lia| | |].
  - intros q. rewrite Ht. by apply table_unused.
  - intros q _. apply Ht.
  - intros p q id c d Hl _. rewrite Ho in Hl. by rewrite lookup_empty in Hl.
Qed.

(** ** Sequences of calls *)

Inductive cap_op :=
  | OpInit
  | OpCreate (proc : option Z) (km1 km2 : kmem) (ty res rts : Z)
  | OpRevoke (proc : option Z) (id : Z).

Definition cap_do (op : cap_op) (s : caps) : option caps :=
  match op with
  | OpInit => Some (capability_init s)
  | OpCreate proc km1 km2 ty res rts => snd <$> capability_create s proc km1 km2 ty res rts
  | OpRevoke proc id => snd <$> capability_revoke s proc id
  end.

(** [None] when a call dereferences null. *)
Fixpoint cap_run (ops : list cap_op) (s : caps) : option caps :=
  match ops with
  | [] => Some s
  | op :: ops => cap_do op s ≫= cap_run ops
  end.

(** The static state before [capability_init]. *)
Definition caps_boot : caps := {| capability_tables := fun _ => empty_table; next_cap_id := 1 |}.

Lemma caps_boot_inv : caps_inv caps_boot.
Proof.
  split; [simpl; lia|intros; by apply table_unused|done|].
  intros p q id c d. change (owned caps_boot p) with (∅ : gmap Z capability_t). by rewrite lookup_empty.
Qed.

(** Where the capabilities after a call come from. *)
Definition minted (op : cap_op) (p : Z) (c : capability_t) : Prop :=
  match op with
  | OpCreate proc _ _ ty res rts => proc = Some p /\ cap_type c = ty /\ resource_id c = res /\ rights c = rts
  | _ => False
  end.

Lemma cap_do_spec op s :
  caps_inv s -> next_cap_id s + 1 < 2 ^ 64 ->
  exists s', cap_do op s = Some s' /\ caps_inv s' /\ next_cap_id s' <= next_cap_id s + 1 /\
    forall q id c, owned s' q !! id = Some c ->
      owned s q !! id = Some c \/ (next_cap_id s <= id /\ minted op q c).
Proof.
  intros Hs Hn. pose proof (ci_next s Hs). destruct op as [|proc km1 km2 ty res rts|proc id]; simpl.
  - destruct (init_spec s Hs) as [Hi Ho]. assert (Hn' : next_cap_id (capability_init s) = 1) by done.
    eexists. split_and!; [done|done|lia|]. intros q id c Hl. rewrite Ho in Hl. by rewrite lookup_empty in Hl.
  - destruct (create_spec s proc km1 km2 ty res rts Hs Hn) as (id & s' & -> & Hs' & Hn' & Ho & _).
    exists s'. split_and!; [done|done|done|]. intros q i c Hl. destruct Ho as [[_ Ho]|(-> & p & -> & _ & Ho)].
    + left. by rewrite <- Ho.
    + rewrite Ho in Hl. destruct (Z.eqb_spec q p) as [->|]; [|by left].
      apply lookup_insert_Some in Hl as [[<- <-]|[_ Hl]]; [|by left]. right. simpl. split; [lia|done].
  - destruct (revoke_spec s proc id Hs) as (r & s' & -> & Hs' & Hn' & Ho). exists s'.
    split_and!; [done|done|lia|]. intros q i c Hl. left. destruct (owned_by s proc !! id).
    + destruct Ho as (_ & p & -> & Ho). rewrite Ho in Hl. destruct (Z.eqb_spec q p) as [->|]; [|done].
      by apply lookup_delete_Some in Hl as [_ Hl].
    + by destruct Ho as [_ ->].
Qed.

(** No fault within the life of the id counter, and every capability held at the
    end was held at the start or minted by the process that holds it. *)
Lemma cap_run_spec ops : forall s,
  caps_inv s -> next_cap_id s + Z.of_nat (length ops) < 2 ^ 64 ->
  exists s', cap_run ops s = Some s' /\ caps_inv s' /\
    forall q id c, owned s' q !! id = Some c ->
      owned s q !! id = Some c \/ exists op, op ∈ ops /\ minted op q c.
Proof.
  induction ops as [|op ops IH]; intros s Hs Hn.
  { exists s. split_and!; [done|done|]. by left. }
  simpl in Hn. destruct (cap_do_spec op s Hs) as (s1 & E1 & Hs1 & Hn1 & Ho1); [lia|].
  destruct (IH s1 Hs1) as (s2 & E2 & Hs2 & Ho2); [lia|]. exists s2. simpl. rewrite E1. simpl.
  split_and!; [done|done|]. intros q id c Hl. destruct (Ho2 q id c Hl) as [Hl1|(op' & Hop & Hm)].
  - destruct (Ho1 q id c Hl1) as [|[_ Hm]]; [by left|]. right. exists op. split; [by left|done].
  - right. exists op'. split; [by right|done].
Qed.

(** An id below the counter that nobody holds stays unheld, until a reset. *)
Lemma cap_run_dead ops : forall s id,
  caps_inv s -> next_cap_id s + Z.of_nat (length ops) < 2 ^ 64 -> OpInit ∉ ops ->
  id < next_cap_id s -> (forall q, owned s q !! id = None) ->
  exists s', cap_run ops s = Some s' /\ caps_inv s' /\ forall q, owned s' q !! id = None.
Proof.
  induction ops as [|op ops IH]; intros s id Hs Hn Hni Hid Hq; [by exists s|].
  simpl in Hn. apply not_elem_of_cons in Hni as [Hne Hni].
  destruct (cap_do_spec op s Hs) as (s1 & E1 & Hs1 & Hn1 & Ho1); [lia|]. simpl. rewrite E1. simpl.
  assert (Hmono : next_cap_id s <= next_cap_id s1).
  { destruct op as [|proc km1 km2 ty res rts|proc i]; simpl in E1; [done| |].
    - destruct (create_spec s proc km1 km2 ty res rts Hs ltac:(lia)) as (r & s' & E & _).
      rewrite E in E1. injection E1 as <-.
      apply (create_next_mono s proc km1 km2 ty res rts r); [done|lia|done].
    - destruct (revoke_spec s proc i Hs) as (r & s' & E & _ & En & _). rewrite E in E1. injection E1 as <-. lia. }
  apply IH; [done|lia|done|lia|]. intros q. destruct (owned s1 q !! id) as [c|] eqn:E; [|done].
  destruct (Ho1 q id c E) as [E'|[? _]]; [by rewrite Hq in E'|lia].
Qed.

(** ** Where a capability comes from *)

Lemma cap_run_app ops1 ops2 s : cap_run (ops1 ++ ops2) s = cap_run ops1 s ≫= cap_run ops2.
Proof. revert s. induction ops1 as [|op ops1 IH]; intros s; [done|]. simpl. destruct (cap_do op s); simpl; [apply IH|done]. Qed.

Lemma cap_run_next ops : forall s s',
  caps_inv s -> next_cap_id s + Z.of_nat (length ops) < 2 ^ 64 -> cap_run ops s = Some s' ->
  caps_inv s' /\ next_cap_id s' <= next_cap_id s + Z.of_nat (length ops).
Proof.
  induction ops as [|op ops IH]; intros s s' Hs Hn E; simpl in *; [injection E as <-; split; [done|lia]|].
  destruct (cap_do_spec op s Hs) as (s1 & E1 & Hs1 & Hn1 & _); [lia|]. rewrite E1 in E. simpl in E.
  destruct (IH s1 s' Hs1) as [? ?]; [lia|done|]. split; [done|lia].
Qed.

(** One of the calls [ops], by the process [p], was a creation that returned [id] and
    made [c]; it was not followed by a revocation of [id] by [p] or a reset. *)
Definition granted (ops : list cap_op) (p id : Z) (c : capability_t) : Prop :=
  exists ops1 ops2 s1 s2 km1 km2,
    ops = ops1 ++ OpCreate (Some p) km1 km2 (cap_type c) (resource_id c) (rights c) :: ops2 /\
    cap_run ops1 caps_boot = Some s1 /\
    capability_create s1 (Some p) km1 km2 (cap_type c) (resource_id c) (rights c) = Some (id, s2) /\ id <> 0 /\
    (OpInit ∉ ops2) /\ (OpRevoke (Some p) id ∉ ops2).

Lemma granted_snoc ops op s p id c :
  cap_run ops caps_boot = Some s ->
  granted (ops ++ [op]) p id c <->
  (exists km1 km2 s2, op = OpCreate (Some p) km1 km2 (cap_type c) (resource_id c) (rights c) /\
     capability_create s (Some p) km1 km2 (cap_type c) (resource_id c) (rights c) = Some (id, s2) /\ id <> 0) \/
  (granted ops p id c /\ op <> OpInit /\ op <> OpRevoke (Some p) id).
Proof.
  intros Hrun. split.
  - intros (ops1 & ops2 & s1 & s2 & km1 & km2 & E & E1 & E2 & Hid & Hi & Hr).
    destruct ops2 as [|x ops2 _] using rev_ind.
    + apply app_inj_tail in E as [-> ->]. assert (s1 = s) as -> by congruence. left. by exists km1, km2, s2.
    + rewrite app_comm_cons, app_assoc in E. apply app_inj_tail in E as [-> ->]. right.
      apply not_elem_of_app in Hi as [Hi Hi'], Hr as [Hr Hr'].
      split; [by exists ops1, ops2, s1, s2, km1, km2|]. split; intros ->; [apply Hi'|apply Hr']; by left.
  - intros [(km1 & km2 & s2 & -> & E & Hid)|((ops1 & ops2 & s1 & s2 & km1 & km2 & -> & E1 & E2 & Hid & Hi & Hr) & Hi' & Hr')].
    + exists ops, [], s, s2, km1, km2. split_and!; try done; apply not_elem_of_nil.
    + exists ops1, (ops2 ++ [op]), s1, s2, km1, km2. split_and!; try done; [by rewrite <- app_assoc| |];
        (apply not_elem_of_app; split; [done|]); by intros <-%list_elem_of_singleton.
Qed.

(** The revocation case of [owned_granted]. *)
Lemma revoke_granted ops s0 s proc rid p id c :
  caps_inv s0 -> (snd <$> capability_revoke s0 proc rid) = Some s ->
  (owned s0 p !! id = Some c <-> cap_id c = id /\ granted ops p id c) ->
  owned s p !! id = Some c <-> cap_id c = id /\
    ((exists km1 km2 s2, OpRevoke proc rid = OpCreate (Some p) km1 km2 (cap_type c) (resource_id c) (rights c) /\
       capability_create s0 (Some p) km1 km2 (cap_type c) (resource_id c) (rights c) = Some (id, s2) /\ id <> 0) \/
     granted ops p id c /\ OpRevoke proc rid <> OpInit /\ OpRevoke proc rid <> OpRevoke (Some p) id).
Proof.
  intros Hs0 Hrun IH. destruct (revoke_spec s0 proc rid Hs0) as (r & s' & E & Hs' & _ & Ho). rewrite E in Hrun. injection Hrun as <-.
  assert (Hkeep : ~ (proc = Some p /\ rid = id) -> (owned s0 p !! id = Some c <-> cap_id c = id /\
    ((exists km1 km2 s2, OpRevoke proc rid = OpCreate (Some p) km1 km2 (cap_type c) (resource_id c) (rights c) /\
       capability_create s0 (Some p) km1 km2 (cap_type c) (resource_id c) (rights c) = Some (id, s2) /\ id <> 0) \/
     granted ops p id c /\ OpRevoke proc rid <> OpInit /\ OpRevoke proc rid <> OpRevoke (Some p) id))).
  { intros Hne. rewrite IH. split; [intros [? ?]; split; [done|]; right; split_and!; [done|done|intros [= -> ->]; by apply Hne]|].
    by intros [Hc [(? & ? & ? & ? & _)|(Hg & _)]]. }
  destruct (owned_by s0 proc !! rid) as [d|] eqn:Ed.
  * destruct Ho as (_ & q & -> & Ho). rewrite Ho. destruct (Z.eqb_spec p q) as [->|Hne]; [|apply Hkeep; intros [[= ->] _]; done].
    rewrite lookup_delete_Some. destruct (decide (rid = id)) as [->|Hne]; [|rewrite Hkeep by (by intros [_ ?]); tauto].
    split; [by intros [? _]|]. by intros [_ [(? & ? & ? & ? & _)|(_ & _ & Hx)]].
  * destruct Ho as [_ ->]. destruct (decide (proc = Some p /\ rid = id)) as [[-> ->]|Hne]; [|by apply Hkeep].
    split; [|by intros [_ [(? & ? & ? & ? & _)|(_ & _ & Hx)]]]. intros Hl. unfold owned_by in Ed.
    destruct ((p <? 0) || (MAX_PROCESSES <=? p)) eqn:Hp; [|congruence]. exfalso.
    unfold owned in Hl. rewrite (ci_range s0 Hs0 p) in Hl by (bprop; lia). done.
Qed.

(** What a process holds is what it was granted. *)
Lemma owned_granted ops : forall s p id c,
  1 + Z.of_nat (length ops) < 2 ^ 64 -> cap_run ops caps_boot = Some s ->
  owned s p !! id = Some c <-> cap_id c = id /\ granted ops p id c.
Proof.
  induction ops as [|op ops IH] using rev_ind; intros s p id c Hn Hrun.
  - injection Hrun as <-. change (owned caps_boot p) with (∅ : gmap Z capability_t). rewrite lookup_empty. split; [done|].
    intros (_ & ops1 & ops2 & s1 & s2 & km1 & km2 & E & _). by destruct ops1.
  - rewrite length_app in Hn. simpl in Hn. rewrite cap_run_app in Hrun. destruct (cap_run ops caps_boot) as [s0|] eqn:E0; [|done].
    simpl in Hrun. rewrite (granted_snoc ops op s0) by done. specialize (IH s0 p id c ltac:(lia) eq_refl).
    destruct (cap_run_next ops caps_boot s0 caps_boot_inv) as [Hs0 Hn0]; [simpl; lia|done|]. simpl in Hn0.
    destruct op as [|proc km1 km2 ty res rts|proc rid]; simpl in Hrun.
    + injection Hrun as <-. destruct (init_spec s0 Hs0) as [_ ->]. rewrite lookup_empty. split; [done|].
      by intros (_ & [(? & ? & ? & ? & _)|(_ & ? & _)]).
    + destruct (create_spec s0 proc km1 km2 ty res rts Hs0 ltac:(lia)) as (i & s' & E & Hs' & _ & Ho & _). rewrite E in Hrun.
      injection Hrun as <-. destruct Ho as [[-> Ho]|(-> & q & -> & Hq & Ho)].
      * rewrite Ho, IH. split; [intros [? ?]; split; [done|by right]|]. intros [Hc [(km1' & km2' & s2 & [= -> -> -> -> -> ->] & E' & Hid)|(Hg & _)]]; [|done].
        rewrite E in E'. congruence.
      * rewrite Ho. destruct (Z.eqb_spec p q) as [->|Hne].
        -- rewrite lookup_insert_Some, IH. split.
           ++ intros [[<- <-]|[Hid [Hc Hg]]]; [|split; [done|by right]]. split; [done|]. left. exists km1, km2, s'.
              split_and!; [done|done|]. pose proof (ci_next s0 Hs0). lia.
           ++ intros [Hc [(km1' & km2' & s2 & [= <- <- -> -> ->] & E' & Hid)|(Hg & _)]].
              ** left. rewrite E in E'. injection E' as <- _. split; [done|]. destruct c. simpl in *. by subst.
              ** right. split; [|done]. intros <-. assert (Hl : owned s0 q !! next_cap_id s0 = Some c) by (by apply IH).
                 apply (owned_id s0 q _ _ Hs0) in Hl. lia.
        -- rewrite IH. split; [intros [? ?]; split; [done|by right]|]. by intros [Hc [(? & ? & ? & [= ->] & _)|(Hg & _)]].
    + apply (revoke_granted ops s0 s); [done| |done]. by destruct (capability_revoke s0 proc rid).
Qed.

(** ** The transfer descriptor *)

Definition put_descriptor (d : arr Z) (o : Z) (c : capability_t) : arr Z :=
  put64 (put64 (put64 (put64 d (o + 0) MAGIC) (o + 8) (cap_type c)) (o + 16) (resource_id c)) (o + 24) (rights c).

Lemma put64_other d o v o' : o' + 8 <= o \/ o + 8 <= o' -> get64 (put64 d o v) o' = get64 d o'.
Proof. intros H. apply get_le_ext. intros j Hj. rewrite put_le_get. by if_lia. Qed.

Lemma put64_same d o v : get64 (put64 d o v) o = u64 v.
Proof. apply (get_put_le 8). Qed.

Lemma descriptor_fields d o c :
  get64 (put_descriptor d o c) o = MAGIC /\
  get64 (put_descriptor d o c) (o + 8) = u64 (cap_type c) /\
  get64 (put_descriptor d o c) (o + 16) = u64 (resource_id c) /\
  get64 (put_descriptor d o c) (o + 24) = u64 (rights c) /\
  forall j, ~ o <= j < o + 32 -> put_descriptor d o c j = d j.
Proof.
  unfold put_descriptor. replace (o + 0) with o by lia. split_and!.
  - rewrite !put64_other by lia. by rewrite put64_same.
  - rewrite !put64_other by lia. apply put64_same.
  - rewrite put64_other by lia. apply put64_same.
  - apply put64_same.
  - intros j Hj. rewrite !put_le_get. do 4 if_lia. done.
Qed.

Lemma transfer_spec s proc m id :
  caps_inv s ->
  exists r m', capability_transfer s proc (Some m) id = Some (r, Some m') /\
    match owned_by s proc !! id with
    | Some c =>
        if has_all (rights c) CAP_RIGHT_TRANSFER && (u32 (inline_size m + 32) <=? IPC_INLINE_SIZE) then
          r = 0 /\ inline_size m' = u32 (inline_size m + 32) /\
          inline_data m' = put_descriptor (inline_data m) (inline_size m) c
        else r = -1 /\ m' = m
    | None => r = -1 /\ m' = m
    end.
Proof.
  intros Hs. unfold capability_transfer. pose proof (owned_by_current s proc Hs) as H.
  destruct (current_table s proc) as [[p t]|].
  2:{ rewrite H, lookup_empty. by eexists _, _. }
  destruct H as [-> Ht]. destruct (table_find_id _ t id Ht) as (r & -> & Hr). destruct r as [[i c]|].
  2:{ rewrite Hr. by eexists _, _. }
  destruct Hr as [-> _]. destruct (has_all (rights c) CAP_RIGHT_TRANSFER); simpl; [|by eexists _, _].
  destruct (u32 (inline_size m + 32) <=? IPC_INLINE_SIZE); by eexists _, _.
Qed.

(** * Interface

    What the message-passing code relies on: the two queries never fault, an
    answer of 0 means that the caller holds no capability for the port, and a
    granted right is a right of a capability the caller holds. *)

Class CapSystem (C : Type) := {
  cs_ok : C -> Prop;
  cs_held : C -> option Z -> gmap Z capability_t;
  cs_find : C -> option Z -> Z -> option Z;
  cs_check : C -> option Z -> Z -> Z -> option bool;
  cs_find_law : forall c proc port, cs_ok c ->
    exists id, cs_find c proc port = Some id /\
      match decide (id = 0) with
      | left _ => forall i x, cs_held c proc !! i = Some x -> is_port_cap port x = false
      | right _ => exists x, cs_held c proc !! id = Some x /\ is_port_cap port x = true
      end;
  cs_check_law : forall c proc id right, cs_ok c ->
    exists b, cs_check c proc id right = Some b /\
      (b = true <-> exists x, cs_held c proc !! id = Some x /\ has_all (rights x) right = true)
}.

#[export] Instance kernel_caps : CapSystem caps := {|
  cs_ok := caps_inv;
  cs_held := owned_by;
  cs_find := capability_find_for_port;
  cs_check := capability_check;
  cs_find_law := find_for_port_spec;
  cs_check_law := check_spec
|}.

(** * Properties *)

(** C3. From boot, any sequence of fewer than 2^64 - 1 calls runs without a
    null dereference and keeps the invariant: table counts within capacity, at
    most 256 entries, unique non-zero ids below the id counter, and no id held by
    two processes. *)
Theorem capability_reachable_inv (ops : list cap_op) (Hn : 1 + Z.of_nat (length ops) < 2 ^ 64) :
  exists s, cap_run ops caps_boot = Some s /\ caps_inv s.
Proof. destruct (cap_run_spec ops caps_boot caps_boot_inv Hn) as (s & ? & ? & _). by exists s. Qed.

(** [capability_create] gives the calling process, and no other, one new
    capability under the next id, or returns 0 and changes nothing; it succeeds
    whenever the allocations do, the pid is in range and the process holds fewer
    than 256; [capability_revoke] removes exactly the named capability of the
    calling process, failing with -1 and no change when it holds none. *)
Theorem capability_create_revoke_correct (s : caps) (proc : option Z) (km1 km2 : kmem) (ty res rts rid : Z)
  (Hs : caps_inv s) (Hn : next_cap_id s + 1 < 2 ^ 64) :
  (exists id s', capability_create s proc km1 km2 ty res rts = Some (id, s') /\ caps_inv s' /\
    next_cap_id s' <= next_cap_id s + 1 /\
    (id = 0 /\ (forall q, owned s' q = owned s q) \/
     id = next_cap_id s /\ exists p, proc = Some p /\ 0 <= p < MAX_PROCESSES /\
       forall q, owned s' q =
         if q =? p then <[id := {| cap_id := id; cap_type := ty; resource_id := res; rights := rts |}]> (owned s p)
         else owned s q) /\
    (forall p, proc = Some p -> 0 <= p < MAX_PROCESSES -> is_Some km1 -> is_Some km2 ->
       Z.of_nat (size (owned s p)) < MAX_CAPABILITIES_PER_PROCESS -> id <> 0)) /\
  (exists r s', capability_revoke s proc rid = Some (r, s') /\ caps_inv s' /\ next_cap_id s' = next_cap_id s /\
    match owned_by s proc !! rid with
    | None => r = -1 /\ s' = s
    | Some _ => r = 0 /\ exists p, proc = Some p /\
        forall q, owned s' q = if q =? p then delete rid (owned s p) else owned s q
    end).
Proof. split; [by apply create_spec|by apply revoke_spec]. Qed.

(** C27. Revocation is permanent: after a successful [capability_revoke], no
    process passes a check of that id, whatever calls follow (until the system is
    re-initialised, which restarts the ids). *)
Theorem capability_revoke_permanent (s s' : caps) (proc : option Z) (id : Z) (ops : list cap_op)
  (Hs : caps_inv s) (Hrev : capability_revoke s proc id = Some (0, s'))
  (Hn : next_cap_id s + Z.of_nat (length ops) < 2 ^ 64) (Hni : OpInit ∉ ops) :
  exists s'', cap_run ops s' = Some s'' /\ forall proc' right, capability_check s'' proc' id right = Some false.
Proof.
  destruct (revoke_spec s proc id Hs) as (r & s1 & E & Hs1 & Hn1 & Ho). rewrite Hrev in E. injection E as <- <-.
  destruct (owned_by s proc !! id) as [c|] eqn:Ec; [|by destruct Ho].
  destruct Ho as (_ & p & -> & Ho).
  assert (Hp : owned s p !! id = Some c) by (unfold owned_by in Ec; by destruct (_ || _)).
  pose proof (owned_id s p id c Hs Hp) as [Hid _].
  destruct (cap_run_dead ops s' id Hs1) as (s'' & E2 & Hs2 & Hdead); [lia|done|lia| |].
  { intros q. rewrite Ho. destruct (Z.eqb_spec q p) as [->|Hne]; [by rewrite lookup_delete_eq|].
    destruct (owned s q !! id) as [d|] eqn:Ed; [|done]. by pose proof (ci_disjoint s Hs _ _ _ _ _ Ed Hp). }
  exists s''. split; [done|]. intros proc' right.
  destruct (check_spec s'' proc' id right Hs2) as ([] & -> & Hb); [|done].
  destruct (proj1 Hb eq_refl) as (d & Hd & _). unfold owned_by in Hd. destruct proc' as [q|]; [|done].
  destruct (_ || _); [done|]. by rewrite Hdead in Hd.
Qed.

(** C17. Confinement, exactly.  After any sequence of fewer than 2^64 - 1 calls from boot,
    a check of an id for a process (a process number: tables belong to numbers and are
    not cleared when a number is given to another process) passes if and only if a
    [capability_create] call of that same process number returned that id, with rights that
    cover the checked right, and no [capability_revoke] of the id by that process number and
    no [capability_init] came after it.  No other call, of this or another process, gives
    a process a capability or more rights. *)
Theorem capability_confined (ops : list cap_op) (s : caps) (p id right : Z)
  (Hn : 1 + Z.of_nat (length ops) < 2 ^ 64) (Hrun : cap_run ops caps_boot = Some s) :
  capability_check s (Some p) id right = Some true <->
  exists ops1 ops2 s1 s2 km1 km2 ty res rts,
    ops = ops1 ++ OpCreate (Some p) km1 km2 ty res rts :: ops2 /\
    cap_run ops1 caps_boot = Some s1 /\ capability_create s1 (Some p) km1 km2 ty res rts = Some (id, s2) /\ id <> 0 /\
    (OpInit ∉ ops2) /\ (OpRevoke (Some p) id ∉ ops2) /\ has_all rts right = true.
Proof.
  destruct (cap_run_next ops caps_boot s caps_boot_inv Hn Hrun) as [Hs _].
  destruct (check_spec s (Some p) id right Hs) as (b & E1 & Hb). rewrite E1. split.
  - intros [= ->]. destruct (proj1 Hb eq_refl) as (c & Hc & Hr). simpl in Hc. destruct (_ || _); [done|].
    apply (owned_granted ops s p id c Hn Hrun) in Hc as (_ & ops1 & ops2 & s1 & s2 & km1 & km2 & H).
    exists ops1, ops2, s1, s2, km1, km2, (cap_type c), (resource_id c), (rights c). tauto.
  - intros (ops1 & ops2 & s1 & s2 & km1 & km2 & ty & res & rts & E & R1 & C1 & Hid & Hi & Hv & Hr). f_equal.
    set (c := {| cap_id := id; cap_type := ty; resource_id := res; rights := rts |}).
    assert (Hc : owned s p !! id = Some c).
    { apply (owned_granted ops s p id c Hn Hrun). split; [done|]. by exists ops1, ops2, s1, s2, km1, km2. }
    apply Hb. exists c. split; [|done]. simpl. destruct ((p <? 0) || (MAX_PROCESSES <=? p)) eqn:Hp; [|done].
    unfold owned in Hc. rewrite (ci_range s Hs p) in Hc by (bprop; lia). done.
Qed.

(** [capability_transfer] on a message whose inline part is within its 64
    bytes succeeds exactly for a held capability with the transfer right when 32
    bytes are free; it then appends the tag, type, resource and rights as
    little-endian words inside the buffer and touches no other byte, and
    otherwise returns -1 and leaves the message alone. *)
Theorem capability_transfer_correct (s : caps) (proc : option Z) (m : ipc_message_t) (id : Z)
  (Hs : caps_inv s) (Hm : 0 <= inline_size m <= IPC_INLINE_SIZE) :
  exists r m', capability_transfer s proc (Some m) id = Some (r, Some m') /\
    (r = 0 \/ r = -1 /\ m' = m) /\
    (r = 0 <-> inline_size m <= 32 /\
       exists c, owned_by s proc !! id = Some c /\ has_all (rights c) CAP_RIGHT_TRANSFER = true) /\
    (r = 0 -> exists c, owned_by s proc !! id = Some c /\
       let o := inline_size m in
       inline_size m' = o + 32 /\ inline_size m' <= IPC_INLINE_SIZE /\
       get64 (inline_data m') o = MAGIC /\ get64 (inline_data m') (o + 8) = u64 (cap_type c) /\
       get64 (inline_data m') (o + 16) = u64 (resource_id c) /\ get64 (inline_data m') (o + 24) = u64 (rights c) /\
       forall j, ~ o <= j < o + 32 -> inline_data m' j = inline_data m j).
Proof.
  destruct (transfer_spec s proc m id Hs) as (r & m' & -> & H). exists r, m'. split; [done|].
  unfold IPC_INLINE_SIZE in *. rewrite wrap_small in H by fits_lia.
  destruct (owned_by s proc !! id) as [c|].
  2:{ destruct H as [-> ->]. split_and!; [by right|split; [done|by intros (_ & ? & ? & _)]|done]. }
  destruct (has_all (rights c) CAP_RIGHT_TRANSFER) eqn:Hr; simpl in H.
  2:{ destruct H as [-> ->]. split_and!; [by right|split; [done|by intros (_ & ? & [= <-] & ?); congruence]|done]. }
  destruct (Z.leb_spec (inline_size m + 32) 64).
  - destruct H as (-> & Hi & Hd). split_and!; [by left|split; [|done]|].
    + intros _. split; [lia|]. by exists c.
    + intros _. exists c. split; [done|]. simpl. rewrite Hd. destruct (descriptor_fields (inline_data m) (inline_size m) c)
        as (? & ? & ? & ? & ?). split_and!; done || lia.
  - destruct H as [-> ->]. split_and!; [by right|split; [done|]|done]. intros [? _]. lia.
Qed.

(** The space test of [capability_transfer] wraps: with an inline size in the
    last 32 values of its type the call succeeds and stores the descriptor far
    outside the 64-byte buffer. *)
Theorem capability_transfer_wraps (s : caps) (proc : option Z) (m : ipc_message_t) (id : Z) (c : capability_t)
  (Hs : caps_inv s) (Hc : owned_by s proc !! id = Some c) (Hr : has_all (rights c) CAP_RIGHT_TRANSFER = true)
  (Hm : 2 ^ 32 - 32 <= inline_size m < 2 ^ 32) :
  exists m', capability_transfer s proc (Some m) id = Some (0, Some m') /\
    IPC_INLINE_SIZE <= inline_size m /\ get64 (inline_data m') (inline_size m) = MAGIC.
Proof.
  destruct (transfer_spec s proc m id Hs) as (r & m' & -> & H). rewrite Hc, Hr in H. simpl in H.
  assert (Hw : u32 (inline_size m + 32) = inline_size m + 32 - 2 ^ 32).
  { unfold wrap. rewrite <- (Z.mod_small (inline_size m + 32 - 2 ^ 32) (2 ^ 32)) by lia.
    replace (inline_size m + 32) with ((inline_size m + 32 - 2 ^ 32) + 1 * 2 ^ 32) at 1 by lia.
    by rewrite Z.mod_add. }
  unfold IPC_INLINE_SIZE in *. rewrite Hw in H. destruct (Z.leb_spec (inline_size m + 32 - 2 ^ 32) 64); [|lia].
  destruct H as (-> & _ & Hd). exists m'. split_and!; [done|lia|]. rewrite Hd. apply descriptor_fields.
Qed.

(** ** Witnesses: process 5 creates two capabilities and gives one back *)

Definition demo_mem : kmem := Some (fun _ => {| cap_id := 0; cap_type := 0; resource_id := 0; rights := 0 |}).
Definition demo_ops : list cap_op :=
  [OpCreate (Some 5) demo_mem demo_mem 1 3 19; OpCreate (Some 5) demo_mem demo_mem 2 8 1;
   OpCreate (Some 6) demo_mem demo_mem 1 3 2].
Definition demo_caps : caps := default caps_boot (cap_run demo_ops caps_boot).
Definition demo_msg (n : Z) : ipc_message_t :=
  {| sender_tid := 1; msg_id := 0; msg_type := 0; inline_size := n; inline_data := fun _ => 0; buffer := 0;
     buffer_size := 0 |}.

Lemma demo_caps_inv : caps_inv demo_caps.
Proof.
  destruct (cap_run_spec demo_ops caps_boot caps_boot_inv) as (s & E & Hs & _); [simpl; lia|].
  unfold demo_caps. by rewrite E.
Qed.

Lemma capability_reachable_inv_witness : exists s, cap_run demo_ops caps_boot = Some s /\ caps_inv s.
Proof. apply (capability_reachable_inv demo_ops). simpl; lia. Defined.

Lemma capability_create_revoke_witness :
  exists r s', capability_revoke demo_caps (Some 5) 1 = Some (r, s') /\ caps_inv s' /\
    next_cap_id s' = 4 /\ r = 0 /\ exists p, Some 5 = Some p /\
      forall q, owned s' q = if q =? p then delete 1 (owned demo_caps p) else owned demo_caps q.
Proof.
  exact (proj2 (capability_create_revoke_correct demo_caps (Some 5) demo_mem demo_mem 0 0 0 1 demo_caps_inv
                  ltac:(vm_compute; reflexivity))).
Defined.

Lemma capability_revoke_permanent_witness :
  exists s', capability_revoke demo_caps (Some 5) 1 = Some (0, s') /\
  exists s'', cap_run [OpCreate (Some 5) demo_mem demo_mem 1 3 19] s' = Some s'' /\
    forall proc right, capability_check s'' proc 1 right = Some false.
Proof.
  eexists. split; [vm_compute; reflexivity|].
  eapply (capability_revoke_permanent demo_caps _ (Some 5) 1); [exact demo_caps_inv|vm_compute; reflexivity| |].
  - vm_compute. reflexivity.
  - intros [H|H]%elem_of_cons; [discriminate|]. by apply not_elem_of_nil in H.
Defined.

Lemma capability_confined_witness :
  capability_check demo_caps (Some 5) 1 16 = Some true /\
  exists ops1 ops2 s1 s2 km1 km2 ty res rts,
    demo_ops = ops1 ++ OpCreate (Some 5) km1 km2 ty res rts :: ops2 /\
    cap_run ops1 caps_boot = Some s1 /\ capability_create s1 (Some 5) km1 km2 ty res rts = Some (1, s2) /\ 1 <> 0 /\
    (OpInit ∉ ops2) /\ (OpRevoke (Some 5) 1 ∉ ops2) /\ has_all rts 16 = true.
Proof.
  split; [vm_compute; reflexivity|].
  apply (capability_confined demo_ops demo_caps 5 1 16); [simpl; lia|vm_compute; reflexivity|vm_compute; reflexivity].
Defined.

Lemma capability_transfer_correct_witness :
  exists r m', capability_transfer demo_caps (Some 5) (Some (demo_msg 8)) 1 = Some (r, Some m') /\
    (r = 0 \/ r = -1 /\ m' = demo_msg 8).
Proof.
  destruct (capability_transfer_correct demo_caps (Some 5) (demo_msg 8) 1 demo_caps_inv) as (r & m' & H & H' & _).
  - unfold IPC_INLINE_SIZE. simpl. lia.
  - exists r, m'. split; [exact H|exact H'].
Defined.

Lemma capability_transfer_wraps_witness :
  exists m', capability_transfer demo_caps (Some 5) (Some (demo_msg (2 ^ 32 - 16))) 1 = Some (0, Some m') /\
    64 <= 2 ^ 32 - 16 /\ get64 (inline_data m') (2 ^ 32 - 16) = MAGIC.
Proof.
  apply (capability_transfer_wraps demo_caps (Some 5) (demo_msg (2 ^ 32 - 16)) 1
           {| cap_id := 1; cap_type := 1; resource_id := 3; rights := 19 |} demo_caps_inv);
    [vm_compute; reflexivity|vm_compute; reflexivity|simpl; lia].
Defined.
