(* ===== verification/Ipc.v ===== *)
(** * Message passing (kernel/ipc/ipc.c)

    Ports live in a store of heap objects and message nodes in another, so that
    the singly linked queue with its tail pointer, and a port pointer that
    outlives its port, are modelled as the code has them.  A heap answer is
    [None] for failure or the address of the new block.

    The calls are cut where the code gives up a lock.  A call looks its port up
    under the table lock ([find_port]), drops that lock, asks for the caller's
    rights ([authorised]), takes the port lock ([send_locked], [receive_round],
    [try_locked]) and runs to its end or parks; [thread_block] and
    [thread_unblock] are steps of the scheduler's state word.  [ipc_send],
    [ipc_receive] and [ipc_try_receive] compose the stages; in the system
    ([sys_do]) each stage is a step of its own, so that any other thread can act
    between the lookup and the use of the port pointer.  A null or dangling
    dereference is [Fault].

    The capability system is used through the class [CapSystem]. *)

From stdpp Require Import base tactics list numbers option gmap fin_maps relations.
From Stdlib Require Import Lia.
From S2P Require Import Prelude Table Capability.

Definition MAX_PORTS : Z := 256.
Definition MAX_QUEUE_SIZE : Z := 32.

Record message_node_t := { message : ipc_message_t; node_next : Z }.

Record ipc_port_internal_t := {
  port_id : Z; owner_tid : Z;
  queue_head : Z; queue_tail : Z; queue_size : Z; queue_max : Z;
  waiting_receivers : list Z; waiting_senders : list Z
}.

(** [port_table] holds addresses, 0 for null. *)
Record ipc := {
  port_table : arr Z;
  ports : gmap Z ipc_port_internal_t;
  nodes : gmap Z message_node_t;
  next_port_id : Z
}.

Definition ipc_init (s : ipc) : ipc :=
  {| port_table := for_loop (Z.to_nat MAX_PORTS) 0 (fun i t => t.[i <- 0]) (port_table s);
     ports := ports s; nodes := nodes s; next_port_id := next_port_id s |}.

Definition set_port (s : ipc) (ptr : Z) (p : ipc_port_internal_t) (n : gmap Z message_node_t) : ipc :=
  {| port_table := port_table s; ports := <[ptr := p]> (ports s); nodes := n; next_port_id := next_port_id s |}.

Definition set_queue (p : ipc_port_internal_t) (h t n : Z) (rs ss : list Z) : ipc_port_internal_t :=
  {| port_id := port_id p; owner_tid := owner_tid p; queue_head := h; queue_tail := t; queue_size := n;
     queue_max := queue_max p; waiting_receivers := rs; waiting_senders := ss |}.

Definition ipc_create_port (s : ipc) (tid : Z) (km : option Z) : Z * ipc :=
  if MAX_PORTS <=? next_port_id s then (0, s)
  else match km with
       | None => (0, s)
       | Some ptr =>
           let id := next_port_id s in
           let port := {| port_id := id; owner_tid := tid; queue_head := 0; queue_tail := 0; queue_size := 0;
                          queue_max := MAX_QUEUE_SIZE; waiting_receivers := []; waiting_senders := [] |} in
           (id, {| port_table := (port_table s).[id <- ptr]; ports := <[ptr := port]> (ports s);
                   nodes := nodes s; next_port_id := u64 (id + 1) |})
       end.

(** The result of a call: a return code with the threads unblocked, in order,
    and the message stored to the caller; or the caller parks on a port. *)
Inductive outcome :=
  | Fault
  | Done (rc : Z) (woken : list Z) (out : option ipc_message_t) (s : ipc)
  | Park (ptr : Z) (s : ipc).

(** [while (msg_node) { next = msg_node->next; kfree(msg_node); msg_node = next; }] *)
Fixpoint free_chain (fuel : nat) (n : gmap Z message_node_t) (p : Z) : option (gmap Z message_node_t) :=
  if p =? 0 then Some n
  else match fuel with
       | O => None
       | Datatypes.S fuel =>
           match n !! p with
           | None => None
           | Some nd => free_chain fuel (delete p n) (node_next nd)
           end
       end.

Definition ipc_destroy_port (s : ipc) (pid : Z) : outcome :=
  if MAX_PORTS <=? pid then Done (-1) [] None s
  else
    let ptr := port_table s pid in
    if ptr =? 0 then Done (-1) [] None s
    else match ports s !! ptr with
         | None => Fault
         | Some port =>
             match free_chain (size (nodes s)) (nodes s) (queue_head port) with
             | None => Fault
             | Some n =>
                 Done 0 (waiting_receivers port ++ waiting_senders port) None
                   {| port_table := (port_table s).[pid <- 0]; ports := delete ptr (ports s); nodes := n;
                      next_port_id := next_port_id s |}
             end
         end.

(** [node->message = *msg; node->message.sender_tid = tid]. *)
Definition stamp (tid : Z) (m : ipc_message_t) : ipc_message_t :=
  {| sender_tid := tid; msg_id := msg_id m; msg_type := msg_type m; inline_size := inline_size m;
     inline_data := inline_data m; buffer := buffer m; buffer_size := buffer_size m |}.

(** From the allocation of the message node to the end of [ipc_send]. *)
Definition send_enqueue (s : ipc) (tid ptr : Z) (m : ipc_message_t) (km : option Z) : outcome :=
  match ports s !! ptr with
  | None => Fault
  | Some port =>
      match km with
      | None => Done (-1) [] None s
      | Some a =>
          let n := <[a := {| message := stamp tid m; node_next := 0 |}]> (nodes s) in
          let linked :=
            if negb (queue_tail port =? 0) then
              match n !! queue_tail port with
              | None => None
              | Some t => Some (queue_head port, <[queue_tail port := {| message := message t; node_next := a |}]> n)
              end
            else Some (a, n) in
          match linked with
          | None => Fault
          | Some (h, n) =>
              let woken := match waiting_receivers port with w :: _ => [w] | [] => [] end in
              let rs := match waiting_receivers port with _ :: ws => ws | [] => [] end in
              Done 0 woken None
                (set_port s ptr (set_queue port h a (u64 (queue_size port + 1)) rs (waiting_senders port)) n)
          end
      end
  end.

(** Unlinking the head of a queue and waking a sender: the tail of the two
    receive functions. *)
Definition take_head (s : ipc) (ptr : Z) (port : ipc_port_internal_t) (nd : message_node_t) : outcome :=
  let h := node_next nd in
  let t := if h =? 0 then 0 else queue_tail port in
  let woken := match waiting_senders port with w :: _ => [w] | [] => [] end in
  let ss := match waiting_senders port with _ :: ws => ws | [] => [] end in
  Done 0 woken (Some (message nd))
    (set_port s ptr (set_queue port h t (u64 (queue_size port - 1)) (waiting_receivers port) ss)
       (delete (queue_head port) (nodes s))).

(** One round of the receive loop: park on an empty queue, else dequeue. *)
Definition receive_round (s : ipc) (tid ptr : Z) (km : option Z) : outcome :=
  match ports s !! ptr with
  | None => Fault
  | Some port =>
      if queue_size port =? 0 then
        match km with
        | None => Done (-1) [] None s
        | Some _ =>
            Park ptr (set_port s ptr
              (set_queue port (queue_head port) (queue_tail port) (queue_size port)
                 (tid :: waiting_receivers port) (waiting_senders port)) (nodes s))
        end
      else if queue_head port =? 0 then Done (-1) [] None s
      else match nodes s !! queue_head port with
           | None => Fault
           | Some nd => take_head s ptr port nd
           end
  end.

(** The first part of every call, under the table lock: the argument test and
    the port's address, 0 where the call returns -1. *)
Definition find_port (s : ipc) (pid : Z) (msg_null : bool) : Z :=
  if (MAX_PORTS <=? pid) || msg_null then 0 else port_table s pid.

(** [ipc_try_receive] from the port lock on. *)
Definition try_locked (s : ipc) (ptr : Z) : outcome :=
  match ports s !! ptr with
  | None => Fault
  | Some port =>
      if queue_size port =? 0 then Done (-1) [] None s
      else match nodes s !! queue_head port with
           | None => Fault
           | Some nd => take_head s ptr port nd
           end
  end.

Definition ipc_try_receive (s : ipc) (pid : Z) (msg_null : bool) : outcome :=
  let ptr := find_port s pid msg_null in
  if ptr =? 0 then Done (-1) [] None s else try_locked s ptr.

(** [ipc_send] from the port lock on: [km1] and [km2] are the heap answers for
    the waiting entry and the message node. *)
Definition send_locked (s : ipc) (tid ptr : Z) (m : ipc_message_t) (km1 km2 : option Z) : outcome :=
  match ports s !! ptr with
  | None => Fault
  | Some port =>
      if queue_max port <=? queue_size port then
        match km1 with
        | None => Done (-1) [] None s
        | Some _ =>
            Park ptr (set_port s ptr
              (set_queue port (queue_head port) (queue_tail port) (queue_size port)
                 (waiting_receivers port) (tid :: waiting_senders port)) (nodes s))
        end
      else send_enqueue s tid ptr m km2
  end.

Section Authorised.
Context {C : Type} `{CapSystem C}.

(** The capability test of [ipc_send] and [ipc_receive], made with no lock held:
    only a caller with no capability for the port makes it read the port. *)
Definition authorised (s : ipc) (c : C) (tid : Z) (proc : option Z) (pid right ptr : Z) : option bool :=
  match cs_find c proc pid with
  | None => None
  | Some id =>
      if id =? 0 then (fun port => owner_tid port =? tid) <$> ports s !! ptr
      else cs_check c proc id right
  end.

(** [tid] and [proc] are the current thread and process. *)
Definition ipc_send (s : ipc) (c : C) (tid : Z) (proc : option Z) (pid : Z) (msg : option ipc_message_t)
  (km1 km2 : option Z) : outcome :=
  match msg with
  | None => Done (-1) [] None s
  | Some m =>
      let ptr := find_port s pid false in
      if ptr =? 0 then Done (-1) [] None s
      else match authorised s c tid proc pid CAP_RIGHT_WRITE ptr with
           | None => Fault
           | Some false => Done (-1) [] None s
           | Some true => send_locked s tid ptr m km1 km2
           end
  end.

Definition ipc_receive (s : ipc) (c : C) (tid : Z) (proc : option Z) (pid : Z) (msg_null : bool) (km : option Z)
  : outcome :=
  let ptr := find_port s pid msg_null in
  if ptr =? 0 then Done (-1) [] None s
  else match authorised s c tid proc pid CAP_RIGHT_READ ptr with
       | None => Fault
       | Some false => Done (-1) [] None s
       | Some true => receive_round s tid ptr km
       end.
End Authorised.

(** * The queue as a list *)

(** [chain n p as ms]: from [p] the nodes [as] are linked in order, end in null
    and hold the messages [ms]. *)
Fixpoint chain (n : gmap Z message_node_t) (p : Z) (ads : list Z) (ms : list ipc_message_t) : Prop :=
  match ads, ms with
  | [], [] => p = 0
  | a :: ads, m :: ms =>
      p = a /\ 0 < a < 2 ^ 64 /\
      exists nx, n !! a = Some {| message := m; node_next := nx |} /\ chain n nx ads ms
  | _, _ => False
  end.

Definition queue_rep (n : gmap Z message_node_t) (p : ipc_port_internal_t) (ads : list Z) (ms : list ipc_message_t) : Prop :=
  chain n (queue_head p) ads ms /\ NoDup ads /\ queue_tail p = default 0 (last ads) /\
  queue_size p = Z.of_nat (length ads).

(** The messages of a port, by walking its queue. *)
Fixpoint walk (k : nat) (n : gmap Z message_node_t) (p : Z) : list ipc_message_t :=
  match k with
  | O => []
  | Datatypes.S k => match n !! p with Some nd => message nd :: walk k n (node_next nd) | None => [] end
  end.

Definition queue_of (s : ipc) (ptr : Z) : option (list ipc_message_t) :=
  (fun p => walk (Z.to_nat (queue_size p)) (nodes s) (queue_head p)) <$> ports s !! ptr.

(** [A] gives the node addresses of every live port. *)
Record ipc_inv_with (A : Z -> list Z) (s : ipc) : Prop := {
  ii_rep : forall ptr p, ports s !! ptr = Some p -> exists ms, queue_rep (nodes s) p (A ptr) ms;
  ii_disjoint : forall ptr ptr' p p' a, ports s !! ptr = Some p -> ports s !! ptr' = Some p' ->
    a ∈ A ptr -> a ∈ A ptr' -> ptr = ptr';
  ii_table : forall i, port_table s i <> 0 -> exists p, ports s !! port_table s i = Some p /\ port_id p = i;
  ii_live : forall ptr p, ports s !! ptr = Some p -> ptr <> 0 /\ port_table s (port_id p) = ptr;
  ii_next : 1 <= next_port_id s <= MAX_PORTS;
  ii_ids : forall i, port_table s i <> 0 -> 1 <= i < next_port_id s
}.

Definition ipc_inv (s : ipc) : Prop := exists A, ipc_inv_with A s.

(** ** Chains *)

Lemma chain_length n p ads ms : chain n p ads ms -> length ads = length ms.
Proof.
  revert p ms. induction ads as [|a ads IH]; intros p [|m ms]; simpl; try done.
  intros (_ & _ & nx & _ & H). f_equal. by eapply IH.
Qed.

Lemma chain_ext n n' p ads ms :
  (forall a, a ∈ ads -> n' !! a = n !! a) -> chain n p ads ms -> chain n' p ads ms.
Proof.
  revert p ms. induction ads as [|a ads IH]; intros p [|m ms] Hext; simpl; try done.
  intros (-> & Ha & nx & Hn & Hc). split_and!; [done|lia|lia|]. exists nx. rewrite Hext by (by left).
  split; [done|]. apply IH; [|done]. intros; apply Hext; by right.
Qed.

Lemma chain_dom n p ads ms a : chain n p ads ms -> a ∈ ads -> is_Some (n !! a) /\ 0 < a < 2 ^ 64.
Proof.
  revert p ms. induction ads as [|b ads IH]; intros p [|m ms]; simpl; try done.
  - intros _ H. by apply not_elem_of_nil in H.
  - intros (-> & Hb & nx & Hn & Hc) [->|Ha]%elem_of_cons; [by rewrite Hn|]. by eapply IH.
Qed.

Lemma chain_head n p ads ms : chain n p ads ms -> p = 0 <-> ads = [].
Proof.
  destruct ads as [|a ads], ms as [|m ms]; simpl; try done. intros (-> & Ha & _). split; [lia|done].
Qed.

Lemma chain_walk n p ads ms : chain n p ads ms -> walk (length ads) n p = ms.
Proof.
  revert p ms. induction ads as [|a ads IH]; intros p [|m ms]; simpl; try done.
  intros (-> & _ & nx & -> & Hc). simpl. f_equal. by apply IH.
Qed.

(** Linking a new node after the last one. *)
Lemma chain_snoc n p ads ms tl t a m :
  chain n p ads ms -> NoDup ads -> last ads = Some tl -> n !! tl = Some t -> a ∉ ads -> 0 < a < 2 ^ 64 ->
  chain (<[tl := {| message := message t; node_next := a |}]> (<[a := {| message := m; node_next := 0 |}]> n))
    p (ads ++ [a]) (ms ++ [m]).
Proof.
  revert p ms. induction ads as [|b ads IH]; intros p ms Hc Hd Hl Ht Ha Hr; [done|].
  destruct ms as [|x ms]; [done|]. destruct Hc as (-> & Hb & nx & Hn & Hc).
  apply NoDup_cons in Hd as [Hb' Hd]. apply not_elem_of_cons in Ha as [Hab Ha].
  cbn [app chain]. split_and!; [done|lia|lia|]. destruct ads as [|b2 ads].
  - destruct ms; [|done]. simpl in Hl. injection Hl as ->. simpl in Hc. subst nx.
    rewrite Hn in Ht. injection Ht as <-. exists a. rewrite lookup_insert_eq. split; [done|].
    simpl. split_and!; [done|lia|lia|]. exists 0. rewrite lookup_insert_ne by done.
    by rewrite lookup_insert_eq.
  - assert (Hne : tl <> b).
    { intros ->. apply Hb'. rewrite last_cons_cons in Hl. by apply last_Some_elem_of in Hl. }
    exists nx. rewrite lookup_insert_ne by done. rewrite lookup_insert_ne by done. split; [done|].
    by apply IH.
Qed.

(** Freeing a chain. *)
Lemma free_chain_ok fuel : forall n p ads ms,
  chain n p ads ms -> NoDup ads -> (length ads <= fuel)%nat ->
  exists n', free_chain fuel n p = Some n' /\ forall a, n' !! a = if decide (a ∈ ads) then None else n !! a.
Proof.
  induction fuel as [|fuel IH]; intros n p ads ms Hc Hd Hf.
  - destruct ads; [|simpl in Hf; lia]. destruct ms; [|done]. simpl in Hc. subst p. exists n. split; [done|].
    intros a. rewrite decide_False; [done|]. apply not_elem_of_nil.
  - destruct ads as [|b ads], ms as [|m ms]; try done.
    { simpl in Hc. subst p. exists n. split; [done|]. intros a. rewrite decide_False; [done|]. apply not_elem_of_nil. }
    destruct Hc as (-> & Hb & nx & Hn & Hc). apply NoDup_cons in Hd as [Hb' Hd]. simpl in Hf.
    cbn [free_chain]. destruct (Z.eqb_spec b 0); [lia|]. rewrite Hn. simpl.
    destruct (IH (delete b n) nx ads ms) as (n' & E & Hn'); [|done|lia|].
    { eapply chain_ext; [|exact Hc]. intros a Ha. rewrite lookup_delete_ne; [done|]. by intros ->. }
    exists n'. split; [done|]. intros a. rewrite Hn'. destruct (decide (a = b)) as [->|Hne].
    + rewrite decide_False by done. rewrite decide_True by (by left). by rewrite lookup_delete_eq.
    + rewrite lookup_delete_ne by done. destruct (decide (a ∈ ads)); destruct (decide (a ∈ b :: ads)) as [Hin|Hin];
        try done; [by destruct Hin; right|]. apply elem_of_cons in Hin as [|]; done.
Qed.

Lemma chain_size n p ads ms : chain n p ads ms -> NoDup ads -> (length ads <= size n)%nat.
Proof.
  intros Hc Hd. rewrite <- size_dom. rewrite <- (size_list_to_set (C := gset Z) ads) by done.
  apply subseteq_size. intros a Ha%elem_of_list_to_set. apply elem_of_dom. by eapply chain_dom.
Qed.

(** Distinct 64-bit addresses: the queue length stays below 2^64. *)
Lemma addresses_bound (l : list Z) N :
  0 < N -> NoDup l -> (forall a, a ∈ l -> 0 < a < N) -> Z.of_nat (length l) < N.
Proof.
  intros HN Hd Hl. assert (H : (length l <= length (seqZ 1 (N - 1)))%nat).
  { apply submseteq_length, NoDup_submseteq; [done|]. intros a Ha. apply elem_of_seqZ. specialize (Hl a Ha). lia. }
  rewrite length_seqZ in H. lia.
Qed.

(** ** Changing one port *)

Lemma queue_rep_walk n p ads ms : queue_rep n p ads ms -> walk (Z.to_nat (queue_size p)) n (queue_head p) = ms.
Proof. intros (Hc & _ & _ & ->). rewrite Nat2Z.id. by eapply chain_walk. Qed.

Lemma queue_of_rep s ptr p ads ms :
  ports s !! ptr = Some p -> queue_rep (nodes s) p ads ms -> queue_of s ptr = Some ms.
Proof. intros Hp Hr. unfold queue_of. rewrite Hp. simpl. f_equal. by eapply queue_rep_walk. Qed.

Lemma set_port_inv A s ptr p p' n' ads' ms' :
  ipc_inv_with A s -> ports s !! ptr = Some p -> port_id p' = port_id p -> queue_rep n' p' ads' ms' ->
  (forall q pq a, q <> ptr -> ports s !! q = Some pq -> a ∈ A q -> n' !! a = nodes s !! a /\ a ∉ ads') ->
  ipc_inv (set_port s ptr p' n') /\ queue_of (set_port s ptr p' n') ptr = Some ms' /\
  forall q, q <> ptr -> queue_of (set_port s ptr p' n') q = queue_of s q.
Proof.
  intros H Hp Hid Hrep Hframe. assert (Hext : forall q pq ms, q <> ptr -> ports s !! q = Some pq ->
    queue_rep (nodes s) pq (A q) ms -> queue_rep n' pq (A q) ms).
  { intros q pq ms Hq Hpq (Hc & Hr). split; [|done]. eapply chain_ext; [|exact Hc].
    intros a Ha. by eapply Hframe. }
  split_and!.
  - exists (A.[ptr <- ads']). split; simpl.
    + intros q pq. unfold aset. destruct (Z.eqb_spec q ptr) as [->|Hq].
      * rewrite lookup_insert_eq. intros [= <-]. by exists ms'.
      * rewrite lookup_insert_ne by done. intros Hpq. destruct (ii_rep _ _ H _ _ Hpq) as [ms Hm].
        exists ms. by apply Hext.
    + intros q q' pq pq' a. unfold aset.
      destruct (Z.eqb_spec q ptr) as [->|Hq], (Z.eqb_spec q' ptr) as [->|Hq']; try done.
      * rewrite (lookup_insert_ne _ ptr q') by done. intros _ Hq1 Ha Ha'. by destruct (Hframe q' pq' a Hq' Hq1 Ha').
      * rewrite (lookup_insert_ne _ ptr q) by done. intros Hq1 _ Ha Ha'. by destruct (Hframe q pq a Hq Hq1 Ha).
      * rewrite !lookup_insert_ne by done. by apply (ii_disjoint _ _ H).
    + intros i Hi. destruct (ii_table _ _ H i Hi) as (pi & Hpi & Ei).
      destruct (decide (port_table s i = ptr)) as [Heq|Hne].
      * rewrite Heq, lookup_insert_eq. exists p'. split; [done|]. rewrite Heq in Hpi. congruence.
      * rewrite lookup_insert_ne by done. eauto.
    + intros q pq. destruct (decide (q = ptr)) as [->|Hq].
      * rewrite lookup_insert_eq. intros [= <-]. rewrite Hid. by apply (ii_live _ _ H).
      * rewrite lookup_insert_ne by done. apply (ii_live _ _ H).
    + apply H.
    + apply H.
  - eapply queue_of_rep; [apply lookup_insert_eq|done].
  - intros q Hq. unfold queue_of. simpl. rewrite lookup_insert_ne by done.
    destruct (ports s !! q) as [pq|] eqn:Eq; [|done]. simpl. destruct (ii_rep _ _ H _ _ Eq) as [ms Hm].
    rewrite (queue_rep_walk _ _ _ _ Hm). f_equal. eapply queue_rep_walk. by apply (Hext q).
Qed.

(** A heap answer that is usable: a 64-bit address no live node occupies. *)
Definition fresh_node (s : ipc) (km : option Z) : Prop :=
  forall a, km = Some a -> nodes s !! a = None /\ 0 < a < 2 ^ 64.
Definition fresh_port (s : ipc) (km : option Z) : Prop :=
  forall a, km = Some a -> ports s !! a = None /\ a <> 0.

(** What a call does to the queues: [ptr]'s queue becomes [q], others stay. *)
Definition only_queue (s s' : ipc) (ptr : Z) (q : list ipc_message_t) : Prop :=
  ipc_inv s' /\ queue_of s' ptr = Some q /\ forall ptr', ptr' <> ptr -> queue_of s' ptr' = queue_of s ptr'.

Lemma rep_enqueue s p ads ms a m h n rs ss :
  queue_rep (nodes s) p ads ms -> nodes s !! a = None -> 0 < a < 2 ^ 64 ->
  (if negb (queue_tail p =? 0) then
     match <[a := {| message := m; node_next := 0 |}]> (nodes s) !! queue_tail p with
     | None => None
     | Some t => Some (queue_head p, <[queue_tail p := {| message := message t; node_next := a |}]>
                                       (<[a := {| message := m; node_next := 0 |}]> (nodes s)))
     end
   else Some (a, <[a := {| message := m; node_next := 0 |}]> (nodes s))) = Some (h, n) ->
  queue_rep n (set_queue p h a (u64 (queue_size p + 1)) rs ss) (ads ++ [a]) (ms ++ [m]) /\
  forall b, b ∉ ads -> b <> a -> n !! b = nodes s !! b.
Proof.
  intros (Hc & Hd & Htl & Hsz) Hfresh Ha E.
  assert (Hnew : a ∉ ads). { intros Hin. destruct (chain_dom _ _ _ _ _ Hc Hin) as [[? ?] _]. congruence. }
  assert (Hd' : NoDup (ads ++ [a])).
  { apply NoDup_app. split_and!; [done| |apply NoDup_singleton]. by intros x Hx ->%list_elem_of_singleton. }
  assert (Hlen : u64 (queue_size p + 1) = Z.of_nat (length (ads ++ [a]))).
  { rewrite length_app. simpl. rewrite wrap_small; [lia|]. pose proof (addresses_bound (ads ++ [a]) (2 ^ 64)) as Hb.
    rewrite length_app in Hb. simpl in Hb. unfold fits. split; [lia|]. rewrite Hsz.
    replace (Z.of_nat (length ads) + 1) with (Z.of_nat (length ads + 1)) by lia. apply Hb; [lia|done|].
    intros x [Hx| ->%list_elem_of_singleton]%elem_of_app; [by eapply chain_dom|done]. }
  assert (Hcn : chain n h (ads ++ [a]) (ms ++ [m]) /\ forall b, b ∉ ads -> b <> a -> n !! b = nodes s !! b).
  { destruct (Z.eqb_spec (queue_tail p) 0) as [E0|E0]; simpl in E.
    - assert (ads = []) as ->.
      { destruct (last ads) as [tl|] eqn:El; [|by apply last_None]. simpl in Htl.
        apply last_Some_elem_of in El. destruct (chain_dom _ _ _ _ _ Hc El). lia. }
      destruct ms; [|done]. injection E as <- <-. split.
      + simpl. split_and!; [done|lia|lia|]. exists 0. by rewrite lookup_insert_eq.
      + intros b _ Hb. by rewrite lookup_insert_ne.
    - destruct (last ads) as [tl|] eqn:El; [|done]. simpl in Htl. rewrite Htl in *.
      pose proof (last_Some_elem_of _ _ El) as Hin. destruct (chain_dom _ _ _ _ _ Hc Hin) as [[t Et] _].
      rewrite lookup_insert_ne in E by (by intros <-). rewrite Et in E. injection E as <- <-. split.
      + by apply chain_snoc.
      + intros b Hb Hba. rewrite !lookup_insert_ne; [done|done|]. by intros ->. }
  destruct Hcn as [Hcn Hfr]. split; [|done]. split_and!; try done. simpl. by rewrite last_snoc.
Qed.

Lemma first_woken (l : list Z) : match l with w :: _ => [w] | [] => [] end = take 1 l.
Proof. by destruct l as [|w [|]]. Qed.

Lemma send_enqueue_spec s tid ptr p m km q :
  ipc_inv s -> ports s !! ptr = Some p -> queue_of s ptr = Some q -> fresh_node s km ->
  match km with
  | None => send_enqueue s tid ptr m km = Done (-1) [] None s
  | Some _ =>
      exists s', send_enqueue s tid ptr m km = Done 0 (take 1 (waiting_receivers p)) None s' /\
        only_queue s s' ptr (q ++ [stamp tid m])
  end.
Proof.
  intros [A H] Hp Hq Hkm. unfold send_enqueue. rewrite Hp. destruct km as [a|]; [|done].
  destruct (Hkm a eq_refl) as [Hfresh Ha]. destruct (ii_rep _ _ H _ _ Hp) as [ms Hrep].
  pose proof (queue_of_rep _ _ _ _ _ Hp Hrep) as Hq'. assert (ms = q) as -> by congruence.
  destruct (if negb (queue_tail p =? 0) then _ else _) as [[h n]|] eqn:E.
  - destruct (rep_enqueue s p _ _ a (stamp tid m) h n
      (match waiting_receivers p with _ :: ws => ws | [] => [] end) (waiting_senders p) Hrep Hfresh Ha E) as [Hr Hfr].
    rewrite first_woken. eexists. split; [reflexivity|].
    eapply set_port_inv; [exact H|exact Hp| |exact Hr|]; [done|]. intros q' pq b Hne Hpq Hb.
    assert (b ∉ A ptr) by (intros Hb'; apply Hne; by apply (ii_disjoint _ _ H q' ptr pq p b)).
    assert (b <> a). { intros ->. destruct (ii_rep _ _ H _ _ Hpq) as [ms' [Hc _]].
      destruct (chain_dom _ _ _ _ _ Hc Hb) as [[? ?] _]. congruence. }
    split; [by apply Hfr|]. rewrite not_elem_of_app, list_elem_of_singleton. done.
  - exfalso. destruct Hrep as (Hc & _ & Htl & _). destruct (Z.eqb_spec (queue_tail p) 0) as [|E0]; [done|]. simpl in E.
    destruct (last (A ptr)) as [tl|] eqn:El; [|done]. simpl in Htl. rewrite Htl in E.
    pose proof (last_Some_elem_of _ _ El) as Hin. destruct (chain_dom _ _ _ _ _ Hc Hin) as [[t Et] _].
    destruct (decide (a = tl)) as [->|]; [congruence|]. rewrite lookup_insert_ne in E by done. by rewrite Et in E.
Qed.

Lemma take_head_spec s ptr p q :
  ipc_inv s -> ports s !! ptr = Some p -> queue_of s ptr = Some q -> queue_size p <> 0 ->
  exists nd m q' s', nodes s !! queue_head p = Some nd /\ queue_head p <> 0 /\ q = m :: q' /\
    take_head s ptr p nd = Done 0 (take 1 (waiting_senders p)) (Some m) s' /\ only_queue s s' ptr q'.
Proof.
  intros [A H] Hp Hq Hsz. destruct (ii_rep _ _ H _ _ Hp) as [ms Hrep].
  pose proof (queue_of_rep _ _ _ _ _ Hp Hrep) as Hq'. assert (ms = q) as -> by congruence.
  destruct Hrep as (Hc & Hd & Htl & Hs). destruct (A ptr) as [|a ads] eqn:EA; [simpl in Hs; lia|].
  destruct q as [|m q]; [done|]. destruct Hc as (Hh & Ha & nx & Hn & Hc).
  apply NoDup_cons in Hd as [Ha' Hd]. rewrite Hh. exists {| message := m; node_next := nx |}, m, q.
  unfold take_head. rewrite first_woken. eexists. split_and!; [done|lia|done|reflexivity|].
  eapply set_port_inv with (ads' := ads); [exact H|exact Hp|done| |].
  - split_and!; simpl; [|done| |].
    + eapply chain_ext; [|exact Hc]. intros b Hb. rewrite Hh, lookup_delete_ne; [done|]. by intros <-.
    + pose proof (chain_head _ _ _ _ Hc) as Hnil. destruct (Z.eqb_spec nx 0) as [E|E].
      * by rewrite (proj1 Hnil E).
      * rewrite Htl. destruct ads as [|b ads]; [by destruct E; apply Hnil|]. by rewrite last_cons_cons.
    + rewrite Hs. simpl. pose proof (chain_length _ _ _ _ Hc). rewrite wrap_small; [lia|].
      assert (Hb : Z.of_nat (length (a :: ads)) < 2 ^ 64).
      { apply addresses_bound; [lia|by apply NoDup_cons|]. intros x [->|Hx]%elem_of_cons; [lia|by eapply chain_dom]. }
      simpl in Hb. unfold fits. lia.
  - intros q' pq b Hne Hpq Hb. simpl. rewrite Hh.
    assert (Hb' : b ∉ A ptr) by (intros Hb'; apply Hne; by apply (ii_disjoint _ _ H q' ptr pq p b)).
    rewrite EA in Hb'. apply not_elem_of_cons in Hb' as [??]. by rewrite lookup_delete_ne.
Qed.

(** Changing only the waiting lists of a port. *)
Lemma set_waiting_spec s ptr p rs ss :
  ipc_inv s -> ports s !! ptr = Some p ->
  let s' := set_port s ptr (set_queue p (queue_head p) (queue_tail p) (queue_size p) rs ss) (nodes s) in
  ipc_inv s' /\ forall ptr', queue_of s' ptr' = queue_of s ptr'.
Proof.
  intros [A H] Hp. destruct (ii_rep _ _ H _ _ Hp) as [ms Hrep].
  destruct (set_port_inv A s ptr p (set_queue p (queue_head p) (queue_tail p) (queue_size p) rs ss) (nodes s) (A ptr) ms)
    as (Hi & Hq & Ho); [done|done|done|done| |].
  - intros q pq a Hne Hpq Ha. split; [done|]. intros Ha'. apply Hne. by apply (ii_disjoint _ _ H q ptr pq p a).
  - split; [done|]. intros ptr'. destruct (decide (ptr' = ptr)) as [->|]; [|by apply Ho].
    rewrite Hq. symmetry. by eapply queue_of_rep.
Qed.

Lemma queue_of_Some s ptr p : ports s !! ptr = Some p -> exists q, queue_of s ptr = Some q.
Proof. intros H. unfold queue_of. rewrite H. by eexists. Qed.

Lemma queue_empty s ptr p q :
  ipc_inv s -> ports s !! ptr = Some p -> queue_of s ptr = Some q -> queue_size p = Z.of_nat (length q).
Proof.
  intros [A H] Hp Hq. destruct (ii_rep _ _ H _ _ Hp) as [ms Hrep].
  pose proof (queue_of_rep _ _ _ _ _ Hp Hrep). assert (ms = q) as -> by congruence.
  destruct Hrep as (Hc & _ & _ & ->). by rewrite (chain_length _ _ _ _ Hc).
Qed.

Lemma receive_round_spec s tid ptr p km q :
  ipc_inv s -> ports s !! ptr = Some p -> queue_of s ptr = Some q ->
  match q with
  | [] =>
      (km = None /\ receive_round s tid ptr km = Done (-1) [] None s) \/
      exists s', receive_round s tid ptr km = Park ptr s' /\ ipc_inv s' /\ forall ptr', queue_of s' ptr' = queue_of s ptr'
  | m :: q' =>
      exists s', receive_round s tid ptr km = Done 0 (take 1 (waiting_senders p)) (Some m) s' /\ only_queue s s' ptr q'
  end.
Proof.
  intros H Hp Hq. pose proof (queue_empty s ptr p q H Hp Hq) as Hsz. unfold receive_round. rewrite Hp.
  destruct q as [|m q'].
  - destruct (Z.eqb_spec (queue_size p) 0) as [_|E]; [|simpl in Hsz; lia].
    destruct km as [a|]; [|by left]. right. eexists. split; [reflexivity|]. by apply set_waiting_spec.
  - destruct (Z.eqb_spec (queue_size p) 0) as [E|E]; [simpl in Hsz; lia|].
    destruct (take_head_spec s ptr p _ H Hp Hq E) as (nd & m' & q'' & s' & Hn & Hh & Eq & Ht & Ho).
    injection Eq as <- <-. destruct (Z.eqb_spec (queue_head p) 0); [done|]. rewrite Hn. eauto.
Qed.

Lemma live_port s i : ipc_inv s -> port_table s i <> 0 -> exists p, ports s !! port_table s i = Some p /\ port_id p = i.
Proof. intros [A H] Hi. by apply (ii_table _ _ H). Qed.

Lemma try_locked_spec s ptr p q :
  ipc_inv s -> ports s !! ptr = Some p -> queue_of s ptr = Some q ->
  match q with
  | [] => try_locked s ptr = Done (-1) [] None s
  | m :: q' =>
      exists s', try_locked s ptr = Done 0 (take 1 (waiting_senders p)) (Some m) s' /\ only_queue s s' ptr q'
  end.
Proof.
  intros H Hp Hq. pose proof (queue_empty s _ p q H Hp Hq) as Hsz. unfold try_locked.
  rewrite Hp. destruct q as [|m q']; [by rewrite Hsz|].
  destruct (Z.eqb_spec (queue_size p) 0) as [E|E]; [simpl in Hsz; lia|].
  destruct (take_head_spec s _ p _ H Hp Hq E) as (nd & m' & q'' & s' & Hn & Hh & Eq & Ht & Ho).
  injection Eq as <- <-. rewrite Hn. eauto.
Qed.

Lemma send_locked_spec s tid ptr p m km1 km2 q :
  ipc_inv s -> ports s !! ptr = Some p -> queue_of s ptr = Some q -> fresh_node s km2 ->
  send_locked s tid ptr m km1 km2 = Done (-1) [] None s \/
  if queue_max p <=? Z.of_nat (length q) then
    exists s', send_locked s tid ptr m km1 km2 = Park ptr s' /\ ipc_inv s' /\
      forall ptr', queue_of s' ptr' = queue_of s ptr'
  else
    exists s', send_locked s tid ptr m km1 km2 = Done 0 (take 1 (waiting_receivers p)) None s' /\
      only_queue s s' ptr (q ++ [stamp tid m]).
Proof.
  intros H Hp Hq Hkm. unfold send_locked. rewrite Hp, (queue_empty s _ p q H Hp Hq).
  destruct (queue_max p <=? Z.of_nat (length q)) eqn:Hfull.
  - destruct km1 as [w|]; [|by left]. right. eexists. split; [reflexivity|].
    rewrite <- (queue_empty s _ p q H Hp Hq). by apply set_waiting_spec.
  - pose proof (send_enqueue_spec s tid _ p m km2 q H Hp Hq Hkm) as He. destruct km2 as [a|]; [by right|by left].
Qed.

Lemma try_receive_spec s i :
  ipc_inv s -> i < MAX_PORTS -> port_table s i <> 0 ->
  exists p q, ports s !! port_table s i = Some p /\ queue_of s (port_table s i) = Some q /\
  match q with
  | [] => ipc_try_receive s i false = Done (-1) [] None s
  | m :: q' =>
      exists s', ipc_try_receive s i false = Done 0 (take 1 (waiting_senders p)) (Some m) s' /\
        only_queue s s' (port_table s i) q'
  end.
Proof.
  intros H Hi Hptr. destruct (live_port s i H Hptr) as (p & Hp & _). destruct (queue_of_Some _ _ _ Hp) as [q Hq].
  exists p, q. split_and!; [done|done|]. unfold ipc_try_receive, find_port.
  destruct (Z.leb_spec MAX_PORTS i); [lia|]. simpl. destruct (Z.eqb_spec (port_table s i) 0); [done|].
  by apply try_locked_spec.
Qed.

Lemma create_port_spec s tid km :
  ipc_inv s -> fresh_port s km ->
  let '(id, s') := ipc_create_port s tid km in
  ipc_inv s' /\
  (id = 0 /\ s' = s \/
   exists ptr, km = Some ptr /\ id = next_port_id s /\ 1 <= id < MAX_PORTS /\ port_table s id = 0 /\
     port_table s' id = ptr /\ queue_of s' ptr = Some [] /\
     (exists p, ports s' !! ptr = Some p /\ owner_tid p = tid /\ port_id p = id) /\
     forall ptr', ptr' <> ptr -> queue_of s' ptr' = queue_of s ptr').
Proof.
  intros [A H] Hkm. pose proof (ii_next _ _ H) as Hn. unfold ipc_create_port.
  destruct (Z.leb_spec MAX_PORTS (next_port_id s)); [split; [by exists A|by left]|].
  destruct km as [ptr|]; [|split; [by exists A|by left]]. destruct (Hkm ptr eq_refl) as [Hfresh Hptr].
  unfold MAX_PORTS in *. rewrite wrap_small by fits_lia. set (id := next_port_id s) in *.
  assert (Hid : port_table s id = 0).
  { destruct (decide (port_table s id = 0)); [done|]. pose proof (ii_ids _ _ H id ltac:(done)). unfold id in *. lia. }
  assert (Hne : forall q pq, ports s !! q = Some pq -> q <> ptr) by (intros q pq Hq ->; congruence).
  assert (Hni : forall q pq, ports s !! q = Some pq -> port_id pq <> id).
  { intros q pq Hq E. destruct (ii_live _ _ H _ _ Hq) as [Hq0 Hqt]. rewrite E in Hqt. congruence. }
  split.
  - exists (A.[ptr <- []]). split; simpl.
    + intros q pq. unfold aset. destruct (Z.eqb_spec q ptr) as [->|Hq].
      * rewrite lookup_insert_eq. intros [= <-]. exists []. by split_and!; [|apply NoDup_nil_2| |].
      * rewrite lookup_insert_ne by done. apply (ii_rep _ _ H).
    + intros q q' pq pq' a. unfold aset. destruct (Z.eqb_spec q ptr), (Z.eqb_spec q' ptr); subst; try done;
        try (intros _ _ Hx Hy; by apply not_elem_of_nil in Hx || by apply not_elem_of_nil in Hy).
      rewrite !lookup_insert_ne by done. by apply (ii_disjoint _ _ H).
    + intros i. unfold aset. destruct (Z.eqb_spec i id) as [->|]; [rewrite lookup_insert_eq; by eexists|].
      intros Hi. destruct (ii_table _ _ H i Hi) as (p & Hp & Ep). rewrite lookup_insert_ne; [eauto|].
      intros E. by apply (Hne _ _ Hp).
    + intros q pq. destruct (decide (q = ptr)) as [->|]; [rewrite lookup_insert_eq; intros [= <-]; simpl; by rewrite aset_eq|].
      rewrite lookup_insert_ne by done. intros Hq. rewrite aset_ne by (by eapply Hni). by apply (ii_live _ _ H).
    + unfold MAX_PORTS. lia.
    + intros i. unfold aset. destruct (Z.eqb_spec i id) as [->|]; [lia|]. intros Hi. pose proof (ii_ids _ _ H i Hi). unfold id. lia.
  - right. exists ptr. simpl. split_and!; try done; try lia.
    + by rewrite aset_eq.
    + unfold queue_of. simpl. by rewrite lookup_insert_eq.
    + eexists. rewrite lookup_insert_eq. done.
    + intros q Hq. unfold queue_of. simpl. by rewrite lookup_insert_ne.
Qed.

Lemma destroy_port_spec s i :
  ipc_inv s ->
  (ipc_destroy_port s i = Done (-1) [] None s /\ (MAX_PORTS <= i \/ port_table s i = 0)) \/
  exists p s', ports s !! port_table s i = Some p /\
    ipc_destroy_port s i = Done 0 (waiting_receivers p ++ waiting_senders p) None s' /\ ipc_inv s' /\
    port_table s' i = 0 /\ ports s' !! port_table s i = None /\
    forall ptr, ptr <> port_table s i -> queue_of s' ptr = queue_of s ptr.
Proof.
  intros [A H]. unfold ipc_destroy_port. destruct (Z.leb_spec MAX_PORTS i); [left; split; [done|by left]|].
  destruct (Z.eqb_spec (port_table s i) 0) as [|Hptr]; [left; split; [done|by right]|]. right.
  destruct (ii_table _ _ H i Hptr) as (p & Hp & Hid). set (ptr := port_table s i) in *. rewrite Hp.
  destruct (ii_rep _ _ H _ _ Hp) as [ms (Hc & Hd & _)].
  destruct (free_chain_ok (size (nodes s)) _ _ _ _ Hc Hd) as (n' & -> & Hn'); [by eapply chain_size|].
  exists p. eexists. split_and!; [done|reflexivity| |apply aset_eq|apply lookup_delete_eq|].
  - exists A. assert (Hlive : forall q pq, delete ptr (ports s) !! q = Some pq -> q <> ptr /\ ports s !! q = Some pq).
    { intros q pq [? ?]%lookup_delete_Some. done. }
    assert (Hframe : forall q pq a, q <> ptr -> ports s !! q = Some pq -> a ∈ A q -> n' !! a = nodes s !! a).
    { intros q pq a Hq Hpq Ha. rewrite Hn', decide_False; [done|]. intros Ha'. apply Hq.
      by apply (ii_disjoint _ _ H q ptr pq p a). }
    split; simpl.
    + intros q pq [Hq Hpq]%Hlive. destruct (ii_rep _ _ H _ _ Hpq) as [ms' (Hc' & Hr')]. exists ms'. split; [|done].
      eapply chain_ext; [|exact Hc']. intros a Ha. by eapply Hframe.
    + intros q q' pq pq' a [Hq Hpq]%Hlive [Hq' Hpq']%Hlive. by apply (ii_disjoint _ _ H q q' pq pq').
    + intros j. unfold aset. destruct (Z.eqb_spec j i) as [->|Hj]; [done|]. intros Hj0.
      destruct (ii_table _ _ H j Hj0) as (pj & Hpj & Ej). rewrite lookup_delete_ne; [eauto|].
      intros E. rewrite <- E in Hpj. congruence.
    + intros q pq [Hq Hpq]%Hlive. destruct (ii_live _ _ H _ _ Hpq) as [? Et]. split; [done|].
      rewrite aset_ne; [done|]. intros E. apply Hq. unfold ptr. congruence.
    + apply H.
    + intros j. unfold aset. destruct (Z.eqb_spec j i); [done|]. apply (ii_ids _ _ H).
  - intros q Hq. unfold queue_of. simpl. rewrite lookup_delete_ne by done.
    destruct (ports s !! q) as [pq|] eqn:Eq; [|done]. simpl. destruct (ii_rep _ _ H _ _ Eq) as [ms' Hm].
    rewrite (queue_rep_walk _ _ _ _ Hm). f_equal. eapply queue_rep_walk. destruct Hm as (Hc' & Hr'). split; [|done].
    eapply chain_ext; [|exact Hc']. intros a Ha. rewrite Hn', decide_False; [done|]. intros Ha'. apply Hq.
    by apply (ii_disjoint _ _ H q ptr pq p a).
Qed.

(** * Access control *)

Section Calls.
Context {C : Type} `{CapSystem C}.
Implicit Types c : C.

(** The policy the code means: without any capability for the port only its
    owner may act, else a capability of the caller for the port must carry the
    right. *)
Definition may (c : C) (tid : Z) (proc : option Z) (pid right : Z) (port : ipc_port_internal_t) : Prop :=
  ((forall i x, cs_held c proc !! i = Some x -> is_port_cap pid x = false) /\ owner_tid port = tid) \/
  exists i x, cs_held c proc !! i = Some x /\ is_port_cap pid x = true /\ has_all (rights x) right = true.

Lemma authorised_spec s c tid proc pid right ptr port :
  cs_ok c -> ports s !! ptr = Some port ->
  exists b, authorised s c tid proc pid right ptr = Some b /\ (b = true -> may c tid proc pid right port).
Proof.
  intros Hc Hp. unfold authorised. rewrite Hp. destruct (cs_find_law c proc pid Hc) as (id & -> & Hid).
  destruct (decide (id = 0)) as [->|Hne].
  - simpl. eexists. split; [done|]. intros E%Z.eqb_eq. by left.
  - destruct (Z.eqb_spec id 0); [done|]. destruct Hid as (x & Hx & Hport).
    destruct (cs_check_law c proc id right Hc) as (b & -> & Hb). exists b. split; [done|].
    intros E. right. apply Hb in E as (y & Hy & Hr). assert (y = x) as -> by congruence. eauto.
Qed.

(** ** A whole call, with no other thread in between *)

Lemma send_spec s c tid proc pid m km1 km2 :
  ipc_inv s -> cs_ok c -> fresh_node s km2 ->
  ipc_send s c tid proc pid (Some m) km1 km2 = Done (-1) [] None s \/
  exists p q, pid < MAX_PORTS /\ ports s !! port_table s pid = Some p /\
    queue_of s (port_table s pid) = Some q /\ may c tid proc pid CAP_RIGHT_WRITE p /\
    if queue_max p <=? Z.of_nat (length q) then
      exists s', ipc_send s c tid proc pid (Some m) km1 km2 = Park (port_table s pid) s' /\ ipc_inv s' /\
        forall ptr, queue_of s' ptr = queue_of s ptr
    else
      exists s', ipc_send s c tid proc pid (Some m) km1 km2 = Done 0 (take 1 (waiting_receivers p)) None s' /\
        only_queue s s' (port_table s pid) (q ++ [stamp tid m]).
Proof.
  intros Hs Hc Hkm. unfold ipc_send, find_port. destruct (Z.leb_spec MAX_PORTS pid); [by left|]. simpl.
  destruct (Z.eqb_spec (port_table s pid) 0) as [|Hptr]; [by left|].
  destruct (live_port s pid Hs Hptr) as (p & Hp & _).
  destruct (authorised_spec s c tid proc pid CAP_RIGHT_WRITE _ p Hc Hp) as ([] & -> & Hmay); [|by left].
  destruct (queue_of_Some _ _ _ Hp) as [q Hq].
  destruct (send_locked_spec s tid _ p m km1 km2 q Hs Hp Hq Hkm) as [E|Hx]; [by left|].
  right. exists p, q. split_and!; try done. by apply Hmay.
Qed.

Lemma receive_spec s c tid proc pid null km :
  ipc_inv s -> cs_ok c ->
  ipc_receive s c tid proc pid null km = Done (-1) [] None s \/
  exists p q, pid < MAX_PORTS /\ ports s !! port_table s pid = Some p /\
    queue_of s (port_table s pid) = Some q /\ may c tid proc pid CAP_RIGHT_READ p /\
    match q with
    | [] =>
        exists s', ipc_receive s c tid proc pid null km = Park (port_table s pid) s' /\ ipc_inv s' /\
          forall ptr, queue_of s' ptr = queue_of s ptr
    | m :: q' =>
        exists s', ipc_receive s c tid proc pid null km = Done 0 (take 1 (waiting_senders p)) (Some m) s' /\
          only_queue s s' (port_table s pid) q'
    end.
Proof.
  intros Hs Hc. unfold ipc_receive, find_port. destruct (Z.leb_spec MAX_PORTS pid); [by left|].
  destruct null; [by left|]. simpl. destruct (Z.eqb_spec (port_table s pid) 0) as [|Hptr]; [by left|].
  destruct (live_port s pid Hs Hptr) as (p & Hp & _).
  destruct (authorised_spec s c tid proc pid CAP_RIGHT_READ _ p Hc Hp) as ([] & -> & Hmay); [|by left].
  destruct (queue_of_Some _ _ _ Hp) as [q Hq].
  pose proof (receive_round_spec s tid (port_table s pid) p km q Hs Hp Hq) as Hr. destruct q as [|m q'].
  - destruct Hr as [[_ ->]|Hr]; [by left|]. right. exists p, []. split_and!; try done. by apply Hmay.
  - right. exists p, (m :: q'). split_and!; try done. by apply Hmay.
Qed.

(** * The system: ports, capabilities, threads *)

(** What a thread in the middle of a call does with the port pointer it holds. *)
Inductive pending := PSend (ptr : Z) (m : ipc_message_t) | PReceive (ptr : Z) | PTry (ptr : Z).

(** Where such a thread is: past the lookup, the table lock released; past the
    capability test, before the port lock; past the port unlock but not yet in
    [thread_block]; blocked; made ready by [thread_unblock]. *)
Inductive phase :=
  | Found (proc : option Z) (pid : Z) (w : pending)
  | Allowed (w : pending)
  | Parking (w : pending)
  | Blocked (w : pending)
  | Ready (w : pending).

Record sys := { kipc : ipc; kcaps : C; threads : gmap Z phase }.

(** [thread_unblock]: nothing unless the thread's state is blocked. *)
Definition unblock (ts : gmap Z phase) (t : Z) : gmap Z phase :=
  match ts !! t with Some (Blocked w) => <[t := Ready w]> ts | _ => ts end.

(** The calls of the interface. *)
Inductive call :=
  | CSend (proc : option Z) (pid : Z) (m : option ipc_message_t)
  | CReceive (proc : option Z) (pid : Z) (msg_null : bool)
  | CTry (pid : Z) (msg_null : bool)
  | CCreate (km : option Z)
  | CDestroy (pid : Z).

(** A thread starts a call; makes the capability test; takes the port lock;
    blocks; takes the port lock again once woken.  [ACaps] is any change of the
    capability system. *)
Inductive action :=
  | ACall (tid : Z) (x : call)
  | ACheck (tid : Z)
  | ALock (tid : Z) (km1 km2 : option Z)
  | ABlock (tid : Z)
  | AResume (tid : Z) (km : option Z)
  | ACaps (c : C).

Inductive result := Disabled | Crash | Next (s : sys).

Definition to_phase (s : sys) (tid : Z) (ph : phase) : sys :=
  {| kipc := kipc s; kcaps := kcaps s; threads := <[tid := ph]> (threads s) |}.

(** The lookup: the call returns -1, or goes on with the pointer. *)
Definition enter (s : sys) (tid pid : Z) (null : bool) (ph : Z -> phase) : result :=
  let ptr := find_port (kipc s) pid null in
  if ptr =? 0 then Next s else Next (to_phase s tid (ph ptr)).

Definition settle (s : sys) (tid : Z) (w : pending) (o : outcome) : result :=
  match o with
  | Fault => Crash
  | Done _ woken _ k => Next {| kipc := k; kcaps := kcaps s; threads := foldl unblock (delete tid (threads s)) woken |}
  | Park _ k => Next {| kipc := k; kcaps := kcaps s; threads := <[tid := Parking w]> (threads s) |}
  end.

Definition start (s : sys) (tid : Z) (x : call) : result :=
  match x with
  | CSend _ _ None => Next s
  | CSend proc pid (Some m) => enter s tid pid false (fun ptr => Found proc pid (PSend ptr m))
  | CReceive proc pid null => enter s tid pid null (fun ptr => Found proc pid (PReceive ptr))
  | CTry pid null => enter s tid pid null (fun ptr => Allowed (PTry ptr))
  | CCreate km => Next {| kipc := snd (ipc_create_port (kipc s) tid km); kcaps := kcaps s; threads := threads s |}
  | CDestroy pid => settle s tid (PTry 0) (ipc_destroy_port (kipc s) pid)
  end.

Definition ptr_of (w : pending) : Z := match w with PSend ptr _ | PReceive ptr | PTry ptr => ptr end.
Definition right_of (w : pending) : Z := match w with PSend _ _ => CAP_RIGHT_WRITE | _ => CAP_RIGHT_READ end.

(** The critical section of the port lock, entered the first time and, by a
    woken thread, again. *)
Definition locked (s : ipc) (tid : Z) (w : pending) (km1 km2 : option Z) : outcome :=
  match w with
  | PSend ptr m => send_locked s tid ptr m km1 km2
  | PReceive ptr => receive_round s tid ptr km1
  | PTry ptr => try_locked s ptr
  end.

Definition relocked (s : ipc) (tid : Z) (w : pending) (km : option Z) : outcome :=
  match w with
  | PSend ptr m => send_enqueue s tid ptr m km
  | PReceive ptr => receive_round s tid ptr km
  | PTry ptr => try_locked s ptr
  end.

Definition sys_do (a : action) (s : sys) : result :=
  match a with
  | ACall tid x => match threads s !! tid with None => start s tid x | Some _ => Disabled end
  | ACheck tid =>
      match threads s !! tid with
      | Some (Found proc pid w) =>
          match authorised (kipc s) (kcaps s) tid proc pid (right_of w) (ptr_of w) with
          | None => Crash
          | Some false => Next {| kipc := kipc s; kcaps := kcaps s; threads := delete tid (threads s) |}
          | Some true => Next (to_phase s tid (Allowed w))
          end
      | _ => Disabled
      end
  | ALock tid km1 km2 =>
      match threads s !! tid with
      | Some (Allowed w) => settle s tid w (locked (kipc s) tid w km1 km2)
      | _ => Disabled
      end
  | ABlock tid =>
      match threads s !! tid with
      | Some (Parking w) => Next (to_phase s tid (Blocked w))
      | _ => Disabled
      end
  | AResume tid km =>
      match threads s !! tid with
      | Some (Ready w) => settle s tid w (relocked (kipc s) tid w km)
      | _ => Disabled
      end
  | ACaps c => Next {| kipc := kipc s; kcaps := c; threads := threads s |}
  end.

(** What the heap and the capability system promise of an action. *)
Definition act_ok (a : action) (s : sys) : Prop :=
  match a with
  | ACall _ (CCreate km) => fresh_port (kipc s) km
  | ALock _ _ km | AResume _ km => fresh_node (kipc s) km
  | ACaps c => cs_ok c
  | _ => True
  end.

Definition sys_step (s s' : sys) : Prop := exists a, act_ok a s /\ sys_do a s = Next s'.

Definition ipc_boot : ipc :=
  ipc_init {| port_table := fun _ => 0; ports := ∅; nodes := ∅; next_port_id := 1 |}.
Definition sys_boot (c : C) : sys := {| kipc := ipc_boot; kcaps := c; threads := ∅ |}.

Definition reachable (s : sys) : Prop := exists c, cs_ok c /\ rtc sys_step (sys_boot c) s.

(** ** Port pointers that outlive their port *)

(** The port pointer of a thread in the middle of a call. *)
Definition held (ph : phase) : Z :=
  match ph with Found _ _ w | Allowed w | Parking w | Blocked w | Ready w => ptr_of w end.

(** The action is the next stage of a thread whose port has been freed. *)
Definition dangling (a : action) (s : sys) : Prop :=
  match a with
  | ACheck tid | ALock tid _ _ | AResume tid _ =>
      exists ph, threads s !! tid = Some ph /\ ports (kipc s) !! held ph = None
  | _ => False
  end.

(** A run in which no port is destroyed that some thread in the middle of a call
    still points to. *)
Definition calm (a : action) (s : sys) : Prop :=
  match a with
  | ACall _ (CDestroy pid) => forall t ph, threads s !! t = Some ph -> held ph <> port_table (kipc s) pid
  | _ => True
  end.

Definition calm_step (s s' : sys) : Prop := exists a, act_ok a s /\ calm a s /\ sys_do a s = Next s'.
Definition calmly_reachable (s : sys) : Prop := exists c, cs_ok c /\ rtc calm_step (sys_boot c) s.
End Calls.

(** * Invariants of the system *)

Lemma ipc_boot_inv : ipc_inv ipc_boot.
Proof.
  assert (Ht : forall i, port_table ipc_boot i = 0).
  { intros i. unfold ipc_boot, ipc_init. cbn [port_table]. rewrite fill_loop. by destruct (_ && _). }
  exists (fun _ => []). split; try done.
  - intros i. by rewrite Ht.
  - intros i. by rewrite Ht.
Qed.

(** What the critical sections leave behind: a well-formed state with the same
    ports, unless the port itself is gone. *)
Definition sound (k : ipc) (o : outcome) : Prop :=
  match o with
  | Fault => False
  | Done _ _ _ k' | Park _ k' => ipc_inv k' /\ forall ptr, is_Some (ports k !! ptr) -> is_Some (ports k' !! ptr)
  end.

Lemma queue_ports k k' : (forall ptr, queue_of k' ptr = queue_of k ptr) ->
  forall ptr, is_Some (ports k !! ptr) -> is_Some (ports k' !! ptr).
Proof.
  intros E ptr [p Hp]. specialize (E ptr). unfold queue_of in E. rewrite Hp in E.
  by destruct (ports k' !! ptr); [eexists|].
Qed.

Lemma only_queue_ports k k' ptr q : only_queue k k' ptr q ->
  ipc_inv k' /\ forall ptr', is_Some (ports k !! ptr') -> is_Some (ports k' !! ptr').
Proof.
  intros (Hi & Hq & Ho). split; [done|]. intros ptr' [p Hp]. destruct (decide (ptr' = ptr)) as [->|Hne].
  - unfold queue_of in Hq. by destruct (ports k' !! ptr); [eexists|].
  - specialize (Ho ptr' Hne). unfold queue_of in Ho. rewrite Hp in Ho. by destruct (ports k' !! ptr'); [eexists|].
Qed.

Lemma receive_round_sound k tid ptr p km :
  ipc_inv k -> ports k !! ptr = Some p -> sound k (receive_round k tid ptr km).
Proof.
  intros Hk Hp. destruct (queue_of_Some _ _ _ Hp) as [q Hq].
  pose proof (receive_round_spec k tid ptr p km q Hk Hp Hq) as He.
  destruct q as [|m q]; [destruct He as [[_ ->]|(k' & -> & Hi & Ho)]|destruct He as (k' & -> & Ho)].
  - done.
  - split; [done|by apply queue_ports].
  - by eapply only_queue_ports.
Qed.

Lemma try_locked_sound k ptr p : ipc_inv k -> ports k !! ptr = Some p -> sound k (try_locked k ptr).
Proof.
  intros Hk Hp. destruct (queue_of_Some _ _ _ Hp) as [q Hq]. pose proof (try_locked_spec k ptr p q Hk Hp Hq) as He.
  destruct q as [|m q]; [by rewrite He|]. destruct He as (k' & -> & Ho). by eapply only_queue_ports.
Qed.

Lemma locked_sound k tid w p km1 km2 :
  ipc_inv k -> ports k !! ptr_of w = Some p -> fresh_node k km2 -> sound k (locked k tid w km1 km2).
Proof.
  intros Hk Hp Hf. destruct w as [ptr m|ptr|ptr]; simpl in *;
    [|by eapply receive_round_sound|by eapply try_locked_sound].
  destruct (queue_of_Some _ _ _ Hp) as [q Hq].
  destruct (send_locked_spec k tid ptr p m km1 km2 q Hk Hp Hq Hf) as [->|Hx]; [done|].
  destruct (_ <=? _); destruct Hx as (k' & -> & Ho); [|by eapply only_queue_ports].
  destruct Ho as [Hi Ho]. split; [done|by apply queue_ports].
Qed.

Lemma relocked_sound k tid w p km :
  ipc_inv k -> ports k !! ptr_of w = Some p -> fresh_node k km -> sound k (relocked k tid w km).
Proof.
  intros Hk Hp Hf. destruct w as [ptr m|ptr|ptr]; simpl in *;
    [|by eapply receive_round_sound|by eapply try_locked_sound].
  destruct (queue_of_Some _ _ _ Hp) as [q Hq]. pose proof (send_enqueue_spec k tid ptr p m km q Hk Hp Hq Hf) as He.
  destruct km as [a|]; [|by rewrite He]. destruct He as (k' & -> & Ho). by eapply only_queue_ports.
Qed.

(** A critical section on a freed port is a dereference of a dangling pointer. *)
Lemma locked_freed k tid w km1 km2 : ports k !! ptr_of w = None -> locked k tid w km1 km2 = Fault.
Proof.
  destruct w; simpl; intros E; unfold send_locked, receive_round, try_locked; by rewrite E.
Qed.

Lemma relocked_freed k tid w km : ports k !! ptr_of w = None -> relocked k tid w km = Fault.
Proof.
  destruct w; simpl; intros E; unfold send_enqueue, receive_round, try_locked; by rewrite E.
Qed.

Section System.
Context {C : Type} `{CapSystem C}.
Implicit Types s : sys (C := C).

Definition sys_inv s : Prop := ipc_inv (kipc s) /\ cs_ok (kcaps s).

(** The effect of a critical section on the system, with the port live or not. *)
Lemma settle_cases s tid w o :
  sys_inv s -> (ports (kipc s) !! ptr_of w = None -> o = Fault) ->
  (forall p, ports (kipc s) !! ptr_of w = Some p -> sound (kipc s) o) ->
  match settle s tid w o with
  | Disabled => False
  | Crash => ports (kipc s) !! ptr_of w = None
  | Next s' => sys_inv s'
  end.
Proof.
  intros [Hi Hc] Hn Hs. destruct (ports (kipc s) !! ptr_of w) as [p|]; [|by rewrite Hn].
  specialize (Hs p eq_refl). destruct o as [|rc woken out k|ptr k]; [done|by destruct Hs..].
Qed.

Lemma start_cases s tid x :
  sys_inv s -> act_ok (ACall tid x) s -> exists s', start s tid x = Next s' /\ sys_inv s'.
Proof.
  intros [Hi Hc] Hok.
  destruct x as [proc pid [m|]|proc pid null|pid null|km|pid]; simpl; try (by eexists);
    unfold enter; try (by destruct (_ =? _); eexists).
  - eexists. split; [done|]. pose proof (create_port_spec (kipc s) tid km Hi Hok) as Hp.
    destruct (ipc_create_port _ _ _) as [id k]. split; [apply Hp|done].
  - destruct (destroy_port_spec (kipc s) pid Hi) as [[-> _]|(p & s' & _ & -> & ? & _)]; by eexists.
Qed.

(** One action on a well-formed state: it crashes only through a dangling
    pointer, and leaves a well-formed state. *)
Lemma sys_do_cases a s :
  sys_inv s -> act_ok a s ->
  match sys_do a s with Disabled => True | Crash => dangling a s | Next s' => sys_inv s' end.
Proof.
  intros Hs Hok. destruct a as [tid x|tid|tid km1 km2|tid|tid km|c]; simpl.
  - destruct (threads s !! tid); [done|]. by destruct (start_cases s tid x Hs Hok) as (s' & -> & ?).
  - destruct (threads s !! tid) as [[proc pid w| | | |]|] eqn:Ht; try done.
    destruct (ports (kipc s) !! ptr_of w) as [p|] eqn:Hp.
    + destruct (authorised_spec (kipc s) (kcaps s) tid proc pid (right_of w) _ p (proj2 Hs) Hp) as ([] & -> & _); done.
    + destruct (authorised _ _ _ _ _ _ _) as [[]|]; [done|done|]. by exists (Found proc pid w).
  - destruct (threads s !! tid) as [[|w| | |]|] eqn:Ht; try done.
    pose proof (settle_cases s tid w (locked (kipc s) tid w km1 km2) Hs
      (locked_freed _ _ _ _ _) (fun p Hp => locked_sound _ _ _ p _ _ (proj1 Hs) Hp Hok)) as Hx.
    destruct (settle _ _ _ _); [done|by exists (Allowed w)|done].
  - by destruct (threads s !! tid) as [[]|].
  - destruct (threads s !! tid) as [[| | | |w]|] eqn:Ht; try done.
    pose proof (settle_cases s tid w (relocked (kipc s) tid w km) Hs
      (relocked_freed _ _ _ _) (fun p Hp => relocked_sound _ _ _ p _ (proj1 Hs) Hp Hok)) as Hx.
    destruct (settle _ _ _ _); [done|by exists (Ready w)|done].
  - split; [apply Hs|done].
Qed.

Lemma sys_boot_inv c : cs_ok c -> sys_inv (sys_boot c).
Proof. split; [apply ipc_boot_inv|done]. Qed.

Lemma reachable_inv s : reachable s -> ipc_inv (kipc s) /\ cs_ok (kcaps s).
Proof.
  intros (c & Hc & Hr). revert s Hr. apply (rtc_ind_r _ (sys_boot c)); [by apply sys_boot_inv|].
  intros s1 s2 _ (a & Hok & Hdo) Hs. pose proof (sys_do_cases a s1 Hs Hok) as Hx. by rewrite Hdo in Hx.
Qed.

(** ** Runs that destroy no port in use *)

Definition all_live s : Prop :=
  forall t ph, threads s !! t = Some ph -> is_Some (ports (kipc s) !! held ph).

Lemma unblock_held ts woken t ph :
  foldl unblock ts woken !! t = Some ph -> exists ph', ts !! t = Some ph' /\ held ph' = held ph.
Proof.
  revert ts. induction woken as [|w woken IH]; intros ts; simpl; [by exists ph|].
  intros (ph' & Hts & <-)%IH. unfold unblock in Hts. destruct (ts !! w) as [[]|] eqn:Ew; try (by exists ph').
  apply lookup_insert_Some in Hts as [[-> <-]|[_ Hts]]; [by eexists|by exists ph'].
Qed.

Lemma settle_live s tid ph w o s' :
  all_live s -> threads s !! tid = Some ph -> held ph = ptr_of w -> sound (kipc s) o ->
  settle s tid w o = Next s' -> all_live s'.
Proof.
  intros Hl Ht Hh Ho. destruct o as [|rc woken out k|ptr k]; simpl; [done|intros [= <-]..]; destruct Ho as [_ Hk];
    intros t ph' Ht'; apply Hk; simpl in Ht'.
  - apply unblock_held in Ht' as (ph1 & [_ Ht']%lookup_delete_Some & <-). by eapply Hl.
  - apply lookup_insert_Some in Ht' as [[_ <-]|[_ Ht']]; [|by eapply Hl]. simpl. rewrite <- Hh. by eapply Hl.
Qed.

Lemma to_phase_live s tid ph :
  all_live s -> is_Some (ports (kipc s) !! held ph) -> all_live (to_phase s tid ph).
Proof.
  intros Hl Hph t ph' Ht. simpl in *. apply lookup_insert_Some in Ht as [[_ <-]|[_ Ht]]; [done|by eapply Hl].
Qed.

Lemma enter_live s tid pid null ph s' :
  sys_inv s -> all_live s -> (forall ptr, held (ph ptr) = ptr) -> enter s tid pid null ph = Next s' -> all_live s'.
Proof.
  intros [Hi _] Hl Hph. unfold enter, find_port. destruct (_ || _); [by intros [= <-]|].
  destruct (Z.eqb_spec (port_table (kipc s) pid) 0) as [|Hne]; intros [= <-]; [done|]. apply to_phase_live; [done|].
  rewrite Hph. destruct (live_port _ _ Hi Hne) as (p & -> & _). by eexists.
Qed.

Lemma create_live k tid km ptr : is_Some (ports k !! ptr) -> is_Some (ports (snd (ipc_create_port k tid km)) !! ptr).
Proof.
  intros Hp. unfold ipc_create_port. destruct (_ <=? _); [done|]. destruct km as [a|]; [|done]. simpl.
  destruct (decide (ptr = a)) as [->|Hne]; [rewrite lookup_insert_eq; by eexists|by rewrite lookup_insert_ne].
Qed.

Lemma start_live s tid x s' :
  sys_inv s -> all_live s -> threads s !! tid = None -> calm (ACall tid x) s -> start s tid x = Next s' -> all_live s'.
Proof.
  intros Hs Hl Ht Hcalm. destruct x as [proc pid [m|]|proc pid null|pid null|km|pid]; simpl.
  - by apply enter_live.
  - by intros [= <-].
  - by apply enter_live.
  - by apply enter_live.
  - intros [= <-] t ph Hph. simpl in *. apply create_live. by eapply Hl.
  - destruct (destroy_port_spec (kipc s) pid (proj1 Hs)) as [[-> _]|(p & k & Hp & -> & _ & _ & _ & Ho)];
      intros [= <-] t ph Hph; simpl in *;
      [apply lookup_delete_Some in Hph as [_ Hph]; by eapply Hl|].
    apply unblock_held in Hph as (ph1 & [_ Hph]%lookup_delete_Some & <-).
    destruct (Hl _ _ Hph) as [p1 Hp1]. specialize (Ho (held ph1) (Hcalm _ _ Hph)). unfold queue_of in Ho.
    rewrite Hp1 in Ho. by destruct (ports k !! held ph1); [eexists|].
Qed.

Lemma calm_step_live s s' : sys_inv s -> all_live s -> calm_step s s' -> all_live s'.
Proof.
  intros Hs Hl (a & Hok & Hcalm & Hdo). destruct a as [tid x|tid|tid km1 km2|tid|tid km|c]; simpl in Hdo.
  - destruct (threads s !! tid) eqn:Ht; [done|]. by eapply start_live.
  - destruct (threads s !! tid) as [[proc pid w| | | |]|] eqn:Ht; try done.
    destruct (authorised _ _ _ _ _ _ _) as [[]|]; [| |done]; injection Hdo as <-.
    + apply to_phase_live; [done|]. apply (Hl _ _ Ht).
    + intros t ph Hph. simpl in Hph. apply lookup_delete_Some in Hph as [_ Hph]. by eapply Hl.
  - destruct (threads s !! tid) as [[|w| | |]|] eqn:Ht; try done. destruct (Hl _ _ Ht) as [p Hp].
    eapply settle_live; [done|exact Ht|done| |exact Hdo]. eapply locked_sound; [apply Hs|exact Hp|exact Hok].
  - destruct (threads s !! tid) as [[]|] eqn:Ht; try done. injection Hdo as <-.
    apply to_phase_live; [done|]. apply (Hl _ _ Ht).
  - destruct (threads s !! tid) as [[| | | |w]|] eqn:Ht; try done. destruct (Hl _ _ Ht) as [p Hp].
    eapply settle_live; [done|exact Ht|done| |exact Hdo]. eapply relocked_sound; [apply Hs|exact Hp|exact Hok].
  - by injection Hdo as <-.
Qed.

Lemma calmly_reachable_live s : calmly_reachable s -> sys_inv s /\ all_live s.
Proof.
  intros (c & Hc & Hr). revert s Hr. apply (rtc_ind_r _ (sys_boot c)).
  - split; [by apply sys_boot_inv|]. intros t ph Ht. simpl in Ht. by rewrite lookup_empty in Ht.
  - intros s1 s2 _ Hstep [Hs Hl]. split; [|by eapply calm_step_live].
    destruct Hstep as (a & Hok & _ & Hdo). pose proof (sys_do_cases a s1 Hs Hok) as Hx. by rewrite Hdo in Hx.
Qed.

Lemma calm_no_crash a s : sys_inv s -> all_live s -> act_ok a s -> sys_do a s <> Crash.
Proof.
  intros Hs Hl Hok E. pose proof (sys_do_cases a s Hs Hok) as Hx. rewrite E in Hx.
  destruct a; try done; destruct Hx as (ph & Ht & Hp); destruct (Hl _ _ Ht) as [p Hp']; congruence.
Qed.

(** ** The stages of a call make up the call *)

(** All stages of a call, with no other thread in between. *)
Definition uninterrupted s (tid : Z) (x : call) (km1 km2 : option Z) : result :=
  let lock s := match threads s !! tid with Some (Allowed _) => sys_do (ALock tid km1 km2) s | _ => Next s end in
  match sys_do (ACall tid x) s with
  | Next s1 =>
      match threads s1 !! tid with
      | Some (Found _ _ _) => match sys_do (ACheck tid) s1 with Next s2 => lock s2 | r => r end
      | _ => lock s1
      end
  | r => r
  end.

Lemma settle_to_phase s tid ph w o : settle (to_phase s tid ph) tid w o = settle s tid w o.
Proof. destruct o; simpl; [done|by rewrite delete_insert_eq|by rewrite insert_insert_eq]. Qed.

Lemma settle_failed s tid w : threads s !! tid = None -> settle s tid w (Done (-1) [] None (kipc s)) = Next s.
Proof. intros Ht. simpl. rewrite delete_id by done. by destruct s. Qed.

Lemma uninterrupted_checked s tid proc pid w km1 km2 :
  threads s !! tid = None ->
  (match authorised (kipc s) (kcaps s) tid proc pid (right_of w) (ptr_of w) with
   | None => Crash
   | Some false => Next {| kipc := kipc s; kcaps := kcaps s; threads := delete tid (<[tid := Found proc pid w]> (threads s)) |}
   | Some true => settle (to_phase (to_phase s tid (Found proc pid w)) tid (Allowed w)) tid w
                    (locked (kipc s) tid w km1 km2)
   end) =
  settle s tid w
    (match authorised (kipc s) (kcaps s) tid proc pid (right_of w) (ptr_of w) with
     | None => Fault
     | Some false => Done (-1) [] None (kipc s)
     | Some true => locked (kipc s) tid w km1 km2
     end).
Proof.
  intros Ht. destruct (authorised _ _ _ _ _ _ _) as [[]|]; [by rewrite !settle_to_phase| |done].
  rewrite settle_failed by done. rewrite delete_insert_id by done. by destruct s.
Qed.

Lemma uninterrupted_send s tid proc pid m km1 km2 :
  threads s !! tid = None ->
  uninterrupted s tid (CSend proc pid (Some m)) km1 km2 =
  settle s tid (PSend (find_port (kipc s) pid false) m) (ipc_send (kipc s) (kcaps s) tid proc pid (Some m) km1 km2).
Proof.
  intros Ht. unfold uninterrupted, ipc_send. cbn [sys_do]. rewrite Ht. cbn [start]. unfold enter.
  destruct (_ =? 0); [rewrite Ht; by rewrite settle_failed|]. cbn [to_phase threads]. rewrite lookup_insert_eq.
  pose proof (uninterrupted_checked s tid proc pid (PSend (find_port (kipc s) pid false) m) km1 km2 Ht) as E.
  cbn [kipc kcaps to_phase right_of ptr_of locked] in *. rewrite <- E. destruct (authorised _ _ _ _ _ _ _) as [[]|]; [| |done].
  - cbn [threads kipc kcaps to_phase]. rewrite lookup_insert_eq. cbn [kipc locked]. done.
  - cbn [threads]. by rewrite lookup_delete_eq.
Qed.

Lemma uninterrupted_receive s tid proc pid null km :
  threads s !! tid = None ->
  uninterrupted s tid (CReceive proc pid null) km None =
  settle s tid (PReceive (find_port (kipc s) pid null)) (ipc_receive (kipc s) (kcaps s) tid proc pid null km).
Proof.
  intros Ht. unfold uninterrupted, ipc_receive. cbn [sys_do]. rewrite Ht. cbn [start]. unfold enter.
  destruct (_ =? 0); [rewrite Ht; by rewrite settle_failed|]. cbn [to_phase threads]. rewrite lookup_insert_eq.
  pose proof (uninterrupted_checked s tid proc pid (PReceive (find_port (kipc s) pid null)) km None Ht) as E.
  cbn [kipc kcaps to_phase right_of ptr_of locked] in *. rewrite <- E. destruct (authorised _ _ _ _ _ _ _) as [[]|]; [| |done].
  - cbn [threads kipc kcaps to_phase]. rewrite lookup_insert_eq. cbn [kipc locked]. done.
  - cbn [threads]. by rewrite lookup_delete_eq.
Qed.

Lemma uninterrupted_try s tid pid null :
  threads s !! tid = None ->
  uninterrupted s tid (CTry pid null) None None =
  settle s tid (PTry (find_port (kipc s) pid null)) (ipc_try_receive (kipc s) pid null).
Proof.
  intros Ht. unfold uninterrupted, ipc_try_receive. cbn [sys_do]. rewrite Ht. cbn [start]. unfold enter.
  destruct (_ =? 0); [rewrite Ht; by rewrite settle_failed|]. cbn [to_phase threads]. rewrite !lookup_insert_eq.
  cbn [kipc locked]. by rewrite (settle_to_phase s tid (Allowed _)).
Qed.

(** ** A thread that waits nowhere *)

Definition waits_nowhere (t : Z) (k : ipc) : Prop :=
  forall ptr p, ports k !! ptr = Some p -> (t ∉ waiting_receivers p) /\ (t ∉ waiting_senders p).

Lemma waits_nowhere_set t k ptr p n :
  waits_nowhere t k -> t ∉ waiting_receivers p -> t ∉ waiting_senders p -> waits_nowhere t (set_port k ptr p n).
Proof.
  intros Hk Hr Hs q pq Hq. simpl in Hq. apply lookup_insert_Some in Hq as [[_ <-]|[_ Hq]]; [done|by eapply Hk].
Qed.

Definition quiet (t : Z) (o : outcome) : Prop :=
  match o with
  | Fault => True
  | Done _ woken _ k => (t ∉ woken) /\ waits_nowhere t k
  | Park _ k => waits_nowhere t k
  end.

Lemma not_elem_of_pop (t : Z) (l : list Z) :
  t ∉ l -> (t ∉ match l with w :: _ => [w] | [] => [] end) /\ (t ∉ match l with _ :: ws => ws | [] => [] end).
Proof. destruct l as [|w ws]; [done|]. intros [Hw Hws]%not_elem_of_cons. split; [|done]. by intros ->%list_elem_of_singleton. Qed.

Lemma send_enqueue_quiet t k tid ptr m km : waits_nowhere t k -> quiet t (send_enqueue k tid ptr m km).
Proof.
  intros Hk. unfold send_enqueue. destruct (ports k !! ptr) as [p|] eqn:Hp; [|done].
  destruct km as [a|]; [|split; [apply not_elem_of_nil|done]]. destruct (if negb _ then _ else _) as [[h n]|]; [|done].
  destruct (Hk _ _ Hp) as [Hr Hs]. destruct (not_elem_of_pop t _ Hr) as [Hw Hws]. split; [done|].
  by apply waits_nowhere_set.
Qed.

Lemma take_head_quiet t k ptr p nd :
  waits_nowhere t k -> ports k !! ptr = Some p -> quiet t (take_head k ptr p nd).
Proof.
  intros Hk Hp. destruct (Hk _ _ Hp) as [Hr Hs]. destruct (not_elem_of_pop t _ Hs) as [Hw Hws].
  split; [done|]. by apply waits_nowhere_set.
Qed.

Lemma receive_round_quiet t k tid ptr km : t <> tid -> waits_nowhere t k -> quiet t (receive_round k tid ptr km).
Proof.
  intros Hne Hk. unfold receive_round. destruct (ports k !! ptr) as [p|] eqn:Hp; [|done].
  destruct (queue_size p =? 0).
  - destruct km; [|split; [apply not_elem_of_nil|done]]. destruct (Hk _ _ Hp) as [Hr Hs].
    apply waits_nowhere_set; [done| |done]. by apply not_elem_of_cons.
  - destruct (queue_head p =? 0); [split; [apply not_elem_of_nil|done]|].
    destruct (nodes k !! queue_head p); [|done]. by apply take_head_quiet.
Qed.

Lemma send_locked_quiet t k tid ptr m km1 km2 :
  t <> tid -> waits_nowhere t k -> quiet t (send_locked k tid ptr m km1 km2).
Proof.
  intros Hne Hk. unfold send_locked. destruct (ports k !! ptr) as [p|] eqn:Hp; [|done].
  destruct (queue_max p <=? queue_size p); [|by apply send_enqueue_quiet].
  destruct km1; [|split; [apply not_elem_of_nil|done]]. destruct (Hk _ _ Hp) as [Hr Hs].
  apply waits_nowhere_set; [done|done|]. by apply not_elem_of_cons.
Qed.

Lemma try_locked_quiet t k ptr : waits_nowhere t k -> quiet t (try_locked k ptr).
Proof.
  intros Hk. unfold try_locked. destruct (ports k !! ptr) as [p|] eqn:Hp; [|done].
  destruct (queue_size p =? 0); [split; [apply not_elem_of_nil|done]|].
  destruct (nodes k !! _); [|done]. by apply take_head_quiet.
Qed.

Lemma locked_quiet t k tid w km1 km2 : t <> tid -> waits_nowhere t k -> quiet t (locked k tid w km1 km2).
Proof.
  destruct w; simpl; intros; [by apply send_locked_quiet|by apply receive_round_quiet|by apply try_locked_quiet].
Qed.

Lemma relocked_quiet t k tid w km : t <> tid -> waits_nowhere t k -> quiet t (relocked k tid w km).
Proof.
  destruct w; simpl; intros; [by apply send_enqueue_quiet|by apply receive_round_quiet|by apply try_locked_quiet].
Qed.

Lemma destroy_quiet t k pid : waits_nowhere t k -> quiet t (ipc_destroy_port k pid).
Proof.
  intros Hk. assert (Hfail : quiet t (Done (-1) [] None k)) by (split; [apply not_elem_of_nil|done]).
  unfold ipc_destroy_port. destruct (_ <=? _); [done|]. destruct (_ =? _); [done|].
  destruct (ports k !! port_table k pid) as [p|] eqn:Hp; [|done]. destruct (free_chain _ _ _) as [n|]; [|done].
  destruct (Hk _ _ Hp) as [Hr Hs]. split; [by apply not_elem_of_app|]. intros q pq Hq. simpl in Hq.
  apply lookup_delete_Some in Hq as [_ Hq]. by eapply Hk.
Qed.

Lemma unblock_other ts woken t : t ∉ woken -> foldl unblock ts woken !! t = ts !! t.
Proof.
  revert ts. induction woken as [|w woken IH]; intros ts; [done|]. intros [Hw Hws]%not_elem_of_cons. simpl.
  rewrite IH by done. unfold unblock. destruct (ts !! w) as [[]|]; try done. by rewrite lookup_insert_ne.
Qed.

(** A blocked thread that is in no waiting list. *)
Definition stuck (t : Z) (w : pending) (s : sys (C := C)) : Prop :=
  threads s !! t = Some (Blocked w) /\ waits_nowhere t (kipc s).

Lemma settle_stuck t w s tid w' o s' :
  t <> tid -> threads s !! t = Some (Blocked w) -> quiet t o -> settle s tid w' o = Next s' -> stuck t w s'.
Proof.
  intros Hne Ht Hq. destruct o as [|rc woken out k|ptr k]; simpl; [done|intros [= <-]..].
  - destruct Hq as [Hw Hk]. split; [|done]. simpl. rewrite unblock_other by done. by rewrite lookup_delete_ne.
  - split; [|done]. simpl. by rewrite lookup_insert_ne.
Qed.

Lemma to_phase_stuck t w s tid ph : t <> tid -> stuck t w s -> stuck t w (to_phase s tid ph).
Proof. intros Hne [Ht Hk]. split; [|done]. simpl. by rewrite lookup_insert_ne. Qed.

Lemma start_stuck t w s tid x s' : t <> tid -> stuck t w s -> start s tid x = Next s' -> stuck t w s'.
Proof.
  intros Hne Hst. pose proof Hst as [Ht Hk].
  assert (Henter : forall pid null ph, enter s tid pid null ph = Next s' -> stuck t w s').
  { intros pid null ph. unfold enter. destruct (_ =? _); intros [= <-]; [done|by apply to_phase_stuck]. }
  destruct x as [proc pid [m|]|proc pid null|pid null|km|pid]; simpl; try (by apply Henter).
  - by intros [= <-].
  - intros [= <-]. split; [done|]. simpl. unfold ipc_create_port.
    destruct (_ <=? _); [done|]. destruct km as [ptr|]; [|done]. intros q pq Hq. simpl in Hq.
    apply lookup_insert_Some in Hq as [[_ <-]|[_ Hq]]; [by split; apply not_elem_of_nil|by eapply Hk].
  - eapply settle_stuck; [done|done|]. by apply destroy_quiet.
Qed.

(** Such a thread is never woken. *)
Lemma stuck_step t w s s' : stuck t w s -> sys_step s s' -> stuck t w s'.
Proof.
  intros Hst (a & _ & Hdo). pose proof Hst as [Ht Hk].
  assert (Hne : forall tid ph, threads s !! tid = Some ph -> (forall w', ph <> Blocked w') -> t <> tid).
  { intros tid ph Hph Hn ->. rewrite Ht in Hph. injection Hph as <-. by eapply Hn. }
  destruct a as [tid x|tid|tid km1 km2|tid|tid km|c]; simpl in Hdo.
  - destruct (decide (t = tid)) as [->|]; [by rewrite Ht in Hdo|]. destruct (threads s !! tid); [done|].
    by eapply start_stuck.
  - destruct (threads s !! tid) as [[proc pid w'| | | |]|] eqn:Hph; try done.
    pose proof (Hne tid _ Hph ltac:(done)) as Htid. destruct (authorised _ _ _ _ _ _ _) as [[]|]; [| |done];
      injection Hdo as <-; [by apply to_phase_stuck|]. split; [|done]. simpl. by rewrite lookup_delete_ne.
  - destruct (threads s !! tid) as [[|w'| | |]|] eqn:Hph; try done. pose proof (Hne tid _ Hph ltac:(done)).
    eapply settle_stuck; [done|done| |exact Hdo]. by apply locked_quiet.
  - destruct (threads s !! tid) as [[]|] eqn:Hph; try done. injection Hdo as <-.
    apply to_phase_stuck; [|done]. by apply (Hne tid _ Hph).
  - destruct (threads s !! tid) as [[| | | |w']|] eqn:Hph; try done. pose proof (Hne tid _ Hph ltac:(done)).
    eapply settle_stuck; [done|done| |exact Hdo]. by apply relocked_quiet.
  - by injection Hdo as <-.
Qed.

Lemma stuck_forever t w s s' : stuck t w s -> rtc sys_step s s' -> stuck t w s'.
Proof. intros Hs Hr. induction Hr as [|s1 s2 s3 Hstep _ IH]; [done|]. apply IH. by eapply stuck_step. Qed.
End System.

(** ** Concrete runs *)

Section Runs.
Context {C : Type} `{CapSystem C}.

Definition fresh_in {V} (m : gmap Z V) (km : option Z) : bool :=
  match km with
  | None => true
  | Some a => (0 <? a) && (a <? 2 ^ 64) && bool_decide (m !! a = None)
  end.

Definition act_okb (a : action (C := C)) (s : sys (C := C)) : bool :=
  match a with
  | ACall _ (CCreate km) => fresh_in (ports (kipc s)) km
  | ALock _ _ km | AResume _ km => fresh_in (nodes (kipc s)) km
  | ACaps _ => false
  | _ => true
  end.

Fixpoint sys_run (acts : list (action (C := C))) (s : sys (C := C)) : option (sys (C := C)) :=
  match acts with
  | [] => Some s
  | a :: acts =>
      if act_okb a s then match sys_do a s with Next s' => sys_run acts s' | _ => None end else None
  end.

Lemma fresh_in_spec {V} (m : gmap Z V) km a : fresh_in m km = true -> km = Some a -> m !! a = None /\ 0 < a < 2 ^ 64.
Proof. intros Hf ->. simpl in Hf. bprop. apply bool_decide_eq_true in H1. done. Qed.

Lemma sys_run_rtc acts : forall s s', sys_run acts s = Some s' -> rtc sys_step s s'.
Proof.
  induction acts as [|a acts IH]; intros s s'; simpl; [by intros [= <-]|].
  destruct (act_okb a s) eqn:Hok; [|done]. destruct (sys_do a s) as [| |s1] eqn:Hdo; try done. intros Hr.
  eapply rtc_l; [|by apply IH]. exists a. split; [|done].
  destruct a as [tid []|tid|tid km1 km2|tid|tid km|c]; simpl in *; try done;
    intros x Hx; destruct (fresh_in_spec _ _ x Hok Hx); split; done || lia.
Qed.
End Runs.

Definition demo_msg (n : Z) : ipc_message_t :=
  {| sender_tid := 0; msg_id := n; msg_type := 0; inline_size := 0; inline_data := fun _ => 0; buffer := 0;
     buffer_size := 0 |}.

(** Process 7 holds a write capability for port 1. *)
Definition demo_caps : caps :=
  default caps_boot (cap_run [OpCreate (Some 7) Capability.demo_mem Capability.demo_mem 1 1 2] caps_boot).

Lemma demo_caps_ok : caps_inv demo_caps.
Proof.
  destruct (cap_run_spec [OpCreate (Some 7) Capability.demo_mem Capability.demo_mem 1 1 2] caps_boot caps_boot_inv)
    as (s & E & Hs & _); [simpl; lia|]. unfold demo_caps. by rewrite E.
Qed.

(** The state after a run, from a boot with those capabilities. *)
Definition after (acts : list (action (C := caps))) : sys := default (sys_boot demo_caps) (sys_run acts (sys_boot demo_caps)).

Lemma after_reachable acts : is_Some (sys_run acts (sys_boot demo_caps)) -> reachable (after acts).
Proof.
  intros [s E]. exists demo_caps. split; [apply demo_caps_ok|]. apply (sys_run_rtc acts). unfold after. by rewrite E.
Qed.

(** The actions of a call that no other thread interrupts. *)
Definition run_create (tid : Z) (km : option Z) : list (action (C := caps)) := [ACall tid (CCreate km)].
Definition run_send (tid : Z) (proc : option Z) (pid : Z) (m : ipc_message_t) (km1 km2 : option Z)
  : list (action (C := caps)) := [ACall tid (CSend proc pid (Some m)); ACheck tid; ALock tid km1 km2].
Definition run_receive (tid : Z) (proc : option Z) (pid : Z) (km : option Z) : list (action (C := caps)) :=
  [ACall tid (CReceive proc pid false); ACheck tid; ALock tid km None].
Definition run_try (tid pid : Z) : list (action (C := caps)) := [ACall tid (CTry pid false); ALock tid None None].

(** The owner, thread 1, receives; before it blocks, thread 2 sends. *)
Definition lost_wakeup_run : list (action (C := caps)) :=
  run_create 1 (Some 1000) ++ run_receive 1 None 1 (Some 1) ++
  run_send 2 (Some 7) 1 (demo_msg 5) None (Some 2000) ++ [ABlock 1].

(** The owner fills the queue, thread 3 blocks sending, a slot opens and is taken
    by the owner before thread 3 runs. *)
Definition overshoot_run : list (action (C := caps)) :=
  run_create 1 (Some 1000) ++
  concat ((fun i => run_send 1 None 1 (demo_msg i) None (Some (2000 + i))) <$> seqZ 0 32) ++
  run_send 3 (Some 7) 1 (demo_msg 99) (Some 1) None ++ [ABlock 3] ++
  run_try 1 1 ++ run_send 1 None 1 (demo_msg 40) None (Some 3000) ++ [AResume 3 (Some 3001)].

(** Thread 1 blocks receiving on its port; another thread destroys the port. *)
Definition destroy_run : list (action (C := caps)) :=
  run_create 1 (Some 1000) ++ run_receive 1 None 1 (Some 1) ++ [ABlock 1; ACall 9 (CDestroy 1)].

(** Thread 2 has looked the port up and is allowed to send; before it takes the
    port lock, another thread destroys the port. *)
Definition window_run : list (action (C := caps)) :=
  run_create 1 (Some 1000) ++ [ACall 2 (CSend (Some 7) 1 (Some (demo_msg 5))); ACheck 2; ACall 9 (CDestroy 1)].

(** * Properties *)

Section Properties.
Context {C : Type} `{CapSystem C}.

(** C1. Threads interleave between the stages of their calls: the port lookup
    under the table lock, the capability test with no lock held, the critical
    section of the port lock, the block and the resumption.  In every reachable
    state the port table and the linked queues are well formed (each queue a
    null-terminated list of distinct live nodes with the right tail and length, no
    node shared between ports, table entries exactly the live ports).  A stage
    dereferences a null or freed object only where the thread's own port has been
    destroyed since its lookup; in runs that destroy no port while a thread in the
    middle of a call holds its pointer, no stage of any call does, resumed calls
    included. *)
Theorem ipc_reachable_safe (s : sys (C := C)) (a : action (C := C)) (Hr : reachable s) (Ha : act_ok a s) :
  ipc_inv (kipc s) /\ (sys_do a s = Crash -> dangling a s) /\ (calmly_reachable s -> sys_do a s <> Crash).
Proof.
  pose proof (reachable_inv s Hr) as Hs. split_and!; [apply Hs| |].
  - intros E. pose proof (sys_do_cases a s Hs Ha) as Hx. by rewrite E in Hx.
  - intros [Hi Hl]%calmly_reachable_live. by apply calm_no_crash.
Qed.

(** C34. Queues are first-in first-out and independent: on a reachable state a
    send that returns 0 appends to the port's queue exactly the message, stamped
    with the sending thread's id, and wakes the most recent waiting receiver; a
    receive or try-receive that returns 0 delivers and removes the oldest
    message; no other port's queue changes; a call that fails or parks changes no
    queue. *)
Theorem ipc_queue_fifo (s : sys (C := C)) (tid : Z) (proc : option Z) (pid : Z) (m : ipc_message_t)
  (km1 km2 : option Z) (Hr : reachable s) (Hkm : fresh_node (kipc s) km2) :
  let k := kipc s in
  let ptr := port_table k pid in
  (match ipc_send k (kcaps s) tid proc pid (Some m) km1 km2 with
   | Fault => False
   | Done rc woken _ k' =>
       (rc = -1 /\ k' = k) \/
       exists p q, rc = 0 /\ ports k !! ptr = Some p /\ queue_of k ptr = Some q /\
         woken = take 1 (waiting_receivers p) /\ only_queue k k' ptr (q ++ [stamp tid m])
   | Park _ k' => forall ptr', queue_of k' ptr' = queue_of k ptr'
   end) /\
  (forall o, o = ipc_receive k (kcaps s) tid proc pid false km1 \/
             (o = ipc_try_receive k pid false /\ pid < MAX_PORTS /\ ptr <> 0) ->
   match o with
   | Fault => False
   | Done rc woken out k' =>
       (rc = -1 /\ k' = k) \/
       exists p m' q, rc = 0 /\ ports k !! ptr = Some p /\ queue_of k ptr = Some (m' :: q) /\
         out = Some m' /\ woken = take 1 (waiting_senders p) /\ only_queue k k' ptr q
   | Park _ k' => queue_of k ptr = Some [] /\ forall ptr', queue_of k' ptr' = queue_of k ptr'
   end).
Proof.
  cbv zeta. destruct (reachable_inv s Hr) as [Hi Hc]. split.
  - destruct (send_spec (kipc s) (kcaps s) tid proc pid m km1 km2 Hi Hc Hkm)
      as [->|(p & q & _ & Hp & Hq & _ & Hx)]; [by left|].
    destruct (_ <=? _); destruct Hx as (k' & -> & Hk); [apply Hk|]. right. exists p, q. done.
  - intros o [->|(-> & Hpid & Hptr)].
    + destruct (receive_spec (kipc s) (kcaps s) tid proc pid false km1 Hi Hc)
        as [->|(p & q & _ & Hp & Hq & _ & Hx)]; [by left|].
      destruct q as [|m' q]; destruct Hx as (k' & -> & Hk); [split; [done|apply Hk]|]. right. exists p, m', q. done.
    + destruct (try_receive_spec (kipc s) pid Hi Hpid Hptr) as (p & q & Hp & Hq & Hx).
      destruct q as [|m' q]; [rewrite Hx; by left|]. destruct Hx as (k' & -> & Hk). right. exists p, m', q. done.
Qed.

(** C35. Access control: [ipc_send] and [ipc_receive] have an effect only for a
    caller that the capability system allows (or, without any capability for the
    port, for its owner); [ipc_try_receive] asks nobody: on any port with a
    queued message it hands that message to any caller. *)
Theorem ipc_access_control (s : sys (C := C)) (tid : Z) (proc : option Z) (pid : Z) (m : ipc_message_t)
  (km1 km2 : option Z) (p : ipc_port_internal_t)
  (Hr : reachable s) (Hpid : pid < MAX_PORTS) (Hp : ports (kipc s) !! port_table (kipc s) pid = Some p)
  (Hkm : fresh_node (kipc s) km2) :
  (ipc_send (kipc s) (kcaps s) tid proc pid (Some m) km1 km2 <> Done (-1) [] None (kipc s) ->
     may (kcaps s) tid proc pid CAP_RIGHT_WRITE p) /\
  (ipc_receive (kipc s) (kcaps s) tid proc pid false km1 <> Done (-1) [] None (kipc s) ->
     may (kcaps s) tid proc pid CAP_RIGHT_READ p) /\
  (queue_size p <> 0 -> exists woken m' k', ipc_try_receive (kipc s) pid false = Done 0 woken (Some m') k').
Proof.
  destruct (reachable_inv s Hr) as [Hi Hc]. split_and!.
  - destruct (send_spec (kipc s) (kcaps s) tid proc pid m km1 km2 Hi Hc Hkm)
      as [E|(p' & q & _ & Hp' & _ & Hm & _)]; [by rewrite E|]. intros _. congruence.
  - destruct (receive_spec (kipc s) (kcaps s) tid proc pid false km1 Hi Hc)
      as [E|(p' & q & _ & Hp' & _ & Hm & _)]; [by rewrite E|]. intros _. congruence.
  - intros Hsz. assert (Hptr : port_table (kipc s) pid <> 0).
    { destruct Hi as [A Hi]. by destruct (ii_live _ _ Hi _ _ Hp). }
    destruct (try_receive_spec (kipc s) pid Hi Hpid Hptr) as (p' & q & Hp' & Hq & Hx).
    assert (p' = p) as -> by congruence. pose proof (queue_empty _ _ _ _ Hi Hp Hq) as Hl.
    destruct q as [|m' q]; [simpl in Hl; lia|]. destruct Hx as (k' & -> & _). eauto.
Qed.
End Properties.

(** Lost wake-up: [ipc_receive] releases the port lock before it blocks, and
    a send in that window removes it from the waiting list while
    [thread_unblock] ignores a thread that is not blocked yet; the receiver then
    sleeps for ever, whatever happens next, with its message in the queue. *)
Theorem ipc_receive_lost_wakeup :
  let s := after lost_wakeup_run in
  reachable s /\ queue_of (kipc s) 1000 = Some [stamp 2 (demo_msg 5)] /\
  forall s', rtc sys_step s s' -> threads s' !! 1 = Some (Blocked (PReceive 1000)).
Proof.
  cbv zeta. split_and!.
  - apply after_reachable. vm_compute. eauto.
  - reflexivity.
  - intros s' Hr. eapply (stuck_forever 1 (PReceive 1000)) in Hr; [apply Hr|].
    split; [reflexivity|]. intros ptr p Hp.
    assert (Hptr : ptr = 1000).
    { destruct (decide (ptr = 1000)); [done|]. exfalso.
      assert (Hd : dom (ports (kipc (after lost_wakeup_run))) = {[1000]}) by (vm_compute; reflexivity).
      apply elem_of_dom_2 in Hp. rewrite Hd in Hp. by apply elem_of_singleton in Hp. }
    subst ptr. vm_compute in Hp. injection Hp as <-. split; apply not_elem_of_nil.
Qed.

(** The bound on a queue is not kept: [ipc_send] tests for a full queue once,
    before it blocks, and not again after, so that a slot taken in between
    leaves 33 messages in a queue of at most 32. *)
Theorem ipc_queue_overshoot :
  let s := after overshoot_run in
  reachable s /\ exists p q, ports (kipc s) !! 1000 = Some p /\ queue_of (kipc s) 1000 = Some q /\
    queue_max p = 32 /\ length q = 33%nat.
Proof.
  cbv zeta. split; [apply after_reachable; vm_compute; eauto|]. eexists _, _.
  split_and!; [vm_compute; reflexivity|vm_compute; reflexivity|reflexivity|reflexivity].
Qed.

(** Use after free: [ipc_destroy_port], which any thread may call, frees a port
    that other threads still point to.  A thread that is blocked on it is woken
    and dereferences the freed port when it resumes; so does a thread that has
    looked the port up and passed the capability test, but not yet taken the port
    lock. *)
Theorem ipc_destroy_use_after_free (km1 km2 : option Z) :
  (reachable (after destroy_run) /\ sys_do (AResume 1 km2) (after destroy_run) = Crash) /\
  (reachable (after window_run) /\ sys_do (ALock 2 km1 km2) (after window_run) = Crash).
Proof. split; (split; [apply after_reachable; vm_compute; eauto|reflexivity]). Qed.

(** ** Witnesses *)

Lemma ipc_reachable_safe_witness :
  ipc_inv (kipc (after window_run)) /\ dangling (ALock 2 None (Some 2000)) (after window_run) /\
  sys_do (ACheck 2) (after (take 2 window_run)) <> Crash.
Proof.
  destruct (ipc_reachable_safe (after window_run) (ALock 2 None (Some 2000))) as (Hi & Hd & _).
  { apply after_reachable. vm_compute. eauto. }
  { intros a [= <-]. split; [vm_compute; reflexivity|lia]. }
  split_and!; [exact Hi|apply Hd; reflexivity|].
  apply (ipc_reachable_safe (after (take 2 window_run)) (ACheck 2)); [|exact I|].
  - apply after_reachable. vm_compute. eauto.
  - exists demo_caps. split; [apply demo_caps_ok|].
    eapply rtc_l; [exists (ACall 1 (CCreate (Some 1000)))|
      apply rtc_once; exists (ACall 2 (CSend (Some 7) 1 (Some (demo_msg 5))))].
    + split; [intros a [= <-]; split; [vm_compute; reflexivity|lia]|split; [exact I|reflexivity]].
    + split; [exact I|split; [exact I|reflexivity]].
Defined.

Lemma ipc_queue_fifo_witness :
  exists k', ipc_send (kipc (after lost_wakeup_run)) (kcaps (after lost_wakeup_run)) 2 (Some 7) 1 (Some (demo_msg 6))
               None (Some 2001) = Done 0 [] None k' /\
    only_queue (kipc (after lost_wakeup_run)) k' 1000 [stamp 2 (demo_msg 5); stamp 2 (demo_msg 6)].
Proof.
  assert (Hf : fresh_node (kipc (after lost_wakeup_run)) (Some 2001)).
  { intros a [= <-]. split; [vm_compute; reflexivity|lia]. }
  pose proof (proj1 (ipc_queue_fifo (after lost_wakeup_run) 2 (Some 7) 1 (demo_msg 6) None (Some 2001)
                (after_reachable lost_wakeup_run ltac:(vm_compute; eauto)) Hf)) as H.
  eexists. split; [reflexivity|]. destruct H as [[Hbad _]|(p & q & _ & Hp & Hq & _ & Ho)]; [discriminate Hbad|].
  vm_compute in Hq. injection Hq as <-. exact Ho.
Defined.

Lemma ipc_access_control_witness :
  exists woken m' k', ipc_try_receive (kipc (after lost_wakeup_run)) 1 false = Done 0 woken (Some m') k'.
Proof.
  assert (Hf : fresh_node (kipc (after lost_wakeup_run)) None) by (intros a Ha; discriminate).
  eapply (ipc_access_control (after lost_wakeup_run) 4 (Some 8) 1 (demo_msg 6) None None _
            (after_reachable lost_wakeup_run ltac:(vm_compute; eauto)));
    [reflexivity|vm_compute; reflexivity|exact Hf|vm_compute; discriminate].
Defined.
