(* ===== verification/Sync.v ===== *)
(** * Locks (kernel/sync/spinlock.c, mutex.c, semaphore.c, rwlock.c)

    The spinlock and the mutex are modelled at the grain of one access to the
    shared lock word: a thread's state is its position in the code, and a step is
    one thread's next access.  The exchange instruction is one atomic step, and
    memory is sequentially consistent: the barriers have no effect of their own.
    On top of the spinlock's exclusion, the semaphore and the read-write lock are
    modelled with each locked section as one step.

    A null lock pointer ([None]) is a no-op for every function, as in the code. *)

From stdpp Require Import base tactics list numbers option gmap fin_maps relations.
From Stdlib Require Import Lia.
From S2P Require Import Prelude.

(** ** Spinlock *)

Record spinlock_t := { sl_locked : Z; cpu_id : Z }.

Definition spinlock_init (l : option spinlock_t) : option spinlock_t :=
  (fun _ => {| sl_locked := 0; cpu_id := 0 |}) <$> l.

(** The old value, and the memory after the exchange. *)
Definition xchg (mem value : Z) : Z * Z := (mem, value).

(** One round of the loop of [spinlock_lock]: the exchange, and on success the
    debugging field; [None] means spin on. *)
Definition spin_round (l : spinlock_t) (cpu : Z) : option spinlock_t :=
  let (old, new) := xchg (sl_locked l) 1 in
  if negb (old =? 0) then None else Some {| sl_locked := new; cpu_id := cpu |}.

Definition spin_release : spinlock_t := {| sl_locked := 0; cpu_id := 0 |}.
Definition spinlock_unlock (l : option spinlock_t) : option spinlock_t := (fun _ => spin_release) <$> l.

Definition spinlock_trylock (l : option spinlock_t) (cpu : Z) : bool * option spinlock_t :=
  match l with
  | None => (false, None)
  | Some l =>
      let (old, new) := xchg (sl_locked l) 1 in
      if old =? 0 then (true, Some {| sl_locked := new; cpu_id := cpu |})
      else (false, Some {| sl_locked := new; cpu_id := cpu_id l |})
  end.

Definition spinlock_is_locked (l : option spinlock_t) : bool :=
  match l with None => false | Some l => negb (sl_locked l =? 0) end.

Definition atomic_add (mem value : Z) : Z * Z := let v := u32 (mem + value) in (v, v).
Definition atomic_sub (mem value : Z) : Z * Z := let v := u32 (mem - value) in (v, v).
Definition atomic_inc (mem : Z) : Z * Z := atomic_add mem 1.
Definition atomic_dec (mem : Z) : Z * Z := atomic_sub mem 1.
Definition atomic_exchange (mem value : Z) : Z * Z := (mem, value).
Definition atomic_compare_exchange (mem expected desired : Z) : bool * Z :=
  if mem =? expected then (true, desired) else (false, mem).

(** ** Mutex *)

Record mutex_t := { m_lock : spinlock_t; m_locked : bool; owner_tid : Z; wait_count : Z }.

Definition mutex_init (m : option mutex_t) : option mutex_t :=
  (fun _ => {| m_lock := spin_release; m_locked := false; owner_tid := 0; wait_count := 0 |}) <$> m.

Definition set_lock (m : mutex_t) (l : spinlock_t) : mutex_t :=
  {| m_lock := l; m_locked := m_locked m; owner_tid := owner_tid m; wait_count := wait_count m |}.
Definition add_wait (m : mutex_t) (d : Z) : mutex_t :=
  {| m_lock := m_lock m; m_locked := m_locked m; owner_tid := owner_tid m; wait_count := u32 (wait_count m + d) |}.

(** The locked sections.  [lock_section] is [None] when the mutex is held: the
    caller goes on to wait. *)
Definition lock_section (m : mutex_t) (tid : Z) : option mutex_t :=
  if negb (m_locked m) then
    Some {| m_lock := m_lock m; m_locked := true; owner_tid := tid; wait_count := wait_count m |}
  else None.

Definition unlock_section (m : mutex_t) (tid : Z) : mutex_t :=
  if negb (m_locked m) then m
  else if negb (owner_tid m =? tid) then m
  else {| m_lock := m_lock m; m_locked := false; owner_tid := 0; wait_count := wait_count m |}.

Definition mutex_is_locked (m : option mutex_t) : bool := match m with None => false | Some m => m_locked m end.

(** Positions of a thread in [mutex_lock] (L), [mutex_unlock] (U) and
    [mutex_trylock] (T): spinning for the internal lock, inside the locked
    section, and about to release it. *)
Inductive pcode :=
  | Idle
  | LSpin | LBody | LGot | LWait | LYield | LWake | LWakeRel
  | USpin | UBody | URel
  | TSpin | TBody | TRel.

#[global] Instance pcode_eq_dec : EqDecision pcode.
Proof. solve_decision. Defined.

(** Where a thread is, and whether it holds the mutex: set when [mutex_lock] or
    [mutex_trylock] takes it, cleared when its [mutex_unlock] gives it up. *)
Record tstate := { pc : pcode; held : bool }.

(** The thread's next access; a thread that is in no call starts the one given.  Thread
    ids are counted from 1 and stay below 2^32, so the 32-bit field [owner_tid] holds
    them as they are. *)
Definition mutex_step (tid cpu : Z) (start : pcode) (m : mutex_t) (t : tstate) : mutex_t * tstate :=
  let goto c := {| pc := c; held := held t |} in
  let spin c c' :=
    match spin_round (m_lock m) cpu with Some l => (set_lock m l, goto c') | None => (m, goto c) end in
  let release c := (set_lock m spin_release, goto c) in
  match pc t with
  | Idle => (m, goto match start with LSpin | USpin | TSpin => start | _ => Idle end)
  | LSpin => spin LSpin LBody
  | LBody =>
      match lock_section m tid with
      | Some m' => (m', {| pc := LGot; held := true |})
      | None => (add_wait m 1, goto LWait)
      end
  | LGot => release Idle
  | LWait => release LYield
  | LYield => spin LYield LWake
  | LWake => (add_wait m (-1), goto LWakeRel)
  | LWakeRel => release LSpin
  | USpin => spin USpin UBody
  | UBody =>
      let m' := unlock_section m tid in
      (m', {| pc := URel; held := held t && m_locked m' |})
  | URel => release Idle
  | TSpin => spin TSpin TBody
  | TBody =>
      match lock_section m tid with
      | Some m' => (m', {| pc := TRel; held := true |})
      | None => (m, goto TRel)
      end
  | TRel => release Idle
  end.

Record mutex_sys := { mtx : mutex_t; ts : Z -> tstate }.

Inductive mutex_sys_step : mutex_sys -> mutex_sys -> Prop :=
  | mss tid cpu start s :
      mutex_sys_step s
        {| mtx := fst (mutex_step tid cpu start (mtx s) (ts s tid));
           ts := (ts s).[tid <- snd (mutex_step tid cpu start (mtx s) (ts s tid))] |}.

Definition mutex_boot : mutex_sys :=
  {| mtx := {| m_lock := spin_release; m_locked := false; owner_tid := 0; wait_count := 0 |};
     ts := fun _ => {| pc := Idle; held := false |} |}.

(** Positions at which the thread owns the internal spinlock. *)
Definition in_section (c : pcode) : bool :=
  match c with
  | LBody | LGot | LWait | LWake | LWakeRel | UBody | URel | TBody | TRel => true
  | Idle | LSpin | LYield | USpin | TSpin => false
  end.

Record mutex_inv (s : mutex_sys) : Prop := {
  mi_word : sl_locked (m_lock (mtx s)) = 0 \/ sl_locked (m_lock (mtx s)) = 1;
  mi_free : sl_locked (m_lock (mtx s)) = 0 -> forall t, in_section (pc (ts s t)) = false;
  mi_section : forall t u, in_section (pc (ts s t)) = true -> in_section (pc (ts s u)) = true -> t = u;
  mi_owner : forall t, held (ts s t) = true -> m_locked (mtx s) = true /\ owner_tid (mtx s) = t;
  mi_held : m_locked (mtx s) = true -> held (ts s (owner_tid (mtx s))) = true
}.

(** * Exclusion for the spinlock and the mutex *)

(** The three things a step can do to the internal lock, and to the mutex. *)
Definition word_ok (s : mutex_sys) (tid : Z) (m : mutex_t) (t : tstate) : Prop :=
  (sl_locked (m_lock m) = sl_locked (m_lock (mtx s)) /\ in_section (pc t) = in_section (pc (ts s tid))) \/
  (sl_locked (m_lock (mtx s)) = 0 /\ sl_locked (m_lock m) = 1 /\ in_section (pc t) = true) \/
  (in_section (pc (ts s tid)) = true /\ sl_locked (m_lock m) = 0 /\ in_section (pc t) = false).

Definition owner_ok (s : mutex_sys) (tid : Z) (m : mutex_t) (t : tstate) : Prop :=
  (m_locked m = m_locked (mtx s) /\ owner_tid m = owner_tid (mtx s) /\ held t = held (ts s tid)) \/
  (m_locked (mtx s) = false /\ m_locked m = true /\ owner_tid m = tid /\ held t = true) \/
  (held (ts s tid) = true /\ m_locked m = false /\ held t = false).

Lemma mutex_upd_inv s tid m t :
  mutex_inv s -> word_ok s tid m t -> owner_ok s tid m t -> mutex_inv {| mtx := m; ts := (ts s).[tid <- t] |}.
Proof.
  intros [Hw Hf Hs Ho Hh] Hword Hown. split; simpl.
  - destruct Hword as [[-> _]|[(_ & -> & _)|(_ & -> & _)]]; auto.
  - intros H0 u. unfold aset. destruct (Z.eqb_spec u tid) as [->|Hu].
    + destruct Hword as [[E ->]|[(_ & E & _)|(_ & _ & E)]]; [apply Hf; congruence|congruence|done].
    + destruct Hword as [[E _]|[(_ & E & _)|(Hin & _ & _)]]; [apply Hf; congruence|congruence|].
      destruct (in_section (pc (ts s u))) eqn:E; [|done]. by pose proof (Hs _ _ E Hin).
  - intros u v. unfold aset. destruct (Z.eqb_spec u tid) as [->|Hu], (Z.eqb_spec v tid) as [->|Hv]; try done.
    + intros Ht Hv'. destruct Hword as [[_ E]|[(E & _ & _)|(_ & _ & E)]]; [rewrite E in Ht; by apply Hs| |congruence].
      by rewrite (Hf E) in Hv'.
    + intros Hu' Ht. destruct Hword as [[_ E]|[(E & _ & _)|(_ & _ & E)]]; [rewrite E in Ht; by apply Hs| |congruence].
      by rewrite (Hf E) in Hu'.
    + apply Hs.
  - intros u. unfold aset. destruct (Z.eqb_spec u tid) as [->|Hu]; intros Hu'.
    + destruct Hown as [(-> & -> & E)|[(_ & -> & -> & _)|(_ & _ & E)]]; [apply Ho; congruence|done|congruence].
    + destruct (Ho u Hu') as [Hl Hid]. destruct Hown as [(-> & -> & _)|[(E & _)|(E & _)]]; [done|congruence|].
      destruct (Ho tid E). congruence.
  - unfold aset. destruct Hown as [(-> & -> & E)|[(_ & _ & -> & E)|(_ & -> & _)]]; [|by rewrite Z.eqb_refl|done].
    intros Hl. destruct (Z.eqb_spec (owner_tid (mtx s)) tid) as [<-|]; [|by apply Hh]. rewrite E. by apply Hh.
Qed.

Lemma spin_round_spec l cpu :
  match spin_round l cpu with
  | Some l' => sl_locked l = 0 /\ sl_locked l' = 1
  | None => sl_locked l <> 0
  end.
Proof. unfold spin_round, xchg. destruct (Z.eqb_spec (sl_locked l) 0); done. Qed.

Lemma mutex_step_ok s tid cpu start :
  mutex_inv s ->
  let r := mutex_step tid cpu start (mtx s) (ts s tid) in
  word_ok s tid (fst r) (snd r) /\ owner_ok s tid (fst r) (snd r).
Proof.
  intros Hs. unfold mutex_step, word_ok, owner_ok. pose proof (spin_round_spec (m_lock (mtx s)) cpu) as Hspin.
  destruct (pc (ts s tid)) eqn:Epc; cbn zeta; try match goal with |- context [spin_round ?l ?c] => destruct (spin_round l c) end; simpl;
    try (split; [|by left]; first [by left|right; left; destruct Hspin; done|by right; right]).
  - split; [|by left]. left. split; [done|]. by destruct start.
  - unfold lock_section. destruct (m_locked (mtx s)) eqn:Em; simpl; (split; [by left|]); [by left|by right; left].
  - unfold unlock_section. destruct (m_locked (mtx s)) eqn:Em; simpl.
    + destruct (Z.eqb_spec (owner_tid (mtx s)) tid) as [Eo|Eo]; simpl; (split; [by left|]).
      * right; right. split_and!; [|done|by rewrite andb_false_r]. rewrite <- Eo. by apply (mi_held s Hs).
      * left. rewrite Em, andb_true_r. done.
    + split; [by left|]. left. rewrite Em, andb_false_r. split_and!; try done.
      destruct (held (ts s tid)) eqn:Eh; [|done]. apply (mi_owner s Hs) in Eh as [? _]. congruence.
  - unfold lock_section. destruct (m_locked (mtx s)) eqn:Em; simpl; (split; [by left|]); [by left|by right; left].
Qed.

Lemma mutex_boot_inv : mutex_inv mutex_boot.
Proof. split; simpl; auto; done. Qed.

Lemma mutex_reach_inv s : rtc mutex_sys_step mutex_boot s -> mutex_inv s.
Proof.
  revert s. apply (rtc_ind_r _ mutex_boot); [apply mutex_boot_inv|].
  intros s s' _ Hstep Hinv. destruct Hstep as [tid cpu start s]. destruct (mutex_step_ok s tid cpu start Hinv).
  by apply mutex_upd_inv.
Qed.

(** * Sets of threads *)

Lemma size_add (X : gset Z) t : t ∉ X -> size ({[t]} ∪ X) = S (size X).
Proof. intros H. rewrite size_union by set_solver. by rewrite size_singleton. Qed.

Lemma size_del (X : gset Z) t : t ∈ X -> size X = S (size (X ∖ {[t]})).
Proof.
  intros H. rewrite (union_difference_singleton_L t X H) at 1. rewrite size_union by set_solver.
  by rewrite size_singleton.
Qed.

(** * Semaphore *)

Record semaphore_t := { count : Z; max_count : Z; s_wait_count : Z }.

Definition semaphore_init (s : option semaphore_t) (initial_count maximum : Z) : option semaphore_t :=
  (fun _ => {| count := initial_count; max_count := maximum; s_wait_count := 0 |}) <$> s.

(** The first locked section of a round of [semaphore_wait]: acquired, or
    registered as waiting; and the section after the yield. *)
Definition wait_section (s : semaphore_t) : bool * semaphore_t :=
  if 0 <? count s then (true, {| count := u32 (count s - 1); max_count := max_count s; s_wait_count := s_wait_count s |})
  else (false, {| count := count s; max_count := max_count s; s_wait_count := u32 (s_wait_count s + 1) |}).

Definition wake_section (s : semaphore_t) : semaphore_t :=
  {| count := count s; max_count := max_count s; s_wait_count := u32 (s_wait_count s - 1) |}.

Definition semaphore_signal (s : option semaphore_t) : option semaphore_t :=
  (fun s => if count s <? max_count s
            then {| count := u32 (count s + 1); max_count := max_count s; s_wait_count := s_wait_count s |}
            else s) <$> s.

Definition semaphore_trywait (s : option semaphore_t) : bool * option semaphore_t :=
  match s with
  | None => (false, None)
  | Some s =>
      if 0 <? count s
      then (true, Some {| count := u32 (count s - 1); max_count := max_count s; s_wait_count := s_wait_count s |})
      else (false, Some s)
  end.

Definition semaphore_get_count (s : option semaphore_t) : Z := match s with None => 0 | Some s => count s end.

(** Threads of [tids] use one semaphore; [waiting] are those between the two
    sections of a round; [acquired] and [signalled] count the successful waits
    and the signals that raised the count. *)
Record sem_sys := { sem : semaphore_t; waiting : gset Z; acquired : Z; signalled : Z }.

Inductive sem_step (tids : gset Z) : sem_sys -> sem_sys -> Prop :=
  | sem_wait_got s t m :
      t ∈ tids -> t ∉ waiting s -> wait_section (sem s) = (true, m) ->
      sem_step tids s {| sem := m; waiting := waiting s; acquired := acquired s + 1; signalled := signalled s |}
  | sem_wait_blocked s t m :
      t ∈ tids -> t ∉ waiting s -> wait_section (sem s) = (false, m) ->
      sem_step tids s {| sem := m; waiting := {[t]} ∪ waiting s; acquired := acquired s; signalled := signalled s |}
  | sem_woken s t :
      t ∈ waiting s ->
      sem_step tids s {| sem := wake_section (sem s); waiting := waiting s ∖ {[t]}; acquired := acquired s;
                         signalled := signalled s |}
  | sem_try s b m :
      semaphore_trywait (Some (sem s)) = (b, Some m) ->
      sem_step tids s {| sem := m; waiting := waiting s; acquired := acquired s + Z.b2z b; signalled := signalled s |}
  | sem_signal s m :
      semaphore_signal (Some (sem s)) = Some m ->
      sem_step tids s {| sem := m; waiting := waiting s; acquired := acquired s;
                         signalled := signalled s + (count m - count (sem s)) |}.

Definition sem_start (initial_count maximum : Z) : sem_sys :=
  {| sem := {| count := initial_count; max_count := maximum; s_wait_count := 0 |}; waiting := ∅; acquired := 0;
     signalled := 0 |}.

Record sem_inv (tids : gset Z) (init maximum : Z) (s : sem_sys) : Prop := {
  si_max : max_count (sem s) = maximum;
  si_count : count (sem s) = init + signalled s - acquired s;
  si_bound : 0 <= count (sem s) <= Z.max init maximum;
  si_wait : s_wait_count (sem s) = Z.of_nat (size (waiting s));
  si_tids : waiting s ⊆ tids
}.

Lemma sem_step_inv tids init maximum s s' :
  Z.of_nat (size tids) < 2 ^ 32 -> fits 32 init -> fits 32 maximum ->
  sem_inv tids init maximum s -> sem_step tids s s' -> sem_inv tids init maximum s'.
Proof.
  intros Ht Hi Hm [Hmax Hc Hb Hw Hsub] Hstep.
  assert (Hcap : Z.max init maximum < 2 ^ 32) by (unfold fits in *; lia).
  destruct Hstep as [s t m Ht1 Ht2 E|s t m Ht1 Ht2 E|s t Ht1|s b m E|s m E]; simpl in *.
  - unfold wait_section in E. destruct (Z.ltb_spec 0 (count (sem s))); [|done]. injection E as <-.
    rewrite wrap_small by (unfold fits; lia). split; simpl; done || lia.
  - unfold wait_section in E. destruct (Z.ltb_spec 0 (count (sem s))); [done|]. injection E as <-.
    assert (Hsz : size ({[t]} ∪ waiting s) = S (size (waiting s))).
    { by apply size_add. }
    assert (Hle : (size ({[t]} ∪ waiting s) <= size tids)%nat) by (apply subseteq_size; set_solver).
    rewrite wrap_small by (unfold fits; lia). split; simpl; try done; [lia|set_solver].
  - assert (Hsz : size (waiting s) = S (size (waiting s ∖ {[t]}))).
    { by apply size_del. }
    pose proof (subseteq_size _ _ Hsub). unfold wake_section.
    rewrite wrap_small by (unfold fits; lia). split; simpl; try done; [lia|set_solver].
  - destruct (Z.ltb_spec 0 (count (sem s))); injection E as <- <-; simpl; [|by split; simpl; try done; lia].
    rewrite wrap_small by (unfold fits; lia). split; simpl; done || lia.
  - injection E as <-. destruct (Z.ltb_spec (count (sem s)) (max_count (sem s))); [|split; simpl; done || lia].
    rewrite wrap_small by (unfold fits; lia). split; simpl; done || lia.
Qed.

(** * Read-write lock *)

Record rwlock_t := { readers : Z; writer : bool; waiting_writers : Z }.

Definition rwlock_init (l : option rwlock_t) : option rwlock_t :=
  (fun _ => {| readers := 0; writer := false; waiting_writers := 0 |}) <$> l.

(** [readers] and [waiting_writers] are signed 32-bit counters. *)
Abbreviation i32 := (sext 32).

(** One round of the loop of [rwlock_read_lock]; [None]: go round again. *)
Definition read_round (l : rwlock_t) : option rwlock_t :=
  if writer l || (0 <? waiting_writers l) then None
  else Some {| readers := i32 (readers l + 1); writer := writer l; waiting_writers := waiting_writers l |}.

Definition rwlock_read_unlock (l : option rwlock_t) : option rwlock_t :=
  (fun l => {| readers := i32 (readers l - 1); writer := writer l; waiting_writers := waiting_writers l |}) <$> l.

(** [rwlock_write_lock]: the registration, then rounds of its loop. *)
Definition write_register (l : rwlock_t) : rwlock_t :=
  {| readers := readers l; writer := writer l; waiting_writers := i32 (waiting_writers l + 1) |}.
Definition write_round (l : rwlock_t) : option rwlock_t :=
  if (0 <? readers l) || writer l then None
  else Some {| readers := readers l; writer := true; waiting_writers := i32 (waiting_writers l - 1) |}.

Definition rwlock_write_unlock (l : option rwlock_t) : option rwlock_t :=
  (fun l => {| readers := readers l; writer := false; waiting_writers := waiting_writers l |}) <$> l.

(** Threads of [tids] that read, write, or wait to write. *)
Record rw_sys := { rw : rwlock_t; reading : gset Z; writing : gset Z; queued : gset Z }.

Definition idle (s : rw_sys) (t : Z) : Prop := t ∉ reading s ∪ writing s ∪ queued s.

(** Threads that unlock what they hold and do not lock again meanwhile. *)
Inductive rw_step (tids : gset Z) : rw_sys -> rw_sys -> Prop :=
  | rw_read s t l :
      t ∈ tids -> idle s t -> read_round (rw s) = Some l ->
      rw_step tids s {| rw := l; reading := {[t]} ∪ reading s; writing := writing s; queued := queued s |}
  | rw_read_done s t l :
      t ∈ reading s -> rwlock_read_unlock (Some (rw s)) = Some l ->
      rw_step tids s {| rw := l; reading := reading s ∖ {[t]}; writing := writing s; queued := queued s |}
  | rw_queue s t :
      t ∈ tids -> idle s t ->
      rw_step tids s {| rw := write_register (rw s); reading := reading s; writing := writing s;
                        queued := {[t]} ∪ queued s |}
  | rw_write s t l :
      t ∈ queued s -> write_round (rw s) = Some l ->
      rw_step tids s {| rw := l; reading := reading s; writing := {[t]} ∪ writing s; queued := queued s ∖ {[t]} |}
  | rw_write_done s t l :
      t ∈ writing s -> rwlock_write_unlock (Some (rw s)) = Some l ->
      rw_step tids s {| rw := l; reading := reading s; writing := writing s ∖ {[t]}; queued := queued s |}.

Definition rw_start : rw_sys :=
  {| rw := {| readers := 0; writer := false; waiting_writers := 0 |}; reading := ∅; writing := ∅; queued := ∅ |}.

Record rw_inv (tids : gset Z) (s : rw_sys) : Prop := {
  ri_readers : readers (rw s) = Z.of_nat (size (reading s));
  ri_queued : waiting_writers (rw s) = Z.of_nat (size (queued s));
  ri_writer : writer (rw s) = true <-> writing s <> ∅;
  ri_one : (size (writing s) <= 1)%nat;
  ri_excl : writing s <> ∅ -> reading s = ∅;
  ri_tids : reading s ∪ writing s ∪ queued s ⊆ tids
}.

Lemma i32_small x : - 2 ^ 31 <= x < 2 ^ 31 -> i32 x = x.
Proof.
  intros H. unfold sext, wrap. change (2 ^ (32 - 1)) with (2 ^ 31). destruct (decide (0 <= x)).
  - rewrite Z.mod_small by lia. by if_lia.
  - replace (x mod 2 ^ 32) with (x + 2 ^ 32); [if_lia; lia|].
    rewrite <- (Z.mod_add x 1) by done. rewrite Z.mul_1_l, Z.mod_small; lia.
Qed.

Lemma rw_step_inv tids s s' :
  Z.of_nat (size tids) < 2 ^ 31 -> rw_inv tids s -> rw_step tids s s' -> rw_inv tids s'.
Proof.
  intros Ht [Hr Hq Hw Hone Hex Hsub] Hstep.
  assert (Hlt : forall X, X ⊆ tids -> Z.of_nat (size X) < 2 ^ 31).
  { intros X HX. pose proof (subseteq_size X tids HX). lia. }
  destruct Hstep as [s t l Ht1 Hidle E|s t l Ht1 E|s t Ht1 Hidle|s t l Ht1 E|s t l Ht1 E]; unfold idle in *; simpl in *.
  - unfold read_round in E. destruct (writer (rw s)) eqn:Ew; [done|]. simpl in E.
    destruct (Z.ltb_spec 0 (waiting_writers (rw s))); [done|]. injection E as <-.
    assert (Hnw : writing s = ∅) by (destruct (decide (writing s = ∅)) as [|Hne]; [done|by apply Hw in Hne]).
    pose proof (Hlt ({[t]} ∪ reading s) ltac:(set_solver)) as Hs. rewrite size_add in Hs by set_solver.
    split; simpl; [rewrite i32_small by lia; rewrite size_add by set_solver; lia|done|by rewrite Hnw|done|done|set_solver].
  - injection E as <-. pose proof (size_del _ _ Ht1) as Hs. pose proof (Hlt (reading s) ltac:(set_solver)).
    split; simpl; [rewrite i32_small by lia; lia|done|done|done| |set_solver].
    intros Hne. specialize (Hex Hne). set_solver.
  - pose proof (Hlt ({[t]} ∪ queued s) ltac:(set_solver)) as Hs. rewrite size_add in Hs by set_solver.
    split; simpl; [done|rewrite i32_small by lia; rewrite size_add by set_solver; lia|done|done|done|set_solver].
  - unfold write_round in E. destruct (Z.ltb_spec 0 (readers (rw s))); [done|]. simpl in E.
    destruct (writer (rw s)) eqn:Ew; [done|]. injection E as <-.
    assert (Hnw : writing s = ∅) by (destruct (decide (writing s = ∅)) as [|Hne]; [done|by apply Hw in Hne]).
    assert (Hnr : reading s = ∅) by (apply leibniz_equiv, size_empty_inv; lia).
    pose proof (size_del _ _ Ht1) as Hs. pose proof (Hlt (queued s) ltac:(set_solver)).
    assert (H1 : (size ({[t]} : gset Z) <= 1)%nat) by (by rewrite size_singleton).
    rewrite Hnw, (right_id_L ∅ (∪)).
    split; simpl; [done|rewrite i32_small by lia; lia|set_solver|done|done|set_solver].
  - injection E as <-. pose proof (size_del _ _ Ht1) as Hs.
    assert (Hemp : writing s ∖ {[t]} = ∅) by (apply leibniz_equiv, size_empty_inv; lia).
    rewrite Hemp. split; cbn [rw reading writing queued readers writer waiting_writers];
      [done|done|split; done|rewrite size_empty; lia|done|set_solver].
Qed.

(** * Properties *)

(** C36. Mutual exclusion at the grain of single memory accesses: however the
    threads interleave in [mutex_lock], [mutex_unlock] and [mutex_trylock], at
    most one owns the internal spinlock, at most one holds the mutex, and the
    fields [locked] and [owner_tid] name the holder; in particular an unlock by
    any other thread has no effect on it. *)
Theorem mutex_mutual_exclusion (s : mutex_sys) (t u : Z) (Hr : rtc mutex_sys_step mutex_boot s) :
  (in_section (pc (ts s t)) = true -> in_section (pc (ts s u)) = true -> t = u) /\
  (held (ts s t) = true -> held (ts s u) = true -> t = u) /\
  (held (ts s t) = true <-> m_locked (mtx s) = true /\ owner_tid (mtx s) = t) /\
  (held (ts s t) = true -> t <> u -> unlock_section (mtx s) u = mtx s).
Proof.
  pose proof (mutex_reach_inv s Hr) as Hi.
  assert (Ho : forall x, held (ts s x) = true -> m_locked (mtx s) = true /\ owner_tid (mtx s) = x) by apply Hi.
  split_and!; [apply Hi| | |].
  - intros Ht Hu. apply Ho in Ht as [_ <-]. by apply Ho in Hu as [_ <-].
  - split; [apply Ho|]. intros [Hl <-]. by apply (mi_held s Hi).
  - intros Ht Hne. apply Ho in Ht as [Hl Hid]. unfold unlock_section. rewrite Hl. simpl.
    destruct (Z.eqb_spec (owner_tid (mtx s)) u); [congruence|done].
Qed.

(** The semaphore conserves permits: its count is the initial count plus the
    accepted signals minus the successful waits, never negative and never above
    the larger of the initial and the maximum count, and [wait_count] is the
    number of threads that wait. *)
Theorem semaphore_conserves (tids : gset Z) (init maximum : Z) (s : sem_sys)
  (Ht : Z.of_nat (size tids) < 2 ^ 32) (Hi : fits 32 init) (Hm : fits 32 maximum)
  (Hr : rtc (sem_step tids) (sem_start init maximum) s) :
  count (sem s) = init + signalled s - acquired s /\ 0 <= count (sem s) <= Z.max init maximum /\
  s_wait_count (sem s) = Z.of_nat (size (waiting s)).
Proof.
  assert (Hinv : sem_inv tids init maximum s).
  { revert s Hr. apply (rtc_ind_r _ (sem_start init maximum)).
    - split; simpl; try done; unfold fits in *; lia || apply empty_subseteq.
    - intros s1 s2 _ Hstep Hinv. by eapply sem_step_inv. }
  destruct Hinv. split_and!; done || lia.
Qed.

(** The read-write lock excludes: while a thread writes, no other thread
    reads or writes; [readers] and [waiting_writers] count the threads that read
    and that wait to write; and a waiting writer keeps new readers out. *)
Theorem rwlock_exclusion (tids : gset Z) (s : rw_sys) (t u : Z)
  (Ht : Z.of_nat (size tids) < 2 ^ 31) (Hr : rtc (rw_step tids) rw_start s) :
  (t ∈ writing s -> u ∈ writing s -> t = u) /\ (t ∈ writing s -> u ∉ reading s) /\
  readers (rw s) = Z.of_nat (size (reading s)) /\ waiting_writers (rw s) = Z.of_nat (size (queued s)) /\
  (u ∈ queued s -> read_round (rw s) = None).
Proof.
  assert (Hinv : rw_inv tids s).
  { revert s Hr. apply (rtc_ind_r _ rw_start).
    - split; try done. change (size (∅ : gset Z) <= 1)%nat. rewrite size_empty. lia.
    - intros s1 s2 _ Hstep Hinv. by eapply rw_step_inv. }
  destruct Hinv as [Hrd Hq Hw Hone Hex Hsub]. split_and!; try done.
  - intros H1 H2. destruct (decide (t = u)) as [|Hne]; [done|]. pose proof (size_del _ _ H1).
    pose proof (size_del (writing s ∖ {[t]}) u ltac:(set_solver)). lia.
  - intros H1 H2. rewrite Hex in H2; [by apply not_elem_of_empty in H2|]. set_solver.
  - intros Hu. unfold read_round. pose proof (size_del _ _ Hu). rewrite Hq.
    destruct (Z.ltb_spec 0 (Z.of_nat (size (queued s)))); [|lia]. by rewrite orb_true_r.
Qed.

(** ** Witnesses *)

Definition demo_step (tid : Z) (start : pcode) (s : mutex_sys) : mutex_sys :=
  {| mtx := fst (mutex_step tid 0 start (mtx s) (ts s tid));
     ts := (ts s).[tid <- snd (mutex_step tid 0 start (mtx s) (ts s tid))] |}.

(** Thread 1 takes the mutex, thread 2 finds it locked and registers. *)
Definition demo_mutex : mutex_sys :=
  demo_step 2 Idle (demo_step 2 Idle (demo_step 2 LSpin (demo_step 1 Idle (demo_step 1 Idle
    (demo_step 1 Idle (demo_step 1 LSpin mutex_boot)))))).

Lemma mutex_mutual_exclusion_witness :
  held (ts demo_mutex 1) = true /\ unlock_section (mtx demo_mutex) 2 = mtx demo_mutex.
Proof.
  split; [vm_compute; reflexivity|].
  apply (mutex_mutual_exclusion demo_mutex 1 2); [|vm_compute; reflexivity|discriminate].
  unfold demo_mutex. do 7 (eapply rtc_r; [|apply mss]). apply rtc_refl.
Defined.

Lemma demo_tids : Z.of_nat (size ({[1; 2]} : gset Z)) < 2 ^ 31.
Proof. rewrite size_union by set_solver. rewrite !size_singleton. lia. Qed.
Lemma demo_tids' : Z.of_nat (size ({[1; 2]} : gset Z)) < 2 ^ 32.
Proof. eapply Z.lt_trans; [apply demo_tids|lia]. Qed.

Lemma semaphore_conserves_witness :
  exists s, rtc (sem_step {[1; 2]}) (sem_start 1 3) s /\ acquired s = 1 /\ count (sem s) = 0.
Proof.
  eexists. assert (Hr : rtc (sem_step {[1; 2]}) (sem_start 1 3)
    {| sem := {| count := 0; max_count := 3; s_wait_count := 0 |}; waiting := ∅; acquired := 0 + 1; signalled := 0 |}).
  { eapply rtc_l; [|apply rtc_refl]. apply (sem_wait_got _ (sem_start 1 3) 1); [set_solver|set_solver|reflexivity]. }
  split; [exact Hr|]. split; [reflexivity|].
  apply (semaphore_conserves {[1; 2]} 1 3 _ demo_tids' ltac:(unfold fits; lia) ltac:(unfold fits; lia) Hr).
Defined.

Lemma rwlock_exclusion_witness :
  exists s, rtc (rw_step {[1; 2]}) rw_start s /\ (1 ∈ writing s) /\ (2 ∉ reading s).
Proof.
  assert (Hr : rtc (rw_step {[1; 2]}) rw_start
    {| rw := {| readers := 0; writer := true; waiting_writers := 0 |}; reading := ∅; writing := {[1]} ∪ ∅;
       queued := ({[1]} ∪ ∅) ∖ {[1]} |}).
  { eapply rtc_l; [apply (rw_queue _ rw_start 1); [set_solver|unfold idle; simpl; set_solver]|].
    eapply rtc_l; [|apply rtc_refl].
    exact (rw_write {[1; 2]} {| rw := write_register (rw rw_start); reading := ∅; writing := ∅; queued := {[1]} ∪ ∅ |} 1
             {| readers := 0; writer := true; waiting_writers := 0 |} ltac:(simpl; set_solver) eq_refl). }
  eexists. split; [exact Hr|]. split; [set_solver|].
  apply (rwlock_exclusion {[1; 2]} _ 1 2 demo_tids Hr). set_solver.
Defined.
