(* ===== verification/Lockfree.v ===== *)
(** * Lock-free structures (kernel/sync/lockfree.c)

    The stack and the queue at the grain of one access to shared memory: a thread's state
    is its position in the code with its local variables, and a step is one thread's next
    access.  A compare-and-swap is one step, and memory is sequentially consistent.
    Nodes live at addresses; [kmalloc] gives any address that is not in use, also one that
    was freed before, or null.  [advance] is [None] where the code follows a pointer to a
    node that was freed.  An operation takes effect at one of its steps, which is labelled
    with an event; the theorems compare the sequence of events with that of a stack and of
    a queue. *)

From stdpp Require Import base tactics list numbers option gmap.
From Stdlib Require Import Lia ZifyBool.
From S2P Require Import Prelude Linked.

#[local] Open Scope Z_scope.

(** [lf_queue_node_t] *)
Record lf_queue_node_t := { data : Z; nnext : Z }.

(** ** Threads on shared memory *)

Section system.
  Context {Mem Pc Ev : Type} (idle : Pc) (advance : Mem -> Pc -> option (option Ev * Mem * Pc)) (start : Z -> Mem -> Mem -> Pc -> Prop).

Record config := { mem : Mem; threads : arr Pc }.

(** Thread [i] starts an operation, or takes its next step. *)
Inductive step : config -> option Ev -> config -> Prop :=
  | step_start i m t m' p : t i = idle -> start i m m' p -> step {| mem := m; threads := t |} None {| mem := m'; threads := t.[i <- p] |}
  | step_run i m t e m' p : t i <> idle -> advance m (t i) = Some (e, m', p) -> step {| mem := m; threads := t |} e {| mem := m'; threads := t.[i <- p] |}.

Inductive trace (c : config) : list Ev -> config -> Prop :=
  | trace_nil : trace c [] c
  | trace_step es c1 e c2 : trace c es c1 -> step c1 e c2 -> trace c (es ++ option_list e) c2.

(** The next step of a thread follows a pointer to freed memory. *)
Definition crashes (c : config) : Prop := exists i, threads c i <> idle /\ advance (mem c) (threads c i) = None.

(** The sequence of events, one after the other, on an abstract state. *)
Fixpoint spec_run {A} (spec : A -> Ev -> option A) (a : A) (es : list Ev) : option A :=
  match es with [] => Some a | e :: es => match spec a e with Some a => spec_run spec a es | None => None end end.

Lemma spec_run_app {A} (spec : A -> Ev -> option A) es1 es2 : forall a, spec_run spec a (es1 ++ es2) = match spec_run spec a es1 with Some a => spec_run spec a es2 | None => None end.
Proof. induction es1 as [|e es1 IH]; intros a; [done|]. cbn [app spec_run]. by destruct (spec a e). Qed.

(** A simulation: every step keeps the relation, and its event is one of the abstract state. *)
Lemma trace_simulation {A} (spec : A -> Ev -> option A) (R : config -> A -> Prop) c a es c' :
  (forall c e c' a, R c a -> step c e c' -> exists a', match e with Some e => spec a e = Some a' | None => a' = a end /\ R c' a') ->
  R c a -> trace c es c' -> exists a', spec_run spec a es = Some a' /\ R c' a'.
Proof.
  intros Hsim Hr. induction 1 as [|es c1 e c2 _ IH Hstep]; [by exists a|]. destruct IH as (a1 & E & H1). destruct (Hsim _ _ _ _ H1 Hstep) as (a2 & E2 & H2). exists a2. split; [|done].
  rewrite spec_run_app, E. destruct e as [e|]; cbn in E2 |- *; by rewrite E2.
Qed.

(** Given moves of the threads, to run examples: a thread begins an operation, or takes
    [n] steps. *)
Section playing.
  Context {Cmd : Type} (is_idle : Pc -> bool) (begins : Z -> Mem -> Cmd -> option (Mem * Pc)).
  Context (is_idle_ok : forall p, is_idle p = true <-> p = idle) (begins_ok : forall i m x m' p, begins i m x = Some (m', p) -> start i m m' p).

Inductive move := Begin (i : Z) (x : Cmd) | Run (i : Z) (n : nat).

Fixpoint run_thread (c : config) (i : Z) (n : nat) : option (list Ev * config) :=
  match n with
  | O => Some ([], c)
  | S n =>
      if is_idle (threads c i) then None
      else
        match advance (mem c) (threads c i) with
        | None => None
        | Some (e, m, p) => match run_thread {| mem := m; threads := (threads c).[i <- p] |} i n with Some (es, c) => Some (option_list e ++ es, c) | None => None end
        end
  end.

Definition perform (c : config) (mv : move) : option (list Ev * config) :=
  match mv with
  | Begin i x => if is_idle (threads c i) then match begins i (mem c) x with Some (m, p) => Some ([], {| mem := m; threads := (threads c).[i <- p] |}) | None => None end else None
  | Run i n => run_thread c i n
  end.

Fixpoint play (c : config) (ms : list move) : option (list Ev * config) :=
  match ms with
  | [] => Some ([], c)
  | mv :: ms => match perform c mv with Some (es, c) => match play c ms with Some (es', c) => Some (es ++ es', c) | None => None end | None => None end
  end.

Lemma run_thread_trace c0 i n : forall c es es' c', trace c0 es c -> run_thread c i n = Some (es', c') -> trace c0 (es ++ es') c'.
Proof.
  induction n as [|n IH]; intros [m t] es es' c' Htr; cbn [run_thread mem threads]; [intros [= <- <-]; by rewrite app_nil_r|].
  destruct (is_idle (t i)) eqn:Hi; [done|]. destruct (advance m (t i)) as [[[e m1] p]|] eqn:Ha; [|done]. destruct (run_thread _ i n) as [[es1 c1]|] eqn:Hr; [|done]. intros [= <- <-]. rewrite app_assoc.
  eapply IH; [|exact Hr]. eapply trace_step; [exact Htr|]. apply step_run; [|done]. intros E. apply is_idle_ok in E. congruence.
Qed.

Lemma play_trace c0 ms : forall c es es' c', trace c0 es c -> play c ms = Some (es', c') -> trace c0 (es ++ es') c'.
Proof.
  induction ms as [|mv ms IH]; intros c es es' c' Htr; cbn [play]; [intros [= <- <-]; by rewrite app_nil_r|]. destruct (perform c mv) as [[es1 c1]|] eqn:Hp; [|done]. destruct (play c1 ms) as [[es2 c2]|] eqn:Hpl; [|done]. intros [= <- <-].
  rewrite app_assoc. eapply IH; [|exact Hpl]. destruct mv as [i x|i n]; cbn [perform] in Hp; [|by eapply run_thread_trace]. destruct c as [m t]; cbn [mem threads] in Hp.
  destruct (is_idle (t i)) eqn:Hi; [|done]. destruct (begins i m x) as [[m1 p]|] eqn:Hb; [|done]. injection Hp as <- <-. apply (trace_step _ _ _ None _ Htr). apply step_start; [by apply is_idle_ok|by eapply begins_ok].
Qed.

End playing.

End system.
Arguments Begin {Cmd} _ _.
Arguments Run {Cmd} _ _.
Arguments mem {Mem Pc} _.
Arguments threads {Mem Pc} _.

(** What the nodes of a list hold. *)
Definition contents (h : gmap Z lf_queue_node_t) (l : list Z) : list Z := (fun p => default 0 (data <$> h !! p)) <$> l.

Lemma nodes_same h h' l : (forall p, p ∈ l -> h' !! p = h !! p) -> contents h' l = contents h l.
Proof. intros H. apply list_fmap_ext. intros i p Hp. by rewrite H by (by eapply list_elem_of_lookup_2). Qed.

(** ** The stack *)

Module Stack.

(** [lf_stack_t], with the nodes. *)
Record lf_stack_t := { heap : gmap Z lf_queue_node_t; top : Z; size : Z }.

Definition lf_stack_init : lf_stack_t := {| heap := ∅; top := 0; size := 0 |}.

Definition set_node (s : lf_stack_t) (p : Z) (x : lf_queue_node_t) : lf_stack_t := {| heap := <[p := x]> (heap s); top := top s; size := size s |}.
Definition free_node (s : lf_stack_t) (p : Z) : lf_stack_t := {| heap := delete p (heap s); top := top s; size := size s |}.
Definition set_top (s : lf_stack_t) (p : Z) : lf_stack_t := {| heap := heap s; top := p; size := size s |}.
Definition add_size (s : lf_stack_t) (n : Z) : lf_stack_t := {| heap := heap s; top := top s; size := u32 (size s + n) |}.

Inductive event := EPush (d : Z) | EPop (d : Z) | EEmpty.

(** Where a thread is: before the load of [top], the store to [node->next], the
    compare-and-swap and the addition to [size] of [lf_stack_push]; and before the load of
    [top], of [old_top->next] and of [old_top->data], the compare-and-swap, the call of
    [kfree] and the subtraction of [lf_stack_pop]. *)
Inductive pc :=
  | Idle
  | PushLoad (node d : Z) | PushLink (node d old_top : Z) | PushCas (node d old_top : Z) | PushCount
  | PopLoad | PopNext (old_top : Z) | PopData (old_top new_top : Z) | PopCas (old_top new_top d : Z) | PopFree (old_top d : Z) | PopCount (d : Z).

Definition advance (s : lf_stack_t) (p : pc) : option (option event * lf_stack_t * pc) :=
  match p with
  | Idle => Some (None, s, Idle)
  | PushLoad n d => Some (None, s, PushLink n d (top s))
  | PushLink n d old => match heap s !! n with Some x => Some (None, set_node s n {| data := data x; nnext := old |}, PushCas n d old) | None => None end
  | PushCas n d old => if top s =? old then Some (Some (EPush d), set_top s n, PushCount) else Some (None, s, PushLoad n d)
  | PushCount => Some (None, add_size s 1, Idle)
  | PopLoad => if top s =? 0 then Some (Some EEmpty, s, Idle) else Some (None, s, PopNext (top s))
  | PopNext old => match heap s !! old with Some x => Some (None, s, PopData old (nnext x)) | None => None end
  | PopData old new => match heap s !! old with Some x => Some (None, s, PopCas old new (data x)) | None => None end
  | PopCas old new d => if top s =? old then Some (Some (EPop d), set_top s new, PopFree old d) else Some (None, s, PopLoad)
  | PopFree old d => match heap s !! old with Some _ => Some (None, free_node s old, PopCount d) | None => None end
  | PopCount d => Some (None, add_size s (-1), Idle)
  end.

(** [lf_stack_push] with data that is not null takes a node, whose [next] is not set yet;
    [lf_stack_pop] starts if [may_pop] lets the thread. *)
Inductive start (may_pop : Z -> bool) (i : Z) (s : lf_stack_t) : lf_stack_t -> pc -> Prop :=
  | start_push n d garbage : d <> 0 -> n <> 0 -> heap s !! n = None -> start may_pop i s (set_node s n {| data := d; nnext := garbage |}) (PushLoad n d)
  | start_push_fails : start may_pop i s s Idle
  | start_pop : may_pop i = true -> start may_pop i s s PopLoad.

Definition lf_stack_is_empty (s : lf_stack_t) : bool := top s =? 0.
Definition lf_stack_size (s : lf_stack_t) : Z := size s.

(** The stack that is meant. *)
Definition spec (a : list Z) (e : event) : option (list Z) :=
  match e with
  | EPush d => Some (d :: a)
  | EPop d => match a with x :: a => if x =? d then Some a else None | [] => None end
  | EEmpty => match a with [] => Some [] | _ => None end
  end.

#[local] Abbreviation config := (config (Mem := lf_stack_t) (Pc := pc)).
#[local] Abbreviation step := (step Idle advance).
#[local] Abbreviation trace := (trace Idle advance).

(** The node that belongs to a thread alone. *)
Definition owned (p : pc) : option Z := match p with PushLoad n _ | PushLink n _ _ | PushCas n _ _ | PopFree n _ => Some n | _ => None end.

Definition popping (p : pc) : bool := match p with PopLoad | PopNext _ | PopData _ _ | PopCas _ _ _ | PopFree _ _ | PopCount _ => true | _ => false end.

(** What a thread knows of the nodes, while only itself pops. *)
Definition pc_ok (h : gmap Z lf_queue_node_t) (l : list Z) (p : pc) : Prop :=
  match p with
  | PushLoad n d | PushLink n d _ => exists g, h !! n = Some {| data := d; nnext := g |}
  | PushCas n d old => h !! n = Some {| data := d; nnext := old |}
  | PopNext old => old ∈ l
  | PopData old new => old ∈ l /\ nnext <$> h !! old = Some new
  | PopCas old new d => old ∈ l /\ h !! old = Some {| data := d; nnext := new |}
  | PopFree n d => is_Some (h !! n)
  | _ => True
  end.

Record inv (c : config) (l : list Z) : Prop := {
  i_list : linked nnext (heap (mem c)) (top (mem c)) l;
  i_role : forall i, popping (threads c i) = true -> i = 0;
  i_own : forall i n, owned (threads c i) = Some n -> (n ∉ l) /\ n <> 0;
  i_distinct : forall i j n, owned (threads c i) = Some n -> owned (threads c j) = Some n -> i = j;
  i_pc : forall i, pc_ok (heap (mem c)) l (threads c i)
}.

Lemma pc_ok_frame h l h' l' p : pc_ok h l p -> (popping p = true -> forall n, n ∈ l -> n ∈ l') -> (forall n, owned p = Some n \/ n ∈ l -> h' !! n = h !! n) -> pc_ok h' l' p.
Proof. destruct p; cbn; intros Hp Hl Hh; try done; try (rewrite Hh by (by left); done); try (by apply Hl); destruct Hp as [Hin Hp]; rewrite Hh by (by right); (split; [by apply Hl|done]). Qed.

Lemma inv_update c l i m' p' l' : inv c l -> linked nnext (heap m') (top m') l' -> (popping p' = true -> i = 0) -> (forall n, owned p' = Some n -> (n ∉ l') /\ n <> 0) ->
  (forall n j, owned p' = Some n -> j <> i -> owned (threads c j) <> Some n) -> (forall j n, j <> i -> owned (threads c j) = Some n -> n ∉ l') -> pc_ok (heap m') l' p' ->
  (forall j, j <> i -> pc_ok (heap m') l' (threads c j)) -> inv {| mem := m'; threads := (threads c).[i <- p'] |} l'.
Proof.
  intros Hi Hl Hrole Hown Hdis Hout Hpc Hothers. split; cbn [mem threads].
  - done.
  - intros j. destruct (decide (j = i)) as [->|Hj]; [by rewrite aset_eq|]. rewrite aset_ne by done. apply (i_role _ _ Hi).
  - intros j n. destruct (decide (j = i)) as [->|Hj]; [rewrite aset_eq; apply Hown|]. rewrite aset_ne by done. intros H. split; [by eapply Hout|by apply (i_own _ _ Hi j)].
  - intros j k n. destruct (decide (j = i)) as [->|Hj], (decide (k = i)) as [->|Hk]; rewrite ?aset_eq, ?aset_ne by done; try done; intros H1 H2; [by edestruct Hdis|by edestruct Hdis|by eapply (i_distinct _ _ Hi)].
  - intros j. destruct (decide (j = i)) as [->|Hj]; [by rewrite aset_eq|]. rewrite aset_ne by done. by apply Hothers.
Qed.

(** A step that changes nothing in memory. *)
Lemma inv_local c l i p' : inv c l -> (popping p' = true -> i = 0) -> (owned p' = owned (threads c i) \/ owned p' = None) -> pc_ok (heap (mem c)) l p' -> inv {| mem := mem c; threads := (threads c).[i <- p'] |} l.
Proof.
  intros Hi Hrole Hown Hpc. apply (inv_update c l); [done|by apply Hi|done| | | |done|intros j _; apply Hi].
  - intros n Hn. destruct Hown as [E|E]; rewrite E in Hn; [by apply (i_own _ _ Hi i)|done].
  - intros n j Hn Hj Hn'. destruct Hown as [E|E]; rewrite E in Hn; [by apply Hj, (i_distinct _ _ Hi j i n)|done].
  - intros j n _ Hn. by apply (i_own _ _ Hi j).
Qed.

(** The relation between the memory and the stack that is meant. *)
Definition represents (c : config) (a : list Z) : Prop := exists l, inv c l /\ a = contents (heap (mem c)) l.

Lemma start_represents c i s' p a : represents c a -> threads c i = Idle -> start (Z.eqb 0) i (mem c) s' p -> represents {| mem := s'; threads := (threads c).[i <- p] |} a.
Proof.
  intros (l & Hi & ->) Hidle Hst. destruct Hst as [n d g Hd Hn Hfree| |Hmay].
  - assert (Hnl : n ∉ l) by (intros Hin; destruct (linked_elem _ _ _ _ _ (i_list _ _ Hi) Hin) as [_ [x Hx]]; congruence).
    assert (Hother : forall j, owned (threads c j) <> Some n).
    { intros j Hj. pose proof (i_pc _ _ Hi j) as Hp. destruct (threads c j); cbn in Hj, Hp; try done; injection Hj as ->; [destruct Hp as [g' Hp]|destruct Hp as [g' Hp]|idtac|destruct Hp as [g' Hp]]; congruence. }
    exists l. split; [|symmetry; apply nodes_same; intros q Hq; cbn [heap mem set_node]; apply lookup_insert_ne; by intros ->].
    apply (inv_update c l); cbn [heap top set_node owned popping pc_ok]; [done|apply linked_insert; [done|apply Hi]|done|by intros m [= <-]|by intros m j [= <-] _|intros j m _ Hm; by apply (i_own _ _ Hi j)|exists g; apply lookup_insert_eq|].
    intros j _. eapply pc_ok_frame; [apply Hi|done|]. intros m Hm. apply lookup_insert_ne. intros ->. destruct Hm as [Hm|Hm]; [by apply (Hother j)|done].
  - exists l. split; [by apply inv_local; [|done|right|]|done].
  - apply Z.eqb_eq in Hmay. exists l. split; [by apply inv_local; [|done|right|]|done].
Qed.

(** The compare-and-swap of a push. *)
Lemma push_represents c l i n d : inv c l -> threads c i = PushCas n d (top (mem c)) ->
  inv {| mem := set_top (mem c) n; threads := (threads c).[i <- PushCount] |} (n :: l) /\ contents (heap (mem c)) (n :: l) = d :: contents (heap (mem c)) l.
Proof.
  intros Hi E. pose proof (i_pc _ _ Hi i) as Hp. rewrite E in Hp. cbn in Hp. destruct (i_own _ _ Hi i n) as [Hn Hn0]; [by rewrite E|]. split; [|cbn; by rewrite Hp].
  apply (inv_update c l); cbn [heap top set_top]; [done| |done|done|done| |done|].
  - cbn [linked]. split; [done|]. split; [done|]. eexists. split; [exact Hp|apply Hi].
  - intros j m Hj Hm. apply not_elem_of_cons. split; [|by apply (i_own _ _ Hi j)]. intros ->. apply Hj, (i_distinct _ _ Hi j i n); [done|by rewrite E].
  - intros j _. eapply pc_ok_frame; [apply Hi|set_solver|done].
Qed.

(** The compare-and-swap of a pop. *)
Lemma pop_represents c l i new d : inv c l -> threads c i = PopCas (top (mem c)) new d ->
  exists l', l = top (mem c) :: l' /\ inv {| mem := set_top (mem c) new; threads := (threads c).[i <- PopFree (top (mem c)) d] |} l' /\ contents (heap (mem c)) l = d :: contents (heap (mem c)) l'.
Proof.
  intros Hi E. pose proof (i_pc _ _ Hi i) as Hp. rewrite E in Hp. cbn in Hp. destruct Hp as [Hin Hp]. pose proof (i_list _ _ Hi) as Hl. pose proof (i_role _ _ Hi i) as Hrole. rewrite E in Hrole. specialize (Hrole eq_refl). subst i.
  destruct l as [|q l']; [by apply not_elem_of_nil in Hin|]. pose proof (linked_NoDup _ _ _ _ Hl) as [Hq _]%NoDup_cons. destruct Hl as (Htop & Hq0 & x & Hx & Hl). rewrite Htop in *. exists l'. split; [done|]. rewrite Hp in Hx. injection Hx as <-. split; [|cbn; by rewrite Hp].
  apply (inv_update c (q :: l')); cbn [heap top set_top owned]; [done|done|done|by intros n [= <-]| | |cbn; by eexists|].
  - intros n j [= <-] Hj Hn. destruct (i_own _ _ Hi j q Hn) as [H _]. set_solver.
  - intros j n Hj Hn. destruct (i_own _ _ Hi j n Hn) as [H _]. set_solver.
  - intros j Hj. eapply pc_ok_frame; [apply Hi| |done]. intros Hpop. by apply (i_role _ _ Hi) in Hpop.
Qed.

Lemma run_represents c i e s' p a : represents c a -> advance (mem c) (threads c i) = Some (e, s', p) ->
  exists a', match e with Some e => spec a e = Some a' | None => a' = a end /\ represents {| mem := s'; threads := (threads c).[i <- p] |} a'.
Proof.
  intros (l & Hi & ->) Hadv. pose proof (i_pc _ _ Hi i) as Hp. pose proof (i_role _ _ Hi i) as Hr.
  destruct (threads c i) as [|n d|n d old|n d old| | |old|old new|old new d|old d|d] eqn:E; cbn [advance pc_ok popping] in *.
  - simplify_eq. eexists. split; [done|]. exists l. split; [apply inv_local; [done|done|by right|done]|done].
  - simplify_eq. eexists. split; [done|]. exists l. split; [apply inv_local; [done|done|left; by rewrite E|done]|done].
  - destruct Hp as [g Hp]. rewrite Hp in Hadv. simplify_eq. eexists. split; [done|]. exists l. destruct (i_own _ _ Hi i n) as [Hn Hn0]; [by rewrite E|].
    split; [|symmetry; apply nodes_same; intros q Hq; cbn [heap mem set_node]; apply lookup_insert_ne; by intros ->].
    apply (inv_update c l); cbn [heap top set_node owned popping pc_ok]; [done|apply linked_insert; [done|apply Hi]|done|by intros m [= <-]| |intros j m _ Hm; by apply (i_own _ _ Hi j)|apply lookup_insert_eq|].
    + intros m j [= <-] Hj Hm. apply Hj, (i_distinct _ _ Hi j i n); [done|by rewrite E].
    + intros j Hj. eapply pc_ok_frame; [apply Hi|done|]. intros m Hm. apply lookup_insert_ne. intros ->. destruct Hm as [Hm|Hm]; [|done]. apply Hj, (i_distinct _ _ Hi j i m); [done|by rewrite E].
  - destruct (Z.eqb_spec (top (mem c)) old) as [<-|Hne]; simplify_eq; (eexists; split; [cbn; reflexivity|]).
    + destruct (push_represents c l i n d Hi E) as [H1 H2]. exists (n :: l). by split; [|rewrite <- H2].
    + exists l. split; [apply inv_local; [done|done|left; by rewrite E|by eexists]|done].
  - simplify_eq. eexists. split; [done|]. exists l. split; [|done]. by apply (inv_local {| mem := add_size (mem c) 1; threads := threads c |}); [destruct Hi; split|done|right|].
  - destruct (Z.eqb_spec (top (mem c)) 0) as [H0|H0]; simplify_eq.
    + eexists. split; [|exists l; split; [by apply inv_local; [done|done|right|]|reflexivity]]. pose proof (i_list _ _ Hi) as Hl. rewrite H0 in Hl. destruct l as [|q l]; [done|]. by destruct Hl as (<- & ? & _).
    + eexists. split; [done|]. exists l. split; [|done]. apply inv_local; [done|done|by right|]. cbn. pose proof (i_list _ _ Hi) as Hl. destruct l as [|q l]; [done|]. destruct Hl as (-> & _). left.
  - destruct (linked_elem _ _ _ _ _ (i_list _ _ Hi) Hp) as [_ [x Hx]]. rewrite Hx in Hadv. simplify_eq. eexists. split; [done|]. exists l. split; [|done]. apply inv_local; [done|done|by right|]. cbn. by rewrite Hx.
  - destruct Hp as [Hin Hp]. destruct (heap (mem c) !! old) as [[xd xn]|] eqn:Hx; [|done]. cbn in Hp. simplify_eq. eexists. split; [done|]. exists l. split; [|done]. by apply inv_local; [done|done|right|].
  - destruct (Z.eqb_spec (top (mem c)) old) as [<-|Hne]; simplify_eq.
    + destruct (pop_represents c l i new d Hi E) as (l' & -> & H1 & H2). exists (contents (heap (mem c)) l'). split; [rewrite H2; cbn; by rewrite Z.eqb_refl|]. by exists l'.
    + eexists. split; [done|]. exists l. split; [|done]. by apply inv_local; [done|done|right|].
  - destruct Hp as [x Hx]. rewrite Hx in Hadv. simplify_eq. eexists. split; [done|]. exists l. destruct (i_own _ _ Hi i old) as [Hn Hn0]; [by rewrite E|].
    split; [|symmetry; apply nodes_same; intros q Hq; cbn [heap mem free_node]; apply lookup_delete_ne; by intros ->].
    apply (inv_update c l); cbn [heap top free_node]; [done|apply linked_delete; [done|apply Hi]|done|done|done|intros j m _ Hm; by apply (i_own _ _ Hi j)|done|].
    intros j Hj. eapply pc_ok_frame; [apply Hi|done|]. intros m Hm. apply lookup_delete_ne. intros ->. destruct Hm as [Hm|Hm]; [|done]. apply Hj, (i_distinct _ _ Hi j i m); [done|by rewrite E].
  - simplify_eq. eexists. split; [done|]. exists l. split; [|done]. by apply (inv_local {| mem := add_size (mem c) (-1); threads := threads c |}); [destruct Hi; split|done|right|].
Qed.

Lemma no_crash c a : represents c a -> ~ crashes Idle advance c.
Proof.
  intros (l & Hi & _) (i & _ & Hadv). pose proof (i_pc _ _ Hi i) as Hp. destruct (threads c i) as [|n d|n d old|n d old| | |old|old new|old new d|old d|d]; cbn [advance pc_ok] in *; try done; try (by destruct (_ =? _)).
  - destruct Hp as [g Hp]. by rewrite Hp in Hadv.
  - destruct (linked_elem _ _ _ _ _ (i_list _ _ Hi) Hp) as [_ [x Hx]]. by rewrite Hx in Hadv.
  - destruct Hp as [_ Hp]. by destruct (heap (mem c) !! old).
  - destruct Hp as [x Hx]. by rewrite Hx in Hadv.
Qed.

(** C15. Many threads push, one pops.  Whatever the interleaving, no thread follows a pointer to
    freed memory, and the operations take effect one after the other on a stack: each pop
    returns what was pushed last and not yet popped, or finds the stack empty. *)
Theorem lf_stack_linearizable es c : trace (start (Z.eqb 0)) {| mem := lf_stack_init; threads := fun _ => Idle |} es c ->
  (exists a, spec_run spec [] es = Some a /\ represents c a) /\ ~ crashes Idle advance c.
Proof.
  intros Htr. assert (H : exists a, spec_run spec [] es = Some a /\ represents c a); [|destruct H as (a & E & Hr); split; [by exists a|by eapply no_crash]].
  refine (trace_simulation _ _ _ spec represents _ [] _ _ _ _ Htr); [|exists []; split; [|done]; by split; cbn; intros]. intros c0 e c1 a Hr Hstep. revert Hr. destruct Hstep as [i m t m' p Hidle Hst|i m t e' m' p Hrun Hadv]; intros Hr.
  - exists a. split; [done|]. exact (start_represents {| mem := m; threads := t |} i m' p a Hr Hidle Hst).
  - exact (run_represents {| mem := m; threads := t |} i e' m' p a Hr Hadv).
Qed.

(** Two threads pop. *)

Inductive command := Push (n d : Z) | Pop.

Definition is_idle (p : pc) : bool := match p with Idle => true | _ => false end.

Definition begins (may_pop : Z -> bool) (i : Z) (s : lf_stack_t) (x : command) : option (lf_stack_t * pc) :=
  match x with
  | Push n d => if (n =? 0) || (d =? 0) || bool_decide (is_Some (heap s !! n)) then None else Some (set_node s n {| data := d; nnext := 0 |}, PushLoad n d)
  | Pop => if may_pop i then Some (s, PopLoad) else None
  end.

Lemma begins_start may i s x s' p : begins may i s x = Some (s', p) -> start may i s s' p.
Proof.
  destruct x as [n d|]; cbn; [|destruct (may i) eqn:Hi; [|done]; intros [= <- <-]; by apply start_pop]. destruct (Z.eqb_spec n 0), (Z.eqb_spec d 0); try done. case_bool_decide as Hn; [done|]. intros [= <- <-].
  apply start_push; [done|done|]. destruct (heap s !! n) eqn:E; [|done]. by destruct Hn.
Qed.

Lemma is_idle_spec p : is_idle p = true <-> p = Idle.
Proof. by destruct p. Qed.

#[local] Abbreviation init := {| mem := lf_stack_init; threads := fun _ => Idle |}.

(** Thread 0 has read [top], and thread 1 pops the node and frees it. *)
Definition pop_freed : list (move (Cmd := command)) := [Begin 1 (Push 1 5); Run 1 4; Begin 0 Pop; Run 0 1; Begin 1 Pop; Run 1 6].

(** Thread 0 is before its compare-and-swap, and thread 1 pops both nodes and pushes a
    value in a node at the address of the first. *)
Definition pop_reused : list (move (Cmd := command)) :=
  [Begin 1 (Push 2 6); Run 1 4; Begin 1 (Push 1 5); Run 1 4; Begin 0 Pop; Run 0 3; Begin 1 Pop; Run 1 6; Begin 1 Pop; Run 1 6; Begin 1 (Push 1 7); Run 1 4; Run 0 1].

Definition final (may_pop : Z -> bool) (ms : list (move (Cmd := command))) : list event * config := default ([], init) (play advance is_idle (begins may_pop) init ms).

Lemma final_trace may ms : trace (start may) init (fst (final may ms)) (snd (final may ms)).
Proof.
  unfold final. destruct (play _ _ _ _ ms) as [[es c]|] eqn:E; cbn [default fst snd]; [|constructor].
  apply (play_trace Idle advance (start may) is_idle (begins may) is_idle_spec (begins_start may) init ms init [] es c); [constructor|done].
Qed.

(** With two threads that pop, a thread can follow a pointer to a node that the other one
    has freed; and when the address of a freed node is used again, a value is popped twice
    and the stack is left with a pointer to freed memory. *)
Theorem lf_stack_two_consumers :
  (exists es c, trace (start (fun i => i <=? 1)) init es c /\ crashes Idle advance c) /\
  (exists es c, trace (start (fun i => i <=? 1)) init es c /\ es = [EPush 6; EPush 5; EPop 5; EPop 6; EPush 7; EPop 5] /\ spec_run spec [] es = None /\ top (mem c) <> 0 /\ heap (mem c) !! top (mem c) = None).
Proof.
  set (may := fun i => i <=? 1). split.
  - exists (fst (final may pop_freed)), (snd (final may pop_freed)). split; [apply final_trace|]. exists 0. split; [intros H%is_idle_spec; by vm_compute in H|by vm_compute].
  - exists (fst (final may pop_reused)), (snd (final may pop_reused)). split; [apply final_trace|]. by vm_compute.
Qed.

(** Thread 1 pushes while thread 0 pops. *)
Definition push_and_pop : list (move (Cmd := command)) := [Begin 1 (Push 2 6); Begin 0 Pop; Run 0 1; Run 1 4; Begin 1 (Push 1 5); Run 1 2; Begin 0 Pop; Run 0 3; Run 1 2; Run 0 1; Run 0 6].

Lemma lf_stack_linearizable_witness : (exists a, spec_run spec [] [EEmpty; EPush 6; EPush 5; EPop 5] = Some a) /\ ~ crashes Idle advance (snd (final (Z.eqb 0) push_and_pop)).
Proof.
  assert (E : fst (final (Z.eqb 0) push_and_pop) = [EEmpty; EPush 6; EPush 5; EPop 5]) by (by vm_compute).
  destruct (lf_stack_linearizable (fst (final (Z.eqb 0) push_and_pop)) (snd (final (Z.eqb 0) push_and_pop)) (final_trace _ _)) as [(a & Ha & _) Hc]. split; [exists a; by rewrite <- E|exact Hc].
Defined.

End Stack.

(** ** The queue *)

Module Queue.

(** [lf_queue_t], with the nodes. *)
Record lf_queue_t := { heap : gmap Z lf_queue_node_t; head : Z; tail : Z; size : Z }.

(** [dummy] is the address that [kmalloc] gives. *)
Definition lf_queue_init (dummy : Z) : lf_queue_t := {| heap := {[dummy := {| data := 0; nnext := 0 |}]}; head := dummy; tail := dummy; size := 0 |}.

Definition set_heap (s : lf_queue_t) (h : gmap Z lf_queue_node_t) : lf_queue_t := {| heap := h; head := head s; tail := tail s; size := size s |}.
Definition set_head (s : lf_queue_t) (p : Z) : lf_queue_t := {| heap := heap s; head := p; tail := tail s; size := size s |}.
Definition add_size (s : lf_queue_t) (n : Z) : lf_queue_t := {| heap := heap s; head := head s; tail := tail s; size := u32 (size s + n) |}.

(** The compare-and-swap on [tail]. *)
Definition cas_tail (s : lf_queue_t) (old new : Z) : lf_queue_t := if tail s =? old then {| heap := heap s; head := head s; tail := new; size := size s |} else s.

Inductive event := EEnqueue (d : Z) | EDequeue (d : Z) | EEmpty.

(** Where a thread is.  In [lf_queue_enqueue]: before the load of [queue->tail], that of
    [tail->next], the second load of [queue->tail], the compare-and-swap on [tail->next],
    the one that helps, the one on [queue->tail], and the addition to [size].  In
    [lf_queue_dequeue]: before the loads of [queue->head], [queue->tail] and [head->next],
    the second load of [queue->head], the compare-and-swap that helps, the load of
    [next->data], the compare-and-swap on [queue->head], the call of [kfree], and the
    subtraction. *)
Inductive pc :=
  | Idle
  | EnqTail (node d : Z) | EnqNext (node d t : Z) | EnqCheck (node d t next : Z) | EnqLink (node d t : Z) | EnqHelp (node d t next : Z) | EnqSwing (node t : Z) | EnqCount
  | DeqHead | DeqTail (h : Z) | DeqNext (h t : Z) | DeqCheck (h t next : Z) | DeqHelp (t next : Z) | DeqData (h next : Z) | DeqCas (h next d : Z) | DeqFree (h d : Z) | DeqCount (d : Z).

(** An empty queue is found at the load of [head->next]: while one thread dequeues, [head] is
    the same at the check that follows. *)
Definition advance (s : lf_queue_t) (p : pc) : option (option event * lf_queue_t * pc) :=
  match p with
  | Idle => Some (None, s, Idle)
  | EnqTail n d => Some (None, s, EnqNext n d (tail s))
  | EnqNext n d t => match heap s !! t with Some x => Some (None, s, EnqCheck n d t (nnext x)) | None => None end
  | EnqCheck n d t nx => Some (None, s, if t =? tail s then if nx =? 0 then EnqLink n d t else EnqHelp n d t nx else EnqTail n d)
  | EnqLink n d t =>
      match heap s !! t with
      | None => None
      | Some x => if nnext x =? 0 then Some (Some (EEnqueue d), set_heap s (<[t := {| data := data x; nnext := n |}]> (heap s)), EnqSwing n t) else Some (None, s, EnqTail n d)
      end
  | EnqHelp n d t nx => Some (None, cas_tail s t nx, EnqTail n d)
  | EnqSwing n t => Some (None, cas_tail s t n, EnqCount)
  | EnqCount => Some (None, add_size s 1, Idle)
  | DeqHead => Some (None, s, DeqTail (head s))
  | DeqTail h => Some (None, s, DeqNext h (tail s))
  | DeqNext h t => match heap s !! h with Some x => Some (if (h =? t) && (nnext x =? 0) && (h =? head s) then Some EEmpty else None, s, DeqCheck h t (nnext x)) | None => None end
  | DeqCheck h t nx => Some (None, s, if h =? head s then if h =? t then if nx =? 0 then Idle else DeqHelp t nx else DeqData h nx else DeqHead)
  | DeqHelp t nx => Some (None, cas_tail s t nx, DeqHead)
  | DeqData h nx => match heap s !! nx with Some x => Some (None, s, DeqCas h nx (data x)) | None => None end
  | DeqCas h nx d => if head s =? h then Some (Some (EDequeue d), set_head s nx, DeqFree h d) else Some (None, s, DeqHead)
  | DeqFree h d => match heap s !! h with Some _ => Some (None, set_heap s (delete h (heap s)), DeqCount d) | None => None end
  | DeqCount d => Some (None, add_size s (-1), Idle)
  end.

(** [lf_queue_enqueue] with data that is not null takes a node; a thread starts an
    operation if it may. *)
Inductive start (may_enqueue may_dequeue : Z -> bool) (i : Z) (s : lf_queue_t) : lf_queue_t -> pc -> Prop :=
  | start_enqueue n d : may_enqueue i = true -> d <> 0 -> n <> 0 -> heap s !! n = None -> start may_enqueue may_dequeue i s (set_heap s (<[n := {| data := d; nnext := 0 |}]> (heap s))) (EnqTail n d)
  | start_enqueue_fails : start may_enqueue may_dequeue i s s Idle
  | start_dequeue : may_dequeue i = true -> start may_enqueue may_dequeue i s s DeqHead.

(** [None]: a pointer to freed memory is followed. *)
Definition lf_queue_is_empty (s : lf_queue_t) : option bool :=
  if head s =? tail s then (fun x => nnext x =? 0) <$> heap s !! head s else Some false.
Definition lf_queue_size (s : lf_queue_t) : Z := size s.

(** The queue that is meant. *)
Definition spec (a : list Z) (e : event) : option (list Z) :=
  match e with
  | EEnqueue d => Some (a ++ [d])
  | EDequeue d => match a with x :: a => if x =? d then Some a else None | [] => None end
  | EEmpty => match a with [] => Some [] | _ => None end
  end.

#[local] Abbreviation config := (config (Mem := lf_queue_t) (Pc := pc)).
#[local] Abbreviation step := (step Idle advance).
#[local] Abbreviation trace := (trace Idle advance).

(** *** One producer and one consumer

    Thread 1 enqueues and thread 0 dequeues.  The nodes from [head] on are [head s :: r]. *)

(** The node after [h] is [nx]. *)
Definition follows (s : lf_queue_t) (h nx : Z) : Prop := nnext <$> heap s !! h = Some nx.

Definition consumer_ok (s : lf_queue_t) (r : list Z) (p : pc) : Prop :=
  match p with
  | Idle | DeqHead | DeqCount _ => True
  | DeqTail h => h = head s
  | DeqNext h t => h = head s /\ (h <> t -> h <> tail s)
  | DeqCheck h t nx => h = head s /\ (h <> t -> h <> tail s) /\ (h <> t \/ nx <> 0 -> follows s h nx)
  | DeqHelp t nx => t = head s /\ nx <> 0 /\ follows s t nx
  | DeqData h nx => h = head s /\ h <> tail s /\ follows s h nx
  | DeqCas h nx d => h = head s /\ h <> tail s /\ follows s h nx /\ data <$> heap s !! nx = Some d
  | DeqFree h _ => (h ∉ head s :: r) /\ is_Some (heap s !! h)
  | _ => False
  end.

(** The node that the producer has not linked yet. *)
Definition fresh (s : lf_queue_t) (r : list Z) (n d : Z) : Prop := (n ∉ head s :: r) /\ n <> 0 /\ heap s !! n = Some {| data := d; nnext := 0 |}.

Definition producer_ok (s : lf_queue_t) (r : list Z) (p : pc) : Prop :=
  match p with
  | Idle | EnqCount => True
  | EnqTail n d => fresh s r n d
  | EnqNext n d t | EnqLink n d t => fresh s r n d /\ t = tail s
  | EnqCheck n d t nx => fresh s r n d /\ t = tail s /\ nx = 0
  | EnqSwing n _ => last (head s :: r) = Some n
  | _ => False
  end.

Definition owns (p : pc) (n : Z) : Prop := match p with EnqTail m _ | EnqNext m _ _ | EnqCheck m _ _ _ | EnqLink m _ _ | DeqFree m _ => m = n | _ => False end.

(** [p0] and [p1] are the positions of the consumer and of the producer.  [tail] is the
    last node, or the one before it while the producer has not moved it. *)
Record inv (s : lf_queue_t) (r : list Z) (p0 p1 : pc) : Prop := {
  i_list : linked nnext (heap s) (head s) (head s :: r);
  i_tail : last (head s :: r) = Some (tail s) \/ exists n pre, p1 = EnqSwing n (tail s) /\ head s :: r = pre ++ [tail s; n];
  i_consumer : consumer_ok s r p0;
  i_producer : producer_ok s r p1;
  i_distinct : forall n, owns p0 n -> ~ owns p1 n
}.

Definition represents (c : config) (a : list Z) : Prop :=
  (forall i, i <> 0 -> i <> 1 -> threads c i = Idle) /\ exists r, inv (mem c) r (threads c 0) (threads c 1) /\ a = contents (heap (mem c)) r.

(** A node of the list that is not the last has one after it. *)
Lemma head_next s r p0 p1 : inv s r p0 p1 -> exists x, heap s !! head s = Some x /\ linked nnext (heap s) (nnext x) r.
Proof. intros Hi. destruct (i_list _ _ _ _ Hi) as (_ & _ & x & Hx & Hl). by exists x. Qed.

Lemma head_not_tail s r p0 p1 : inv s r p0 p1 -> head s <> tail s -> exists q r', r = q :: r' /\ follows s (head s) q.
Proof.
  intros Hi Hne. destruct (head_next _ _ _ _ Hi) as (x & Hx & Hl). destruct r as [|q r'].
  - destruct (i_tail _ _ _ _ Hi) as [Ht|(n & pre & _ & Ht)]; [by injection Ht|]. by destruct pre as [|? [|]].
  - exists q, r'. split; [done|]. unfold follows. rewrite Hx. cbn. f_equal. by destruct Hl.
Qed.

Lemma tail_in s r p0 p1 : inv s r p0 p1 -> tail s ∈ head s :: r.
Proof.
  intros Hi. destruct (i_tail _ _ _ _ Hi) as [Ht|(n & pre & _ & Ht)]; [by apply last_Some_elem_of|]. rewrite Ht. apply elem_of_app. right. left.
Qed.

(** Unless the producer is about to move it, [tail] is the last node. *)
Lemma tail_last s r p0 p1 : inv s r p0 p1 -> (forall n t, p1 <> EnqSwing n t) -> exists pre x, head s :: r = pre ++ [tail s] /\ heap s !! tail s = Some x /\ nnext x = 0.
Proof.
  intros Hi Hp. destruct (i_tail _ _ _ _ Hi) as [Ht|(n & pre & E & _)]; [|by destruct (Hp _ _ E)]. apply last_Some in Ht as [pre Ht]. pose proof (i_list _ _ _ _ Hi) as Hl.
  destruct (linked_elem _ _ _ _ (tail s) Hl) as [_ [x Hx]]; [rewrite Ht; set_solver|]. rewrite Ht in Hl. exists pre, x. split; [done|]. split; [done|]. by eapply linked_last.
Qed.

Lemma consumer_frame s r s' r' p : consumer_ok s r p -> head s' = head s -> (head s <> tail s -> head s <> tail s') ->
  (forall nx, nx <> 0 \/ head s <> tail s -> follows s (head s) nx -> follows s' (head s) nx) -> (forall q d, data <$> heap s !! q = Some d -> data <$> heap s' !! q = Some d) ->
  (forall h d, p = DeqFree h d -> h ∉ head s :: r') -> consumer_ok s' r' p.
Proof.
  intros Hp Hh Ht Hf Hd Hfree. destruct p; cbn [consumer_ok] in *; rewrite ?Hh; try done.
  - destruct Hp as [-> Hp]. split; [done|]. intros Hne. by apply Ht, Hp.
  - destruct Hp as (-> & Hp & Hp'). split; [done|]. split; [intros Hne; by apply Ht, Hp|]. intros Hor. apply Hf; [|by apply Hp']. destruct Hor as [Hne|Hne]; [right; by apply Hp|by left].
  - destruct Hp as (-> & Hn & Hp). split; [done|]. split; [done|]. apply Hf; [by left|done].
  - destruct Hp as (-> & Hn & Hp). split; [done|]. split; [by apply Ht|]. apply Hf; [by right|done].
  - destruct Hp as (-> & Hn & Hp & Hx). split; [done|]. split; [by apply Ht|]. split; [apply Hf; [by right|done]|by apply Hd].
  - destruct Hp as [_ [x Hx]]. split; [by eapply Hfree|]. specialize (Hd h (data x)). rewrite Hx in Hd. specialize (Hd eq_refl). by destruct (heap s' !! h).
Qed.

Lemma producer_frame s r s' r' p : producer_ok s r p -> (forall n, n ∉ head s :: r -> n ∉ head s' :: r') -> last (head s' :: r') = last (head s :: r) -> ((exists n t, p = EnqSwing n t) \/ tail s' = tail s) ->
  (forall n, owns p n -> heap s' !! n = heap s !! n) -> producer_ok s' r' p.
Proof.
  intros Hp Hin Hlast Ht Hh. destruct p; cbn [producer_ok owns] in *; try done; unfold fresh in *; rewrite ?Hh by done; [|(destruct Ht as [(? & ? & ?)| ->]; [done|])..|by rewrite Hlast].
  - destruct Hp as (? & ? & ?). eauto.
  - destruct Hp as [(? & ? & ?) ?]. eauto 6.
  - destruct Hp as [(? & ? & ?) ?]. eauto 6.
  - destruct Hp as [(? & ? & ?) ?]. eauto 6.
Qed.

Lemma producer_owns s r p n : producer_ok s r p -> owns p n -> (n ∉ head s :: r) /\ is_Some (heap s !! n).
Proof. intros Hp Hn. destruct p; cbn in *; try done; subst; destruct_and?; unfold fresh in *; destruct_and?; eauto. Qed.

(** A thread moves, and memory stays. *)
Lemma inv_consumer s r p0 p1 p0' : inv s r p0 p1 -> consumer_ok s r p0' -> (forall n, ~ owns p0' n) -> inv s r p0' p1.
Proof. intros [? ? ? ? ?] Hp Ho. split; try done. intros n Hn. by destruct (Ho n). Qed.

Lemma inv_producer s r p0 p1 p1' : inv s r p0 p1 -> producer_ok s r p1' -> (forall n t, p1 <> EnqSwing n t) -> (forall n, owns p1' n -> owns p1 n) -> inv s r p0 p1'.
Proof. intros [? Ht ? ? Hd] Hp Hs Ho. split; try done; [destruct Ht as [Ht|(n & pre & E & _)]; [by left|by destruct (Hs _ _ E)]|]. intros n H0 H1. by apply (Hd n), Ho. Qed.

(** The steps of the consumer that write to memory. *)
Lemma dequeue_inv s r p1 nx d : inv s r (DeqCas (head s) nx d) p1 -> exists r', r = nx :: r' /\ inv (set_head s nx) r' (DeqFree (head s) d) p1 /\ contents (heap s) r = d :: contents (heap s) r'.
Proof.
  intros Hi. destruct (i_consumer _ _ _ _ Hi) as (_ & Hne & Hf & Hd). destruct (head_not_tail _ _ _ _ Hi Hne) as (q & r' & -> & Hf'). unfold follows in Hf, Hf'. rewrite Hf in Hf'. injection Hf' as <-.
  pose proof (linked_NoDup _ _ _ _ (i_list _ _ _ _ Hi)) as [Hh _]%NoDup_cons. destruct (i_list _ _ _ _ Hi) as (_ & Hh0 & x & Hx & Hl). rewrite Hx in Hf. injection Hf as Hf. rewrite Hf in Hl.
  exists r'. split; [done|]. split; [|cbn; by rewrite Hd]. split; cbn [heap head tail set_head]; [done| | | |].
  - destruct (i_tail _ _ _ _ Hi) as [Ht|(n & pre & E & Ht)]; [left; by rewrite last_cons_cons in Ht|]. right. exists n. destruct pre as [|y pre]; injection Ht as Hy Ht; [done|]. exists pre. by rewrite Ht.
  - cbn [consumer_ok head heap set_head]. by rewrite Hx.
  - eapply producer_frame; [by apply Hi| |done|by right|done]. cbn [head set_head]. set_solver.
  - intros n <- Hn. apply (producer_owns _ _ _ _ (i_producer _ _ _ _ Hi)) in Hn as [Hn _]. by apply not_elem_of_cons in Hn as [? _].
Qed.

Lemma free_inv s r p1 h d : inv s r (DeqFree h d) p1 -> inv (set_heap s (delete h (heap s))) r (DeqCount d) p1 /\ contents (delete h (heap s)) r = contents (heap s) r.
Proof.
  intros Hi. destruct (i_consumer _ _ _ _ Hi) as [Hh _]. split; [|apply nodes_same; intros q Hq; apply lookup_delete_ne; intros ->; by apply Hh; right]. split; cbn [heap head tail set_heap]; [|by apply Hi|done| |done].
  - apply linked_delete; [done|by apply Hi].
  - eapply producer_frame; [by apply Hi|done|done|by right|]. intros n Hn. apply lookup_delete_ne. intros ->. by apply (i_distinct _ _ _ _ Hi n).
Qed.

Lemma help_inv s r p1 nx : inv s r (DeqHelp (head s) nx) p1 -> inv (cas_tail s (head s) nx) r DeqHead p1.
Proof.
  intros Hi. destruct (i_consumer _ _ _ _ Hi) as (_ & Hn0 & Hf). unfold cas_tail. destruct (Z.eqb_spec (tail s) (head s)) as [Ht|Ht]; [|apply (inv_consumer _ _ _ _ _ Hi); [done|by intros n []]].
  unfold follows in Hf. destruct (head_next _ _ _ _ Hi) as (x & Hx & _). rewrite Hx in Hf. injection Hf as Hf. pose proof (i_list _ _ _ _ Hi) as Hl.
  destruct (i_tail _ _ _ _ Hi) as [Hlast|(n & pre & E & Hpre)].
  - apply last_Some in Hlast as [pre Hpre]. rewrite Hpre in Hl. destruct Hn0. rewrite <- Hf. eapply linked_last; [exact Hl|by rewrite Ht].
  - rewrite Hpre in Hl. assert (nx = n) as -> by (rewrite <- Hf; eapply linked_last_two; [exact Hl|by rewrite Ht]).
    split; cbn [heap head tail]; [by apply Hi| |done| |done].
    + left. rewrite Hpre, (app_assoc pre [tail s] [n] : pre ++ [tail s; n] = _). apply last_snoc.
    + eapply producer_frame; [by apply Hi|done|done|left; by rewrite E; eexists _, _|done].
Qed.

(** The compare-and-swap on [tail->next]. *)
Lemma link_inv s r p0 n d x : inv s r p0 (EnqLink n d (tail s)) -> heap s !! tail s = Some x ->
  nnext x = 0 /\ inv (set_heap s (<[tail s := {| data := data x; nnext := n |}]> (heap s))) (r ++ [n]) p0 (EnqSwing n (tail s)) /\
  contents (<[tail s := {| data := data x; nnext := n |}]> (heap s)) (r ++ [n]) = contents (heap s) r ++ [d].
Proof.
  intros Hi Hx. destruct (tail_last _ _ _ _ Hi) as (pre & y & Hpre & Hy & Hy0); [done|]. rewrite Hx in Hy. injection Hy as <-. destruct (i_producer _ _ _ _ Hi) as [(Hn & Hn0 & Hnd) _]. pose proof (i_list _ _ _ _ Hi) as Hl.
  assert (Hne : n <> tail s) by (intros ->; apply Hn; by eapply tail_in).
  assert (Hdata : forall q, data <$> <[tail s := {| data := data x; nnext := n |}]> (heap s) !! q = data <$> heap s !! q).
  { intros q. destruct (decide (q = tail s)) as [->|Hq]; [by rewrite lookup_insert_eq, Hx|by rewrite lookup_insert_ne]. }
  split; [done|]. split; [split; cbn [heap head tail set_heap]|].
  - rewrite app_comm_cons, Hpre, <- app_assoc. cbn [app]. rewrite Hpre in Hl, Hn.
    pose proof (linked_snoc nnext _ pre _ _ x {| data := data x; nnext := n |} n {| data := d; nnext := 0 |} Hl Hn Hn0 eq_refl eq_refl Hx) as H. by rewrite (insert_id (heap s) n) in H.
  - right. exists n, pre. split; [done|]. by rewrite app_comm_cons, Hpre, <- app_assoc.
  - eapply consumer_frame; [by apply Hi|done|done| |intros q e; by rewrite Hdata|].
    + unfold follows. cbn [heap set_heap]. intros nx Hor Hf. destruct (decide (head s = tail s)) as [E|E]; [|by rewrite lookup_insert_ne]. rewrite E, Hx in Hf. cbn in Hf. destruct Hor as [H|H]; congruence.
    + intros h e ->. destruct (i_consumer _ _ _ _ Hi) as [Hh _]. rewrite app_comm_cons, not_elem_of_app. split; [done|]. intros ->%list_elem_of_singleton. by apply (i_distinct _ _ _ _ Hi n).
  - cbn [producer_ok head set_heap]. rewrite app_comm_cons. apply last_snoc.
  - by intros q _ [].
  - unfold contents. rewrite fmap_app. cbn [fmap list_fmap]. f_equal; [apply list_fmap_ext; intros j q _; by rewrite Hdata|]. by rewrite Hdata, Hnd.
Qed.

Lemma swing_inv s r p0 n t : inv s r p0 (EnqSwing n t) -> inv (cas_tail s t n) r p0 EnqCount.
Proof.
  intros Hi. pose proof (i_producer _ _ _ _ Hi) as Hlast. cbn in Hlast. unfold cas_tail. destruct (Z.eqb_spec (tail s) t) as [<-|Ht].
  - split; cbn [heap head tail]; [by apply Hi|by left| |done|by intros q _ []]. eapply consumer_frame; [by apply Hi|done| |done|done|by intros h d ->; apply (i_consumer _ _ _ _ Hi)].
    cbn [tail]. intros Hne E. destruct (head_not_tail _ _ _ _ Hi Hne) as (q & r' & -> & _). pose proof (linked_NoDup _ _ _ _ (i_list _ _ _ _ Hi)) as [Hh _]%NoDup_cons. apply Hh. rewrite last_cons_cons in Hlast. rewrite E. by apply last_Some_elem_of.
  - split; [by apply Hi| |by apply Hi|done|by intros q _ []]. left. destruct (i_tail _ _ _ _ Hi) as [H|(m & pre & E & _)]; [done|by injection E].
Qed.

(** *** Every step *)

Lemma consumer_run s r p0 p1 e s' p0' : inv s r p0 p1 -> advance s p0 = Some (e, s', p0') ->
  exists r', inv s' r' p0' p1 /\ match e with Some e => spec (contents (heap s) r) e = Some (contents (heap s') r') | None => contents (heap s') r' = contents (heap s) r end.
Proof.
  intros Hi Hadv. pose proof (i_consumer _ _ _ _ Hi) as Hp. destruct (head_next _ _ _ _ Hi) as (x & Hx & Hl).
  destruct p0 as [| | | | | | | | |h|h t|h t nx|t nx|h nx|h nx d|h d|d]; cbn [consumer_ok advance] in Hp, Hadv; try done.
  - injection Hadv as <- <- <-. by exists r.
  - injection Hadv as <- <- <-. exists r. split; [|done]. by apply (inv_consumer _ _ _ _ _ Hi); [|intros n []].
  - injection Hadv as <- <- <-. exists r. split; [|done]. by apply (inv_consumer _ _ _ _ _ Hi); [|intros n []].
  - destruct Hp as [-> Hp]. rewrite Hx, Z.eqb_refl, andb_true_r in Hadv. injection Hadv as <- <- <-. exists r. split.
    + apply (inv_consumer _ _ _ _ _ Hi); [|by intros n []]. cbn. split; [done|]. split; [done|]. intros _. unfold follows. by rewrite Hx.
    + destruct ((head s =? t) && (nnext x =? 0)) eqn:E; [|done]. assert (nnext x = 0) as E0 by lia. rewrite E0 in Hl. destruct r as [|q r]; [done|]. by destruct Hl as (<- & ? & _).
  - destruct Hp as (-> & Hp & Hf). rewrite Z.eqb_refl in Hadv. injection Hadv as <- <- <-. exists r. split; [|done].
    destruct (Z.eqb_spec (head s) t) as [<-|Hne]; [destruct (Z.eqb_spec nx 0) as [->|Hn]|]; (apply (inv_consumer _ _ _ _ _ Hi); [|by intros n []]); [done|cbn; eauto 8|cbn; split; [done|]; split; [by apply Hp|]; apply Hf; by left].
  - destruct Hp as (-> & Hn & Hf). injection Hadv as <- <- <-. exists r. split; [by apply help_inv|]. unfold cas_tail. by destruct (_ =? _).
  - destruct Hp as (-> & Hne & Hf). destruct (heap s !! nx) as [y|] eqn:Hy; [|done]. injection Hadv as <- <- <-. exists r. split; [|done]. apply (inv_consumer _ _ _ _ _ Hi); [|by intros n []]. cbn. by rewrite Hy.
  - pose proof Hp as (-> & _). rewrite Z.eqb_refl in Hadv. injection Hadv as <- <- <-. destruct (dequeue_inv _ _ _ _ _ Hi) as (r' & -> & Hi' & Hc). exists r'. split; [done|]. rewrite Hc. cbn. by rewrite Z.eqb_refl.
  - destruct Hp as [_ [y Hy]]. rewrite Hy in Hadv. injection Hadv as <- <- <-. destruct (free_inv _ _ _ _ _ Hi) as [Hi' Hc]. by exists r.
  - injection Hadv as <- <- <-. exists r. split; [|done]. by destruct Hi.
Qed.

Lemma producer_run s r p0 p1 e s' p1' : inv s r p0 p1 -> advance s p1 = Some (e, s', p1') ->
  exists r', inv s' r' p0 p1' /\ match e with Some e => spec (contents (heap s) r) e = Some (contents (heap s') r') | None => contents (heap s') r' = contents (heap s) r end.
Proof.
  intros Hi Hadv. pose proof (i_producer _ _ _ _ Hi) as Hp.
  destruct p1 as [|n d|n d t|n d t nx|n d t|n d t nx|n t| | | | | | | | | | ]; cbn [producer_ok advance] in Hp, Hadv; try done.
  - injection Hadv as <- <- <-. by exists r.
  - injection Hadv as <- <- <-. exists r. split; [|done]. by apply (inv_producer _ _ _ _ _ Hi).
  - destruct Hp as [Hp ->]. destruct (tail_last _ _ _ _ Hi) as (pre & x & _ & Hx & Hx0); [done|]. rewrite Hx in Hadv. injection Hadv as <- <- <-. exists r. split; [|done]. by apply (inv_producer _ _ _ _ _ Hi).
  - destruct Hp as (Hp & -> & ->). rewrite !Z.eqb_refl in Hadv. injection Hadv as <- <- <-. exists r. split; [|done]. by apply (inv_producer _ _ _ _ _ Hi).
  - destruct Hp as [Hp ->]. destruct (tail_last _ _ _ _ Hi) as (pre & x & _ & Hx & Hx0); [done|]. rewrite Hx, Hx0 in Hadv. cbn in Hadv. injection Hadv as <- <- <-.
    destruct (link_inv _ _ _ _ _ _ Hi Hx) as (_ & Hi' & Hc). exists (r ++ [n]). split; [done|]. cbn [spec heap set_heap]. by rewrite Hc.
  - injection Hadv as <- <- <-. exists r. split; [by apply swing_inv|]. unfold cas_tail. by destruct (_ =? _).
  - injection Hadv as <- <- <-. exists r. split; [|done]. destruct Hi as [? Ht ? ? ?]. split; try done. destruct Ht as [Ht|(n & pre & E & _)]; [by left|done].
Qed.

Lemma start_inv s r p0 n d : inv s r p0 Idle -> n <> 0 -> heap s !! n = None ->
  inv (set_heap s (<[n := {| data := d; nnext := 0 |}]> (heap s))) r p0 (EnqTail n d) /\ contents (<[n := {| data := d; nnext := 0 |}]> (heap s)) r = contents (heap s) r.
Proof.
  intros Hi Hn Hfree. pose proof (i_list _ _ _ _ Hi) as Hl. assert (Hnl : n ∉ head s :: r) by (intros Hin; destruct (linked_elem _ _ _ _ _ Hl Hin) as [_ [x Hx]]; congruence).
  assert (Hs : forall q x, heap s !! q = Some x -> <[n := {| data := d; nnext := 0 |}]> (heap s) !! q = Some x) by (intros q x Hq; rewrite lookup_insert_ne; [done|congruence]).
  split; [|apply nodes_same; intros q Hq; apply lookup_insert_ne; intros ->; by apply Hnl; right]. split; cbn [heap head tail set_heap].
  - by apply linked_insert.
  - destruct (i_tail _ _ _ _ Hi) as [Ht|(m & pre & E & _)]; [by left|done].
  - eapply consumer_frame; [by apply Hi|done|done| | |by intros h e ->; apply (i_consumer _ _ _ _ Hi)].
    + unfold follows. cbn [heap set_heap]. intros nx _ Hf. destruct (heap s !! head s) as [x|] eqn:E; [|done]. by rewrite (Hs _ _ E).
    + cbn [heap set_heap]. intros q e Hq. destruct (heap s !! q) as [x|] eqn:E; [|done]. by rewrite (Hs _ _ E).
  - cbn. unfold fresh. cbn [head heap set_heap]. by rewrite lookup_insert_eq.
  - intros q Hq <-. pose proof (i_consumer _ _ _ _ Hi) as Hp. destruct p0; cbn in Hq, Hp; try done. subst. destruct Hp as [_ [x Hx]]. congruence.
Qed.

Lemma step_represents c e c' a : represents c a -> step (start (Z.eqb 1) (Z.eqb 0)) c e c' -> exists a', match e with Some e => spec a e = Some a' | None => a' = a end /\ represents c' a'.
Proof.
  intros Hrep Hstep. revert Hrep. destruct Hstep as [i m t m' p Hidle Hst|i m t e m' p Hrun Hadv]; intros (Hothers & r & Hi & ->); cbn [mem threads] in *.
  - eexists. split; [done|]. destruct Hst as [n d Hmay Hd Hn Hfree| |Hmay]; [apply Z.eqb_eq in Hmay; subst i|idtac|apply Z.eqb_eq in Hmay; subst i].
    + rewrite Hidle in Hi. destruct (start_inv _ _ _ n d Hi Hn Hfree) as [Hi' Hc]. split; cbn [threads mem]; [intros j H0 H1; rewrite aset_ne by done; by apply Hothers|]. exists r. rewrite aset_eq, aset_ne by done. by split.
    + split; cbn [threads mem]; [intros j H0 H1; destruct (decide (j = i)) as [->|]; [by rewrite aset_eq|rewrite aset_ne by done; by apply Hothers]|].
      exists r. split; [|done]. destruct (decide (i = 0)) as [->|H0]; [rewrite aset_eq, aset_ne by done; by rewrite Hidle in Hi|]. destruct (decide (i = 1)) as [->|H1]; [rewrite aset_eq, aset_ne by done; by rewrite Hidle in Hi|by rewrite !aset_ne by done].
    + split; cbn [threads mem]; [intros j H0 H1; rewrite aset_ne by done; by apply Hothers|]. exists r. rewrite aset_eq, aset_ne by done. split; [|done]. by apply (inv_consumer _ _ _ _ _ Hi); [|intros q []].
  - destruct (decide (i = 0)) as [->|H0]; [|destruct (decide (i = 1)) as [->|H1]; [|by destruct Hrun; apply Hothers]].
    + destruct (consumer_run _ _ _ _ _ _ _ Hi Hadv) as (r' & Hi' & He). exists (contents (heap m') r'). split; [by destruct e|]. split; cbn [threads mem]; [intros j Hj0 Hj1; rewrite aset_ne by done; by apply Hothers|]. exists r'. rewrite aset_eq, aset_ne by done. by split.
    + destruct (producer_run _ _ _ _ _ _ _ Hi Hadv) as (r' & Hi' & He). exists (contents (heap m') r'). split; [by destruct e|]. split; cbn [threads mem]; [intros j Hj0 Hj1; rewrite aset_ne by done; by apply Hothers|]. exists r'. rewrite aset_eq, aset_ne by done. by split.
Qed.

Lemma no_crash_queue c a : represents c a -> ~ crashes Idle advance c.
Proof.
  intros (Hothers & r & Hi & _) (i & Hrun & Hadv). destruct (decide (i = 0)) as [->|H0]; [|destruct (decide (i = 1)) as [->|H1]; [|by apply Hrun, Hothers]].
  - pose proof (i_consumer _ _ _ _ Hi) as Hp. destruct (head_next _ _ _ _ Hi) as (x & Hx & _). destruct (threads c 0); cbn [advance consumer_ok] in *; try done.
    + destruct Hp as [-> _]. by rewrite Hx in Hadv.
    + destruct Hp as (-> & Hne & Hf). destruct (head_not_tail _ _ _ _ Hi Hne) as (q & r' & -> & Hf'). unfold follows in *. rewrite Hf in Hf'. injection Hf' as <-. destruct (linked_elem _ _ _ _ next (i_list _ _ _ _ Hi)) as [_ [y Hy]]; [set_solver|]. by rewrite Hy in Hadv.
    + by destruct (_ =? _).
    + destruct Hp as [_ [y Hy]]. by rewrite Hy in Hadv.
  - pose proof (i_producer _ _ _ _ Hi) as Hp. destruct (linked_elem _ _ _ _ _ (i_list _ _ _ _ Hi) (tail_in _ _ _ _ Hi)) as [_ [x Hx]]. destruct (threads c 1); cbn [advance producer_ok] in *; try done.
    + destruct Hp as [_ ->]. by rewrite Hx in Hadv.
    + destruct Hp as [_ ->]. rewrite Hx in Hadv. by destruct (_ =? _).
Qed.

(** C14. One thread enqueues, another one dequeues.  Whatever the interleaving, neither follows a
    pointer to freed memory, and the operations take effect one after the other on a queue:
    the values are dequeued in the order in which they were enqueued, and the queue is found
    empty only when it is. *)
Theorem lf_queue_linearizable dummy es c : dummy <> 0 -> trace (start (Z.eqb 1) (Z.eqb 0)) {| mem := lf_queue_init dummy; threads := fun _ => Idle |} es c ->
  (exists a, spec_run spec [] es = Some a /\ represents c a) /\ ~ crashes Idle advance c.
Proof.
  intros Hd Htr. assert (H : exists a, spec_run spec [] es = Some a /\ represents c a); [|destruct H as (a & E & Hr); split; [by exists a|by eapply no_crash_queue]].
  refine (trace_simulation _ _ _ spec represents _ [] _ _ step_represents _ Htr). split; [done|]. exists []. split; [|done]. split; cbn; [|by left|done|done|by intros q []].
  split; [done|]. split; [done|]. eexists. by rewrite lookup_singleton_eq.
Qed.

(** *** More threads *)

Inductive command := Enqueue (n d : Z) | Dequeue.

Definition is_idle (p : pc) : bool := match p with Idle => true | _ => false end.

Definition begins (may_enqueue may_dequeue : Z -> bool) (i : Z) (s : lf_queue_t) (x : command) : option (lf_queue_t * pc) :=
  match x with
  | Enqueue n d => if negb (may_enqueue i) || (n =? 0) || (d =? 0) || bool_decide (is_Some (heap s !! n)) then None else Some (set_heap s (<[n := {| data := d; nnext := 0 |}]> (heap s)), EnqTail n d)
  | Dequeue => if may_dequeue i then Some (s, DeqHead) else None
  end.

Lemma begins_enqueue may may' i s x s' p : begins may may' i s x = Some (s', p) -> start may may' i s s' p.
Proof.
  destruct x as [n d|]; cbn; [|destruct (may' i) eqn:Hi; [|done]; intros [= <- <-]; by apply start_dequeue]. destruct (may i) eqn:Hi, (Z.eqb_spec n 0), (Z.eqb_spec d 0); try done. case_bool_decide as Hn; [done|]. intros [= <- <-].
  apply start_enqueue; try done. destruct (heap s !! n) eqn:E; [|done]. by destruct Hn.
Qed.

Lemma is_idle_queue p : is_idle p = true <-> p = Idle.
Proof. by destruct p. Qed.

#[local] Abbreviation init := {| mem := lf_queue_init 1; threads := fun _ => Idle |}.

Definition final (may may' : Z -> bool) (ms : list (move (Cmd := command))) : list event * config := default ([], init) (play advance is_idle (begins may may') init ms).

Lemma final_trace_queue may may' ms : trace (start may may') init (fst (final may may' ms)) (snd (final may may' ms)).
Proof.
  unfold final. destruct (play _ _ _ _ ms) as [[es c]|] eqn:E; cbn [default fst snd]; [|constructor].
  apply (play_trace Idle advance (start may may') is_idle (begins may may') is_idle_queue (begins_enqueue may may') init ms init [] es c); [constructor|done].
Qed.

(** A thread has read [tail], or [head], when others enqueue a value, dequeue it and free the
    node that was first. *)
Definition tail_freed : list (move (Cmd := command)) := [Begin 2 (Enqueue 3 7); Run 2 1; Begin 1 (Enqueue 2 5); Run 1 6; Begin 0 Dequeue; Run 0 8].
Definition head_freed : list (move (Cmd := command)) := [Begin 1 (Enqueue 2 5); Run 1 6; Begin 2 Dequeue; Run 2 2; Begin 0 Dequeue; Run 0 8].

(** With a second thread that enqueues, or a second one that dequeues, a thread can follow
    a pointer to a node that another one has freed. *)
Theorem lf_queue_third_thread :
  (exists es c, trace (start (fun i => 1 <=? i) (Z.eqb 0)) init es c /\ crashes Idle advance c) /\
  (exists es c, trace (start (Z.eqb 1) (fun i => negb (i =? 1))) init es c /\ crashes Idle advance c).
Proof.
  split.
  - exists (fst (final (fun i => 1 <=? i) (Z.eqb 0) tail_freed)), (snd (final (fun i => 1 <=? i) (Z.eqb 0) tail_freed)). split; [apply final_trace_queue|]. exists 2. split; [intros H%is_idle_queue; by vm_compute in H|by vm_compute].
  - exists (fst (final (Z.eqb 1) (fun i => negb (i =? 1)) head_freed)), (snd (final (Z.eqb 1) (fun i => negb (i =? 1)) head_freed)). split; [apply final_trace_queue|]. exists 2. split; [intros H%is_idle_queue; by vm_compute in H|by vm_compute].
Qed.

(** The value is dequeued before the producer counts it. *)
Definition uncounted : list (move (Cmd := command)) := [Begin 1 (Enqueue 2 5); Run 1 4; Begin 0 Dequeue; Run 0 13].

(** [lf_queue_size] of an empty queue can be 2^32 - 1. *)
Theorem lf_queue_size_wraps : exists es c, trace (start (Z.eqb 1) (Z.eqb 0)) init es c /\ es = [EEnqueue 5; EDequeue 5] /\ lf_queue_is_empty (mem c) = Some true /\ lf_queue_size (mem c) = 2 ^ 32 - 1.
Proof. exists (fst (final (Z.eqb 1) (Z.eqb 0) uncounted)), (snd (final (Z.eqb 1) (Z.eqb 0) uncounted)). split; [apply final_trace_queue|]. by vm_compute. Qed.

Lemma lf_queue_linearizable_witness : (exists a, spec_run spec [] [EEnqueue 5; EDequeue 5] = Some a) /\ ~ crashes Idle advance (snd (final (Z.eqb 1) (Z.eqb 0) uncounted)).
Proof.
  assert (E : fst (final (Z.eqb 1) (Z.eqb 0) uncounted) = [EEnqueue 5; EDequeue 5]) by (by vm_compute).
  destruct (lf_queue_linearizable 1 (fst (final (Z.eqb 1) (Z.eqb 0) uncounted)) (snd (final (Z.eqb 1) (Z.eqb 0) uncounted)) ltac:(done) (final_trace_queue _ _ _)) as [(a & Ha & _) Hc]. split; [exists a; by rewrite <- E|exact Hc].
Defined.

End Queue.

(** ** The counter

    Each operation is one atomic step; the results are modulo 2^32. *)

Definition lf_counter_init (initial : Z) : Z := initial.
(** What is returned, and the counter afterwards. *)
Definition lf_counter_add (counter value : Z) : Z * Z := (u32 (counter + value), u32 (counter + value)).
Definition lf_counter_increment (counter : Z) : Z * Z := (u32 (counter + 1), u32 (counter + 1)).
Definition lf_counter_decrement (counter : Z) : Z * Z := (u32 (counter - 1), u32 (counter - 1)).
Definition lf_counter_get (counter : Z) : Z := counter.
