(* ===== verification/Vmm.v ===== *)
(** * Virtual memory manager (kernel/mm/vmm.c)

    Page tables live in physical memory, an array of 64-bit words by physical
    address; the kernel reaches them through the direct map, whose pointers are
    [PHYS_MAP_BASE] plus the physical address, or through the identity map before
    it is ready.  The page-table walk, the mapping, unmapping and translation of
    pages, the creation and destruction of address spaces and the copy-on-write
    handling are the code's; the processor's own walk, which stops early at an entry
    with the page-size bit, is the specification they are held against.  The TLB is not
    modelled.  [vmm_init], which builds the direct map with huge pages, is in [DirectMap].

    [get_page_table_entry] is called with level 4 and then reads [indices[4]] of a
    four-element array: the value found there is the parameter [oob]. *)

From stdpp Require Import base tactics list numbers option relations.
From Stdlib Require Import Lia.
From S2P Require Import Prelude Pmm.

Definition PHYS_MAP_BASE : Z := 0xFFFF800000000000.
Definition VMM_PRESENT : Z := Z.shiftl 1 0.
Definition VMM_WRITE : Z := Z.shiftl 1 1.
Definition VMM_USER : Z := Z.shiftl 1 2.
Definition VMM_PS : Z := 0x80.
Definition VMM_COW : Z := Z.shiftl 1 9.
Definition VMM_NX : Z := Z.shiftl 1 63.

(** The address field of an entry. *)
Definition FRAME_MASK : Z := 0xFFFFFFFFF000.

Record address_space_t := { pml4 : Z; asid : Z }.

Record vmm := {
  pages : pmm;
  mem : arr Z;
  kernel_address_space : address_space_t;
  next_asid : Z;
  phys_map_ready : bool;
  phys_map_max_addr : Z
}.

Definition with_pages (s : vmm) (p : pmm) : vmm :=
  {| pages := p; mem := mem s; kernel_address_space := kernel_address_space s; next_asid := next_asid s;
     phys_map_ready := phys_map_ready s; phys_map_max_addr := phys_map_max_addr s |}.
Definition with_mem (s : vmm) (m : arr Z) : vmm :=
  {| pages := pages s; mem := m; kernel_address_space := kernel_address_space s; next_asid := next_asid s;
     phys_map_ready := phys_map_ready s; phys_map_max_addr := phys_map_max_addr s |}.

Definition phys_to_virt_pt (s : vmm) (paddr : Z) : Z :=
  if phys_map_ready s then u64 (paddr + PHYS_MAP_BASE) else paddr.

(** The physical address behind a kernel pointer of the direct or identity map. *)
Definition phys_of (ptr : Z) : Z := if PHYS_MAP_BASE <=? ptr then ptr - PHYS_MAP_BASE else ptr.

Definition load (s : vmm) (ptr : Z) : Z := mem s (phys_of ptr).
Definition store (s : vmm) (ptr v : Z) : vmm := with_mem s ((mem s).[phys_of ptr <- v]).

(** [&table[i]] for a table of 64-bit entries. *)
Definition entry_at (table i : Z) : Z := u64 (table + 8 * i).

Definition index (vaddr : Z) (oob : Z) (i : nat) : Z :=
  match i with
  | 0%nat => Z.land (Z.shiftr vaddr 39) 511
  | 1%nat => Z.land (Z.shiftr vaddr 30) 511
  | 2%nat => Z.land (Z.shiftr vaddr 21) 511
  | 3%nat => Z.land (Z.shiftr vaddr 12) 511
  | _ => oob
  end.

(** A fresh page for a table: low memory until the direct map is ready. *)
Definition alloc_table (s : vmm) : option (Z * vmm) :=
  if negb (phys_map_ready s) then
    let (p, a) := pmm_alloc_page_low (pages s) in
    if a =? 0 then None
    else if 128 * 1024 * 1024 <=? a then None
    else Some (a, with_pages s p)
  else
    let (p, a) := pmm_alloc_page (pages s) in
    if a =? 0 then None else Some (a, with_pages s p).

(** The state an early return of the allocation leaves. *)
Definition alloc_failed (s : vmm) : vmm :=
  if negb (phys_map_ready s) then
    let (p, a) := pmm_alloc_page_low (pages s) in
    if a =? 0 then with_pages s p else with_pages s (pmm_free_page a p)
  else with_pages s (fst (pmm_alloc_page (pages s))).

Definition clear_table (s : vmm) (table : Z) : vmm :=
  for_loop 512 0 (fun j s => store s (entry_at table j) 0) s.

Arguments clear_table : simpl never.

Definition present (entry : Z) : bool := has_any entry VMM_PRESENT.

(** The loop of [get_page_table_entry] from level [i], [n] levels to go. *)
Fixpoint walk (n i : nat) (s : vmm) (table vaddr : Z) (create : bool) (oob : Z) : option Z * vmm :=
  match n with
  | O => (Some (entry_at table (index vaddr oob i)), s)
  | S n =>
      let slot := entry_at table (index vaddr oob i) in
      let entry := load s slot in
      if present entry then
        walk n (S i) s (phys_to_virt_pt s (Z.land entry FRAME_MASK)) vaddr create oob
      else if negb create then (None, s)
      else match alloc_table s with
           | None => (None, alloc_failed s)
           | Some (new_table_phys, s) =>
               let virt_table := phys_to_virt_pt s new_table_phys in
               if virt_table =? 0 then (None, with_pages s (pmm_free_page new_table_phys (pages s)))
               else
                 let s := clear_table s virt_table in
                 let s := store s slot (Z.lor (Z.lor new_table_phys VMM_PRESENT) VMM_WRITE) in
                 let entry := load s slot in
                 walk n (S i) s (phys_to_virt_pt s (Z.land entry FRAME_MASK)) vaddr create oob
           end
  end.

Definition get_page_table_entry (s : vmm) (pml4 vaddr : Z) (level : nat) (create : bool) (oob : Z) : option Z * vmm :=
  let pml4_phys := if phys_map_ready s && (PHYS_MAP_BASE <=? pml4) then pml4 - PHYS_MAP_BASE else pml4 in
  walk level 0 s (phys_to_virt_pt s pml4_phys) vaddr create oob.

(** A null address space is the kernel's. *)
Definition space_of (s : vmm) (sp : option address_space_t) : address_space_t := default (kernel_address_space s) sp.

Definition vmm_map_page (s : vmm) (sp : option address_space_t) (vaddr paddr flags oob : Z) : Z * vmm :=
  match get_page_table_entry s (pml4 (space_of s sp)) vaddr 4 true oob with
  | (None, s) => (-1, s)
  | (Some pte, s) => (0, store s pte (Z.lor (Z.land paddr FRAME_MASK) flags))
  end.

Definition vmm_unmap_page (s : vmm) (sp : option address_space_t) (vaddr oob : Z) : Z * vmm :=
  match get_page_table_entry s (pml4 (space_of s sp)) vaddr 4 false oob with
  | (None, s) => (-1, s)
  | (Some pte, s) =>
      if negb (present (load s pte)) then (-1, s)
      else
        let paddr := Z.land (load s pte) FRAME_MASK in
        let s := with_pages s (pmm_free_page paddr (pages s)) in
        (0, store s pte 0)
  end.

Definition vmm_get_physical (s : vmm) (sp : option address_space_t) (vaddr oob : Z) : Z :=
  match get_page_table_entry s (pml4 (space_of s sp)) vaddr 4 false oob with
  | (None, _) => 0
  | (Some pte, s) =>
      if negb (present (load s pte)) then 0
      else u64 (Z.land (load s pte) FRAME_MASK + Z.land vaddr 0xFFF)
  end.

(** [for (i = 0; i < count; i++)] with the roll-back of the pages before a failure. *)
Fixpoint map_loop (n : nat) (s : vmm) (sp : option address_space_t) (i vaddr paddr flags oob : Z) : Z * vmm :=
  match n with
  | O => (0, s)
  | S n =>
      match vmm_map_page s sp (u64 (vaddr + i * PAGE_SIZE)) (u64 (paddr + i * PAGE_SIZE)) flags oob with
      | (rc, s) =>
          if negb (rc =? 0) then
            (-1, for_loop (Z.to_nat i) 0 (fun j s => snd (vmm_unmap_page s sp (u64 (vaddr + j * PAGE_SIZE)) oob)) s)
          else map_loop n s sp (i + 1) vaddr paddr flags oob
      end
  end.

Definition vmm_map_pages (s : vmm) (sp : option address_space_t) (vaddr paddr count flags oob : Z) : Z * vmm :=
  map_loop (Z.to_nat count) s sp 0 vaddr paddr flags oob.

Definition vmm_unmap_pages (s : vmm) (sp : option address_space_t) (vaddr count oob : Z) : Z * vmm :=
  (0, for_loop (Z.to_nat count) 0 (fun i s => snd (vmm_unmap_page s sp (u64 (vaddr + i * PAGE_SIZE)) oob)) s).

(** [km] tells whether the allocation of the structure succeeds. *)
Definition vmm_create_address_space (s : vmm) (km : bool) : option address_space_t * vmm :=
  if negb km then (None, s)
  else
    let (p, pml4_phys) := pmm_alloc_page (pages s) in
    let s := with_pages s p in
    if pml4_phys =? 0 then (None, s)
    else
      let sp := {| pml4 := u64 (pml4_phys + PHYS_MAP_BASE); asid := next_asid s |} in
      let s := {| pages := pages s; mem := mem s; kernel_address_space := kernel_address_space s;
                  next_asid := u64 (next_asid s + 1); phys_map_ready := phys_map_ready s; phys_map_max_addr := phys_map_max_addr s |} in
      let s := for_loop 512 0 (fun i s => store s (entry_at (pml4 sp) i) 0) s in
      let s := for_loop 256 256 (fun i s =>
                 store s (entry_at (pml4 sp) i) (load s (entry_at (pml4 (kernel_address_space s)) i))) s in
      (Some sp, s).

(** The tables under the entries of the lower half are freed, level by level; the
    structure itself goes back to the heap, which is not part of this state. *)
Definition free_directory (pd : Z) (s : vmm) : vmm :=
  for_loop 512 0 (fun k s =>
    let e := load s (entry_at (u64 (pd + PHYS_MAP_BASE)) k) in
    if present e then with_pages s (pmm_free_page (Z.land e FRAME_MASK) (pages s)) else s) s.

Definition free_pointers (pdp : Z) (s : vmm) : vmm :=
  for_loop 512 0 (fun j s =>
    let e := load s (entry_at (u64 (pdp + PHYS_MAP_BASE)) j) in
    if present e then
      let pd_phys := Z.land e FRAME_MASK in
      let s := free_directory pd_phys s in
      with_pages s (pmm_free_page pd_phys (pages s))
    else s) s.

(** [None] is the null pointer; [is_kernel] tells whether the space is the kernel's. *)
Definition vmm_destroy_address_space (s : vmm) (sp : option address_space_t) (is_kernel : bool) : vmm :=
  match sp with
  | None => s
  | Some sp =>
      if is_kernel then s
      else
        let s := for_loop 256 0 (fun i s =>
          let e := load s (entry_at (pml4 sp) i) in
          if present e then
            let pdp_phys := Z.land e FRAME_MASK in
            let s := free_pointers pdp_phys s in
            with_pages s (pmm_free_page pdp_phys (pages s))
          else s) s in
        with_pages s (pmm_free_page (u64 (pml4 sp - PHYS_MAP_BASE)) (pages s))
  end.

Definition vmm_mark_cow (s : vmm) (sp : option address_space_t) (vaddr oob : Z) : Z * vmm :=
  match get_page_table_entry s (pml4 (space_of s sp)) vaddr 4 false oob with
  | (None, s) => (-1, s)
  | (Some pte, s) =>
      if negb (present (load s pte)) then (-1, s)
      else
        let paddr := Z.land (load s pte) FRAME_MASK in
        let s := with_pages s (pmm_ref_page paddr (pages s)) in
        let flags := Z.lor (Z.land (load s pte) (Z.lnot VMM_WRITE)) VMM_COW in
        (0, store s pte flags)
  end.

(** The copy of a page, byte-wise in the code, is word-wise here. *)
Definition copy_page (s : vmm) (dst src : Z) : vmm :=
  for_loop 512 0 (fun j s => store s (entry_at dst j) (load s (entry_at src j))) s.

(** [sp] is the current process's address space, [None] when there is no process. *)
Definition vmm_handle_cow_fault (s : vmm) (sp : option address_space_t) (vaddr oob : Z) : Z * vmm :=
  match get_page_table_entry s (pml4 (space_of s sp)) vaddr 4 false oob with
  | (None, s) => (-1, s)
  | (Some pte, s) =>
      if negb (present (load s pte)) then (-1, s)
      else if negb (has_any (load s pte) VMM_COW) then (-1, s)
      else
        let old_paddr := Z.land (load s pte) FRAME_MASK in
        let (p, new_paddr) := pmm_alloc_page (pages s) in
        let s := with_pages s p in
        if new_paddr =? 0 then (-1, s)
        else
          let s := copy_page s (u64 (new_paddr + PHYS_MAP_BASE)) (u64 (old_paddr + PHYS_MAP_BASE)) in
          let flags := Z.lor (Z.land (load s pte) (Z.lnot VMM_COW)) VMM_WRITE in
          let s := store s pte (Z.lor (Z.land new_paddr FRAME_MASK) flags) in
          (0, with_pages s (pmm_free_page old_paddr (pages s)))
  end.

(** * The processor's translation *)

(** The table that [n] levels of entries lead to from level [i], table at physical [t],
    if every entry on the way is that of a table. *)
Fixpoint descend (n i : nat) (m : arr Z) (t vaddr : Z) : option Z :=
  match n with
  | O => Some t
  | S n =>
      let e := m (t + 8 * index vaddr 0 i) in
      if present e then descend n (S i) m (Z.land e FRAME_MASK) vaddr else None
  end.

(** An entry of level 1 or 2 with the page-size bit maps 1 GiB or 2 MiB. *)
Definition huge (i : nat) (e : Z) : bool := ((i =? 1)%nat || (i =? 2)%nat) && has_any e VMM_PS.

(** The 4 KiB page of [vaddr] within such a page. *)
Definition huge_page (i : nat) (e vaddr : Z) : Z :=
  if (i =? 1)%nat then Z.land e 0xFFFFC0000000 + Z.land vaddr 0x3FFFF000 else Z.land e 0xFFFFFFE00000 + Z.land vaddr 0x1FF000.

Fixpoint mmu_walk (n i : nat) (m : arr Z) (t vaddr : Z) : option Z :=
  match n with
  | O => Some t
  | S n =>
      let e := m (t + 8 * index vaddr 0 i) in
      if negb (present e) then None
      else if huge i e then Some (huge_page i e vaddr) else mmu_walk n (S i) m (Z.land e FRAME_MASK) vaddr
  end.

(** The physical 4 KiB page that the processor uses for an address. *)
Definition translate (m : arr Z) (cr3 vaddr : Z) : option Z := mmu_walk 4 0 m cr3 vaddr.

(** No huge page on the way: the entries met lead to tables. *)
Definition plain (n i : nat) (m : arr Z) (t vaddr : Z) : Prop :=
  forall j tj, (j < n)%nat -> descend j i m t vaddr = Some tj ->
    present (m (tj + 8 * index vaddr 0 (i + j))) = true -> huge (i + j) (m (tj + 8 * index vaddr 0 (i + j))) = false.

Lemma plain_path_cons n i m t vaddr :
  let e := m (t + 8 * index vaddr 0 i) in
  plain (S n) i m t vaddr <-> (present e = true -> huge i e = false /\ plain n (S i) m (Z.land e FRAME_MASK) vaddr).
Proof.
  cbv zeta. split.
  - intros H Hp. split; [specialize (H 0%nat t ltac:(lia) eq_refl); rewrite Nat.add_0_r in H; by apply H|].
    intros j tj Hj Hd. specialize (H (S j) tj ltac:(lia)). rewrite <- Nat.add_succ_comm in H. apply H. cbn [descend]. by rewrite Hp.
  - intros H [|j] tj Hj Hd He.
    + injection Hd as <-. rewrite Nat.add_0_r in *. by apply H.
    + cbn [descend] in Hd. destruct (present (m (t + 8 * index vaddr 0 i))) eqn:E; [|done]. destruct (H eq_refl) as [_ Hn].
      rewrite <- Nat.add_succ_comm in *. apply (Hn j tj); [lia|done|done].
Qed.

(** Without huge pages the processor follows the tables. *)
Lemma mmu_walk_plain n : forall i m t vaddr, plain n i m t vaddr -> mmu_walk n i m t vaddr = descend n i m t vaddr.
Proof.
  induction n as [|n IH]; intros i m t vaddr Hp; [done|]. cbn [mmu_walk descend]. rewrite plain_path_cons in Hp.
  destruct (present _); [|done]. destruct (Hp eq_refl) as [-> Hn]. by apply IH.
Qed.

(** The processor stops at an absent entry only behind tables. *)
Lemma mmu_walk_None n : forall i m t vaddr, mmu_walk n i m t vaddr = None -> plain n i m t vaddr /\ descend n i m t vaddr = None.
Proof.
  induction n as [|n IH]; intros i m t vaddr; [done|]. cbn [mmu_walk descend]. rewrite plain_path_cons.
  destruct (present _); [|by split]. destruct (huge _ _); [done|]. intros [Hp Hd]%IH. by split.
Qed.

(** * Addresses *)

(** A table in a frame the allocator does not consider free. *)
Definition frame_used (p : pmm) (t : Z) : Prop :=
  0 <= t < MAX_PAGES * 4096 /\ t mod 4096 = 0 /\ is_free p (t / 4096) = false.

Lemma land_frame t : 0 <= t < 2 ^ 48 -> t mod 4096 = 0 -> Z.land t FRAME_MASK = t.
Proof.
  intros Ht Hm. change FRAME_MASK with (Z.shiftl (Z.ones 36) 12).
  assert (Hs : t = Z.shiftl (t / 4096) 12) by (rewrite Z.shiftl_mul_pow2 by lia; change (2 ^ 12) with 4096; dlia).
  rewrite Hs at 1. rewrite <- Z.shiftl_land, Z.land_ones by lia. rewrite Z.mod_small by (change (2 ^ 36) with 68719476736; dlia).
  by rewrite <- Hs.
Qed.

Lemma used_land p t : frame_used p t -> Z.land t FRAME_MASK = t.
Proof. intros (Ht & Hm & _). apply land_frame; [unfold MAX_PAGES in *; lia|done]. Qed.

Lemma table_entry_field t : 0 <= t < 2 ^ 48 -> t mod 4096 = 0 ->
  Z.land (Z.lor (Z.lor t VMM_PRESENT) VMM_WRITE) FRAME_MASK = t.
Proof.
  intros Ht Hm. rewrite !Z.land_lor_distr_l, land_frame by done.
  change (Z.land VMM_PRESENT FRAME_MASK) with 0. change (Z.land VMM_WRITE FRAME_MASK) with 0.
  by rewrite !Z.lor_0_r.
Qed.

Lemma table_entry_present t : present (Z.lor (Z.lor t VMM_PRESENT) VMM_WRITE) = true.
Proof.
  unfold present, has_any. apply negb_true_iff, Z.eqb_neq. intros H.
  apply (f_equal (fun x => Z.testbit x 0)) in H. rewrite Z.land_spec, !Z.lor_spec in H.
  change (Z.testbit VMM_PRESENT 0) with true in H. by rewrite orb_true_r in H.
Qed.

Lemma table_entry_not_huge t i : 0 <= t < 2 ^ 48 -> t mod 4096 = 0 -> huge i (Z.lor (Z.lor t VMM_PRESENT) VMM_WRITE) = false.
Proof.
  intros Ht Hm. unfold huge, has_any. rewrite !Z.land_lor_distr_l. change (Z.land VMM_PRESENT VMM_PS) with 0. change (Z.land VMM_WRITE VMM_PS) with 0.
  rewrite <- (land_frame t) by done. rewrite <- Z.land_assoc. change (Z.land FRAME_MASK VMM_PS) with 0. rewrite Z.land_0_r. apply andb_false_r.
Qed.

Lemma index_range vaddr oob i : (i < 4)%nat -> 0 <= index vaddr oob i < 512.
Proof.
  intros Hi. assert (Hr : forall x, 0 <= Z.land x 511 < 512).
  { intros x. change 511 with (Z.ones 9). rewrite Z.land_ones by lia. apply Z.mod_pos_bound. lia. }
  do 4 (destruct i as [|i]; [apply Hr|]). lia.
Qed.

Lemma index_oob vaddr oob i : (i < 4)%nat -> index vaddr oob i = index vaddr 0 i.
Proof. intros Hi. do 4 (destruct i as [|i]; [done|]). lia. Qed.

(** The direct map: the word behind entry [k] of the table at physical [t]. *)
Lemma phys_of_entry s t k :
  phys_map_ready s = true -> 0 <= t < MAX_PAGES * 4096 -> 0 <= k < 512 ->
  phys_of (entry_at (phys_to_virt_pt s t) k) = t + 8 * k.
Proof.
  intros Hr Ht Hk. unfold phys_to_virt_pt, entry_at, phys_of, MAX_PAGES, PHYS_MAP_BASE in *. rewrite Hr.
  rewrite !wrap_small by (unfold fits; lia || (rewrite wrap_small; unfold fits; lia)).
  if_lia. lia.
Qed.

(** A page emptied of entries. *)
Definition cleared (s s' : vmm) (f : Z) : Prop :=
  pages s' = pages s /\ phys_map_ready s' = phys_map_ready s /\
  (forall k, 0 <= k < 512 -> mem s' (f + 8 * k) = 0) /\ (forall a, a / 4096 <> f / 4096 -> mem s' a = mem s a).

Lemma clear_table_mem s virt t :
  (forall k, 0 <= k < 512 -> phys_of (entry_at virt k) = t + 8 * k) -> t mod 4096 = 0 -> cleared s (clear_table s virt) t.
Proof.
  intros Hv Hm. unfold clear_table, cleared.
  apply (for_loop_ind (fun i s' => pages s' = pages s /\ phys_map_ready s' = phys_map_ready s /\
    (forall k, 0 <= k < i -> mem s' (t + 8 * k) = 0) /\ (forall a, a / 4096 <> t / 4096 -> mem s' a = mem s a))).
  { split_and!; [done|done|intros; lia|done]. }
  intros i s' Hi (Hp & Hr' & Hz & Ho). split_and!; [done|done| |]; unfold store; simpl; rewrite Hv by lia.
  - intros k Hk. unfold aset. destruct (Z.eqb_spec (t + 8 * k) (t + 8 * i)); [done|]. apply Hz. lia.
  - intros a Ha. rewrite aset_ne; [by apply Ho|]. intros ->. apply Ha. simpl in Hi. dlia.
Qed.

(** ** A table page from the allocator *)

(** The frame [f] is given out: [p'] is the allocator then. *)
Record given (p p' : pmm) (f : Z) : Prop := {
  gv_inv : pmm_inv p';
  gv_total : total_pages p' = total_pages p;
  gv_free : is_free p (f / 4096) = true;
  gv_frame : frame_used p' f;
  gv_used : forall t, frame_used p t -> frame_used p' t /\ t / 4096 <> f / 4096
}.

Lemma took_given p p' pfn : pmm_inv p -> took p p' pfn 1 -> given p p' (PFN_TO_PADDR pfn) /\ (pfn <> 0 -> PFN_TO_PADDR pfn <> 0).
Proof.
  intros Hi Htk. pose proof (wf_total _ (inv_wf _ Hi)) as Htot. pose proof (took_range _ _ _ _ Htk) as Hrange.
  assert (Hpfn : 0 <= pfn < MAX_PAGES) by lia. rewrite paddr_mul by done. assert (Hdiv : pfn * 4096 / 4096 = pfn) by (apply Z.div_mul; lia).
  assert (Hrun : in_run pfn 1 pfn = true) by (unfold in_run; lia). pose proof (took_free _ _ _ _ Htk pfn Hrun) as Hfr. split; [|lia]. split; rewrite ?Hdiv.
  - by eapply took_inv.
  - apply (took_counts _ _ _ _ Htk).
  - done.
  - split_and!; [lia|lia|apply Z.mod_mul; lia|]. rewrite Hdiv, (took_now _ _ _ _ Htk), Hrun by lia. done.
  - intros t (Ht & Hm & Hf). split; [|intros Et; congruence]. split_and!; [lia|lia|done|]. rewrite (took_now _ _ _ _ Htk) by dlia. by rewrite Hf, andb_false_r.
Qed.

Lemma alloc_table_spec s f s1 :
  phys_map_ready s = true -> pmm_inv (pages s) -> alloc_table s = Some (f, s1) ->
  mem s1 = mem s /\ phys_map_ready s1 = true /\ given (pages s) (pages s1) f.
Proof.
  intros Hr Hi. unfold alloc_table. rewrite Hr. simpl.
  destruct (pmm_alloc_page_cases (pages s) (inv_wf _ Hi)) as [(pfn & Hch & E & Htk)|[E _]]; rewrite E in *; [|done].
  apply took_given in Htk as [Hg _]; [|done]. unfold alloc_counted in *. simpl in Hg. case_match; [done|]. intros [= <- <-]. by split_and!.
Qed.

(** * The walk of the code and the walk of the processor *)

(** Every table the processor meets on the way is in a used frame. *)
Definition path_used (s : vmm) (n i : nat) (t vaddr : Z) : Prop :=
  forall m t', (m <= n)%nat -> descend m i (mem s) t vaddr = Some t' -> frame_used (pages s) t'.

Lemma path_used_head s n i t vaddr : path_used s n i t vaddr -> frame_used (pages s) t.
Proof. intros H. by apply (H 0%nat); [lia|]. Qed.

Lemma path_used_next s n i t vaddr :
  path_used s (S n) i t vaddr -> present (mem s (t + 8 * index vaddr 0 i)) = true ->
  path_used s n (S i) (Z.land (mem s (t + 8 * index vaddr 0 i)) FRAME_MASK) vaddr.
Proof. intros H Hp m t' Hm Hd. apply (H (S m)); [lia|]. simpl. by rewrite Hp. Qed.

Lemma path_used_cons s n i t vaddr :
  frame_used (pages s) t -> path_used s n (S i) (Z.land (mem s (t + 8 * index vaddr 0 i)) FRAME_MASK) vaddr -> path_used s (S n) i t vaddr.
Proof.
  intros Ht H [|m] t' Hm Hd; [by injection Hd as <-|]. cbn [descend] in Hd. destruct (present _); [|done]. apply (H m); [lia|done].
Qed.

(** Looking up changes nothing and finds the entry of the table the processor
    reaches. *)
Lemma walk_find n : forall i s t vaddr oob,
  phys_map_ready s = true -> (i + n <= 4)%nat -> path_used s n i t vaddr ->
  walk n i s (phys_to_virt_pt s t) vaddr false oob =
  (match descend n i (mem s) t vaddr with
   | Some t' => Some (entry_at (phys_to_virt_pt s t') (index vaddr oob (i + n)))
   | None => None
   end, s).
Proof.
  induction n as [|n IH]; intros i s t vaddr oob Hr Hn Hp.
  { simpl. by rewrite Nat.add_0_r. }
  cbn [walk descend]. pose proof (path_used_head _ _ _ _ _ Hp) as (Ht & _).
  assert (Hslot : load s (entry_at (phys_to_virt_pt s t) (index vaddr oob i)) = mem s (t + 8 * index vaddr 0 i)).
  { unfold load. rewrite phys_of_entry, index_oob; [done|lia|done|lia|]. apply index_range. lia. }
  rewrite Hslot. destruct (present _) eqn:E; [|done].
  rewrite IH by (done || lia || by apply path_used_next). by rewrite Nat.add_succ_comm.
Qed.

(** What a creating walk leaves: the processor now reaches the table whose entry
    is returned, and nothing that was present has changed. *)
Record grown (s s' : vmm) : Prop := {
  gr_ready : phys_map_ready s' = true;
  gr_inv : pmm_inv (pages s');
  gr_used : forall t, frame_used (pages s) t -> frame_used (pages s') t;
  gr_keep : forall t k, frame_used (pages s) t -> 0 <= k < 512 -> present (mem s (t + 8 * k)) = true ->
    mem s' (t + 8 * k) = mem s (t + 8 * k)
}.

Lemma grown_trans s s1 s2 : grown s s1 -> grown s1 s2 -> grown s s2.
Proof.
  intros [_ _ Hu1 Hk1] [Hr Hi Hu2 Hk2]. split; [done|done|by auto|].
  intros t k Ht Hk Hp. rewrite Hk2; [by apply Hk1|by apply Hu1|done|]. by rewrite Hk1.
Qed.

(** One new table linked at an absent entry. *)
Lemma link_table s f s1 s1' t k :
  phys_map_ready s = true -> pmm_inv (pages s) -> alloc_table s = Some (f, s1) -> cleared s1 s1' f ->
  frame_used (pages s) t -> 0 <= k < 512 -> present (mem s (t + 8 * k)) = false ->
  let slot := entry_at (phys_to_virt_pt s t) k in
  let s2 := store s1' slot (Z.lor (Z.lor f VMM_PRESENT) VMM_WRITE) in
  grown s s2 /\ frame_used (pages s2) f /\ is_free (pages s) (f / 4096) = true /\
  load s2 slot = Z.lor (Z.lor f VMM_PRESENT) VMM_WRITE /\
  mem s2 (t + 8 * k) = Z.lor (Z.lor f VMM_PRESENT) VMM_WRITE /\
  forall j, 0 <= j < 512 -> mem s2 (f + 8 * j) = 0.
Proof.
  intros Hr Hi E (Hcp & Hcr & Hcz & Hco) Ht Hk Habs slot.
  destruct (alloc_table_spec s f s1 Hr Hi E) as (Hm1 & Hr1 & [Hi1 _ Hfree Hf Hu]).
  destruct (Hu t Ht) as [_ Hne]. pose proof Ht as (Htr & Htm & _). pose proof Hf as (Hfr & Hfm & _).
  assert (Hslot : phys_of slot = t + 8 * k) by (by apply phys_of_entry).
  assert (Htf : (t + 8 * k) / 4096 = t / 4096) by dlia. unfold load, store. simpl. rewrite Hslot, aset_eq.
  split_and!; try done; [| |].
  - split; simpl; [by rewrite Hcr|by rewrite Hcp|rewrite Hcp; apply Hu|].
    intros t2 k2 Ht2 Hk2 Hp2. rewrite aset_ne by (intros Eq; rewrite Eq in Hp2; congruence).
    destruct (Hu t2 Ht2) as [_ Hne2]. destruct Ht2 as (? & ? & _). rewrite Hco, Hm1; [done|].
    replace ((t2 + 8 * k2) / 4096) with (t2 / 4096) by dlia. done.
  - by rewrite Hcp.
  - intros j Hj. rewrite aset_ne; [by apply Hcz|]. intros Eq. apply Hne. dlia.
Qed.

(** Tables apart from a frame: the first one and those behind it. *)
Lemma descend_apart n i m t vaddr x :
  t / 4096 <> x ->
  (if present (m (t + 8 * index vaddr 0 i)) then
     forall j tj, (j < n)%nat -> descend j (S i) m (Z.land (m (t + 8 * index vaddr 0 i)) FRAME_MASK) vaddr = Some tj ->
       tj / 4096 <> x
   else True) ->
  forall j tj, (j < S n)%nat -> descend j i m t vaddr = Some tj -> tj / 4096 <> x.
Proof.
  intros Ht Hrest [|j] tj Hj Hd; [by injection Hd as <-|]. cbn [descend] in Hd.
  destruct (present _); [|done]. eapply Hrest; [|exact Hd]. lia.
Qed.

(** A creating walk over [n] levels from the table at [t] that ends at the table [t']. *)
Record walked (n i : nat) (vaddr : Z) (s : vmm) (t : Z) (s' : vmm) (t' : Z) : Prop := {
  wk_end : descend n i (mem s') t vaddr = Some t';
  wk_grown : grown s s';
  wk_path : path_used s' n i t vaddr;
  wk_plain : plain n i (mem s) t vaddr -> plain n i (mem s') t vaddr;
  wk_fresh : descend n i (mem s) t vaddr = None -> is_free (pages s) (t' / 4096) = true /\
    forall m tm, (m < n)%nat -> descend m i (mem s') t vaddr = Some tm -> tm / 4096 <> t' / 4096
}.

(** The next table is there. *)
Lemma walked_keep n i vaddr s t s' t' :
  let e := mem s (t + 8 * index vaddr 0 i) in
  frame_used (pages s) t -> (i < 4)%nat -> present e = true -> walked n (S i) vaddr s (Z.land e FRAME_MASK) s' t' -> walked (S n) i vaddr s t s' t'.
Proof.
  intros e Ht Hi He [Hd Hg Hp Hpl Hf]. assert (Hir : 0 <= index vaddr 0 i < 512) by (by apply index_range).
  assert (Ek : mem s' (t + 8 * index vaddr 0 i) = e) by (by apply (gr_keep _ _ Hg)).
  split; [cbn [descend]; by rewrite Ek, He|done| | |].
  - apply path_used_cons; [by apply (gr_used _ _ Hg)|]. by rewrite Ek.
  - rewrite !plain_path_cons. fold e. rewrite Ek. intros H _. destruct (H He) as [Hh Hn]. split; [done|by apply Hpl].
  - cbn [descend]. fold e. rewrite He. intros Hnone. destruct (Hf Hnone) as [Hfree Hap]. split; [done|].
    apply descend_apart; [by intros Eq; destruct Ht as (_ & _ & Ht'); rewrite Eq, Hfree in Ht'|]. by rewrite Ek, He.
Qed.

(** The next table is a new one. *)
Lemma walked_link n i vaddr s t f s2 s' t' :
  let e := Z.lor (Z.lor f VMM_PRESENT) VMM_WRITE in
  frame_used (pages s) t -> (S i + n <= 4)%nat -> grown s s2 -> frame_used (pages s2) f -> is_free (pages s) (f / 4096) = true ->
  mem s2 (t + 8 * index vaddr 0 i) = e -> (forall j, 0 <= j < 512 -> mem s2 (f + 8 * j) = 0) ->
  walked n (S i) vaddr s2 f s' t' -> walked (S n) i vaddr s t s' t'.
Proof.
  intros e Ht Hi Hg Hfu Hfree Hmem Hzero [Hd Hg2 Hp Hpl Hf]. assert (Hir : 0 <= index vaddr 0 i < 512) by (apply index_range; lia).
  pose proof Hfu as (Hfr & Hfm & _). assert (He : present e = true) by apply table_entry_present.
  assert (Ef : Z.land e FRAME_MASK = f) by (apply table_entry_field; [unfold MAX_PAGES in *; lia|done]).
  assert (Ek : mem s' (t + 8 * index vaddr 0 i) = e) by (rewrite (gr_keep _ _ Hg2); [done|by apply (gr_used _ _ Hg)|done|by rewrite Hmem]).
  assert (Hpl2 : plain n (S i) (mem s2) f vaddr) by (destruct n; [intros ? ? ?; lia|]; apply plain_path_cons; rewrite Hzero; [done|apply index_range; lia]).
  assert (Hfresh : is_free (pages s) (t' / 4096) = true /\ forall m tm, (m < n)%nat -> descend m (S i) (mem s') f vaddr = Some tm -> tm / 4096 <> t' / 4096).
  { destruct n as [|n]; [injection Hd as <-; split; [done|lia]|].
    destruct Hf as [Hfr2 Hap]; [cbn [descend]; rewrite Hzero; [done|apply index_range; lia]|]. split; [|done].
    destruct (is_free (pages s) (t' / 4096)) eqn:E; [done|]. destruct (Hp (S n) t' ltac:(lia) Hd) as (Hur & Hum & _).
    pose proof (gr_used _ _ Hg t' ltac:(by split)) as (_ & _ & ?). congruence. }
  destruct Hfresh as [Hfr' Hap]. split; [cbn [descend]; by rewrite Ek, He, Ef|by eapply grown_trans| | |].
  - apply path_used_cons; [by apply (gr_used _ _ Hg2), (gr_used _ _ Hg)|]. by rewrite Ek, Ef.
  - intros _. rewrite plain_path_cons, Ek, Ef. intros _. split; [apply table_entry_not_huge; [unfold MAX_PAGES in *; lia|done]|by apply Hpl].
  - intros _. split; [done|]. apply descend_apart; [by intros Eq; destruct Ht as (_ & _ & Ht'); rewrite Eq, Hfr' in Ht'|]. by rewrite Ek, He, Ef.
Qed.

Lemma walk_create n : forall i s t vaddr oob p s',
  phys_map_ready s = true -> pmm_inv (pages s) -> (i + n <= 4)%nat -> path_used s n i t vaddr ->
  walk n i s (phys_to_virt_pt s t) vaddr true oob = (Some p, s') ->
  exists t', walked n i vaddr s t s' t' /\ p = entry_at (phys_to_virt_pt s' t') (index vaddr oob (i + n)).
Proof.
  induction n as [|n IH]; intros i s t vaddr oob p s' Hr Hi Hn Hp.
  { simpl. rewrite Nat.add_0_r. intros [= <- <-]. exists t. split; [|done]. split; [done|by split|done|done|]. intros [=]. }
  pose proof (path_used_head _ _ _ _ _ Hp) as Ht. pose proof Ht as (Htr & Htm & _).
  assert (Hir : 0 <= index vaddr 0 i < 512) by (apply index_range; lia).
  cbn [walk]. rewrite (index_oob _ oob i) by lia.
  assert (Hslot : load s (entry_at (phys_to_virt_pt s t) (index vaddr 0 i)) = mem s (t + 8 * index vaddr 0 i)).
  { unfold load. by rewrite phys_of_entry. }
  rewrite Hslot. rewrite <- Nat.add_succ_comm. destruct (present (mem s (t + 8 * index vaddr 0 i))) eqn:E.
  - intros Hw. apply IH in Hw as (t' & Hw & Hpe); [|done|done|lia|by apply path_used_next].
    exists t'. split; [|done]. apply walked_keep; (done || lia).
  - cbn [negb]. destruct (alloc_table s) as [[f s1]|] eqn:Ea; [|done]. destruct (_ =? 0); [done|].
    destruct (alloc_table_spec s f s1 Hr Hi Ea) as (_ & Hr1 & [_ _ _ (Hf1 & Hf2 & _) _]).
    pose proof (clear_table_mem s1 (phys_to_virt_pt s1 f) f (fun k => phys_of_entry s1 f k Hr1 Hf1) Hf2) as Hcl. set (s1' := clear_table s1 _) in *. clearbody s1'.
    destruct (link_table s f s1 s1' t _ Hr Hi Ea Hcl Ht Hir E) as (Hg & Hfu & Hfree & Hload & Hmem & Hzero).
    set (s2 := store _ _ _) in *. clearbody s2. rewrite Hload. pose proof Hfu as (Hfr & Hfm & _).
    rewrite table_entry_field by (done || unfold MAX_PAGES in *; lia). intros Hw.
    apply IH in Hw as (t' & Hw & Hpe); [|apply Hg|apply Hg|lia|].
    { exists t'. split; [|done]. apply (walked_link n i vaddr s t f s2); (done || lia). }
    intros [|m] t' Hm Hd; [by injection Hd as <-|]. cbn [descend] in Hd. rewrite Hzero in Hd; [done|]. apply index_range. lia.
Qed.

(** ** Around the walk *)

Lemma descend_snoc n : forall i m t vaddr,
  descend (S n) i m t vaddr =
  match descend n i m t vaddr with
  | Some t' => let e := m (t' + 8 * index vaddr 0 (i + n)) in
               if present e then Some (Z.land e FRAME_MASK) else None
  | None => None
  end.
Proof.
  induction n as [|n IH]; intros i m t vaddr; [cbn [descend]; by rewrite Nat.add_0_r|].
  cbn [descend]. destruct (present (m (t + 8 * index vaddr 0 i))); [|done].
  specialize (IH (S i) m (Z.land (m (t + 8 * index vaddr 0 i)) FRAME_MASK) vaddr). cbn [descend] in IH.
  rewrite IH. by rewrite Nat.add_succ_comm.
Qed.

Lemma descend_ext n : forall i m m' t vaddr,
  (forall j tj, (j < n)%nat -> descend j i m t vaddr = Some tj ->
     m' (tj + 8 * index vaddr 0 (i + j)) = m (tj + 8 * index vaddr 0 (i + j))) ->
  descend n i m' t vaddr = descend n i m t vaddr.
Proof.
  induction n as [|n IH]; intros i m m' t vaddr H; [done|]. rewrite !descend_snoc, (IH i m m' t vaddr).
  - destruct (descend n i m t vaddr) as [t'|] eqn:E; [|done]. by rewrite (H n t') by (done || lia).
  - intros j tj Hj. apply H. lia.
Qed.

(** Tables are page aligned, so that an entry lies in its table's frame. *)
Lemma descend_aligned n : forall i m t vaddr t',
  t mod 4096 = 0 -> descend n i m t vaddr = Some t' -> t' mod 4096 = 0.
Proof.
  induction n as [|n IH]; intros i m t vaddr t' Ht; cbn [descend]; [by intros [= <-]|].
  destruct (present _); [|done]. apply IH. change 4096 with (2 ^ 12). rewrite <- Z.land_ones by lia.
  rewrite <- Z.land_assoc. change (Z.land FRAME_MASK (Z.ones 12)) with 0. apply Z.land_0_r.
Qed.

Lemma table_word_frame m cr3 vaddr n tj k :
  cr3 mod 4096 = 0 -> descend n 0 m cr3 vaddr = Some tj -> 0 <= k < 512 -> (tj + 8 * k) / 4096 = tj / 4096.
Proof. intros Hc Hd Hk. pose proof (descend_aligned _ _ _ _ _ _ Hc Hd). dlia. Qed.

(** A space whose root is reached through the direct map. *)
Lemma get_entry_root s vaddr level create oob cr3 :
  phys_map_ready s = true -> 0 <= cr3 < MAX_PAGES * 4096 ->
  get_page_table_entry s (u64 (cr3 + PHYS_MAP_BASE)) vaddr level create oob =
  walk level 0 s (phys_to_virt_pt s cr3) vaddr create oob.
Proof.
  intros Hr Hc. unfold get_page_table_entry, MAX_PAGES, PHYS_MAP_BASE in *. rewrite Hr.
  rewrite wrap_small by (unfold fits; lia). simpl. if_lia. by replace (cr3 + _ - _) with cr3 by lia.
Qed.

Lemma copy_page_mem s dst src :
  phys_map_ready s = true -> 0 <= dst < MAX_PAGES * 4096 -> dst mod 4096 = 0 ->
  let s' := copy_page s (phys_to_virt_pt s dst) src in
  pages s' = pages s /\ forall a, a / 4096 <> dst / 4096 -> mem s' a = mem s a.
Proof.
  intros Hr Hd Hm. unfold copy_page.
  apply (for_loop_ind (fun i s' => pages s' = pages s /\ forall a, a / 4096 <> dst / 4096 -> mem s' a = mem s a)).
  { done. }
  intros i s' Hi (Hp & Ho). split; [done|]. unfold store. cbn [mem with_mem]. rewrite phys_of_entry by (done || lia).
  intros a Ha. rewrite aset_ne; [by apply Ho|]. intros ->. apply Ha. simpl in Hi. dlia.
Qed.

(** The frame field of the entry [vmm_handle_cow_fault] writes. *)
Lemma cow_entry_field new e :
  Z.land (Z.lor (Z.land new FRAME_MASK) (Z.lor (Z.land e (Z.lnot VMM_COW)) VMM_WRITE)) FRAME_MASK =
  Z.lor (Z.land new FRAME_MASK) (Z.land e FRAME_MASK).
Proof.
  apply Z.bits_inj'. intros b Hb.
  repeat rewrite ?Z.land_spec, ?Z.lor_spec. rewrite Z.lnot_spec by done.
  assert (Hz : forall x, Z.land x FRAME_MASK = 0 -> (Z.testbit x b && Z.testbit FRAME_MASK b)%bool = false).
  { intros x Hx. by rewrite <- Z.land_spec, Hx, Z.bits_0. }
  pose proof (Hz VMM_COW eq_refl). pose proof (Hz VMM_WRITE eq_refl).
  destruct (Z.testbit new b), (Z.testbit e b), (Z.testbit VMM_COW b), (Z.testbit VMM_WRITE b),
    (Z.testbit FRAME_MASK b); done.
Qed.

(** * Properties *)

(** A walk that may not create tables leaves the state alone. *)
Lemma walk_find_state n : forall i s table vaddr oob, snd (walk n i s table vaddr false oob) = s.
Proof. induction n as [|n IH]; intros i s table vaddr oob; simpl; [done|]. case_match; [apply IH|done]. Qed.

Lemma get_entry_find_state s root vaddr level oob : snd (get_page_table_entry s root vaddr level false oob) = s.
Proof. apply walk_find_state. Qed.

Lemma vmm_map_page_keeps (s : vmm) (cr3 vaddr paddr flags oob : Z) (sp : address_space_t) (s' : vmm) :
  phys_map_ready s = true -> pmm_inv (pages s) -> pml4 sp = u64 (cr3 + PHYS_MAP_BASE) ->
  path_used s 4 0 cr3 vaddr -> vmm_map_page s (Some sp) vaddr paddr flags oob = (0, s') ->
  phys_map_ready s' = true /\ pmm_inv (pages s').
Proof.
  intros Hr Hi Hsp Hp. pose proof (path_used_head _ _ _ _ _ Hp) as (Hc & Hcm & _).
  unfold vmm_map_page. simpl. rewrite Hsp, get_entry_root by done.
  destruct (walk 4 0 s _ vaddr true oob) as [[p|] s1] eqn:E; [|done]. intros [= <-].
  destruct (walk_create 4 0 s cr3 vaddr oob p s1 Hr Hi ltac:(lia) Hp E) as (t & [_ Hg _ _ _] & _).
  split; apply Hg.
Qed.

(** A store into the page that a creating walk ends at leaves the walk as it is. *)
Lemma walked_store vaddr cr3 s s1 t k v :
  cr3 mod 4096 = 0 -> 0 <= k < 512 -> walked 4 0 vaddr s cr3 s1 t -> descend 4 0 (mem s) cr3 vaddr = None ->
  let s' := store s1 (entry_at (phys_to_virt_pt s1 t) k) v in
  mem s' = (mem s1).[t + 8 * k <- v] /\ pages s' = pages s1 /\ phys_map_ready s' = true /\
  forall n, (n <= 4)%nat -> descend n 0 (mem s') cr3 vaddr = descend n 0 (mem s1) cr3 vaddr.
Proof.
  intros Hcm Hk Hw Hun s'. pose proof (gr_ready _ _ (wk_grown _ _ _ _ _ _ _ Hw)) as Hr1. destruct (wk_fresh _ _ _ _ _ _ _ Hw Hun) as [_ Hap].
  destruct (wk_path _ _ _ _ _ _ _ Hw 4%nat t ltac:(lia) (wk_end _ _ _ _ _ _ _ Hw)) as (Hut & Hum & _).
  assert (E : mem s' = (mem s1).[t + 8 * k <- v]) by (unfold s', store; cbn [mem with_mem]; by rewrite phys_of_entry).
  split; [done|]. split; [done|]. split; [done|]. intros n Hn. rewrite E. apply descend_ext.
  intros j tj Hj Hdj. rewrite aset_ne; [done|]. intros Eq. apply (Hap j tj ltac:(lia) Hdj).
  rewrite <- (table_word_frame (mem s1) cr3 vaddr j tj (index vaddr 0 j)); [|done|done|apply index_range; lia]. simpl in Eq. rewrite Eq. dlia.
Qed.

(** The entry that [vmm_map_page] stores. *)
Lemma page_entry_field paddr flags p : frame_used p paddr -> Z.land flags FRAME_MASK = 0 -> Z.land (Z.lor (Z.land paddr FRAME_MASK) flags) FRAME_MASK = paddr.
Proof. intros Hp Hf. by rewrite Z.land_lor_distr_l, (used_land _ _ Hp), (used_land _ _ Hp), Hf, Z.lor_0_r. Qed.

Lemma page_entry_present paddr flags : present flags = true -> present (Z.lor (Z.land paddr FRAME_MASK) flags) = true.
Proof.
  unfold present, has_any. rewrite !negb_true_iff, !Z.eqb_neq, Z.land_lor_distr_l. intros Hf E. apply Hf. by apply Z.lor_eq_0_iff in E as [_ ?].
Qed.

(** C37. Mapping a page misses the processor.  Every caller of [get_page_table_entry] asks
    for level 4, one level too far, and the last index is the word behind the four-element
    array, here [oob], an index within a table.  The direct map is ready, the tables on the
    way are in used frames and the processor has no translation for the address, huge pages
    included.  If [vmm_map_page] then reports success for a page in a used frame, the
    processor translates the address to a fresh page that the walk allocated as one more
    table, never to the requested one; the entry for the requested page is in that page.
    [vmm_get_physical], which makes the same mistake, answers with the requested page,
    provided that it reads the same word behind the array and that the flags have the
    present bit and none in the address field. *)
Theorem vmm_map_page_misdirects (s : vmm) (cr3 vaddr paddr flags oob : Z) (sp : address_space_t) (s' : vmm)
  (Hr : phys_map_ready s = true) (Hi : pmm_inv (pages s)) (Hsp : pml4 sp = u64 (cr3 + PHYS_MAP_BASE))
  (Hp : path_used s 4 0 cr3 vaddr) (Hun : translate (mem s) cr3 vaddr = None)
  (Hpa : frame_used (pages s) paddr) (Hoob : 0 <= oob < 512)
  (Hok : vmm_map_page s (Some sp) vaddr paddr flags oob = (0, s')) :
  exists page, translate (mem s') cr3 vaddr = Some page /\ is_free (pages s) (page / 4096) = true /\ page <> paddr /\
    load s' (entry_at (phys_to_virt_pt s' page) oob) = Z.lor (Z.land paddr FRAME_MASK) flags /\
    (present flags = true -> Z.land flags FRAME_MASK = 0 -> vmm_get_physical s' (Some sp) vaddr oob = paddr + Z.land vaddr 0xFFF).
Proof.
  pose proof (path_used_head _ _ _ _ _ Hp) as (Hc & Hcm & _). unfold vmm_map_page in Hok. simpl in Hok. rewrite Hsp in Hok.
  rewrite get_entry_root in Hok by done. apply mmu_walk_None in Hun as [Hpl Hun].
  destruct (walk 4 0 s _ vaddr true oob) as [[p|] s1] eqn:E; [|done]. injection Hok as <-.
  destruct (walk_create 4 0 s cr3 vaddr oob p s1 Hr Hi ltac:(lia) Hp E) as (t & Hw & ->). change (index vaddr oob (0 + 4)) with oob.
  destruct (walked_store vaddr cr3 s s1 t oob (Z.lor (Z.land paddr FRAME_MASK) flags) Hcm Hoob Hw Hun) as (Hm & Hpg & Hr' & Hds).
  set (s' := store _ _ _) in *. destruct (wk_fresh _ _ _ _ _ _ _ Hw Hun) as [Hfree Hap].
  assert (Hd : descend 4 0 (mem s') cr3 vaddr = Some t) by (rewrite Hds by lia; apply Hw).
  assert (Hpath : path_used s' 4 0 cr3 vaddr) by (intros n t' Hn; rewrite Hds, Hpg by done; by apply Hw).
  destruct (Hpath 4%nat t ltac:(lia) Hd) as (Hut & Hum & _).
  assert (Hload : load s' (entry_at (phys_to_virt_pt s' t) oob) = Z.lor (Z.land paddr FRAME_MASK) flags) by (unfold load; rewrite phys_of_entry by done; rewrite Hm; apply aset_eq).
  exists t. split_and!; [|done|intros ->; destruct Hpa as (_ & _ & ?); congruence|done|].
  - unfold translate. rewrite mmu_walk_plain; [done|]. intros j tj Hj Hdj. rewrite Hds in Hdj by lia. rewrite Hm, aset_ne; [by apply (wk_plain _ _ _ _ _ _ _ Hw Hpl)|].
    intros Eq. apply (Hap j tj Hj Hdj). rewrite <- (table_word_frame (mem s1) cr3 vaddr j tj (index vaddr 0 j)); [|done|done|by apply index_range]. simpl in Eq. rewrite Eq. dlia.
  - intros Hf1 Hf2. unfold vmm_get_physical. simpl space_of. rewrite Hsp, get_entry_root, walk_find, Hd by (done || lia). change (index vaddr oob (0 + 4)) with oob.
    rewrite Hload, page_entry_present, (page_entry_field _ _ (pages s)) by done. cbn [negb]. apply wrap_small. destruct Hpa as (? & _). unfold MAX_PAGES in *.
    change 0xFFF with (Z.ones 12). rewrite Z.land_ones by lia. pose proof (Z.mod_pos_bound vaddr (2 ^ 12) ltac:(lia)). change (2 ^ 12) with 4096 in *. fits_lia.
Qed.

(** [vmm_handle_cow_fault] keeps the old entry's address bits among the
    flags: after a successful fault the entry's frame is the bitwise union of the
    old and the new frame, not the new page that was filled with the copy. *)
Theorem cow_fault_mixes_frames (s : vmm) (sp : address_space_t) (vaddr oob pte new : Z) (p' : pmm)
  (Hr : phys_map_ready s = true) (Hi : pmm_inv (pages s))
  (Hpte : get_page_table_entry s (pml4 sp) vaddr 4 false oob = (Some pte, s))
  (Hpres : present (load s pte) = true) (Hcow : has_any (load s pte) VMM_COW = true)
  (Hused : is_free (pages s) (phys_of pte / 4096) = false)
  (Hnew : pmm_alloc_page (pages s) = (p', new)) (Hnz : new <> 0) :
  let (rc, s') := vmm_handle_cow_fault s (Some sp) vaddr oob in
  rc = 0 /\ Z.land (load s' pte) FRAME_MASK = Z.lor new (Z.land (load s pte) FRAME_MASK).
Proof.
  unfold vmm_handle_cow_fault. simpl space_of. rewrite Hpte, Hpres, Hcow, Hnew. cbn [negb].
  destruct (Z.eqb_spec new 0); [done|].
  assert (Ha : alloc_table s = Some (new, with_pages s p')).
  { unfold alloc_table. rewrite Hr, Hnew. simpl. by destruct (Z.eqb_spec new 0). }
  destruct (alloc_table_spec s new _ Hr Hi Ha) as (_ & Hr1 & [_ _ Hfree Hu _]). pose proof Hu as (Hn & Hm & _).
  destruct (copy_page_mem (with_pages s p') new (u64 (Z.land (load s pte) FRAME_MASK + PHYS_MAP_BASE)) Hr1 Hn Hm) as [_ Hkeep].
  unfold phys_to_virt_pt in Hkeep. rewrite Hr1 in Hkeep. set (s1 := copy_page _ _ _) in *. clearbody s1.
  assert (Hload : load s1 pte = load s pte).
  { unfold load. rewrite Hkeep; [done|]. intros Eq. rewrite Eq in Hused. congruence. }
  rewrite Hload. split; [done|]. unfold load at 1, store. cbn [mem with_mem with_pages]. rewrite aset_eq.
  rewrite cow_entry_field. by rewrite (used_land _ _ Hu).
Qed.

(** ** Witnesses: a small machine with an empty address space *)

(** 32 frames above 2 MiB; frames 512 (the root table) and 513 are in use. *)
Definition demo_pages : pmm :=
  {| page_bitmap := fun i => if i <? 64 then 255 else if i =? 64 then 3 else if i <? 68 then 0 else 255;
     page_refcount := fun _ => 1; total_pages := 544; free_pages := 30; used_pages := 514;
     highest_addr := 0x220000; last_allocated := 512 |}.
Definition demo_cr3 : Z := 0x200000.
Definition demo_page : Z := 0x201000.
Definition demo_space : address_space_t := {| pml4 := u64 (demo_cr3 + PHYS_MAP_BASE); asid := 1 |}.
Definition demo_vmm : vmm :=
  {| pages := demo_pages; mem := fun _ => 0; kernel_address_space := demo_space; next_asid := 2; phys_map_ready := true; phys_map_max_addr := 0x220000 |}.

Lemma demo_pages_inv : pmm_inv demo_pages.
Proof.
  split; [split|vm_compute; reflexivity]; [|vm_compute; reflexivity|done| |unfold fits; simpl; lia].
  { change (0 <= 544 <= MAX_PAGES). unfold MAX_PAGES. lia. }
  intros i Hi. change (total_pages demo_pages) with 544 in Hi. unfold is_free. rewrite bitmap_test_testbit by lia. simpl.
  replace (i / 8 <? 64) with false by (symmetry; dlia). replace (i / 8 =? 64) with false by (symmetry; dlia).
  replace (i / 8 <? 68) with false by (symmetry; dlia). change 255 with (Z.ones 8).
  rewrite Z.ones_spec_low; [done|dlia].
Qed.

Lemma demo_used t : In t [demo_cr3; demo_page] -> frame_used demo_pages t.
Proof. intros [<-|[<-|[]]]; split_and!; vm_compute; congruence. Qed.

Lemma demo_path n : path_used demo_vmm n 0 demo_cr3 0x400000.
Proof. intros [|m] t Hm Hd; [|done]. injection Hd as <-. apply demo_used. by left. Qed.

Definition demo_mapped : vmm := snd (vmm_map_page demo_vmm (Some demo_space) 0x400000 demo_page 0x201 3).

Lemma demo_map_ok : vmm_map_page demo_vmm (Some demo_space) 0x400000 demo_page 0x201 3 = (0, demo_mapped).
Proof. unfold demo_mapped. apply split_pair; [vm_compute; reflexivity|apply eq_refl]. Qed.

Lemma vmm_map_page_misdirects_witness :
  exists page, translate (mem demo_mapped) demo_cr3 0x400000 = Some page /\
    is_free demo_pages (page / 4096) = true /\ page <> demo_page.
Proof.
  destruct (vmm_map_page_misdirects demo_vmm demo_cr3 0x400000 demo_page 0x201 3 demo_space demo_mapped
              eq_refl demo_pages_inv eq_refl (demo_path 4) eq_refl (demo_used demo_page ltac:(right; left; reflexivity))
              ltac:(lia) demo_map_ok) as (page & H1 & H2 & H3 & _).
  exists page. split; [exact H1|]. split; [exact H2|exact H3].
Defined.

(** The level 4 entry of the page mapped above carries [VMM_COW]. *)
Lemma demo_mapped_inv : phys_map_ready demo_mapped = true /\ pmm_inv (pages demo_mapped).
Proof.
  exact (vmm_map_page_keeps demo_vmm demo_cr3 0x400000 demo_page 0x201 3 demo_space demo_mapped
           eq_refl demo_pages_inv eq_refl (demo_path 4) demo_map_ok).
Qed.

Lemma cow_fault_mixes_frames_witness :
  Z.land (load (snd (vmm_handle_cow_fault demo_mapped (Some demo_space) 0x400000 3)) 0xFFFF800000205018) FRAME_MASK = 0x207000.
Proof.
  destruct demo_mapped_inv as [Hr Hi].
  pose proof (cow_fault_mixes_frames demo_mapped demo_space 0x400000 3 0xFFFF800000205018 0x206000
                (fst (pmm_alloc_page (pages demo_mapped))) Hr Hi) as H.
  destruct (vmm_handle_cow_fault demo_mapped (Some demo_space) 0x400000 3) as [rc s'].
  destruct H as [_ H]; [..|simpl; rewrite H].
  - apply split_pair; [vm_compute; reflexivity|]. apply get_entry_find_state.
  - vm_compute. reflexivity.
  - vm_compute. reflexivity.
  - vm_compute. reflexivity.
  - apply split_pair; [apply eq_refl|]. vm_compute. reflexivity.
  - discriminate.
  - vm_compute. reflexivity.
Defined.
