(* ===== verification/DirectMap.v ===== *)
(** * The direct map of physical memory (kernel/mm/vmm.c, [vmm_init])

    [vmm_init] extends the boot loader's page tables so that all physical memory is mapped
    from [PHYS_MAP_BASE] on, with huge pages of 2 MiB.  While it runs, memory is reached
    through the boot loader's identity map, so a pointer is a physical address.  The
    register CR3 is an argument; the change of CR4 and the interrupt flag are left out.
    The result is held against the processor's translation of [Vmm]. *)

From stdpp Require Import base tactics list numbers option.
From Stdlib Require Import Lia.
From S2P Require Import Prelude Pmm Vmm.

Definition HUGE_PAGE_SIZE : Z := 2 * 1024 * 1024.

(** The new table is emptied and entered. *)
Definition enter_table (s : vmm) (slot phys : Z) : vmm :=
  store (clear_table s phys) slot (Z.lor (Z.lor phys VMM_PRESENT) VMM_WRITE).

(** [if (!(slot & VMM_PRESENT))]: a table from low memory; the answer is [false] where the
    code leaves the loop. *)
Definition early_table (s : vmm) (slot : Z) : bool * vmm :=
  if present (load s slot) then (true, s)
  else
    let (p, phys) := pmm_alloc_page_low (pages s) in
    let s := with_pages s p in
    if phys =? 0 then (false, s) else (true, enter_table s slot phys).

(** The loop from [paddr] on, with [huge_pages_mapped] so far. *)
Fixpoint direct_map (fuel : nat) (s : vmm) (cr3 paddr memory_to_map huge_pages_mapped : Z) : Z * vmm :=
  match fuel with
  | O => (huge_pages_mapped, s)
  | S fuel =>
      if negb (paddr <? memory_to_map) then (huge_pages_mapped, s)
      else
        let vaddr := u64 (PHYS_MAP_BASE + paddr) in
        let pml4_slot := entry_at cr3 (index vaddr 0 0) in
        match early_table s pml4_slot with
        | (false, s) => (huge_pages_mapped, s)
        | (true, s) =>
            let pdp_slot := entry_at (Z.land (load s pml4_slot) FRAME_MASK) (index vaddr 0 1) in
            match early_table s pdp_slot with
            | (false, s) => (huge_pages_mapped, s)
            | (true, s) =>
                let pd := Z.land (load s pdp_slot) FRAME_MASK in
                let s := store s (entry_at pd (index vaddr 0 2)) (Z.lor (Z.lor (Z.lor paddr VMM_PRESENT) VMM_WRITE) VMM_PS) in
                direct_map fuel s cr3 (u64 (paddr + HUGE_PAGE_SIZE)) memory_to_map (u64 (huge_pages_mapped + 1))
            end
        end
  end.

Definition set_root (s : vmm) (root : Z) : vmm :=
  {| pages := pages s; mem := mem s; kernel_address_space := {| pml4 := root; asid := 0 |}; next_asid := next_asid s;
     phys_map_ready := phys_map_ready s; phys_map_max_addr := phys_map_max_addr s |}.

(** The number of huge pages, which the code prints, and the state.  The address grows by
    [HUGE_PAGE_SIZE] in each round, so the fuel is enough ([direct_map_built]). *)
Definition vmm_init (s : vmm) (cr3 : Z) : Z * vmm :=
  let s := set_root s cr3 in
  let memory_to_map := u64 (total_pages (pages s) * PAGE_SIZE) in
  let (mapped, s) := direct_map (Z.to_nat (memory_to_map / HUGE_PAGE_SIZE) + 1) s cr3 0 memory_to_map 0 in
  let s := {| pages := pages s; mem := mem s; kernel_address_space := kernel_address_space s; next_asid := next_asid s;
              phys_map_ready := true; phys_map_max_addr := memory_to_map |} in
  (mapped, set_root s (u64 (cr3 + PHYS_MAP_BASE))).

(** * Words and addresses *)

Definition table_entry (f : Z) : Z := Z.lor (Z.lor f VMM_PRESENT) VMM_WRITE.
Definition huge_entry (j : Z) : Z := Z.lor (Z.lor (Z.lor (j * HUGE_PAGE_SIZE) VMM_PRESENT) VMM_WRITE) VMM_PS.

Lemma phys_of_early t k : 0 <= t < MAX_PAGES * 4096 -> 0 <= k < 512 -> phys_of (entry_at t k) = t + 8 * k.
Proof. intros Ht Hk. unfold entry_at, phys_of, MAX_PAGES, PHYS_MAP_BASE in *. rewrite wrap_small by fits_lia. by if_lia. Qed.

(** The indices of an address of the direct map. *)
Lemma direct_index a : 0 <= a < MAX_PAGES * 4096 ->
  index (PHYS_MAP_BASE + a) 0 0 = 256 /\ index (PHYS_MAP_BASE + a) 0 1 = a / 2 ^ 21 / 512 /\ index (PHYS_MAP_BASE + a) 0 2 = a / 2 ^ 21 mod 512 /\
  Z.land (PHYS_MAP_BASE + a) 0x1FF000 = a / 4096 mod 512 * 4096.
Proof.
  intros Ha. unfold MAX_PAGES in Ha. unfold index. change 511 with (Z.ones 9). rewrite !Z.land_ones, !Z.shiftr_div_pow2 by lia.
  assert (Hland : Z.land (PHYS_MAP_BASE + a) 0x1FF000 = (PHYS_MAP_BASE + a) / 4096 mod 512 * 4096).
  { change 0x1FF000 with (Z.shiftl (Z.ones 9) 12). apply Z.bits_inj'. intros b Hb. change 4096 with (2 ^ 12). change 512 with (2 ^ 9).
    rewrite Z.land_spec, <- Z.shiftl_mul_pow2, <- Z.land_ones, <- Z.shiftr_div_pow2 by lia. destruct (Z.ltb_spec b 12).
    - by rewrite !Z.shiftl_spec_low, andb_false_r by lia.
    - rewrite !Z.shiftl_spec, Z.land_spec, Z.shiftr_spec by lia. do 2 f_equal. lia. }
  rewrite Hland. unfold PHYS_MAP_BASE. change (2 ^ 9) with 512. change (2 ^ 39) with 549755813888. change (2 ^ 30) with 1073741824. change (2 ^ 21) with 2097152.
  split_and!; dlia.
Qed.

Lemma huge_entry_ok j : 0 <= j < 2 ^ 20 -> present (huge_entry j) = true /\ huge 2 (huge_entry j) = true /\ Z.land (huge_entry j) 0xFFFFFFE00000 = j * HUGE_PAGE_SIZE.
Proof.
  intros Hj. unfold huge_entry, HUGE_PAGE_SIZE. split_and!.
  - unfold present, has_any. apply negb_true_iff, Z.eqb_neq. intros H. apply (f_equal (fun x => Z.testbit x 0)) in H.
    rewrite Z.land_spec, !Z.lor_spec in H. change (Z.testbit VMM_PRESENT 0) with true in H. by rewrite !orb_true_r in H.
  - unfold huge, has_any. cbn [Nat.eqb orb andb]. apply negb_true_iff, Z.eqb_neq. intros H. apply (f_equal (fun x => Z.testbit x 7)) in H.
    rewrite Z.land_spec, !Z.lor_spec in H. change (Z.testbit VMM_PS 7) with true in H. by rewrite !orb_true_r in H.
  - rewrite !Z.land_lor_distr_l. change (Z.land VMM_PRESENT 0xFFFFFFE00000) with 0. change (Z.land VMM_WRITE 0xFFFFFFE00000) with 0. change (Z.land VMM_PS 0xFFFFFFE00000) with 0.
    rewrite !Z.lor_0_r. change 0xFFFFFFE00000 with (Z.shiftl (Z.ones 27) 21). change (2 * 1024 * 1024) with (2 ^ 21).
    rewrite <- Z.shiftl_mul_pow2, <- Z.shiftl_land, Z.land_ones, Z.mod_small by (change (2 ^ 27) with 134217728; change (2 ^ 20) with 1048576 in *; lia). done.
Qed.

(** * One table *)

(** A table in the new frame [f] is entered at entry [k] of the table [t]. *)
Record linked (s : vmm) (t k f : Z) (s' : vmm) : Prop := {
  lk_given : given (pages s) (pages s') f;
  lk_slot : mem s' (t + 8 * k) = table_entry f;
  lk_zero : forall j, 0 <= j < 512 -> mem s' (f + 8 * j) = 0;
  lk_keep : forall a, a <> t + 8 * k -> a / 4096 <> f / 4096 -> mem s' a = mem s a
}.

(** Low memory, between 1 MiB and 128 MiB, is used up. *)
Definition low_exhausted (p : pmm) : Prop := forall i, 256 <= i < 32768 -> is_free p i = false.

Lemma early_table_present s t k :
  frame_used (pages s) t -> 0 <= k < 512 -> present (mem s (t + 8 * k)) = true -> early_table s (entry_at t k) = (true, s).
Proof. intros (Ht & _) Hk Hp. unfold early_table, load. by rewrite phys_of_early, Hp. Qed.

Lemma enter_cleared s p t k f s1 :
  given (pages s) p f -> frame_used (pages s) t -> 0 <= k < 512 -> cleared (with_pages s p) s1 f -> linked s t k f (store s1 (entry_at t k) (table_entry f)).
Proof.
  intros Hg Ht Hk (Hcp & _ & Hz & Ho). pose proof Ht as (Htr & Htm & _). destruct (gv_frame _ _ _ Hg) as (Hfr & Hfm & _). destruct (gv_used _ _ _ Hg t Ht) as [_ Hne].
  unfold store. rewrite phys_of_early by done. split; cbn [pages mem with_mem].
  - by rewrite Hcp.
  - apply aset_eq.
  - intros j Hj. rewrite aset_ne; [by apply Hz|]. intros Eq. apply Hne. dlia.
  - intros a Ha1 Ha2. by rewrite aset_ne, Ho.
Qed.

Lemma enter_table_linked s p t k f :
  given (pages s) p f -> frame_used (pages s) t -> 0 <= k < 512 -> linked s t k f (enter_table (with_pages s p) (entry_at t k) f).
Proof.
  intros Hg Ht Hk. destruct (gv_frame _ _ _ Hg) as (Hfr & Hfm & _). apply (enter_cleared s p); [done|done|done|].
  apply clear_table_mem; [|done]. intros j. by apply phys_of_early.
Qed.

Lemma early_table_absent s t k :
  pmm_inv (pages s) -> frame_used (pages s) t -> 0 <= k < 512 -> present (mem s (t + 8 * k)) = false ->
  early_table s (entry_at t k) = (false, s) /\ low_exhausted (pages s) \/
  exists f s', early_table s (entry_at t k) = (true, s') /\ linked s t k f s'.
Proof.
  intros Hi Ht Hk Hp. pose proof Ht as (Htr & Htm & _). unfold early_table, load. rewrite phys_of_early, Hp by done.
  destruct (pmm_alloc_page_low_cases (pages s) (inv_wf _ Hi)) as [(pfn & Hch & E & Htk)|[E Hex]]; rewrite E in *.
  2:{ left. cbn [Z.eqb]. split; [by destruct s|done]. }
  right. simpl in Htk. destruct (took_given _ _ _ Hi Htk) as [Hg Hnz].
  assert (Hf0 : PFN_TO_PADDR pfn <> 0) by (apply Hnz; destruct Hch as [_ [[? _]|[? _]]]; lia). rewrite (proj2 (Z.eqb_neq _ 0) Hf0).
  eexists _, _. split; [reflexivity|]. by apply enter_table_linked.
Qed.

(** * The loop *)

Section loop.
  Context (s0 : vmm) (cr3 : Z) (cr3_used : frame_used (pages s0) cr3).

(** What is left of the start: its frames stay used and keep their contents, one entry of
    the root table apart. *)
Record extends (s : vmm) : Prop := {
  ex_inv : pmm_inv (pages s);
  ex_total : total_pages (pages s) = total_pages (pages s0);
  ex_used : forall t, frame_used (pages s0) t -> frame_used (pages s) t;
  ex_keep : forall a, is_free (pages s0) (a / 4096) = false -> a <> cr3 + 8 * 256 -> mem s a = mem s0 a
}.

(** A frame that was free at the start and holds a table now. *)
Definition own (s : vmm) (f : Z) : Prop := frame_used (pages s) f /\ is_free (pages s0) (f / 4096) = true.

(** The tables with [g] directories [pd] under [pdp], and [k] huge pages in them. *)
Record tables (s : vmm) (pdp : Z) (pd : Z -> Z) (g k : Z) : Prop := {
  tb_bounds : 0 <= k <= 512 * g;
  tb_root : mem s (cr3 + 8 * 256) = table_entry pdp;
  tb_pdp : own s pdp;
  tb_pd : forall j, 0 <= j < g -> own s (pd j) /\ pd j / 4096 <> pdp / 4096;
  tb_apart : forall i j, 0 <= i < g -> 0 <= j < g -> i <> j -> pd i / 4096 <> pd j / 4096;
  tb_entries : forall j, 0 <= j < 512 -> mem s (pdp + 8 * j) = if j <? g then table_entry (pd j) else 0;
  tb_pages : forall j, 0 <= j < k -> mem s (pd (j / 512) + 8 * (j mod 512)) = huge_entry j
}.

Definition built (k : Z) (s : vmm) : Prop :=
  extends s /\ (k = 0 /\ present (mem s (cr3 + 8 * 256)) = false \/ exists pdp pd g, tables s pdp pd g k).

Lemma own_field s f : own s f -> present (table_entry f) = true /\ Z.land (table_entry f) FRAME_MASK = f.
Proof. intros [(Hf & Hm & _) _]. split; [apply table_entry_present|]. apply table_entry_field; [unfold MAX_PAGES in *; lia|done]. Qed.

Lemma own_apart s f : own s f -> f / 4096 <> cr3 / 4096.
Proof. intros [_ Hf] E. destruct cr3_used as (_ & _ & Hc). congruence. Qed.

(** A new table leaves the frames that were used as they are, its slot apart. *)
Lemma linked_extends s t k f s' : extends s -> linked s t k f s' -> own s t \/ t = cr3 /\ k = 256 -> 0 <= k < 512 -> extends s' /\ own s' f.
Proof.
  intros [Hi Ht Hu Hk] [[Hgi Hgt Hgf Hgo Hgu] Hs Hz Hkp] Hw Hr.
  assert (Hnf : forall a, is_free (pages s0) (a / 4096) = false -> 0 <= a / 4096 < MAX_PAGES -> a / 4096 <> f / 4096).
  { intros a Ha Hb E. destruct (Hu (a / 4096 * 4096)) as (_ & _ & Hf); [|rewrite Z.div_mul in Hf by lia; congruence].
    split_and!; [lia|lia|apply Z.mod_mul; lia|by rewrite Z.div_mul by lia]. }
  pose proof Hgo as (Hfr & Hfm & Hfu). split.
  - split; [done|congruence|intros x Hx; by apply Hgu, Hu|]. intros a Ha1 Ha2. rewrite Hkp; [by apply Hk| |].
    + intros ->. destruct Hw as [[(Htr & Htm & _) Hf]|[-> ->]]; [|done]. replace ((t + 8 * k) / 4096) with (t / 4096) in Ha1 by dlia. congruence.
    + intros E. apply (Hnf a Ha1); [rewrite E; unfold MAX_PAGES in *; dlia|done].
  - split; [done|]. destruct (is_free (pages s0) (f / 4096)) eqn:E; [done|]. exfalso. apply (Hnf f E); [unfold MAX_PAGES in *; dlia|done].
Qed.

(** Other words keep their contents. *)
Lemma linked_other s t k f s' x j : linked s t k f s' -> frame_used (pages s) x -> 0 <= j < 512 -> x + 8 * j <> t + 8 * k -> mem s' (x + 8 * j) = mem s (x + 8 * j).
Proof.
  intros [Hg _ _ Hkp] Hx Hj Hne. destruct (gv_used _ _ _ Hg x Hx) as [_ Hf]. destruct Hx as (Hr & Hm & _). apply Hkp; [done|].
  by replace ((x + 8 * j) / 4096) with (x / 4096) by dlia.
Qed.

(** The pointer table is created. *)
Lemma link_root s f s' : extends s -> linked s cr3 256 f s' -> extends s' /\ tables s' f (fun _ => 0) 0 0.
Proof.
  intros He Hl. destruct (linked_extends _ _ _ _ _ He Hl (or_intror (conj eq_refl eq_refl)) ltac:(lia)) as [He' Ho]. split; [done|].
  split; try done; try lia; [apply Hl|]. intros j Hj. rewrite (lk_zero _ _ _ _ _ Hl) by done. by rewrite (proj2 (Z.ltb_ge j 0)) by lia.
Qed.

(** A directory is created. *)
Lemma link_directory s pdp pd g k f s' : extends s -> tables s pdp pd g k -> 0 <= g < 512 -> linked s pdp g f s' ->
  extends s' /\ tables s' pdp (pd.[g <- f]) (g + 1) k.
Proof.
  intros He [Hb Hrt Hp Hd Ha Hen Hpg] Hg Hl. destruct (linked_extends _ _ _ _ _ He Hl (or_introl Hp) Hg) as [He' Ho]. split; [done|].
  assert (Hown : forall x, own s x -> own s' x /\ x / 4096 <> f / 4096) by (intros x [Hx1 Hx2]; destruct (gv_used _ _ _ (lk_given _ _ _ _ _ Hl) x Hx1); by split).
  assert (Hat : forall j, 0 <= j < g -> (pd.[g <- f]) j = pd j) by (intros; apply aset_ne; lia). pose proof Hp as [(Hpr & Hpm & _) _].
  split; [lia| |by apply Hown| | | |].
  - rewrite <- Hrt. apply (linked_other _ _ _ _ _ _ _ Hl); [apply (ex_used _ He), cr3_used|lia|]. pose proof (own_apart s pdp Hp). destruct cr3_used as (? & ? & _). intros E. dlia.
  - intros j Hj. destruct (decide (j = g)) as [->|]; [rewrite aset_eq; split; [done|]; intros E; by apply (proj2 (Hown _ Hp))|]. rewrite Hat by lia. destruct (Hd j ltac:(lia)) as [Hj1 Hj2]. split; [by apply Hown|done].
  - intros i j Hi Hj Hij. assert (Hx : forall x, 0 <= x < g -> pd x / 4096 <> f / 4096) by (intros x Hx; by apply Hown, Hd).
    destruct (decide (i = g)) as [->|], (decide (j = g)) as [->|]; rewrite ?aset_eq, ?Hat by lia; [done|intros E; apply (Hx j); [lia|done]|apply Hx; lia|apply Ha; lia].
  - intros j Hj. destruct (decide (j = g)) as [->|]; [rewrite (proj2 (Z.ltb_lt _ _)), aset_eq by lia; apply Hl|].
    rewrite (linked_other _ _ _ _ _ _ _ Hl), Hen by (done || lia || apply Hp). destruct (Z.ltb_spec j g), (Z.ltb_spec j (g + 1)); try lia. by rewrite Hat by lia.
  - intros j Hj. assert (0 <= j / 512 < g) by dlia. rewrite Hat by done. destruct (Hd (j / 512) ltac:(done)) as [[Hu _] Hne]. pose proof Hu as (? & ? & _).
    rewrite (linked_other _ _ _ _ _ _ _ Hl), Hpg; [done|done|done|apply Z.mod_pos_bound; lia|]. pose proof (Z.mod_pos_bound j 512 ltac:(lia)). intros E. apply Hne. dlia.
Qed.

(** A huge page is entered. *)
Lemma store_huge s pdp pd g k : extends s -> tables s pdp pd g k -> k < 512 * g ->
  let s' := store s (entry_at (pd (k / 512)) (k mod 512)) (huge_entry k) in extends s' /\ tables s' pdp pd g (k + 1).
Proof.
  intros [Hi Ht Hu Hk] [Hb Hrt Hp Hd Ha Hen Hpg] Hlt s'. assert (Hj : 0 <= k / 512 < g) by dlia. pose proof (Z.mod_pos_bound k 512 ltac:(lia)) as Hm.
  destruct (Hd (k / 512) Hj) as [Ho Hne]. pose proof Ho as [(Hr & Hal & _) Hfr].
  assert (Em : mem s' = (mem s).[pd (k / 512) + 8 * (k mod 512) <- huge_entry k]) by (unfold s', store; cbn [mem with_mem]; by rewrite phys_of_early).
  assert (Eother : forall a, a / 4096 <> pd (k / 512) / 4096 -> mem s' a = mem s a) by (intros a Hne'; rewrite Em, aset_ne; [done|]; intros ->; apply Hne'; dlia).
  split.
  - split; [done|done|done|]. intros a Ha1 Ha2. rewrite Eother; [by apply Hk|]. intros E. rewrite E in Ha1. congruence.
  - split; [lia| |done|done|done| |].
    + rewrite Eother; [done|]. pose proof (own_apart s _ Ho) as Hc. destruct cr3_used as (? & ? & _). by replace ((cr3 + 8 * 256) / 4096) with (cr3 / 4096) by dlia.
    + intros j Hj'. rewrite Eother; [by apply Hen|]. pose proof Hp as [(? & ? & _) _]. replace ((pdp + 8 * j) / 4096) with (pdp / 4096) by dlia. done.
    + intros j Hj'. destruct (decide (j = k)) as [->|]; [by rewrite Em, aset_eq|]. assert (Hjg : 0 <= j / 512 < g) by dlia.
      destruct (Hd (j / 512) Hjg) as [[(? & ? & _) _] _]. pose proof (Z.mod_pos_bound j 512 ltac:(lia)). destruct (decide (j / 512 = k / 512)) as [E|E].
      * rewrite Em, aset_ne; [apply Hpg; lia|]. rewrite E. intros Eq. dlia.
      * rewrite Eother; [apply Hpg; lia|]. replace ((pd (j / 512) + 8 * (j mod 512)) / 4096) with (pd (j / 512) / 4096) by dlia. by apply Ha.
Qed.

(** The pointer table is there, or is created. *)
Lemma root_ready k s : built k s ->
  early_table s (entry_at cr3 256) = (false, s) /\ low_exhausted (pages s) \/
  exists s1 pdp pd g, early_table s (entry_at cr3 256) = (true, s1) /\ extends s1 /\ tables s1 pdp pd g k.
Proof.
  intros [He [[-> Habs]|(pdp & pd & g & Ht)]]; pose proof (ex_used _ He _ cr3_used) as Hc.
  - destruct (early_table_absent s cr3 256 (ex_inv _ He) Hc ltac:(lia) Habs) as [?|(f & s1 & E & Hl)]; [by left|]. right.
    exists s1, f, (fun _ => 0), 0. split; [done|]. by apply (link_root s).
  - right. exists s, pdp, pd, g. split; [|done]. apply early_table_present; [done|lia|]. rewrite (tb_root _ _ _ _ _ Ht). by apply (own_field s), Ht.
Qed.

(** The directory is there, or is created. *)
Lemma directory_ready s pdp pd g k : extends s -> tables s pdp pd g k -> k < 8192 ->
  early_table s (entry_at pdp (k / 512)) = (false, s) /\ low_exhausted (pages s) \/
  exists s1 pd' g', early_table s (entry_at pdp (k / 512)) = (true, s1) /\ extends s1 /\ tables s1 pdp pd' g' k /\ k < 512 * g'.
Proof.
  intros He Ht Hk. pose proof (tb_bounds _ _ _ _ _ Ht) as Hb. pose proof (tb_entries _ _ _ _ _ Ht (k / 512) ltac:(dlia)) as Hen.
  destruct (tb_pdp _ _ _ _ _ Ht) as [Hp _]. destruct (Z.ltb_spec (k / 512) g) as [Hlt|Hge].
  - right. exists s, pd, g. split; [|split; [done|split; [done|dlia]]]. apply early_table_present; [done|dlia|]. rewrite Hen. apply (own_field s), Ht. dlia.
  - assert (E : k / 512 = g) by dlia. rewrite E in *.
    destruct (early_table_absent s pdp g (ex_inv _ He) Hp ltac:(dlia) ltac:(by rewrite Hen)) as [?|(f & s1 & Es & Hl)]; [by left|]. right.
    exists s1, (pd.[g <- f]), (g + 1). split; [done|]. destruct (link_directory s pdp pd g k f s1 He Ht ltac:(dlia) Hl). split; [done|]. split; [done|lia].
Qed.

(** A round of the loop. *)
Lemma direct_map_round n k s memory : built k s -> 0 <= k -> k * HUGE_PAGE_SIZE < memory <= MAX_PAGES * 4096 ->
  (exists s', direct_map (S n) s cr3 (k * HUGE_PAGE_SIZE) memory k = (k, s') /\ built k s' /\ low_exhausted (pages s')) \/
  (exists s', direct_map (S n) s cr3 (k * HUGE_PAGE_SIZE) memory k = direct_map n s' cr3 ((k + 1) * HUGE_PAGE_SIZE) memory (k + 1) /\ built (k + 1) s').
Proof.
  intros Hbt H0 Hm. unfold HUGE_PAGE_SIZE, MAX_PAGES in Hm. assert (Hk : k < 8192) by lia. cbn [direct_map]. rewrite (proj2 (Z.ltb_lt _ memory)) by (unfold HUGE_PAGE_SIZE; lia). cbn [negb].
  assert (Hv : u64 (PHYS_MAP_BASE + k * HUGE_PAGE_SIZE) = PHYS_MAP_BASE + k * HUGE_PAGE_SIZE) by (apply wrap_small; unfold PHYS_MAP_BASE, HUGE_PAGE_SIZE; fits_lia). rewrite Hv.
  destruct (direct_index (k * HUGE_PAGE_SIZE)) as (-> & -> & -> & _); [unfold HUGE_PAGE_SIZE, MAX_PAGES; lia|].
  assert (Ek : k * HUGE_PAGE_SIZE / 2 ^ 21 = k) by (apply Z.div_mul; lia). rewrite Ek. clear Hv Ek.
  destruct (root_ready k s Hbt) as [[-> Hex]|(s1 & pdp & pd & g & -> & He1 & Ht1)]; [left; by exists s|].
  assert (Hl1 : Z.land (load s1 (entry_at cr3 256)) FRAME_MASK = pdp).
  { unfold load. rewrite phys_of_early, (tb_root _ _ _ _ _ Ht1) by (lia || apply cr3_used). by apply (own_field s1), Ht1. }
  rewrite Hl1. destruct (directory_ready s1 pdp pd g k He1 Ht1 Hk) as [[-> Hex]|(s2 & pd2 & g2 & -> & He2 & Ht2 & Hg2)].
  { left. exists s1. split; [done|]. split; [|done]. split; [done|]. right. by exists pdp, pd, g. }
  assert (Hj : 0 <= k / 512 < g2) by dlia. destruct (tb_pd _ _ _ _ _ Ht2 _ Hj) as [Ho _].
  assert (Hl2 : Z.land (load s2 (entry_at pdp (k / 512))) FRAME_MASK = pd2 (k / 512)).
  { unfold load. destruct (tb_pdp _ _ _ _ _ Ht2) as [(Hpr & _) _]. rewrite phys_of_early, (tb_entries _ _ _ _ _ Ht2), (proj2 (Z.ltb_lt _ _)) by (done || dlia). by apply (own_field s2). }
  rewrite Hl2. right. destruct (store_huge s2 pdp pd2 g2 k He2 Ht2 Hg2) as [He3 Ht3]. eexists. split; [|split; [exact He3|right; by exists pdp, pd2, g2]].
  unfold huge_entry. f_equal; [rewrite wrap_small; unfold HUGE_PAGE_SIZE; fits_lia|apply wrap_small; fits_lia].
Qed.

(** The fuel is enough: the loop ends when the memory is mapped or low memory is used up. *)
Lemma direct_map_built memory : memory <= MAX_PAGES * 4096 -> forall n k s, built k s -> 0 <= k -> memory <= (k + Z.of_nat n) * HUGE_PAGE_SIZE ->
  k * HUGE_PAGE_SIZE < memory + HUGE_PAGE_SIZE ->
  exists mapped s', direct_map n s cr3 (k * HUGE_PAGE_SIZE) memory k = (mapped, s') /\ built mapped s' /\ 0 <= mapped /\ mapped * HUGE_PAGE_SIZE < memory + HUGE_PAGE_SIZE /\
    (memory <= mapped * HUGE_PAGE_SIZE \/ low_exhausted (pages s')).
Proof.
  intros HM. induction n as [|n IH]; intros k s Hb H0 Hn Hk; [exists k, s; split_and!; (done || lia || left; lia)|].
  destruct (Z.ltb_spec (k * HUGE_PAGE_SIZE) memory) as [Hlt|Hge].
  2:{ exists k, s. cbn [direct_map]. rewrite (proj2 (Z.ltb_ge _ memory)) by lia. split_and!; (done || lia || left; lia). }
  destruct (direct_map_round n k s memory Hb H0 ltac:(lia)) as [(s' & -> & Hb' & Hex)|(s' & -> & Hb')]; [exists k, s'; split_and!; (done || lia || by right)|].
  apply IH; [done|lia|unfold HUGE_PAGE_SIZE in *; lia|unfold HUGE_PAGE_SIZE in *; lia].
Qed.

(** The processor's translation of the part that is built. *)
Lemma built_translates k s a : built k s -> 0 <= a < MAX_PAGES * 4096 -> a < k * HUGE_PAGE_SIZE -> translate (mem s) cr3 (PHYS_MAP_BASE + a) = Some (a - a mod 4096).
Proof.
  intros [_ [[-> _]|(pdp & pd & g & Ht)]] Ha Hk; [lia|]. destruct (direct_index a Ha) as (E0 & E1 & E2 & El). set (j := a / 2 ^ 21) in *.
  assert (Hj : 0 <= j < k) by (unfold j, HUGE_PAGE_SIZE in *; change (2 ^ 21) with 2097152; dlia).
  assert (Hjb : j < 8192) by (unfold j, MAX_PAGES in *; change (2 ^ 21) with 2097152; dlia). pose proof (tb_bounds _ _ _ _ _ Ht) as Hb.
  destruct (own_field s pdp (tb_pdp _ _ _ _ _ Ht)) as [P0 F0]. destruct (tb_pd _ _ _ _ _ Ht (j / 512) ltac:(dlia)) as [Ho _]. destruct (own_field s _ Ho) as [P1 F1].
  destruct Ho as [(Hr & Hm & _) _]. destruct (huge_entry_ok j ltac:(change (2 ^ 20) with 1048576; lia)) as (P2 & H2 & F2).
  unfold translate. cbn [mmu_walk]. rewrite E0, (tb_root _ _ _ _ _ Ht), P0, F0. change (huge 0 (table_entry pdp)) with false. cbn [negb].
  rewrite E1, (tb_entries _ _ _ _ _ Ht), (proj2 (Z.ltb_lt _ _)), P1, F1 by dlia. cbn [negb]. unfold table_entry at 1. rewrite table_entry_not_huge by (done || unfold MAX_PAGES in *; lia).
  rewrite E2, (tb_pages _ _ _ _ _ Ht), P2, H2 by done. cbn [negb]. unfold huge_page. cbn [Nat.eqb]. rewrite F2, El. f_equal.
  unfold j, HUGE_PAGE_SIZE. change (2 ^ 21) with 2097152. dlia.
Qed.

End loop.

(** * The direct map *)

(** C13. All of memory behind [PHYS_MAP_BASE].  The allocator's invariant holds, the boot
    loader's root table is in a used frame and its entry 256, the one of [PHYS_MAP_BASE],
    is absent.  Then [vmm_init] leaves page tables in which the processor translates
    [PHYS_MAP_BASE] plus [a] to [a], for every byte [a] of the memory in the huge pages that
    it counts; these are the whole memory, unless all of low memory was used up for tables,
    in which case the loop ends early.  No other word of a frame that was in use is changed,
    the allocator's invariant is kept, and the direct map is declared ready, in either case. *)
Theorem direct_map_translates (s : vmm) (cr3 : Z)
  (Hi : pmm_inv (pages s)) (Hc : frame_used (pages s) cr3) (Habs : present (mem s (cr3 + 8 * 256)) = false) :
  let memory := total_pages (pages s) * PAGE_SIZE in
  let (mapped, s') := vmm_init s cr3 in
  (forall a, 0 <= a < memory -> a < mapped * HUGE_PAGE_SIZE -> translate (mem s') cr3 (PHYS_MAP_BASE + a) = Some (a - a mod PAGE_SIZE)) /\
  (memory <= mapped * HUGE_PAGE_SIZE < memory + HUGE_PAGE_SIZE \/ low_exhausted (pages s')) /\
  (forall a, is_free (pages s) (a / PAGE_SIZE) = false -> a <> cr3 + 8 * 256 -> mem s' a = mem s a) /\
  pmm_inv (pages s') /\ phys_map_ready s' = true /\ kernel_address_space s' = {| pml4 := u64 (cr3 + PHYS_MAP_BASE); asid := 0 |}.
Proof.
  intros memory. pose proof (wf_total _ (inv_wf _ Hi)) as Htot. unfold vmm_init. cbn [pages set_root]. rewrite wrap_small by (unfold MAX_PAGES, PAGE_SIZE in *; fits_lia). fold memory.
  assert (Hmem : 0 <= memory <= MAX_PAGES * 4096) by (unfold memory, PAGE_SIZE; lia).
  assert (Hb : built s cr3 0 (set_root s cr3)) by (split; [by split|by left]).
  destruct (direct_map_built s cr3 Hc memory ltac:(lia) (Z.to_nat (memory / HUGE_PAGE_SIZE) + 1) 0 _ Hb ltac:(lia)) as (mapped & s' & E & [He Ht] & H0 & Hup & Hall).
  1,2: unfold HUGE_PAGE_SIZE in *; dlia.
  change (0 * HUGE_PAGE_SIZE) with 0 in E. rewrite E. cbn [mem pages set_root phys_map_ready kernel_address_space]. split_and!; [| |apply He|apply He|done|done].
  - intros a Ha Hm. apply (built_translates s cr3 mapped); [by split|lia|done].
  - destruct Hall; [by left|by right].
Qed.

(** ** A small machine *)

Definition boot_vmm : vmm :=
  {| pages := demo_pages; mem := fun _ => 0; kernel_address_space := {| pml4 := 0; asid := 0 |}; next_asid := 1; phys_map_ready := false; phys_map_max_addr := 0 |}.

Lemma direct_map_translates_witness :
  fst (vmm_init boot_vmm demo_cr3) = 2 /\ translate (mem (snd (vmm_init boot_vmm demo_cr3))) demo_cr3 (PHYS_MAP_BASE + 0x201234) = Some 0x201000.
Proof.
  assert (E : fst (vmm_init boot_vmm demo_cr3) = 2) by (vm_compute; reflexivity).
  pose proof (direct_map_translates boot_vmm demo_cr3 demo_pages_inv (demo_used demo_cr3 ltac:(left; reflexivity)) eq_refl) as H.
  split; [exact E|]. destruct (vmm_init boot_vmm demo_cr3) as [mapped s']. cbn [fst snd] in *. subst mapped.
  apply (proj1 H 0x201234); [split; [lia|reflexivity]|reflexivity].
Defined.
