(* ===== verification/Sha2.v ===== *)
(** * Hash functions (kernel/crypto/sha256.c, sha512.c)

    [Sha256] and [Sha512] model the two files function by function.  A context is
    the record the code allocates; its buffer starts with whatever the heap block
    contained, so the contents of fresh memory are an argument of the two [_init]
    functions.  Data pointers are the list of bytes they point to, a null pointer
    is [None].  Words are [Z] with the wrap-around of each addition written out.

    The loop of the two [_update] functions is [feed], defined with fuel: as many
    rounds as there are bytes always finish.

    Specification: [md256] is the Merkle-Damgard hash over the padded message with
    the code's own compression function, and [frac_cbrt]/[frac_sqrt] state what
    FIPS 180-4 takes the constants from. *)

From Stdlib Require Import Lia String.
From stdpp Require Import base tactics list numbers option.
From S2P Require Import Prelude Bytes.

(** The eight words of a hash state, the working variables a to h. *)
Definition words8 : Type := Z * Z * Z * Z * Z * Z * Z * Z.

Definition words8_list (s : words8) : list Z :=
  let '(a, b, c, d, e, f, g, h) := s in [a; b; c; d; e; f; g; h].

Module Sha256.

Definition k : list Z := Eval vm_compute in hex_table
    "428a2f98 71374491 b5c0fbcf e9b5dba5 3956c25b 59f111f1 923f82a4 ab1c5ed5
     d807aa98 12835b01 243185be 550c7dc3 72be5d74 80deb1fe 9bdc06a7 c19bf174
     e49b69c1 efbe4786 0fc19dc6 240ca1cc 2de92c6f 4a7484aa 5cb0a9dc 76f988da
     983e5152 a831c66d b00327c8 bf597fc7 c6e00bf3 d5a79147 06ca6351 14292967
     27b70a85 2e1b2138 4d2c6dfc 53380d13 650a7354 766a0abb 81c2c92e 92722c85
     a2bfe8a1 a81a664b c24b8b70 c76c51a3 d192e819 d6990624 f40e3585 106aa070
     19a4c116 1e376c08 2748774c 34b0bcb5 391c0cb3 4ed8aa4a 5b9cca4f 6f1c0e5b
     748f82ee 78a5636f 84c87814 8cc70208 90befffa a4506ceb bef9a3f7 c67178f2"%string.

Definition rotr (x n : Z) : Z := Z.lor (Z.shiftr x n) (u32 (Z.shiftl x (32 - n))).
Definition ch (x y z : Z) : Z := Z.lxor (Z.land x y) (Z.land (u32 (Z.lnot x)) z).
Definition maj (x y z : Z) : Z := Z.lxor (Z.lxor (Z.land x y) (Z.land x z)) (Z.land y z).
Definition sigma0 (x : Z) : Z := Z.lxor (Z.lxor (rotr x 2) (rotr x 13)) (rotr x 22).
Definition sigma1 (x : Z) : Z := Z.lxor (Z.lxor (rotr x 6) (rotr x 11)) (rotr x 25).
Definition gamma0 (x : Z) : Z := Z.lxor (Z.lxor (rotr x 7) (rotr x 18)) (Z.shiftr x 3).
Definition gamma1 (x : Z) : Z := Z.lxor (Z.lxor (rotr x 17) (rotr x 19)) (Z.shiftr x 10).

Definition wd (w : list Z) (i : nat) : Z := nth i w 0.

(** w[0..15] from the block, then w[16..63]. *)
Definition load_word (block : list Z) (i : nat) : Z :=
  Z.lor (Z.lor (Z.lor (Z.shiftl (wd block (i * 4)) 24) (Z.shiftl (wd block (i * 4 + 1)) 16))
    (Z.shiftl (wd block (i * 4 + 2)) 8)) (wd block (i * 4 + 3)).
Definition extend (w : list Z) (i : nat) : list Z :=
  w ++ [u32 (gamma1 (wd w (i - 2)) + wd w (i - 7) + gamma0 (wd w (i - 15)) + wd w (i - 16))].
Definition schedule (block : list Z) : list Z :=
  fold_left extend (seq 16 48) (load_word block <$> seq 0 16).

Definition round (k w : list Z) (s : words8) (i : nat) : words8 :=
  let '(a, b, c, d, e, f, g, h) := s in
  let t1 := u32 (h + sigma1 e + ch e f g + wd k i + wd w i) in
  let t2 := u32 (sigma0 a + maj a b c) in
  (u32 (t1 + t2), a, b, c, u32 (d + t1), e, f, g).

Definition add_state (s t : words8) : words8 :=
  let '(a, b, c, d, e, f, g, h) := s in
  let '(a', b', c', d', e', f', g', h') := t in
  (u32 (a + a'), u32 (b + b'), u32 (c + c'), u32 (d + d'), u32 (e + e'), u32 (f + f'), u32 (g + g'), u32 (h + h')).

(** The block function for a table of constants; the code's table is [k]. *)
Definition process_block (k : list Z) (state : words8) (block : list Z) : words8 :=
  add_state state (fold_left (round k (schedule block)) (seq 0 64) state).

Record sha256_context_t := { state : words8; bit_count : Z; buffer : list Z; buffer_len : nat }.

Definition sha256_process_block (ctx : sha256_context_t) (block : list Z) : words8 := process_block k (state ctx) block.

Definition initial_state : words8 :=
  (0x6a09e667, 0xbb67ae85, 0x3c6ef372, 0xa54ff53a, 0x510e527f, 0x9b05688c, 0x1f83d9ab, 0x5be0cd19).

(** [context]: the caller gave a place for the result; [fresh]: the buffer bytes
    of the block [kmalloc] returned, [None] when it failed. *)
Definition sha256_init (context : bool) (fresh : option (list Z)) : error_code_t * option sha256_context_t :=
  if negb context then (ERR_INVALID_ARG, None)
  else match fresh with
       | None => (ERR_OUT_OF_MEMORY, None)
       | Some buf => (ERR_OK, Some {| state := initial_state; bit_count := 0; buffer := buf; buffer_len := 0 |})
       end.

(** One round of the loop of [sha256_update]: the context after it, and the
    number of bytes taken from [data]. *)
Definition update_round (ctx : sha256_context_t) (data : list Z) : sha256_context_t * nat :=
  let space := (64 - buffer_len ctx)%nat in
  let copy := if (length data <? space)%nat then length data else space in
  let buf := buf_write (buffer ctx) (buffer_len ctx) (take copy data) in
  let len := (buffer_len ctx + copy)%nat in
  let bits := u64 (bit_count ctx + u64 (Z.of_nat copy * 8)) in
  if (len =? 64)%nat then
    ({| state := sha256_process_block ctx buf; bit_count := bits; buffer := buf; buffer_len := 0 |}, copy)
  else ({| state := state ctx; bit_count := bits; buffer := buf; buffer_len := len |}, copy).

Definition update_loop : nat -> sha256_context_t -> list Z -> option sha256_context_t := feed update_round.

Definition sha256_update (context : option sha256_context_t) (data : option (list Z)) : error_code_t * option sha256_context_t :=
  match context, data with
  | Some ctx, Some data => (ERR_OK, update_loop (length data) ctx data)
  | _, _ => (ERR_INVALID_ARG, context)
  end.

Definition put_word (s : Z) : list Z :=
  [u8 (Z.shiftr s 24); u8 (Z.shiftr s 16); u8 (Z.shiftr s 8); u8 s].

Definition count_bytes (n : Z) : list Z :=
  [u8 (Z.shiftr n 56); u8 (Z.shiftr n 48); u8 (Z.shiftr n 40); u8 (Z.shiftr n 32);
   u8 (Z.shiftr n 24); u8 (Z.shiftr n 16); u8 (Z.shiftr n 8); u8 n].

(** The bytes written to [hash_output] (a non-null pointer when [out]), and the
    context as the call leaves it. *)
Definition sha256_final (context : option sha256_context_t) (out : bool) : error_code_t * option (list Z) * option sha256_context_t :=
  match context with
  | None => (ERR_INVALID_ARG, None, None)
  | Some ctx =>
      if negb out then (ERR_INVALID_ARG, None, Some ctx)
      else
        let buf := buf_write (buffer ctx) (buffer_len ctx) [0x80] in
        let len := S (buffer_len ctx) in
        let '(st, buf, len) :=
          if (56 <? len)%nat then
            let buf := buf_write buf len (repeat 0 (64 - len)) in (sha256_process_block ctx buf, buf, O)
          else (state ctx, buf, len) in
        let buf := buf_write buf len (repeat 0 (56 - len)) in
        let buf := buf_write buf 56 (count_bytes (bit_count ctx)) in
        let st := process_block k st buf in
        (ERR_OK, Some (words8_list st ≫= put_word),
         Some {| state := st; bit_count := bit_count ctx; buffer := buf; buffer_len := len |})
  end.

(** [sha256_free] only returns the context's memory. *)
Definition sha256_hash (fresh : option (list Z)) (data : option (list Z)) (out : bool) : error_code_t * option (list Z) :=
  match sha256_init true fresh with
  | (ERR_OK, ctx) =>
      match sha256_update ctx data with
      | (ERR_OK, ctx) => let '(err, h, _) := sha256_final ctx out in (err, h)
      | (err, _) => (err, None)
      end
  | (err, _) => (err, None)
  end.

(** ** Specification *)

(** The padding of a message of [n] bytes, and its hash for a table of constants. *)
Definition padding (n : nat) : list Z :=
  [0x80] ++ repeat 0 ((119 - n mod 64) mod 64) ++ be_bytes 8 (8 * Z.of_nat n).
Definition padded (m : list Z) : list Z := m ++ padding (length m).
Definition md (k : list Z) (m : list Z) : list Z :=
  words8_list (blocks 64 (process_block k) (length (padded m) / 64) initial_state (padded m)) ≫= put_word.
Definition md256 : list Z -> list Z := md k.

(** A context that has absorbed the message [m]. *)
Definition ctx_ok (m : list Z) (ctx : sha256_context_t) : Prop :=
  absorbing 64 (process_block k) initial_state m (state ctx) (buffer ctx) (buffer_len ctx) /\
  bit_count ctx = u64 (8 * Z.of_nat (length m)).

(** Chunks hashed one after the other. *)
Definition updates (ctx : option sha256_context_t) (chunks : list (list Z)) : option sha256_context_t :=
  fold_left (fun c d => snd (sha256_update c (Some d))) chunks ctx.

(** ** Lemmas *)

Lemma count_step (n c : nat) : u64 (u64 (8 * Z.of_nat n) + u64 (Z.of_nat c * 8)) = u64 (8 * Z.of_nat (n + c)).
Proof. unfold wrap. rewrite <- Zplus_mod. f_equal. lia. Qed.

Lemma update_round_ok m ctx data :
  ctx_ok m ctx -> data <> [] ->
  ctx_ok (m ++ take (snd (update_round ctx data)) data) (fst (update_round ctx data)) /\
  (0 < snd (update_round ctx data) <= length data)%nat.
Proof.
  intros [Ha Hc] Hd. pose proof (ab_len _ _ _ _ _ _ _ Ha) as Hl. assert (0 < length data)%nat by (destruct data; simpl; [done|lia]).
  unfold update_round. set (copy := if (length data <? 64 - buffer_len ctx)%nat then _ else _).
  assert (Hcopy : (0 < copy <= length data /\ buffer_len ctx + copy <= 64 /\
            (buffer_len ctx + copy < 64 -> copy = length data))%nat)
    by (unfold copy; destruct (Nat.ltb_spec (length data) (64 - buffer_len ctx)); lia).
  clearbody copy. assert (Ht : length (take copy data) = copy) by (rewrite length_take; lia).
  assert (Hcnt : u64 (bit_count ctx + u64 (Z.of_nat copy * 8)) = u64 (8 * Z.of_nat (length (m ++ take copy data)))).
  { by rewrite Hc, count_step, length_app, Ht. }
  destruct (Nat.eqb_spec (buffer_len ctx + copy) 64) as [E|E]; simpl; (split; [split; [|done]|lia]); simpl.
  - by apply (absorb_fill 64 (process_block k)); [|lia].
  - rewrite <- Ht at 3. apply absorb_part; [done|lia].
Qed.

Lemma updates_feeds chunks : forall ctx, updates ctx chunks = feeds update_round ctx chunks.
Proof.
  induction chunks as [|d chunks IH]; intros ctx; [done|]. unfold updates, feeds. simpl.
  destruct ctx as [ctx|]; apply IH.
Qed.

Lemma updates_ok chunks m ctx :
  ctx_ok m ctx -> exists ctx', updates (Some ctx) chunks = Some ctx' /\ ctx_ok (m ++ concat chunks) ctx'.
Proof. rewrite updates_feeds. apply feeds_ok, update_round_ok. Qed.

Lemma init_ok (fresh : list Z) :
  length fresh = 64%nat -> exists ctx, sha256_init true (Some fresh) = (ERR_OK, Some ctx) /\ ctx_ok [] ctx.
Proof. intros H. eexists. split; [done|]. split; [|done]. by apply absorbing_start; [lia|]. Qed.

Lemma count_bytes_be n : count_bytes (u64 n) = be_bytes 8 n.
Proof.
  unfold count_bytes, be_bytes. simpl. rewrite !wrap_shiftr_wrap, wrap_wrap_le by lia. by rewrite Z.shiftr_0_r.
Qed.

(** Length and zeros of the padding, with one or with two final blocks. *)
Lemma padding_one (m : list Z) len :
  len = (length m mod 64)%nat -> (len < 56)%nat ->
  padding (length m) = [128] ++ repeat 0 (55 - len) ++ be_bytes 8 (8 * Z.of_nat (length m)).
Proof.
  intros -> Hl. unfold padding. do 3 f_equal.
  replace (119 - length m mod 64)%nat with (55 - length m mod 64 + 1 * 64)%nat by lia.
  rewrite Nat.Div0.mod_add. apply Nat.mod_small. lia.
Qed.

Lemma padding_two (m : list Z) len :
  len = (length m mod 64)%nat -> (56 <= len < 64)%nat ->
  padding (length m) = ([128] ++ repeat 0 (63 - len)) ++ repeat 0 56 ++ be_bytes 8 (8 * Z.of_nat (length m)).
Proof.
  intros -> Hl. unfold padding. rewrite Nat.mod_small by lia. rewrite <- !app_assoc. f_equal. rewrite app_assoc. f_equal.
  rewrite <- repeat_app. f_equal. lia.
Qed.

Lemma padded_blocks (m : list Z) len :
  len = (length m mod 64)%nat ->
  (length (padded m) / 64 = length m / 64 + if (56 <=? len)%nat then 2 else 1)%nat.
Proof.
  intros Hl. pose proof (Nat.mod_upper_bound (length m) 64 ltac:(lia)) as Hb.
  pose proof (Nat.div_mod_eq (length m) 64) as Hq. unfold padded.
  destruct (Nat.leb_spec 56 len).
  - rewrite (padding_two m len) by lia. rewrite !length_app, !repeat_length, be_bytes_length. simpl length.
    symmetry. apply (Nat.div_unique _ _ _ 0); lia.
  - rewrite (padding_one m len) by lia. rewrite !length_app, !repeat_length, be_bytes_length. simpl length.
    symmetry. apply (Nat.div_unique _ _ _ 0); lia.
Qed.

Lemma final_hash m ctx :
  ctx_ok m ctx -> exists ctx', sha256_final (Some ctx) true = (ERR_OK, Some (md256 m), Some ctx').
Proof.
  intros [Ha Hc]. pose proof Ha as [Hb Hl Hm Hh Hr]. unfold sha256_final. cbn [negb]. rewrite Hc, count_bytes_be.
  set (len := buffer_len ctx) in *. unfold md256, md. rewrite (padded_blocks m len Hm). unfold padded.
  assert (Hcb := be_bytes_length 8 (8 * Z.of_nat (length m))).
  assert (Hw : take (len + 1) (buf_write (buffer ctx) len [128]) = take len (buffer ctx) ++ [128])
    by (apply (buf_write_take _ len [128]); simpl; lia).
  assert (Hlw : length (buf_write (buffer ctx) len [128]) = 64%nat) by (rewrite buf_write_length; simpl; lia).
  set (buf := buf_write (buffer ctx) len [128]) in *. clearbody buf. rewrite Nat.add_1_r in Hw.
  destruct (Nat.leb_spec 56 len) as [E|E].
  - rewrite (padding_two m len Hm) by lia. replace (56 <? S len)%nat with true by (symmetry; apply Nat.ltb_lt; lia).
    cbv iota beta. rewrite (buf_write_full buf (S len)), Hw by (rewrite repeat_length; lia).
    change 56%nat with (0 + length (repeat 0 (56 - 0)))%nat at 5.
    rewrite buf_write_twice by (rewrite !length_app, !repeat_length, Hcb, length_take; simpl; lia).
    rewrite take_0, app_nil_l. unfold sha256_process_block. rewrite <- (app_assoc _ [128]).
    change (S len) with (1 + len)%nat. rewrite Nat.sub_add_distr.
    rewrite (absorb_two 64 (process_block k) _ _ _ _ _ _ _ Ha)
      by (rewrite !length_app, !repeat_length, ?Hcb; simpl; lia).
    rewrite (Nat.add_comm _ 2). eexists. apply eq_refl.
  - rewrite (padding_one m len Hm) by lia. replace (56 <? S len)%nat with false by (symmetry; apply Nat.ltb_ge; lia).
    cbv iota beta.
    replace (56 - S len)%nat with (55 - len)%nat by lia. set (z := repeat 0 (55 - len)).
    assert (Hz : length z = (55 - len)%nat) by apply repeat_length.
    assert (Hlast : forall c, length c = 8%nat ->
              buf_write (buf_write buf (S len) z) 56 c = take len (buffer ctx) ++ [128] ++ z ++ c).
    { intros c Hc8. replace 56%nat with (S len + length z)%nat by lia. rewrite buf_write_twice by lia.
      by rewrite Hw, <- (app_assoc _ [128]). }
    rewrite (Hlast _ Hcb).
    rewrite (absorb_block 64 (process_block k) _ _ _ _ _ _ Ha)
      by (rewrite !length_app, Hz, ?Hcb; simpl; lia).
    rewrite (Nat.add_comm _ 1). eexists. apply eq_refl.
Qed.

End Sha256.

Module Sha512.

Definition k : list Z := Eval vm_compute in hex_table
    "428a2f98d728ae22 7137449123ef65cd b5c0fbcfec4d3b2f e9b5dba58189dbbc
     3956c25bf348b538 59f111f1b605d019 923f82a4af194f9b ab1c5ed5da6d8118
     d807aa98a3030242 12835b0145706fbe 243185be4ee4b28c 550c7dc3d5ffb4e2
     72be5d74f27b896f 80deb1fe3b1696b1 9bdc06a725c71235 c19bf174cf692694
     e49b69c19ef14ad2 efbe4786384f25e3 0fc19dc68b8cd5b5 240ca1cc77ac9c65
     2de92c6f592b0275 4a7484aa6ea6e483 5cb0a9dcbd41fbd4 76f988da831153b5
     983e5152ee66dfab a831c66d2db43210 b00327c898fb213f bf597fc7beef0ee4
     c6e00bf33da88fc2 d5a79147930aa725 06ca6351e003826f 14292967a0e6e70
     27b70a8546d22ffc 2e1b21385c26c926 4d2c6dfc5ac42aed 53380d139d95b3df
     650a73548baf63de 766a0abb3c77b2a8 81c2c92e47edaee6 92722c851482353b
     a2bfe8a14cf10364 a81a664bbc423001 c24b8b70d0f89791 c76c51a30654be30
     d192e819d6ef5218 d69906245565a910 f40e35855771202a 106aa07032bbd1b8
     19a4c116b8d2d0c8 1e376c085141ab53 2748774cdf8eeb99 34b0bcb5e19b48a8
     391c0cb3c5c95a63 4ed8aa4ae3418acb 5b9cca4f7763e373 6f1c0e5b6c823b93
     748f82ee5defb2fc 78a5636f43172f60 84c87814a1f0ab72 8cc702081a6439ec
     90befffa23631e28 a4506cebde82bde9 bef9a3f7b2c67915 c67178f2e372532b
     ca273eceea26619c d186b8c721c0c207 eada7dd6cde0eb1e f57d4f7fee6ed178
     06f067aa72176fba 0a637dc5a2c898a6 113f9804bef90dae 1b710b35131c471b
     28db77f523047d84 32caab7b40c72493 3c9ebe0a15c9bebc 431d67c49c100d4c
     4cc5d4becb3e42b6 597f299cfc657e2a 5fcb6fab3ad6faec 6c44198c4a475817"%string.

Definition rotr64 (x n : Z) : Z := Z.lor (Z.shiftr x n) (u64 (Z.shiftl x (64 - n))).
Definition ch (x y z : Z) : Z := Z.lxor (Z.land x y) (Z.land (u64 (Z.lnot x)) z).
Definition maj (x y z : Z) : Z := Z.lxor (Z.lxor (Z.land x y) (Z.land x z)) (Z.land y z).
Definition sigma0 (x : Z) : Z := Z.lxor (Z.lxor (rotr64 x 28) (rotr64 x 34)) (rotr64 x 39).
Definition sigma1 (x : Z) : Z := Z.lxor (Z.lxor (rotr64 x 14) (rotr64 x 18)) (rotr64 x 41).
Definition gamma0 (x : Z) : Z := Z.lxor (Z.lxor (rotr64 x 1) (rotr64 x 8)) (Z.shiftr x 7).
Definition gamma1 (x : Z) : Z := Z.lxor (Z.lxor (rotr64 x 19) (rotr64 x 61)) (Z.shiftr x 6).

Definition wd (w : list Z) (i : nat) : Z := nth i w 0.

Definition load_word (block : list Z) (i : nat) : Z :=
  Z.lor (Z.lor (Z.lor (Z.lor (Z.lor (Z.lor (Z.lor
    (Z.shiftl (wd block (i * 8)) 56) (Z.shiftl (wd block (i * 8 + 1)) 48))
    (Z.shiftl (wd block (i * 8 + 2)) 40)) (Z.shiftl (wd block (i * 8 + 3)) 32))
    (Z.shiftl (wd block (i * 8 + 4)) 24)) (Z.shiftl (wd block (i * 8 + 5)) 16))
    (Z.shiftl (wd block (i * 8 + 6)) 8)) (wd block (i * 8 + 7)).
Definition extend (w : list Z) (i : nat) : list Z :=
  w ++ [u64 (gamma1 (wd w (i - 2)) + wd w (i - 7) + gamma0 (wd w (i - 15)) + wd w (i - 16))].
Definition schedule (block : list Z) : list Z :=
  fold_left extend (seq 16 64) (load_word block <$> seq 0 16).

Definition round (k w : list Z) (s : words8) (i : nat) : words8 :=
  let '(a, b, c, d, e, f, g, h) := s in
  let t1 := u64 (h + sigma1 e + ch e f g + wd k i + wd w i) in
  let t2 := u64 (sigma0 a + maj a b c) in
  (u64 (t1 + t2), a, b, c, u64 (d + t1), e, f, g).

Definition add_state (s t : words8) : words8 :=
  let '(a, b, c, d, e, f, g, h) := s in
  let '(a', b', c', d', e', f', g', h') := t in
  (u64 (a + a'), u64 (b + b'), u64 (c + c'), u64 (d + d'), u64 (e + e'), u64 (f + f'), u64 (g + g'), u64 (h + h')).

Definition process_block (k : list Z) (state : words8) (block : list Z) : words8 :=
  add_state state (fold_left (round k (schedule block)) (seq 0 80) state).

(** [bit_count[0]] is the high and [bit_count[1]] the low half of the count. *)
Record sha512_context_t := {
  state : words8; count_hi : Z; count_lo : Z; buffer : list Z; buffer_len : nat }.

Definition sha512_process_block (ctx : sha512_context_t) (block : list Z) : words8 := process_block k (state ctx) block.

Definition initial_state : words8 :=
  (0x6a09e667f3bcc908, 0xbb67ae8584caa73b, 0x3c6ef372fe94f82b, 0xa54ff53a5f1d36f1,
   0x510e527fade682d1, 0x9b05688c2b3e6c1f, 0x1f83d9abfb41bd6b, 0x5be0cd19137e2179).

Definition sha512_init (context : bool) (fresh : option (list Z)) : error_code_t * option sha512_context_t :=
  if negb context then (ERR_INVALID_ARG, None)
  else match fresh with
       | None => (ERR_OUT_OF_MEMORY, None)
       | Some buf =>
           (ERR_OK, Some {| state := initial_state; count_hi := 0; count_lo := 0; buffer := buf; buffer_len := 0 |})
       end.

Definition update_round (ctx : sha512_context_t) (data : list Z) : sha512_context_t * nat :=
  let space := (128 - buffer_len ctx)%nat in
  let copy := if (length data <? space)%nat then length data else space in
  let buf := buf_write (buffer ctx) (buffer_len ctx) (take copy data) in
  let len := (buffer_len ctx + copy)%nat in
  let bits := u64 (Z.of_nat copy * 8) in
  let lo := u64 (count_lo ctx + bits) in
  let hi := if lo <? count_lo ctx then u64 (count_hi ctx + 1) else count_hi ctx in
  if (len =? 128)%nat then
    ({| state := sha512_process_block ctx buf; count_hi := hi; count_lo := lo; buffer := buf; buffer_len := 0 |}, copy)
  else ({| state := state ctx; count_hi := hi; count_lo := lo; buffer := buf; buffer_len := len |}, copy).

Definition update_loop : nat -> sha512_context_t -> list Z -> option sha512_context_t := feed update_round.

Definition sha512_update (context : option sha512_context_t) (data : option (list Z)) : error_code_t * option sha512_context_t :=
  match context, data with
  | Some ctx, Some data => (ERR_OK, update_loop (length data) ctx data)
  | _, _ => (ERR_INVALID_ARG, context)
  end.

(** A store to [ctx->buffer[i]]: the array has 128 bytes, and the byte behind it
    is the least significant one of [buffer_len]. *)
Definition store (bl : list Z * nat) (i : nat) (v : Z) : list Z * nat :=
  let (buf, len) := bl in
  if (i <? 128)%nat then (<[i := v]> buf, len) else (buf, (len / 256 * 256 + Z.to_nat v)%nat).

(** The two loops that store the bit count, as the code indexes them. *)
Definition store_count (hi lo : Z) (bl : list Z * nat) : list Z * nat :=
  let bl := fold_left (fun bl i => store bl (120 - i) (u8 (Z.shiftr hi (Z.of_nat (i * 8))))) (seq 0 8) bl in
  fold_left (fun bl i => store bl (128 - i) (u8 (Z.shiftr lo (Z.of_nat (i * 8))))) (seq 0 8) bl.

Definition put_word (s : Z) : list Z := (fun j => u8 (Z.shiftr s (56 - Z.of_nat (j * 8)))) <$> seq 0 8.

Definition sha512_final (context : option sha512_context_t) (out : bool) : error_code_t * option (list Z) * option sha512_context_t :=
  match context with
  | None => (ERR_INVALID_ARG, None, None)
  | Some ctx =>
      if negb out then (ERR_INVALID_ARG, None, Some ctx)
      else
        let buf := buf_write (buffer ctx) (buffer_len ctx) [0x80] in
        let len := S (buffer_len ctx) in
        let '(st, buf, len) :=
          if (112 <? len)%nat then
            let buf := buf_write buf len (repeat 0 (128 - len)) in (sha512_process_block ctx buf, buf, O)
          else (state ctx, buf, len) in
        let buf := buf_write buf len (repeat 0 (112 - len)) in
        let (buf, len) := store_count (count_hi ctx) (count_lo ctx) (buf, len) in
        let st := process_block k st buf in
        (ERR_OK, Some (words8_list st ≫= put_word),
         Some {| state := st; count_hi := count_hi ctx; count_lo := count_lo ctx; buffer := buf; buffer_len := len |})
  end.

Definition sha512_hash (fresh : option (list Z)) (data : option (list Z)) (out : bool) : error_code_t * option (list Z) :=
  match sha512_init true fresh with
  | (ERR_OK, ctx) =>
      match sha512_update ctx data with
      | (ERR_OK, ctx) => let '(err, h, _) := sha512_final ctx out in (err, h)
      | (err, _) => (err, None)
      end
  | (err, _) => (err, None)
  end.

(** ** Specification *)

(** The standard padding of a message of [n] bytes, and the one the code builds:
    byte 112 of the last block is not written, and the count is one byte late. *)
Definition padding (n : nat) : list Z :=
  [0x80] ++ repeat 0 ((239 - n mod 128) mod 128) ++ be_bytes 16 (8 * Z.of_nat n).
Definition late_padding (stale : Z) (n : nat) : list Z :=
  [0x80] ++ repeat 0 ((239 - n mod 128) mod 128) ++ [stale] ++ take 15 (be_bytes 16 (8 * Z.of_nat n)).
Definition md (k : list Z) (padded : list Z) : list Z :=
  words8_list (blocks 128 (process_block k) (length padded / 128) initial_state padded) ≫= put_word.

(** The byte the code leaves at index 112: what the buffer held there, unless the
    end of the message reaches it. *)
Definition stale_byte (m buf : list Z) : Z :=
  if (length m mod 128 =? 112)%nat then 0x80 else wd buf 112.

Definition ctx_ok (m : list Z) (ctx : sha512_context_t) : Prop :=
  absorbing 128 (process_block k) initial_state m (state ctx) (buffer ctx) (buffer_len ctx) /\
  fits 64 (count_hi ctx) /\ fits 64 (count_lo ctx) /\
  2 ^ 64 * count_hi ctx + count_lo ctx = wrap 128 (8 * Z.of_nat (length m)).

Definition updates (ctx : option sha512_context_t) (chunks : list (list Z)) : option sha512_context_t :=
  fold_left (fun c d => snd (sha512_update c (Some d))) chunks ctx.

(** ** Lemmas *)

(** The 128-bit addition of the code: low half, carry, high half. *)
Lemma count_step512 hi lo bits :
  fits 64 hi -> fits 64 lo -> fits 64 bits ->
  let lo' := u64 (lo + bits) in
  let hi' := if lo' <? lo then u64 (hi + 1) else hi in
  fits 64 hi' /\ fits 64 lo' /\ 2 ^ 64 * hi' + lo' = wrap 128 (2 ^ 64 * hi + lo + bits).
Proof.
  intros Hh Hl Hb lo' hi'. assert (Hlo : lo' = lo + bits \/ lo' = lo + bits - 2 ^ 64) by (unfold lo', wrap; dlia).
  assert (Hf : fits 64 lo') by (by apply wrap_fits). split; [|split; [done|]].
  { unfold hi'. case_match; [apply wrap_fits; lia|done]. }
  unfold hi', wrap. change (2 ^ 128) with (2 ^ 64 * 2 ^ 64). clearbody lo'.
  destruct (Z.ltb_spec lo' lo); [assert (lo' = lo + bits - 2 ^ 64) as -> by fits_lia|assert (lo' = lo + bits) as -> by fits_lia].
  - replace (2 ^ 64 * hi + lo + bits) with ((lo + bits - 2 ^ 64) + (hi + 1) * 2 ^ 64) by lia.
    rewrite (Z.rem_mul_r (lo + bits - 2 ^ 64 + (hi + 1) * 2 ^ 64) (2 ^ 64) (2 ^ 64)) by lia.
    rewrite Z.mod_add, Z.div_add by lia.
    rewrite (Z.mod_small (lo + bits - 2 ^ 64)), (Z.div_small (lo + bits - 2 ^ 64)), Z.add_0_l by fits_lia. lia.
  - symmetry. rewrite Z.mod_small; [lia|]. fits_lia.
Qed.

Lemma update_round_ok512 m ctx data :
  ctx_ok m ctx -> data <> [] ->
  ctx_ok (m ++ take (snd (update_round ctx data)) data) (fst (update_round ctx data)) /\
  (0 < snd (update_round ctx data) <= length data)%nat.
Proof.
  intros (Ha & Hhi & Hlo & Hc) Hd. pose proof (ab_len _ _ _ _ _ _ _ Ha) as Hl.
  assert (0 < length data)%nat by (destruct data; simpl; [done|lia]).
  unfold update_round. set (copy := if (length data <? 128 - buffer_len ctx)%nat then _ else _).
  assert (Hcopy : (0 < copy <= length data /\ buffer_len ctx + copy <= 128 /\
            (buffer_len ctx + copy < 128 -> copy = length data))%nat)
    by (unfold copy; destruct (Nat.ltb_spec (length data) (128 - buffer_len ctx)); lia).
  clearbody copy. assert (Ht : length (take copy data) = copy) by (rewrite length_take; lia).
  rewrite (wrap_small 64 (Z.of_nat copy * 8)) by (unfold fits; lia).
  destruct (count_step512 (count_hi ctx) (count_lo ctx) (Z.of_nat copy * 8) Hhi Hlo) as (H1 & H2 & H3); [unfold fits; lia|].
  assert (Hcnt : wrap 128 (2 ^ 64 * count_hi ctx + count_lo ctx + Z.of_nat copy * 8) =
                 wrap 128 (8 * Z.of_nat (length (m ++ take copy data)))).
  { rewrite Hc, length_app, Ht. unfold wrap. rewrite Zplus_mod_idemp_l. f_equal. lia. }
  rewrite Hcnt in H3. clear Hcnt. cbv zeta in *. set (lo' := u64 _) in *. set (hi' := if lo' <? _ then _ else _) in *.
  destruct (Nat.eqb_spec (buffer_len ctx + copy) 128) as [E|E]; simpl; (split; [split; [|done]|lia]); simpl.
  - by apply (absorb_fill 128 (process_block k)); [|lia].
  - rewrite <- Ht at 3. apply absorb_part; [done|lia].
Qed.

Lemma updates_feeds512 chunks : forall ctx, updates ctx chunks = feeds update_round ctx chunks.
Proof.
  induction chunks as [|d chunks IH]; intros ctx; [done|]. unfold updates, feeds. simpl.
  destruct ctx as [ctx|]; apply IH.
Qed.

Lemma updates_ok512 chunks m ctx :
  ctx_ok m ctx -> exists ctx', updates (Some ctx) chunks = Some ctx' /\ ctx_ok (m ++ concat chunks) ctx'.
Proof. rewrite updates_feeds512. apply feeds_ok, update_round_ok512. Qed.

Lemma init_ok512 (fresh : list Z) :
  length fresh = 128%nat -> exists ctx, sha512_init true (Some fresh) = (ERR_OK, Some ctx) /\ ctx_ok [] ctx.
Proof. intros H. eexists. split; [done|]. split; [by apply absorbing_start; [lia|]|]. split_and!; done. Qed.

(** The sixteen stores, as one write and the byte that misses the buffer. *)
Lemma store_count_eq hi lo buf len :
  length buf = 128%nat ->
  store_count hi lo (buf, len) =
  (take 113 buf ++ be_bytes 8 hi ++ take 7 (be_bytes 8 lo), (len / 256 * 256 + Z.to_nat (u8 lo))%nat).
Proof.
  intros Hb. assert (Ha : length (take 113 buf) = 113%nat) by (rewrite length_take; lia).
  assert (Hd : length (drop 113 buf) = 15%nat) by (rewrite length_drop; lia).
  rewrite <- (take_drop 113 buf) at 1. set (a := take 113 buf) in *. set (b := drop 113 buf) in *. clearbody a b.
  do 15 (destruct b as [|? b]; [done|]). destruct b; [|done]. unfold store_count, store. simpl fold_left.
  repeat rewrite insert_app_r_alt by (rewrite Ha; lia). rewrite Ha. simpl.
  rewrite !Z.shiftr_0_r. done.
Qed.

(** The count as the halves store it. *)
Lemma count_bytes_halves hi lo n :
  fits 64 hi -> fits 64 lo -> 2 ^ 64 * hi + lo = wrap 128 n ->
  be_bytes 8 hi ++ take 7 (be_bytes 8 lo) = take 15 (be_bytes 16 n).
Proof.
  intros Hh Hl E. rewrite <- (be_bytes_wrap 16 128 n), <- E by lia. rewrite (be_bytes_app 8 8).
  rewrite take_app_ge by (rewrite be_bytes_length; lia). rewrite be_bytes_length.
  rewrite <- (be_bytes_wrap 8 64 (2 ^ 64 * hi + lo)) by lia.
  replace (wrap 64 (2 ^ 64 * hi + lo)) with lo by (unfold wrap; dlia).
  replace (Z.shiftr (2 ^ 64 * hi + lo) (8 * Z.of_nat 8)) with hi; [done|].
  rewrite Z.shiftr_div_pow2 by lia. change (2 ^ (8 * Z.of_nat 8)) with (2 ^ 64). dlia.
Qed.

Lemma take_wd (l : list Z) n : (n < length l)%nat -> take (S n) l = take n l ++ [wd l n].
Proof.
  intros H. apply take_S_r. unfold wd. rewrite nth_lookup.
  by destruct (lookup_lt_is_Some_2 l n H) as [x ->].
Qed.

Lemma wd_app_r (a b : list Z) n : (length a <= n)%nat -> wd (a ++ b) n = wd b (n - length a).
Proof. intros. unfold wd. by rewrite app_nth2. Qed.

(** The last block when the padding fits behind the message. *)
Lemma last_one (buf : list Z) len cb :
  length buf = 128%nat -> (len < 112)%nat ->
  take 113 (buf_write (buf_write buf len [128]) (S len) (repeat 0 (112 - S len))) ++ cb =
  take len buf ++ [128] ++ repeat 0 (111 - len) ++ [wd buf 112] ++ cb.
Proof.
  intros Hb Hl. replace (112 - S len)%nat with (111 - len)%nat by lia.
  assert (E : buf_write (buf_write buf len [128]) (S len) (repeat 0 (111 - len)) =
              (take len buf ++ [128] ++ repeat 0 (111 - len)) ++ drop 112 buf).
  { pose proof (buf_write_take buf len [128]) as H1. pose proof (buf_write_drop buf len [128]) as H2. simpl in H1, H2.
    rewrite Nat.add_1_r in H1, H2. unfold buf_write at 1. rewrite repeat_length, H1, <- !app_assoc by lia. do 3 f_equal.
    replace (S len + (111 - len))%nat with (S len + (112 - S len))%nat by lia.
    rewrite <- drop_drop, H2, drop_drop by lia. f_equal. lia. }
  rewrite E. set (a := take len buf ++ [128] ++ repeat 0 (111 - len)).
  assert (Ha : length a = 112%nat) by (unfold a; rewrite !length_app, repeat_length, length_take; simpl; lia).
  rewrite take_wd by (rewrite length_app, length_drop; lia). rewrite take_app_length' by done.
  rewrite wd_app_r, Ha by lia. replace (wd (drop 112 buf) (112 - 112)) with (wd buf 112).
  - unfold a. by rewrite <- !app_assoc.
  - unfold wd. rewrite <- (take_drop 112 buf) at 1. rewrite app_nth2; rewrite length_take; [|lia]. by rewrite Nat.min_l by lia.
Qed.

(** The last block when the padding needs two. *)
Lemma last_two (m buf : list Z) len cb :
  length buf = 128%nat -> len = (length m mod 128)%nat -> (112 <= len < 128)%nat ->
  take 113 (buf_write (take len buf ++ [128] ++ repeat 0 (127 - len)) 0 (repeat 0 112)) ++ cb =
  repeat 0 112 ++ [stale_byte m buf] ++ cb.
Proof.
  intros Hb Hm Hl. set (blk := take len buf ++ [128] ++ repeat 0 (127 - len)).
  assert (Hk : length blk = 128%nat) by (unfold blk; rewrite !length_app, repeat_length, length_take; simpl; lia).
  assert (Hz := repeat_length (0 : Z) 112).
  assert (Ht : take 112 (buf_write blk 0 (repeat 0 112)) = repeat 0 112).
  { pose proof (buf_write_take blk 0 (repeat 0 112)) as H. rewrite Hz in H. apply H. lia. }
  assert (Hs : wd (buf_write blk 0 (repeat 0 112)) 112 = stale_byte m buf); [clear Ht|].
  - unfold buf_write. rewrite take_0, app_nil_l, wd_app_r by lia. rewrite Hz. unfold stale_byte. rewrite <- Hm.
    assert (E : wd (drop (0 + 112) blk) (112 - 112) = wd blk 112).
    { unfold wd. rewrite <- (take_drop 112 blk) at 2. rewrite app_nth2; rewrite length_take; [|lia].
      by rewrite Nat.min_l by lia. }
    rewrite E. unfold blk. destruct (Nat.eqb_spec len 112) as [->|Hne].
    + rewrite wd_app_r by (rewrite length_take; lia). rewrite length_take, Nat.min_l by lia. done.
    + unfold wd. rewrite app_nth1 by (rewrite length_take; lia). rewrite <- (take_drop len buf) at 2.
      by rewrite app_nth1 by (rewrite length_take; lia).
  - rewrite take_wd, Ht, Hs by (rewrite buf_write_length; lia). by rewrite <- app_assoc.
Qed.

Lemma late_padding_one (m : list Z) len stale :
  len = (length m mod 128)%nat -> (len < 112)%nat ->
  late_padding stale (length m) = [128] ++ repeat 0 (111 - len) ++ [stale] ++ take 15 (be_bytes 16 (8 * Z.of_nat (length m))).
Proof.
  intros -> Hl. unfold late_padding. do 3 f_equal.
  replace (239 - length m mod 128)%nat with (111 - length m mod 128 + 1 * 128)%nat by lia.
  rewrite Nat.Div0.mod_add. apply Nat.mod_small. lia.
Qed.

Lemma late_padding_two (m : list Z) len stale :
  len = (length m mod 128)%nat -> (112 <= len < 128)%nat ->
  late_padding stale (length m) =
  ([128] ++ repeat 0 (127 - len)) ++ repeat 0 112 ++ [stale] ++ take 15 (be_bytes 16 (8 * Z.of_nat (length m))).
Proof.
  intros -> Hl. unfold late_padding. rewrite Nat.mod_small by lia. rewrite <- !app_assoc. f_equal.
  rewrite (app_assoc (repeat 0 (127 - _))). f_equal. rewrite <- repeat_app. f_equal. lia.
Qed.

Lemma late_blocks (m : list Z) len stale :
  len = (length m mod 128)%nat ->
  (length (m ++ late_padding stale (length m)) / 128 = length m / 128 + if (112 <=? len)%nat then 2 else 1)%nat.
Proof.
  intros Hl. pose proof (Nat.mod_upper_bound (length m) 128 ltac:(lia)) as Hb.
  pose proof (Nat.div_mod_eq (length m) 128) as Hq.
  assert (Hcb : length (take 15 (be_bytes 16 (8 * Z.of_nat (length m)))) = 15%nat) by (by rewrite length_take, be_bytes_length).
  destruct (Nat.leb_spec 112 len).
  - rewrite (late_padding_two m len) by lia. rewrite !length_app, !repeat_length, Hcb. simpl length.
    symmetry. apply (Nat.div_unique _ _ _ 0); lia.
  - rewrite (late_padding_one m len) by lia. rewrite !length_app, !repeat_length, Hcb. simpl length.
    symmetry. apply (Nat.div_unique _ _ _ 0); lia.
Qed.

Lemma final_hash512 m ctx :
  ctx_ok m ctx ->
  exists ctx', sha512_final (Some ctx) true =
    (ERR_OK, Some (md k (m ++ late_padding (stale_byte m (buffer ctx)) (length m))), Some ctx').
Proof.
  intros (Ha & Hhi & Hlo & Hc). pose proof Ha as [Hb Hl Hm Hh Hr]. unfold sha512_final. cbn [negb].
  set (len := buffer_len ctx) in *. unfold md. rewrite (late_blocks m len _ Hm).
  assert (Hcb : length (take 15 (be_bytes 16 (8 * Z.of_nat (length m)))) = 15%nat) by (by rewrite length_take, be_bytes_length).
  destruct (Nat.leb_spec 112 len) as [E|E].
  - rewrite (late_padding_two m len _ Hm) by lia. replace (112 <? S len)%nat with true by (symmetry; apply Nat.ltb_lt; lia).
    cbv iota beta. replace (128 - S len)%nat with (127 - len)%nat by lia.
    assert (Hblk : buf_write (buf_write (buffer ctx) len [128]) (S len) (repeat 0 (127 - len)) =
                   take len (buffer ctx) ++ [128] ++ repeat 0 (127 - len)).
    { rewrite <- Nat.add_1_r. apply (buf_write_twice _ len [128]). rewrite repeat_length. simpl. lia. }
    rewrite Hblk. rewrite store_count_eq by (rewrite buf_write_length; rewrite ?repeat_length, !length_app, ?repeat_length, length_take; simpl; lia).
    cbv iota beta. change (112 - 0)%nat with 112%nat. rewrite (count_bytes_halves _ _ _ Hhi Hlo Hc), (last_two m) by done || lia.
    unfold sha512_process_block.
    rewrite (absorb_two 128 (process_block k) _ _ _ _ _ _ _ Ha) by (rewrite !length_app, ?repeat_length, ?Hcb; simpl; lia).
    rewrite (Nat.add_comm _ 2). eexists. apply eq_refl.
  - rewrite (late_padding_one m len _ Hm) by lia. replace (112 <? S len)%nat with false by (symmetry; apply Nat.ltb_ge; lia).
    cbv iota beta. assert (Hw : length (buf_write (buffer ctx) len [128]) = 128%nat) by (rewrite buf_write_length; simpl; lia).
    rewrite store_count_eq by (rewrite buf_write_length; rewrite ?repeat_length, Hw; lia).
    cbv iota beta. rewrite (count_bytes_halves _ _ _ Hhi Hlo Hc), last_one by done || lia.
    assert (Hs : stale_byte m (buffer ctx) = wd (buffer ctx) 112).
    { unfold stale_byte. rewrite <- Hm. by destruct (Nat.eqb_spec len 112); [lia|]. }
    rewrite Hs. rewrite (absorb_block 128 (process_block k) _ _ _ _ _ _ Ha) by (rewrite !length_app, ?repeat_length, ?Hcb; simpl; lia).
    rewrite (Nat.add_comm _ 1). eexists. apply eq_refl.
Qed.

End Sha512.

(** * Constants of the standard

    FIPS 180-4 takes the constants from fractional parts: [frac_root e w p v] says
    that [v] is the first [w] bits of the fractional part of the [e]-th root of
    [p] (whose integer part is below 8). *)
Definition frac_root (e w p v : Z) : bool :=
  existsb (fun c => ((c * 2 ^ w + v) ^ e <=? p * 2 ^ (e * w)) && (p * 2 ^ (e * w) <? (c * 2 ^ w + v + 1) ^ e))
    (Z.of_nat <$> seq 0 8).

Definition is_prime (p : Z) : bool := forallb (fun d => negb (p mod d =? 0)) (Z.of_nat <$> seq 2 (Z.to_nat p - 2)).

(** The first eighty primes. *)
Definition primes : list Z := Eval vm_compute in List.filter is_prime (Z.of_nat <$> seq 2 408).
Definition prime (i : nat) : Z := nth i primes 0.

(** A property of the first [n] indices, by evaluation. *)
Lemma forall_below (n : nat) (P : nat -> bool) :
  forallb P (seq 0 n) = true -> forall i, (i < n)%nat -> P i = true.
Proof. intros H i Hi. eapply forallb_forall in H; [exact H|]. apply in_seq. lia. Qed.

(** The code's table with the standard's entry at index 55. *)
Definition k256_standard : list Z := <[55%nat := 0x682e6ff3]> Sha256.k.

(** C19. SHA-256 computes the same digest however the message is cut into chunks
    and whatever the fresh context memory held: the Merkle-Damgard hash of the
    message with the standard padding.  The one-shot function agrees, and every
    update finishes. *)
Theorem sha256_streaming (fresh : list Z) (chunks : list (list Z)) (Hfresh : length fresh = 64%nat) :
  exists ctx ctx' ctx'',
    Sha256.sha256_init true (Some fresh) = (ERR_OK, Some ctx) /\
    Sha256.updates (Some ctx) chunks = Some ctx' /\
    Sha256.sha256_final (Some ctx') true = (ERR_OK, Some (Sha256.md256 (concat chunks)), Some ctx'') /\
    Sha256.sha256_hash (Some fresh) (Some (concat chunks)) true = (ERR_OK, Some (Sha256.md256 (concat chunks))).
Proof.
  destruct (Sha256.init_ok fresh Hfresh) as (ctx & Hi & Hok). exists ctx.
  destruct (Sha256.updates_ok chunks [] ctx Hok) as (ctx' & Hu & Hok'). exists ctx'.
  destruct (Sha256.final_hash _ _ Hok') as (ctx'' & Hf). exists ctx''. split_and!; [done..|].
  destruct (Sha256.updates_ok [concat chunks] [] ctx Hok) as (c1 & Hu1 & Hok1).
  destruct (Sha256.final_hash _ _ Hok1) as (c2 & Hf1). simpl concat in Hf1. rewrite app_nil_r in Hf1.
  unfold Sha256.sha256_hash. rewrite Hi. unfold Sha256.sha256_update. unfold Sha256.updates in Hu1. simpl in Hu1.
  by rewrite Hu1, Hf1.
Qed.

(** SHA-512 absorbs its input correctly, with a 128-bit count, but stores the
    count one byte late: the digest is that of the message followed by a padding
    whose byte 112 is left over from earlier.  For a message shorter than 112 bytes
    that byte comes from uninitialised memory, and the digest depends on it. *)
Theorem sha512_pads_late (fresh : list Z) (chunks : list (list Z)) (Hfresh : length fresh = 128%nat) :
  exists ctx ctx' ctx'',
    Sha512.sha512_init true (Some fresh) = (ERR_OK, Some ctx) /\
    Sha512.updates (Some ctx) chunks = Some ctx' /\
    Sha512.sha512_final (Some ctx') true =
      (ERR_OK, Some (Sha512.md Sha512.k (concat chunks ++
         Sha512.late_padding (Sha512.stale_byte (concat chunks) (Sha512.buffer ctx')) (length (concat chunks)))), Some ctx'') /\
    Sha512.sha512_hash (Some (repeat 0 128)) (Some (text "abc")) true <>
    Sha512.sha512_hash (Some (repeat 1 128)) (Some (text "abc")) true.
Proof.
  destruct (Sha512.init_ok512 fresh Hfresh) as (ctx & Hi & Hok). exists ctx.
  destruct (Sha512.updates_ok512 chunks [] ctx Hok) as (ctx' & Hu & Hok'). exists ctx'.
  destruct (Sha512.final_hash512 _ _ Hok') as (ctx'' & Hf). exists ctx''. split_and!; [done..|].
  vm_compute. discriminate.
Qed.

(** The SHA-256 table has the standard's constants except at index 55, the
    SHA-512 table except at 31 and 55, and both initial states are the standard's.
    So the digest of "abc" is not the published one, which the same code computes
    with the standard's table. *)
Theorem sha2_constants :
  (forall i, (i < 64)%nat -> frac_root 3 32 (prime i) (Sha256.wd Sha256.k i) = negb (i =? 55)%nat) /\
  (forall i, (i < 80)%nat -> frac_root 3 64 (prime i) (Sha512.wd Sha512.k i) = negb ((i =? 31) || (i =? 55))%nat) /\
  Forall2 (fun p v => frac_root 2 32 p v = true) (take 8 primes) (words8_list Sha256.initial_state) /\
  Forall2 (fun p v => frac_root 2 64 p v = true) (take 8 primes) (words8_list Sha512.initial_state) /\
  be_value (Sha256.md k256_standard (text "abc")) = 0xba7816bf8f01cfea414140de5dae2223b00361a396177a9cb410ff61f20015ad /\
  be_value (Sha256.md256 (text "abc")) = 0x4aeb243a8c24e4d5ac2606ae84b6e0bda8e882cd0f7a27475d4196d107828d3.
Proof.
  split_and!; [| |repeat constructor; vm_compute; reflexivity|repeat constructor; vm_compute; reflexivity|vm_compute; reflexivity..].
  - intros i Hi. apply eqb_prop. revert i Hi. apply (forall_below 64). vm_compute. reflexivity.
  - intros i Hi. apply eqb_prop. revert i Hi. apply (forall_below 80). vm_compute. reflexivity.
Qed.

(** ** Witnesses *)

Lemma sha256_streaming_witness :
  Sha256.sha256_hash (Some (repeat 0 64)) (Some (text "abc")) true = (ERR_OK, Some (Sha256.md256 (text "abc"))).
Proof. by destruct (sha256_streaming (repeat 0 64) [text "a"; text "bc"] eq_refl) as (? & ? & ? & _ & _ & _ & H). Defined.

Lemma sha512_pads_late_witness :
  exists ctx ctx', Sha512.updates (Some ctx) [text "abc"] = Some ctx' /\
    fst (Sha512.sha512_final (Some ctx') true) =
    (ERR_OK, Some (Sha512.md Sha512.k (text "abc" ++ Sha512.late_padding (Sha512.stale_byte (text "abc") (Sha512.buffer ctx')) 3))).
Proof.
  destruct (sha512_pads_late (repeat 9 128) [text "abc"] eq_refl) as (ctx & ctx' & ctx'' & _ & Hu & Hf & _).
  exists ctx, ctx'. split; [exact Hu|]. rewrite Hf. reflexivity.
Defined.
