(* ===== verification/Aes.v ===== *)
(** * AES (kernel/crypto/aes256.c, aes128.c, aes192.c)

    The cipher state is the list of its 16 bytes, updated by index in the order of
    the code; round keys are a list of 32-bit words.  The three files repeat the
    same CBC loops and differ in the number of rounds, the number of key words and
    the key expansion: the shared text is written once with those parameters, and
    the functions of each file are its instances.

    A null pointer is [None]; a null initialisation vector means sixteen zeros.
    Plaintext and ciphertext are distinct buffers: the result is the list of bytes
    written to the output. *)

From Stdlib Require Import Lia String Btauto.
From stdpp Require Import base tactics list numbers option.
From S2P Require Import Prelude Bytes.

Definition sbox : list Z := Eval vm_compute in hex_table
    "63 7c 77 7b f2 6b 6f c5 30 01 67 2b fe d7 ab 76
     ca 82 c9 7d fa 59 47 f0 ad d4 a2 af 9c a4 72 c0
     b7 fd 93 26 36 3f f7 cc 34 a5 e5 f1 71 d8 31 15
     04 c7 23 c3 18 96 05 9a 07 12 80 e2 eb 27 b2 75
     09 83 2c 1a 1b 6e 5a a0 52 3b d6 b3 29 e3 2f 84
     53 d1 00 ed 20 fc b1 5b 6a cb be 39 4a 4c 58 cf
     d0 ef aa fb 43 4d 33 85 45 f9 02 7f 50 3c 9f a8
     51 a3 40 8f 92 9d 38 f5 bc b6 da 21 10 ff f3 d2
     cd 0c 13 ec 5f 97 44 17 c4 a7 7e 3d 64 5d 19 73
     60 81 4f dc 22 2a 90 88 46 ee b8 14 de 5e 0b db
     e0 32 3a 0a 49 06 24 5c c2 d3 ac 62 91 95 e4 79
     e7 c8 37 6d 8d d5 4e a9 6c 56 f4 ea 65 7a ae 08
     ba 78 25 2e 1c a6 b4 c6 e8 dd 74 1f 4b bd 8b 8a
     70 3e b5 66 48 03 f6 0e 61 35 57 b9 86 c1 1d 9e
     e1 f8 98 11 69 d9 8e 94 9b 1e 87 e9 ce 55 28 df
     8c a1 89 0d bf e6 42 68 41 99 2d 0f b0 54 bb 16"%string.

Definition inv_sbox : list Z := Eval vm_compute in hex_table
    "52 09 6a d5 30 36 a5 38 bf 40 a3 9e 81 f3 d7 fb
     7c e3 39 82 9b 2f ff 87 34 8e 43 44 c4 de e9 cb
     54 7b 94 32 a6 c2 23 3d ee 4c 95 0b 42 fa c3 4e
     08 2e a1 66 28 d9 24 b2 76 5b a2 49 6d 8b d1 25
     72 f8 f6 64 86 68 98 16 d4 a4 5c cc 5d 65 b6 92
     6c 70 48 50 fd ed b9 da 5e 15 46 57 a7 8d 9d 84
     90 d8 ab 00 8c bc d3 0a f7 e4 58 05 b8 b3 45 06
     d0 2c 1e 8f ca 3f 0f 02 c1 af bd 03 01 13 8a 6b
     3a 91 11 41 4f 67 dc ea 97 f2 cf ce f0 b4 e6 73
     96 ac 74 22 e7 ad 35 85 e2 f9 37 e8 1c 75 df 6e
     47 f1 1a 71 1d 29 c5 89 6f b7 62 0e aa 18 be 1b
     fc 56 3e 4b c6 d2 79 20 9a db c0 fe 78 cd 5a f4
     1f dd a8 33 88 07 c7 31 b1 12 10 59 27 80 ec 5f
     60 51 7f a9 19 b5 4a 0d 2d e5 7a 9f 93 c9 9c ef
     a0 e0 3b 4d ae 2a f5 b0 c8 eb bb 3c 83 53 99 61
     17 2b 04 7e ba 77 d6 26 e1 69 14 63 55 21 0c 7d"%string.

Definition rcon : list Z := Eval vm_compute in hex_table "00 01 02 04 08 10 20 40 80 1b 36"%string.

Definition AES_BLOCK_SIZE : nat := 16.
Definition AES128_ROUNDS : nat := 10.
Definition AES128_KEY_WORDS : nat := 4.
Definition AES192_ROUNDS : nat := 12.
Definition AES192_KEY_WORDS : nat := 6.
Definition AES256_ROUNDS : nat := 14.
Definition AES256_KEY_WORDS : nat := 8.

(** ** Key expansion *)

Definition at_ (l : list Z) (i : nat) : Z := nth i l 0.
Definition sub_byte (x : Z) : Z := at_ sbox (Z.to_nat x).

Definition key_word (key : list Z) (i : nat) : Z :=
  Z.lor (Z.lor (Z.lor (Z.shiftl (at_ key (i * 4)) 24) (Z.shiftl (at_ key (i * 4 + 1)) 16))
    (Z.shiftl (at_ key (i * 4 + 2)) 8)) (at_ key (i * 4 + 3)).

Definition rot_word (t : Z) : Z := Z.lor (u32 (Z.shiftl t 8)) (Z.shiftr t 24).
Definition sub_word (t : Z) : Z :=
  Z.lor (Z.lor (Z.lor (Z.shiftl (sub_byte (Z.land (Z.shiftr t 24) 0xFF)) 24)
    (Z.shiftl (sub_byte (Z.land (Z.shiftr t 16) 0xFF)) 16))
    (Z.shiftl (sub_byte (Z.land (Z.shiftr t 8) 0xFF)) 8)) (sub_byte (Z.land t 0xFF)).

(** One round of the expansion loop: [nk] key words; [sub4] when the loop has the
    branch for [i % nk == 4] (aes192.c and aes256.c do, aes128.c does not). *)
Definition expand_round (nk : nat) (sub4 : bool) (round_keys : list Z) (i : nat) : list Z :=
  let temp := at_ round_keys (i - 1) in
  let temp :=
    if (i mod nk =? 0)%nat then Z.lxor (sub_word (rot_word temp)) (Z.shiftl (at_ rcon (i / nk)) 24)
    else if sub4 && (i mod nk =? 4)%nat then sub_word temp else temp in
  round_keys ++ [Z.lxor (at_ round_keys (i - nk)) temp].

Definition key_expansion (nk rounds : nat) (sub4 : bool) (key : list Z) : list Z :=
  fold_left (expand_round nk sub4) (seq nk (4 * (rounds + 1) - nk)) (key_word key <$> seq 0 nk).

Definition aes128_key_expansion : list Z -> list Z := key_expansion AES128_KEY_WORDS AES128_ROUNDS false.
Definition aes192_key_expansion : list Z -> list Z := key_expansion AES192_KEY_WORDS AES192_ROUNDS true.
Definition aes256_key_expansion : list Z -> list Z := key_expansion AES256_KEY_WORDS AES256_ROUNDS true.

(** ** Round operations *)

Definition xor_at (state : list Z) (i : nat) (v : Z) : list Z := <[i := Z.lxor (at_ state i) v]> state.

(** [round_key] is the list of words from the given pointer on. *)
Definition add_round_key (state : list Z) (round_key : list Z) : list Z :=
  fold_left (fun state i =>
    let k := at_ round_key i in
    let state := xor_at state (i * 4) (Z.land (Z.shiftr k 24) 0xFF) in
    let state := xor_at state (i * 4 + 1) (Z.land (Z.shiftr k 16) 0xFF) in
    let state := xor_at state (i * 4 + 2) (Z.land (Z.shiftr k 8) 0xFF) in
    xor_at state (i * 4 + 3) (Z.land k 0xFF)) (seq 0 4) state.

Definition sub_bytes (state : list Z) : list Z :=
  fold_left (fun state i => <[i := at_ sbox (Z.to_nat (at_ state i))]> state) (seq 0 16) state.
Definition inv_sub_bytes (state : list Z) : list Z :=
  fold_left (fun state i => <[i := at_ inv_sbox (Z.to_nat (at_ state i))]> state) (seq 0 16) state.

(** [state[i] = state[j]] *)
Definition mov (i j : nat) (state : list Z) : list Z := <[i := at_ state j]> state.

Definition shift_rows (state : list Z) : list Z :=
  let temp := at_ state 1 in
  let state := <[13%nat := temp]> (mov 9 13 (mov 5 9 (mov 1 5 state))) in
  let temp := at_ state 2 in
  let state := <[10%nat := temp]> (mov 2 10 state) in
  let temp := at_ state 6 in
  let state := <[14%nat := temp]> (mov 6 14 state) in
  let temp := at_ state 3 in
  <[7%nat := temp]> (mov 11 7 (mov 15 11 (mov 3 15 state))).

Definition inv_shift_rows (state : list Z) : list Z :=
  let temp := at_ state 13 in
  let state := <[1%nat := temp]> (mov 5 1 (mov 9 5 (mov 13 9 state))) in
  let temp := at_ state 2 in
  let state := <[10%nat := temp]> (mov 2 10 state) in
  let temp := at_ state 6 in
  let state := <[14%nat := temp]> (mov 6 14 state) in
  let temp := at_ state 3 in
  <[15%nat := temp]> (mov 11 15 (mov 7 11 (mov 3 7 state))).

(** The loop of [gmul], [n] rounds to go. *)
Fixpoint gmul_loop (n : nat) (p a b : Z) : Z :=
  match n with
  | O => p
  | S n =>
      let p := if Z.odd b then Z.lxor p a else p in
      let hi_bit := Z.land a 0x80 in
      let a := u8 (Z.shiftl a 1) in
      let a := if negb (hi_bit =? 0) then Z.lxor a 0x1b else a in
      gmul_loop n p a (Z.shiftr b 1)
  end.
Definition gmul (a b : Z) : Z := gmul_loop 8 0 a b.

Definition xor4 (a b c d : Z) : Z := Z.lxor (Z.lxor (Z.lxor a b) c) d.

Definition mix_column (state : list Z) (i : nat) : list Z :=
  let s0 := at_ state (i * 4) in
  let s1 := at_ state (i * 4 + 1) in
  let s2 := at_ state (i * 4 + 2) in
  let s3 := at_ state (i * 4 + 3) in
  let state := <[(i * 4)%nat := xor4 (gmul 2 s0) (gmul 3 s1) s2 s3]> state in
  let state := <[(i * 4 + 1)%nat := xor4 s0 (gmul 2 s1) (gmul 3 s2) s3]> state in
  let state := <[(i * 4 + 2)%nat := xor4 s0 s1 (gmul 2 s2) (gmul 3 s3)]> state in
  <[(i * 4 + 3)%nat := xor4 (gmul 3 s0) s1 s2 (gmul 2 s3)]> state.
Definition mix_columns (state : list Z) : list Z := fold_left mix_column (seq 0 4) state.

Definition inv_mix_column (state : list Z) (i : nat) : list Z :=
  let s0 := at_ state (i * 4) in
  let s1 := at_ state (i * 4 + 1) in
  let s2 := at_ state (i * 4 + 2) in
  let s3 := at_ state (i * 4 + 3) in
  let state := <[(i * 4)%nat := xor4 (gmul 0x0e s0) (gmul 0x0b s1) (gmul 0x0d s2) (gmul 0x09 s3)]> state in
  let state := <[(i * 4 + 1)%nat := xor4 (gmul 0x09 s0) (gmul 0x0e s1) (gmul 0x0b s2) (gmul 0x0d s3)]> state in
  let state := <[(i * 4 + 2)%nat := xor4 (gmul 0x0d s0) (gmul 0x09 s1) (gmul 0x0e s2) (gmul 0x0b s3)]> state in
  <[(i * 4 + 3)%nat := xor4 (gmul 0x0b s0) (gmul 0x0d s1) (gmul 0x09 s2) (gmul 0x0e s3)]> state.
Definition inv_mix_columns (state : list Z) : list Z := fold_left inv_mix_column (seq 0 4) state.

(** ** CBC mode *)

Definition round_key (round_keys : list Z) (round : nat) : list Z := drop (round * 4) round_keys.

Definition main_round (rk state : list Z) (round : nat) : list Z :=
  add_round_key (mix_columns (shift_rows (sub_bytes state))) (round_key rk round).
Definition inv_main_round (rk state : list Z) (round : nat) : list Z :=
  inv_mix_columns (add_round_key (inv_sub_bytes (inv_shift_rows state)) (round_key rk round)).

Definition encrypt_block (rounds : nat) (rk state : list Z) : list Z :=
  let state := add_round_key state (round_key rk 0) in
  let state := fold_left (main_round rk) (seq 1 (rounds - 1)) state in
  add_round_key (shift_rows (sub_bytes state)) (round_key rk rounds).

Definition decrypt_block (rounds : nat) (rk state : list Z) : list Z :=
  let state := add_round_key state (round_key rk rounds) in
  let state := fold_left (inv_main_round rk) (rev (seq 1 (rounds - 1))) state in
  add_round_key (inv_sub_bytes (inv_shift_rows state)) (round_key rk 0).

(** The block loops: [n] blocks to go, [prev_block] the last ciphertext block. *)
Fixpoint encrypt_loop (rounds : nat) (rk : list Z) (n : nat) (prev_block plaintext : list Z) : list Z :=
  match n with
  | O => []
  | S n =>
      let state := encrypt_block rounds rk (xor_bytes (take AES_BLOCK_SIZE plaintext) prev_block) in
      state ++ encrypt_loop rounds rk n state (drop AES_BLOCK_SIZE plaintext)
  end.

Fixpoint decrypt_loop (rounds : nat) (rk : list Z) (n : nat) (prev_block ciphertext : list Z) : list Z :=
  match n with
  | O => []
  | S n =>
      let saved_state := take AES_BLOCK_SIZE ciphertext in
      xor_bytes (decrypt_block rounds rk saved_state) prev_block ++
      decrypt_loop rounds rk n saved_state (drop AES_BLOCK_SIZE ciphertext)
  end.

Definition first_block (iv : option (list Z)) : list Z :=
  match iv with Some iv => take AES_BLOCK_SIZE iv | None => repeat 0 AES_BLOCK_SIZE end.

(** The common text of the encrypt functions and of the decrypt functions; [out]
    tells whether the output pointer is non-null. *)
Definition aes_cbc (loop : nat -> list Z -> nat -> list Z -> list Z -> list Z) (rounds : nat) (expand : list Z -> list Z)
    (key iv input : option (list Z)) (out : bool) : error_code_t * option (list Z) :=
  match key, input, out with
  | Some key, Some input, true =>
      if negb (length input mod AES_BLOCK_SIZE =? 0)%nat then (ERR_INVALID_ARG, None)
      else (ERR_OK, Some (loop rounds (expand key) (length input / AES_BLOCK_SIZE)%nat (first_block iv) input))
  | _, _, _ => (ERR_INVALID_ARG, None)
  end.

Definition aes128_encrypt := aes_cbc encrypt_loop AES128_ROUNDS aes128_key_expansion.
Definition aes128_decrypt := aes_cbc decrypt_loop AES128_ROUNDS aes128_key_expansion.
Definition aes192_encrypt := aes_cbc encrypt_loop AES192_ROUNDS aes192_key_expansion.
Definition aes192_decrypt := aes_cbc decrypt_loop AES192_ROUNDS aes192_key_expansion.
Definition aes256_encrypt := aes_cbc encrypt_loop AES256_ROUNDS aes256_key_expansion.
Definition aes256_decrypt := aes_cbc decrypt_loop AES256_ROUNDS aes256_key_expansion.

(** * Inverse operations *)

Lemma fold_left_keeps {A B} (P : A -> Prop) (f : A -> B -> A) l : forall a,
  P a -> (forall a b, P a -> P (f a b)) -> P (fold_left f l a).
Proof. induction l as [|b l IH]; intros a Ha Hf; [done|]. simpl. apply IH; [by apply Hf|done]. Qed.

(** Rounds undone in the opposite order. *)
Lemma fold_left_inverse {A B} (P : A -> Prop) (f g : A -> B -> A) (h : A -> A) :
  (forall a b, P a -> P (f a b)) -> (forall a b, P a -> g (h (f a b)) b = h a) ->
  forall l a, P a -> fold_left g (rev l) (h (fold_left f l a)) = h a.
Proof.
  intros Hf Hg l. induction l as [|b l IH]; intros a Ha; [done|]. simpl.
  rewrite fold_left_app, IH by (by apply Hf). by apply Hg.
Qed.

(** Chaining over any block cipher with an inverse. *)
Section cbc.
  Context (E D : list Z -> list Z).
  Hypothesis E_block : forall s, length s = 16%nat /\ bytes s -> length (E s) = 16%nat /\ bytes (E s).
  Hypothesis D_E : forall s, length s = 16%nat /\ bytes s -> D (E s) = s.

Fixpoint chain (n : nat) (prev pt : list Z) : list Z :=
  match n with
  | O => []
  | S n => let c := E (xor_bytes (take 16 pt) prev) in c ++ chain n c (drop 16 pt)
  end.
Fixpoint unchain (n : nat) (prev ct : list Z) : list Z :=
  match n with
  | O => []
  | S n => xor_bytes (D (take 16 ct)) prev ++ unchain n (take 16 ct) (drop 16 ct)
  end.

Lemma unchain_chain n : forall prev pt,
  length prev = 16%nat -> bytes prev -> bytes pt -> length pt = (16 * n)%nat ->
  unchain n prev (chain n prev pt) = pt /\ length (chain n prev pt) = length pt /\ bytes (chain n prev pt).
Proof.
  induction n as [|n IH]; intros prev pt Hpl Hpb Hb Hl.
  { destruct pt; [done|simpl in Hl; lia]. }
  cbn [chain unchain]. set (x := xor_bytes (take 16 pt) prev).
  assert (Hx : length x = 16%nat /\ bytes x).
  { split; [unfold x; rewrite xor_bytes_length, length_take; lia|].
    apply xor_bytes_ok; [by apply Forall_take|done]. }
  destruct (E_block x Hx) as [Hcl Hcb].
  destruct (IH (E x) (drop 16 pt) Hcl Hcb) as (IH1 & IH2 & IH3); [by apply Forall_drop|rewrite length_drop; lia|].
  rewrite take_app_length', drop_app_length' by done. split_and!.
  - rewrite IH1, D_E by done. unfold x. rewrite xor_bytes_cancel by (rewrite length_take; lia). apply take_drop.
  - rewrite length_app, IH2, length_drop. lia.
  - by apply Forall_app_2.
Qed.

End cbc.

(** A cipher block: sixteen bytes. *)
Definition block (s : list Z) : Prop := length s = 16%nat /\ bytes s.

(** A statement about every byte, by evaluation. *)
Lemma forall_byte (P : Z -> bool) :
  forallb (fun i => P (Z.of_nat i)) (seq 0 256) = true -> forall x, fits 8 x -> P x = true.
Proof.
  intros H x [Hx Hx']. rewrite <- (Z2Nat.id x) by lia.
  apply (proj1 (forallb_forall _ _) H), in_seq. change (2 ^ 8) with 256 in Hx'. lia.
Qed.

Lemma sub_byte_inv x : fits 8 x -> at_ inv_sbox (Z.to_nat (sub_byte x)) = x.
Proof.
  intros Hx. apply Z.eqb_eq. revert x Hx.
  apply (forall_byte (fun x => at_ inv_sbox (Z.to_nat (sub_byte x)) =? x)). vm_compute. reflexivity.
Qed.

Lemma sub_byte_fits x : fits 8 x -> fits 8 (sub_byte x).
Proof.
  intros Hx. assert (H : (0 <=? sub_byte x) && (sub_byte x <? 256) = true); [|unfold fits; bprop; lia].
  revert x Hx. apply (forall_byte (fun x => (0 <=? sub_byte x) && (sub_byte x <? 256))). vm_compute. reflexivity.
Qed.

Lemma gmul_fits_const c x : In c [2; 3; 9; 11; 13; 14] -> fits 8 x -> fits 8 (gmul c x).
Proof.
  intros Hc Hx. assert (H : (0 <=? gmul c x) && (gmul c x <? 256) = true); [|unfold fits; bprop; lia].
  revert x Hx. apply (forall_byte (fun x => (0 <=? gmul c x) && (gmul c x <? 256))).
  destruct Hc as [<-|[<-|[<-|[<-|[<-|[<-|[]]]]]]]; vm_compute; reflexivity.
Qed.

(** Multiplication is linear in its second argument. *)
Lemma gmul_loop_linear n : forall p q a b c,
  gmul_loop n (Z.lxor p q) a (Z.lxor b c) = Z.lxor (gmul_loop n p a b) (gmul_loop n q a c).
Proof.
  induction n as [|n IH]; intros p q a b c; [done|]. cbn [gmul_loop].
  rewrite Z.shiftr_lxor, <- IH. f_equal. rewrite <- !Z.bit0_odd, Z.lxor_spec.
  destruct (Z.testbit b 0), (Z.testbit c 0); simpl.
  - apply Z.bits_inj'. intros i Hi. rewrite !Z.lxor_spec. btauto.
  - apply Z.bits_inj'. intros i Hi. rewrite !Z.lxor_spec. btauto.
  - apply Z.bits_inj'. intros i Hi. rewrite !Z.lxor_spec. btauto.
  - done.
Qed.

Lemma gmul_linear a b c : gmul a (Z.lxor b c) = Z.lxor (gmul a b) (gmul a c).
Proof. unfold gmul. rewrite <- gmul_loop_linear. by rewrite Z.lxor_0_l. Qed.

Lemma gmul_xor4 c w x y z : gmul c (xor4 w x y z) = xor4 (gmul c w) (gmul c x) (gmul c y) (gmul c z).
Proof. unfold xor4. by rewrite !gmul_linear. Qed.

Lemma xor4_transpose a b c d e f g h i j k l m n o p :
  xor4 (xor4 a b c d) (xor4 e f g h) (xor4 i j k l) (xor4 m n o p) =
  xor4 (xor4 a e i m) (xor4 b f j n) (xor4 c g k o) (xor4 d h l p).
Proof. unfold xor4. apply Z.bits_inj'. intros t Ht. rewrite !Z.lxor_spec. btauto. Qed.

(** The product of the two column matrices, one byte at a time. *)
Definition col_eq (c0 c1 c2 c3 d0 d1 d2 d3 r : Z) : Prop :=
  forall x, fits 8 x ->
  xor4 (gmul c0 (gmul d0 x)) (gmul c1 (gmul d1 x)) (gmul c2 (gmul d2 x)) (gmul c3 (gmul d3 x)) = if r =? 1 then x else 0.

Lemma gmul_1 x : fits 8 x -> gmul 1 x = x.
Proof.
  intros Hx. apply Z.eqb_eq. revert x Hx. apply (forall_byte (fun x => gmul 1 x =? x)). vm_compute. reflexivity.
Qed.

Ltac col_eq_tac :=
  intros x Hx; apply Z.eqb_eq; revert x Hx;
  match goal with |- forall x, fits 8 x -> (@?f x =? @?g x) = true => apply (forall_byte (fun x => f x =? g x)) end;
  vm_compute; reflexivity.

(** A row of the inverse matrix times the columns of the matrix. *)
Definition row_eq (c0 c1 c2 c3 r0 r1 r2 r3 : Z) : Prop :=
  col_eq c0 c1 c2 c3 2 1 1 3 r0 /\ col_eq c0 c1 c2 c3 3 2 1 1 r1 /\
  col_eq c0 c1 c2 c3 1 3 2 1 r2 /\ col_eq c0 c1 c2 c3 1 1 3 2 r3.

Lemma inverse_rows :
  row_eq 14 11 13 9 1 0 0 0 /\ row_eq 9 14 11 13 0 1 0 0 /\ row_eq 13 9 14 11 0 0 1 0 /\ row_eq 11 13 9 14 0 0 0 1.
Proof. unfold row_eq, col_eq. split_and!; col_eq_tac. Qed.

Lemma inv_mix_row c0 c1 c2 c3 r0 r1 r2 r3 s0 s1 s2 s3 :
  row_eq c0 c1 c2 c3 r0 r1 r2 r3 -> fits 8 s0 -> fits 8 s1 -> fits 8 s2 -> fits 8 s3 ->
  xor4 (gmul c0 (xor4 (gmul 2 s0) (gmul 3 s1) s2 s3)) (gmul c1 (xor4 s0 (gmul 2 s1) (gmul 3 s2) s3))
       (gmul c2 (xor4 s0 s1 (gmul 2 s2) (gmul 3 s3))) (gmul c3 (xor4 (gmul 3 s0) s1 s2 (gmul 2 s3))) =
  xor4 (if r0 =? 1 then s0 else 0) (if r1 =? 1 then s1 else 0) (if r2 =? 1 then s2 else 0) (if r3 =? 1 then s3 else 0).
Proof.
  intros (H0 & H1 & H2 & H3) F0 F1 F2 F3. rewrite !gmul_xor4, xor4_transpose.
  rewrite <- (H0 s0 F0), <- (H1 s1 F1), <- (H2 s2 F2), <- (H3 s3 F3). by rewrite !gmul_1.
Qed.

(** Open a block into its bytes. *)
Ltac open_block H :=
  let Hl := fresh "Hl" in let Hb := fresh "Hb" in
  destruct H as [Hl Hb];
  match type of Hl with length ?s = _ =>
    do 16 (destruct s as [|? s]; [discriminate Hl|]); destruct s; [|discriminate Hl] end;
  clear Hl; unfold bytes in Hb;
  repeat match goal with H : Forall _ (_ :: _) |- _ => apply Forall_cons_1 in H as [? H] end.

Lemma inv_shift_shift s : block s -> inv_shift_rows (shift_rows s) = s.
Proof. intros H. open_block H. reflexivity. Qed.

Lemma shift_rows_block s : block s -> block (shift_rows s).
Proof. intros H. open_block H. split; [done|]. unfold bytes. repeat (apply Forall_cons_2; [done|]). apply Forall_nil_2. Qed.

Lemma sub_bytes_map s : block s -> sub_bytes s = sub_byte <$> s.
Proof. intros H. open_block H. reflexivity. Qed.

Lemma sub_bytes_block s : block s -> block (sub_bytes s).
Proof.
  intros H. rewrite sub_bytes_map by done. destruct H as [Hl Hb]. split; [by rewrite length_fmap|].
  apply Forall_fmap. eapply Forall_impl; [apply sub_byte_fits|exact Hb].
Qed.

Lemma inv_sub_bytes_map s : length s = 16%nat -> inv_sub_bytes s = (fun x => at_ inv_sbox (Z.to_nat x)) <$> s.
Proof. intros Hl. do 16 (destruct s as [|? s]; [discriminate Hl|]). destruct s; [reflexivity|discriminate Hl]. Qed.

Lemma inv_sub_sub s : block s -> inv_sub_bytes (sub_bytes s) = s.
Proof.
  intros H. rewrite sub_bytes_map by done. destruct H as [Hl Hb]. rewrite inv_sub_bytes_map by (by rewrite length_fmap).
  clear Hl. induction Hb as [|x s Hx Hb IH]; [done|]. rewrite !fmap_cons, IH. f_equal. by apply sub_byte_inv.
Qed.

Lemma inv_shift_rows_block s : block s -> block (inv_shift_rows s).
Proof. intros H. open_block H. split; [done|]. unfold bytes. repeat (apply Forall_cons_2; [done|]). apply Forall_nil_2. Qed.

Lemma inv_sub_byte_fits x : fits 8 x -> fits 8 (at_ inv_sbox (Z.to_nat x)).
Proof.
  intros Hx. assert (H : (0 <=? at_ inv_sbox (Z.to_nat x)) && (at_ inv_sbox (Z.to_nat x) <? 256) = true); [|unfold fits; bprop; lia].
  revert x Hx. apply (forall_byte (fun x => (0 <=? at_ inv_sbox (Z.to_nat x)) && (at_ inv_sbox (Z.to_nat x) <? 256))). vm_compute. reflexivity.
Qed.

Lemma inv_sub_bytes_block s : block s -> block (inv_sub_bytes s).
Proof.
  intros [Hl Hb]. rewrite inv_sub_bytes_map by done. split; [by rewrite length_fmap|].
  apply Forall_fmap. eapply Forall_impl; [apply inv_sub_byte_fits|exact Hb].
Qed.

(** Bytes of a word, and the key addition as a bytewise exclusive or. *)
Definition word_bytes (k : Z) : list Z :=
  [Z.land (Z.shiftr k 24) 0xFF; Z.land (Z.shiftr k 16) 0xFF; Z.land (Z.shiftr k 8) 0xFF; Z.land k 0xFF].
Definition key_bytes (rk : list Z) : list Z :=
  word_bytes (at_ rk 0) ++ word_bytes (at_ rk 1) ++ word_bytes (at_ rk 2) ++ word_bytes (at_ rk 3).

Lemma land_255_fits x : fits 8 (Z.land x 255).
Proof. change 255 with (Z.ones 8). rewrite Z.land_ones by lia. by apply wrap_fits. Qed.

Lemma key_bytes_ok rk : length (key_bytes rk) = 16%nat /\ bytes (key_bytes rk).
Proof. split; [done|]. unfold bytes. repeat (apply Forall_cons_2; [apply land_255_fits|]). apply Forall_nil_2. Qed.

Lemma add_round_key_xor s rk : length s = 16%nat -> add_round_key s rk = xor_bytes s (key_bytes rk).
Proof. intros Hl. do 16 (destruct s as [|? s]; [discriminate Hl|]). destruct s; [reflexivity|discriminate Hl]. Qed.

Lemma add_round_key_block s rk : block s -> block (add_round_key s rk).
Proof.
  intros [Hl Hb]. destruct (key_bytes_ok rk) as [Hk Hkb]. rewrite add_round_key_xor by done.
  split; [rewrite xor_bytes_length; lia|by apply xor_bytes_ok].
Qed.

Lemma add_round_key_twice s rk : block s -> add_round_key (add_round_key s rk) rk = s.
Proof.
  intros Hs. pose proof (add_round_key_block s rk Hs) as [Hl _]. rewrite add_round_key_xor by done.
  destruct Hs as [Hs _]. rewrite add_round_key_xor by done. destruct (key_bytes_ok rk). apply xor_bytes_cancel. lia.
Qed.

Lemma xor4_fits a b c d : fits 8 a -> fits 8 b -> fits 8 c -> fits 8 d -> fits 8 (xor4 a b c d).
Proof. intros. unfold xor4. repeat (apply lxor_fits; [lia| |done]). done. Qed.

Lemma mix_columns_block s : block s -> block (mix_columns s).
Proof.
  intros H. open_block H. split; [done|]. unfold bytes.
  repeat (apply Forall_cons_2; [apply xor4_fits; first [done | apply gmul_fits_const; [simpl; tauto|done]]|]). apply Forall_nil_2.
Qed.

Lemma inv_mix_columns_block s : block s -> block (inv_mix_columns s).
Proof.
  intros H. open_block H. split; [done|]. unfold bytes.
  repeat (apply Forall_cons_2; [apply xor4_fits; (apply gmul_fits_const; [simpl; tauto|done])|]). apply Forall_nil_2.
Qed.

(** One column at a time. *)
Definition mixc (s0 s1 s2 s3 : Z) : list Z :=
  [xor4 (gmul 2 s0) (gmul 3 s1) s2 s3; xor4 s0 (gmul 2 s1) (gmul 3 s2) s3;
   xor4 s0 s1 (gmul 2 s2) (gmul 3 s3); xor4 (gmul 3 s0) s1 s2 (gmul 2 s3)].
Definition inv_mixc (s0 s1 s2 s3 : Z) : list Z :=
  [xor4 (gmul 14 s0) (gmul 11 s1) (gmul 13 s2) (gmul 9 s3); xor4 (gmul 9 s0) (gmul 14 s1) (gmul 11 s2) (gmul 13 s3);
   xor4 (gmul 13 s0) (gmul 9 s1) (gmul 14 s2) (gmul 11 s3); xor4 (gmul 11 s0) (gmul 13 s1) (gmul 9 s2) (gmul 14 s3)].

Lemma mix_columns_cols a b c d e f g h i j k l m n o p :
  mix_columns [a; b; c; d; e; f; g; h; i; j; k; l; m; n; o; p] =
  mixc a b c d ++ mixc e f g h ++ mixc i j k l ++ mixc m n o p.
Proof. reflexivity. Qed.

Lemma inv_mix_columns_cols a b c d e f g h i j k l m n o p :
  inv_mix_columns [a; b; c; d; e; f; g; h; i; j; k; l; m; n; o; p] =
  inv_mixc a b c d ++ inv_mixc e f g h ++ inv_mixc i j k l ++ inv_mixc m n o p.
Proof. reflexivity. Qed.

Lemma inv_mixc_mixc s0 s1 s2 s3 :
  fits 8 s0 -> fits 8 s1 -> fits 8 s2 -> fits 8 s3 ->
  match mixc s0 s1 s2 s3 with [t0; t1; t2; t3] => inv_mixc t0 t1 t2 t3 | _ => [] end = [s0; s1; s2; s3].
Proof.
  intros. destruct inverse_rows as (R0 & R1 & R2 & R3). unfold mixc, inv_mixc.
  rewrite (inv_mix_row _ _ _ _ _ _ _ _ s0 s1 s2 s3 R0), (inv_mix_row _ _ _ _ _ _ _ _ s0 s1 s2 s3 R1),
    (inv_mix_row _ _ _ _ _ _ _ _ s0 s1 s2 s3 R2), (inv_mix_row _ _ _ _ _ _ _ _ s0 s1 s2 s3 R3) by done.
  unfold xor4. simpl. by rewrite ?Z.lxor_0_l, ?Z.lxor_0_r.
Qed.

Lemma inv_mix_mix s : block s -> inv_mix_columns (mix_columns s) = s.
Proof.
  intros H. open_block H. rewrite mix_columns_cols. unfold mixc. cbn [app]. rewrite inv_mix_columns_cols.
  match goal with |- ?a ++ ?b ++ ?c ++ ?d = [?z0; ?z1; ?z2; ?z3; ?z4; ?z5; ?z6; ?z7; ?z8; ?z9; ?zA; ?zB; ?zC; ?zD; ?zE; ?zF] =>
    pose proof (inv_mixc_mixc z0 z1 z2 z3) as E0; pose proof (inv_mixc_mixc z4 z5 z6 z7) as E1;
    pose proof (inv_mixc_mixc z8 z9 zA zB) as E2; pose proof (inv_mixc_mixc zC zD zE zF) as E3 end.
  unfold mixc in E0, E1, E2, E3. cbv iota beta in E0, E1, E2, E3.
  by rewrite E0, E1, E2, E3.
Qed.

#[global] Arguments add_round_key : simpl never.
#[global] Arguments sub_bytes : simpl never.
#[global] Arguments inv_sub_bytes : simpl never.
#[global] Arguments shift_rows : simpl never.
#[global] Arguments inv_shift_rows : simpl never.
#[global] Arguments mix_columns : simpl never.
#[global] Arguments inv_mix_columns : simpl never.
#[global] Arguments encrypt_block : simpl never.
#[global] Arguments decrypt_block : simpl never.

(** * Blocks and chains *)

Lemma main_round_block rk s n : block s -> block (main_round rk s n).
Proof.
  intros Hs. apply add_round_key_block. apply mix_columns_block. apply shift_rows_block. by apply sub_bytes_block.
Qed.

Lemma mid_round rk s n :
  block s -> inv_main_round rk (shift_rows (sub_bytes (main_round rk s n))) n = shift_rows (sub_bytes s).
Proof.
  intros Hs. pose proof (main_round_block rk s n Hs) as Hr. pose proof (sub_bytes_block _ Hr) as Hr'.
  unfold inv_main_round. rewrite inv_shift_shift, inv_sub_sub by assumption. unfold main_round.
  assert (Ht : block (shift_rows (sub_bytes s))) by (apply shift_rows_block; by apply sub_bytes_block).
  rewrite add_round_key_twice by (by apply mix_columns_block). by apply inv_mix_mix.
Qed.

Lemma rounds_block rk ns s : block s -> block (fold_left (main_round rk) ns s).
Proof. intros Hs. apply fold_left_keeps; [exact Hs|]. intros. by apply main_round_block. Qed.

Lemma rounds_inverse rk ns s :
  block s ->
  fold_left (inv_main_round rk) (rev ns) (shift_rows (sub_bytes (fold_left (main_round rk) ns s))) = shift_rows (sub_bytes s).
Proof.
  apply (fold_left_inverse block _ _ (fun s => shift_rows (sub_bytes s)));
    [intros; by apply main_round_block|intros; by apply mid_round].
Qed.

Lemma encrypt_block_block rounds rk s : block s -> block (encrypt_block rounds rk s).
Proof.
  intros Hs. unfold encrypt_block. apply add_round_key_block, shift_rows_block, sub_bytes_block, rounds_block.
  by apply add_round_key_block.
Qed.

Lemma decrypt_encrypt_block rounds rk s : block s -> decrypt_block rounds rk (encrypt_block rounds rk s) = s.
Proof.
  intros Hs. unfold decrypt_block, encrypt_block. pose proof (add_round_key_block s (round_key rk 0) Hs) as H0.
  rewrite add_round_key_twice by (by apply shift_rows_block, sub_bytes_block, rounds_block).
  rewrite rounds_inverse, inv_shift_shift by (done || by apply sub_bytes_block).
  rewrite inv_sub_sub by done. by apply add_round_key_twice.
Qed.

Lemma decrypt_block_block rounds rk s : block s -> block (decrypt_block rounds rk s).
Proof.
  intros Hs. unfold decrypt_block. apply add_round_key_block, inv_sub_bytes_block, inv_shift_rows_block. apply fold_left_keeps; [by apply add_round_key_block|].
  intros t n Ht. by apply inv_mix_columns_block, add_round_key_block, inv_sub_bytes_block, inv_shift_rows_block.
Qed.

Lemma encrypt_loop_chain rounds rk n : forall prev pt,
  encrypt_loop rounds rk n prev pt = chain (encrypt_block rounds rk) n prev pt.
Proof. induction n as [|n IH]; intros prev pt; [done|]. cbn [encrypt_loop chain]. by rewrite IH. Qed.

Lemma decrypt_loop_unchain rounds rk n : forall prev ct,
  decrypt_loop rounds rk n prev ct = unchain (decrypt_block rounds rk) n prev ct.
Proof. induction n as [|n IH]; intros prev ct; [done|]. cbn [decrypt_loop unchain]. by rewrite IH. Qed.

(** Initialisation vectors the callers pass: none, or sixteen bytes. *)
Definition iv_ok (iv : option (list Z)) : Prop := match iv with Some iv => block iv | None => True end.

Lemma first_block_ok iv : iv_ok iv -> length (first_block iv) = 16%nat /\ bytes (first_block iv).
Proof.
  destruct iv as [iv|]; simpl.
  - intros [Hl Hb]. rewrite take_ge by (unfold AES_BLOCK_SIZE; lia). done.
  - intros _. split; [done|]. repeat (constructor; [by unfold fits|]). constructor.
Qed.

(** CBC decryption undoes CBC encryption, for any number of rounds and any
    expanded key. *)
Lemma aes_cbc_inverse rounds expand key iv pt :
  iv_ok iv -> bytes pt -> (length pt mod 16 = 0)%nat ->
  exists ct, aes_cbc encrypt_loop rounds expand (Some key) iv (Some pt) true = (ERR_OK, Some ct) /\
    length ct = length pt /\ bytes ct /\
    aes_cbc decrypt_loop rounds expand (Some key) iv (Some ct) true = (ERR_OK, Some pt).
Proof.
  intros Hiv Hb Hm. unfold aes_cbc. change AES_BLOCK_SIZE with 16%nat. destruct (first_block_ok iv Hiv) as [Hf Hfb].
  rewrite Hm, encrypt_loop_chain. cbn [Nat.eqb negb]. pose proof (Nat.div_mod_eq (length pt) 16) as Hq.
  destruct (unchain_chain (encrypt_block rounds (expand key)) (decrypt_block rounds (expand key))
    (fun s H => encrypt_block_block _ _ s H) (fun s H => decrypt_encrypt_block _ _ s H)
    (length pt / 16) (first_block iv) pt Hf Hfb Hb) as (H1 & H2 & H3); [lia|].
  eexists. split; [reflexivity|]. split; [exact H2|]. split; [exact H3|].
  rewrite H2, Hm. cbn [Nat.eqb negb]. by rewrite decrypt_loop_unchain, H1.
Qed.

(** Decryption accepts any whole number of blocks. *)
Lemma decrypt_loop_ok rounds rk n : forall prev ct, block prev -> bytes ct -> length ct = (16 * n)%nat -> length (decrypt_loop rounds rk n prev ct) = length ct /\ bytes (decrypt_loop rounds rk n prev ct).
Proof.
  induction n as [|n IH]; intros prev ct [Hpl Hpb] Hb Hl; cbn [decrypt_loop]; [split; [by destruct ct|constructor]|]. change AES_BLOCK_SIZE with 16%nat.
  assert (Ht : block (take 16 ct)) by (split; [rewrite length_take; lia|by apply Forall_take]). destruct (decrypt_block_block rounds rk _ Ht) as [Hdl Hdb].
  destruct (IH (take 16 ct) (drop 16 ct) Ht) as [IH1 IH2]; [by apply Forall_drop|rewrite length_drop; lia|].
  split; [rewrite length_app, xor_bytes_length, IH1, length_drop; lia|]. apply Forall_app_2; [by apply xor_bytes_ok|done].
Qed.

Lemma aes_cbc_decrypts rounds expand key iv ct : iv_ok iv -> bytes ct -> (length ct mod 16 = 0)%nat ->
  exists pt, aes_cbc decrypt_loop rounds expand (Some key) iv (Some ct) true = (ERR_OK, Some pt) /\ length pt = length ct /\ bytes pt.
Proof.
  intros Hiv Hb Hm. unfold aes_cbc. change AES_BLOCK_SIZE with 16%nat. rewrite Hm. cbn [Nat.eqb negb]. eexists. split; [reflexivity|].
  pose proof (Nat.div_mod_eq (length ct) 16) as Hq. apply decrypt_loop_ok; [by apply first_block_ok|done|lia].
Qed.

(** * What FIPS 197 asks for *)

(** The multiplicative inverse in the field of [gmul], as the 254th power
    x^2 x^4 ... x^128 (0 for 0), and the affine map of the substitution box. *)
Fixpoint pow_254 (n : nat) (x acc : Z) : Z :=
  match n with O => acc | S n => let x2 := gmul x x in pow_254 n x2 (gmul acc x2) end.
Definition ginv (x : Z) : Z := pow_254 7 x 1.
Definition rotl8 (x n : Z) : Z := Z.lor (u8 (Z.shiftl x n)) (Z.shiftr x (8 - n)).
Definition affine (x : Z) : Z :=
  Z.lxor (xor4 x (rotl8 x 1) (rotl8 x 2) (rotl8 x 3)) (Z.lxor (rotl8 x 4) 0x63).

(** The example of the standard's appendix C. *)
Definition sample_key : list Z := Z.of_nat <$> seq 0 32.
Definition sample_text : list Z := Z.of_nat <$> ((fun i => i * 17)%nat <$> seq 0 16).
Definition cipher (r : error_code_t * option (list Z)) : Z := be_value (default [] (snd r)).

(** C20. Decrypting with the same key and initialisation vector gives back the
    plaintext, for each key size, any key and any whole number of blocks, and the
    ciphertext has the length of the plaintext. *)
Theorem aes_roundtrip (key : list Z) (iv : option (list Z)) (pt : list Z)
  (Hiv : iv_ok iv) (Hpt : bytes pt) (Hlen : (length pt mod 16 = 0)%nat) :
  (exists ct, aes128_encrypt (Some key) iv (Some pt) true = (ERR_OK, Some ct) /\ length ct = length pt /\
    bytes ct /\ aes128_decrypt (Some key) iv (Some ct) true = (ERR_OK, Some pt)) /\
  (exists ct, aes192_encrypt (Some key) iv (Some pt) true = (ERR_OK, Some ct) /\ length ct = length pt /\
    bytes ct /\ aes192_decrypt (Some key) iv (Some ct) true = (ERR_OK, Some pt)) /\
  (exists ct, aes256_encrypt (Some key) iv (Some pt) true = (ERR_OK, Some ct) /\ length ct = length pt /\
    bytes ct /\ aes256_decrypt (Some key) iv (Some ct) true = (ERR_OK, Some pt)).
Proof. split_and!; by apply aes_cbc_inverse. Qed.

(** The substitution box is the affine image of the field inverse and the
    inverse box undoes it; the 128- and 256-bit ciphers compute the standard's
    example.  The 192-bit one does not: its key expansion substitutes an extra word
    every six words, without which the example comes out. *)
Theorem aes_standard :
  (forall x, fits 8 x -> sub_byte x = affine (ginv x) /\ (x <> 0 -> gmul x (ginv x) = 1)) /\
  cipher (aes128_encrypt (Some (take 16 sample_key)) None (Some sample_text) true) = 0x69c4e0d86a7b0430d8cdb78070b4c55a /\
  cipher (aes256_encrypt (Some sample_key) None (Some sample_text) true) = 0x8ea2b7ca516745bfeafc49904b496089 /\
  cipher (aes192_encrypt (Some (take 24 sample_key)) None (Some sample_text) true) <> 0xdda97ca4864cdfe06eaf70a0ec0d7191 /\
  cipher (aes_cbc encrypt_loop AES192_ROUNDS (key_expansion AES192_KEY_WORDS AES192_ROUNDS false)
            (Some (take 24 sample_key)) None (Some sample_text) true) = 0xdda97ca4864cdfe06eaf70a0ec0d7191.
Proof.
  split_and!; [|vm_compute; reflexivity..|vm_compute; discriminate|vm_compute; reflexivity].
  intros x Hx. split.
  - apply Z.eqb_eq. revert x Hx. apply (forall_byte (fun x => sub_byte x =? affine (ginv x))). vm_compute. reflexivity.
  - intros H0. apply Z.eqb_eq.
    assert (H : (x =? 0) || (gmul x (ginv x) =? 1) = true);
      [|apply orb_true_iff in H as [H|H]; [apply Z.eqb_eq in H; contradiction|exact H]].
    clear H0. revert x Hx. apply (forall_byte (fun x => (x =? 0) || (gmul x (ginv x) =? 1))). vm_compute. reflexivity.
Qed.

Lemma aes_roundtrip_witness :
  exists ct, aes128_encrypt (Some sample_key) None (Some sample_text) true = (ERR_OK, Some ct) /\
    aes128_decrypt (Some sample_key) None (Some ct) true = (ERR_OK, Some sample_text).
Proof.
  destruct (aes_roundtrip sample_key None sample_text) as ((ct & H1 & _ & _ & H2) & _); [exact I| |reflexivity|].
  - repeat (constructor; [split; [discriminate|reflexivity]|]). constructor.
  - exists ct. split; [exact H1|exact H2].
Defined.
