(* ===== verification/Bn.v ===== *)
(** * Big numbers (kernel/crypto/bn.c)

    A number is its allocated words, least significant first, the index [top] past
    the highest word in use, and the sign.  [size] is the length of the word list.
    The loops over word arrays are recursions along the lists, in the order of the
    code.  Outcomes of [kmalloc] are an argument [km]: the k-th allocation of the
    call succeeds when [km k].  Division and the functions above it are in Rsa.v.

    A result that is also an operand ([bn_mul(x, x, x)]) needs no special case:
    every function reads a word of its operands before it writes the word of that
    index, or computes into a temporary.  The exception is [bn_copy(x, x)], which
    clears the words it then reads; it is modelled in Rsa.v, where [bn_mod] reaches it.
    A shift of a number in place by 0 bits would reach it too; here [bn_lshift] and
    [bn_rshift] by 0 have a result other than the operand, and no caller shifts by 0.

    Specification: [val] is the number represented, [bn_ok] the representation
    invariant. *)

From Stdlib Require Import Lia.
From stdpp Require Import base tactics list numbers option.
From S2P Require Import Prelude Bytes.

Record bn_t := { words : list Z; top : nat; sign : Z }.

Definition size (b : bn_t) : nat := length (words b).
Definition word (b : bn_t) (i : nat) : Z := nth i (words b) 0.
(** [(i < a->top) ? a->words[i] : 0] *)
Definition word_in (b : bn_t) (i : nat) : Z := if (i <? top b)%nat then word b i else 0.
Definition with_words (b : bn_t) (w : list Z) : bn_t := {| words := w; top := top b; sign := sign b |}.

Definition BN_DEFAULT_CAPACITY : nat := 32.

Definition bn_ensure (km : bool) (bn : bn_t) (n : nat) : error_code_t * bn_t :=
  if (n <=? size bn)%nat then (ERR_OK, bn)
  else
    let new_size := if (size bn * 2 <? n)%nat then n else (size bn * 2)%nat in
    let new_size := if (new_size <? BN_DEFAULT_CAPACITY)%nat then BN_DEFAULT_CAPACITY else new_size in
    if negb km then (ERR_OUT_OF_MEMORY, bn)
    else (ERR_OK, with_words bn (words bn ++ repeat 0 (new_size - size bn))).

(** The loop of [bn_fix_top] from index [i] down. *)
Fixpoint top_from (w : list Z) (i : nat) : nat :=
  match i with
  | O => O
  | S j => if nth j w 0 =? 0 then top_from w j else i
  end.
Definition bn_fix_top (bn : bn_t) : bn_t :=
  {| words := words bn; top := top_from (words bn) (size bn); sign := sign bn |}.

(** [None]: out of memory. *)
Definition bn_alloc (km : nat -> bool) : option bn_t :=
  if km 0%nat && km 1%nat then Some {| words := repeat 0 BN_DEFAULT_CAPACITY; top := 0; sign := 1 |} else None.

Definition bn_copy (km : bool) (dest src : bn_t) : error_code_t * bn_t :=
  match bn_ensure km dest (top src) with
  | (ERR_OK, dest) =>
      (ERR_OK, {| words := take (top src) (words src) ++ repeat 0 (size dest - top src); top := top src; sign := sign src |})
  | (err, dest) => (err, dest)
  end.

Definition bn_from_int (km : bool) (bn : bn_t) (value : Z) : error_code_t * bn_t :=
  match bn_ensure km bn 1 with
  | (ERR_OK, bn) =>
      (ERR_OK, {| words := value :: repeat 0 (size bn - 1); top := if value =? 0 then 0 else 1; sign := 1 |})
  | (err, bn) => (err, bn)
  end.

(** [bn->words[word_idx] |= buf[i] << (byte_idx * 8)] for the [i]-th byte. *)
Definition import_byte (buf : list Z) (w : list Z) (i : nat) : list Z :=
  let word_idx := ((length buf - 1 - i) / 8)%nat in
  let byte_idx := ((length buf - 1 - i) mod 8)%nat in
  <[word_idx := Z.lor (nth word_idx w 0) (u64 (Z.shiftl (nth i buf 0) (Z.of_nat (byte_idx * 8))))]> w.

Definition bn_from_bytes (km : bool) (bn : bn_t) (buf : option (list Z)) : error_code_t * bn_t :=
  match buf with
  | None => (ERR_INVALID_ARG, bn)
  | Some buf =>
      match bn_ensure km bn ((length buf + 7) / 8) with
      | (ERR_OK, bn) =>
          let w := fold_left (import_byte buf) (seq 0 (length buf)) (repeat 0 (size bn)) in
          (ERR_OK, bn_fix_top {| words := w; top := top bn; sign := 1 |})
      | (err, bn) => (err, bn)
      end
  end.

(** [while (top_word) { bits++; top_word >>= 1; }]: a 64-bit word takes at most 64
    rounds. *)
Fixpoint bit_loop (fuel : nat) (w : Z) (bits : nat) : nat :=
  match fuel with
  | O => bits
  | S fuel => if w =? 0 then bits else bit_loop fuel (Z.shiftr w 1) (S bits)
  end.
Definition bn_bit_count (bn : bn_t) : nat :=
  if (top bn =? 0)%nat then 0%nat
  else bit_loop 64 (word bn (top bn - 1)) ((top bn - 1) * 64)%nat.
Definition bn_byte_count (bn : bn_t) : nat := ((bn_bit_count bn + 7) / 8)%nat.

(** The [len] bytes [bn_to_bytes] stores. *)
Definition bn_to_bytes (bn : bn_t) (len : nat) : list Z :=
  let bytes_count := bn_byte_count bn in
  let bytes_count := if (len <? bytes_count)%nat then len else bytes_count in
  fold_left (fun buf i =>
    let byte := Z.land (Z.shiftr (word bn (i / 8)) (Z.of_nat (i mod 8 * 8))) 0xFF in
    <[(len - 1 - i)%nat := byte]> buf) (seq 0 bytes_count) (repeat 0 len).

Fixpoint cmp_from (a b : bn_t) (i : nat) : Z :=
  match i with
  | O => 0
  | S j => if word b j <? word a j then 1 else if word a j <? word b j then -1 else cmp_from a b j
  end.
Definition bn_cmp (a b : bn_t) : Z :=
  if (top b <? top a)%nat then 1 else if (top a <? top b)%nat then -1 else cmp_from a b (top a).

(** Sums and differences of [n] words from index [i] on. *)
Fixpoint add_loop (n i : nat) (carry : bool) (a b : bn_t) : list Z :=
  match n with
  | O => []
  | S n =>
      let wa := word_in a i in
      let wb := word_in b i in
      let sum := u64 (wa + wb + Z.b2z carry) in
      sum :: add_loop n (S i) ((sum <? wa) || (carry && (sum =? wa))) a b
  end.

Definition bn_add (km : bool) (result a b : bn_t) : error_code_t * bn_t :=
  let max_len := ((if (top b <? top a)%nat then top a else top b) + 1)%nat in
  match bn_ensure km result max_len with
  | (ERR_OK, result) => (ERR_OK, bn_fix_top (with_words result (buf_write (words result) 0 (add_loop max_len 0 false a b))))
  | (err, result) => (err, result)
  end.

Fixpoint sub_loop (n i : nat) (borrow : bool) (a b : bn_t) : list Z :=
  match n with
  | O => []
  | S n =>
      let wa := word a i in
      let wb := word_in b i in
      let diff := u64 (wa - wb - Z.b2z borrow) in
      diff :: sub_loop n (S i) ((wa <? u64 (wb + Z.b2z borrow)) || (borrow && (wb =? 2 ^ 64 - 1))) a b
  end.

Definition bn_sub (km : bool) (result a b : bn_t) : error_code_t * bn_t :=
  if bn_cmp a b <? 0 then (ERR_INVALID_ARG, result)
  else match bn_ensure km result (top a) with
       | (ERR_OK, result) =>
           (ERR_OK, bn_fix_top (with_words result (sub_loop (top a) 0 false a b ++ repeat 0 (size result - top a))))
       | (err, result) => (err, result)
       end.

(** Row [i] of the product: [res] is the list of words from [res->words + i] on. *)
Fixpoint mul_row (ai : Z) (b res : list Z) (carry : Z) : list Z :=
  match b, res with
  | bj :: b, r :: res =>
      let prod := wrap 128 (wrap 128 (wrap 128 (ai * bj) + r) + carry) in
      u64 prod :: mul_row ai b res (u64 (Z.shiftr prod 64))
  | [], r :: res => u64 (r + carry) :: res
  | _, [] => []
  end.
Fixpoint mul_rows (a b res : list Z) : list Z :=
  match a with
  | [] => res
  | ai :: a => match mul_row ai b res 0 with [] => [] | r :: res => r :: mul_rows a b res end
  end.

(** The words in use. *)
Definition used (b : bn_t) : list Z := take (top b) (words b).

Definition bn_mul (km : nat -> bool) (result a b : bn_t) : error_code_t * bn_t :=
  match bn_alloc km with
  | None => (ERR_OUT_OF_MEMORY, result)
  | Some res =>
      match bn_ensure (km 2%nat) res (top a + top b) with
      | (ERR_OK, res) =>
          let res := bn_fix_top (with_words res (mul_rows (used a) (used b) (repeat 0 (size res)))) in
          (ERR_OK, snd (bn_copy (km 3%nat) result res))
      | (err, _) => (err, result)
      end
  end.

Fixpoint shl_loop (bit_shift : Z) (w : list Z) (carry : Z) : list Z :=
  match w with
  | [] => [carry]
  | x :: w => Z.lor (u64 (Z.shiftl x bit_shift)) carry :: shl_loop bit_shift w (Z.shiftr x (64 - bit_shift))
  end.

(** In place ([result] is [a]) for [bits] other than 0 only, as for [bn_rshift]. *)
Definition bn_lshift (km : nat -> bool) (result a : bn_t) (bits : nat) : error_code_t * bn_t :=
  if (bits =? 0)%nat then bn_copy (km 0%nat) result a
  else
    let word_shift := (bits / 64)%nat in
    let bit_shift := (bits mod 64)%nat in
    match bn_alloc km with
    | None => (ERR_OUT_OF_MEMORY, result)
    | Some res =>
        match bn_ensure (km 2%nat) res (top a + word_shift + 1) with
        | (ERR_OK, res) =>
            let src := if (bit_shift =? 0)%nat then used a else shl_loop (Z.of_nat bit_shift) (used a) 0 in
            let res := bn_fix_top (with_words res (buf_write (repeat 0 (size res)) word_shift src)) in
            (ERR_OK, snd (bn_copy (km 3%nat) result res))
        | (err, _) => (err, result)
        end
    end.

(** From the most significant word down: the words are given and produced in that
    order. *)
Fixpoint shr_loop (bit_shift : Z) (w : list Z) (carry : Z) : list Z :=
  match w with
  | [] => []
  | x :: w => Z.lor (Z.shiftr x bit_shift) carry :: shr_loop bit_shift w (u64 (Z.shiftl x (64 - bit_shift)))
  end.

Definition bn_rshift (km : nat -> bool) (result a : bn_t) (bits : nat) : error_code_t * bn_t :=
  if (bits =? 0)%nat then bn_copy (km 0%nat) result a
  else
    let word_shift := (bits / 64)%nat in
    let bit_shift := (bits mod 64)%nat in
    if (top a <=? word_shift)%nat then bn_from_int (km 0%nat) result 0
    else
      match bn_alloc km with
      | None => (ERR_OUT_OF_MEMORY, result)
      | Some res =>
          match bn_ensure (km 2%nat) res (top a - word_shift) with
          | (ERR_OK, res) =>
              let src := drop word_shift (used a) in
              let src := if (bit_shift =? 0)%nat then src else rev (shr_loop (Z.of_nat bit_shift) (rev src) 0) in
              let res := bn_fix_top (with_words res (buf_write (repeat 0 (size res)) 0 src)) in
              (ERR_OK, snd (bn_copy (km 3%nat) result res))
          | (err, _) => (err, result)
          end
      end.

(** ** The functions with successful allocations *)

Definition ok : nat -> bool := fun _ => true.
Definition fresh : bn_t := {| words := repeat 0 BN_DEFAULT_CAPACITY; top := 0; sign := 1 |}.
Definition copy (dest src : bn_t) : bn_t := snd (bn_copy true dest src).
Definition from_int (bn : bn_t) (v : Z) : bn_t := snd (bn_from_int true bn v).
Definition from_bytes (bn : bn_t) (buf : list Z) : bn_t := snd (bn_from_bytes true bn (Some buf)).
Definition add (result a b : bn_t) : bn_t := snd (bn_add true result a b).
Definition sub (result a b : bn_t) : bn_t := snd (bn_sub true result a b).
Definition mul (result a b : bn_t) : bn_t := snd (bn_mul ok result a b).

(** * Values *)

Definition B64 : Z := 2 ^ 64.

(** The number a list of words stands for, and the number a [bn_t] stands for. *)
Fixpoint eval (w : list Z) : Z := match w with [] => 0 | x :: w => x + B64 * eval w end.
Definition val (b : bn_t) : Z := eval (used b).

Definition word_list (w : list Z) : Prop := Forall (fits 64) w.

(** The representation invariant: 64-bit words, zero from [top] on, and a
    non-zero word just below [top]. *)
Record bn_ok (b : bn_t) : Prop := {
  ok_words : word_list (words b);
  ok_top : (top b <= size b)%nat;
  ok_zero : drop (top b) (words b) = repeat 0 (size b - top b);
  ok_high : top b = 0%nat \/ word b (top b - 1) <> 0
}.

Lemma B64_pow (n : nat) : B64 ^ Z.of_nat n = 2 ^ (64 * Z.of_nat n).
Proof. unfold B64. by rewrite <- Z.pow_mul_r by lia. Qed.

Lemma B64_pos n : 0 < B64 ^ Z.of_nat n.
Proof. apply Z.pow_pos_nonneg; unfold B64; lia. Qed.

Lemma B64_S n : B64 ^ Z.of_nat (S n) = B64 * B64 ^ Z.of_nat n.
Proof. rewrite Nat2Z.inj_succ, Z.pow_succ_r by lia. done. Qed.

Lemma eval_app a b : eval (a ++ b) = eval a + B64 ^ Z.of_nat (length a) * eval b.
Proof.
  induction a as [|x a IH]; [by rewrite Z.mul_1_l|]. simpl app. cbn [eval length]. rewrite IH, B64_S. ring.
Qed.

Lemma eval_bound w : word_list w -> 0 <= eval w < B64 ^ Z.of_nat (length w).
Proof.
  induction 1 as [|x w Hx Hw IH]; [done|]. cbn [eval length]. rewrite B64_S. unfold fits in Hx. fold B64 in Hx. nia.
Qed.

Lemma eval_zeros n : eval (repeat 0 n) = 0.
Proof. induction n as [|n IH]; [done|]. cbn [repeat eval]. rewrite IH. lia. Qed.

Lemma word_list_zeros n : word_list (repeat 0 n).
Proof. induction n; constructor; [by unfold fits|done]. Qed.

Lemma eval_take_S w i : eval (take (S i) w) = eval (take i w) + B64 ^ Z.of_nat i * nth i w 0.
Proof.
  revert i. induction w as [|x w IH]; intros i.
  - destruct i; simpl; lia.
  - destruct i as [|i]; [simpl; rewrite ?take_0; simpl; lia|]. rewrite !firstn_cons. cbn [eval nth]. rewrite IH, B64_S. ring.
Qed.

Lemma nth_fits w i : word_list w -> fits 64 (nth i w 0).
Proof.
  intros H. destruct (decide (i < length w)%nat); [by apply Forall_nth|].
  rewrite nth_overflow by lia. by unfold fits.
Qed.

Lemma val_words b : bn_ok b -> val b = eval (words b).
Proof.
  intros [_ _ Hz _]. unfold val, used. rewrite <- (take_drop (top b) (words b)) at 2.
  rewrite eval_app, Hz, eval_zeros. lia.
Qed.

Lemma used_length b : bn_ok b -> length (used b) = top b.
Proof. intros [_ Ht _ _]. unfold used, size in *. rewrite length_take. lia. Qed.

Lemma used_ok b : bn_ok b -> word_list (used b).
Proof. intros [Hw _ _ _]. by apply Forall_take. Qed.

Lemma val_lt b : bn_ok b -> 0 <= val b < B64 ^ Z.of_nat (top b).
Proof. intros H. rewrite <- (used_length b H). apply eval_bound, used_ok, H. Qed.

Lemma val_ge b : bn_ok b -> (0 < top b)%nat -> B64 ^ Z.of_nat (top b - 1) <= val b.
Proof.
  intros H Ht. pose proof H as [Hw Htop _ [Hh|Hh]]; [lia|]. unfold val, used.
  replace (top b) with (S (top b - 1)) at 2 by lia. rewrite eval_take_S. fold (word b (top b - 1)).
  pose proof (eval_bound (take (top b - 1) (words b)) (Forall_take _ _ _ Hw)).
  assert (Hf : fits 64 (word b (top b - 1))) by (apply nth_fits, Hw). unfold fits in Hf.
  pose proof (B64_pos (top b - 1)). nia.
Qed.

Lemma val_zero b : bn_ok b -> val b = 0 <-> top b = 0%nat.
Proof.
  intros H. split.
  - intros E. destruct (top b) eqn:Et; [done|]. pose proof (val_ge b H ltac:(lia)) as Hg. pose proof (B64_pos (top b - 1)). lia.
  - intros E. unfold val, used. by rewrite E, take_0.
Qed.

(** ** Normalisation *)

Lemma top_from_spec w i :
  (i <= length w)%nat ->
  (top_from w i <= i)%nat /\ take (i - top_from w i) (drop (top_from w i) w) = repeat 0 (i - top_from w i) /\
  (top_from w i = 0%nat \/ nth (top_from w i - 1) w 0 <> 0).
Proof.
  induction i as [|i IH]; intros Hi; [split_and!; [done|done|by left]|]. simpl.
  destruct (Z.eqb_spec (nth i w 0) 0) as [E|E].
  - destruct (IH ltac:(lia)) as (H1 & H2 & H3). split_and!; [lia| |done].
    rewrite Nat.sub_succ_l by lia.
    rewrite (take_S_r _ _ 0); [by rewrite H2, <- repeat_cons|].
    rewrite lookup_drop. replace (top_from w i + (i - top_from w i))%nat with i by lia.
    rewrite <- E. destruct (lookup_lt_is_Some_2 w i ltac:(lia)) as [x Hx]. rewrite Hx. f_equal. symmetry. by apply nth_lookup_Some.
  - split_and!; [done|by rewrite Nat.sub_diag|]. right. simpl. by rewrite ?Nat.sub_0_r.
Qed.

Lemma fix_top_ok b : word_list (words b) -> bn_ok (bn_fix_top b) /\ val (bn_fix_top b) = eval (words b).
Proof.
  intros Hw. assert (H : bn_ok (bn_fix_top b)).
  { unfold bn_fix_top, size. destruct (top_from_spec (words b) (length (words b)) ltac:(done)) as (H1 & H2 & H3).
    split; simpl; [done|done| |done]. unfold size. simpl. rewrite <- H2. symmetry. apply take_ge. rewrite length_drop. lia. }
  split; [done|]. by rewrite val_words.
Qed.

Lemma fresh_ok : bn_ok fresh.
Proof. split; [apply (word_list_zeros 32)|simpl; lia|done|by left]. Qed.

Lemma ensure_spec b n :
  exists k, bn_ensure true b n = (ERR_OK, with_words b (words b ++ repeat 0 k)) /\ (n <= size b + k)%nat.
Proof.
  unfold bn_ensure. destruct (Nat.leb_spec n (size b)).
  - exists 0%nat. rewrite app_nil_r. split; [by destruct b|lia].
  - simpl. eexists. split; [reflexivity|].
    set (m := if (size b * 2 <? n)%nat then n else _).
    assert (n <= m)%nat by (unfold m; destruct (Nat.ltb_spec (size b * 2) n); lia).
    destruct (Nat.ltb_spec m BN_DEFAULT_CAPACITY); lia.
Qed.

Lemma size_ensured b k : size (with_words b (words b ++ repeat 0 k)) = (size b + k)%nat.
Proof. unfold size. cbn [words with_words]. by rewrite length_app, repeat_length. Qed.

(** ** Copies and conversions *)

Lemma val_top b b' : take (top b') (words b') = take (top b) (words b) -> val b' = val b.
Proof. intros H. unfold val, used. by rewrite H. Qed.

Lemma copy_spec dest src : bn_ok src -> bn_ok (copy dest src) /\ val (copy dest src) = val src /\ top (copy dest src) = top src.
Proof.
  intros H. unfold copy, bn_copy. destruct (ensure_spec dest (top src)) as (k & -> & Hk). simpl.
  pose proof (used_length src H) as Hl. unfold used in Hl. unfold size in *. simpl in *. rewrite length_app, repeat_length.
  set (w := take (top src) (words src)) in *. set (z := repeat 0 _).
  assert (Hz : length z = (length (words dest) + k - top src)%nat) by apply repeat_length. split_and!; [split|..]; simpl.
  - apply Forall_app_2; [apply (used_ok src H)|apply word_list_zeros].
  - unfold size. simpl. rewrite length_app. lia.
  - unfold size. simpl. rewrite drop_app_length', length_app by done. unfold z. f_equal. rewrite repeat_length. lia.
  - destruct (decide (top src = 0%nat)) as [E0|E0]; [by left|]. right. destruct (ok_high src H) as [E|E]; [done|].
    unfold word in *. simpl. rewrite app_nth1 by lia. unfold w. by rewrite nth_firstn, (proj2 (Nat.ltb_lt _ _)) by lia.
  - unfold val, used. simpl. by rewrite take_app_length'.
  - done.
Qed.

Lemma from_int_spec bn v : fits 64 v -> bn_ok (from_int bn v) /\ val (from_int bn v) = v /\ top (from_int bn v) = if v =? 0 then 0%nat else 1%nat.
Proof.
  intros Hv. unfold from_int, bn_from_int. destruct (ensure_spec bn 1) as (k & -> & Hk). simpl.
  unfold val, used, word. destruct (Z.eqb_spec v 0) as [->|E]; (split_and!; [split|..]); simpl; try done; try lia;
    try (constructor; [done|apply word_list_zeros]); try (by left); try by right.
  - by rewrite repeat_length.
  - unfold size at 1. simpl. lia.
  - by rewrite repeat_length, drop_0, Nat.sub_0_r.
Qed.

(** ** Comparison *)

Lemma cmp_from_spec a b i :
  word_list (words a) -> word_list (words b) ->
  cmp_from a b i = Z.sgn (eval (take i (words a)) - eval (take i (words b))).
Proof.
  intros Ha Hb. induction i as [|i IH]; [done|]. cbn [cmp_from]. rewrite !eval_take_S. fold (word a i) (word b i).
  assert (Fa := nth_fits (words a) i Ha). assert (Fb := nth_fits (words b) i Hb). fold (word a i) in Fa. fold (word b i) in Fb.
  assert (Ea := eval_bound (take i (words a)) (Forall_take _ _ _ Ha)).
  assert (Eb := eval_bound (take i (words b)) (Forall_take _ _ _ Hb)).
  rewrite length_take in Ea, Eb. pose proof (B64_pos i) as HP. unfold fits in Fa, Fb.
  assert (La : eval (take i (words a)) < B64 ^ Z.of_nat i).
  { eapply Z.lt_le_trans; [apply Ea|]. apply Z.pow_le_mono_r; unfold B64; lia. }
  assert (Lb : eval (take i (words b)) < B64 ^ Z.of_nat i).
  { eapply Z.lt_le_trans; [apply Eb|]. apply Z.pow_le_mono_r; unfold B64; lia. }
  set (P := B64 ^ Z.of_nat i) in *. set (x := eval (take i (words a))) in *. set (y := eval (take i (words b))) in *.
  destruct (Z.ltb_spec (word b i) (word a i)).
  { assert (P * 1 <= P * (word a i - word b i)) by (apply Z.mul_le_mono_nonneg_l; lia). symmetry. apply Z.sgn_pos. lia. }
  destruct (Z.ltb_spec (word a i) (word b i)).
  { assert (P * 1 <= P * (word b i - word a i)) by (apply Z.mul_le_mono_nonneg_l; lia). symmetry. apply Z.sgn_neg. lia. }
  rewrite IH. f_equal. replace (word a i) with (word b i) by lia. lia.
Qed.

Lemma cmp_spec a b : bn_ok a -> bn_ok b -> bn_cmp a b = Z.sgn (val a - val b).
Proof.
  intros Ha Hb. unfold bn_cmp. pose proof (val_lt a Ha) as La. pose proof (val_lt b Hb) as Lb.
  destruct (Nat.ltb_spec (top b) (top a)).
  { symmetry. apply Z.sgn_pos. pose proof (val_ge a Ha ltac:(lia)).
    assert (B64 ^ Z.of_nat (top b) <= B64 ^ Z.of_nat (top a - 1)) by (apply Z.pow_le_mono_r; unfold B64; lia). lia. }
  destruct (Nat.ltb_spec (top a) (top b)).
  { symmetry. apply Z.sgn_neg. pose proof (val_ge b Hb ltac:(lia)).
    assert (B64 ^ Z.of_nat (top a) <= B64 ^ Z.of_nat (top b - 1)) by (apply Z.pow_le_mono_r; unfold B64; lia). lia. }
  rewrite cmp_from_spec by (apply Ha || apply Hb). unfold val, used. do 4 f_equal. lia.
Qed.

(** ** Addition and subtraction *)

(** [n] words of an operand from index [i] on. *)
Fixpoint eval_from (f : nat -> Z) (i n : nat) : Z :=
  match n with O => 0 | S n => f i + B64 * eval_from f (S i) n end.

Lemma mod_B64_S x y n :
  fits 64 x -> (x + B64 * y) mod (B64 * B64 ^ Z.of_nat n) = x + B64 * (y mod B64 ^ Z.of_nat n).
Proof.
  intros Hx. pose proof (B64_pos n). rewrite Z.rem_mul_r by (unfold B64; lia).
  rewrite (Z.mul_comm B64 y), Z.mod_add, Z.div_add by (unfold B64; lia). unfold fits in Hx. fold B64 in Hx.
  rewrite (Z.mod_small x), (Z.div_small x) by lia. done.
Qed.

Lemma add_loop_spec n : forall i c a b,
  (forall j, fits 64 (word_in a j)) -> (forall j, fits 64 (word_in b j)) ->
  eval (add_loop n i c a b) = (eval_from (word_in a) i n + eval_from (word_in b) i n + Z.b2z c) mod B64 ^ Z.of_nat n /\
  word_list (add_loop n i c a b) /\ length (add_loop n i c a b) = n.
Proof.
  induction n as [|n IH]; intros i c a b Ha Hb; [split_and!; [by rewrite Z.mod_1_r|constructor|done]|].
  cbn [add_loop eval eval_from length]. pose proof (Ha i) as Fa. pose proof (Hb i) as Fb.
  set (wa := word_in a i) in *. set (wb := word_in b i) in *. set (sum := u64 (wa + wb + Z.b2z c)).
  set (c' := (sum <? wa) || c && (sum =? wa)).
  assert (Fs : fits 64 sum) by (by apply wrap_fits).
  assert (Hs : wa + wb + Z.b2z c = sum + B64 * Z.b2z c').
  { unfold c', sum, wrap, B64, fits in *. clearbody wa wb. clear c' sum. 
    assert (Hq : (wa + wb + Z.b2z c) / 2 ^ 64 = 0 \/ (wa + wb + Z.b2z c) / 2 ^ 64 = 1) by (destruct c; simpl Z.b2z; Z.div_mod_to_equations; lia).
    pose proof (Z.div_mod (wa + wb + Z.b2z c) (2 ^ 64) ltac:(lia)) as Hd.
    pose proof (Z.mod_pos_bound (wa + wb + Z.b2z c) (2 ^ 64) ltac:(lia)) as Hm.
    set (m := (wa + wb + Z.b2z c) mod 2 ^ 64) in *.
    destruct (Z.ltb_spec m wa), (Z.eqb_spec m wa); destruct c; simpl Z.b2z in *; simpl orb; simpl andb; lia. }
  destruct (IH (S i) c' a b Ha Hb) as (-> & H2 & H3). split_and!; [|by apply Forall_cons_2|by rewrite H3].
  rewrite B64_S. 
  replace (wa + B64 * eval_from (word_in a) (S i) n + (wb + B64 * eval_from (word_in b) (S i) n) + Z.b2z c)
    with (sum + B64 * (eval_from (word_in a) (S i) n + eval_from (word_in b) (S i) n + Z.b2z c')) by lia.
  by rewrite mod_B64_S.
Qed.

Lemma eval_from_S f n : forall i, eval_from f i (S n) = eval_from f i n + B64 ^ Z.of_nat n * f (i + n)%nat.
Proof.
  induction n as [|n IH]; intros i; [simpl; rewrite Nat.add_0_r; lia|].
  change (eval_from f i (S (S n))) with (f i + B64 * eval_from f (S i) (S n)). rewrite IH. cbn [eval_from].
  rewrite B64_S, <- Nat.add_succ_comm. ring.
Qed.

Lemma nth_used b i : nth i (used b) 0 = word_in b i.
Proof. unfold used, word_in, word. rewrite nth_firstn. done. Qed.

Lemma eval_from_used a n : eval_from (word_in a) 0 n = eval (take n (used a)).
Proof.
  induction n as [|n IH]; [done|]. by rewrite eval_from_S, eval_take_S, IH, nth_used.
Qed.

Lemma eval_from_val a n : bn_ok a -> (top a <= n)%nat -> eval_from (word_in a) 0 n = val a.
Proof. intros Ha Hn. rewrite eval_from_used, take_ge; [done|]. rewrite used_length by done. lia. Qed.

Lemma word_in_fits b i : word_list (words b) -> fits 64 (word_in b i).
Proof. intros H. unfold word_in. case_match; [by apply nth_fits|by unfold fits]. Qed.

Lemma eval_drop_repeat k : forall n, eval (drop n (repeat 0 k)) = 0.
Proof. induction k as [|k IH]; intros [|n]; try done; [apply (eval_zeros (S k))|apply IH]. Qed.

Lemma eval_drop_zeros w n k : eval (drop n (w ++ repeat 0 k)) = eval (drop n w).
Proof.
  destruct (decide (n <= length w)%nat).
  - rewrite drop_app_le by done. rewrite eval_app, eval_zeros. lia.
  - rewrite drop_app_ge by lia. rewrite (drop_ge w) by lia. apply eval_drop_repeat.
Qed.

(** The sum, plus whatever the result already held above the words written. *)
Lemma add_spec r a b :
  bn_ok a -> bn_ok b -> word_list (words r) ->
  let n := S (Nat.max (top a) (top b)) in
  fst (bn_add true r a b) = ERR_OK /\ bn_ok (add r a b) /\
  val (add r a b) = val a + val b + B64 ^ Z.of_nat n * eval (drop n (words r)).
Proof.
  intros Ha Hb Hr n. unfold add, bn_add.
  replace ((if (top b <? top a)%nat then top a else top b) + 1)%nat with n
    by (unfold n; destruct (Nat.ltb_spec (top b) (top a)); lia).
  destruct (ensure_spec r n) as (k & -> & Hk). cbn [fst snd].
  destruct (add_loop_spec n 0 false a b) as (He & Hw & Hl);
    [intros; apply word_in_fits, Ha|intros; apply word_in_fits, Hb|].
  set (s := add_loop n 0 false a b) in *.
  assert (Hwr : word_list (words r ++ repeat 0 k)) by (apply Forall_app_2; [done|apply word_list_zeros]).
  assert (Hb0 : buf_write (words r ++ repeat 0 k) 0 s = s ++ drop n (words r ++ repeat 0 k)).
  { unfold buf_write. rewrite take_0, Hl. done. }
  destruct (fix_top_ok (with_words (with_words r (words r ++ repeat 0 k)) (buf_write (words r ++ repeat 0 k) 0 s))) as [H1 H2].
  { simpl. rewrite Hb0. apply Forall_app_2; [done|by apply Forall_drop]. }
  split; [done|]. simpl words in *. split; [done|]. rewrite H2, Hb0, eval_app, Hl, eval_drop_zeros, He. f_equal.
  rewrite !eval_from_val by (done || (unfold n; lia)). simpl Z.b2z. rewrite Z.add_0_r. apply Z.mod_small.
  pose proof (val_lt a Ha) as La. pose proof (val_lt b Hb) as Lb. unfold n. rewrite B64_S.
  assert (B64 ^ Z.of_nat (top a) <= B64 ^ Z.of_nat (Nat.max (top a) (top b))) by (apply Z.pow_le_mono_r; unfold B64; lia).
  assert (B64 ^ Z.of_nat (top b) <= B64 ^ Z.of_nat (Nat.max (top a) (top b))) by (apply Z.pow_le_mono_r; unfold B64; lia).
  assert (2 * B64 ^ Z.of_nat (Nat.max (top a) (top b)) <= B64 * B64 ^ Z.of_nat (Nat.max (top a) (top b)))
    by (apply Z.mul_le_mono_nonneg_r; unfold B64; lia).
  lia.
Qed.

Lemma sub_loop_spec n : forall i c a b,
  (forall j, fits 64 (word a j)) -> (forall j, fits 64 (word_in b j)) ->
  eval (sub_loop n i c a b) = (eval_from (word a) i n - eval_from (word_in b) i n - Z.b2z c) mod B64 ^ Z.of_nat n /\
  word_list (sub_loop n i c a b) /\ length (sub_loop n i c a b) = n.
Proof.
  induction n as [|n IH]; intros i c a b Ha Hb; [split_and!; [by rewrite Z.mod_1_r|constructor|done]|].
  cbn [sub_loop eval eval_from length]. pose proof (Ha i) as Fa. pose proof (Hb i) as Fb.
  set (wa := word a i) in *. set (wb := word_in b i) in *. set (diff := u64 (wa - wb - Z.b2z c)).
  set (c' := (wa <? u64 (wb + Z.b2z c)) || c && (wb =? 2 ^ 64 - 1)).
  assert (Fs : fits 64 diff) by (by apply wrap_fits).
  assert (Hs : wa - wb - Z.b2z c = diff - B64 * Z.b2z c').
  { unfold diff, c', wrap, B64, fits in *. clearbody wa wb. clear c' diff.
    destruct (Z.eqb_spec wb (2 ^ 64 - 1)) as [->|E].
    - destruct c; simpl Z.b2z; simpl andb.
      + rewrite orb_true_r. simpl Z.b2z. Z.div_mod_to_equations; lia.
      + rewrite orb_false_r, Z.add_0_r, (Z.mod_small (2 ^ 64 - 1)) by lia.
        destruct (Z.ltb_spec wa (2 ^ 64 - 1)); simpl Z.b2z; Z.div_mod_to_equations; lia.
    - rewrite andb_false_r, orb_false_r. rewrite (Z.mod_small (wb + Z.b2z c)) by (destruct c; simpl; lia).
      destruct (Z.ltb_spec wa (wb + Z.b2z c)), c; simpl Z.b2z in *; Z.div_mod_to_equations; lia. }
  destruct (IH (S i) c' a b Ha Hb) as (-> & H2 & H3). split_and!; [|by apply Forall_cons_2|by rewrite H3].
  rewrite B64_S.
  replace (wa + B64 * eval_from (word a) (S i) n - (wb + B64 * eval_from (word_in b) (S i) n) - Z.b2z c)
    with (diff + B64 * (eval_from (word a) (S i) n - eval_from (word_in b) (S i) n - Z.b2z c')) by lia.
  by rewrite mod_B64_S.
Qed.

Lemma eval_from_word a n : eval_from (word a) 0 n = eval (take n (words a)).
Proof. induction n as [|n IH]; [done|]. by rewrite eval_from_S, eval_take_S, IH. Qed.

Lemma sub_spec r a b :
  bn_ok a -> bn_ok b ->
  if val a <? val b then bn_sub true r a b = (ERR_INVALID_ARG, r)
  else fst (bn_sub true r a b) = ERR_OK /\ bn_ok (sub r a b) /\ val (sub r a b) = val a - val b.
Proof.
  intros Ha Hb. unfold sub, bn_sub. rewrite cmp_spec by done.
  destruct (Z.ltb_spec (val a) (val b)) as [E|E].
  { rewrite Z.sgn_neg by lia. done. }
  replace (Z.sgn (val a - val b) <? 0) with false by (symmetry; apply Z.ltb_ge, Z.sgn_nonneg; lia).
  destruct (ensure_spec r (top a)) as (k & -> & Hk). cbn [fst snd].
  destruct (sub_loop_spec (top a) 0 false a b) as (He & Hw & Hl);
    [intros; apply nth_fits, Ha|intros; apply word_in_fits, Hb|].
  set (s := sub_loop (top a) 0 false a b) in *.
  match goal with |- context [bn_fix_top ?x] => destruct (fix_top_ok x) as [H1 H2] end.
  { simpl. apply Forall_app_2; [done|apply word_list_zeros]. }
  split; [done|]. split; [done|]. rewrite H2. simpl words. rewrite eval_app, eval_zeros, He, Z.mul_0_r, Z.add_0_r.
  rewrite eval_from_word. fold (used a). fold (val a). simpl Z.b2z. rewrite Z.sub_0_r.
  assert (Htop : (top b <= top a)%nat).
  { destruct (decide (top b <= top a)%nat); [done|]. exfalso. pose proof (val_ge b Hb ltac:(lia)). pose proof (val_lt a Ha).
    assert (B64 ^ Z.of_nat (top a) <= B64 ^ Z.of_nat (top b - 1)) by (apply Z.pow_le_mono_r; unfold B64; lia). lia. }
  rewrite eval_from_val by done. apply Z.mod_small. pose proof (val_lt a Ha). pose proof (val_lt b Hb). lia.
Qed.

(** ** Multiplication *)

Lemma mul_row_spec ai b : forall res c k,
  fits 64 ai -> word_list b -> word_list res -> fits 64 c -> (0 < k)%nat -> drop (length b) res = repeat 0 k ->
  length (mul_row ai b res c) = length res /\ word_list (mul_row ai b res c) /\
  drop (S (length b)) (mul_row ai b res c) = repeat 0 (k - 1) /\
  eval (mul_row ai b res c) = eval res + ai * eval b + c.
Proof.
  induction b as [|bj b IH]; intros res c k Ha Hb Hr Hc Hk Hd.
  - simpl in Hd. rewrite drop_0 in Hd. subst res. destruct k as [|k]; [lia|]. cbn [repeat mul_row].
    rewrite Z.add_0_l, wrap_small by done. split_and!.
    + done.
    + apply Forall_cons_2; [done|apply word_list_zeros].
    + simpl. by rewrite drop_0, Nat.sub_0_r.
    + cbn [eval]. rewrite eval_zeros. lia.
  - destruct res as [|r res]; [simpl in Hd; destruct k; [lia|done]|].
    apply Forall_cons_1 in Hb as [Fb Hb]. apply Forall_cons_1 in Hr as [Fr Hr]. cbn [mul_row].
    set (prod := wrap 128 _).
    assert (Hp : prod = ai * bj + r + c /\ 0 <= prod < 2 ^ 128).
    { unfold prod. unfold fits in *.
      assert (0 <= ai * bj <= (2 ^ 64 - 1) * (2 ^ 64 - 1)) by (split; [nia|apply Z.mul_le_mono_nonneg; lia]).
      rewrite (wrap_small 128 (ai * bj)) by (unfold fits; lia). rewrite (wrap_small 128 (ai * bj + r)) by (unfold fits; lia).
      rewrite wrap_small by (unfold fits; lia). lia. }
    clearbody prod. destruct Hp as [Hp Hp'].
    rewrite (Z.shiftr_div_pow2 prod 64) by lia.
    assert (Fc : fits 64 (prod / 2 ^ 64)) by (unfold fits; split; [apply Z.div_pos; lia|apply Z.div_lt_upper_bound; lia]).
    rewrite (wrap_small 64 (prod / 2 ^ 64)) by done.
    destruct (IH res (prod / 2 ^ 64) k Ha Hb Hr Fc Hk Hd) as (H1 & H2 & H3 & H4). split_and!.
    + simpl. by rewrite H1.
    + apply Forall_cons_2; [by apply wrap_fits|done].
    + done.
    + cbn [eval]. rewrite H4. unfold wrap. fold B64 in *. pose proof (Z.div_mod prod B64 ltac:(unfold B64; lia)). lia.
Qed.

Lemma mul_rows_spec a b : forall res k,
  word_list a -> word_list b -> word_list res -> (length a <= k)%nat -> drop (length b) res = repeat 0 k ->
  word_list (mul_rows a b res) /\ length (mul_rows a b res) = length res /\ eval (mul_rows a b res) = eval res + eval a * eval b.
Proof.
  induction a as [|ai a IH]; intros res k Ha Hb Hr Hk Hd; [simpl; split_and!; [done|done|lia]|].
  apply Forall_cons_1 in Ha as [Fa Ha]. simpl in Hk. cbn [mul_rows].
  destruct (mul_row_spec ai b res 0 k) as (H1 & H2 & H3 & H4); try done; [lia|].
  destruct (mul_row ai b res 0) as [|r res'] eqn:E.
  { destruct res; [|done]. destruct b; simpl in Hd; destruct k; (lia || done). }
  apply Forall_cons_1 in H2 as [Fr Hr']. simpl in H1, H3.
  destruct (IH res' (k - 1)%nat Ha Hb Hr') as (I1 & I2 & I3); [lia|done|]. split_and!.
  - by apply Forall_cons_2.
  - simpl. lia.
  - cbn [eval] in *. rewrite I3. lia.
Qed.

Lemma mul_spec r a b : bn_ok a -> bn_ok b -> fst (bn_mul ok r a b) = ERR_OK /\ bn_ok (mul r a b) /\ val (mul r a b) = val a * val b.
Proof.
  intros Ha Hb. unfold mul, bn_mul. change (bn_alloc ok) with (Some fresh). change (ok 2) with true. change (ok 3) with true. cbv iota beta.
  destruct (ensure_spec fresh (top a + top b)) as (k & -> & Hk). cbn [fst snd].
  set (sz := size _). assert (Hsz : (top a + top b <= sz)%nat) by (unfold sz; rewrite size_ensured; lia).
  destruct (mul_rows_spec (used a) (used b) (repeat 0 sz) (sz - top b)) as (H1 & _ & H3);
    [by apply used_ok|by apply used_ok|apply word_list_zeros|rewrite used_length by done; lia
    |rewrite used_length by done; apply drop_repeat|].
  match goal with |- context [bn_fix_top ?x] => destruct (fix_top_ok x H1) as [F1 F2]; set (y := bn_fix_top x) in * end.
  clearbody y. destruct (copy_spec r y F1) as (C1 & C2 & _). unfold copy in *. split; [done|]. split; [done|].
  rewrite C2, F2. cbn [words with_words]. rewrite H3, eval_zeros. unfold val. lia.
Qed.

(** ** Shifts *)

(** A word cut at a shift distance. *)
Lemma split_word x s : 0 < s < 64 -> u64 (Z.shiftl x s) = x mod 2 ^ (64 - s) * 2 ^ s.
Proof.
  intros Hs. rewrite Z.shiftl_mul_pow2 by lia. unfold wrap. replace (2 ^ 64) with (2 ^ (64 - s) * 2 ^ s).
  - by rewrite Z.mul_mod_distr_r by (apply Z.pow_nonzero; lia).
  - rewrite <- Z.pow_add_r by lia. f_equal. lia.
Qed.

Lemma pow_split s : 0 < s < 64 -> B64 = 2 ^ (64 - s) * 2 ^ s.
Proof. intros. unfold B64. rewrite <- Z.pow_add_r by lia. f_equal. lia. Qed.

Lemma shl_loop_spec s w : forall c,
  0 < s < 64 -> word_list w -> 0 <= c < 2 ^ s ->
  eval (shl_loop s w c) = eval w * 2 ^ s + c /\ word_list (shl_loop s w c) /\ length (shl_loop s w c) = S (length w).
Proof.
  induction w as [|x w IH]; intros c Hs Hw Hc.
  - cbn [shl_loop eval]. split_and!; [lia| |done]. apply Forall_cons_2; [|constructor].
    assert (2 ^ s < 2 ^ 64) by (apply Z.pow_lt_mono_r; lia). unfold fits. lia.
  - apply Forall_cons_1 in Hw as [Fx Hw]. cbn [shl_loop]. rewrite split_word, lor_low by lia.
    rewrite Z.shiftr_div_pow2 by lia. pose proof (pow_split s Hs) as HB. unfold fits in Fx. fold B64 in Fx.
    set (p := 2 ^ (64 - s)) in *. assert (0 < p) by (apply Z.pow_pos_nonneg; lia).
    assert (0 < 2 ^ s) by (apply Z.pow_pos_nonneg; lia).
    pose proof (Z.mod_pos_bound x p ltac:(lia)) as Hm. pose proof (Z.div_mod x p ltac:(lia)) as Hd.
    assert (Hq : 0 <= x / p < 2 ^ s) by (split; [apply Z.div_pos; lia|apply Z.div_lt_upper_bound; lia]).
    destruct (IH (x / p) Hs Hw Hq) as (I1 & I2 & I3). split_and!.
    + cbn [eval]. rewrite I1. replace (x + B64 * eval w) with (p * (x / p) + x mod p + B64 * eval w) by lia. rewrite HB. ring.
    + apply Forall_cons_2; [|done]. unfold fits. fold B64. nia.
    + simpl. by rewrite I3.
Qed.

Lemma eval_buf_zeros n o src : (o + length src <= n)%nat -> eval (buf_write (repeat 0 n) o src) = B64 ^ Z.of_nat o * eval src.
Proof.
  intros H. unfold buf_write. rewrite !eval_app, drop_repeat, eval_zeros, length_take, repeat_length, Nat.min_l by lia.
  assert (E : eval (take o (repeat 0 n)) = 0).
  { pose proof (eval_zeros n) as E. rewrite <- (take_drop o (repeat 0 n)), eval_app, drop_repeat, eval_zeros in E. lia. }
  rewrite E. lia.
Qed.

Lemma word_list_buf n o src : word_list src -> word_list (buf_write (repeat 0 n) o src).
Proof.
  intros. unfold buf_write. apply Forall_app_2; [apply Forall_take, word_list_zeros|].
  apply Forall_app_2; [done|apply Forall_drop, word_list_zeros].
Qed.

(** The common end of the shifts: normalise the temporary and copy it out. *)
Lemma shift_result r w :
  word_list w -> let t := copy r (bn_fix_top (with_words fresh w)) in bn_ok t /\ val t = eval w.
Proof.
  intros Hw. destruct (fix_top_ok (with_words fresh w) Hw) as [F1 F2].
  destruct (copy_spec r _ F1) as (C1 & C2 & _). split; [done|]. by rewrite C2, F2.
Qed.

Lemma fix_top_with r w w' : bn_fix_top (with_words (with_words r w) w') = bn_fix_top (with_words r w').
Proof. done. Qed.

Lemma pow_bits bits : (0 < bits)%nat -> 2 ^ Z.of_nat bits = B64 ^ Z.of_nat (bits / 64) * 2 ^ Z.of_nat (bits mod 64).
Proof.
  intros. rewrite B64_pow, <- Z.pow_add_r by lia. f_equal. rewrite (Nat.div_mod_eq bits 64) at 1. lia.
Qed.

Lemma lshift_spec r a bits :
  bn_ok a -> fst (bn_lshift ok r a bits) = ERR_OK /\ bn_ok (snd (bn_lshift ok r a bits)) /\
  val (snd (bn_lshift ok r a bits)) = val a * 2 ^ Z.of_nat bits.
Proof.
  intros Ha. unfold bn_lshift. change (ok 0) with true. destruct (Nat.eqb_spec bits 0) as [->|Hb].
  { destruct (copy_spec r a Ha) as (H1 & H2 & _). unfold copy in *. split_and!; [|done|by rewrite H2, Z.mul_1_r].
    unfold bn_copy. by destruct (ensure_spec r (top a)) as (k & -> & _). }
  change (bn_alloc ok) with (Some fresh). change (ok 2) with true. change (ok 3) with true. cbv iota beta zeta.
  destruct (ensure_spec fresh (top a + bits / 64 + 1)) as (k & -> & Hk). cbn [fst snd]. rewrite fix_top_with.
  set (sz := size _). assert (Hsz : (top a + bits / 64 + 1 <= sz)%nat) by (unfold sz; rewrite size_ensured; lia).
  pose proof (used_ok a Ha) as Hw. pose proof (used_length a Ha) as Hl. pose proof (Nat.mod_upper_bound bits 64 ltac:(lia)) as Hm.
  set (src := if (bits mod 64 =? 0)%nat then _ else _).
  assert (Hsrc : eval src = val a * 2 ^ Z.of_nat (bits mod 64) /\ word_list src /\ (length src <= S (top a))%nat).
  { unfold src. destruct (Nat.eqb_spec (bits mod 64) 0) as [->|E]; [split_and!; [by rewrite Z.mul_1_r|done|lia]|].
    destruct (shl_loop_spec (Z.of_nat (bits mod 64)) (used a) 0) as (S1 & S2 & S3); [lia|done|lia|].
    split_and!; [rewrite S1; unfold val; lia|done|lia]. }
  destruct Hsrc as (E1 & E2 & E3). split; [done|].
  destruct (shift_result r (buf_write (repeat 0 sz) (bits / 64) src) (word_list_buf _ _ _ E2)) as [R1 R2].
  split; [done|]. unfold copy in R2. rewrite R2, eval_buf_zeros, E1 by lia. rewrite (pow_bits bits) by lia. ring.
Qed.

Lemma shr_loop_spec s w : forall h,
  0 < s < 64 -> word_list w -> 0 <= h < 2 ^ s ->
  eval (rev (shr_loop s w (h * 2 ^ (64 - s)))) = (h * B64 ^ Z.of_nat (length w) + eval (rev w)) / 2 ^ s /\
  word_list (shr_loop s w (h * 2 ^ (64 - s))) /\ length (shr_loop s w (h * 2 ^ (64 - s))) = length w.
Proof.
  induction w as [|x w IH]; intros h Hs Hw Hh.
  - cbn [shr_loop rev eval length]. split_and!; [|constructor|done]. symmetry. apply Z.div_small. simpl. lia.
  - apply Forall_cons_1 in Hw as [Fx Hw]. cbn [shr_loop]. unfold fits in Fx. fold B64 in Fx.
    rewrite (split_word x (64 - s)) by lia. replace (64 - (64 - s)) with s by lia.
    pose proof (pow_split s Hs) as HB. set (p := 2 ^ (64 - s)) in *. assert (0 < p) by (apply Z.pow_pos_nonneg; lia).
    assert (0 < 2 ^ s) by (apply Z.pow_pos_nonneg; lia). set (q := 2 ^ s) in *.
    pose proof (Z.mod_pos_bound x q ltac:(lia)) as Hm. pose proof (Z.div_mod x q ltac:(lia)) as Hd.
    assert (Hq : 0 <= x / q < p) by (split; [apply Z.div_pos; lia|apply Z.div_lt_upper_bound; lia]).
    rewrite (Z.shiftr_div_pow2 x s), Z.lor_comm by lia. fold q.
    assert (Hlor : Z.lor (h * p) (x / q) = h * p + x / q) by (apply lor_low; fold p; lia). rewrite Hlor.
    destruct (IH (x mod q) Hs Hw Hm) as (I1 & I2 & I3). split_and!.
    + cbn [rev length]. rewrite !eval_app, I1, length_rev, I3. cbn [eval]. rewrite length_rev, B64_S.
      set (P := B64 ^ Z.of_nat (length w)). set (W := eval (rev w)).
      replace (h * (B64 * P) + (W + P * (x + B64 * 0))) with ((x mod q * P + W) + P * (h * p + x / q) * q)
        by (replace (x + B64 * 0) with (q * (x / q) + x mod q) by lia; rewrite HB; ring).
      rewrite Z.div_add by lia. ring.
    + apply Forall_cons_2; [|done]. unfold fits. fold B64. rewrite HB. clear IH I1 I2 I3. clearbody p q.
      assert (h * p <= (q - 1) * p) by (apply Z.mul_le_mono_nonneg_r; lia).
      assert (0 <= h * p) by (apply Z.mul_nonneg_nonneg; lia). lia.
    + simpl. by rewrite I3.
Qed.

Lemma rev_word_list w : word_list w -> word_list (rev w).
Proof. apply Forall_rev. Qed.

Lemma eval_drop w n : word_list w -> (n <= length w)%nat -> eval (drop n w) = eval w / B64 ^ Z.of_nat n.
Proof.
  intros Hw Hn. rewrite <- (take_drop n w) at 2. rewrite eval_app, length_take, Nat.min_l by done.
  pose proof (eval_bound (take n w) (Forall_take _ _ _ Hw)) as Hb. rewrite length_take, Nat.min_l in Hb by done.
  rewrite Z.mul_comm, Z.div_add, (Z.div_small (eval (take n w))) by lia. done.
Qed.

Lemma rshift_spec r a bits :
  bn_ok a -> fst (bn_rshift ok r a bits) = ERR_OK /\ bn_ok (snd (bn_rshift ok r a bits)) /\
  val (snd (bn_rshift ok r a bits)) = val a / 2 ^ Z.of_nat bits.
Proof.
  intros Ha. unfold bn_rshift. change (ok 0) with true. destruct (Nat.eqb_spec bits 0) as [->|Hb].
  { destruct (copy_spec r a Ha) as (H1 & H2 & _). unfold copy in *. split_and!; [|done|by rewrite H2, Z.div_1_r].
    unfold bn_copy. by destruct (ensure_spec r (top a)) as (k & -> & _). }
  rewrite (pow_bits bits) by lia. rewrite <- Z.div_div by (pose proof (B64_pos (bits / 64)); lia || apply Z.pow_pos_nonneg; lia).
  pose proof (val_lt a Ha) as Hv. destruct (Nat.leb_spec (top a) (bits / 64)) as [Ht|Ht].
  { destruct (from_int_spec r 0 ltac:(by unfold fits)) as (H1 & H2 & _). unfold from_int in *. split_and!; [|done|].
    - unfold bn_from_int. by destruct (ensure_spec r 1) as (k & -> & _).
    - rewrite H2, (Z.div_small (val a)); [by rewrite Z.div_0_l by (apply Z.pow_nonzero; lia)|].
      assert (B64 ^ Z.of_nat (top a) <= B64 ^ Z.of_nat (bits / 64)) by (apply Z.pow_le_mono_r; unfold B64; lia). lia. }
  change (bn_alloc ok) with (Some fresh). change (ok 2) with true. change (ok 3) with true. cbv iota beta zeta.
  destruct (ensure_spec fresh (top a - bits / 64)) as (k & -> & Hk). cbn [fst snd]. rewrite fix_top_with.
  set (sz := size _). assert (Hsz : (top a - bits / 64 <= sz)%nat) by (unfold sz; rewrite size_ensured; lia).
  pose proof (used_ok a Ha) as Hw. pose proof (used_length a Ha) as Hl. pose proof (Nat.mod_upper_bound bits 64 ltac:(lia)) as Hm.
  set (w := drop (bits / 64) (used a)). assert (Hww : word_list w) by (by apply Forall_drop).
  assert (Hwl : length w = (top a - bits / 64)%nat) by (unfold w; rewrite length_drop; lia).
  assert (Hwv : eval w = val a / B64 ^ Z.of_nat (bits / 64)) by (apply eval_drop; [done|lia]). rewrite <- Hwv.
  set (src := if (bits mod 64 =? 0)%nat then _ else _).
  assert (Hsrc : eval src = eval w / 2 ^ Z.of_nat (bits mod 64) /\ word_list src /\ length src = length w).
  { unfold src. destruct (Nat.eqb_spec (bits mod 64) 0) as [->|E]; [split_and!; [by rewrite Z.div_1_r|done|done]|].
    destruct (shr_loop_spec (Z.of_nat (bits mod 64)) (rev w) 0) as (S1 & S2 & S3);
      [lia|by apply rev_word_list|split; [lia|apply Z.pow_pos_nonneg; lia]|].
    rewrite Z.mul_0_l in S1, S2, S3. rewrite length_rev in *. rewrite rev_involutive in S1.
    split_and!; [by rewrite S1|by apply rev_word_list|by rewrite S3]. }
  destruct Hsrc as (E1 & E2 & E3). split; [done|].
  destruct (shift_result r (buf_write (repeat 0 sz) 0 src) (word_list_buf _ _ _ E2)) as [R1 R2].
  split; [done|]. unfold copy in R2. rewrite R2, eval_buf_zeros, E1 by lia. simpl. lia.
Qed.

(** ** Bits and bytes *)

Lemma bit_loop_spec fuel : forall w bits,
  0 <= w < 2 ^ Z.of_nat fuel -> bit_loop fuel w bits = (bits + if (w =? 0)%Z then 0 else S (Z.to_nat (Z.log2 w)))%nat.
Proof.
  induction fuel as [|fuel IH]; intros w bits Hw.
  - simpl in *. replace w with 0 by lia. simpl. lia.
  - cbn [bit_loop]. destruct (Z.eqb_spec w 0); [lia|].
    rewrite Nat2Z.inj_succ, Z.pow_succ_r in Hw by lia.
    rewrite IH; rewrite Z.shiftr_div_pow2 by lia; change (2 ^ 1) with 2; [|Z.div_mod_to_equations; lia].
    destruct (Z.eqb_spec (w / 2) 0) as [E|E].
    + assert (w = 1) as -> by (Z.div_mod_to_equations; lia). simpl. lia.
    + assert (El : Z.log2 w = Z.log2 (w / 2) + 1).
      { pose proof (Z.log2_shiftr w 1 ltac:(lia)) as El. rewrite Z.shiftr_div_pow2 in El by lia. change (2 ^ 1) with 2 in El.
        assert (1 <= Z.log2 w) by (apply (Z.log2_le_pow2 w 1); Z.div_mod_to_equations; lia). lia. }
      rewrite El, Z2Nat.inj_add by (lia || apply Z.log2_nonneg). simpl. lia.
Qed.

(** [bn_bit_count] is the least [n] with [val b < 2 ^ n]. *)
Lemma bit_count_spec b :
  bn_ok b -> val b < 2 ^ Z.of_nat (bn_bit_count b) /\ (0 < val b -> 2 ^ (Z.of_nat (bn_bit_count b) - 1) <= val b).
Proof.
  intros H. unfold bn_bit_count. destruct (Nat.eqb_spec (top b) 0) as [E|E].
  { rewrite (proj2 (val_zero b H) E). simpl. lia. }
  set (t := (top b - 1)%nat). assert (Et : top b = S t) by lia.
  assert (Hw := nth_fits (words b) t (ok_words b H)). fold (word b t) in Hw.
  destruct (ok_high b H) as [|Hn]; [done|]. replace (top b - 1)%nat with t in Hn by lia.
  rewrite bit_loop_spec by exact Hw. destruct (Z.eqb_spec (word b t) 0); [done|].
  assert (Hv : val b = eval (take t (words b)) + B64 ^ Z.of_nat t * word b t).
  { unfold val, used. by rewrite Et, eval_take_S. }
  pose proof (eval_bound (take t (words b)) (Forall_take _ _ _ (ok_words b H))) as Hb.
  pose proof (ok_top b H) as Htop. unfold size in Htop. rewrite length_take, Nat.min_l in Hb by lia.
  unfold fits in Hw. pose proof (Z.log2_spec (word b t) ltac:(lia)) as [L1 L2]. pose proof (Z.log2_nonneg (word b t)) as L0.
  set (l := Z.log2 (word b t)) in *. pose proof (B64_pos t) as HP.
  assert (EP : forall k, 0 <= k -> 2 ^ (64 * Z.of_nat t + k) = B64 ^ Z.of_nat t * 2 ^ k)
    by (intros; by rewrite Z.pow_add_r, B64_pow by lia).
  replace (Z.of_nat (t * 64 + S (Z.to_nat l)) - 1) with (64 * Z.of_nat t + l) by lia.
  replace (Z.of_nat (t * 64 + S (Z.to_nat l))) with (64 * Z.of_nat t + Z.succ l) by lia.
  rewrite !EP by lia. set (P := B64 ^ Z.of_nat t) in *. split.
  - assert (P * (word b t + 1) <= P * 2 ^ Z.succ l) by (apply Z.mul_le_mono_nonneg_l; lia). lia.
  - intros _. assert (P * 2 ^ l <= P * word b t) by (apply Z.mul_le_mono_nonneg_l; lia). lia.
Qed.

Lemma nth_eval w k : word_list w -> nth k w 0 = u64 (Z.shiftr (eval w) (64 * Z.of_nat k)).
Proof.
  intros Hw. rewrite Z.shiftr_div_pow2, <- B64_pow by lia. destruct (decide (k < length w)%nat).
  - rewrite <- eval_drop by (done || lia). rewrite <- (take_drop k w) at 1. rewrite app_nth2; rewrite length_take; [|lia].
    replace (k - Nat.min k (length w))%nat with 0%nat by lia.
    pose proof (Forall_drop _ k _ Hw) as Hd. destruct (drop k w) as [|x d] eqn:E; [by apply (f_equal length) in E; rewrite length_drop in E; simpl in E; lia|].
    apply Forall_cons_1 in Hd as [Fx _]. cbn [nth eval]. unfold wrap. fold B64. rewrite Z.mul_comm, Z.mod_add by (unfold B64; lia).
    symmetry. by apply Z.mod_small.
  - rewrite nth_overflow by lia. pose proof (eval_bound w Hw) as Hb. rewrite Z.div_small; [done|].
    assert (B64 ^ Z.of_nat (length w) <= B64 ^ Z.of_nat k) by (apply Z.pow_le_mono_r; unfold B64; lia). lia.
Qed.

(** Byte [i] of the value. *)
Lemma byte_of_word b i :
  bn_ok b -> Z.land (Z.shiftr (word b (i / 8)) (Z.of_nat (i mod 8 * 8))) 0xFF = u8 (Z.shiftr (val b) (8 * Z.of_nat i)).
Proof.
  intros H. unfold word. rewrite nth_eval, val_words by (done || apply H). change 255 with (Z.ones 8).
  rewrite Z.land_ones by lia. pose proof (Nat.mod_upper_bound i 8 ltac:(lia)).
  change ((Z.shiftr (u64 (Z.shiftr (eval (words b)) (64 * Z.of_nat (i / 8)))) (Z.of_nat (i mod 8 * 8))) mod 2 ^ 8)
    with (u8 (Z.shiftr (u64 (Z.shiftr (eval (words b)) (64 * Z.of_nat (i / 8)))) (Z.of_nat (i mod 8 * 8)))).
  rewrite wrap_shiftr_wrap, Z.shiftr_shiftr by lia. do 2 f_equal. pose proof (Nat.div_mod_eq i 8). lia.
Qed.

Lemma store_length (f : nat -> Z) len l :
  length (fold_left (fun buf i => <[(len - 1 - i)%nat := f i]> buf) l (repeat 0 len)) = len.
Proof.
  induction l as [|i l IH] using rev_ind; [apply repeat_length|]. rewrite fold_left_app. simpl. by rewrite length_insert.
Qed.

Lemma store_bytes (f : nat -> Z) len n :
  (n <= len)%nat ->
  forall j, (j < len)%nat ->
  fold_left (fun buf i => <[(len - 1 - i)%nat := f i]> buf) (seq 0 n) (repeat 0 len) !! j =
  Some (if (len - 1 - j <? n)%nat then f (len - 1 - j)%nat else 0).
Proof.
  intros Hn. induction n as [|n IH]; intros j Hj.
  - simpl. by apply lookup_repeat.
  - rewrite seq_S, fold_left_app. cbn [fold_left]. set (buf := fold_left _ _ _) in *.
    assert (Hl : length buf = len) by apply store_length.
    simpl Nat.add. destruct (decide (j = len - 1 - n)%nat) as [->|E].
    + rewrite list_lookup_insert_eq by lia. replace (len - 1 - (len - 1 - n))%nat with n by lia.
      by rewrite (proj2 (Nat.ltb_lt n (S n))) by lia.
    + rewrite list_lookup_insert_ne by lia. rewrite (IH ltac:(lia) j Hj). f_equal.
      destruct (Nat.ltb_spec (len - 1 - j) n), (Nat.ltb_spec (len - 1 - j) (S n)); try lia; done.
Qed.

Lemma to_bytes_spec b len : bn_ok b -> bn_to_bytes b len = be_bytes len (val b).
Proof.
  intros H. unfold bn_to_bytes. set (bc := bn_byte_count b). set (n := if (len <? bc)%nat then len else bc).
  assert (Hn : (n <= len)%nat) by (unfold n; destruct (Nat.ltb_spec len bc); lia).
  apply list_eq. intros j. destruct (decide (j < len)%nat) as [Hj|Hj].
  - rewrite (store_bytes (fun i => Z.land (Z.shiftr (word b (i / 8)) (Z.of_nat (i mod 8 * 8))) 0xFF)) by done.
    unfold be_bytes. rewrite list_lookup_fmap, lookup_seq_lt by done. simpl. f_equal.
    destruct (Nat.ltb_spec (len - 1 - j) n) as [E|E]; [by apply byte_of_word|].
    assert (Hbc : (bc <= len - 1 - j)%nat) by (unfold n in E; destruct (Nat.ltb_spec len bc); lia).
    destruct (bit_count_spec b H) as [Hv _]. pose proof (val_lt b H).
    assert (val b < 2 ^ (8 * Z.of_nat (len - 1 - j))).
    { eapply Z.lt_le_trans; [exact Hv|]. apply Z.pow_le_mono_r; [lia|]. unfold bc, bn_byte_count in Hbc.
      pose proof (Nat.div_mod_eq (bn_bit_count b + 7) 8). pose proof (Nat.mod_upper_bound (bn_bit_count b + 7) 8 ltac:(lia)). lia. }
    rewrite Z.shiftr_div_pow2, Z.div_small by lia. done.
  - rewrite !lookup_ge_None_2; [done|rewrite be_bytes_length; lia|].
    rewrite (store_length (fun i => Z.land (Z.shiftr (word b (i / 8)) (Z.of_nat (i mod 8 * 8))) 0xFF)). lia.
Qed.

(** The number a big-endian byte string stands for. *)
Definition be_num (l : list Z) : Z := fold_left (fun a b => 256 * a + b) l 0.

Lemma be_num_snoc l x : be_num (l ++ [x]) = 256 * be_num l + x.
Proof. unfold be_num. by rewrite fold_left_app. Qed.

Lemma eval_insert w k d :
  (k < length w)%nat -> eval (<[k := nth k w 0 + d]> w) = eval w + B64 ^ Z.of_nat k * d.
Proof.
  revert k. induction w as [|x w IH]; intros k Hk; [simpl in Hk; lia|]. destruct k as [|k].
  - cbn. lia.
  - simpl in Hk. cbn [nth]. change (<[S k := nth k w 0 + d]> (x :: w)) with (x :: <[k := nth k w 0 + d]> w).
    cbn [eval]. rewrite IH by lia. rewrite B64_S. ring.
Qed.

(** Shifting out what a value is a multiple of. *)
Lemma multiple_word m p k :
  (8 * k < p <= 8 * k + 8)%nat -> exists q, u64 (Z.shiftr (m * 256 ^ Z.of_nat p) (64 * Z.of_nat k)) = q * 2 ^ Z.of_nat (8 * (p - 8 * k)) /\
    0 <= q * 2 ^ Z.of_nat (8 * (p - 8 * k)) < 2 ^ 64.
Proof.
  intros Hp. set (e := (8 * (p - 8 * k))%nat). exists (m mod 2 ^ (64 - Z.of_nat e)).
  assert (E : Z.shiftr (m * 256 ^ Z.of_nat p) (64 * Z.of_nat k) = m * 2 ^ Z.of_nat e).
  { rewrite Z.shiftr_div_pow2 by lia. change 256 with (2 ^ 8). rewrite <- Z.pow_mul_r by lia.
    replace (8 * Z.of_nat p) with (Z.of_nat e + 64 * Z.of_nat k) by lia. rewrite Z.pow_add_r by lia.
    rewrite Z.mul_assoc. apply Z.div_mul. apply Z.pow_nonzero; lia. }
  rewrite E. unfold wrap. replace (2 ^ 64) with (2 ^ (64 - Z.of_nat e) * 2 ^ Z.of_nat e) by (rewrite <- Z.pow_add_r by lia; f_equal; lia).
  rewrite Z.mul_mod_distr_r by (apply Z.pow_nonzero; lia). split; [done|].
  pose proof (Z.mod_pos_bound m (2 ^ (64 - Z.of_nat e)) ltac:(apply Z.pow_pos_nonneg; lia)).
  assert (0 < 2 ^ Z.of_nat e) by (apply Z.pow_pos_nonneg; lia).
  split; [apply Z.mul_nonneg_nonneg; lia|apply Z.mul_lt_mono_pos_r; lia].
Qed.

Lemma import_step buf w i :
  bytes buf -> (i < length buf)%nat -> word_list w -> ((length buf + 7) / 8 <= length w)%nat ->
  eval w = be_num (take i buf) * 256 ^ Z.of_nat (length buf - i) ->
  word_list (import_byte buf w i) /\ length (import_byte buf w i) = length w /\
  eval (import_byte buf w i) = be_num (take (S i) buf) * 256 ^ Z.of_nat (length buf - S i).
Proof.
  intros Hb Hi Hw Hl He. unfold import_byte. set (p := (length buf - 1 - i)%nat). set (k := (p / 8)%nat). set (r := (p mod 8)%nat).
  assert (Hp : p = (8 * k + r)%nat) by apply Nat.div_mod_eq. assert (Hr : (r < 8)%nat) by (apply Nat.mod_upper_bound; lia).
  assert (Hk : (k < length w)%nat).
  { eapply Nat.lt_le_trans; [|exact Hl]. apply Nat.Div0.div_lt_upper_bound.
    pose proof (Nat.div_mod_eq (length buf + 7) 8). pose proof (Nat.mod_upper_bound (length buf + 7) 8 ltac:(lia)). lia. }
  assert (Fx : fits 8 (nth i buf 0)) by (apply Forall_nth; done). set (x := nth i buf 0) in *.
  assert (Hx : u64 (Z.shiftl x (Z.of_nat (r * 8))) = x * 2 ^ Z.of_nat (r * 8) /\ 0 <= x * 2 ^ Z.of_nat (r * 8) < 2 ^ Z.of_nat (8 * S r)).
  { rewrite Z.shiftl_mul_pow2 by lia. unfold fits in Fx. assert (0 < 2 ^ Z.of_nat (r * 8)) by (apply Z.pow_pos_nonneg; lia).
    replace (Z.of_nat (8 * S r)) with (8 + Z.of_nat (r * 8)) by lia. rewrite Z.pow_add_r by lia.
    assert (Hlt : 0 <= x * 2 ^ Z.of_nat (r * 8) < 2 ^ 8 * 2 ^ Z.of_nat (r * 8)) by (split; [nia|apply Z.mul_lt_mono_pos_r; lia]).
    split; [|done]. apply wrap_small. split; [lia|]. eapply Z.lt_le_trans; [apply Hlt|].
    rewrite <- Z.pow_add_r by lia. apply Z.pow_le_mono_r; lia. }
  destruct Hx as [-> Hx]. rewrite (nth_eval w k Hw).
  replace (length buf - i)%nat with (S p) in He by lia. rewrite He.
  destruct (multiple_word (be_num (take i buf)) (S p) k ltac:(lia)) as (q & Eq & Bq).
  replace (8 * (S p - 8 * k))%nat with (8 * S r)%nat in Eq, Bq by lia.
  rewrite Eq, lor_low by lia. rewrite <- Eq, <- He, <- nth_eval by done.
  assert (Fn : fits 64 (nth k w 0 + x * 2 ^ Z.of_nat (r * 8))).
  { rewrite (nth_eval w k Hw), He, Eq. unfold fits. split; [lia|].
    assert (Hq : (q + 1) * 2 ^ Z.of_nat (8 * S r) <= 2 ^ 64).
    { replace (2 ^ 64) with (2 ^ (64 - Z.of_nat (8 * S r)) * 2 ^ Z.of_nat (8 * S r)) in * by (rewrite <- Z.pow_add_r by lia; f_equal; lia).
      assert (0 < 2 ^ Z.of_nat (8 * S r)) by (apply Z.pow_pos_nonneg; lia). apply Z.mul_le_mono_nonneg_r; [lia|].
      destruct Bq as [_ Bq]. apply Zmult_lt_reg_r in Bq; lia. }
    lia. }
  split_and!.
  - by apply Forall_insert.
  - apply length_insert.
  - rewrite eval_insert by done. rewrite He. replace (length buf - S i)%nat with p by lia.
    destruct (lookup_lt_is_Some_2 buf i Hi) as [y Hy]. rewrite (take_S_r buf i y Hy), be_num_snoc.
    assert (y = x) as -> by (unfold x; symmetry; by apply nth_lookup_Some). rewrite Nat2Z.inj_succ, Z.pow_succ_r by lia.
    replace (256 ^ Z.of_nat p) with (B64 ^ Z.of_nat k * 2 ^ Z.of_nat (r * 8)); [ring|].
    rewrite B64_pow, <- Z.pow_add_r by lia. change 256 with (2 ^ 8). rewrite <- Z.pow_mul_r by lia. f_equal. lia.
Qed.

Lemma import_spec buf w n :
  bytes buf -> (n <= length buf)%nat -> word_list w -> ((length buf + 7) / 8 <= length w)%nat -> eval w = 0 ->
  let w' := fold_left (import_byte buf) (seq 0 n) w in
  word_list w' /\ length w' = length w /\ eval w' = be_num (take n buf) * 256 ^ Z.of_nat (length buf - n).
Proof.
  intros Hb Hn Hw Hl He. induction n as [|n IH]; [rewrite take_0; cbn; split_and!; [done|done|lia]|].
  destruct (IH ltac:(lia)) as (I1 & I2 & I3). rewrite seq_S, fold_left_app. cbn [fold_left Nat.add].
  set (w' := fold_left _ _ _) in *. destruct (import_step buf w' n) as (J1 & J2 & J3); [done|lia|done|lia|done|].
  split_and!; [done|lia|done].
Qed.

Lemma from_bytes_spec bn buf : bytes buf -> bn_ok (from_bytes bn buf) /\ val (from_bytes bn buf) = be_num buf.
Proof.
  intros Hb. unfold from_bytes, bn_from_bytes. destruct (ensure_spec bn ((length buf + 7) / 8)) as (k & -> & Hk). cbn [snd].
  destruct (import_spec buf (repeat 0 (size (with_words bn (words bn ++ repeat 0 k)))) (length buf)) as (I1 & I2 & I3);
    [done|done|apply word_list_zeros|rewrite repeat_length, size_ensured; lia|apply eval_zeros|].
  match goal with |- context [bn_fix_top ?x] => destruct (fix_top_ok x) as [F1 F2] end; [done|].
  split; [done|]. rewrite F2. cbn [words]. rewrite I3, take_ge, Nat.sub_diag by done. lia.
Qed.

Lemma be_num_app a b : be_num (a ++ b) = be_num a * 256 ^ Z.of_nat (length b) + be_num b.
Proof.
  induction b as [|x b IH] using rev_ind; [rewrite app_nil_r; cbn; lia|].
  rewrite app_assoc, !be_num_snoc, IH, length_app. simpl length. rewrite Nat.add_1_r, Nat2Z.inj_succ, Z.pow_succ_r by lia. ring.
Qed.

Lemma be_num_be_bytes n v : be_num (be_bytes n v) = v mod 256 ^ Z.of_nat n.
Proof.
  revert v. induction n as [|n IH]; intros v; [by rewrite Z.mod_1_r|].
  replace (S n) with (n + 1)%nat by lia. rewrite be_bytes_app, be_num_app, IH, be_bytes_length.
  rewrite Z.shiftr_div_pow2 by lia. change (2 ^ (8 * Z.of_nat 1)) with 256. change (256 ^ Z.of_nat 1) with 256.
  replace (be_num (be_bytes 1 v)) with (v mod 256) by (unfold be_num, be_bytes; simpl; rewrite Z.shiftr_0_r; done).
  rewrite Nat2Z.inj_add, Z.add_1_r, Z.pow_succ_r by lia.
  rewrite (Z.rem_mul_r v 256) by (lia || (apply Z.pow_pos_nonneg; lia)). lia.
Qed.

(** C22. Comparison, subtraction, multiplication and shifts compute on the values
    represented, and results keep the representation invariant, if the allocations
    succeed; subtraction refuses a negative result.  A shift by 0 is into another number
    than the operand.  Addition is exact except that it leaves alone the
    words of a reused result above the ones it writes, which then count. *)
Theorem bn_arith_exact (r a b : bn_t) (bits : nat) (Hr : word_list (words r)) (Ha : bn_ok a) (Hb : bn_ok b) :
  bn_cmp a b = Z.sgn (val a - val b) /\
  (let n := S (Nat.max (top a) (top b)) in
   fst (bn_add true r a b) = ERR_OK /\ bn_ok (add r a b) /\
   val (add r a b) = val a + val b + B64 ^ Z.of_nat n * eval (drop n (words r))) /\
  (if val a <? val b then bn_sub true r a b = (ERR_INVALID_ARG, r)
   else fst (bn_sub true r a b) = ERR_OK /\ bn_ok (sub r a b) /\ val (sub r a b) = val a - val b) /\
  (fst (bn_mul ok r a b) = ERR_OK /\ bn_ok (mul r a b) /\ val (mul r a b) = val a * val b) /\
  (fst (bn_lshift ok r a bits) = ERR_OK /\ bn_ok (snd (bn_lshift ok r a bits)) /\
   val (snd (bn_lshift ok r a bits)) = val a * 2 ^ Z.of_nat bits) /\
  (fst (bn_rshift ok r a bits) = ERR_OK /\ bn_ok (snd (bn_rshift ok r a bits)) /\
   val (snd (bn_rshift ok r a bits)) = val a / 2 ^ Z.of_nat bits).
Proof.
  split; [by apply cmp_spec|]. split; [by apply add_spec|]. split; [by apply sub_spec|]. split; [by apply mul_spec|].
  split; [by apply lshift_spec|by apply rshift_spec].
Qed.

(** Importing a big-endian byte string gives the number it writes, exporting
    gives back the low bytes of the number, and importing an exported number that
    fits the buffer gives the same number. *)
Theorem bn_bytes_roundtrip (bn a : bn_t) (buf : list Z) (len : nat) (Ha : bn_ok a) (Hbuf : bytes buf) :
  bn_ok (from_bytes bn buf) /\ val (from_bytes bn buf) = be_num buf /\
  bn_to_bytes a len = be_bytes len (val a) /\
  (val a < 256 ^ Z.of_nat len -> val (from_bytes bn (bn_to_bytes a len)) = val a).
Proof.
  destruct (from_bytes_spec bn buf Hbuf) as [H1 H2]. rewrite to_bytes_spec by done. split_and!; [done..|].
  intros Hv. destruct (from_bytes_spec bn (be_bytes len (val a)) (be_bytes_ok _ _)) as [_ ->].
  rewrite be_num_be_bytes. apply Z.mod_small. pose proof (val_lt a Ha). lia.
Qed.

(** ** Witnesses *)

(** A reused result of three words: the third one survives the addition. *)
Definition demo_result : bn_t := {| words := [9; 9; 9; 0]; top := 3; sign := 1 |}.

Lemma bn_arith_exact_witness : val (add demo_result (from_int fresh 2) (from_int fresh 3)) = 5 + B64 ^ 2 * 9.
Proof.
  destruct (bn_arith_exact demo_result (from_int fresh 2) (from_int fresh 3) 1) as (_ & (_ & _ & H) & _);
    [repeat (constructor; [by unfold fits|]); constructor|apply from_int_spec; done|apply from_int_spec; done|].
  rewrite H. vm_compute. reflexivity.
Defined.

Lemma bn_bytes_roundtrip_witness : val (from_bytes fresh (bn_to_bytes (from_int fresh 1000) 4)) = 1000.
Proof.
  destruct (bn_bytes_roundtrip fresh (from_int fresh 1000) [1; 2] 4) as (_ & _ & _ & H);
    [apply from_int_spec; done|repeat (constructor; [by unfold fits|]); constructor|].
  rewrite H by (vm_compute; reflexivity). vm_compute. reflexivity.
Defined.
