(* ===== verification/Rsa.v ===== *)
(** * Division, modular exponentiation and RSA (kernel/crypto/bn.c, crypto.c)

    [bn_div] and the functions above it, modelled for successful allocations (the
    code ignores most failures), and the RSA functions of crypto.c.

    The division computes exact quotients and remainders for one-word divisors;
    zero, whatever the operands, once the divisor has two words
    or more, since the bitwise long division sets a bit of its partial remainder
    without raising [top], and the next shift drops it.  Reducing a number in place
    also loses it when it is already below the modulus.  The consequences are
    followed into [bn_gcd], [bn_mod_exp], [bn_is_prime] and the RSA functions. *)

From Stdlib Require Import Lia.
From stdpp Require Import base tactics list numbers option.
From S2P Require Import Prelude Bytes Bn.

(** [bn_copy(x, x)]: the destination is cleared before the source is read, and
    here they are the same words. *)
Definition copy_self (bn : bn_t) : bn_t := with_words bn (repeat 0 (size bn)).

(** Short division, from the most significant word down: the quotient words in
    that order and the remainder. *)
Fixpoint div_loop (w : list Z) (divisor rem : Z) : list Z * Z :=
  match w with
  | [] => ([], rem)
  | x :: w =>
      let val := Z.lor (Z.shiftl rem 64) x in
      let (q, r) := div_loop w divisor (u64 (val mod divisor)) in (u64 (val / divisor) :: q, r)
  end.

Definition get_bit (bn : bn_t) (i : nat) : bool := has_any (word bn (i / 64)) (Z.shiftl 1 (Z.of_nat (i mod 64))).
Definition set_word (bn : bn_t) (i : nat) (m : Z) : bn_t := with_words bn (<[i := Z.lor (word bn i) m]> (words bn)).

(** The bitwise long division, bits [i - 1] to [0] to go. *)
Fixpoint long_loop (i : nat) (q r a b : bn_t) : bn_t * bn_t :=
  match i with
  | O => (q, r)
  | S j =>
      let r := snd (bn_lshift ok r r 1) in
      let r := if get_bit a j then set_word r 0 1 else r in
      if 0 <=? bn_cmp r b then
        let r := sub r r b in
        let qw := (j / 64)%nat in
        let q := if (size q <=? qw)%nat then snd (bn_ensure true q (qw + 1)) else q in
        let q := set_word q qw (Z.shiftl 1 (Z.of_nat (j mod 64))) in
        let q := if (top q <? qw + 1)%nat then {| words := words q; top := qw + 1; sign := sign q |} else q in
        long_loop j q r a b
      else long_loop j q r a b
  end.

(** [quotient] and [remainder] may be null; [same]: the remainder is the object
    [a] itself. *)
Definition bn_div (same : bool) (quotient remainder : option bn_t) (a b : bn_t) : error_code_t * option bn_t * option bn_t :=
  if (top b =? 0)%nat then (ERR_INVALID_ARG, quotient, remainder)
  else if bn_cmp a b <? 0 then
    (ERR_OK, (fun q => from_int q 0) <$> quotient,
     (fun r => if same then copy_self r else copy r a) <$> remainder)
  else if (top b =? 1)%nat then
    let (q, rem) := div_loop (rev (used a)) (word b 0) 0 in
    let words_of s := rev q ++ repeat 0 (s - top a) in
    let temp := snd (bn_ensure true fresh (top a)) in
    (ERR_OK, (fun quotient => copy quotient (bn_fix_top {| words := words_of (size temp); top := top a; sign := 1 |})) <$> quotient,
     (fun r => from_int r rem) <$> remainder)
  else
    let (q, r) := long_loop (bn_bit_count a) (from_int fresh 0) (from_int fresh 0) a b in
    (ERR_OK, (fun quotient => copy quotient q) <$> quotient, (fun remainder => copy remainder r) <$> remainder).

(** [bn_mod(result, a, m)] with a result of its own, and [bn_mod(a, a, m)]. *)
Definition bn_mod (result a m : bn_t) : error_code_t * bn_t :=
  let '(err, _, r) := bn_div false None (Some result) a m in (err, default result r).
Definition bn_mod_self (a m : bn_t) : error_code_t * bn_t :=
  let '(err, _, r) := bn_div true None (Some a) a m in (err, default a r).

(** The loop of [bn_mod_exp] at bit [i], [n] bits to go. *)
Fixpoint exp_loop (n i : nat) (r b exp m : bn_t) : bn_t :=
  match n with
  | O => r
  | S n =>
      let r := if get_bit exp i then snd (bn_mod_self (mul r r b) m) else r in
      let b := snd (bn_mod_self (mul b b b) m) in
      exp_loop n (S i) r b exp m
  end.
Definition bn_mod_exp (result base exp m : bn_t) : error_code_t * bn_t :=
  (ERR_OK, copy result (exp_loop (bn_bit_count exp) 0 (from_int fresh 1) (copy fresh base) exp m)).

(** The Euclidean loop of [bn_gcd]; [None]: the fuel ran out. *)
Fixpoint gcd_loop (fuel : nat) (t1 t2 temp : bn_t) : option bn_t :=
  match fuel with
  | O => None
  | S fuel =>
      if (top t2 =? 0)%nat then Some t1
      else
        let temp := snd (bn_mod temp t1 t2) in
        gcd_loop fuel (copy t1 t2) (copy t2 temp) temp
  end.
Definition bn_gcd (fuel : nat) (result a b : bn_t) : option (error_code_t * bn_t) :=
  t ← gcd_loop fuel (copy fresh a) (copy fresh b) fresh; Some (ERR_OK, copy result t).

(** The loop of [bn_mod_inv]: r, newr, t, newt and the scratch numbers. *)
Record inv_state := { i_t : bn_t; i_newt : bn_t; i_r : bn_t; i_newr : bn_t; i_q : bn_t; i_temp : bn_t; i_term : bn_t; i_diff : bn_t }.
Definition inv_round (s : inv_state) (m : bn_t) : inv_state :=
  let q := default (i_q s) (snd (fst (bn_div false (Some (i_q s)) None (i_r s) (i_newr s)))) in
  let term := snd (bn_mod_self (mul (i_term s) q (i_newt s)) m) in
  let temp := copy (i_temp s) (i_t s) in
  let t := copy (i_t s) (i_newt s) in
  let '(diff, newt) :=
    if bn_cmp temp term <? 0 then
      let diff := sub (i_diff s) term temp in (diff, sub (i_newt s) m diff)
    else (i_diff s, sub (i_newt s) temp term) in
  let term := mul term q (i_newr s) in
  let diff := sub diff (i_r s) term in
  {| i_t := t; i_newt := newt; i_r := copy (i_r s) (i_newr s); i_newr := copy (i_newr s) diff;
     i_q := q; i_temp := temp; i_term := term; i_diff := diff |}.
Fixpoint inv_loop (fuel : nat) (s : inv_state) (m : bn_t) : option inv_state :=
  match fuel with
  | O => None
  | S fuel => if (top (i_newr s) =? 0)%nat then Some s else inv_loop fuel (inv_round s m) m
  end.
Definition bn_mod_inv (fuel : nat) (result a m : bn_t) : option (error_code_t * bn_t) :=
  let s := {| i_t := from_int fresh 0; i_newt := from_int fresh 1; i_r := copy fresh m; i_newr := copy fresh a;
              i_q := fresh; i_temp := fresh; i_term := fresh; i_diff := fresh |} in
  s ← inv_loop fuel s m;
  Some (if (1 <? top (i_r s))%nat || ((top (i_r s) =? 1)%nat && (1 <? word (i_r s) 0)) then (ERR_INVALID_ARG, result)
        else (ERR_OK, copy result (i_t s))).

(** [rnd]: the bytes the generator delivers, [None] when the working buffer could
    not be allocated. *)
Definition bn_rand (bn : bn_t) (bits : nat) (rnd : option (list Z)) : error_code_t * bn_t :=
  match rnd with
  | None => (ERR_OUT_OF_MEMORY, bn)
  | Some buf =>
      let buf := if negb (bits mod 8 =? 0)%nat
                 then <[0%nat := Z.land (nth 0 buf 0) (Z.shiftl 1 (Z.of_nat (bits mod 8)) - 1)]> buf else buf in
      (ERR_OK, from_bytes bn buf)
  end.

(** ** Miller-Rabin

    [rnd] lists what the generator delivers, one byte string per call; a loop that
    needs more than is listed does not end within the model ([None]). *)

(** [do ... while (a->top == 0 || (a->top == 1 && a->words[0] <= 1))] *)
Fixpoint pick_base (rnd : list (list Z)) (a bn : bn_t) : option (bn_t * list (list Z)) :=
  match rnd with
  | [] => None
  | bytes :: rnd =>
      let a := snd (bn_rand a (bn_bit_count bn) (Some bytes)) in
      let a := snd (bn_mod_self a bn) in
      if (top a =? 0)%nat || ((top a =? 1)%nat && (word a 0 <=? 1)) then pick_base rnd a bn else Some (a, rnd)
  end.

(** [while ((d->words[0] & 1) == 0) { d >>= 1; s++; }] *)
Fixpoint halve (fuel : nat) (d : bn_t) (s : nat) : option (bn_t * nat) :=
  match fuel with
  | O => None
  | S fuel => if negb (Z.odd (word d 0)) then halve fuel (snd (bn_rshift ok d d 1)) (S s) else Some (d, s)
  end.

(** The squarings of one round: [true] when the number is found composite. *)
Fixpoint square_loop (n : nat) (x bn n_minus_1 : bn_t) : bool * bn_t :=
  match n with
  | O => (true, x)
  | S n =>
      let x := snd (bn_mod_self (mul x x x) bn) in
      if bn_cmp x n_minus_1 =? 0 then (false, x) else square_loop n x bn n_minus_1
  end.

Fixpoint prime_rounds (rounds : nat) (rnd : list (list Z)) (a x d bn n_minus_1 : bn_t) (s : nat) : option bool :=
  match rounds with
  | O => Some true
  | S rounds =>
      p ← pick_base rnd a bn;
      let (a, rnd) := p : bn_t * list (list Z) in
      let x := snd (bn_mod_exp x a d bn) in
      if ((top x =? 1)%nat && (word x 0 =? 1)) || (bn_cmp x n_minus_1 =? 0)
      then prime_rounds rounds rnd a x d bn n_minus_1 s
      else
        let (composite, x) := square_loop (s - 1) x bn n_minus_1 in
        if composite then Some false else prime_rounds rounds rnd a x d bn n_minus_1 s
  end.

Definition bn_is_prime (rnd : list (list Z)) (bn : bn_t) (rounds : nat) : option bool :=
  if (top bn =? 0)%nat then Some false
  else if (top bn =? 1)%nat && (word bn 0 <? 2) then Some false
  else if (top bn =? 1)%nat && (word bn 0 =? 2) then Some true
  else if negb (Z.odd (word bn 0)) then Some false
  else
    let n_minus_1 := sub fresh bn (from_int fresh 1) in
    ds ← halve (bn_bit_count bn) (copy fresh n_minus_1) 0;
    let (d, s) := ds : bn_t * nat in
    prime_rounds rounds rnd fresh fresh d bn n_minus_1 s.

(** ** Key generation

    [attempts] lists, for each candidate, the random bytes it is made of and those
    the primality test draws.  [None]: the list is used up before the loop ends. *)

Inductive crypto_asym_type_t := CRYPTO_ASYM_RSA2048 | CRYPTO_ASYM_RSA4096 | CRYPTO_ASYM_ECC_P256 | CRYPTO_ASYM_ECC_P384.

Definition RSA2048_KEY_SIZE : nat := 256.
Definition RSA4096_KEY_SIZE : nat := 512.

(** [do { bn_rand(p, ...); p->words[0] |= 1; } while (!bn_is_prime(p, 10) || ...)];
    [other]: the prime the result must differ from. *)
Fixpoint find_prime (key_size : nat) (other : option bn_t) (attempts : list (list Z * list (list Z))) (p : bn_t) :
    option (bn_t * list (list Z * list (list Z))) :=
  match attempts with
  | [] => None
  | (cand, rnd) :: attempts =>
      let p := snd (bn_rand p (key_size * 4) (Some cand)) in
      let p := set_word p 0 1 in
      prime ← bn_is_prime rnd p 10;
      if prime && match other with Some o => negb (bn_cmp o p =? 0) | None => true end
      then Some (p, attempts) else find_prime key_size other attempts p
  end.

Record rsa_keys := { public_key : list Z; private_key : list Z }.

(** [pub_len], [priv_len]: the buffer sizes, [None] for a null pointer. *)
Definition crypto_rsa_generate_keypair (fuel : nat) (attempts : list (list Z * list (list Z))) (type : crypto_asym_type_t)
    (pub_len priv_len : option nat) : option (error_code_t * option rsa_keys) :=
  match pub_len, priv_len with
  | Some pub_len, Some priv_len =>
      match (match type with CRYPTO_ASYM_RSA2048 => Some RSA2048_KEY_SIZE | CRYPTO_ASYM_RSA4096 => Some RSA4096_KEY_SIZE | _ => None end) with
      | None => Some (ERR_NOT_SUPPORTED, None)
      | Some key_size =>
          if (pub_len <? key_size + 4)%nat || (priv_len <? 3 * key_size)%nat then Some (ERR_INVALID_ARG, None)
          else
            let one := from_int fresh 1 in
            let e := from_int fresh 65537 in
            '(p, attempts) ← find_prime key_size None attempts fresh;
            '(q, _) ← find_prime key_size (Some p) attempts fresh;
            let n := mul fresh p q in
            let phi := mul fresh (sub fresh p one) (sub fresh q one) in
            '(err, d) ← bn_mod_inv fuel fresh e phi;
            match err with
            | ERR_OK =>
                Some (ERR_OK, Some {| public_key := bn_to_bytes n key_size ++ [1; 0; 1; 0];
                                      private_key := bn_to_bytes n key_size ++ bn_to_bytes d key_size ++
                                        bn_to_bytes p (key_size / 2) ++ bn_to_bytes q (key_size / 2) |})
            | _ => Some (ERR_FAILED, None)
            end
      end
  | _, _ => Some (ERR_INVALID_ARG, None)
  end.

(** ** RSA (crypto_rsa_encrypt, crypto_rsa_decrypt) *)

(** The 32-bit little-endian integer at the end of a public key. *)
Definition le32 (b : list Z) : Z := nth 0 b 0 + 256 * nth 1 b 0 + 65536 * nth 2 b 0 + 16777216 * nth 3 b 0.

(** The bytes written to [ciphertext]; [out]: the output pointer is non-null. *)
Definition crypto_rsa_encrypt (public_key plaintext : option (list Z)) (out : bool) : error_code_t * option (list Z) :=
  match public_key, plaintext, out with
  | Some pk, Some plaintext, true =>
      if (length pk <? 4)%nat then (ERR_INVALID_ARG, None)
      else
        let key_size := (length pk - 4)%nat in
        let e_val := le32 (drop key_size pk) in
        if (key_size <? length plaintext)%nat then (ERR_INVALID_ARG, None)
        else
          let n := from_bytes fresh (take key_size pk) in
          let e := from_int fresh e_val in
          let m := from_bytes fresh plaintext in
          let c := snd (bn_mod_exp fresh m e n) in
          (ERR_OK, Some (bn_to_bytes c key_size))
  | _, _, _ => (ERR_INVALID_ARG, None)
  end.

Definition crypto_rsa_decrypt (private_key ciphertext : option (list Z)) (out : bool) : error_code_t * option (list Z) :=
  match private_key, ciphertext, out with
  | Some sk, Some ciphertext, true =>
      let key_size := (length sk / 3)%nat in
      if (length sk <? 3 * key_size)%nat || negb (length ciphertext =? key_size)%nat then (ERR_INVALID_ARG, None)
      else
        let n := from_bytes fresh (take key_size sk) in
        let d := from_bytes fresh (take key_size (drop key_size sk)) in
        let c := from_bytes fresh ciphertext in
        let m := snd (bn_mod_exp fresh c d n) in
        (ERR_OK, Some (bn_to_bytes m key_size))
  | _, _, _ => (ERR_INVALID_ARG, None)
  end.

(** * One-word divisors *)

Lemma div_loop_spec d w : forall rem,
  0 < d < B64 -> word_list w -> 0 <= rem < d ->
  let (q, r) := div_loop w d rem in
  eval (rev q) * d + r = rem * B64 ^ Z.of_nat (length w) + eval (rev w) /\ 0 <= r < d /\ word_list q /\ length q = length w.
Proof.
  induction w as [|x w IH]; intros rem Hd Hw Hr; [simpl; split_and!; (lia || constructor)|].
  apply Forall_cons_1 in Hw as [Fx Hw]. unfold fits in Fx. cbn [div_loop].
  rewrite Z.shiftl_mul_pow2, lor_low by lia. fold B64 in *.
  set (v := rem * B64 + x). pose proof (Z.mod_pos_bound v d ltac:(lia)) as Hm. pose proof (Z.div_mod v d ltac:(lia)) as Hv.
  assert (Hq : 0 <= v / d < B64).
  { split; [apply Z.div_pos; [unfold v; nia|lia]|]. apply Z.div_lt_upper_bound; [lia|]. unfold v. nia. }
  rewrite (wrap_small 64 (v mod d)) by (unfold fits; fold B64; lia). rewrite (wrap_small 64 (v / d)) by exact Hq.
  pose proof (IH (v mod d) Hd Hw Hm) as H. destruct (div_loop w d (v mod d)) as [q r]. destruct H as (H1 & H2 & H3 & H4).
  split_and!; [|lia|lia|by apply Forall_cons_2|simpl; by rewrite H4].
  cbn [rev length]. rewrite !eval_app, !length_rev, H4. cbn [eval]. rewrite B64_S.
  set (P := B64 ^ Z.of_nat (length w)) in *.
  replace (rem * (B64 * P) + (eval (rev w) + P * (x + B64 * 0))) with (P * v + eval (rev w)) by (unfold v; ring).
  replace (P * v) with (P * (d * (v / d) + v mod d)) by (by rewrite <- Hv). lia.
Qed.

Lemma one_word b : bn_ok b -> top b = 1%nat -> val b = word b 0 /\ 0 < val b < B64.
Proof.
  intros H Ht. pose proof (val_lt b H) as Hl. pose proof (val_ge b H ltac:(lia)) as Hg. rewrite Ht in *. simpl in Hg, Hl.
  split; [|lia]. unfold val, used, word. rewrite Ht. destruct (words b) as [|x w]; [done|]. simpl. rewrite ?take_0. simpl. lia.
Qed.

(** Quotient and remainder by a one-word divisor, whatever the result objects held. *)
Lemma div_one_word q r a b :
  bn_ok a -> bn_ok b -> top b = 1%nat ->
  exists q' r', bn_div false (Some q) (Some r) a b = (ERR_OK, Some q', Some r') /\
    bn_ok q' /\ bn_ok r' /\ val q' = val a / val b /\ val r' = val a mod val b.
Proof.
  intros Ha Hb Ht. destruct (one_word b Hb Ht) as [Hv Hvb]. unfold bn_div. rewrite Ht. cbn [Nat.eqb].
  rewrite cmp_spec by done. pose proof (val_lt a Ha) as Hva. destruct (Z.ltb_spec (Z.sgn (val a - val b)) 0) as [E|E].
  - apply Z.sgn_neg_iff in E. destruct (from_int_spec q 0 ltac:(by unfold fits)) as (Q1 & Q2 & _).
    destruct (copy_spec r a Ha) as (R1 & R2 & _). do 2 eexists. split; [reflexivity|]. split_and!; [done|done|..].
    + by rewrite Q2, Z.div_small by lia.
    + by rewrite R2, Z.mod_small by lia.
  - pose proof (div_loop_spec (word b 0) (rev (used a)) 0) as H. destruct (div_loop (rev (used a)) (word b 0) 0) as [qs rem].
    destruct H as (H1 & H2 & H3 & H4); [lia|apply rev_word_list, used_ok, Ha|lia|].
    rewrite length_rev, rev_involutive, Z.mul_0_l, Z.add_0_l in *. rewrite used_length in H4 by done. fold (val a) in H1. rewrite <- Hv in *.
    destruct (ensure_spec fresh (top a)) as (k & -> & Hk). cbn [snd fmap option_fmap option_map].
    set (w := rev qs ++ _). assert (Hw : word_list w) by (apply Forall_app_2; [by apply rev_word_list|apply word_list_zeros]).
    destruct (fix_top_ok {| words := w; top := top a; sign := 1 |} Hw) as [F1 F2].
    destruct (copy_spec q _ F1) as (C1 & C2 & _). destruct (from_int_spec r rem) as (R1 & R2 & _); [unfold fits; fold B64; lia|].
    do 2 eexists. split; [reflexivity|]. split_and!; [done|done|..].
    + rewrite C2, F2. cbn [words]. unfold w. rewrite eval_app, eval_zeros, Z.mul_0_r, Z.add_0_r. apply (Z.div_unique_pos _ _ _ rem); lia.
    + rewrite R2. apply (Z.mod_unique_pos _ _ (eval (rev qs))); lia.
Qed.

(** * Wider divisors: the long division loses every bit *)

Lemma copy_empty dest src : top src = 0%nat -> bn_ok (copy dest src) /\ val (copy dest src) = 0.
Proof.
  intros Ht. unfold copy, bn_copy. destruct (ensure_spec dest (top src)) as (k & -> & Hk). cbn [snd]. rewrite Ht, take_0, Nat.sub_0_r.
  unfold val, used. cbn [top words]. split; [|by rewrite take_0]. split; cbn [words top].
  - apply word_list_zeros.
  - lia.
  - unfold size. cbn [words]. by rewrite app_nil_l, repeat_length, drop_0, Nat.sub_0_r.
  - by left.
Qed.

Lemma lshift_empty r : top r = 0%nat -> top (snd (bn_lshift ok r r 1)) = 0%nat.
Proof.
  intros Ht. unfold bn_lshift. change (bn_alloc ok) with (Some fresh). cbn [Nat.eqb]. change (ok 2) with true. change (ok 3) with true.
  change (1 / 64)%nat with 0%nat. change (1 mod 64)%nat with 1%nat. cbn [Nat.eqb]. cbv iota zeta.
  destruct (ensure_spec fresh (top r + 0 + 1)) as (k & -> & Hk). cbn [snd]. rewrite fix_top_with.
  set (sz := size _). assert (Hsz : (1 <= sz)%nat) by (unfold sz; rewrite size_ensured; lia).
  unfold used. rewrite Ht, take_0. cbn [shl_loop]. change (Z.of_nat 1) with 1.
  assert (Hw : word_list (buf_write (repeat 0 sz) 0 [0])) by (apply word_list_buf; repeat constructor; unfold fits; lia).
  destruct (shift_result r _ Hw) as [R1 R2]. rewrite eval_buf_zeros in R2 by (simpl; lia). cbn [eval] in R2.
  apply (val_zero _ R1). fold (copy r (bn_fix_top (with_words fresh (buf_write (repeat 0 sz) 0 [0])))). rewrite R2. lia.
Qed.

Lemma long_loop_empty i : forall q r a b,
  (0 < top b)%nat -> top r = 0%nat -> exists r', long_loop i q r a b = (q, r') /\ top r' = 0%nat.
Proof.
  induction i as [|i IH]; intros q r a b Hb Hr; [by exists r|]. cbn [long_loop].
  pose proof (lshift_empty r Hr) as Hs. set (r1 := snd (bn_lshift ok r r 1)) in *. clearbody r1.
  set (r2 := if get_bit a i then set_word r1 0 1 else r1).
  assert (Hr2 : top r2 = 0%nat) by (unfold r2; by case_match). clearbody r2.
  assert (Hc : bn_cmp r2 b = -1).
  { unfold bn_cmp. rewrite Hr2. by rewrite (proj2 (Nat.ltb_ge (top b) 0)), (proj2 (Nat.ltb_lt 0 (top b))) by lia. }
  rewrite Hc. cbn [Z.leb Z.compare]. by apply IH.
Qed.

(** All words zero: what a reduction by a wide modulus leaves. *)
Definition cleared (b : bn_t) : Prop := words b = repeat 0 (size b).

Lemma cleared_val b : cleared b -> val b = 0.
Proof.
  intros H. unfold val, used. rewrite H. pose proof (eval_zeros (size b)) as E.
  rewrite <- (take_drop (top b) (repeat 0 (size b))), eval_app, drop_repeat, eval_zeros in E. lia.
Qed.

Lemma take_repeat {A} (x : A) k : forall n, take n (repeat x k) = repeat x (Nat.min n k).
Proof. induction k as [|k IH]; intros [|n]; try done. simpl. by rewrite IH. Qed.

Lemma cleared_copy dest src : cleared src \/ top src = 0%nat -> cleared (copy dest src).
Proof.
  intros H. unfold copy, bn_copy. destruct (ensure_spec dest (top src)) as (k & -> & Hk). cbn [snd]. unfold cleared, size at 2. cbn [words].
  destruct H as [H| ->].
  - rewrite H, take_repeat, <- repeat_app, repeat_length. done.
  - by rewrite take_0, app_nil_l, repeat_length.
Qed.

(** In-place reduction by a modulus of at least two words. *)
Lemma mod_self_wide a m : (2 <= top m)%nat -> cleared (snd (bn_mod_self a m)).
Proof.
  intros Hm. unfold bn_mod_self, bn_div.
  destruct (Nat.eqb_spec (top m) 0); [lia|]. destruct (bn_cmp a m <? 0); cbn [fmap option_fmap option_map snd].
  { unfold cleared, copy_self, size. simpl. by rewrite repeat_length. }
  destruct (Nat.eqb_spec (top m) 1); [lia|].
  destruct (long_loop_empty (bn_bit_count a) (from_int fresh 0) (from_int fresh 0) a m) as (r & -> & Hr); [lia|done|].
  cbn [fmap option_fmap option_map snd]. apply cleared_copy. by right.
Qed.

(** * Consequences *)

Lemma get_bit_val b i : bn_ok b -> get_bit b i = Z.testbit (val b) (Z.of_nat i).
Proof.
  intros H. unfold get_bit, has_any, word. rewrite nth_eval, <- val_words by (done || apply H).
  pose proof (Nat.mod_upper_bound i 64 ltac:(lia)) as Hm. set (w := u64 _). set (r := (i mod 64)%nat) in *.
  assert (E : Z.testbit (val b) (Z.of_nat i) = Z.testbit w (Z.of_nat r)).
  { unfold w, wrap. rewrite Z.mod_pow2_bits_low, Z.shiftr_spec by lia. f_equal. pose proof (Nat.div_mod_eq i 64). lia. }
  rewrite E. replace (Z.land w (Z.shiftl 1 (Z.of_nat r))) with (if Z.testbit w (Z.of_nat r) then 2 ^ Z.of_nat r else 0).
  - destruct (Z.testbit w (Z.of_nat r)); [|done]. apply negb_true_iff, Z.eqb_neq, Z.pow_nonzero; lia.
  - apply Z.bits_inj'. intros j Hj. rewrite Z.land_spec, Z.shiftl_1_l, Z.pow2_bits_eqb by lia.
    destruct (Z.eqb_spec (Z.of_nat r) j) as [<-|E2].
    + destruct (Z.testbit w (Z.of_nat r)) eqn:Ew; rewrite ?Ew; [by rewrite Z.pow2_bits_true by lia|by rewrite Z.bits_0].
    + rewrite andb_false_r. destruct (Z.testbit w (Z.of_nat r)); [by rewrite Z.pow2_bits_false by lia|by rewrite Z.bits_0].
Qed.

Lemma top_bit_set e : bn_ok e -> 0 < val e -> exists i, (i < bn_bit_count e)%nat /\ get_bit e i = true.
Proof.
  intros He Hv. destruct (bit_count_spec e He) as [H1 H2]. specialize (H2 Hv).
  destruct (bn_bit_count e) as [|n] eqn:En; [simpl in H1; lia|]. exists n. split; [lia|]. rewrite get_bit_val by done.
  rewrite Nat2Z.inj_succ in *. replace (Z.succ (Z.of_nat n) - 1) with (Z.of_nat n) in H2 by lia.
  rewrite <- (Z.log2_unique (val e) (Z.of_nat n)) by lia. by apply Z.bit_log2.
Qed.

Lemma exp_loop_wide exp m n : forall i r b,
  (2 <= top m)%nat -> (cleared r \/ exists j, (i <= j < i + n)%nat /\ get_bit exp j = true) ->
  cleared (exp_loop n i r b exp m).
Proof.
  induction n as [|n IH]; intros i r b Hm H; [destruct H as [H|(j & ? & _)]; [done|lia]|]. cbn [exp_loop]. apply IH; [done|].
  destruct (get_bit exp i) eqn:E; [left; by apply mod_self_wide|].
  destruct H as [H|(j & Hj & Ej)]; [by left|]. right. exists j. split; [|done].
  destruct (decide (j = i)) as [->|]; [congruence|lia].
Qed.

Lemma mod_exp_wide result base exp m :
  (2 <= top m)%nat -> bn_ok exp -> 0 < val exp -> cleared (snd (bn_mod_exp result base exp m)).
Proof.
  intros Hm He Hv. apply cleared_copy. left. apply exp_loop_wide; [done|]. right.
  destruct (top_bit_set exp He Hv) as (i & Hi & Hb). exists i. split; [lia|done].
Qed.

Lemma to_bytes_cleared b len : cleared b -> bn_to_bytes b len = repeat 0 len.
Proof.
  intros H. unfold bn_to_bytes. set (n := if (_ <? _)%nat then _ else _). apply list_eq. intros j.
  set (f := fun i => Z.land (Z.shiftr (word b (i / 8)) (Z.of_nat (i mod 8 * 8))) 0xFF).
  assert (Hf : forall i, f i = 0).
  { intros i. unfold f, word. rewrite H. replace (nth (i / 8) (repeat 0 (size b)) 0) with 0; [by rewrite Z.shiftr_0_l|].
    symmetry. apply nth_repeat. }
  destruct (decide (j < len)%nat) as [Hj|Hj].
  - rewrite (store_bytes f) by (done || (unfold n; destruct (Nat.ltb_spec len (bn_byte_count b)); lia)).
    rewrite Hf, lookup_repeat by done. by case_match.
  - rewrite !lookup_ge_None_2; [done|rewrite repeat_length; lia|rewrite (store_length f); lia].
Qed.

Lemma top_wide b : bn_ok b -> B64 <= val b -> (2 <= top b)%nat.
Proof.
  intros H Hv. pose proof (val_lt b H). destruct (decide (2 <= top b)%nat); [done|].
  assert (B64 ^ Z.of_nat (top b) <= B64 ^ 1) by (apply Z.pow_le_mono_r; unfold B64; lia). lia.
Qed.

(** A cleared number never equals a non-zero one. *)
Lemma cmp_cleared x b : cleared x -> bn_ok b -> (0 < top b)%nat -> bn_cmp x b <> 0.
Proof.
  intros Hx Hb Ht. unfold bn_cmp. destruct (Nat.ltb_spec (top b) (top x)); [done|]. destruct (Nat.ltb_spec (top x) (top b)); [done|].
  replace (top x) with (S (top b - 1)) by lia. cbn [cmp_from].
  assert (Hw : word x (top b - 1) = 0) by (unfold word; rewrite Hx; apply nth_repeat).
  destruct (ok_high b Hb) as [E|E]; [lia|]. pose proof (nth_fits (words b) (top b - 1) (ok_words b Hb)) as F.
  fold (word b (top b - 1)) in F. unfold fits in F. rewrite Hw.
  destruct (Z.ltb_spec (word b (top b - 1)) 0); [done|]. by destruct (Z.ltb_spec 0 (word b (top b - 1))); [|lia].
Qed.

Lemma square_loop_wide n : forall x bn n_minus_1,
  (2 <= top bn)%nat -> bn_ok n_minus_1 -> (0 < top n_minus_1)%nat -> fst (square_loop n x bn n_minus_1) = true.
Proof.
  induction n as [|n IH]; intros x bn n1 Hb H1 Ht; [done|]. cbn [square_loop].
  pose proof (mod_self_wide (mul x x x) bn Hb) as Hc. set (y := snd (bn_mod_self _ _)) in *. clearbody y.
  destruct (Z.eqb_spec (bn_cmp y n1) 0) as [E|E]; [by apply cmp_cleared in E|]. by apply IH.
Qed.

Lemma prime_rounds_wide rounds rnd a x d bn n_minus_1 s :
  (2 <= top bn)%nat -> bn_ok d -> 0 < val d -> bn_ok n_minus_1 -> (0 < top n_minus_1)%nat ->
  prime_rounds (S rounds) rnd a x d bn n_minus_1 s <> Some true.
Proof.
  intros Hb Hd Hdv H1 Ht. cbn [prime_rounds]. destruct (pick_base rnd a bn) as [[a' rnd']|]; [|done]. cbn [mbind option_bind].
  pose proof (mod_exp_wide x a' d bn Hb Hd Hdv) as Hc. set (y := snd (bn_mod_exp x a' d bn)) in *. clearbody y.
  assert (Hw : word y 0 = 0) by (unfold word; rewrite Hc; apply nth_repeat). rewrite Hw, andb_false_r.
  destruct (Z.eqb_spec (bn_cmp y n_minus_1) 0) as [E|E]; [by apply cmp_cleared in E|]. cbn [orb].
  pose proof (square_loop_wide (s - 1) y bn n_minus_1 Hb H1 Ht) as Hs.
  destruct (square_loop (s - 1) y bn n_minus_1) as [c z]. simpl in Hs. by rewrite Hs.
Qed.

Lemma halve_ok fuel : forall d s d' s', bn_ok d -> halve fuel d s = Some (d', s') -> bn_ok d' /\ 0 < val d'.
Proof.
  induction fuel as [|fuel IH]; intros d s d' s' Hd H; [done|]. cbn [halve] in H.
  destruct (Z.odd (word d 0)) eqn:E; cbn [negb] in H.
  - injection H as <- <-. split; [done|]. pose proof (val_lt d Hd).
    destruct (decide (val d = 0)) as [E0|]; [|lia]. unfold word in E.
    by rewrite nth_eval, <- val_words, E0, Z.shiftr_0_l in E by (done || apply Hd).
  - destruct (rshift_spec d d 1 Hd) as (_ & R & _). by apply (IH _ _ _ _ R H).
Qed.

Lemma le32_bounds b : bytes b -> 0 <= le32 b < 2 ^ 32.
Proof.
  intros H. assert (F : forall i, 0 <= nth i b 0 < 256).
  { intros i. destruct (decide (i < length b)%nat); [by apply (Forall_nth (fits 8) b)|]. rewrite nth_overflow by lia. lia. }
  unfold le32. pose proof (F 0%nat). pose proof (F 1%nat). pose proof (F 2%nat). pose proof (F 3%nat). lia.
Qed.

Lemma mod_not_self temp a m :
  bn_ok a -> bn_ok m -> top m = 1%nat -> bn_ok (snd (bn_mod temp a m)) /\ val (snd (bn_mod temp a m)) = val a mod val m.
Proof.
  intros Ha Hm Ht. destruct (div_one_word fresh temp a m Ha Hm Ht) as (q & r & E & _ & Hr & _ & Hv).
  unfold bn_mod. replace (bn_div false None (Some temp) a m) with (ERR_OK, @None bn_t, Some r).
  - done.
  - revert E. unfold bn_div. rewrite Ht. cbn [Nat.eqb]. destruct (bn_cmp a m <? 0); [by intros [= _ <-]|].
    destruct (div_loop _ _ _). by intros [= _ <-].
Qed.

Lemma gcd_loop_spec fuel : forall t1 t2 temp,
  bn_ok t1 -> bn_ok t2 -> val t2 < B64 -> (Z.to_nat (val t2) < fuel)%nat ->
  exists t, gcd_loop fuel t1 t2 temp = Some t /\ bn_ok t /\ val t = Z.gcd (val t1) (val t2).
Proof.
  induction fuel as [|fuel IH]; intros t1 t2 temp H1 H2 Hs Hf; [lia|]. cbn [gcd_loop]. pose proof (val_lt t1 H1) as L1. pose proof (val_lt t2 H2) as L2.
  destruct (Nat.eqb_spec (top t2) 0) as [E|E].
  { exists t1. split_and!; [done|done|]. rewrite (proj2 (val_zero t2 H2) E), Z.gcd_0_r. lia. }
  assert (Ht : top t2 = 1%nat).
  { destruct (decide (2 <= top t2)%nat); [|lia]. exfalso. pose proof (val_ge t2 H2 ltac:(lia)).
    assert (B64 ^ 1 <= B64 ^ Z.of_nat (top t2 - 1)) by (apply Z.pow_le_mono_r; unfold B64; lia). lia. }
  destruct (one_word t2 H2 Ht) as [_ Hp]. destruct (mod_not_self temp t1 t2 H1 H2 Ht) as [Hm Hmv].
  set (m := snd (bn_mod temp t1 t2)) in *. clearbody m. pose proof (Z.mod_pos_bound (val t1) (val t2) ltac:(lia)) as Hb.
  destruct (copy_spec t1 t2 H2) as (C1 & C2 & _). destruct (copy_spec t2 m Hm) as (D1 & D2 & _).
  destruct (IH (copy t1 t2) (copy t2 m) m C1 D1) as (t & Ht1 & Ht2 & Ht3); [lia|lia|].
  exists t. split_and!; [done|done|]. rewrite Ht3, C2, D2, Hmv. rewrite Z.gcd_comm, Z.gcd_mod by lia. apply Z.gcd_comm.
Qed.

Lemma is_prime_wide rnd bn rounds : bn_ok bn -> 2 ^ 64 <= val bn -> (1 <= rounds)%nat -> bn_is_prime rnd bn rounds <> Some true.
Proof.
  intros Hb Hw Hr.
  pose proof (top_wide bn Hb Hw) as Ht. unfold bn_is_prime. destruct (Nat.eqb_spec (top bn) 0); [lia|].
  destruct (Nat.eqb_spec (top bn) 1); [lia|]. cbn [andb]. destruct (negb (Z.odd (word bn 0))); [done|].
  destruct (from_int_spec fresh 1) as (O1 & O2 & _); [by unfold fits|]. pose proof (sub_spec fresh bn (from_int fresh 1) Hb O1) as Hs.
  rewrite O2 in Hs. destruct (Z.ltb_spec (val bn) 1); [lia|]. destruct Hs as (_ & M1 & M2).
  set (m := sub fresh bn (from_int fresh 1)) in *. clearbody m. destruct (copy_spec fresh m M1) as (D1 & _ & _).
  destruct (halve (bn_bit_count bn) (copy fresh m) 0) as [[d s]|] eqn:E; [|done]. cbn [mbind option_bind].
  destruct (halve_ok _ _ _ _ _ D1 E) as [Hd Hdv]. destruct rounds as [|rounds]; [lia|].
  apply prime_rounds_wide; [done|done|done|done|]. destruct (top m) eqn:Em; [|lia]. apply (val_zero m M1) in Em. lia.
Qed.

Lemma lor_1_fits x : fits 64 x -> fits 64 (Z.lor x 1).
Proof.
  unfold fits. intros [H0 H1]. assert (0 <= Z.lor x 1) by (apply Z.lor_nonneg; lia). split; [done|].
  destruct (Z.eq_dec (Z.lor x 1) 0) as [->|]; [lia|]. apply Z.log2_lt_pow2; [lia|]. rewrite Z.log2_lor by lia.
  change (Z.log2 1) with 0. apply Z.max_lub_lt; [|lia]. destruct (Z.eq_dec x 0) as [->|]; [done|]. apply Z.log2_lt_pow2; lia.
Qed.

(** A candidate of more than 64 bits stays one when its lowest bit is set. *)
Lemma candidate_wide p : bn_ok p -> 2 ^ 64 <= val p -> bn_ok (set_word p 0 1) /\ 2 ^ 64 <= val (set_word p 0 1).
Proof.
  intros Hp Hv. pose proof (top_wide p Hp Hv) as Ht. destruct Hp as [Hw Htop Hz Hh].
  assert (Hok : bn_ok (set_word p 0 1)).
  { split; cbn [words top set_word with_words].
    - apply Forall_insert; [done|]. apply lor_1_fits, nth_fits, Hw.
    - unfold size in *. cbn. by rewrite length_insert.
    - unfold size in *. cbn. rewrite length_insert, <- Hz. by rewrite drop_insert_lt by lia.
    - right. unfold word in *. cbn. rewrite nth_lookup, list_lookup_insert_ne, <- nth_lookup by lia. destruct Hh; [lia|done]. }
  split; [done|]. pose proof (val_ge _ Hok ltac:(cbn; lia)) as Hg. cbn [top set_word with_words] in Hg.
  assert (B64 ^ 1 <= B64 ^ Z.of_nat (top p - 1)) by (apply Z.pow_le_mono_r; unfold B64; lia). unfold B64 in *. lia.
Qed.

(** A candidate with more than 64 significant bits. *)
Definition wide_candidate (key_size : nat) (cand : list Z) : Prop :=
  bytes cand /\ length cand = (key_size / 2)%nat /\ 2 ^ 64 <= be_num cand.

Lemma find_prime_wide key_size other attempts : forall p,
  (key_size mod 2 = 0)%nat -> Forall (fun a => wide_candidate key_size (fst a)) attempts -> find_prime key_size other attempts p = None.
Proof.
  induction attempts as [|[cand rnd] attempts IH]; intros p Hk H; [done|]. apply Forall_cons_1 in H as [(Hb & Hl & Hv) H]. cbn [fst] in *.
  cbn [find_prime]. unfold bn_rand.
  replace ((key_size * 4) mod 8 =? 0)%nat with true
    by (symmetry; apply Nat.eqb_eq; apply Nat.Div0.mod_divides in Hk as [c ->]; replace (2 * c * 4)%nat with (c * 8)%nat by lia; apply Nat.Div0.mod_mul).
  cbn [negb snd]. destruct (from_bytes_spec p cand Hb) as [F1 F2]. destruct (candidate_wide (from_bytes p cand) F1 ltac:(lia)) as [C1 C2].
  pose proof (is_prime_wide rnd _ 10 C1 C2 ltac:(lia)) as Hp.
  destruct (bn_is_prime rnd (set_word (from_bytes p cand) 0 1) 10) as [[]|]; [done| |done]. cbn [mbind option_bind andb]. by apply IH.
Qed.

(** Division by a one-word divisor is exact: quotient and remainder are those
    of the values represented, whatever the result objects held before; a zero
    divisor is refused and leaves them alone. *)
Theorem bn_div_one_word_exact (q r a b : bn_t) (Ha : bn_ok a) (Hb : bn_ok b) (Hw : val b < 2 ^ 64) :
  if val b =? 0 then bn_div false (Some q) (Some r) a b = (ERR_INVALID_ARG, Some q, Some r)
  else exists q' r', bn_div false (Some q) (Some r) a b = (ERR_OK, Some q', Some r') /\
    bn_ok q' /\ bn_ok r' /\ val q' = val a / val b /\ val r' = val a mod val b.
Proof.
  pose proof (val_lt b Hb) as Hl. destruct (Z.eqb_spec (val b) 0) as [E|E].
  { apply (val_zero b Hb) in E. unfold bn_div. by rewrite E. }
  apply div_one_word; [done|done|]. assert (top b <> 0%nat) by (intros E0; by apply (val_zero b Hb) in E0).
  destruct (decide (2 <= top b)%nat); [|lia]. exfalso. pose proof (val_ge b Hb ltac:(lia)).
  assert (B64 ^ 1 <= B64 ^ Z.of_nat (top b - 1)) by (apply Z.pow_le_mono_r; unfold B64; lia). unfold B64 in *. lia.
Qed.

(** Dividing by a number of two or more words gives quotient 0 and remainder 0
    whenever the dividend is at least the divisor: the bit set in the partial
    remainder does not raise [top], so every comparison fails and the next shift
    drops the bit. *)
Theorem bn_div_wide_zero (q r a b : bn_t) (Ha : bn_ok a) (Hb : bn_ok b) (Hw : 2 ^ 64 <= val b) (Hge : val b <= val a) :
  exists q' r', bn_div false (Some q) (Some r) a b = (ERR_OK, Some q', Some r') /\ val q' = 0 /\ val r' = 0.
Proof.
  pose proof (top_wide b Hb Hw) as Ht. unfold bn_div. destruct (Nat.eqb_spec (top b) 0); [lia|].
  rewrite cmp_spec by done. replace (Z.sgn (val a - val b) <? 0) with false by (symmetry; apply Z.ltb_ge, Z.sgn_nonneg; lia).
  destruct (Nat.eqb_spec (top b) 1); [lia|].
  destruct (long_loop_empty (bn_bit_count a) (from_int fresh 0) (from_int fresh 0) a b) as (r' & -> & Hr); [lia|done|].
  cbn [fmap option_fmap option_map]. do 2 eexists. split; [reflexivity|]. split; apply copy_empty; done.
Qed.

(** RSA encryption with a modulus of more than 64 bits and a non-zero exponent
    answers success and a ciphertext of zeros, for every message. *)
Theorem rsa_ciphertext_zero (n_bytes e_bytes plaintext : list Z)
  (Hn : bytes n_bytes) (He : bytes e_bytes) (Hel : length e_bytes = 4%nat) (Hp : bytes plaintext)
  (Hlen : (length plaintext <= length n_bytes)%nat) (Hmod : 2 ^ 64 <= be_num n_bytes) (Hexp : le32 e_bytes <> 0) :
  crypto_rsa_encrypt (Some (n_bytes ++ e_bytes)) (Some plaintext) true = (ERR_OK, Some (repeat 0 (length n_bytes))).
Proof.
  unfold crypto_rsa_encrypt. rewrite length_app, Hel. replace (length n_bytes + 4 - 4)%nat with (length n_bytes) by lia.
  destruct (Nat.ltb_spec (length n_bytes + 4) 4); [lia|]. destruct (Nat.ltb_spec (length n_bytes) (length plaintext)); [lia|].
  rewrite take_app_length, drop_app_length. destruct (from_bytes_spec fresh n_bytes Hn) as [N1 N2].
  pose proof (le32_bounds e_bytes He) as Hb. destruct (from_int_spec fresh (le32 e_bytes)) as (E1 & E2 & _); [unfold fits; lia|].
  rewrite to_bytes_cleared; [done|]. apply mod_exp_wide; [apply top_wide; [done|unfold B64; lia]|done|lia].
Qed.

(** The Miller-Rabin test never accepts a number of more than 64 bits, prime
    or not, whatever the random bases: key generation cannot find its primes. *)
Theorem bn_is_prime_rejects_wide (rnd : list (list Z)) (bn : bn_t) (rounds : nat)
  (Hb : bn_ok bn) (Hw : 2 ^ 64 <= val bn) (Hr : (1 <= rounds)%nat) :
  bn_is_prime rnd bn rounds <> Some true.
Proof. by apply is_prime_wide. Qed.

(** [bn_gcd] ends and returns the greatest common divisor when its second
    argument is a one-word number. *)
Theorem bn_gcd_correct (fuel : nat) (result a b : bn_t) (Ha : bn_ok a) (Hb : bn_ok b) (Hw : val b < 2 ^ 64)
  (Hf : (Z.to_nat (val b) < fuel)%nat) :
  exists g, bn_gcd fuel result a b = Some (ERR_OK, g) /\ bn_ok g /\ val g = Z.gcd (val a) (val b).
Proof.
  destruct (copy_spec fresh a Ha) as (A1 & A2 & _). destruct (copy_spec fresh b Hb) as (B1 & B2 & _). unfold bn_gcd.
  destruct (gcd_loop_spec fuel (copy fresh a) (copy fresh b) fresh A1 B1) as (t & E & Ht & Hv); [unfold B64; lia|lia|].
  rewrite E. cbn [mbind option_bind]. destruct (copy_spec result t Ht) as (C1 & C2 & _).
  eexists. split; [reflexivity|]. split; [done|]. by rewrite C2, Hv, A2, B2.
Qed.

(** ** Witnesses *)

Definition two_words (lo hi : Z) : bn_t := {| words := lo :: hi :: repeat 0 30; top := 2; sign := 1 |}.

Lemma two_words_ok lo hi : fits 64 lo -> fits 64 hi -> hi <> 0 -> bn_ok (two_words lo hi).
Proof.
  intros. split; simpl; [|unfold size; simpl; lia|done|by right]. do 2 (apply Forall_cons_2; [done|]). apply (word_list_zeros 30).
Qed.

Lemma bn_div_one_word_exact_witness :
  exists q' r', bn_div false (Some fresh) (Some fresh) (two_words 5 7) (from_int fresh 3) = (ERR_OK, Some q', Some r') /\
    val q' = (5 + 7 * 2 ^ 64) / 3 /\ val r' = (5 + 7 * 2 ^ 64) mod 3.
Proof.
  pose proof (bn_div_one_word_exact fresh fresh (two_words 5 7) (from_int fresh 3)) as H.
  destruct H as (q' & r' & E & _ & _ & H1 & H2);
    [apply two_words_ok; done|apply from_int_spec; done|vm_compute; reflexivity|].
  exists q', r'. split; [exact E|]. split; [rewrite H1; vm_compute; reflexivity|rewrite H2; vm_compute; reflexivity].
Defined.

Lemma bn_div_wide_zero_witness :
  exists q' r', bn_div false (Some fresh) (Some fresh) (two_words 5 7) (two_words 1 1) = (ERR_OK, Some q', Some r') /\
    val q' = 0 /\ val r' = 0.
Proof.
  apply (bn_div_wide_zero fresh fresh (two_words 5 7) (two_words 1 1));
    [apply two_words_ok; done|apply two_words_ok; done|vm_compute; discriminate|vm_compute; discriminate].
Defined.

(** The modulus 2^64 + 13 and the exponent 65537. *)
Lemma rsa_ciphertext_zero_witness :
  crypto_rsa_encrypt (Some ([1; 0; 0; 0; 0; 0; 0; 0; 13] ++ [1; 0; 1; 0])) (Some [42]) true = (ERR_OK, Some (repeat 0 9)).
Proof.
  apply (rsa_ciphertext_zero [1; 0; 0; 0; 0; 0; 0; 0; 13] [1; 0; 1; 0] [42]);
    try (repeat (constructor; [split; [discriminate|reflexivity]|]); constructor); try reflexivity.
  - simpl. lia.
  - vm_compute. discriminate.
  - vm_compute. discriminate.
Defined.

(** 2^64 + 13 is prime. *)
Lemma bn_is_prime_rejects_wide_witness : bn_is_prime [[1; 0; 0; 0; 0; 0; 0; 0; 2]] (two_words 13 1) 1 <> Some true.
Proof.
  apply (bn_is_prime_rejects_wide [[1; 0; 0; 0; 0; 0; 0; 0; 2]] (two_words 13 1) 1);
    [apply two_words_ok; done|vm_compute; discriminate|lia].
Defined.

Lemma bn_gcd_correct_witness :
  exists g, bn_gcd 50 fresh (two_words 5 7) (from_int fresh 49) = Some (ERR_OK, g) /\ val g = Z.gcd (5 + 7 * 2 ^ 64) 49.
Proof.
  destruct (bn_gcd_correct 50 fresh (two_words 5 7) (from_int fresh 49)) as (g & E & _ & H);
    [apply two_words_ok; done|apply from_int_spec; done|vm_compute; reflexivity|vm_compute; lia|].
  exists g. split; [exact E|]. rewrite H. vm_compute. reflexivity.
Defined.

Definition rsa_key_size (type : crypto_asym_type_t) : option nat :=
  match type with CRYPTO_ASYM_RSA2048 => Some 256%nat | CRYPTO_ASYM_RSA4096 => Some 512%nat | _ => None end.

(** RSA key generation does not end: with candidates of more than 64 significant
    bits, as 1024 or 2048 random bits give, it does not return within any number of
    attempts; only bad arguments are answered. *)
Theorem rsa_keygen_never_ends (fuel : nat) (attempts : list (list Z * list (list Z))) (type : crypto_asym_type_t) (pub_len priv_len : nat)
    (Ha : forall size, rsa_key_size type = Some size -> Forall (fun a => wide_candidate size (fst a)) attempts) :
  crypto_rsa_generate_keypair fuel attempts type (Some pub_len) (Some priv_len) =
    match rsa_key_size type with
    | None => Some (ERR_NOT_SUPPORTED, None)
    | Some size => if (pub_len <? size + 4)%nat || (priv_len <? 3 * size)%nat then Some (ERR_INVALID_ARG, None) else None
    end.
Proof.
  unfold crypto_rsa_generate_keypair, RSA2048_KEY_SIZE, RSA4096_KEY_SIZE.
  destruct type; cbn [rsa_key_size] in *; try done; (destruct (_ || _); [done|]);
    (rewrite find_prime_wide; [reflexivity|reflexivity|by apply Ha]).
Qed.

Lemma rsa_keygen_never_ends_witness :
  crypto_rsa_generate_keypair 100 (repeat (repeat 255 128, []) 3) CRYPTO_ASYM_RSA2048 (Some 260%nat) (Some 768%nat) = None.
Proof.
  rewrite (rsa_keygen_never_ends 100 (repeat (repeat 255 128, []) 3) CRYPTO_ASYM_RSA2048 260 768); [reflexivity|].
  intros size [= <-]. apply Forall_forall. intros a Hin. apply repeat_spec in Hin. subst a. cbn [fst]. split; [|by vm_compute].
  apply Forall_forall. intros x Hx. apply repeat_spec in Hx. subst x. by split.
Defined.
