(* ===== verification/Kdf.v ===== *)
(** * Key derivation and passwords (kernel/crypto/crypto.c, kernel/auth/password_hash.c)

    The hash dispatch, HMAC and PBKDF2 of crypto.c over the hash functions of
    Sha2.v, and the password strings of password_hash.c.  The contents of the memory
    the hash contexts are allocated in are arguments ([fresh]); allocations succeed.

    A C string is the list of its characters without the terminator, so reading past
    the list gives the terminator 0.

    Specification: [hmac] and [pbkdf2_block] are RFC 2104 and RFC 8018 over the
    kernel's SHA-256. *)

From Stdlib Require Import Lia String.
From stdpp Require Import base tactics list numbers option.
From S2P Require Import Prelude Bytes Sha2.
Import Sha256.

(** ** Hash dispatch *)

Inductive crypto_hash_type_t := CRYPTO_HASH_SHA256 | CRYPTO_HASH_SHA512 | CRYPTO_HASH_MD5.

Definition SHA256_HASH_SIZE : nat := 32.
Definition SHA512_HASH_SIZE : nat := 64.

Definition crypto_hash (type : crypto_hash_type_t) (fresh : option (list Z)) (data : option (list Z)) (out : bool) :
    error_code_t * option (list Z) :=
  match data, out with
  | Some data, true =>
      match type with
      | CRYPTO_HASH_SHA256 => sha256_hash fresh (Some data) true
      | CRYPTO_HASH_SHA512 => Sha512.sha512_hash fresh (Some data) true
      | CRYPTO_HASH_MD5 => (ERR_NOT_SUPPORTED, None)
      end
  | _, _ => (ERR_INVALID_ARG, None)
  end.

(** A context pointer does not say which hash it belongs to. *)
Inductive hash_context :=
  | Ctx256 (c : sha256_context_t)
  | Ctx512 (c : Sha512.sha512_context_t).

Definition crypto_hash_init (type : crypto_hash_type_t) (context : bool) (fresh : option (list Z)) : error_code_t * option hash_context :=
  if negb context then (ERR_INVALID_ARG, None)
  else match type with
       | CRYPTO_HASH_SHA256 => let (err, c) := sha256_init true fresh in (err, Ctx256 <$> c)
       | CRYPTO_HASH_SHA512 => let (err, c) := Sha512.sha512_init true fresh in (err, Ctx512 <$> c)
       | CRYPTO_HASH_MD5 => (ERR_NOT_SUPPORTED, None)
       end.

(** [crypto_hash_update] and [crypto_hash_final] always run the SHA-256 code first,
    which succeeds; on a SHA-512 context it works on the wrong layout.  [None] is
    that case. *)
Definition crypto_hash_update (context : option hash_context) (data : option (list Z)) : option (error_code_t * option hash_context) :=
  match context, data with
  | Some (Ctx256 c), Some data => let (err, c) := sha256_update (Some c) (Some data) in Some (err, Ctx256 <$> c)
  | Some (Ctx512 _), Some _ => None
  | _, _ => Some (ERR_INVALID_ARG, context)
  end.

Definition crypto_hash_final (context : option hash_context) (out : bool) : option (error_code_t * option (list Z)) :=
  match context, out with
  | Some (Ctx256 c), true => let '(err, h, _) := sha256_final (Some c) true in Some (err, h)
  | Some (Ctx512 _), true => None
  | _, _ => Some (ERR_INVALID_ARG, None)
  end.

(** ** HMAC *)

(** The zero-filled key block [k] of 128 bytes, and the error of hashing a long key. *)
Definition key_block (type : crypto_hash_type_t) (block_size : nat) (fresh : option (list Z)) (key : list Z) : error_code_t * list Z :=
  if (block_size <? length key)%nat then
    match crypto_hash type fresh (Some key) true with
    | (ERR_OK, Some h) => (ERR_OK, buf_write (repeat 0 128) 0 h)
    | (err, _) => (err, repeat 0 128)
    end
  else (ERR_OK, buf_write (repeat 0 128) 0 key).

Definition pad (block_size : nat) (k : list Z) (c : Z) : list Z := (fun b => Z.lxor b c) <$> take block_size k.

(** The hash of two pieces of data, as each half of [crypto_hmac] computes it; only
    the result of [crypto_hash_init] is checked.  [crypto_hash_free] then gives the
    context to [kfree] twice.  That changes the heap only, which is not part of this
    function: a context in a heap block is refused the second time, one in a slab page
    is counted as free twice. *)
Definition hash_two (type : crypto_hash_type_t) (fresh : option (list Z)) (a b : list Z) : option (error_code_t * option (list Z)) :=
  match crypto_hash_init type true fresh with
  | (ERR_OK, ctx) =>
      r ← crypto_hash_update ctx (Some a);
      r ← crypto_hash_update (snd r) (Some b);
      crypto_hash_final (snd r) true
  | (err, _) => Some (err, None)
  end.

Definition hash_size (type : crypto_hash_type_t) : nat :=
  match type with CRYPTO_HASH_SHA256 => SHA256_HASH_SIZE | _ => SHA512_HASH_SIZE end.

(** [fresh i] is the memory of the i-th context the call allocates, [None] when that
    allocation fails.  The result is the error code and what was written to
    [output], if anything; [None]: the SHA-512 case of [crypto_hash_update]. *)
Definition crypto_hmac (type : crypto_hash_type_t) (fresh : nat -> option (list Z)) (key data : list Z) : option (error_code_t * option (list Z)) :=
  let block_size := match type with CRYPTO_HASH_SHA512 => 128%nat | _ => 64%nat end in
  match key_block type block_size (fresh 0%nat) key with
  | (ERR_OK, k) =>
      inner ← hash_two type (fresh 1%nat) (pad block_size k 0x36) data;
      match inner with
      | (ERR_OK, Some inner_hash) => hash_two type (fresh 2%nat) (pad block_size k 0x5C) (take (hash_size type) inner_hash)
      | (err, _) => Some (err, None)
      end
  | (err, _) => Some (err, None)
  end.

(** ** PBKDF2 *)

(** The salt followed by the block counter, for block [i]. *)
Definition salt_block (salt : list Z) (i : nat) : list Z :=
  let n := Z.of_nat i + 1 in
  salt ++ [u8 (Z.shiftr n 24); u8 (Z.shiftr n 16); u8 (Z.shiftr n 8); u8 n].

(** The buffer [u] after a call of [crypto_hmac] whose result is ignored. *)
Definition hmac_into (r : option (error_code_t * option (list Z))) (u : list Z) : option (list Z) :=
  r ← r; Some (default u (snd r)).

(** [for (j = 1; j < iterations; j++)] with [n] rounds to go; [fresh c] is the memory
    the c-th call of [crypto_hmac] gets. *)
Fixpoint iterate (type : crypto_hash_type_t) (fresh : nat -> nat -> option (list Z)) (password : list Z) (n c : nat) (u t : list Z) :
    option (list Z * list Z) :=
  match n with
  | O => Some (u, t)
  | S n =>
      u ← hmac_into (crypto_hmac type (fresh c) password u) u;
      iterate type fresh password n (S c) u (xor_bytes t u)
  end.

(** [n] blocks of the key from block [i] on, as written to [key].  [None]: a salt
    that overruns the 256 bytes of [salt_block] (the test for it has no effect), or
    the SHA-512 case. *)
Fixpoint derive (type : crypto_hash_type_t) (fresh : nat -> nat -> nat -> option (list Z)) (password salt : list Z) (iterations : Z)
    (key_len : nat) (n i : nat) (u : list Z) : option (list Z) :=
  match n with
  | O => Some []
  | S n =>
      if (256 <? length salt + 4)%nat then None
      else
        u ← hmac_into (crypto_hmac type (fresh i 0%nat) password (salt_block salt i)) u;
        ut ← iterate type (fresh i) password (Z.to_nat (iterations - 1)) 1 u u;
        let copy_len := if ((i + 1) * hash_size type <? key_len)%nat then hash_size type else (key_len - i * hash_size type)%nat in
        rest ← derive type fresh password salt iterations key_len n (S i) (fst ut);
        Some (take copy_len (snd ut) ++ rest)
  end.

(** [u], [t]: the contents of the two working buffers, [None] when [kmalloc] failed. *)
Definition crypto_pbkdf2 (type : crypto_hash_type_t) (u t : option (list Z)) (fresh : nat -> nat -> nat -> option (list Z))
    (password salt : option (list Z)) (iterations : Z) (out : bool) (key_len : nat) : option (error_code_t * list Z) :=
  match password, salt, out with
  | Some password, Some salt, true =>
      match u, t with
      | Some u, Some _ =>
          let blocks := ((key_len + hash_size type - 1) / hash_size type)%nat in
          key ← derive type fresh password salt iterations key_len blocks 0 u;
          Some (ERR_OK, key)
      | _, _ => Some (ERR_OUT_OF_MEMORY, [])
      end
  | _, _, _ => Some (ERR_INVALID_ARG, [])
  end.

(** ** Passwords *)

Definition PASSWORD_HASH_PREFIX : list Z := text "$pbkdf2$".
Definition PASSWORD_ITERATIONS : Z := 10000.
Definition PASSWORD_SALT_LEN : nat := 16.
Definition PASSWORD_HASH_LEN : nat := 32.

Definition hex_chars : list Z := text "0123456789abcdef".
Definition hex_char (v : Z) : Z := nth (Z.to_nat (Z.land v 0xF)) hex_chars 0.

Definition hex_encode (data : list Z) : list Z := data ≫= fun b => [hex_char (Z.shiftr b 4); hex_char b].

Definition hex_val (c : Z) : option Z :=
  if (48 <=? c) && (c <=? 57) then Some (c - 48)
  else if (97 <=? c) && (c <=? 102) then Some (c - 97 + 10)
  else if (65 <=? c) && (c <=? 70) then Some (c - 65 + 10)
  else None.

(** A character of a string; the terminator behind its end. *)
Definition char_at (s : list Z) (i : nat) : Z := nth i s 0.

Fixpoint hex_decode (hex : list Z) (len : nat) : option (list Z) :=
  match len with
  | O => Some []
  | S len =>
      v1 ← hex_val (char_at hex 0);
      v2 ← hex_val (char_at hex 1);
      rest ← hex_decode (drop 2 hex) len;
      Some (u8 (Z.lor (Z.shiftl v1 4) v2) :: rest)
  end.

(** The digits the loop [while (iter > 0)] stores, the lowest first. *)
Fixpoint digits (fuel : nat) (iter : Z) : list Z :=
  match fuel with
  | O => []
  | S fuel => if 0 <? iter then (48 + iter mod 10) :: digits fuel (iter / 10) else []
  end.

(** [memory] is what PBKDF2's buffers hold; [salt] the random bytes.  The result is
    the string stored at [hash_output], [Some None] when nothing is stored. *)
Record kdf_memory := { mem_u : option (list Z); mem_t : option (list Z); mem_ctx : nat -> nat -> nat -> option (list Z) }.

Definition password_hash (memory : kdf_memory) (salt : list Z) (password : option (list Z)) (out : bool) : option (option (list Z)) :=
  match password, out with
  | Some password, true =>
      r ← crypto_pbkdf2 CRYPTO_HASH_SHA256 (mem_u memory) (mem_t memory) (mem_ctx memory) (Some password) (Some salt) PASSWORD_ITERATIONS true PASSWORD_HASH_LEN;
      Some (Some (match r with
                  | (ERR_OK, hash) =>
                      PASSWORD_HASH_PREFIX ++ rev (digits 16 PASSWORD_ITERATIONS) ++ text "$" ++
                      hex_encode salt ++ text "$" ++ hex_encode hash
                  | _ => []
                  end))
  | _, _ => Some None
  end.

(** The loop that reads the iteration count: the number and the rest of the string. *)
Fixpoint parse_number (p : list Z) (n : Z) : Z * list Z :=
  match p with
  | c :: p' => if (48 <=? c) && (c <=? 57) then parse_number p' (u32 (u32 (n * 10) + (c - 48))) else (n, p)
  | [] => (n, [])
  end.

Definition starts_with (prefix s : list Z) : bool := bool_decide (take (length prefix) s = prefix).

Definition password_verify (memory : kdf_memory) (password hash : option (list Z)) : option bool :=
  match password, hash with
  | Some password, Some hash =>
      if negb (starts_with PASSWORD_HASH_PREFIX hash) then Some (bool_decide (password = hash))
      else
        let (iterations, p) := parse_number (drop (length PASSWORD_HASH_PREFIX) hash) 0 in
        if negb (char_at p 0 =? 36) || (iterations =? 0) then Some false
        else
          let p := drop 1 p in
          match hex_decode p PASSWORD_SALT_LEN with
          | None => Some false
          | Some salt =>
              let p := drop (PASSWORD_SALT_LEN * 2) p in
              if negb (char_at p 0 =? 36) then Some false
              else match hex_decode (drop 1 p) PASSWORD_HASH_LEN with
                   | None => Some false
                   | Some expected_hash =>
                       r ← crypto_pbkdf2 CRYPTO_HASH_SHA256 (mem_u memory) (mem_t memory) (mem_ctx memory) (Some password) (Some salt) iterations true PASSWORD_HASH_LEN;
                       Some (match r with
                             | (ERR_OK, computed_hash) => bool_decide (computed_hash = expected_hash)
                             | _ => false
                             end)
                   end
          end
  | _, _ => Some false
  end.

(** ** Specification *)

(** RFC 2104 for a hash function with 64-byte blocks. *)
Definition hmac_key (H : list Z -> list Z) (key : list Z) : list Z :=
  let key := if (64 <? length key)%nat then H key else key in key ++ repeat 0 (64 - length key).
Definition hmac (H : list Z -> list Z) (key data : list Z) : list Z :=
  let k := hmac_key H key in
  H (((fun b => Z.lxor b 0x5C) <$> k) ++ H (((fun b => Z.lxor b 0x36) <$> k) ++ data)).

(** RFC 8018 for a pseudo-random function with outputs of [h] bytes. *)
Definition pbkdf2_block (prf : list Z -> list Z -> list Z) (password salt : list Z) (iterations i : nat) : list Z :=
  let U j := Nat.iter j (prf password) (prf password (salt ++ be_bytes 4 (Z.of_nat i))) in
  fold_left xor_bytes (U <$> seq 1 (iterations - 1)) (U 0%nat).
Definition pbkdf2 (prf : list Z -> list Z -> list Z) (h : nat) (password salt : list Z) (iterations key_len : nat) : list Z :=
  take key_len (concat (pbkdf2_block prf password salt iterations <$> seq 1 ((key_len + h - 1) / h))).

(** Every context is allocated, whatever its memory holds. *)
Definition contexts (fresh : nat -> option (list Z)) : Prop := forall i, exists l, fresh i = Some l /\ length l = 64%nat.
Definition memory_ok (memory : kdf_memory) : Prop :=
  is_Some (mem_u memory) /\ is_Some (mem_t memory) /\ forall i c, contexts (mem_ctx memory i c).

(** ** Lemmas *)

Lemma md256_length m : length (md256 m) = 32%nat.
Proof.
  unfold md256, md. destruct (blocks _ _ _ _ _) as [[[[[[[? ?] ?] ?] ?] ?] ?] ?]. reflexivity.
Qed.

Lemma md256_bytes m : bytes (md256 m).
Proof.
  unfold md256, md. destruct (blocks _ _ _ _ _) as [[[[[[[? ?] ?] ?] ?] ?] ?] ?].
  unfold bytes. cbn. repeat constructor; apply wrap_fits; lia.
Qed.

#[local] Opaque md256.

(** Two pieces through init, update and final hash to the digest of their
    concatenation. *)
Lemma hash_two_ok fresh a b :
  length fresh = 64%nat -> hash_two CRYPTO_HASH_SHA256 (Some fresh) a b = Some (ERR_OK, Some (md256 (a ++ b))).
Proof.
  intros Hf. destruct (init_ok fresh Hf) as (ctx & Hi & Hok). unfold hash_two, crypto_hash_init. cbn [negb].
  rewrite Hi. cbn [fmap option_fmap option_map].
  destruct (updates_ok [a] [] ctx Hok) as (c1 & E1 & H1). destruct (updates_ok [b] _ c1 H1) as (c2 & E2 & H2).
  unfold crypto_hash_update. unfold updates in E1, E2. cbn [fold_left] in E1, E2.
  destruct (sha256_update (Some ctx) (Some a)) as [e1 x1]. cbn [snd] in E1. subst x1. cbn [mbind option_bind fmap option_fmap option_map snd].
  destruct (sha256_update (Some c1) (Some b)) as [e2 x2]. cbn [snd] in E2. subst x2. cbn [mbind option_bind fmap option_fmap option_map snd].
  destruct (final_hash _ _ H2) as (c3 & E3). unfold crypto_hash_final. rewrite E3. cbn [concat]. by rewrite !app_nil_r.
Qed.

Lemma hash_ok fresh m : length fresh = 64%nat -> crypto_hash CRYPTO_HASH_SHA256 (Some fresh) (Some m) true = (ERR_OK, Some (md256 m)).
Proof.
  intros Hf. unfold crypto_hash, sha256_hash. destruct (init_ok fresh Hf) as (ctx & -> & Hok).
  destruct (updates_ok [m] [] ctx Hok) as (c1 & E1 & H1). unfold updates in E1. cbn [fold_left] in E1.
  destruct (sha256_update (Some ctx) (Some m)) as [e1 x1] eqn:E. cbn [snd] in E1. subst x1.
  assert (e1 = ERR_OK) as -> by (unfold sha256_update in E; congruence).
  destruct (final_hash _ _ H1) as (c3 & ->). cbn. by rewrite app_nil_r.
Qed.

Lemma key_block_ok fresh key :
  length fresh = 64%nat -> exists k, key_block CRYPTO_HASH_SHA256 64 (Some fresh) key = (ERR_OK, k) /\ take 64 k = hmac_key md256 key.
Proof.
  intros Hf. unfold key_block, hmac_key. rewrite (hash_ok fresh key Hf).
  assert (Hb : forall l, (length l <= 64)%nat -> take 64 (buf_write (repeat 0 128) 0 l) = l ++ repeat 0 (64 - length l)).
  { intros l Hl. unfold buf_write. rewrite take_0, app_nil_l, Nat.add_0_l. rewrite take_app_ge by lia. f_equal.
    rewrite drop_repeat. replace (128 - length l)%nat with ((64 - length l) + 64)%nat by lia.
    rewrite repeat_app. apply take_app_length'. by rewrite repeat_length. }
  destruct (Nat.ltb_spec 64 (length key)); eexists; (split; [reflexivity|]); apply Hb; [rewrite md256_length|]; lia.
Qed.

Lemma crypto_hmac_ok fresh key data :
  contexts fresh -> crypto_hmac CRYPTO_HASH_SHA256 fresh key data = Some (ERR_OK, Some (hmac md256 key data)).
Proof.
  intros Hf. unfold crypto_hmac. destruct (Hf 0%nat) as (f0 & -> & H0), (Hf 1%nat) as (f1 & -> & H1), (Hf 2%nat) as (f2 & -> & H2).
  destruct (key_block_ok f0 key H0) as (k & -> & Hk). unfold pad. rewrite Hk, hash_two_ok by done.
  change (hash_size CRYPTO_HASH_SHA256) with 32%nat. cbn [mbind option_bind].
  rewrite take_ge by (rewrite md256_length; lia). by rewrite hash_two_ok.
Qed.

Lemma hmac_length key data : length (hmac md256 key data) = 32%nat.
Proof. apply md256_length. Qed.

Lemma hmac_bytes key data : bytes (hmac md256 key data).
Proof. apply md256_bytes. Qed.

#[local] Opaque hmac.

Lemma fold_left_xor_length ls : forall t, length t = 32%nat -> Forall (fun l => length l = 32%nat) ls -> length (fold_left xor_bytes ls t) = 32%nat.
Proof.
  induction ls as [|l ls IH]; intros t Ht H; [done|]. apply Forall_cons_1 in H as [Hl H]. cbn. apply IH; [|done].
  rewrite xor_bytes_length, Ht, Hl. reflexivity.
Qed.

Lemma fold_left_xor_bytes ls : forall t, bytes t -> Forall bytes ls -> bytes (fold_left xor_bytes ls t).
Proof.
  induction ls as [|l ls IH]; intros t Ht H; [done|]. apply Forall_cons_1 in H as [Hl H]. cbn. by apply IH; [apply xor_bytes_ok|].
Qed.

Lemma iterate_ok fresh password n : forall c u t,
  (forall i, contexts (fresh i)) ->
  iterate CRYPTO_HASH_SHA256 fresh password n c u t =
    Some (Nat.iter n (hmac md256 password) u, fold_left xor_bytes ((fun j => Nat.iter j (hmac md256 password) u) <$> seq 1 n) t).
Proof.
  induction n as [|n IH]; intros c u t Hf; [done|]. cbn [iterate]. rewrite crypto_hmac_ok by done.
  cbn [hmac_into mbind option_bind snd default from_option id]. rewrite IH by done. f_equal. f_equal.
  - by rewrite Nat.iter_succ_r.
  - cbn [seq fmap list_fmap fold_left]. f_equal. rewrite <- (fmap_S_seq 1 n), <- list_fmap_compose.
    apply list_fmap_ext. intros i x _. cbn [compose]. by rewrite Nat.iter_succ_r.
Qed.

Lemma salt_block_be salt i : salt_block salt i = salt ++ be_bytes 4 (Z.of_nat (S i)).
Proof.
  unfold salt_block, be_bytes. cbn [seq fmap list_fmap rev app]. replace (Z.of_nat (S i)) with (Z.of_nat i + 1) by lia.
  simpl. by rewrite Z.shiftr_0_r.
Qed.

Definition prf256 : list Z -> list Z -> list Z := hmac md256.

Lemma block_length password salt iterations i : length (pbkdf2_block prf256 password salt iterations i) = 32%nat.
Proof.
  unfold pbkdf2_block. assert (Hn : forall j u, length u = 32%nat -> length (Nat.iter j (prf256 password) u) = 32%nat).
  { intros j u Hu. destruct j; [done|]. apply hmac_length. }
  apply fold_left_xor_length; [apply hmac_length|]. apply Forall_fmap, Forall_true. intros j. apply Hn, hmac_length.
Qed.

Lemma block_bytes password salt iterations i : bytes (pbkdf2_block prf256 password salt iterations i).
Proof.
  unfold pbkdf2_block. apply fold_left_xor_bytes; [apply hmac_bytes|]. apply Forall_fmap, Forall_true.
  intros [|j]; apply hmac_bytes.
Qed.

Lemma derive_ok fresh password salt iterations key_len n : forall i u,
  (forall i c, contexts (fresh i c)) -> (length salt <= 252)%nat ->
  derive CRYPTO_HASH_SHA256 fresh password salt iterations key_len n i u =
    Some (take (key_len - 32 * i) (concat (pbkdf2_block prf256 password salt (Z.to_nat iterations) <$> seq (S i) n))).
Proof.
  induction n as [|n IH]; intros i u Hf Hs; [cbn; by rewrite take_nil|]. cbn [derive].
  destruct (Nat.ltb_spec 256 (length salt + 4)); [lia|]. rewrite crypto_hmac_ok by done.
  cbn [hmac_into mbind option_bind snd default from_option id]. rewrite iterate_ok by done.
  cbn [mbind option_bind fst snd]. rewrite IH by done. cbn [mbind option_bind seq fmap list_fmap concat]. f_equal.
  rewrite salt_block_be.
  replace (fold_left _ _ _) with (pbkdf2_block prf256 password salt (Z.to_nat iterations) (S i))
    by (unfold pbkdf2_block; do 3 f_equal; lia).
  pose proof (block_length password salt (Z.to_nat iterations) (S i)) as Hl.
  change (hash_size CRYPTO_HASH_SHA256) with 32%nat.
  destruct (Nat.ltb_spec ((i + 1) * 32) key_len).
  - rewrite (take_ge (pbkdf2_block _ _ _ _ _)) by lia. rewrite take_app_ge by lia. do 2 f_equal. lia.
  - rewrite take_app_le by lia. replace (key_len - 32 * S i)%nat with 0%nat by lia. rewrite take_0, app_nil_r. f_equal. lia.
Qed.

Lemma crypto_pbkdf2_ok memory password salt iterations key_len :
  memory_ok memory -> (length salt <= 252)%nat ->
  crypto_pbkdf2 CRYPTO_HASH_SHA256 (mem_u memory) (mem_t memory) (mem_ctx memory) (Some password) (Some salt) iterations true key_len =
    Some (ERR_OK, pbkdf2 prf256 32 password salt (Z.to_nat iterations) key_len).
Proof.
  intros ((u & ->) & (t & ->) & Hc) Hs. unfold crypto_pbkdf2. rewrite derive_ok by done. cbn [mbind option_bind].
  unfold pbkdf2. do 3 f_equal. lia.
Qed.

Lemma crypto_pbkdf2_overrun memory password salt iterations key_len :
  memory_ok memory -> (252 < length salt)%nat -> (0 < key_len)%nat ->
  crypto_pbkdf2 CRYPTO_HASH_SHA256 (mem_u memory) (mem_t memory) (mem_ctx memory) (Some password) (Some salt) iterations true key_len = None.
Proof.
  intros ((u & ->) & (t & ->) & _) Hs Hk. unfold crypto_pbkdf2. change (hash_size CRYPTO_HASH_SHA256) with 32%nat.
  destruct ((key_len + 32 - 1) / 32)%nat eqn:E; [apply Nat.div_small_iff in E; lia|]. cbn [derive].
  destruct (Nat.ltb_spec 256 (length salt + 4)); [done|lia].
Qed.

Lemma pbkdf2_32 password salt iterations :
  pbkdf2 prf256 32 password salt iterations 32 = pbkdf2_block prf256 password salt iterations 1.
Proof.
  unfold pbkdf2. change ((32 + 32 - 1) / 32)%nat with 1%nat. cbn [seq fmap list_fmap concat]. rewrite app_nil_r.
  apply take_ge. rewrite block_length. lia.
Qed.

#[local] Opaque pbkdf2_block crypto_pbkdf2.

Lemma nibble_roundtrip : forall v, 0 <= v < 16 -> hex_val (hex_char v) = Some v.
Proof.
  intros v Hv. assert (Hc : v = 0 \/ v = 1 \/ v = 2 \/ v = 3 \/ v = 4 \/ v = 5 \/ v = 6 \/ v = 7 \/ v = 8 \/ v = 9 \/ v = 10 \/
    v = 11 \/ v = 12 \/ v = 13 \/ v = 14 \/ v = 15) by lia. by repeat (destruct Hc as [->|Hc]; [done|]); subst v.
Qed.

Lemma hex_char_low b : hex_char b = hex_char (b mod 16).
Proof. unfold hex_char. change 15 with (Z.ones 4). rewrite !Z.land_ones by lia. change (2 ^ 4) with 16. by rewrite Zmod_mod. Qed.

Lemma hex_byte b : fits 8 b ->
  (v1 ← hex_val (hex_char (Z.shiftr b 4)); v2 ← hex_val (hex_char b); Some (u8 (Z.lor (Z.shiftl v1 4) v2))) = Some b.
Proof.
  unfold fits. change (2 ^ 8) with 256. intros Hb. rewrite (hex_char_low b). rewrite Z.shiftr_div_pow2 by lia. change (2 ^ 4) with 16.
  pose proof (Z.div_mod b 16 ltac:(lia)). pose proof (Z.mod_pos_bound b 16 ltac:(lia)).
  rewrite !nibble_roundtrip by lia. cbn [mbind option_bind]. f_equal.
  rewrite Z.shiftl_mul_pow2 by lia. rewrite lor_low by (change (2 ^ 4) with 16; lia).
  unfold wrap. change (2 ^ 4) with 16. change (2 ^ 8) with 256. rewrite Z.mod_small; lia.
Qed.

(** Decoding what [hex_encode] wrote, whatever follows it. *)
Lemma hex_roundtrip data rest : bytes data -> hex_decode (hex_encode data ++ rest) (length data) = Some data.
Proof.
  intros Hd. induction Hd as [|b data Hb Hd IH]; [done|]. pose proof (hex_byte b Hb) as Hx.
  change (hex_encode (b :: data) ++ rest) with (hex_char (Z.shiftr b 4) :: hex_char b :: (hex_encode data ++ rest)).
  cbn [hex_decode length skipn]. unfold char_at. cbn [nth].
  rewrite drop_0, IH.
  destruct (hex_val (hex_char (Z.shiftr b 4))); [|done]. cbn [mbind option_bind] in *.
  destruct (hex_val (hex_char b)); [|done]. cbn [mbind option_bind] in *. by simplify_eq.
Qed.

Lemma hex_encode_length data : length (hex_encode data) = (2 * length data)%nat.
Proof. induction data as [|b data IH]; [done|]. unfold hex_encode in *. cbn in *. rewrite IH. lia. Qed.

(** The string [password_hash] stores. *)
Definition hash_string (salt hash : list Z) : list Z :=
  text "$pbkdf2$10000$" ++ hex_encode salt ++ text "$" ++ hex_encode hash.

Lemma password_hash_ok memory salt password :
  memory_ok memory -> length salt = 16%nat ->
  password_hash memory salt (Some password) true =
    Some (Some (hash_string salt (pbkdf2_block prf256 password salt (Z.to_nat PASSWORD_ITERATIONS) 1))).
Proof.
  intros Hm Hs. unfold password_hash. rewrite crypto_pbkdf2_ok by (done || lia). cbn [mbind option_bind].
  change PASSWORD_HASH_LEN with 32%nat. rewrite pbkdf2_32. done.
Qed.

(** What [password_verify] does with a stored string that has been cut after [n]
    characters of its hash. *)
Lemma verify_string memory salt tail password :
  memory_ok memory -> length salt = 16%nat -> bytes salt ->
  password_verify memory (Some password) (Some (text "$pbkdf2$10000$" ++ hex_encode salt ++ text "$" ++ tail)) =
    Some (match hex_decode tail PASSWORD_HASH_LEN with
          | None => false
          | Some h => bool_decide (pbkdf2_block prf256 password salt (Z.to_nat PASSWORD_ITERATIONS) 1 = h)
          end).
Proof.
  intros Hm Hs Hb. unfold password_verify.
  set (body := hex_encode salt ++ text "$" ++ tail).
  change (starts_with PASSWORD_HASH_PREFIX (text "$pbkdf2$10000$" ++ body)) with true.
  change (parse_number (drop (length PASSWORD_HASH_PREFIX) (text "$pbkdf2$10000$" ++ body)) 0) with (PASSWORD_ITERATIONS, text "$" ++ body).
  cbv beta iota zeta delta [negb].
  change (char_at (text "$" ++ body) 0 =? 36) with true. change (PASSWORD_ITERATIONS =? 0) with false.
  change (drop 1 (text "$" ++ body)) with body. cbn [negb orb]. unfold body.
  assert (Hd : hex_decode (hex_encode salt ++ text "$" ++ tail) PASSWORD_SALT_LEN = Some salt).
  { change PASSWORD_SALT_LEN with 16%nat. rewrite <- Hs. by apply hex_roundtrip. }
  rewrite Hd. rewrite drop_app_length' by (rewrite hex_encode_length, Hs; reflexivity).
  change (char_at (text "$" ++ tail) 0 =? 36) with true. change (drop 1 (text "$" ++ tail)) with tail. cbn [negb].
  destruct (hex_decode tail PASSWORD_HASH_LEN); [|done]. rewrite crypto_pbkdf2_ok by (done || lia).
  change PASSWORD_HASH_LEN with 32%nat. by rewrite pbkdf2_32.
Qed.

(** A string that ends too early does not decode. *)
Lemma hex_decode_short n : forall l, (length l < 2 * n)%nat -> hex_decode l n = None.
Proof.
  induction n as [|n IH]; intros l Hl; [lia|]. destruct l as [|a [|b l]]; [done| |].
  - change (hex_decode [a] (S n)) with (v1 ← hex_val a; None : option (list Z)). by destruct (hex_val a).
  - cbn [hex_decode skipn]. rewrite drop_0, IH by (cbn in Hl; lia).
    destruct (hex_val (char_at (a :: b :: l) 0)); [|reflexivity]. by destruct (hex_val (char_at (a :: b :: l) 1)).
Qed.

(** ** Properties *)

(** C21. [crypto_pbkdf2] with SHA-256 is the PBKDF2 of RFC 8018 over the HMAC of
    RFC 2104 (over the kernel's SHA-256), for every password, salt of at most 252
    bytes, iteration count and key length, whatever the allocated memory held; HMAC
    itself is exact for every key and message; and with a longer salt the block is
    written past the end of its 256-byte buffer. *)
Theorem pbkdf2_correct (memory : kdf_memory) (password salt : list Z) (iterations : Z) (key_len : nat) (Hm : memory_ok memory) :
  let run := crypto_pbkdf2 CRYPTO_HASH_SHA256 (mem_u memory) (mem_t memory) (mem_ctx memory) (Some password) (Some salt) iterations true key_len in
  (forall i c key data, crypto_hmac CRYPTO_HASH_SHA256 (mem_ctx memory i c) key data = Some (ERR_OK, Some (hmac md256 key data))) /\
  ((length salt <= 252)%nat -> run = Some (ERR_OK, pbkdf2 (hmac md256) 32 password salt (Z.to_nat iterations) key_len)) /\
  ((252 < length salt)%nat -> (0 < key_len)%nat -> run = None).
Proof.
  intros run. split; [intros; apply crypto_hmac_ok, Hm|]. split; [by apply crypto_pbkdf2_ok|].
  intros Hs Hk. by apply crypto_pbkdf2_overrun.
Qed.

Definition demo_kdf : kdf_memory :=
  {| mem_u := Some (repeat 0xAA 32); mem_t := Some (repeat 0x55 32); mem_ctx := fun _ _ _ => Some (repeat 0xCC 64) |}.

Lemma demo_kdf_ok : memory_ok demo_kdf.
Proof. split; [by eexists|]. split; [by eexists|]. intros i c j. by eexists. Qed.

Lemma pbkdf2_correct_witness :
  crypto_pbkdf2 CRYPTO_HASH_SHA256 (mem_u demo_kdf) (mem_t demo_kdf) (mem_ctx demo_kdf) (Some (text "password")) (Some (text "salt")) 2 true 40 =
    Some (ERR_OK, pbkdf2 (hmac md256) 32 (text "password") (text "salt") 2 40).
Proof. apply (pbkdf2_correct demo_kdf (text "password") (text "salt") 2 40 demo_kdf_ok). vm_compute. lia. Defined.

(** C28. A password string made by [password_hash] is accepted by [password_verify]
    for exactly the passwords whose derived key is the stored one, in particular for
    the password it was made from, for every salt and whatever memory the two calls
    were given.  The string has 111 characters. *)
Theorem password_roundtrip (m1 m2 : kdf_memory) (salt password : list Z)
    (H1 : memory_ok m1) (H2 : memory_ok m2) (Hs : length salt = 16%nat) (Hb : bytes salt) :
  exists h, password_hash m1 salt (Some password) true = Some (Some h) /\ length h = 111%nat /\
    password_verify m2 (Some password) (Some h) = Some true /\
    forall other, password_verify m2 (Some other) (Some h) =
      Some (bool_decide (pbkdf2 (hmac md256) 32 other salt (Z.to_nat 10000) 32 = pbkdf2 (hmac md256) 32 password salt (Z.to_nat 10000) 32)).
Proof.
  pose proof (block_length password salt (Z.to_nat PASSWORD_ITERATIONS) 1) as Hl.
  eexists. split; [by apply password_hash_ok|].
  assert (Hv : forall other, password_verify m2 (Some other) (Some (hash_string salt (pbkdf2_block prf256 password salt (Z.to_nat PASSWORD_ITERATIONS) 1))) =
    Some (bool_decide (pbkdf2_block prf256 other salt (Z.to_nat PASSWORD_ITERATIONS) 1 = pbkdf2_block prf256 password salt (Z.to_nat PASSWORD_ITERATIONS) 1))).
  { intros other. unfold hash_string. rewrite verify_string by done. change PASSWORD_HASH_LEN with 32%nat.
    set (h := pbkdf2_block prf256 password salt _ 1) in *. assert (Hd : hex_decode (hex_encode h) 32 = Some h).
    { rewrite <- Hl, <- (app_nil_r (hex_encode h)). apply hex_roundtrip, block_bytes. }
    rewrite Hd. reflexivity. }
  split; [|split].
  - unfold hash_string. rewrite !length_app, !hex_encode_length, Hs, Hl. reflexivity.
  - rewrite Hv. by rewrite bool_decide_true.
  - intros other. rewrite Hv. fold prf256. by rewrite !pbkdf2_32.
Qed.

Lemma password_roundtrip_witness :
  exists h, password_hash demo_kdf (repeat 7 16) (Some (text "secret")) true = Some (Some h) /\
    password_verify demo_kdf (Some (text "secret")) (Some h) = Some true.
Proof.
  destruct (password_roundtrip demo_kdf demo_kdf (repeat 7 16) (text "secret") demo_kdf_ok demo_kdf_ok eq_refl) as (h & Hh & _ & Hv & _).
  - repeat (apply Forall_cons_2; [by split|]). apply Forall_nil_2.
  - exists h. by split.
Defined.
