(* ===== verification/Passwd.v ===== *)
(** * The user and group files (kernel/auth/user_persistence.c, kernel/auth/user.h)

    [user_save_to_disk], [user_load_from_disk], [group_save_to_disk] and
    [group_load_from_disk], with [strtoul] and its helpers from kernel/core/stdio.c.

    A C string is the list of its characters without the terminator.  The tables
    [users] and [groups] are lists whose length is [user_count] and [group_count].
    The file system is seen through the results of its calls: a save returns the
    bytes written to the file, a load is given the bytes read before the end of the
    file or an error.  A successful [vfs_write] writes the whole line. *)

From Stdlib Require Import Lia String.
From stdpp Require Import base tactics relations sets list numbers option.
From S2P Require Import Prelude Bytes Sha2 Kdf.

(** ** Numbers (stdio.c) *)

Fixpoint skip_whitespace (str : list Z) : list Z :=
  match str with
  | c :: str' => if (c =? 32) || (c =? 9) || (c =? 10) || (c =? 13) then skip_whitespace str' else str
  | [] => []
  end.

(** The value of a digit, [None] where the loop breaks. *)
Definition digit_value (c base : Z) : option Z :=
  let d :=
    if (48 <=? c) && (c <=? 57) then Some (c - 48)
    else if (97 <=? c) && (c <=? 122) && (10 <? base) then Some (c - 97 + 10)
    else if (65 <=? c) && (c <=? 90) && (10 <? base) then Some (c - 65 + 10)
    else None in
  match d with Some d => if base <=? d then None else Some d | None => None end.

Fixpoint uint_loop (base value : Z) (str : list Z) : Z * list Z :=
  match str with
  | c :: str' => match digit_value c base with
                 | Some d => uint_loop base (u64 (value * base + d)) str'
                 | None => (value, str)
                 end
  | [] => (value, [])
  end.

Definition parse_uint (str : list Z) (base : Z) : Z * list Z := uint_loop base 0 (skip_whitespace str).

(** The value, and the suffix [endptr] is set to. *)
Definition strtoul (nptr : option (list Z)) (base : Z) : Z * option (list Z) :=
  match nptr with
  | None => (0, None)
  | Some s => let (v, rest) := parse_uint s base in (v, Some rest)
  end.

(** ** The databases *)

Definition MAX_USERNAME_LEN : nat := 32.
Definition MAX_GROUPNAME_LEN : nat := 32.
Definition MAX_PASSWORD_HASH_LEN : nat := 64.
Definition MAX_USERS : nat := 256.
Definition MAX_GROUPS : nat := 64.

Record user_t := { uid : Z; gid : Z; username : list Z; pw_hash : list Z; active : bool }.
Record group_t := { g_gid : Z; groupname : list Z; members : list Z }.

Record auth_state := { users : list user_t; groups : list group_t; next_uid : Z; next_gid : Z }.

Definition uint_to_str (val : Z) : list Z := if val =? 0 then text "0" else rev (digits 15 val).

(** [strncpy] of [n - 1] characters and a terminator. *)
Definition strncpy_field (n : nat) (s : list Z) : list Z := take (n - 1) s.

(** ** Saving *)

(** The error with which the file cannot be opened, [ERR_OK] when it is open: the
    results of [vfs_open], of [vfs_mkdir] and of the second [vfs_open]. *)
Record open_results := { first_open : error_code_t; mkdir_etc : error_code_t; second_open : error_code_t }.

Definition open_for_save (r : open_results) : error_code_t :=
  match first_open r with
  | ERR_OK => ERR_OK
  | _ => match mkdir_etc r with
         | ERR_OK | ERR_ALREADY_EXISTS => second_open r
         | err => err
         end
  end.

Definition user_line (u : user_t) : list Z :=
  username u ++ text ":" ++ pw_hash u ++ text ":" ++ uint_to_str (uid u) ++ text ":" ++ uint_to_str (gid u) ++
  text "::" ++ text "/home" ++ text "/" ++ username u ++ text ":/bin/sh" ++ [10].

(** Lines written one by one; [write i] is the result of the i-th [vfs_write]. *)
Fixpoint write_lines (write : nat -> error_code_t) (i : nat) (ls : list (list Z)) : error_code_t * list Z :=
  match ls with
  | [] => (ERR_OK, [])
  | l :: ls => match write i with
               | ERR_OK => let (err, rest) := write_lines write (S i) ls in (err, l ++ rest)
               | err => (err, [])
               end
  end.

(** The result, and the contents of the file if it was opened. *)
Definition user_save_to_disk (opens : open_results) (write : nat -> error_code_t) (st : auth_state) : error_code_t * option (list Z) :=
  match open_for_save opens with
  | ERR_OK => let (err, file) := write_lines write 0 (user_line <$> filter (fun u => active u = true) (users st)) in (err, Some file)
  | err => (err, None)
  end.

(** The member list as the loop builds it in a buffer of 256 bytes. *)
Fixpoint member_list (first : bool) (ms : list Z) : list Z :=
  match ms with
  | [] => []
  | m :: ms => (if first then [] else text ",") ++ uint_to_str m ++ member_list false ms
  end.

Definition group_line (g : group_t) : list Z :=
  groupname g ++ text ":x:" ++ uint_to_str (g_gid g) ++ text ":" ++ member_list true (members g) ++ [10].

(** The loop over the groups: [i] is the index, [w] the number of writes so far.  A group
    other than the first whose id is 0 counts as deleted.  [None]: a member list overruns
    its buffer. *)
Fixpoint write_groups (write : nat -> error_code_t) (w i : nat) (gs : list group_t) : option (error_code_t * list Z) :=
  match gs with
  | [] => Some (ERR_OK, [])
  | g :: gs =>
      if (g_gid g =? 0) && (0 <? i)%nat then write_groups write w (S i) gs
      else if (256 <=? length (member_list true (members g)))%nat then None
      else match write w with
           | ERR_OK => match write_groups write (S w) (S i) gs with
                       | Some (err, rest) => Some (err, group_line g ++ rest)
                       | None => None
                       end
           | err => Some (err, [])
           end
  end.

Definition group_save_to_disk (opens : open_results) (write : nat -> error_code_t) (st : auth_state) : option (error_code_t * option (list Z)) :=
  match open_for_save opens with
  | ERR_OK => match write_groups write 0 0 (groups st) with
              | Some (err, file) => Some (err, Some file)
              | None => None
              end
  | err => Some (err, None)
  end.

(** ** Loading *)

(** The characters before the first [c], and those behind it if there is one
    ([strchr], with the separator overwritten by a terminator). *)
Fixpoint cut (c : Z) (s : list Z) : list Z * option (list Z) :=
  match s with
  | [] => ([], None)
  | x :: s => if x =? c then ([], Some s) else let (a, b) := cut c s in (x :: a, b)
  end.

Fixpoint split_fields (n : nat) (token : list Z) : list (list Z) :=
  match n with
  | O => []
  | S n => let (field, rest) := cut 58 token in
           field :: match rest with Some token => split_fields n token | None => [] end
  end.

(** The loop over the characters of the file; [line] is what has been collected, and
    [handle] what a finished line does.  A line is also finished, and a character
    lost, when the buffer of 512 bytes is full.  The string in the buffer ends at its
    first NUL. *)
Fixpoint load_lines (handle : auth_state -> list Z -> auth_state) (file line : list Z) (st : auth_state) : auth_state :=
  match file with
  | [] => st
  | c :: file =>
      if (c =? 10) || (511 <=? length line)%nat
      then load_lines handle file [] (if (0 <? length line)%nat then handle st (fst (cut 0 line)) else st)
      else load_lines handle file (line ++ [c]) st
  end.

Definition strtoul32 (s : list Z) : Z := u32 (fst (strtoul (Some s) 10)).

Definition load_user (st : auth_state) (line : list Z) : auth_state :=
  match split_fields 7 line with
  | f0 :: f1 :: f2 :: f3 :: _ =>
      let uid := strtoul32 f2 in
      let gid := strtoul32 f3 in
      if (length (users st) <? MAX_USERS)%nat then
        {| users := users st ++ [{| uid := uid; gid := gid; username := strncpy_field MAX_USERNAME_LEN f0;
                                    pw_hash := strncpy_field MAX_PASSWORD_HASH_LEN f1; active := true |}];
           groups := groups st;
           next_uid := if next_uid st <=? uid then u32 (uid + 1) else next_uid st;
           next_gid := if next_gid st <=? gid then u32 (gid + 1) else next_gid st |}
      else st
  | _ => st
  end.

(** [file]: what is read, [None] when [vfs_open] fails. *)
Definition user_load_from_disk (file : option (list Z)) (st : auth_state) : error_code_t * auth_state :=
  match file with
  | None => (ERR_OK, st)
  | Some file => (ERR_OK, load_lines load_user file [] st)
  end.

(** [while (member_token && member_count < 32)], [n] slots to go. *)
Fixpoint load_members (n : nat) (token : list Z) : list Z :=
  match n with
  | O => []
  | S n => let (m, rest) := cut 44 token in
           strtoul32 m :: match rest with Some token => load_members n token | None => [] end
  end.

Definition load_group (st : auth_state) (line : list Z) : auth_state :=
  match split_fields 4 line with
  | f0 :: _ :: f2 :: fs =>
      let gid := strtoul32 f2 in
      if (length (groups st) <? MAX_GROUPS)%nat then
        {| users := users st;
           groups := groups st ++ [{| g_gid := gid; groupname := strncpy_field MAX_GROUPNAME_LEN f0;
                                      members := match fs with f3 :: _ => if (0 <? length f3)%nat then load_members 32 f3 else [] | [] => [] end |}];
           next_uid := next_uid st;
           next_gid := if next_gid st <=? gid then u32 (gid + 1) else next_gid st |}
      else st
  | _ => st
  end.

Definition group_load_from_disk (file : option (list Z)) (st : auth_state) : error_code_t * auth_state :=
  match file with
  | None => (ERR_OK, st)
  | Some file => (ERR_OK, load_lines load_group file [] st)
  end.

(** ** Current user (user.c) *)

(** The ids of the current process, [None] when there is none. *)
Record process_ids := { p_uid : Z; p_gid : Z }.
Definition ROOT_UID : Z := 0.
Definition ROOT_GID : Z := 0.

Definition get_current_uid (proc : option process_ids) : Z := match proc with Some p => p_uid p | None => ROOT_UID end.
Definition get_current_gid (proc : option process_ids) : Z := match proc with Some p => p_gid p | None => ROOT_GID end.

Definition set_current_uid (proc : option process_ids) (uid : Z) : error_code_t * option process_ids :=
  match proc with
  | None => (ERR_INVALID_STATE, None)
  | Some p =>
      if negb (p_uid p =? ROOT_UID) && negb (p_uid p =? uid) then (ERR_PERMISSION_DENIED, proc)
      else (ERR_OK, Some {| p_uid := uid; p_gid := p_gid p |})
  end.

Definition set_current_gid (proc : option process_ids) (gid : Z) : error_code_t * option process_ids :=
  match proc with
  | None => (ERR_INVALID_STATE, None)
  | Some p =>
      if negb (p_uid p =? ROOT_UID) && negb (p_gid p =? gid) then (ERR_PERMISSION_DENIED, proc)
      else (ERR_OK, Some {| p_uid := p_uid p; p_gid := gid |})
  end.

(** ** Lemmas *)

(** Strings whose characters are neither NUL, newline nor one of [cs]. *)
Definition plain (cs : list Z) (s : list Z) : Prop := Forall (fun c => c ∉ 0 :: 10 :: cs) s.

Lemma plain_app cs a b : plain cs a -> plain cs b -> plain cs (a ++ b).
Proof. apply Forall_app_2. Qed.

Lemma plain_weaken cs cs' s : cs' ⊆ cs -> plain cs s -> plain cs' s.
Proof. intros H Hs. unfold plain in *. rewrite Forall_forall in *. intros c Hin. specialize (Hs c Hin). rewrite !not_elem_of_cons in *. destruct Hs as (? & ? & Hn). do 2 (split; [done|]). intros Hc. by apply Hn, H. Qed.

Lemma plain_not_in cs s c : plain cs s -> c ∈ 0 :: 10 :: cs -> c ∉ s.
Proof. unfold plain. rewrite Forall_forall. intros Hs Hc Hin. apply list_elem_of_In in Hin. exact (Hs c Hin Hc). Qed.

Lemma cut_none c s : c ∉ s -> cut c s = (s, None).
Proof.
  induction s as [|x s IH]; intros H; [done|]. apply not_elem_of_cons in H as [Hx H]. simpl.
  destruct (Z.eqb_spec x c); [congruence|]. by rewrite IH.
Qed.

Lemma cut_some c a b : c ∉ a -> cut c (a ++ c :: b) = (a, Some b).
Proof.
  induction a as [|x a IH]; intros H; simpl; [by rewrite Z.eqb_refl|]. apply not_elem_of_cons in H as [Hx H].
  destruct (Z.eqb_spec x c); [congruence|]. by rewrite IH.
Qed.

(** The loader sees the lines of a file, if none is empty or too long. *)
Lemma load_lines_chars h rest st l : forall line,
  plain [] l -> (length line + length l <= 511)%nat ->
  load_lines h (l ++ 10 :: rest) line st =
    load_lines h rest [] (if (0 <? length (line ++ l))%nat then h st (fst (cut 0 (line ++ l))) else st).
Proof.
  induction l as [|c l IH]; intros line Hl Hn; cbn [app load_lines]; [by rewrite app_nil_r|].
  apply Forall_cons_1 in Hl as [Hc Hl]. cbn [length] in Hn.
  destruct (Z.eqb_spec c 10); [subst c; by destruct Hc; right; left|]. destruct (Nat.leb_spec 511 (length line)); [lia|]. cbn [orb].
  rewrite IH by (done || (rewrite ?length_app; cbn [length]; lia)). by rewrite <- app_assoc.
Qed.

Lemma load_lines_ok h ls : forall st,
  Forall (fun l => plain [] l /\ (0 < length l <= 511)%nat) ls ->
  load_lines h (concat ((fun l => l ++ [10]) <$> ls)) [] st = fold_left h ls st.
Proof.
  induction ls as [|l ls IH]; intros st H; [done|]. apply Forall_cons_1 in H as [[Hl Hn] H].
  cbn [fmap list_fmap concat fold_left]. rewrite <- app_assoc. cbn [app]. rewrite load_lines_chars by (done || (simpl; lia)). cbn [app].
  destruct (Nat.ltb_spec 0 (length l)); [|lia]. rewrite cut_none by (apply (plain_not_in [] l); [done|left]). by apply IH.
Qed.

Lemma write_lines_ok ls write : (forall i, write i = ERR_OK) -> forall i, write_lines write i ls = (ERR_OK, concat ls).
Proof. intros Hw. induction ls as [|l ls IH]; intros i; [done|]. simpl. by rewrite Hw, IH. Qed.

(** Decimal numbers. *)
Definition is_digit (c : Z) : Prop := 48 <= c <= 57.

Lemma digits_digits fuel : forall v, 0 <= v -> Forall is_digit (digits fuel v).
Proof.
  induction fuel as [|fuel IH]; intros v Hv; simpl; [constructor|]. destruct (Z.ltb_spec 0 v); constructor.
  - unfold is_digit. pose proof (Z.mod_pos_bound v 10 ltac:(lia)). lia.
  - apply IH, Z.div_pos; lia.
Qed.

Lemma digits_length fuel : forall v n, 0 <= v < 10 ^ Z.of_nat n -> (length (digits fuel v) <= n)%nat.
Proof.
  induction fuel as [|fuel IH]; intros v n Hv; simpl; [lia|]. destruct (Z.ltb_spec 0 v) as [H0|H0]; simpl; [|lia].
  destruct n as [|n]; [simpl in Hv; lia|]. apply le_n_S, IH. rewrite Nat2Z.inj_succ, Z.pow_succ_r in Hv by lia.
  split; [apply Z.div_pos; lia|]. apply Z.div_lt_upper_bound; lia.
Qed.

Lemma uint_loop_digits fuel : forall v rest,
  0 <= v < 10 ^ Z.of_nat fuel -> v < 2 ^ 64 ->
  uint_loop 10 0 (rev (digits fuel v) ++ rest) = uint_loop 10 v rest.
Proof.
  induction fuel as [|fuel IH]; intros v rest Hv Hw; simpl; [by replace v with 0 by (simpl in Hv; lia)|].
  destruct (Z.ltb_spec 0 v) as [H0|H0]; simpl; [|by replace v with 0 by lia].
  rewrite <- app_assoc, IH; cycle 1.
  - rewrite Nat2Z.inj_succ, Z.pow_succ_r in Hv by lia. split; [apply Z.div_pos; lia|]. apply Z.div_lt_upper_bound; lia.
  - apply Z.div_lt_upper_bound; lia.
  - pose proof (Z.mod_pos_bound v 10 ltac:(lia)). pose proof (Z.div_mod v 10 ltac:(lia)).
    cbn [app uint_loop]. unfold digit_value.
    destruct (Z.leb_spec 48 (48 + v mod 10)); [|lia]. destruct (Z.leb_spec (48 + v mod 10) 57); [|lia]. cbn [andb].
    destruct (Z.leb_spec 10 (48 + v mod 10 - 48)); [lia|]. f_equal. unfold wrap. rewrite Z.mod_small; lia.
Qed.

Lemma uint_to_str_digits v : 0 <= v -> Forall is_digit (uint_to_str v).
Proof. intros Hv. unfold uint_to_str. destruct (v =? 0); [by repeat constructor|]. by apply Forall_rev, digits_digits. Qed.

Lemma uint_to_str_length v : fits 32 v -> (0 < length (uint_to_str v) <= 10)%nat.
Proof.
  unfold fits. intros Hv. unfold uint_to_str. destruct (Z.eqb_spec v 0); [simpl; lia|]. rewrite length_rev. split.
  - simpl. destruct (Z.ltb_spec 0 v); simpl; lia.
  - apply digits_length. change (10 ^ Z.of_nat 10) with 10000000000. change (2 ^ 32) with 4294967296 in Hv. lia.
Qed.

Lemma uint_to_str_plain v : 0 <= v -> plain [58; 44] (uint_to_str v).
Proof.
  intros Hv. pose proof (uint_to_str_digits v Hv) as Hd. unfold plain. rewrite Forall_forall in *. intros c Hc Hin.
  specialize (Hd c Hc). unfold is_digit in Hd.
  repeat (apply elem_of_cons in Hin as [->|Hin]; [lia|]). by apply not_elem_of_nil in Hin.
Qed.

Lemma strtoul_roundtrip v : fits 32 v -> strtoul32 (uint_to_str v) = v.
Proof.
  intros Hv. assert (Hs : skip_whitespace (uint_to_str v) = uint_to_str v).
  { pose proof (uint_to_str_digits v (proj1 Hv)) as H. destruct (uint_to_str v) as [|c s]; [done|]. apply Forall_cons_1 in H as [[H1 H2] _]. simpl.
    destruct (Z.eqb_spec c 32), (Z.eqb_spec c 9), (Z.eqb_spec c 10), (Z.eqb_spec c 13); done || lia. }
  unfold strtoul32, strtoul, parse_uint. rewrite Hs. unfold uint_to_str. destruct (Z.eqb_spec v 0) as [->|]; [done|].
  unfold fits in Hv. change (2 ^ 32) with 4294967296 in Hv.
  rewrite <- (app_nil_r (rev _)), uint_loop_digits; [simpl; apply Z.mod_small; apply Hv| |].
  - change (10 ^ Z.of_nat 15) with 1000000000000000. lia.
  - change (2 ^ 64) with 18446744073709551616. lia.
Qed.

Lemma split_fields_cons n a b : plain [58] a -> split_fields (S n) (a ++ 58 :: b) = a :: split_fields n b.
Proof. intros Ha. cbn [split_fields]. rewrite cut_some; [done|]. apply (plain_not_in [58] a); [done|]. by right; right; left. Qed.

Lemma split_fields_last n a : plain [58] a -> split_fields (S n) a = [a].
Proof. intros Ha. cbn [split_fields]. rewrite cut_none; [done|]. apply (plain_not_in [58] a); [done|]. by right; right; left. Qed.

Lemma digits_field v : 0 <= v -> plain [58] (uint_to_str v).
Proof. intros Hv. eapply plain_weaken; [|apply uint_to_str_plain, Hv]. intros x Hx. apply list_elem_of_singleton in Hx. subst x. left. Qed.

(** Users and groups that fit the fields of their tables and the format of the files. *)
Record user_ok (u : user_t) : Prop := {
  ok_uid : fits 32 (uid u);
  ok_gid : fits 32 (gid u);
  ok_name : plain [58] (username u) /\ (length (username u) < MAX_USERNAME_LEN)%nat;
  ok_hash : plain [58] (pw_hash u) /\ (length (pw_hash u) < MAX_PASSWORD_HASH_LEN)%nat
}.

Definition user_body (u : user_t) : list Z :=
  username u ++ 58 :: pw_hash u ++ 58 :: uint_to_str (uid u) ++ 58 :: uint_to_str (gid u) ++ 58 :: text ":/home/" ++ username u ++ text ":/bin/sh".

Lemma user_line_body u : user_line u = user_body u ++ [10].
Proof. unfold user_line, user_body. repeat (rewrite <- app_assoc; cbn [app]). reflexivity. Qed.

(** Decide that a string constant is plain. *)
Ltac plain_text := unfold plain; apply (bool_decide_unpack _); vm_compute; exact I.

Lemma plain_cons cs c s : c ∉ 0 :: 10 :: cs -> plain cs s -> plain cs (c :: s).
Proof. intros Hc Hs. by apply Forall_cons_2. Qed.

Lemma plain_nil cs s : plain cs s -> plain [] s.
Proof. apply plain_weaken. intros x Hx. by apply not_elem_of_nil in Hx. Qed.

Ltac plain_solve :=
  repeat first [apply plain_app | apply plain_cons; [by apply (bool_decide_unpack _)|]];
  first [assumption | plain_text | idtac].

Lemma user_body_ok u : user_ok u -> plain [] (user_body u) /\ (0 < length (user_body u) <= 511)%nat.
Proof.
  intros [Hu Hg [Hn Ln] [Hh Lh]]. apply plain_nil in Hn, Hh.
  pose proof (plain_nil _ _ (uint_to_str_plain _ (proj1 Hu))). pose proof (plain_nil _ _ (uint_to_str_plain _ (proj1 Hg))).
  pose proof (uint_to_str_length _ Hu). pose proof (uint_to_str_length _ Hg). unfold user_body. split; [plain_solve|].
  unfold MAX_USERNAME_LEN, MAX_PASSWORD_HASH_LEN in *. repeat (rewrite length_app; cbn [length]).
  change (length (text ":/bin/sh")) with 8%nat. change (length (text ":/home/")) with 7%nat. lia.
Qed.

Lemma load_user_body st u :
  user_ok u -> active u = true -> (length (users st) < MAX_USERS)%nat ->
  load_user st (user_body u) =
    {| users := users st ++ [u]; groups := groups st;
       next_uid := if next_uid st <=? uid u then u32 (uid u + 1) else next_uid st;
       next_gid := if next_gid st <=? gid u then u32 (gid u + 1) else next_gid st |}.
Proof.
  intros [Hu Hg [Hn Ln] [Hh Lh]] Ha Hlt. unfold load_user, user_body.
  rewrite !split_fields_cons by (done || (apply digits_field; apply Hu || apply Hg)).
  rewrite !strtoul_roundtrip by done. destruct (Nat.ltb_spec (length (users st)) MAX_USERS); [|lia].
  unfold strncpy_field. rewrite !take_ge by (unfold MAX_USERNAME_LEN, MAX_PASSWORD_HASH_LEN in *; lia).
  destruct u; simpl in *. by subst.
Qed.

(** What loading a list of users does to the tables. *)
Lemma load_users us : forall st,
  Forall (fun u => user_ok u /\ active u = true) us -> (length (users st) + length us <= MAX_USERS)%nat ->
  users (fold_left load_user (user_body <$> us) st) = users st ++ us /\
  groups (fold_left load_user (user_body <$> us) st) = groups st.
Proof.
  induction us as [|u us IH]; intros st H Hl; [by rewrite app_nil_r|]. apply Forall_cons_1 in H as [[Hu Ha] H]. cbn [length] in Hl.
  cbn [fmap list_fmap fold_left]. rewrite load_user_body by (done || lia).
  destruct (IH {| users := users st ++ [u]; groups := groups st;
       next_uid := if next_uid st <=? uid u then u32 (uid u + 1) else next_uid st;
       next_gid := if next_gid st <=? gid u then u32 (gid u + 1) else next_gid st |} H) as [-> ->].
  - cbn. rewrite length_app. cbn. lia.
  - cbn. by rewrite <- app_assoc.
Qed.

Record group_ok (g : group_t) : Prop := {
  ok_g_gid : fits 32 (g_gid g);
  ok_g_name : plain [58] (groupname g) /\ (length (groupname g) < MAX_GROUPNAME_LEN)%nat;
  ok_members : Forall (fits 32) (members g) /\ (length (members g) <= 32)%nat;
  ok_buffer : (length (member_list true (members g)) < 256)%nat
}.

Definition group_body (g : group_t) : list Z :=
  groupname g ++ 58 :: text "x" ++ 58 :: uint_to_str (g_gid g) ++ 58 :: member_list true (members g).

Lemma group_line_body g : group_line g = group_body g ++ [10].
Proof. unfold group_line, group_body. repeat (rewrite <- app_assoc; cbn [app]). reflexivity. Qed.

Lemma member_list_cons m ms : member_list true (m :: ms) = uint_to_str m ++ match ms with [] => [] | _ => 44 :: member_list true ms end.
Proof. by destruct ms. Qed.

Lemma member_list_plain ms : Forall (fits 32) ms -> forall first, plain [58] (member_list first ms).
Proof.
  induction 1 as [|m ms Hm H IH]; intros first; [constructor|]. cbn [member_list].
  repeat apply plain_app; [destruct first; [constructor|plain_text]|apply digits_field, Hm|apply IH].
Qed.

Lemma load_members_ok ms : forall n, Forall (fits 32) ms -> (0 < length ms <= n)%nat -> load_members n (member_list true ms) = ms.
Proof.
  induction ms as [|m ms IH]; intros n H Hn; [simpl in Hn; lia|]. apply Forall_cons_1 in H as [Hm H]. cbn [length] in Hn.
  assert (Hc : 44 ∉ uint_to_str m).
  { apply (plain_not_in [58; 44]); [apply uint_to_str_plain, Hm|]. by do 3 right; left. }
  destruct n as [|n]; [lia|]. rewrite member_list_cons. cbn [load_members]. destruct ms as [|m' ms].
  - rewrite app_nil_r, cut_none by done. by rewrite strtoul_roundtrip.
  - rewrite cut_some, strtoul_roundtrip by done. f_equal. apply IH; [done|cbn [length] in *; lia].
Qed.

Lemma group_body_ok g : group_ok g -> plain [] (group_body g) /\ (0 < length (group_body g) <= 511)%nat.
Proof.
  intros [Hg [Hn Ln] [Hm Lm] Hb]. apply plain_nil in Hn. pose proof (plain_nil _ _ (member_list_plain _ Hm true)).
  pose proof (plain_nil _ _ (uint_to_str_plain _ (proj1 Hg))). pose proof (uint_to_str_length _ Hg). unfold group_body. split; [plain_solve|].
  unfold MAX_GROUPNAME_LEN in *. repeat (rewrite length_app; cbn [length]). change (length (text "x")) with 1%nat. lia.
Qed.

Lemma members_field ms : Forall (fits 32) ms -> (length ms <= 32)%nat ->
  (if (0 <? length (member_list true ms))%nat then load_members 32 (member_list true ms) else []) = ms.
Proof.
  intros Hm Lm. destruct ms as [|m ms]; [done|].
  destruct (Nat.ltb_spec 0 (length (member_list true (m :: ms)))) as [|He].
  - apply load_members_ok; [done|cbn [length] in *; lia].
  - apply Forall_cons_1 in Hm as [Hm _]. pose proof (uint_to_str_length _ Hm). rewrite member_list_cons, length_app in He. lia.
Qed.

Lemma split_group_body g : group_ok g ->
  split_fields 4 (group_body g) = [groupname g; text "x"; uint_to_str (g_gid g); member_list true (members g)].
Proof.
  intros [Hg [Hn Ln] [Hm Lm] Hb]. unfold group_body. rewrite split_fields_cons by exact Hn. rewrite split_fields_cons by plain_text.
  rewrite split_fields_cons by apply digits_field, Hg. rewrite split_fields_last by apply member_list_plain, Hm. reflexivity.
Qed.

Lemma load_group_body st g :
  group_ok g -> (length (groups st) < MAX_GROUPS)%nat ->
  load_group st (group_body g) =
    {| users := users st; groups := groups st ++ [g]; next_uid := next_uid st;
       next_gid := if next_gid st <=? g_gid g then u32 (g_gid g + 1) else next_gid st |}.
Proof.
  intros Hok Hlt. unfold load_group. rewrite split_group_body by done. destruct Hok as [Hg [Hn Ln] [Hm Lm] Hb].
  rewrite strtoul_roundtrip, members_field by done. destruct (Nat.ltb_spec (length (groups st)) MAX_GROUPS); [|lia].
  unfold strncpy_field. rewrite take_ge by (unfold MAX_GROUPNAME_LEN in *; lia). by destruct g.
Qed.

Lemma load_groups gs : forall st,
  Forall group_ok gs -> (length (groups st) + length gs <= MAX_GROUPS)%nat ->
  groups (fold_left load_group (group_body <$> gs) st) = groups st ++ gs /\
  users (fold_left load_group (group_body <$> gs) st) = users st.
Proof.
  induction gs as [|g gs IH]; intros st H Hl; [by rewrite app_nil_r|]. apply Forall_cons_1 in H as [Hg H]. cbn [length] in Hl.
  cbn [fmap list_fmap fold_left]. rewrite load_group_body by (done || lia).
  destruct (IH {| users := users st; groups := groups st ++ [g]; next_uid := next_uid st;
       next_gid := if next_gid st <=? g_gid g then u32 (g_gid g + 1) else next_gid st |} H) as [-> ->].
  - cbn. rewrite length_app. cbn. lia.
  - cbn. by rewrite <- app_assoc.
Qed.

(** Every user id is below the next one to hand out. *)
Definition fresh_uid (st : auth_state) : Prop := fits 32 (next_uid st) /\ Forall (fun u => uid u < next_uid st) (users st).

(** The largest id, whose successor wraps to 0. *)
Definition LAST_UID : Z := 4294967295.

Lemma strtoul32_fits s : fits 32 (strtoul32 s).
Proof. apply wrap_fits. lia. Qed.

Lemma load_user_grows st l : users (load_user st l) = users st \/ exists u, users (load_user st l) = users st ++ [u] /\ fits 32 (uid u) /\
  next_uid (load_user st l) = (if next_uid st <=? uid u then u32 (uid u + 1) else next_uid st).
Proof.
  unfold load_user. destruct (split_fields 7 l) as [|f0 [|f1 [|f2 [|f3 fs]]]]; try by left.
  destruct (_ <? _)%nat; [|by left]. right. eexists. split; [reflexivity|]. split; [apply strtoul32_fits|done].
Qed.

Lemma load_user_same st l : users (load_user st l) = users st -> load_user st l = st.
Proof.
  unfold load_user. destruct (split_fields 7 l) as [|f0 [|f1 [|f2 [|f3 fs]]]]; try done.
  destruct (_ <? _)%nat; [|done]. cbn. intros H. apply (f_equal length) in H. rewrite length_app in H. cbn in H. lia.
Qed.

Lemma load_user_fresh st l :
  fresh_uid st -> fresh_uid (load_user st l) \/ Exists (fun u => uid u = LAST_UID) (users (load_user st l)).
Proof.
  intros [Hf Hu]. destruct (load_user_grows st l) as [E|(u & E & Hfu & En)]; [left; by rewrite (load_user_same st l E)|].
  destruct (Z.eq_dec (uid u) LAST_UID) as [El|El]; [right; rewrite E; apply Exists_app; right; by left|].
  left. unfold fresh_uid. rewrite E, En. unfold fits, LAST_UID in *. change (2 ^ 32) with 4294967296 in *.
  assert (Hw : u32 (uid u + 1) = uid u + 1) by (apply Z.mod_small; change (2 ^ 32) with 4294967296; lia).
  destruct (Z.leb_spec (next_uid st) (uid u)); rewrite ?Hw; (split; [lia|]); apply Forall_app_2; try (by repeat constructor; lia).
  - eapply Forall_impl; [|exact Hu]. cbn. lia.
  - done.
Qed.

Lemma load_user_keeps st l : users st `prefix_of` users (load_user st l).
Proof. destruct (load_user_grows st l) as [->|(u & -> & _)]; [done|by eexists]. Qed.

Lemma load_lines_keeps file : forall line st, users st `prefix_of` users (load_lines load_user file line st).
Proof.
  induction file as [|c file IH]; intros line st; [done|]. cbn [load_lines]. destruct (_ || _); [|apply IH].
  etrans; [|apply IH]. destruct (_ <? _)%nat; [apply load_user_keeps|done].
Qed.

Lemma load_lines_fresh file : forall line st,
  fresh_uid st -> fresh_uid (load_lines load_user file line st) \/ Exists (fun u => uid u = LAST_UID) (users (load_lines load_user file line st)).
Proof.
  induction file as [|c file IH]; intros line st H; [by left|]. cbn [load_lines]. destruct (_ || _); [|by apply IH].
  destruct (_ <? _)%nat; [|by apply IH]. destruct (load_user_fresh st (fst (cut 0 line)) H) as [Hf|He]; [by apply IH|].
  right. destruct (load_lines_keeps file [] (load_user st (fst (cut 0 line)))) as [rest ->]. apply Exists_app. by left.
Qed.

Lemma lines_of_bodies {A} (line body : A -> list Z) (xs : list A) :
  (forall x, line x = body x ++ [10]) -> line <$> xs = (fun l => l ++ [10]) <$> (body <$> xs).
Proof. intros H. rewrite <- list_fmap_compose. apply list_fmap_ext. intros i x _. apply H. Qed.

(** A group with id 0 behind the first one is taken for a deleted one. *)
Definition live_groups (gs : list group_t) : list group_t := take 1 gs ++ filter (fun g => g_gid g <> 0) (drop 1 gs).

Lemma live_groups_all gs : Forall (fun g => g_gid g <> 0) (drop 1 gs) -> live_groups gs = gs.
Proof.
  intros H. unfold live_groups. rewrite <- (take_drop 1 gs) at 3. f_equal. induction H; [done|]. rewrite filter_cons_True by done. by f_equal.
Qed.

Lemma write_groups_tail write : (forall i, write i = ERR_OK) -> forall gs w i, Forall group_ok gs -> (0 < i)%nat ->
  write_groups write w i gs = Some (ERR_OK, concat (group_line <$> filter (fun g => g_gid g <> 0) gs)).
Proof.
  intros Hw. induction gs as [|g gs IH]; intros w i H Hi; [done|]. apply Forall_cons_1 in H as [Hg H]. cbn [write_groups].
  rewrite (proj2 (Nat.ltb_lt 0 i) Hi), andb_true_r. destruct (Z.eqb_spec (g_gid g) 0) as [E|E].
  - rewrite IH by (done || lia). by rewrite filter_cons_False by (intros C; by apply C).
  - rewrite (proj2 (Nat.leb_gt _ _) (ok_buffer _ Hg)), Hw, IH by (done || lia). by rewrite filter_cons_True.
Qed.

Lemma write_groups_ok write gs : (forall i, write i = ERR_OK) -> Forall group_ok gs ->
  write_groups write 0 0 gs = Some (ERR_OK, concat (group_line <$> live_groups gs)).
Proof.
  intros Hw H. destruct gs as [|g gs]; [done|]. apply Forall_cons_1 in H as [Hg H]. cbn [write_groups]. rewrite andb_false_r.
  by rewrite (proj2 (Nat.leb_gt _ _) (ok_buffer _ Hg)), Hw, write_groups_tail by (done || lia).
Qed.

Lemma live_groups_ok gs : Forall group_ok gs -> Forall group_ok (live_groups gs) /\ (length (live_groups gs) <= length gs)%nat.
Proof.
  intros H. unfold live_groups. split.
  - apply Forall_app_2; [by apply Forall_take|]. apply (Forall_drop _ 1) in H. induction H; [constructor|]. rewrite filter_cons. case_decide; [by constructor|done].
  - rewrite length_app. pose proof (length_filter (fun g => g_gid g <> 0) (drop 1 gs)). rewrite <- (take_drop 1 gs) at 3. rewrite length_app. lia.
Qed.

Lemma active_ok us : Forall user_ok us ->
  Forall (fun u => user_ok u /\ active u = true) (filter (fun u => active u = true) us) /\
  (length (filter (fun u => active u = true) us) <= length us)%nat.
Proof.
  intros H. split; [|apply length_filter]. induction H as [|u us Hu H IH]; [constructor|].
  rewrite filter_cons. case_decide; [by apply Forall_cons_2|done].
Qed.

Lemma hex_encode_plain data : plain [58] (hex_encode data).
Proof.
  assert (Hc : forall v, hex_char v ∉ [0; 10; 58]).
  { intros v. rewrite hex_char_low. pose proof (Z.mod_pos_bound v 16 ltac:(lia)) as Hv. set (x := v mod 16) in *. clearbody x.
    assert (Hx : x ∈ seqZ 0 16) by (apply elem_of_seqZ; lia). revert x Hv Hx.
    assert (HF : Forall (fun x => hex_char x ∉ [0; 10; 58]) (seqZ 0 16)) by (apply (bool_decide_unpack _); vm_compute; exact I).
    rewrite Forall_forall in HF. intros x _ Hx. by apply HF, list_elem_of_In. }
  induction data as [|b data IH]; [constructor|].
  change (hex_encode (b :: data)) with (hex_char (Z.shiftr b 4) :: hex_char b :: hex_encode data).
  apply plain_cons; [apply Hc|]. apply plain_cons; [apply Hc|done].
Qed.

Lemma hash_string_plain salt k : plain [58] (hash_string salt k).
Proof. unfold hash_string. repeat apply plain_app; apply hex_encode_plain || plain_text. Qed.

(** ** Properties *)

(** C38. Files hold the databases.  Every call of the file system succeeds, names and hashes
    hold neither a colon, a newline nor a NUL and fit their fields, ids are 32-bit numbers,
    a group has at most 32 members, whose list fits its buffer of 256 bytes, and the tables
    have room.  Then saving the user database and loading the file gives back exactly the
    active users, in order, after those already in the table.  Saving and loading the group
    database gives back the groups with their members, in order: all of them if none but
    the first has the id 0, and otherwise all but those, since such a group is taken for a
    deleted one.  Each load leaves the other table alone. *)
Theorem passwd_roundtrip (opens : open_results) (write : nat -> error_code_t) (st st0 : auth_state)
    (Ho : open_for_save opens = ERR_OK) (Hw : forall i, write i = ERR_OK)
    (Hu : Forall user_ok (users st)) (Hg : Forall group_ok (groups st))
    (Hlu : (length (users st0) + length (users st) <= MAX_USERS)%nat)
    (Hlg : (length (groups st0) + length (groups st) <= MAX_GROUPS)%nat) :
  exists ufile gfile,
    user_save_to_disk opens write st = (ERR_OK, Some ufile) /\
    group_save_to_disk opens write st = Some (ERR_OK, Some gfile) /\
    users (snd (user_load_from_disk (Some ufile) st0)) = users st0 ++ filter (fun u => active u = true) (users st) /\
    groups (snd (user_load_from_disk (Some ufile) st0)) = groups st0 /\
    (Forall (fun g => g_gid g <> 0) (drop 1 (groups st)) -> groups (snd (group_load_from_disk (Some gfile) st0)) = groups st0 ++ groups st) /\
    groups (snd (group_load_from_disk (Some gfile) st0)) = groups st0 ++ take 1 (groups st) ++ filter (fun g => g_gid g <> 0) (drop 1 (groups st)) /\
    users (snd (group_load_from_disk (Some gfile) st0)) = users st0.
Proof.
  unfold user_save_to_disk, group_save_to_disk. rewrite Ho, write_lines_ok, write_groups_ok by done.
  destruct (live_groups_ok _ Hg) as [Hs Ls]. eexists _, _. split; [done|]. split; [done|]. unfold user_load_from_disk, group_load_from_disk. cbn [snd].
  rewrite (lines_of_bodies user_line user_body), (lines_of_bodies group_line group_body) by (apply user_line_body || apply group_line_body).
  destruct (active_ok _ Hu) as [Hus Lus]. set (us := filter _ (users st)) in *. rewrite !load_lines_ok.
  - destruct (load_users us st0 Hus) as [-> ->]; [lia|]. destruct (load_groups _ st0 Hs) as [-> ->]; [lia|]. do 2 (split; [done|]). split; [|done].
    intros Hall. by rewrite live_groups_all.
  - apply Forall_fmap. eapply Forall_impl; [|exact Hs]. intros g. apply group_body_ok.
  - apply Forall_fmap. eapply Forall_impl; [|exact Hus]. intros u [Hok _]. by apply user_body_ok.
Qed.

Definition demo_auth : auth_state :=
  {| users := [{| uid := 0; gid := 0; username := text "root"; pw_hash := text "x"; active := true |};
               {| uid := 1000; gid := 1000; username := text "gone"; pw_hash := text "y"; active := false |};
               {| uid := 1001; gid := 1000; username := text "ada"; pw_hash := text "lovelace"; active := true |}];
     groups := [{| g_gid := 0; groupname := text "root"; members := [0] |};
                {| g_gid := 1000; groupname := text "users"; members := [1000; 1001] |}];
     next_uid := 1002; next_gid := 1001 |}.

Definition empty_auth : auth_state := {| users := []; groups := []; next_uid := 1000; next_gid := 1000 |}.

Lemma passwd_roundtrip_witness :
  exists ufile, user_save_to_disk {| first_open := ERR_OK; mkdir_etc := ERR_OK; second_open := ERR_OK |} (fun _ => ERR_OK) demo_auth = (ERR_OK, Some ufile) /\
    uid <$> users (snd (user_load_from_disk (Some ufile) empty_auth)) = [0; 1001].
Proof.
  destruct (passwd_roundtrip {| first_open := ERR_OK; mkdir_etc := ERR_OK; second_open := ERR_OK |} (fun _ => ERR_OK) demo_auth empty_auth)
    as (ufile & gfile & Hu & _ & Hl & _).
  - reflexivity.
  - reflexivity.
  - repeat (apply Forall_cons_2; [split; [by split|by split|split; [plain_text|vm_compute; lia]|split; [plain_text|vm_compute; lia]]|]).
    apply Forall_nil_2.
  - repeat (apply Forall_cons_2; [split; [by split|split; [plain_text|vm_compute; lia]|split; [|vm_compute; lia]|vm_compute; lia]|]);
      try apply Forall_nil_2; repeat (apply Forall_cons_2; [by split|]); apply Forall_nil_2.
  - vm_compute. lia.
  - vm_compute. lia.
  - exists ufile. split; [exact Hu|]. by rewrite Hl.
Defined.

(** Whatever the file holds, loading users keeps every user id below the next id
    to hand out, unless one of the ids read is the largest 32-bit number: then the
    next id wraps around to 0, the id of root. *)
Theorem user_ids_fresh (st : auth_state) (file : list Z) (Hst : fresh_uid st) :
  let st' := snd (user_load_from_disk (Some file) st) in
  (fresh_uid st' \/ Exists (fun u => uid u = LAST_UID) (users st')) /\
  (forall u, user_ok u -> active u = true -> uid u = LAST_UID -> (length (users st) < MAX_USERS)%nat ->
   next_uid (snd (user_load_from_disk (Some (user_line u)) st)) = ROOT_UID).
Proof.
  cbn [user_load_from_disk snd]. split; [by apply load_lines_fresh|]. intros u Hok Ha Hu Hl.
  destruct (user_body_ok u Hok) as [Hp Hn].
  assert (E : load_lines load_user (user_line u) [] st = fold_left load_user [user_body u] st).
  { rewrite <- (load_lines_ok load_user [user_body u]) by (apply Forall_cons_2; [done|apply Forall_nil_2]).
    cbn [fmap list_fmap concat]. by rewrite app_nil_r, user_line_body. }
  rewrite E. cbn [fold_left]. rewrite load_user_body by done. cbn [next_uid]. rewrite Hu. destruct Hst as [[_ Hlt] _].
  unfold LAST_UID. change (2 ^ 32) with 4294967296 in Hlt. destruct (Z.leb_spec (next_uid st) 4294967295); [done|lia].
Qed.

Lemma user_ids_fresh_witness :
  next_uid (snd (user_load_from_disk (Some (text "eve:h:4294967295:1000::/home/eve:/bin/sh" ++ [10])) empty_auth)) = ROOT_UID.
Proof.
  apply (user_ids_fresh empty_auth []) with (u := {| uid := LAST_UID; gid := 1000; username := text "eve"; pw_hash := text "h"; active := true |}).
  - split; [by split|apply Forall_nil_2].
  - split; [by split|by split|split; [plain_text|vm_compute; lia]|split; [plain_text|vm_compute; lia]].
  - reflexivity.
  - reflexivity.
  - vm_compute. lia.
Defined.

(** A password string made by [password_hash] does not survive the user file:
    loading a line that holds it keeps the first 63 of its 111 characters, and
    [password_verify] then rejects every password, the right one included. *)
Theorem stored_hash_rejected (m1 m2 : kdf_memory) (st : auth_state) (name salt password rest h : list Z) (u g : Z)
    (H1 : memory_ok m1) (H2 : memory_ok m2) (Hs : length salt = 16%nat) (Hb : bytes salt) (Hname : plain [58] name)
    (Hu : fits 32 u) (Hg : fits 32 g) (Hl : (length (users st) < MAX_USERS)%nat)
    (Hh : Kdf.password_hash m1 salt (Some password) true = Some (Some h)) :
  exists user, users (load_user st (name ++ text ":" ++ h ++ text ":" ++ uint_to_str u ++ text ":" ++ uint_to_str g ++ text ":" ++ rest)) = users st ++ [user] /\
    uid user = u /\ pw_hash user = take 63 h /\
    forall other, password_verify m2 (Some other) (Some (pw_hash user)) = Some false.
Proof.
  rewrite password_hash_ok in Hh by done. injection Hh as <-.
  set (k := pbkdf2_block _ _ _ _ _) in *.
  assert (Hk : plain [58] (hash_string salt k)) by (apply hash_string_plain).
  unfold load_user. change (text ":") with [58]. cbn [app].
  rewrite !split_fields_cons by (done || (apply digits_field; apply Hu || apply Hg)). rewrite !strtoul_roundtrip by done.
  destruct (Nat.ltb_spec (length (users st)) MAX_USERS); [|lia]. cbn [users].
  eexists. split; [done|]. split; [done|]. split; [done|]. cbn [pw_hash]. intros other.
  change (strncpy_field MAX_PASSWORD_HASH_LEN (hash_string salt k)) with (take (14 + 49) (text "$pbkdf2$10000$" ++ hex_encode salt ++ text "$" ++ hex_encode k)).
  assert (Hx : length (hex_encode salt) = 32%nat) by (by rewrite hex_encode_length, Hs).
  rewrite take_app_add' by reflexivity. rewrite take_app_ge, Hx by lia. rewrite (take_app_ge (text "$")) by (vm_compute; lia).
  change (49 - 32 - length (text "$"))%nat with 16%nat. rewrite verify_string by done.
  rewrite hex_decode_short; [done|]. rewrite length_take. unfold PASSWORD_HASH_LEN. lia.
Qed.

Lemma stored_hash_rejected_witness :
  exists h user, Kdf.password_hash demo_kdf (repeat 7 16) (Some (text "secret")) true = Some (Some h) /\
    users (load_user empty_auth (text "ada" ++ text ":" ++ h ++ text ":" ++ uint_to_str 1000 ++ text ":" ++ uint_to_str 1000 ++ text ":" ++ [])) = [user] /\
    password_verify demo_kdf (Some (text "secret")) (Some (pw_hash user)) = Some false.
Proof.
  assert (Hb : bytes (repeat 7 16)) by (repeat (apply Forall_cons_2; [by split|]); apply Forall_nil_2).
  pose proof (password_hash_ok demo_kdf (repeat 7 16) (text "secret") demo_kdf_ok eq_refl) as Hh.
  destruct (stored_hash_rejected demo_kdf demo_kdf empty_auth (text "ada") (repeat 7 16) (text "secret") [] _ 1000 1000
    demo_kdf_ok demo_kdf_ok eq_refl Hb ltac:(plain_text) ltac:(by split) ltac:(by split) ltac:(vm_compute; lia) Hh) as (user & Hu & _ & _ & Hv).
  eexists _, user. split; [exact Hh|]. split; [exact Hu|apply Hv].
Defined.

(** Sequences of successful id changes of one process. *)
Inductive id_step : process_ids -> process_ids -> Prop :=
  | step_uid p uid p' : set_current_uid (Some p) uid = (ERR_OK, Some p') -> id_step p p'
  | step_gid p gid p' : set_current_gid (Some p) gid = (ERR_OK, Some p') -> id_step p p'.

Lemma id_step_unprivileged p p' : id_step p p' -> p_uid p <> ROOT_UID -> p' = p.
Proof.
  intros H Hr. destruct H as [[u g] uid p' H|[u g] gid p' H]; revert H; unfold set_current_uid, set_current_gid; cbn [p_uid p_gid] in *.
  - destruct (Z.eqb_spec u ROOT_UID), (Z.eqb_spec u uid); cbn [negb andb]; congruence.
  - destruct (Z.eqb_spec u ROOT_UID), (Z.eqb_spec g gid); cbn [negb andb]; congruence.
Qed.

(** A process that is not root can never change its user or group id, by any
    sequence of calls; once root has given up its id, it does not get it back. *)
Theorem unprivileged_ids_stable (p p' : process_ids) (Hp : p_uid p <> ROOT_UID) (Hsteps : rtc id_step p p') : p' = p.
Proof. induction Hsteps as [|x y z Hxy _ IH]; [done|]. apply id_step_unprivileged in Hxy; [subst y|done]. by apply IH. Qed.

Lemma unprivileged_ids_stable_witness :
  exists p', rtc id_step {| p_uid := 1000; p_gid := 5 |} p' /\ p' = {| p_uid := 1000; p_gid := 5 |}.
Proof.
  assert (H : rtc id_step {| p_uid := 1000; p_gid := 5 |} {| p_uid := 1000; p_gid := 5 |}).
  { eapply rtc_l; [|apply rtc_refl]. by apply (step_uid _ 1000). }
  exists {| p_uid := 1000; p_gid := 5 |}. split; [exact H|]. apply (unprivileged_ids_stable _ _); [discriminate|exact H].
Defined.
