(* ===== verification/DiskCrypt.v ===== *)
(** * Disk encryption (kernel/fs/disk_encryption.c)

    A block device that encrypts what it stores on another one: AES-256 in CBC mode, block
    by block, with an initialisation vector from the number of the block.  Also the
    dispatch over the ciphers of kernel/crypto/crypto.c.

    The state of the encrypting device is the state of the other one and the structure
    behind [private_data].  [encrypted_block_offset] is 1 from the start and is not kept
    as a field.  [kmalloc] is the pair of parameters [mem_ok] and [garbage] of [Fat].  The
    list of encrypting devices, which nothing reads, is left out. *)

From Stdlib Require Import Lia ZifyBool String.
From stdpp Require Import base tactics list numbers option.
From S2P Require Import Prelude Effect Bytes Buffer Block Aes Sha2 Kdf.

#[local] Open Scope Z_scope.

(** ** Ciphers *)

Inductive crypto_cipher_type_t := CRYPTO_CIPHER_AES256 | CRYPTO_CIPHER_AES128 | CRYPTO_CIPHER_AES192.

Definition crypto_encrypt (type : crypto_cipher_type_t) (key iv plaintext : option (list Z)) (out : bool) : error_code_t * option (list Z) :=
  match key, plaintext, out with
  | Some _, Some _, true =>
      match type with
      | CRYPTO_CIPHER_AES256 => aes256_encrypt key iv plaintext out
      | CRYPTO_CIPHER_AES128 => aes128_encrypt key iv plaintext out
      | CRYPTO_CIPHER_AES192 => aes192_encrypt key iv plaintext out
      end
  | _, _, _ => (ERR_INVALID_ARG, None)
  end.

Definition crypto_decrypt (type : crypto_cipher_type_t) (key iv ciphertext : option (list Z)) (out : bool) : error_code_t * option (list Z) :=
  match key, ciphertext, out with
  | Some _, Some _, true =>
      match type with
      | CRYPTO_CIPHER_AES256 => aes256_decrypt key iv ciphertext out
      | CRYPTO_CIPHER_AES128 => aes128_decrypt key iv ciphertext out
      | CRYPTO_CIPHER_AES192 => aes192_decrypt key iv ciphertext out
      end
  | _, _, _ => (ERR_INVALID_ARG, None)
  end.

(** ** The device *)

Definition BLOCK_SIZE : Z := 512.
Definition AES256_KEY_SIZE : nat := 32.
Definition encrypted_block_offset : Z := 1.

Record disk_encryption_config_t := { cipher_type : crypto_cipher_type_t; key : list Z; enabled : bool }.

Record encrypted (D : Type) := { underlying : D; config : disk_encryption_config_t; e_allocs : nat }.
Arguments underlying {D} _.
Arguments config {D} _.
Arguments e_allocs {D} _.

Definition generate_iv (block_num : Z) : list Z :=
  let iv := ((fun i => u8 (Z.shiftr block_num (Z.of_nat i * 8))) <$> seq 0 8) ++ repeat 0 8 in
  <[0%nat := Z.lxor (nth 0 iv 0) 0x5A]> iv.

Section encryption.
  Context {D : Type} (dev : block_device_t D) (mem_ok : nat -> bool) (garbage : nat -> nat -> Z).

#[local] Abbreviation M := (Effect.M (encrypted D)).
#[local] Open Scope effect_scope.

Definition set_underlying (s : encrypted D) (d : D) : encrypted D := {| underlying := d; config := config s; e_allocs := e_allocs s |}.

Definition on_underlying {A} (m : Effect.M D A) : M A := fun s =>
  match m (underlying s) with Ret a d => Ret a (set_underlying s d) | Fault => Fault | Deadlock => Deadlock | Panic => Panic | NoFuel => NoFuel end.

(** The code, and the 512 bytes that are stored in the output. *)
Definition cipher_block (f : crypto_cipher_type_t -> option (list Z) -> option (list Z) -> option (list Z) -> bool -> error_code_t * option (list Z)) (block_num : Z) (b : list Z) : M (error_code_t * list Z) :=
  c <~ get config;;
  let r := f CRYPTO_CIPHER_AES256 (Some (key c)) (Some (generate_iv block_num)) (Some b) true in
  ret (fst r, default [] (snd r)).

Definition encrypted_read_block (block_num : Z) (buffer : list Z) : M (error_code_t * list Z) :=
  r <~ on_underlying (block_device_read dev (u64 (encrypted_block_offset + block_num)) buffer);;
  if negb (bool_decide (fst r = ERR_OK)) then ret r
  else
    let buffer := snd r in
    on <~ get (fun s => enabled (config s));;
    if negb on then ret (ERR_OK, buffer)
    else
      b <~ rd buffer 0 (Z.to_nat BLOCK_SIZE);;
      x <~ cipher_block crypto_decrypt block_num b;;
      if negb (bool_decide (fst x = ERR_OK)) then ret (fst x, buffer) else buffer <~ wr buffer 0 (snd x);; ret (ERR_OK, buffer).

Definition encrypted_write_block (block_num : Z) (buffer : list Z) : M error_code_t :=
  on <~ get (fun s => enabled (config s));;
  b <~ rd buffer 0 (Z.to_nat BLOCK_SIZE);;
  x <~ (if on : bool then cipher_block crypto_encrypt block_num b else ret (ERR_OK, b));;
  if negb (bool_decide (fst x = ERR_OK)) then ret (fst x) else on_underlying (block_device_write dev (u64 (encrypted_block_offset + block_num)) (snd x)).

(** From block [i] on, [n] blocks before the end. *)
Fixpoint decrypt_blocks (n : nat) (start i : Z) (buf : list Z) : M (error_code_t * list Z) :=
  match n with
  | O => ret (ERR_OK, buf)
  | S n =>
      b <~ rd buf (i * BLOCK_SIZE) (Z.to_nat BLOCK_SIZE);;
      x <~ cipher_block crypto_decrypt (u64 (start + i)) b;;
      if negb (bool_decide (fst x = ERR_OK)) then ret (fst x, buf) else buf <~ wr buf (i * BLOCK_SIZE) (snd x);; decrypt_blocks n start (i + 1) buf
  end.

Definition encrypted_read_blocks (start count : Z) (buffer : list Z) : M (error_code_t * list Z) :=
  r <~ on_underlying (block_device_read_blocks dev (u64 (encrypted_block_offset + start)) count buffer);;
  if negb (bool_decide (fst r = ERR_OK)) then ret r
  else on <~ get (fun s => enabled (config s));; if on : bool then decrypt_blocks (Z.to_nat count) start 0 (snd r) else ret (ERR_OK, snd r).

Fixpoint encrypt_blocks (n : nat) (start i : Z) (buf out : list Z) : M (error_code_t * list Z) :=
  match n with
  | O => ret (ERR_OK, out)
  | S n =>
      b <~ rd buf (i * BLOCK_SIZE) (Z.to_nat BLOCK_SIZE);;
      x <~ cipher_block crypto_encrypt (u64 (start + i)) b;;
      if negb (bool_decide (fst x = ERR_OK)) then ret (fst x, out) else out <~ wr out (i * BLOCK_SIZE) (snd x);; encrypt_blocks n start (i + 1) buf out
  end.

(** [size] bytes, or the empty list for null. *)
Definition alloc_buffer (size : Z) : M (list Z) :=
  n <~ get e_allocs;;
  modify (fun s => {| underlying := underlying s; config := config s; e_allocs := S (e_allocs s) |});;;
  ret (if mem_ok n then garbage n <$> seq 0 (Z.to_nat size) else []).

Definition encrypted_write_blocks (start count : Z) (buffer : list Z) : M error_code_t :=
  out <~ alloc_buffer (u64 (count * BLOCK_SIZE));;
  if bool_decide (out = []) then ret ERR_OUT_OF_MEMORY
  else
    on <~ get (fun s => enabled (config s));;
    x <~ (if on : bool then encrypt_blocks (Z.to_nat count) start 0 buffer out
          else b <~ rd buffer 0 (Z.to_nat (u64 (count * BLOCK_SIZE)));; out <~ wr out 0 b;; ret (ERR_OK, out));;
    if negb (bool_decide (fst x = ERR_OK)) then ret (fst x) else on_underlying (block_device_write_blocks dev (u64 (encrypted_block_offset + start)) count (snd x)).

(** ** Wrapping a device, and its settings *)

Definition wrapper : block_device_t (encrypted D) := {|
  name := text "enc_" ++ name dev; block_count := u64 (block_count dev - 1); block_size := block_size dev;
  read_block := Some encrypted_read_block; write_block := Some encrypted_write_block; read_blocks := Some encrypted_read_blocks; write_blocks := Some encrypted_write_blocks; next := 0 |}.

(** Whether each of the three allocations succeeds; the device and its settings.  The key
    is 32 bytes. *)
Definition disk_encryption_wrap_device (k : list Z) (enc_ok wrapper_ok name_ok : bool) : error_code_t * option (block_device_t (encrypted D) * disk_encryption_config_t) :=
  if negb enc_ok then (ERR_OUT_OF_MEMORY, None)
  else if negb wrapper_ok then (ERR_OUT_OF_MEMORY, None)
  else if negb name_ok then (ERR_OUT_OF_MEMORY, None)
  else (ERR_OK, Some (wrapper, {| cipher_type := CRYPTO_CIPHER_AES256; key := take AES256_KEY_SIZE k; enabled := true |})).

Definition set_config (f : disk_encryption_config_t -> disk_encryption_config_t) : M error_code_t :=
  modify (fun s => {| underlying := underlying s; config := f (config s); e_allocs := e_allocs s |});;; ret ERR_OK.

Definition disk_encryption_set_key (k : list Z) : M error_code_t := set_config (fun c => {| cipher_type := cipher_type c; key := take AES256_KEY_SIZE k; enabled := enabled c |}).
Definition disk_encryption_enable : M error_code_t := set_config (fun c => {| cipher_type := cipher_type c; key := key c; enabled := true |}).
Definition disk_encryption_disable : M error_code_t := set_config (fun c => {| cipher_type := cipher_type c; key := key c; enabled := false |}).

End encryption.

(** [None]: PBKDF2 fails as in [Kdf]. *)
Definition disk_encryption_derive_key_from_password (u t : option (list Z)) (fresh : nat -> nat -> nat -> option (list Z)) (password salt : list Z) (iterations : Z) : option (error_code_t * list Z) :=
  crypto_pbkdf2 CRYPTO_HASH_SHA256 u t fresh (Some password) (Some (take 16 salt)) iterations true AES256_KEY_SIZE.

(** ** Transparency *)

Lemma generate_iv_block n : Aes.block (generate_iv n).
Proof.
  unfold generate_iv. split; [done|]. apply Forall_insert; [|apply lxor_fits; [lia|apply u8_fits|fits_lia]].
  apply Forall_app_2; [apply Forall_fmap, Forall_true; intros i; apply u8_fits|]. repeat constructor; fits_lia.
Qed.

(** 512 bytes. *)
Definition sector (b : list Z) : Prop := length b = 512%nat /\ bytes b.

Definition enc (c : disk_encryption_config_t) (n : Z) (b : list Z) : list Z :=
  default [] (snd (crypto_encrypt CRYPTO_CIPHER_AES256 (Some (key c)) (Some (generate_iv n)) (Some b) true)).
Definition dec (c : disk_encryption_config_t) (n : Z) (b : list Z) : list Z :=
  default [] (snd (crypto_decrypt CRYPTO_CIPHER_AES256 (Some (key c)) (Some (generate_iv n)) (Some b) true)).

Lemma enc_ok c n b : sector b ->
  crypto_encrypt CRYPTO_CIPHER_AES256 (Some (key c)) (Some (generate_iv n)) (Some b) true = (ERR_OK, Some (enc c n b)) /\ sector (enc c n b) /\ dec c n (enc c n b) = b.
Proof.
  intros [Hl Hb]. destruct (aes_cbc_inverse AES256_ROUNDS aes256_key_expansion (key c) (Some (generate_iv n)) b (generate_iv_block n) Hb) as (ct & E & Hcl & Hcb & E'); [by rewrite Hl|].
  unfold enc, dec, crypto_encrypt, crypto_decrypt, aes256_encrypt, aes256_decrypt. rewrite E. cbn [fst snd from_option id]. rewrite E'. split; [done|]. split; [split; [congruence|done]|done].
Qed.

Lemma dec_ok c n b : sector b -> crypto_decrypt CRYPTO_CIPHER_AES256 (Some (key c)) (Some (generate_iv n)) (Some b) true = (ERR_OK, Some (dec c n b)) /\ sector (dec c n b).
Proof.
  intros [Hl Hb]. destruct (aes_cbc_decrypts AES256_ROUNDS aes256_key_expansion (key c) (Some (generate_iv n)) b (generate_iv_block n) Hb) as (pt & E & Hpl & Hpb); [by rewrite Hl|].
  unfold dec, crypto_decrypt, aes256_decrypt. rewrite E. cbn [fst snd from_option id]. split; [done|]. split; [congruence|done].
Qed.

Section transparent.
  Context {D : Type} (dev : block_device_t D) (medium : D -> Z -> list Z) `{Hdisk : !Disk dev medium}.
  Context (mem_ok : nat -> bool) (garbage : nat -> nat -> Z) (mem_ok_all : forall n, mem_ok n = true).
  Context (Hsize : block_size dev = 512) (Hcount : 1 <= block_count dev < 2 ^ 55).

#[local] Abbreviation st := (encrypted D).
#[local] Open Scope effect_scope.

(** The blocks as they are before encryption. *)
Definition plain (s : st) (n : Z) : list Z :=
  let b := medium (underlying s) (encrypted_block_offset + n) in if enabled (config s) then dec (config s) n b else b.

Lemma enc_spec n b (s : st) : sector b -> cipher_block crypto_encrypt n b s = Ret (ERR_OK, enc (config s) n b) s.
Proof. intros Hb. unfold cipher_block. erewrite bind_run by reflexivity. by rewrite (proj1 (enc_ok (config s) n b Hb)). Qed.

Lemma dec_spec n b (s : st) : sector b -> cipher_block crypto_decrypt n b s = Ret (ERR_OK, dec (config s) n b) s.
Proof. intros Hb. unfold cipher_block. erewrite bind_run by reflexivity. by rewrite (proj1 (dec_ok (config s) n b Hb)). Qed.

Lemma medium_sector d n : sector (medium d n).
Proof. destruct (disk_block d n) as [Hl Hb]. split; [by rewrite Hl, Hsize|done]. Qed.

Lemma plain_sector s n : sector (plain s n).
Proof. unfold plain. destruct (enabled _); [apply dec_ok|]; apply medium_sector. Qed.

Lemma plain_agree s d : agree medium (underlying s) d -> agree plain s (set_underlying s d).
Proof. intros H n. unfold plain. cbn [underlying config set_underlying]. by rewrite H. Qed.

Lemma on_underlying_runs {A} (m : Effect.M D A) Q (s : st) : runs m Q (underlying s) -> runs (on_underlying m) (fun a s' => exists d, s' = set_underlying s d /\ Q a d) s.
Proof. intros (a & d & E & Hq). exists a, (set_underlying s d). split; [unfold on_underlying; by rewrite E|by exists d]. Qed.

Lemma count_wrapped : u64 (block_count dev - 1) = block_count dev - 1.
Proof. pose proof disk_count. apply wrap_small. fits_lia. Qed.

Lemma physical_small n : 0 <= n < block_count dev - 1 -> u64 (encrypted_block_offset + n) = encrypted_block_offset + n.
Proof. intros Hn. pose proof disk_count. unfold encrypted_block_offset. apply wrap_small. fits_lia. Qed.

Lemma read_block_spec n b (s : st) : 0 <= n < block_count dev - 1 -> length b = 512%nat -> runs (encrypted_read_block dev n b) (fun r s' => r = (ERR_OK, plain s n) /\ agree plain s s') s.
Proof.
  intros Hn Hb. unfold encrypted_read_block. rewrite physical_small by done. eapply runs_bind; [apply on_underlying_runs, (read_runs dev medium); [unfold encrypted_block_offset; lia|rewrite Hsize, Hb; done]|].
  intros r s' (d & -> & -> & Ha). rewrite Hsize, drop_ge, app_nil_r by (rewrite Hb; done). cbn [fst snd]. rewrite bool_decide_true by done. cbn [negb].
  pose proof (plain_agree s d Ha) as Hag. eapply runs_step; [reflexivity|]. cbn [config set_underlying]. unfold plain. destruct (enabled (config s)); cbn [negb]; [|apply runs_ret; done].
  pose proof (medium_sector (underlying s) (encrypted_block_offset + n)) as Hm. destruct Hm as [Hl Hby]. eapply runs_step; [apply rd_run; rewrite Hl; done|]. cbv beta. rewrite drop_0, take_ge by (rewrite Hl; done).
  destruct (dec_ok (config s) n _ (conj Hl Hby)) as [_ [Hpl Hpb]]. eapply runs_step; [by apply dec_spec|]. cbn [fst snd config set_underlying]. rewrite bool_decide_true by done. cbn [negb].
  eapply runs_step; [apply wr_run; rewrite Hl, Hpl; done|]. apply runs_ret. split; [|done]. f_equal. unfold buf_write. rewrite take_0, drop_ge, app_nil_r by (rewrite Hl, Hpl; done). done.
Qed.

(** After the blocks from [start] on are replaced by what [l] encrypts to. *)
Lemma plain_stored start count l x s d : 0 <= count -> (forall i, 0 <= i < count -> sector (take 512 (drop (Z.to_nat (i * 512)) l))) ->
  (forall i, 0 <= i < count -> take 512 (drop (Z.to_nat (i * 512)) x) = if enabled (config s) then enc (config s) (start + i) (take 512 (drop (Z.to_nat (i * 512)) l)) else take 512 (drop (Z.to_nat (i * 512)) l)) ->
  stored medium 512 (encrypted_block_offset + start) count x (underlying s) d -> stored plain 512 start count l s (set_underlying s d).
Proof.
  intros Hc Hl Hx Hst n. unfold plain. cbn [underlying config set_underlying]. rewrite Hst. change (Z.to_nat 512) with 512%nat. unfold encrypted_block_offset.
  replace ((1 + start <=? 1 + n) && (1 + n <? 1 + start + count)) with ((start <=? n) && (n <? start + count)) by lia. destruct ((start <=? n) && (n <? start + count)) eqn:E; [|done].
  replace (1 + n - (1 + start)) with (n - start) by lia. rewrite Hx by lia. destruct (enabled (config s)); [|done]. replace (start + (n - start)) with n by lia. apply enc_ok, Hl. lia.
Qed.

Lemma write_block_spec n b (s : st) : 0 <= n < block_count dev - 1 -> length b = 512%nat -> bytes b -> runs (encrypted_write_block dev n b) (fun e s' => e = ERR_OK /\ stored plain 512 n 1 b s s') s.
Proof.
  intros Hn Hb Hby. assert (Hs : sector b) by done. unfold encrypted_write_block. rewrite physical_small by done. eapply runs_step; [reflexivity|]. eapply runs_step; [apply rd_run; rewrite Hb; done|]. cbv beta.
  change (take _ (drop _ b)) with (take 512 b). rewrite take_ge by lia. eapply (runs_step _ _ _ _ (ERR_OK, if enabled (config s) then enc (config s) n b else b) s); [destruct (enabled (config s)); [by apply enc_spec|done]|].
  cbn [fst snd]. rewrite bool_decide_true by done. cbn [negb]. set (x := if enabled (config s) then _ else _). assert (Hx : sector x) by (unfold x; destruct (enabled (config s)); [by apply enc_ok|done]). destruct Hx as [Hxl Hxb].
  eapply runs_mono; [apply on_underlying_runs, (write_runs dev medium); [unfold encrypted_block_offset; lia|rewrite Hsize, Hxl; done|done]|]. intros e s' (d & -> & -> & Hst). split; [done|]. rewrite Hsize in Hst.
  assert (H0 : forall i, 0 <= i < 1 -> forall y : list Z, length y = 512%nat -> take 512 (drop (Z.to_nat (i * 512)) y) = y) by (intros i Hi y Hy; replace i with 0 by lia; rewrite drop_0, take_ge by lia; done).
  eapply plain_stored; [lia| | |exact Hst]; intros i Hi; rewrite !(H0 i Hi) by done; [done|]. unfold x. by replace (n + i) with n by lia.
Qed.

(** The loop over the blocks of [d] from [start] on, of which those before [i] are done. *)
Lemma decrypt_blocks_run d start (s : st) n : forall i pre, 0 <= i -> 0 <= start -> start + i + Z.of_nat n <= block_count dev - 1 -> length pre = Z.to_nat (i * 512) -> enabled (config s) = true -> agree medium (underlying s) d ->
  decrypt_blocks n start i (pre ++ extent medium d (encrypted_block_offset + (start + i)) n) s = Ret (ERR_OK, pre ++ extent plain s (start + i) n) s.
Proof.
  induction n as [|n IH]; intros i pre Hi Hs Hle Hl Hon Hag; cbn [decrypt_blocks]; [done|]. rewrite !extent_S. pose proof (medium_sector d (encrypted_block_offset + (start + i))) as [Hml Hmb]. set (m := medium d _) in *.
  assert (Hr : forall rest : list Z, take 512 (drop (Z.to_nat (i * 512)) (pre ++ m ++ rest)) = m) by (intros rest; rewrite drop_app_length' by done; by rewrite take_app_length').
  erewrite bind_run by (apply rd_run; unfold BLOCK_SIZE; rewrite !length_app, Hl, Hml; change (Z.to_nat 512) with 512%nat; lia). unfold BLOCK_SIZE. change (Z.to_nat 512) with 512%nat. rewrite Hr.
  pose proof disk_count. rewrite (wrap_small 64) by fits_lia. destruct (dec_ok (config s) (start + i) m) as [_ [Hpl _]]; [done|]. erewrite bind_run by (by apply dec_spec). cbn [fst snd]. rewrite bool_decide_true by done. cbn [negb].
  erewrite bind_run by (apply wr_run; rewrite !length_app, Hl, Hml, Hpl; lia). assert (Hpm : plain s (start + i) = dec (config s) (start + i) m) by (unfold plain, m; by rewrite Hon, Hag).
  assert (Hw : forall rest : list Z, buf_write (pre ++ m ++ rest) (Z.to_nat (i * 512)) (dec (config s) (start + i) m) = (pre ++ plain s (start + i)) ++ rest).
  { intros rest. rewrite Hpm. unfold buf_write. rewrite take_app_length' by done. rewrite Hpl, <- !app_assoc. do 2 f_equal. rewrite app_assoc, drop_app_length'; [done|]. rewrite length_app. lia. }
  rewrite Hw, <- Z.add_assoc, <- (Z.add_assoc start i 1). rewrite IH; [by rewrite <- app_assoc|lia|lia|lia| |done|done]. rewrite length_app, Hl, Hpm, Hpl. lia.
Qed.

Lemma read_blocks_spec start c b (s : st) : 0 <= start -> 0 < c -> start + c <= block_count dev - 1 -> length b = Z.to_nat (c * 512) ->
  runs (encrypted_read_blocks dev start c b) (fun r s' => r = (ERR_OK, extent plain s start (Z.to_nat c)) /\ agree plain s s') s.
Proof.
  intros Hs Hc Hle Hb. unfold encrypted_read_blocks. rewrite physical_small by lia. eapply runs_bind; [apply on_underlying_runs, (read_blocks_runs dev medium); unfold encrypted_block_offset; rewrite ?Hsize; lia|].
  intros r s' (d & -> & -> & Ha). cbn [fst snd]. rewrite Hsize, drop_ge, app_nil_r by lia. rewrite bool_decide_true by done. cbn [negb]. pose proof (plain_agree s d Ha) as Hag.
  eapply runs_step; [reflexivity|]. cbn [config set_underlying]. destruct (enabled (config s)) eqn:Hon.
  - eexists _, _. split; [|split; [reflexivity|exact Hag]]. rewrite <- (extent_agree plain s (set_underlying s d)) by done. rewrite <- (Z.add_0_r start) at 2 3.
    apply (decrypt_blocks_run (underlying s) start (set_underlying s d) (Z.to_nat c) 0 []); [lia|lia|lia|done|done|]. intros n. cbn [underlying set_underlying]. by rewrite Ha.
  - apply runs_ret. split; [|done]. f_equal. unfold extent. f_equal. apply list_fmap_ext. intros i k _. unfold plain. rewrite Hon. f_equal. lia.
Qed.

(** What the blocks of [buf] encrypt to. *)
Definition ciphertexts (c : disk_encryption_config_t) (start : Z) (buf : list Z) (n : nat) : list (list Z) := (fun i => enc c (start + Z.of_nat i) (take 512 (drop (i * 512) buf))) <$> seq 0 n.

Lemma piece_sector buf n i : bytes buf -> (n * 512 <= length buf)%nat -> (i < n)%nat -> sector (take 512 (drop (i * 512) buf)).
Proof. intros Hb Hl Hi. split; [rewrite length_take, length_drop; lia|by apply Forall_take, Forall_drop]. Qed.

Lemma ciphertexts_ok c start buf n : bytes buf -> (n * 512 <= length buf)%nat -> Forall sector (ciphertexts c start buf n).
Proof.
  intros Hb Hl. apply Forall_fmap, List.Forall_forall. intros i [_ Hi]%in_seq. pose proof (piece_sector buf n i Hb Hl Hi) as Hp. exact (proj1 (proj2 (enc_ok c (start + Z.of_nat i) _ Hp))).
Qed.

Lemma ciphertexts_S c start buf n : ciphertexts c start buf (S n) = enc c start (take 512 buf) :: ciphertexts c (start + 1) (drop 512 buf) n.
Proof.
  unfold ciphertexts. cbn [seq fmap list_fmap]. f_equal; [by rewrite Z.add_0_r|]. rewrite <- fmap_S_seq, <- list_fmap_compose. apply list_fmap_ext. intros i k _. cbn [compose]. f_equal; [lia|]. by rewrite drop_drop.
Qed.

Lemma encrypt_blocks_run start (s : st) n : forall i buf pre room, 0 <= i -> 0 <= start -> start + i + Z.of_nat n <= block_count dev - 1 -> length pre = Z.to_nat (i * 512) -> length room = (n * 512)%nat ->
  length buf = (Z.to_nat (i * 512) + n * 512)%nat -> bytes buf -> encrypt_blocks n start i buf (pre ++ room) s = Ret (ERR_OK, pre ++ concat (ciphertexts (config s) (start + i) (drop (Z.to_nat (i * 512)) buf) n)) s.
Proof.
  induction n as [|n IH]; intros i buf pre room Hi Hs Hle Hp Hr Hb Hby; cbn [encrypt_blocks]; [by destruct room|]. rewrite ciphertexts_S. unfold BLOCK_SIZE. change (Z.to_nat 512) with 512%nat.
  erewrite bind_run by (apply rd_run; lia). pose proof disk_count. rewrite (wrap_small 64) by fits_lia. set (x := take 512 (drop (Z.to_nat (i * 512)) buf)).
  assert (Hx : sector x) by (split; [unfold x; rewrite length_take, length_drop; lia|by apply Forall_take, Forall_drop]). destruct (enc_ok (config s) (start + i) x Hx) as (_ & [Hel Heb] & _).
  erewrite bind_run by (by apply enc_spec). cbn [fst snd]. rewrite bool_decide_true by done. cbn [negb]. erewrite bind_run by (apply wr_run; rewrite length_app; lia).
  assert (Hw : buf_write (pre ++ room) (Z.to_nat (i * 512)) (enc (config s) (start + i) x) = (pre ++ enc (config s) (start + i) x) ++ drop 512 room).
  { unfold buf_write. rewrite take_app_length' by done. rewrite Hel, <- app_assoc. do 2 f_equal. rewrite drop_app_ge by lia. f_equal. lia. }
  rewrite Hw, IH; [|lia|lia|lia|rewrite length_app, Hel; lia|rewrite length_drop; lia|lia|done]. cbn [concat]. replace (Z.to_nat ((i + 1) * 512)) with (Z.to_nat (i * 512) + 512)%nat by lia. by rewrite <- app_assoc, drop_drop, <- (Z.add_assoc start i 1).
Qed.

(** Block by block. *)
Lemma ciphertexts_pieces cf start b c x : 0 <= c -> length b = Z.to_nat (c * 512) -> bytes b -> x = (if enabled cf then concat (ciphertexts cf start b (Z.to_nat c)) else b) ->
  length x = Z.to_nat (c * 512) /\ bytes x /\ forall i, 0 <= i < c -> take 512 (drop (Z.to_nat (i * 512)) x) = if enabled cf then enc cf (start + i) (take 512 (drop (Z.to_nat (i * 512)) b)) else take 512 (drop (Z.to_nat (i * 512)) b).
Proof.
  intros Hc Hb Hby ->. destruct (enabled cf); [|done]. pose proof (ciphertexts_ok cf start b (Z.to_nat c) Hby ltac:(lia)) as Hs.
  assert (Hlen : Forall (fun l => length l = 512%nat) (ciphertexts cf start b (Z.to_nat c))) by (eapply Forall_impl; [|exact Hs]; by intros l [? _]).
  split; [rewrite (concat_length 512) by done; unfold ciphertexts; rewrite length_fmap, length_seq; lia|]. split; [apply Forall_concat; eapply Forall_impl; [|exact Hs]; by intros l [_ ?]|].
  intros i Hi. assert (Hlk : ciphertexts cf start b (Z.to_nat c) !! Z.to_nat i = Some (enc cf (start + i) (take 512 (drop (Z.to_nat (i * 512)) b)))).
  { unfold ciphertexts. rewrite list_lookup_fmap, lookup_seq_lt by lia. cbn [fmap option_fmap option_map]. do 2 f_equal; [lia|]. do 2 f_equal. lia. }
  pose proof (concat_read 512 0 512 _ _ _ Hlen Hlk ltac:(lia)) as E. rewrite Nat.add_0_r in E. replace (Z.to_nat (i * 512)) with (Z.to_nat i * 512)%nat at 1 by lia. rewrite E, drop_0.
  apply take_ge. rewrite (Forall_lookup_1 _ _ _ _ Hlen Hlk). done.
Qed.

Lemma write_blocks_spec start c b (s : st) : 0 <= start -> 0 < c -> start + c <= block_count dev - 1 -> length b = Z.to_nat (c * 512) -> bytes b ->
  runs (encrypted_write_blocks dev mem_ok garbage start c b) (fun e s' => e = ERR_OK /\ stored plain 512 start c b s s') s.
Proof.
  intros Hs Hc Hle Hb Hby. unfold encrypted_write_blocks. rewrite physical_small by lia. assert (Hu : u64 (c * BLOCK_SIZE) = c * 512) by (apply wrap_small; unfold BLOCK_SIZE; fits_lia). rewrite Hu.
  eapply runs_step; [reflexivity|]. cbv beta. rewrite mem_ok_all. set (room := garbage _ <$> _). assert (Hrl : length room = (Z.to_nat c * 512)%nat) by (unfold room; rewrite length_fmap, length_seq; lia).
  rewrite bool_decide_false by (intros ->; cbn in Hrl; lia). eapply runs_step; [reflexivity|]. cbn [config]. set (s1 := {| underlying := underlying s; config := config s; e_allocs := S (e_allocs s) |}).
  set (x := if enabled (config s) then concat (ciphertexts (config s) start b (Z.to_nat c)) else b).
  eapply (runs_step _ _ _ _ (ERR_OK, x) s1).
  { unfold x. destruct (enabled (config s)).
    - pose proof (encrypt_blocks_run start s1 (Z.to_nat c) 0 b [] room) as E. rewrite Z.add_0_r in E. apply E; done || lia.
    - erewrite bind_run by (apply rd_run; cbn; lia). erewrite bind_run by (apply wr_run; rewrite length_take, length_drop; cbn; lia). unfold ret. do 2 f_equal. rewrite drop_0, take_ge by lia. unfold buf_write. cbn [take app]. rewrite drop_ge by (cbn; lia). by rewrite app_nil_r. }
  cbn [fst snd]. rewrite bool_decide_true by done. cbn [negb].
  destruct (ciphertexts_pieces (config s) start b c x) as (Hxl & Hxb & Hx); [lia|done|done|done|]. pose proof (physical_small start) as Hph.
  eapply runs_mono; [apply on_underlying_runs, (write_blocks_runs dev medium); [unfold encrypted_block_offset; lia|done|unfold encrypted_block_offset; lia|rewrite Hsize, Hxl; done|done]|]. intros e s' (d & -> & -> & Hst). split; [done|]. rewrite Hsize in Hst.
  refine (plain_stored start c b x s1 d _ _ Hx Hst); [lia|]. intros i Hi. replace (Z.to_nat (i * 512)) with (Z.to_nat i * 512)%nat by lia. apply (piece_sector b (Z.to_nat c)); [done|lia|lia].
Qed.

Lemma encrypted_disk : Disk (wrapper dev mem_ok garbage) plain.
Proof.
  split; cbn [block_size block_count read_block write_block read_blocks write_blocks wrapper]; rewrite ?count_wrapped, ?Hsize.
  - lia.
  - pose proof disk_count. fits_lia.
  - intros s n. apply plain_sector.
  - eexists. split; [done|]. intros n b s Hn Hb. destruct (read_block_spec n b s Hn Hb) as (r & s' & E & -> & Ha). by exists s'.
  - eexists. split; [done|]. intros n b s Hn Hb Hby. destruct (write_block_spec n b s Hn Hb Hby) as (e & s' & E & -> & Ha). by exists s'.
  - intros f [= <-] n c b s Hn Hc Hle Hb. destruct (read_blocks_spec n c b s Hn Hc Hle Hb) as (r & s' & E & -> & Ha). by exists s'.
  - intros f [= <-] n c b s Hn Hc Hle Hb Hby. destruct (write_blocks_spec n c b s Hn Hc Hle Hb Hby) as (e & s' & E & -> & Ha). by exists s'.
Qed.

(** C12. Encryption is transparent.  For a disk with blocks of 512 bytes and fewer than 2^64
    bytes, the encrypting device is a disk again, with one block less: whatever holds of
    all disks, as the file systems above, holds of it.  A block that is written while
    encryption is enabled is stored as its encryption under the key and the number of the
    block; the other blocks, with the first one, are as before. *)
Theorem encryption_transparent : Disk (wrapper dev mem_ok garbage) plain /\
  forall n b s, 0 <= n < block_count dev - 1 -> sector b -> enabled (config s) = true ->
    runs (block_device_write (wrapper dev mem_ok garbage) n b) (fun e s' => e = ERR_OK /\ config s' = config s /\
      medium (underlying s') (n + 1) = enc (config s) n b /\ forall m, m <> n + 1 -> medium (underlying s') m = medium (underlying s) m) s.
Proof.
  split; [exact encrypted_disk|]. intros n b s Hn [Hb Hby] Hon. unfold block_device_write. cbn [block_count write_block wrapper block_size]. rewrite count_wrapped, Hsize, (proj2 (Z.leb_gt _ _)) by lia. change (Z.to_nat 512) with 512%nat.
  rewrite (proj2 (Nat.ltb_ge _ _)), take_ge by lia. unfold encrypted_write_block. rewrite physical_small by done. eapply runs_step; [reflexivity|]. eapply runs_step; [apply rd_run; rewrite Hb; done|]. cbv beta.
  change (take _ (drop _ b)) with (take 512 b). rewrite take_ge, Hon by lia. eapply runs_step; [by apply enc_spec|]. cbn [fst snd]. rewrite bool_decide_true by done. cbn [negb]. destruct (enc_ok (config s) n b (conj Hb Hby)) as (_ & [Hel Heb] & _).
  eapply runs_mono; [apply on_underlying_runs, (write_runs dev medium); [unfold encrypted_block_offset; lia|rewrite Hsize, Hel; done|done]|]. intros e s' (d & -> & -> & Hst). cbn [underlying config set_underlying]. unfold encrypted_block_offset in Hst. split; [done|]. split; [done|]. split.
  - rewrite Hst. replace (_ && _) with true by lia. replace (n + 1 - (1 + n)) with 0 by lia. rewrite Hsize, drop_0, take_ge by (rewrite Hel; done). done.
  - intros m Hm. rewrite Hst. by replace (_ && _) with false by lia.
Qed.

End transparent.

(** Larger blocks.  On a disk whose blocks are larger than 512 bytes every write to the
    encrypting device reads behind the array that holds the encrypted block. *)
Theorem encryption_large_blocks_overrun {D} (dev : block_device_t D) medium `{!Disk dev medium} mem_ok garbage n b s :
  512 < block_size dev -> 1 <= block_count dev -> 0 <= n < block_count dev - 1 -> length b = Z.to_nat (block_size dev) -> bytes b -> block_device_write (wrapper dev mem_ok garbage) n b s = Fault.
Proof.
  intros Hsize Hc Hn Hb Hby. pose proof disk_count as Hfit. destruct disk_write as (f & Hf & _). unfold block_device_write. cbn [block_count write_block wrapper block_size].
  rewrite (wrap_small 64) by fits_lia. rewrite (proj2 (Z.leb_gt _ _)) by lia. rewrite (proj2 (Nat.ltb_ge _ _)), take_ge by lia. unfold encrypted_write_block. erewrite bind_run by reflexivity. erewrite bind_run by (apply rd_run; unfold BLOCK_SIZE; lia).
  set (x := take _ (drop _ b)). assert (Hx : sector x) by (split; [unfold x, BLOCK_SIZE; rewrite length_take, length_drop; lia|by apply Forall_take, Forall_drop]).
  erewrite (bind_run _ _ _ (ERR_OK, if enabled (config s) then enc (config s) n x else x) s) by (destruct (enabled (config s)); [by apply enc_spec|done]). cbn [fst snd]. rewrite bool_decide_true by done. cbn [negb].
  assert (Hl : length (if enabled (config s) then enc (config s) n x else x) = 512%nat) by (destruct (enabled (config s)); [apply (enc_ok (config s) n x Hx)|apply Hx]).
  unfold on_underlying, block_device_write. unfold encrypted_block_offset. rewrite (wrap_small 64) by fits_lia. rewrite (proj2 (Z.leb_gt _ _)) by lia. rewrite Hf, (proj2 (Nat.ltb_lt _ _)) by (rewrite Hl; lia). done.
Qed.

(** ** An example *)

Definition sample_config : disk_encryption_config_t := {| cipher_type := CRYPTO_CIPHER_AES256; key := Z.of_nat <$> seq 0 32; enabled := true |}.

Lemma encryption_transparent_witness :
  Disk (wrapper (ram_device 4 512) (fun _ => true) (fun _ _ => 0)) (plain (ram_medium 512)) /\
  runs (block_device_write (wrapper (ram_device 4 512) (fun _ => true) (fun _ _ => 0)) 2 (replicate 512 7)) (fun e s' => e = ERR_OK /\ ram_medium 512 (underlying s') 3 = enc sample_config 2 (replicate 512 7))
    {| underlying := ∅; config := sample_config; e_allocs := 0 |}.
Proof.
  destruct (@encryption_transparent _ (ram_device 4 512) (ram_medium 512) (ram_disk 4 512 ltac:(fits_lia) ltac:(lia)) (fun _ => true) (fun _ _ => 0) (fun _ => eq_refl) eq_refl ltac:(cbn; lia)) as [H1 H2]. split; [exact H1|].
  eapply runs_mono; [apply H2; [cbn; lia|split; [done|apply Forall_replicate; fits_lia]|done]|]. intros e s' (He & _ & H & _). split; [exact He|exact H].
Defined.

Lemma encryption_large_blocks_overrun_witness : block_device_write (wrapper (ram_device 4 1024) (fun _ => true) (fun _ _ => 0)) 2 (replicate 1024 7) {| underlying := ∅; config := sample_config; e_allocs := 0 |} = Fault.
Proof.
  apply (@encryption_large_blocks_overrun _ (ram_device 4 1024) (ram_medium 1024) (ram_disk 4 1024 ltac:(fits_lia) ltac:(lia))); [cbn; lia|cbn; lia|cbn; lia|done|apply Forall_replicate; fits_lia].
Defined.
